(* ===== verification/_CoqProject ===== *)
-Q . S2P
Prelude.v
NgxNumber.v
NgxEscape.v
NgxBase64.v
NgxPrintf.v
NgxTime.v
NgxRadixTree.v
NgxState.v
NgxRbtree.v
NgxEventTimer.v
NgxQueue.v
NgxCrc32.v
NgxKeyTree.v
NgxLocks.v
NgxQuicTransport.v
NgxQuicAck.v
NgxQuicBuffer.v
NgxQuicStream.v
HttpRequest.v
HttpRequestLine.v
HttpHeaderLine.v
HttpUri.v
HttpChunked.v
HttpLocation.v
HttpRange.v
HttpHuffTables.v
HttpHuffman.v
HttpV2Table.v
HttpHpack.v
HttpV2Request.v
HttpLimitReq.v
UpstreamRoundRobin.v
