(* ===== verification/Prelude.v ===== *)
(** * A verification of the core of nginx 1.25.0

    The sources verified are those of nginx 1.25.0 under
    [nginx/b_正向代理服务/workdir/nginx-1.25.0/src/] in the repository; file
    names below are relative to that [src/] directory.

    ** The program

    nginx reads HTTP requests from buffers as they come from the network.
    The parts that decide what a request means are incremental parsers: state
    machines over bytes that stop at the end of a buffer and go on with the
    next one.  ngx_http_parse_request_line() marks the parts of the first line
    in the buffer; ngx_http_process_request_uri() takes the URI from it, as it
    stands or normalized by ngx_http_parse_complex_uri(), and the result
    selects a location in the tree of the configuration;
    ngx_http_parse_header_line() marks one header at a time and computes the
    hash under which the header is looked up; the body goes through
    ngx_http_request_body_chunked_filter(), which runs
    ngx_http_parse_chunked() over the buffers and edits them in place.  With
    HTTP/2 the same request is made from a header block, which the handlers of
    ngx_http_v2.c decode with the tables and the Huffman code of HPACK; with
    HTTP/3 it comes over QUIC, whose packets carry frames with pieces of
    streams that are put together again in reassembly buffers.  All of them
    rest on the string library: number parsers, escaping, base64, the
    formatted printing that every log line and header uses, and dates.

    A request is limited in its rate by buckets in shared memory, passed to an
    upstream server, which the load balancer chooses, or answered by a range
    of a content.  Below are the containers and the clockwork: red-black
    trees, which hold the timers and the buckets, queues, radix trees of
    address prefixes, checksums, and the locks of shared memory.

    ** The files

    The library and its foundations:

    - [Prelude]: bytes, return codes, integer widths ([Platform], an instance
      for each data model that configure may find), the generic scanner
      [scan] over a buffer, bitmaps, slices of a buffer, hexadecimal digits,
      the option monad, tactics and the hint database [nginx].
    - [NgxState]: the state monad of programs that read and write memory, with
      weakest preconditions.
    - [NgxNumber]: ngx_atoi() and its variants, ngx_atofp(), ngx_hextoi()
      (core/ngx_string.c), ngx_parse_size(), ngx_parse_offset(),
      ngx_parse_time() (core/ngx_parse.c).
    - [NgxEscape]: ngx_escape_uri(), ngx_unescape_uri(), ngx_escape_html(),
      ngx_escape_json(), ngx_hex_dump() (core/ngx_string.c).
    - [NgxBase64]: the encoders and decoders (core/ngx_string.c).
    - [NgxPrintf]: ngx_vslprintf() and its wrappers (core/ngx_string.c).
    - [NgxTime]: ngx_gmtime(), ngx_http_time(), ngx_http_cookie_time()
      (core/ngx_times.c), ngx_parse_http_time() (core/ngx_parse_time.c).
    - [NgxCrc32]: the checksums of core/ngx_crc32.c and core/ngx_crc32.h.
    - [NgxRadixTree]: the trees of address prefixes (core/ngx_radix_tree.c),
      on a heap of nodes.
    - [NgxRbtree]: the red-black trees of core/ngx_rbtree.c, on a heap of
      nodes; [NgxKeyTree]: those of strings under their hashes, as the limits
      use them; [NgxEventTimer]: the timers (event/ngx_event_timer.c).
    - [NgxQueue]: the queues of core/ngx_queue.h and core/ngx_queue.c.
    - [NgxLocks]: the reader-writer locks and the mutexes of shared memory
      (core/ngx_rwlock.c, core/ngx_shmtx.c) as interleaved processes.

    HTTP/1 and the processing of requests:

    - [HttpRequest]: the fields of [ngx_http_request_t] that the parsers use,
      with their setters, and the [usual] bitmap.
    - [HttpRequestLine]: ngx_http_parse_request_line(); the comparison macros
      for methods are a class with the word-wise and the byte-wise builds as
      instances.
    - [HttpHeaderLine]: ngx_http_parse_header_line(), ngx_hash_key_lc().
    - [HttpUri]: ngx_http_parse_uri(), ngx_http_parse_complex_uri()
      (http/ngx_http_parse.c), ngx_http_process_request_uri()
      (http/ngx_http_request.c).
    - [HttpChunked]: ngx_http_parse_chunked() and the loop of
      ngx_http_request_body_chunked_filter() (http/ngx_http_request_body.c).
    - [HttpLocation]: the locations of a level, from the configuration to the
      search (http/ngx_http.c, http/ngx_http_core_module.c).
    - [HttpRange]: the range filters
      (http/modules/ngx_http_range_filter_module.c).
    - [HttpLimitReq]: the limits on the rate of requests
      (http/modules/ngx_http_limit_req_module.c), on [NgxRbtree], [NgxQueue],
      [NgxKeyTree] and [NgxCrc32].
    - [UpstreamRoundRobin]: the load balancer
      (http/ngx_http_upstream_round_robin.c) and the system of requests that
      use it, as a step relation.

    HTTP/2 and QUIC:

    - [HttpHuffTables], [HttpHuffman]: the Huffman code
      (http/ngx_http_huff_decode.c, http/ngx_http_huff_encode.c).
    - [HttpV2Table]: the static and the dynamic table of HPACK
      (http/v2/ngx_http_v2_table.c).
    - [HttpHpack]: the handlers of header blocks (http/v2/ngx_http_v2.c) and
      the encoder of strings (http/v2/ngx_http_v2_encode.c); what the request
      makes of a field is a parameter, for which [HttpV2Request] gives the
      validation of fields, the pseudo-headers, the host
      (http/ngx_http_request.c), the cookies and the request line.
    - [NgxQuicTransport]: frames, packet numbers and packet headers
      (event/quic/ngx_event_quic_transport.c and its neighbours).
    - [NgxQuicAck]: the ranges of packets received and the handling of ACK
      frames (event/quic/ngx_event_quic_ack.c), on the frames of
      [NgxQuicTransport].
    - [NgxQuicBuffer]: the reassembly buffers
      (event/quic/ngx_event_quic_frames.c); [NgxQuicStream]: both halves of a
      stream and CRYPTO frames on them (event/quic/ngx_event_quic_streams.c,
      event/quic/ngx_event_quic_ssl.c).

    ** How the code is represented

    A buffer is a [list Z] of bytes and a pointer into it a [nat]; where the
    code writes to the buffer it reads (the chunked filter) the memory is
    threaded through the definitions.  A [switch] on a parser's state is a
    function of the state, the record of variables and the byte; the loop over
    a buffer is [scan] or a [Fixpoint] on the rest of the input.  A [goto] out
    of the loop is a constructor of the type that the step returns.  Linked
    nodes are a [gmap] from addresses to records, and the programs on them are
    in the monad of [NgxState], in which a bad access is a failure; the
    theorems show that there is none.  Handlers that call each other at their
    end (header blocks) are steps which name the next one.  Processes that
    share memory, and requests that share peers, are step relations with every
    interleaving.  Integers are [Z] with the wrap-around of their type written
    out ([wrapu], [to_signed], [u64]) where it can occur; the type's size is a
    field of [Platform].

    Loops that are not structural take fuel, which is enough, so that no
    result is about a computation cut short.  It is the length of the input
    for the parsers and for the frames and ACK ranges of a packet; twice the
    number of nodes and two for red-black trees, the number of nodes and one
    for queues; three for the expiry of buckets, which counts to three; five
    steps for every byte of a header block and four more; ten for the bytes of
    an integer; the number of live entries for the loops of the table of
    HPACK; and a measure of the bytes and gaps for the writes to a reassembly
    buffer.  The theorems of the components run the definitions with this fuel
    and state that they return.

    Allocations succeed, except where the code's answer to a failure is
    modelled: in the radix trees, the tables and blocks of HPACK, the limits on
    requests, the acknowledgements and buffers of QUIC, and where a theorem
    speaks of memory.

    ** What is proved

    - URIs: normalization computes the normal form of the decoded path and
      refuses exactly the bad ones ([complex_uri_normalizes]); its results
      cannot leave the document root ([complex_uri_safe]); it stays inside the
      buffer allocated for it ([complex_uri_no_overflow]); and skipping it for
      simple URIs changes nothing ([fast_path_equiv]).
    - Request and header lines: what is accepted is safe ([..._safe]), what is
      well formed is accepted and read exactly ([..._parses]), and cutting the
      input into buffers makes no difference ([..._resume]).
    - Chunked bodies: the filter refines a byte-by-byte decoder
      ([chunked_filter_refines]), accepts exactly the grammar
      ([chunked_roundtrip], [chunked_accepts_grammar]), asks for exactly the
      bytes that are needed ([chunked_length_tight]) without overflow
      ([chunked_no_overflow]).
    - Locations: the search finds the location that the documented rule names
      ([find_location_exact]).
    - Ranges: the header is read exactly, with the code of every refusal
      ([range_parse_exact]), and what is sent is what the headers announce
      ([range_response_exact]).
    - Limits: a zone implements a list of buckets ([limit_req_refines]) and
      bounds the rate of a key while the zone has room ([limit_req_rate]).
    - Load balancing: the accounts kept for the peers are right and their
      weights in range in every reachable state ([round_robin_invariant]), a
      request gets the peer it should ([round_robin_choice]), and steady peers
      serve by weight ([round_robin_fair]).
    - HTTP/2: the Huffman code is decoded exactly ([huffman_decode_exact],
      [huffman_roundtrip]); the tables are the list of RFC 7541
      ([hpack_table_refines]); header blocks mean what the RFC says, cut
      anywhere ([header_block_decodes], [header_block_resume]), in bounded
      buffers ([field_buffer_bound]); and a request that comes out of one is
      well formed ([v2_request_well_formed], [cookie_header_joins]).
    - QUIC: frames and headers survive the wire ([frames_roundtrip],
      [header_roundtrip], [packet_number_recovered]), reading ends
      ([frames_read]); acknowledgements report the packets received
      ([ack_packet_refines], [ack_exchange]); reassembly buffers are partial
      functions from offsets to bytes ([buffer_refines]); streams and CRYPTO
      data are delivered in order, whatever happens to the frames
      ([stream_delivers], [stream_end_to_end], [crypto_in_order]).
    - Containers, timers and locks: the trees and queues implement sorted and
      plain lists ([rbtree_refines], [queue_refines]), radix trees maps of
      prefixes ([radix_updates_refine], [radix_find_longest]); expired timers
      fire in order ([expire_timers_fires], [timer_operations_refine]); locks
      exclude and their wakeups are not lost ([rwlock_excludes],
      [shmtx_excludes], [shmtx_wakes]).
    - Library: number parsers return the value denoted or an error, exactly at
      the limits of the type ([..._exact]); escaping, base64, numbers and
      dates survive a round trip ([..._roundtrip]); sizes computed in advance
      are exact and limits are respected ([escape_sizes_exact],
      [snprintf_truncates]); dates are those of the calendar ([gmtime_exact],
      [parse_http_time_exact]); checksums are those of the polynomial
      ([crc32_exact]).

    ** What is not modelled

    Input and output, the event loop, processes, the configuration language,
    TLS, logging and the modules that drive them: they are system calls and
    callbacks around the parts above.  The allocators (pools and the slab
    allocator) are parameters of the components that depend on them.  Of the
    components modelled are left out: the parts compiled only under NGX_WIN32;
    nested levels of locations and the regular expressions; the creation,
    lookup and closing of QUIC streams, losses, congestion and keys; the
    frames of HTTP/2 other than HEADERS and CONTINUATION.  The other parsers
    of http/ngx_http_parse.c, the other balancers and limits, QPACK, addresses
    and the remaining containers and digests have no model here. *)

From Stdlib Require Import String Ascii ZArith Bool Lia ZifyBool List.
Import ListNotations.

Local Open Scope Z_scope.

(** ** Characters and byte strings

    A [u_char] is a [Z] between 0 and 255, a buffer is a [list Z].
    [chr "x"] is the code of the ASCII character [x], as a numeral, so that
    [lia] sees a constant where the C source has a character literal. *)

Declare Scope nginx_scope.
Delimit Scope nginx_scope with nginx.

Definition code (a : ascii) : Z := Z.of_N (N_of_ascii a).

Notation "'chr' a" :=
  (ltac:(let v := eval vm_compute in (code a%char) in exact v))
  (at level 9, a at level 0, only parsing) : nginx_scope.

Notation "'CR'" := 13 (only parsing) : nginx_scope.
Notation "'LF'" := 10 (only parsing) : nginx_scope.

Open Scope nginx_scope.

Definition bs (s : string) : list Z := map code (list_ascii_of_string s).

Definition is_byte (c : Z) : Prop := 0 <= c < 256.

Definition bytes (l : list Z) : Prop := Forall is_byte l.

Example bs_sample : bs "GET" = [71; 69; 84].
Proof. reflexivity. Qed.

Example chr_sample : (chr "/" : Z) = 47.
Proof. reflexivity. Qed.

(** ** Return codes of [src/core/ngx_core.h] *)

Definition NGX_OK : Z := 0.
Definition NGX_ERROR : Z := -1.
Definition NGX_AGAIN : Z := -2.
Definition NGX_BUSY : Z := -3.
Definition NGX_DONE : Z := -4.
Definition NGX_DECLINED : Z := -5.
Definition NGX_ABORT : Z := -6.

(** ** The platform

    [auto/types/sizeof] probes the size of a type and defines the matching
    [NGX_MAX_*_VALUE]; it stops the configuration when the size is neither 4
    nor 8.  A [Platform] records the outcome of the probes the modelled code
    depends on, and every definition that uses such a bound is generic in
    it. *)

Inductive type_size := size4 | size8.

Definition max_value (s : type_size) : Z :=
  match s with
  | size4 => 2147483647
  | size8 => 9223372036854775807
  end.

Definition bits (s : type_size) : Z :=
  match s with size4 => 32 | size8 => 64 end.

Class Platform := {
  ptr_size : type_size;      (* intptr_t, hence ngx_int_t and ngx_uint_t *)
  size_t_size : type_size;
  off_t_size : type_size;
  time_t_size : type_size;
  long_size : type_size;
  rlim_t_size : type_size
}.

Definition NGX_MAX_INT_T_VALUE `{Platform} : Z := max_value ptr_size.
Definition NGX_MAX_SIZE_T_VALUE `{Platform} : Z := max_value size_t_size.
Definition NGX_MAX_OFF_T_VALUE `{Platform} : Z := max_value off_t_size.
Definition NGX_MAX_TIME_T_VALUE `{Platform} : Z := max_value time_t_size.

(** The two data models nginx is built for most often. *)
Definition lp64 : Platform :=
  {| ptr_size := size8; size_t_size := size8;
     off_t_size := size8; time_t_size := size8;
     long_size := size8; rlim_t_size := size8 |}.

Definition ilp32 : Platform :=
  {| ptr_size := size4; size_t_size := size4;
     off_t_size := size8; time_t_size := size4;
     long_size := size4; rlim_t_size := size8 |}.

(** Wrap-around of an unsigned type, and the signed reading of its bits. *)
Definition wrapu (s : type_size) (x : Z) : Z := x mod 2 ^ bits s.

Definition to_signed (s : type_size) (x : Z) : Z :=
  if wrapu s x <=? max_value s then wrapu s x else wrapu s x - 2 ^ bits s.

Lemma max_value_bits s : max_value s = 2 ^ (bits s - 1) - 1.
Proof. destruct s; reflexivity. Qed.

Lemma max_value_pos s : 2147483647 <= max_value s.
Proof. destruct s; simpl; lia. Qed.

Lemma max_value_10 s : max_value s = 10 * (max_value s / 10) + 7.
Proof. destruct s; reflexivity. Qed.

Lemma max_value_mod10 s : max_value s mod 10 = 7.
Proof. destruct s; reflexivity. Qed.

Lemma max_value_16 s : max_value s = 16 * (max_value s / 16) + 15.
Proof. destruct s; reflexivity. Qed.

Lemma wrapu_small s x : 0 <= x < 2 ^ bits s -> wrapu s x = x.
Proof. apply Z.mod_small. Qed.

(** What fits in 32 bits does not wrap in either size. *)
Lemma wrapu_uint32 s x : 0 <= x <= 4294967295 -> wrapu s x = x.
Proof.
  intros H. apply wrapu_small. destruct s; cbn [bits];
    [change (2 ^ 32) with 4294967296 | change (2 ^ 64) with 18446744073709551616]; lia.
Qed.

Lemma wrapu_uint64 x : 0 <= x <= 18446744073709551615 -> wrapu size8 x = x.
Proof.
  intros H. apply wrapu_small. cbn [bits]. change (2 ^ 64) with 18446744073709551616. lia.
Qed.

(** What fits in a signed type does not wrap, and the wrap-around of a sum
    may be done at the end. *)
Lemma to_signed_id s x : - max_value s - 1 <= x <= max_value s -> to_signed s x = x.
Proof.
  intros H. assert (2 ^ bits s = 2 * (max_value s + 1)) as E by (destruct s; reflexivity).
  pose proof (max_value_pos s) as Hp. unfold to_signed, wrapu. rewrite E. set (h := max_value s) in *.
  destruct (Z_lt_le_dec x 0).
  - replace (x mod (2 * (h + 1))) with (x + 2 * (h + 1)) by (apply (Z.mod_unique _ _ (-1)); lia).
    replace (x + 2 * (h + 1) <=? h) with false by lia. lia.
  - rewrite Z.mod_small by lia. replace (x <=? h) with true by lia. reflexivity.
Qed.

Lemma to_signed_cong s x y : wrapu s x = wrapu s y -> to_signed s x = to_signed s y.
Proof. intros H. unfold to_signed. rewrite H. reflexivity. Qed.

Lemma wrapu_to_signed s x : wrapu s (to_signed s x) = wrapu s x.
Proof.
  unfold to_signed. destruct (wrapu s x <=? max_value s); unfold wrapu.
  - apply Zmod_mod.
  - rewrite <-(Z_mod_plus_full (x mod 2 ^ bits s - 2 ^ bits s) 1), Z.mul_1_l, Z.sub_add. apply Zmod_mod.
Qed.

Lemma to_signed_add_l s x y : to_signed s (to_signed s x + y) = to_signed s (x + y).
Proof.
  apply to_signed_cong. pose proof (wrapu_to_signed s x) as H. unfold wrapu in *.
  rewrite <-Zplus_mod_idemp_l, H, Zplus_mod_idemp_l. reflexivity.
Qed.

(** ** Tactics

    [split_ifs] destructs the conditions of a goal one after the other and
    keeps the equations, which [lia] reads through [ZifyBool]. *)

Ltac split_if :=
  match goal with
  | |- context [if ?b then _ else _] =>
      match b with
      | context [if _ then _ else _] => fail 1
      | _ => destruct b eqn:?
      end
  end.

Ltac split_ifs := repeat (split_if; try discriminate).

Ltac split_if_in H :=
  match type of H with
  | context [if ?b then _ else _] =>
      match b with
      | context [if _ then _ else _] => fail 1
      | _ => destruct b eqn:?
      end
  end.

Ltac split_ifs_in H := repeat (split_if_in H; try discriminate H).

Ltac inv H := inversion H; subst; clear H.

Ltac destruct_ands :=
  repeat match goal with H : _ /\ _ |- _ => destruct H end.

(** Decide the condition of the leftmost [if] by [lia]. *)
Ltac if_true :=
  match goal with
  | |- context [if ?b then _ else _] => replace b with true by lia
  end.

Ltac if_false :=
  match goal with
  | |- context [if ?b then _ else _] => replace b with false by lia
  end.

(** Linear arithmetic with divisions by constants. *)
Ltac div_lia := Z.div_mod_to_equations; lia.

(** ** Errors

    Where the C code returns an error from the middle of a function the model
    is a computation in the option monad. *)

Definition bind {A B} (o : option A) (f : A -> option B) : option B :=
  match o with Some a => f a | None => None end.

Notation "'let*' x := o 'in' f" := (bind o (fun x => f))
  (at level 10, x pattern, f at level 200) : nginx_scope.

(** [return NGX_ERROR] unless the condition holds *)
Definition check (b : bool) : option unit := if b then Some tt else None.

(** ** Decimal and hexadecimal digit strings *)

Definition is_digit (c : Z) : bool := (48 <=? c) && (c <=? 57).

Fixpoint dec_from (acc : Z) (l : list Z) : Z :=
  match l with
  | [] => acc
  | c :: l' => dec_from (acc * 10 + (c - 48)) l'
  end.

(** The number a string of decimal digits denotes. *)
Definition dec_value (l : list Z) : Z := dec_from 0 l.

Lemma dec_from_app acc l1 l2 :
  dec_from acc (l1 ++ l2) = dec_from (dec_from acc l1) l2.
Proof. revert acc; induction l1; simpl; auto. Qed.

Lemma dec_from_ge acc l :
  0 <= acc -> forallb is_digit l = true -> acc <= dec_from acc l.
Proof.
  revert acc; induction l as [|c l IH]; simpl; intros acc Ha Hd; [lia|].
  apply andb_prop in Hd as [Hc Hl]. unfold is_digit in Hc.
  specialize (IH (acc * 10 + (c - 48)) ltac:(lia) Hl). lia.
Qed.

Lemma dec_value_nonneg l : forallb is_digit l = true -> 0 <= dec_value l.
Proof. intros; apply dec_from_ge; [lia|assumption]. Qed.

(** ** Scanners

    The parsers of nginx share one shape: a loop over the bytes of a buffer
    that dispatches on a state, updates it and either goes on or leaves the
    loop with a result.  [scan step] is that loop: [step s p ch] is one
    iteration, [p] the position of the byte in the buffer. *)

Section Scan.
Context {S R : Type}.
Variable step : S -> nat -> Z -> S + R.

Fixpoint scan (s : S) (p : nat) (l : list Z) : (S * nat) + R :=
  match l with
  | [] => inl (s, p)
  | ch :: l' =>
      match step s p ch with
      | inl s' => scan s' (Datatypes.S p) l'
      | inr r => inr r
      end
  end.

Lemma scan_app s p l1 l2 :
  scan s p (l1 ++ l2) =
  match scan s p l1 with
  | inl (s', p') => scan s' p' l2
  | inr r => inr r
  end.
Proof.
  revert s p; induction l1 as [|c l1 IH]; intros s p; simpl; [reflexivity|].
  destruct (step s p c); [apply IH|reflexivity].
Qed.

Lemma scan_pos s p l s' p' :
  scan s p l = inl (s', p') -> p' = (p + length l)%nat.
Proof.
  revert s p; induction l as [|c l IH]; simpl; intros s p H.
  - injection H as <- <-. lia.
  - destruct (step s p c); [|discriminate]. apply IH in H. lia.
Qed.

(** Rule induction over a run: an invariant of the iterations holds when
    the input is used up, and what an iteration that leaves the loop
    guarantees holds of the result.  The iteration may use that [l] is the
    part of the memory [mem] that starts at [p] and ends at [last]. *)
Lemma scan_ind (mem : list Z) (last : nat) (I : nat -> S -> Prop) (Q : R -> Prop) :
  (forall s p ch s', I p s -> nth_error mem p = Some ch -> (p < last)%nat ->
     step s p ch = inl s' -> I (Datatypes.S p) s') ->
  (forall s p ch r, I p s -> nth_error mem p = Some ch -> (p < last)%nat ->
     step s p ch = inr r -> Q r) ->
  forall l s p, I p s -> (p + length l = last)%nat ->
    (forall k, (k < length l)%nat -> nth_error mem (p + k) = nth_error l k) ->
    match scan s p l with
    | inl (s', p') => I p' s' /\ p' = last
    | inr r => Q r
    end.
Proof.
  intros Hstep Hret l. induction l as [|c l IH]; intros s p HI Hlast Hm; simpl in *.
  - split; [assumption|lia].
  - assert (Hc : nth_error mem p = Some c).
    { specialize (Hm O ltac:(lia)). rewrite Nat.add_0_r in Hm. exact Hm. }
    destruct (step s p c) as [s'|r] eqn:E;
      [|apply (Hret s p c r); assumption || lia].
    apply IH; [apply (Hstep s p c s'); assumption || lia|lia|].
    intros k Hk. specialize (Hm (Datatypes.S k) ltac:(lia)).
    simpl in Hm. etransitivity; [|exact Hm]. f_equal. lia.
Qed.
End Scan.

(** ** Facts about bytes by exhaustion *)

Definition all_bytes : list Z := map Z.of_nat (seq 0 256).

Lemma byte_forall (f : Z -> bool) :
  forallb f all_bytes = true -> forall c, is_byte c -> f c = true.
Proof.
  intros Hf c [H0 H1]. rewrite forallb_forall in Hf. apply Hf.
  unfold all_bytes. apply in_map_iff. exists (Z.to_nat c).
  split; [lia|]. apply in_seq. lia.
Qed.

(** [c = (u_char) (ch | 0x20)] folds the case of letters. *)

Definition is_alpha (c : Z) : bool :=
  ((65 <=? c) && (c <=? 90)) || ((97 <=? c) && (c <=? 122)).

Lemma lor32_alpha c : is_byte c ->
  ((Z.lor c 32 >=? 97) && (Z.lor c 32 <=? 122)) = is_alpha c.
Proof.
  intros Hc. apply eqb_prop.
  apply (byte_forall (fun c =>
    Bool.eqb ((Z.lor c 32 >=? 97) && (Z.lor c 32 <=? 122)) (is_alpha c)));
    [vm_compute; reflexivity|assumption].
Qed.

Definition hex_digit (c : Z) : option Z :=
  if (48 <=? c) && (c <=? 57) then Some (c - 48)
  else if (97 <=? c) && (c <=? 102) then Some (c - 87)
  else if (65 <=? c) && (c <=? 70) then Some (c - 55)
  else None.

Definition opt_eqb (a b : option Z) : bool :=
  match a, b with
  | Some x, Some y => x =? y
  | None, None => true
  | _, _ => false
  end.

Lemma opt_eqb_eq a b : opt_eqb a b = true -> a = b.
Proof. destruct a, b; simpl; try discriminate; [intros; f_equal; lia|auto]. Qed.

(** The two-step test of a hexadecimal digit the C code uses everywhere. *)
Definition c_hex_digit (ch : Z) : option Z :=
  if (ch >=? chr "0") && (ch <=? chr "9") then Some (ch - chr "0")
  else
    let c := Z.lor ch 32 in
    if (c >=? chr "a") && (c <=? chr "f") then Some (c - chr "a" + 10)
    else None.

Lemma c_hex_digit_spec c : is_byte c -> c_hex_digit c = hex_digit c.
Proof.
  intros Hc. apply opt_eqb_eq.
  apply (byte_forall (fun c => opt_eqb (c_hex_digit c) (hex_digit c)));
    [vm_compute; reflexivity|assumption].
Qed.

Lemma hex_digit_range c d : hex_digit c = Some d -> 0 <= d < 16.
Proof. unfold hex_digit. split_ifs; intros [= <-]; lia. Qed.

Fixpoint hex_from (acc : Z) (l : list Z) : option Z :=
  match l with
  | [] => Some acc
  | c :: l' =>
      match hex_digit c with
      | Some d => hex_from (acc * 16 + d) l'
      | None => None
      end
  end.

(** The number a string of hexadecimal digits denotes. *)
Definition hex_value (l : list Z) : option Z := hex_from 0 l.

Lemma hex_from_ge acc l v : 0 <= acc -> hex_from acc l = Some v -> acc <= v.
Proof.
  revert acc; induction l as [|c l IH]; simpl; intros acc Ha H.
  - injection H as <-. lia.
  - destruct (hex_digit c) eqn:E; [|discriminate].
    apply hex_digit_range in E. apply IH in H; lia.
Qed.

(** ** Bit operations as arithmetic *)

Lemma lor_disjoint a b n :
  0 <= n -> 0 <= b < 2 ^ n -> Z.lor (a * 2 ^ n) b = a * 2 ^ n + b.
Proof.
  intros Hn Hb.
  assert (Hl : Z.land (a * 2 ^ n) b = 0).
  { apply Z.bits_inj'. intros i Hi. rewrite Z.land_spec, Z.bits_0.
    destruct (Z.lt_ge_cases i n).
    - rewrite Z.mul_pow2_bits_low by assumption. reflexivity.
    - rewrite <- (Z.mod_small b (2 ^ n)) by assumption.
      rewrite Z.mod_pow2_bits_high by lia. apply andb_false_r. }
  rewrite <- Z.lxor_lor by assumption. symmetry. apply Z.add_nocarry_lxor, Hl.
Qed.

(** A bit is tested with a mask of one bit. *)
Lemma land_bit w k : 0 <= k -> negb (Z.land w (Z.shiftl 1 k) =? 0) = Z.testbit w k.
Proof.
  intros Hk. rewrite Z.shiftl_1_l. destruct (Z.testbit w k) eqn:E.
  - apply negb_true_iff, Z.eqb_neq. intros H.
    assert (HT : Z.testbit (Z.land w (2 ^ k)) k = false) by (rewrite H; apply Z.bits_0).
    rewrite Z.land_spec, Z.pow2_bits_true, E in HT by assumption. discriminate.
  - apply negb_false_iff, Z.eqb_eq, Z.bits_inj'. intros n Hn.
    rewrite Z.land_spec, Z.pow2_bits_eqb, Z.bits_0 by assumption.
    destruct (Z.eqb_spec k n) as [->|]; [rewrite E; reflexivity|apply andb_false_r].
Qed.

Lemma land_ones_mod a m n : m = 2 ^ n - 1 -> 0 <= n -> Z.land a m = a mod 2 ^ n.
Proof. intros -> Hn. rewrite <- Z.land_ones by assumption. f_equal. rewrite Z.ones_equiv. lia. Qed.

(** Induction that follows a loop taking three bytes at a time. *)
Lemma list_ind3 {A} (Q : list A -> Prop) :
  Q [] -> (forall a, Q [a]) -> (forall a b, Q [a; b]) ->
  (forall a b c l, Q l -> Q (a :: b :: c :: l)) -> forall l, Q l.
Proof.
  intros H0 H1 H2 H3.
  enough (H : forall n l, (length l <= n)%nat -> Q l)
    by (intros l; apply (H (length l)); lia).
  induction n as [|n IH]; intros l Hl.
  - destruct l; [assumption|simpl in Hl; lia].
  - destruct l as [|a [|b [|c l]]]; auto. apply H3, IH. simpl in Hl. lia.
Qed.

(** ** Lengths as integers *)

Definition zlen {A} (l : list A) : Z := Z.of_nat (length l).

Lemma zlen_app {A} (l1 l2 : list A) : zlen (l1 ++ l2) = zlen l1 + zlen l2.
Proof. unfold zlen. rewrite length_app. lia. Qed.

Lemma zlen_cons {A} (x : A) l : zlen (x :: l) = 1 + zlen l.
Proof. unfold zlen. cbn [length]. lia. Qed.

(** ** Byte sets as bitmaps: [map[c >> 5] & (1U << (c & 0x1f))] *)

Definition in_bitmap (map : list Z) (c : Z) : bool :=
  negb (Z.land (nth (Z.to_nat (Z.shiftr c 5)) map 0)
               (Z.shiftl 1 (Z.land c 31)) =? 0).

(** ** Memory

    A buffer is a list of bytes and a pointer into it an offset from its
    start; NULL is [None].  [slice mem i j] is the memory from [i] up to
    [j]. *)

Definition slice (mem : list Z) (i j : nat) : list Z := firstn (j - i) (skipn i mem).

(** [m[i]]; 0 stands for a byte outside the memory, which the code never
    reads. *)
Definition byte_at (mem : list Z) (i : nat) : Z := nth i mem 0.

Lemma slice_length mem i j :
  (j <= length mem)%nat -> length (slice mem i j) = (j - i)%nat.
Proof. intros. unfold slice. rewrite length_firstn, length_skipn. lia. Qed.

Lemma slice_nth mem i j k :
  (k < j - i)%nat -> nth_error (slice mem i j) k = nth_error mem (i + k).
Proof.
  intros Hk. unfold slice. rewrite nth_error_firstn.
  replace (k <? j - i)%nat with true by (symmetry; apply Nat.ltb_lt; lia).
  apply nth_error_skipn.
Qed.

Lemma firstn_add {A} n m (l : list A) :
  firstn (n + m) l = firstn n l ++ firstn m (skipn n l).
Proof.
  revert l; induction n as [|n IH]; intros [|a l]; cbn [Nat.add firstn skipn app];
    rewrite ?firstn_nil; auto. f_equal. apply IH.
Qed.

Lemma slice_split mem i j k :
  (i <= j <= k)%nat -> slice mem i k = slice mem i j ++ slice mem j k.
Proof.
  intros H. unfold slice. replace (k - i)%nat with ((j - i) + (k - j))%nat by lia.
  rewrite firstn_add, skipn_skipn. repeat f_equal. lia.
Qed.

Lemma slice_app pre mid post :
  slice (pre ++ mid ++ post) (length pre) (length pre + length mid) = mid.
Proof.
  unfold slice. rewrite skipn_app, skipn_all, Nat.sub_diag. cbn [app skipn].
  replace (length pre + length mid - length pre)%nat with (length mid + 0)%nat by lia.
  rewrite firstn_app_2, firstn_O, app_nil_r. reflexivity.
Qed.

Lemma slice_empty mem i j : (j <= i)%nat -> slice mem i j = [].
Proof. intros. unfold slice. replace (j - i)%nat with O by lia. reflexivity. Qed.

Lemma slice_snoc mem i j c :
  (i <= j)%nat -> nth_error mem j = Some c -> slice mem i (S j) = slice mem i j ++ [c].
Proof.
  intros Hij Hc. rewrite (slice_split mem i j (S j)) by lia. f_equal.
  unfold slice. replace (S j - j)%nat with 1%nat by lia.
  apply nth_error_split in Hc as (l1 & l2 & -> & <-).
  rewrite skipn_app, skipn_all, Nat.sub_diag. reflexivity.
Qed.

Lemma byte_at_nth mem p ch : nth_error mem p = Some ch -> byte_at mem p = ch.
Proof. intros H. apply nth_error_nth, H. Qed.

Lemma bytes_nth mem p ch : bytes mem -> nth_error mem p = Some ch -> is_byte ch.
Proof. intros Hb Hn. eapply Forall_forall; [exact Hb|]. eapply nth_error_In, Hn. Qed.

Lemma bytes_app l1 l2 : bytes l1 -> bytes l2 -> bytes (l1 ++ l2).
Proof. intros H1 H2. apply Forall_app. split; assumption. Qed.

Lemma byte_at_byte mem i : bytes mem -> is_byte (byte_at mem i).
Proof.
  intros Hm. unfold byte_at. destruct (nth_in_or_default i mem 0) as [Hin| ->].
  - eapply Forall_forall; eassumption.
  - unfold is_byte. lia.
Qed.

(** Scanning keeps a property of the bytes between a mark and the cursor. *)
(** Obligations about single bytes of a buffer. *)
Create HintDb nginx.
#[export] Hint Resolve bytes_nth bytes_app byte_at_byte byte_at_nth max_value_pos : nginx.

Lemma slice_forallb_snoc f mem i j c :
  (i <= j)%nat -> forallb f (slice mem i j) = true ->
  nth_error mem j = Some c -> f c = true ->
  forallb f (slice mem i (S j)) = true.
Proof.
  intros Hij Hf Hc Hfc. rewrite slice_snoc with (c := c) by assumption.
  rewrite forallb_app, Hf. cbn [forallb]. rewrite Hfc. reflexivity.
Qed.

Lemma slice_forallb_one f mem i c :
  nth_error mem i = Some c -> f c = true -> forallb f (slice mem i (S i)) = true.
Proof.
  intros. eapply slice_forallb_snoc; eauto. rewrite slice_empty by lia. reflexivity.
Qed.

(** A run of a scanner over [mem[p..last)] split in two. *)
Section ScanSlice.
Context {S R : Type}.
Variable step : S -> nat -> Z -> S + R.

Lemma scan_slice_split mem s p q last :
  (p <= q <= last)%nat ->
  scan step s p (slice mem p last) =
  match scan step s p (slice mem p q) with
  | inl (s', p') => scan step s' p' (slice mem q last)
  | inr r => inr r
  end.
Proof. intros H. rewrite (slice_split mem p q last) by assumption. apply scan_app. Qed.

Lemma scan_slice_ind mem last (I : nat -> S -> Prop) (Q : R -> Prop) :
  (forall s p ch s', I p s -> nth_error mem p = Some ch -> (p < last)%nat ->
     step s p ch = inl s' -> I (Datatypes.S p) s') ->
  (forall s p ch r, I p s -> nth_error mem p = Some ch -> (p < last)%nat ->
     step s p ch = inr r -> Q r) ->
  forall s p, (p <= last <= length mem)%nat -> I p s ->
    match scan step s p (slice mem p last) with
    | inl (s', p') => I p' s' /\ p' = last
    | inr r => Q r
    end.
Proof.
  intros Hs Hr s p Hp HI.
  apply (scan_ind step mem last I Q Hs Hr); [assumption| |].
  - rewrite slice_length by lia. lia.
  - intros k Hk. rewrite slice_length in Hk by lia. symmetry. apply slice_nth, Hk.
Qed.
End ScanSlice.
