(* ===== verification/NgxNumber.v ===== *)
(** * Number parsing: ngx_atoi() and its variants, ngx_parse.c

    Models of the decimal, hexadecimal and fixed point parsers of
    [src/core/ngx_string.c] and of the size, offset and time parsers of
    [src/core/ngx_parse.c], with their overflow checks, on every platform. *)

From Stdlib Require Import String Ascii ZArith Bool Lia ZifyBool List.
From S2P Require Import Prelude.
Import ListNotations.
Local Open Scope Z_scope.

(** ** ngx_string.c: decimal numbers

    The four decimal parsers differ in the type of the result only.  The
    argument [line] stands for the [n] bytes the C function is given. *)

Fixpoint ato_loop (cutoff cutlim value : Z) (line : list Z) : Z :=
  match line with
  | [] => value
  | c :: line' =>
      if (c <? chr "0") || (c >? chr "9") then NGX_ERROR
      else if (value >=? cutoff) && ((value >? cutoff) || (c - chr "0" >? cutlim))
      then NGX_ERROR
      else ato_loop cutoff cutlim (value * 10 + (c - chr "0")) line'
  end.

Definition ato (max : Z) (line : list Z) : Z :=
  match line with
  | [] => NGX_ERROR
  | _ => ato_loop (max / 10) (max mod 10) 0 line
  end.

Section Decimal.
Context `{Platform}.

Definition ngx_atoi (line : list Z) : Z := ato NGX_MAX_INT_T_VALUE line.

Definition ngx_atosz (line : list Z) : Z := ato NGX_MAX_SIZE_T_VALUE line.

Definition ngx_atoof (line : list Z) : Z := ato NGX_MAX_OFF_T_VALUE line.

Definition ngx_atotm (line : list Z) : Z := ato NGX_MAX_TIME_T_VALUE line.

(** The loop that scales what ngx_atofp() has read: [while (point--)]. *)
Fixpoint atofp_scale (cutoff value : Z) (point : nat) : Z :=
  match point with
  | O => value
  | S point' =>
      if value >? cutoff then NGX_ERROR
      else atofp_scale cutoff (value * 10) point'
  end.

Fixpoint atofp_loop (cutoff cutlim value : Z) (dot : bool) (point : nat)
    (line : list Z) : Z :=
  match line with
  | [] => atofp_scale cutoff value point
  | c :: line' =>
      match point with
      | O => NGX_ERROR
      | _ =>
          if c =? chr "." then
            if dot then NGX_ERROR
            else atofp_loop cutoff cutlim value true point line'
          else if (c <? chr "0") || (c >? chr "9") then NGX_ERROR
          else if (value >=? cutoff)
                  && ((value >? cutoff) || (c - chr "0" >? cutlim))
          then NGX_ERROR
          else atofp_loop cutoff cutlim (value * 10 + (c - chr "0")) dot
                 (if dot then Nat.pred point else point) line'
      end
  end.

Definition ngx_atofp (line : list Z) (point : nat) : Z :=
  match line with
  | [] => NGX_ERROR
  | _ => atofp_loop (NGX_MAX_INT_T_VALUE / 10) (NGX_MAX_INT_T_VALUE mod 10)
           0 false point line
  end.

(** ** ngx_string.c: hexadecimal numbers *)

Fixpoint hextoi_loop (cutoff value : Z) (line : list Z) : Z :=
  match line with
  | [] => value
  | ch :: line' =>
      if value >? cutoff then NGX_ERROR
      else if (ch >=? chr "0") && (ch <=? chr "9") then
        hextoi_loop cutoff (value * 16 + (ch - chr "0")) line'
      else
        let c := Z.lor ch 32 in
        if (c >=? chr "a") && (c <=? chr "f") then
          hextoi_loop cutoff (value * 16 + (c - chr "a" + 10)) line'
        else NGX_ERROR
  end.

Definition ngx_hextoi (line : list Z) : Z :=
  match line with
  | [] => NGX_ERROR
  | _ => hextoi_loop (NGX_MAX_INT_T_VALUE / 16) 0 line
  end.

(** ** ngx_parse.c: sizes and offsets

    [last_unit] reads [line->data[len - 1]]; [firstn (len - 1)] is the number
    that is left when [len--] has dropped the unit. *)

Definition last_unit (line : list Z) : Z := last line 0.

Definition ngx_parse_size (line : list Z) : Z :=
  let len := length line in
  match len with
  | O => NGX_ERROR
  | _ =>
      let unit := last_unit line in
      let '(len, max, scale) :=
        if (unit =? chr "K") || (unit =? chr "k") then
          ((len - 1)%nat, NGX_MAX_SIZE_T_VALUE / 1024, 1024)
        else if (unit =? chr "M") || (unit =? chr "m") then
          ((len - 1)%nat, NGX_MAX_SIZE_T_VALUE / (1024 * 1024), 1024 * 1024)
        else (len, NGX_MAX_SIZE_T_VALUE, 1) in
      let size := ngx_atosz (firstn len line) in
      if (size =? NGX_ERROR) || (size >? max) then NGX_ERROR
      else size * scale
  end.

Definition ngx_parse_offset (line : list Z) : Z :=
  let len := length line in
  match len with
  | O => NGX_ERROR
  | _ =>
      let unit := last_unit line in
      let '(len, max, scale) :=
        if (unit =? chr "K") || (unit =? chr "k") then
          ((len - 1)%nat, NGX_MAX_OFF_T_VALUE / 1024, 1024)
        else if (unit =? chr "M") || (unit =? chr "m") then
          ((len - 1)%nat, NGX_MAX_OFF_T_VALUE / (1024 * 1024), 1024 * 1024)
        else if (unit =? chr "G") || (unit =? chr "g") then
          ((len - 1)%nat, NGX_MAX_OFF_T_VALUE / (1024 * 1024 * 1024),
           1024 * 1024 * 1024)
        else (len, NGX_MAX_OFF_T_VALUE, 1) in
      let offset := ngx_atoof (firstn len line) in
      if (offset =? NGX_ERROR) || (offset >? max) then NGX_ERROR
      else offset * scale
  end.

(** ** ngx_parse.c: times

    The steps of ngx_parse_time() are ordered, as the [enum] is. *)

Definition st_start := 0.
Definition st_year := 1.
Definition st_month := 2.
Definition st_week := 3.
Definition st_day := 4.
Definition st_hour := 5.
Definition st_min := 6.
Definition st_sec := 7.
Definition st_msec := 8.
Definition st_last := 9.

Record time_state := mk_time_state {
  pt_step : Z; pt_value : Z; pt_total : Z; pt_valid : bool
}.

(** What a unit makes of the parser: the new step, [max] and [scale], or
    [None] when the function returns [NGX_ERROR]. The second argument tells
    whether the byte after the unit is ['s'] (it is consumed for "ms"). *)
Definition time_unit (is_sec next_s : bool) (step c : Z)
    : option (Z * Z * Z) :=
  let max := NGX_MAX_INT_T_VALUE in
  if c =? chr "y" then
    if step >? st_start then None
    else Some (st_year, max / (60 * 60 * 24 * 365), 60 * 60 * 24 * 365)
  else if c =? chr "M" then
    if step >=? st_month then None
    else Some (st_month, max / (60 * 60 * 24 * 30), 60 * 60 * 24 * 30)
  else if c =? chr "w" then
    if step >=? st_week then None
    else Some (st_week, max / (60 * 60 * 24 * 7), 60 * 60 * 24 * 7)
  else if c =? chr "d" then
    if step >=? st_day then None
    else Some (st_day, max / (60 * 60 * 24), 60 * 60 * 24)
  else if c =? chr "h" then
    if step >=? st_hour then None
    else Some (st_hour, max / (60 * 60), 60 * 60)
  else if c =? chr "m" then
    if next_s then
      if is_sec || (step >=? st_msec) then None
      else Some (st_msec, max, 1)
    else if step >=? st_min then None
    else Some (st_min, max / 60, 60)
  else if c =? chr "s" then
    if step >=? st_sec then None
    else Some (st_sec, max, 1)
  else if c =? chr " " then
    if step >=? st_sec then None
    else Some (st_last, max, 1)
  else None.

(** The lines after the [switch]: scale the value and add it to the total. *)
Definition time_add (is_sec : bool) (st : time_state) (u : Z * Z * Z)
    : option time_state :=
  let '(step, max, scale) := u in
  let '(scale, max) :=
    if negb (step =? st_msec) && negb is_sec
    then (scale * 1000, max / 1000) else (scale, max) in
  if pt_value st >? max then None
  else
    let value := pt_value st * scale in
    if pt_total st >? NGX_MAX_INT_T_VALUE - value then None
    else Some (mk_time_state step 0 (pt_total st + value) (pt_valid st)).

(** After the [while] loop. *)
Definition time_finish (is_sec : bool) (st : time_state) : Z :=
  if negb (pt_valid st) then NGX_ERROR
  else if negb is_sec && (pt_value st >? NGX_MAX_INT_T_VALUE / 1000)
  then NGX_ERROR
  else
    let value := if is_sec then pt_value st else pt_value st * 1000 in
    if pt_total st >? NGX_MAX_INT_T_VALUE - value then NGX_ERROR
    else pt_total st + value.

(** [skip] is set while the control is in the inner loop that skips the
    spaces after a unit. *)
Fixpoint time_loop (is_sec : bool) (st : time_state) (skip : bool)
    (line : list Z) : Z :=
  match line with
  | [] => time_finish is_sec st
  | c :: line' =>
      if skip && (c =? chr " ") then time_loop is_sec st true line'
      else if (c >=? chr "0") && (c <=? chr "9") then
        let value := pt_value st in
        if (value >=? NGX_MAX_INT_T_VALUE / 10)
           && ((value >? NGX_MAX_INT_T_VALUE / 10)
               || (c - chr "0" >? NGX_MAX_INT_T_VALUE mod 10))
        then NGX_ERROR
        else time_loop is_sec
               (mk_time_state (pt_step st) (value * 10 + (c - chr "0"))
                  (pt_total st) true) false line'
      else
        match line' with
        | c' :: line'' =>
            if (c =? chr "m") && (c' =? chr "s") then
              match time_unit is_sec true (pt_step st) c with
              | None => NGX_ERROR
              | Some u =>
                  match time_add is_sec st u with
                  | None => NGX_ERROR
                  | Some st' => time_loop is_sec st' true line''
                  end
              end
            else
              match time_unit is_sec false (pt_step st) c with
              | None => NGX_ERROR
              | Some u =>
                  match time_add is_sec st u with
                  | None => NGX_ERROR
                  | Some st' => time_loop is_sec st' true line'
                  end
              end
        | [] =>
            match time_unit is_sec false (pt_step st) c with
            | None => NGX_ERROR
            | Some u =>
                match time_add is_sec st u with
                | None => NGX_ERROR
                | Some st' => time_loop is_sec st' true line'
                end
            end
        end
  end.

Definition ngx_parse_time (line : list Z) (is_sec : bool) : Z :=
  time_loop is_sec
    (mk_time_state (if is_sec then st_start else st_month) 0 0 false)
    false line.

End Decimal.

Example parse_time_ex1 :
  @ngx_parse_time lp64 (bs "1h 30m") true = 5400.
Proof. reflexivity. Qed.

Example parse_time_ex2 :
  @ngx_parse_time lp64 (bs "1m30s500ms") false = 90500.
Proof. reflexivity. Qed.

Example parse_time_ex3 :
  @ngx_parse_time lp64 (bs "30s1h") true = NGX_ERROR.
Proof. reflexivity. Qed.

Example atofp_ex : @ngx_atofp lp64 (bs "10.5") 2 = 1050.
Proof. reflexivity. Qed.

(** ** Decimal parsers: what they return on every input *)

(** The decimal number [l] denotes when it is not empty, has digits only and
    is at most [max]; [NGX_ERROR] otherwise. *)
Definition checked_dec (max : Z) (l : list Z) : Z :=
  if negb (Nat.eqb (length l) 0) && forallb is_digit l && (dec_value l <=? max)
  then dec_value l else NGX_ERROR.

Lemma dec_from_gt acc l max :
  0 <= max < acc -> forallb is_digit l = true -> max < dec_from acc l.
Proof. intros Ha Hl. pose proof (dec_from_ge acc l ltac:(lia) Hl). lia. Qed.

Lemma ato_loop_spec max value l :
  0 <= value <= max ->
  ato_loop (max / 10) (max mod 10) value l =
  if forallb is_digit l && (dec_from value l <=? max)
  then dec_from value l else NGX_ERROR.
Proof.
  revert value; induction l as [|c l IH]; intros value Hv; cbn [ato_loop forallb dec_from].
  - if_true. reflexivity.
  - pose proof (Z.div_mod max 10 ltac:(lia)) as Hdm.
    pose proof (Z.mod_pos_bound max 10 ltac:(lia)).
    unfold is_digit at 1.
    destruct ((c <? 48) || (c >? 57)) eqn:Hc.
    + replace ((48 <=? c) && (c <=? 57)) with false by lia. reflexivity.
    + replace ((48 <=? c) && (c <=? 57)) with true by lia. cbn [andb].
      destruct ((value >=? max / 10)
                && ((value >? max / 10) || (c - 48 >? max mod 10))) eqn:Ho.
      * destruct (forallb is_digit l) eqn:Hl; cbn [andb]; [|reflexivity].
        pose proof (dec_from_gt (value * 10 + (c - 48)) l max ltac:(lia) Hl).
        if_false. reflexivity.
      * rewrite IH by lia. reflexivity.
Qed.

Lemma ato_spec max l : 0 <= max -> ato max l = checked_dec max l.
Proof.
  intros Hm. unfold ato, checked_dec. destruct l as [|c l]; [reflexivity|].
  rewrite ato_loop_spec by lia. reflexivity.
Qed.

Lemma max_value_nonneg s : 0 <= max_value s.
Proof. destruct s; simpl; lia. Qed.

(** ** Fixed point numbers *)

Lemma atofp_scale_spec max value point :
  0 <= value <= max ->
  atofp_scale (max / 10) value point =
  if value * 10 ^ Z.of_nat point <=? max
  then value * 10 ^ Z.of_nat point else NGX_ERROR.
Proof.
  revert value; induction point as [|point IH]; intros value Hv; cbn [atofp_scale].
  - change (10 ^ Z.of_nat 0) with 1. if_true. lia.
  - rewrite Nat2Z.inj_succ, Z.pow_succ_r by lia.
    assert (0 < 10 ^ Z.of_nat point) by (apply Z.pow_pos_nonneg; lia).
    pose proof (Z.div_mod max 10 ltac:(lia)).
    pose proof (Z.mod_pos_bound max 10 ltac:(lia)).
    destruct (value >? max / 10) eqn:E.
    + replace (value * (10 * 10 ^ Z.of_nat point) <=? max) with false by nia.
      reflexivity.
    + rewrite IH by lia. rewrite <- Z.mul_assoc. reflexivity.
Qed.

(** Digits after the dot: at most [point] of them are accepted. *)
Lemma atofp_frac_spec max value point l :
  0 <= value <= max -> forallb is_digit l = true ->
  atofp_loop (max / 10) (max mod 10) value true point l =
  if (Z.of_nat (length l) <=? Z.of_nat point)
     && (dec_from value l * 10 ^ (Z.of_nat point - Z.of_nat (length l)) <=? max)
  then dec_from value l * 10 ^ (Z.of_nat point - Z.of_nat (length l))
  else NGX_ERROR.
Proof.
  revert value point; induction l as [|c l IH]; intros value point Hv Hd.
  - cbn [atofp_loop dec_from length]. rewrite atofp_scale_spec by assumption.
    replace (Z.of_nat point - Z.of_nat 0) with (Z.of_nat point) by lia.
    replace (Z.of_nat 0 <=? Z.of_nat point) with true by lia. reflexivity.
  - cbn [forallb] in Hd. apply andb_prop in Hd as [Hc Hl]. unfold is_digit in Hc.
    pose proof (Z.div_mod max 10 ltac:(lia)).
    pose proof (Z.mod_pos_bound max 10 ltac:(lia)).
    destruct point as [|point]; cbn [atofp_loop dec_from length Nat.pred].
    { replace (Z.of_nat (S (length l)) <=? Z.of_nat 0) with false by lia. reflexivity. }
    if_false. if_false.
    destruct ((value >=? max / 10)
              && ((value >? max / 10) || (c - 48 >? max mod 10))) eqn:Ho.
    + pose proof (dec_from_gt (value * 10 + (c - 48)) l max ltac:(lia) Hl).
      destruct (Z.of_nat (S (length l)) <=? Z.of_nat (S point)) eqn:Hp; [|reflexivity].
      assert (0 < 10 ^ (Z.of_nat (S point) - Z.of_nat (S (length l))))
        by (apply Z.pow_pos_nonneg; lia).
      cbn [andb]. match goal with |- context [?x <=? max] => replace (x <=? max) with false by nia end.
      reflexivity.
    + rewrite IH by (assumption || lia).
      replace (Z.of_nat (S point) - Z.of_nat (S (length l)))
        with (Z.of_nat point - Z.of_nat (length l)) by lia.
      replace (Z.of_nat (S (length l)) <=? Z.of_nat (S point))
        with (Z.of_nat (length l) <=? Z.of_nat point) by lia.
      reflexivity.
Qed.

(** Digits before the dot, with what follows left abstract. *)
Lemma atofp_int_spec max value point l rest :
  0 <= value <= max -> forallb is_digit l = true -> (0 < point)%nat ->
  atofp_loop (max / 10) (max mod 10) value false point (l ++ rest) =
  if dec_from value l <=? max
  then atofp_loop (max / 10) (max mod 10) (dec_from value l) false point rest
  else NGX_ERROR.
Proof.
  revert value; induction l as [|c l IH]; intros value Hv Hd Hp.
  - cbn [app dec_from]. if_true. reflexivity.
  - cbn [forallb] in Hd. apply andb_prop in Hd as [Hc Hl]. unfold is_digit in Hc.
    pose proof (Z.div_mod max 10 ltac:(lia)).
    pose proof (Z.mod_pos_bound max 10 ltac:(lia)).
    cbn [app atofp_loop dec_from]. destruct point as [|point]; [lia|].
    if_false. if_false.
    destruct ((value >=? max / 10)
              && ((value >? max / 10) || (c - 48 >? max mod 10))) eqn:Ho.
    + pose proof (dec_from_gt (value * 10 + (c - 48)) l max ltac:(lia) Hl).
      if_false. reflexivity.
    + apply IH; assumption || lia.
Qed.

(** ** Hexadecimal numbers *)

Lemma hextoi_loop_eq cutoff value c l :
  hextoi_loop cutoff value (c :: l) =
  if value >? cutoff then NGX_ERROR
  else match c_hex_digit c with
       | Some d => hextoi_loop cutoff (value * 16 + d) l
       | None => NGX_ERROR
       end.
Proof.
  cbn [hextoi_loop]. unfold c_hex_digit. cbv zeta.
  destruct (value >? cutoff); [reflexivity|].
  destruct ((c >=? 48) && (c <=? 57)); [reflexivity|].
  destruct ((Z.lor c 32 >=? 97) && (Z.lor c 32 <=? 102)); reflexivity.
Qed.

Lemma hextoi_loop_spec s value l :
  0 <= value <= max_value s -> bytes l ->
  hextoi_loop (max_value s / 16) value l =
  match hex_from value l with
  | Some v => if v <=? max_value s then v else NGX_ERROR
  | None => NGX_ERROR
  end.
Proof.
  revert value; induction l as [|c l IH]; intros value Hv Hb.
  - cbn [hextoi_loop hex_from]. if_true. reflexivity.
  - inv Hb. rewrite hextoi_loop_eq, c_hex_digit_spec by assumption. cbn [hex_from].
    pose proof (max_value_16 s).
    destruct (hex_digit c) as [d|] eqn:Ed; [|split_ifs; reflexivity].
    apply hex_digit_range in Ed.
    destruct (value >? max_value s / 16) eqn:E.
    + destruct (hex_from (value * 16 + d) l) as [v|] eqn:Ev; [|reflexivity].
      apply hex_from_ge in Ev; [|lia]. if_false. reflexivity.
    + apply IH; [lia|assumption].
Qed.

(** ** Sizes and offsets: a number and a unit *)

(** Reference reading of "<digits><unit>": [scale] gives the multiplier of a
    unit letter; a line whose last byte is not a unit is a plain number. *)
Definition scaled_value (max : Z) (scale : Z -> option Z) (line : list Z) : Z :=
  let '(num, k) :=
    match scale (last line 0) with
    | Some k => (removelast line, k)
    | None => (line, 1)
    end in
  if negb (Nat.eqb (length num) 0) && forallb is_digit num
     && (dec_value num * k <=? max)
  then dec_value num * k else NGX_ERROR.

Definition size_scale (c : Z) : option Z :=
  if (c =? 75) || (c =? 107) then Some 1024
  else if (c =? 77) || (c =? 109) then Some (1024 * 1024)
  else None.

Definition offset_scale (c : Z) : option Z :=
  match size_scale c with
  | Some k => Some k
  | None => if (c =? 71) || (c =? 103) then Some (1024 * 1024 * 1024) else None
  end.

(** Checking against [max / k] before multiplying is the exact check. *)
Lemma scaled_check max k num :
  0 <= max -> 0 < k ->
  (if (checked_dec max num =? NGX_ERROR) || (checked_dec max num >? max / k)
   then NGX_ERROR else checked_dec max num * k) =
  if negb (Nat.eqb (length num) 0) && forallb is_digit num
     && (dec_value num * k <=? max)
  then dec_value num * k else NGX_ERROR.
Proof.
  intros Hm Hk. unfold checked_dec, NGX_ERROR.
  destruct (negb (Nat.eqb (length num) 0)); cbn [andb]; [|reflexivity].
  destruct (forallb is_digit num) eqn:Hd; cbn [andb]; [|reflexivity].
  apply dec_value_nonneg in Hd.
  pose proof (Z.div_mod max k ltac:(lia)). pose proof (Z.mod_pos_bound max k ltac:(lia)).
  destruct (dec_value num <=? max) eqn:E1.
  - destruct (dec_value num * k <=? max) eqn:E2.
    + assert (dec_value num <= max / k) by (apply Z.div_le_lower_bound; lia).
      if_false. reflexivity.
    + assert (max / k < dec_value num) by (apply Z.div_lt_upper_bound; lia).
      if_true. reflexivity.
  - replace (dec_value num * k <=? max) with false by nia. reflexivity.
Qed.

Lemma firstn_removelast {A} (l : list A) : firstn (length l - 1) l = removelast l.
Proof.
  rewrite removelast_firstn_len. f_equal. lia.
Qed.

Lemma parse_size_spec `{P : Platform} line :
  ngx_parse_size line = scaled_value NGX_MAX_SIZE_T_VALUE size_scale line.
Proof.
  unfold ngx_parse_size, scaled_value, size_scale, last_unit, ngx_atosz.
  pose proof (max_value_nonneg size_t_size) as Hm. fold NGX_MAX_SIZE_T_VALUE in Hm.
  destruct line as [|c l]; [reflexivity|]. cbn [length].
  change (S (length l)) with (length (c :: l)). cbv zeta.
  repeat (destruct (last (c :: l) 0 =? _); cbn [orb]);
    rewrite ?firstn_removelast, ?firstn_all, ato_spec by assumption;
    rewrite <- scaled_check by lia; try reflexivity.
  rewrite Z.div_1_r. reflexivity.
Qed.

Lemma parse_offset_spec `{P : Platform} line :
  ngx_parse_offset line = scaled_value NGX_MAX_OFF_T_VALUE offset_scale line.
Proof.
  unfold ngx_parse_offset, scaled_value, offset_scale, size_scale, last_unit, ngx_atoof.
  pose proof (max_value_nonneg off_t_size) as Hm. fold NGX_MAX_OFF_T_VALUE in Hm.
  destruct line as [|c l]; [reflexivity|]. cbn [length].
  change (S (length l)) with (length (c :: l)). cbv zeta.
  repeat (destruct (last (c :: l) 0 =? _); cbn [orb]);
    rewrite ?firstn_removelast, ?firstn_all, ato_spec by assumption;
    rewrite <- scaled_check by lia; try reflexivity.
  rewrite Z.div_1_r. reflexivity.
Qed.

(** ** Times *)

Section Time.
Context `{P : Platform}.

Local Abbreviation max := NGX_MAX_INT_T_VALUE.

Lemma max_int_nonneg : 0 <= max.
Proof. apply max_value_nonneg. Qed.

Definition time_inv (st : time_state) : Prop :=
  0 <= pt_value st <= max /\ 0 <= pt_total st <= max.

Lemma time_add_inv is_sec st u st' :
  time_inv st -> 0 < snd u -> time_add is_sec st u = Some st' -> time_inv st'.
Proof.
  intros [Hv Ht] Hs Hadd. destruct u as [[step mx] scale]. cbn [snd] in Hs.
  unfold time_add in Hadd.
  destruct (negb (step =? st_msec) && negb is_sec); split_ifs_in Hadd;
    injection Hadd as <-; split; cbn [pt_value pt_total]; nia.
Qed.

Lemma time_unit_scale is_sec ns step c u :
  time_unit is_sec ns step c = Some u -> 0 < snd u.
Proof. unfold time_unit. intros H. split_ifs_in H; injection H as <-; simpl; lia. Qed.

Lemma time_finish_bounds is_sec st :
  time_inv st ->
  time_finish is_sec st = NGX_ERROR \/ 0 <= time_finish is_sec st <= max.
Proof.
  intros [Hv Ht]. unfold time_finish.
  destruct is_sec; cbn [negb andb]; split_ifs; auto; right; lia.
Qed.

(** Every value the parser computes fits in an [ngx_int_t]. *)
Lemma time_loop_bounds is_sec n line st skip :
  (length line <= n)%nat -> time_inv st ->
  time_loop is_sec st skip line = NGX_ERROR
  \/ 0 <= time_loop is_sec st skip line <= max.
Proof.
  revert line st skip; induction n as [|n IH]; intros line st skip Hn Hi.
  - destruct line; [|simpl in Hn; lia]. apply time_finish_bounds, Hi.
  - destruct line as [|c line]; [apply time_finish_bounds, Hi|].
    simpl in Hn. cbn [time_loop].
    assert (Hu : forall ns l, (length l <= n)%nat ->
      let r := match time_unit is_sec ns (pt_step st) c with
               | Some u => match time_add is_sec st u with
                           | Some st' => time_loop is_sec st' true l
                           | None => NGX_ERROR
                           end
               | None => NGX_ERROR
               end in r = NGX_ERROR \/ 0 <= r <= max).
    { intros ns l Hl. cbv zeta.
      destruct (time_unit is_sec ns (pt_step st) c) as [u|] eqn:Eu; [|auto].
      destruct (time_add is_sec st u) as [st'|] eqn:Ea; [|auto].
      apply IH; [assumption|]. eapply time_add_inv; eauto using time_unit_scale. }
    destruct (skip && (c =? 32)); [apply IH; [lia|assumption]|].
    destruct ((c >=? 48) && (c <=? 57)) eqn:Ec.
    + destruct ((pt_value st >=? max / 10) && _) eqn:Eo; [auto|].
      apply IH; [lia|]. destruct Hi as [Hv Ht]. split; cbn [pt_value pt_total]; [|assumption].
      pose proof (max_value_10 ptr_size) as H10. fold NGX_MAX_INT_T_VALUE in H10.
      pose proof (max_value_mod10 ptr_size) as H7. fold NGX_MAX_INT_T_VALUE in H7.
      lia.
    + destruct line as [|c' line]; [apply (Hu false); simpl; lia|].
      simpl in Hn. destruct ((c =? 109) && (c' =? 115)); apply Hu; simpl; lia.
Qed.

(** *** Printed times *)

Inductive tunit := Uyear | Umonth | Uweek | Uday | Uhour | Umin | Usec | Umsec.

Definition unit_step (u : tunit) : Z :=
  match u with
  | Uyear => st_year | Umonth => st_month | Uweek => st_week | Uday => st_day
  | Uhour => st_hour | Umin => st_min | Usec => st_sec | Umsec => st_msec
  end.

Definition unit_text (u : tunit) : list Z :=
  match u with
  | Uyear => bs "y" | Umonth => bs "M" | Uweek => bs "w" | Uday => bs "d"
  | Uhour => bs "h" | Umin => bs "m" | Usec => bs "s" | Umsec => bs "ms"
  end.

(** Seconds in a unit, and milliseconds when the result is in milliseconds. *)
Definition unit_seconds (u : tunit) : Z :=
  match u with
  | Uyear => 31536000 | Umonth => 2592000 | Uweek => 604800 | Uday => 86400
  | Uhour => 3600 | Umin => 60 | Usec => 1 | Umsec => 0
  end.

Definition unit_scale (is_sec : bool) (u : tunit) : Z :=
  if is_sec then unit_seconds u
  else match u with Umsec => 1 | _ => unit_seconds u * 1000 end.

(** A component of a time: digits, a unit and the spaces after it. *)
Definition titem : Type := list Z * tunit * nat.

Definition item_text (i : titem) : list Z :=
  let '(ds, u, n) := i in ds ++ unit_text u ++ repeat 32 n.

Definition item_value (is_sec : bool) (i : titem) : Z :=
  let '(ds, u, _) := i in dec_value ds * unit_scale is_sec u.

Fixpoint time_text (items : list titem) (tail : list Z) : list Z :=
  match items with
  | [] => tail
  | i :: items' => item_text i ++ time_text items' tail
  end.

Definition tail_value (is_sec : bool) (tail : list Z) : Z :=
  dec_value tail * (if is_sec then 1 else 1000).

Fixpoint time_sum (is_sec : bool) (items : list titem) (tail : list Z) : Z :=
  match items with
  | [] => tail_value is_sec tail
  | i :: items' => item_value is_sec i + time_sum is_sec items' tail
  end.

(** Components in the order of the units, each with at least one digit;
    "y" and "M" go with seconds only and "ms" with milliseconds only. *)
Fixpoint items_ok (is_sec : bool) (step : Z) (items : list titem) : bool :=
  match items with
  | [] => true
  | (ds, u, _) :: items' =>
      negb (Nat.eqb (length ds) 0) && forallb is_digit ds
      && (step <? unit_step u)
      && (if is_sec then negb (unit_step u =? st_msec) else true)
      && items_ok is_sec (unit_step u) items'
  end.

Lemma time_digits is_sec st skip ds rest :
  forallb is_digit ds = true -> ds <> [] -> time_inv st ->
  time_loop is_sec st skip (ds ++ rest) =
  if dec_from (pt_value st) ds <=? max
  then time_loop is_sec
         (mk_time_state (pt_step st) (dec_from (pt_value st) ds) (pt_total st) true)
         false rest
  else NGX_ERROR.
Proof.
  revert st skip; induction ds as [|c ds IH]; intros st skip Hd Hne Hi; [congruence|].
  cbn [forallb] in Hd. apply andb_prop in Hd as [Hc Hd]. unfold is_digit in Hc.
  cbn [app time_loop dec_from]. if_false. if_true.
  pose proof (max_value_10 ptr_size) as H10. fold NGX_MAX_INT_T_VALUE in H10.
  pose proof (max_value_mod10 ptr_size) as H7. fold NGX_MAX_INT_T_VALUE in H7.
  destruct Hi as [Hv Ht].
  destruct ((pt_value st >=? max / 10) && _) eqn:Eo.
  - pose proof (dec_from_gt (pt_value st * 10 + (c - 48)) ds max ltac:(lia) Hd).
    if_false. reflexivity.
  - destruct ds as [|c' ds]; [cbn [app dec_from]; if_true; reflexivity|].
    rewrite IH; try assumption; [reflexivity|congruence|].
    split; cbn [pt_value pt_total]; lia.
Qed.

Lemma time_spaces is_sec st n rest :
  time_loop is_sec st true (repeat 32 n ++ rest) = time_loop is_sec st true rest.
Proof. induction n; [reflexivity|]. cbn [repeat app time_loop andb Z.eqb]. exact IHn. Qed.

(** Scaling and adding with the checks of the code is exact. *)
Lemma time_add_exact (k v t : Z) {A} (f : A) (g : A) :
  0 < k -> 0 <= v -> 0 <= t <= max ->
  (if v >? max / k then f else if t >? max - v * k then f else g) =
  if t + v * k <=? max then g else f.
Proof.
  intros Hk Hv Ht.
  pose proof (Z.div_mod max k ltac:(lia)). pose proof (Z.mod_pos_bound max k ltac:(lia)).
  destruct (v >? max / k) eqn:E1.
  - replace (t + v * k <=? max) with false by nia. reflexivity.
  - destruct (t >? max - v * k) eqn:E2; [if_false|if_true]; reflexivity.
Qed.

Lemma time_unit_text (is_sec : bool) st u :
  0 <= pt_step st < unit_step u ->
  (if is_sec then u <> Umsec else st_month <= pt_step st) ->
  time_unit is_sec (match u with Umsec => true | _ => false end)
    (pt_step st) (hd 0 (unit_text u)) =
  Some (unit_step u,
        match u with Umsec => max | _ => max / unit_seconds u end,
        match u with Umsec => 1 | _ => unit_seconds u end).
Proof.
  intros Hs Hi.
  unfold time_unit, st_start, st_year, st_month, st_week, st_day, st_hour, st_min, st_sec, st_msec in *.
  destruct u; cbn in Hs |- *; unfold st_year, st_month, st_week, st_day, st_hour, st_min, st_sec, st_msec in *;
    destruct is_sec; try congruence; cbn [orb]; repeat if_false; try reflexivity.
  all: rewrite Z.div_1_r; reflexivity.
Qed.

Lemma time_unit_run (is_sec : bool) st skip u rest :
  0 <= pt_step st < unit_step u ->
  (if is_sec then u <> Umsec else st_month <= pt_step st) ->
  (u = Umin -> match rest with c :: _ => c <> 115 | [] => True end) ->
  time_inv st ->
  time_loop is_sec st skip (unit_text u ++ rest) =
  if pt_total st + pt_value st * unit_scale is_sec u <=? max
  then time_loop is_sec
         (mk_time_state (unit_step u) 0
            (pt_total st + pt_value st * unit_scale is_sec u) (pt_valid st))
         true rest
  else NGX_ERROR.
Proof.
  intros Hs Hm Hr [Hv Ht].
  pose proof (time_unit_text is_sec st u Hs Hm) as Hu.
  assert (Hadd : forall A (f : A) g,
    match time_add is_sec st
      (unit_step u,
       match u with Umsec => max | _ => max / unit_seconds u end,
       match u with Umsec => 1 | _ => unit_seconds u end)
    with Some st' => g st' | None => f end =
    if pt_total st + pt_value st * unit_scale is_sec u <=? max
    then g (mk_time_state (unit_step u) 0
              (pt_total st + pt_value st * unit_scale is_sec u) (pt_valid st))
    else f).
  { intros A f g. unfold time_add, unit_scale.
    destruct u, is_sec; cbn -[Z.div Z.mul NGX_MAX_INT_T_VALUE]; try congruence;
      rewrite ?Z.div_div by lia;
      rewrite <- (time_add_exact _ _ _ f) by (lia || assumption);
      rewrite ?Z.div_1_r; split_ifs; reflexivity. }
  destruct u; cbn [unit_text bs map list_ascii_of_string app time_loop code] in *;
    cbn -[time_loop time_unit time_add Z.mul unit_scale NGX_MAX_INT_T_VALUE] in Hu |- *;
    cbn -[Z.mul unit_scale NGX_MAX_INT_T_VALUE Z.div time_unit time_add];
    rewrite ?Bool.andb_false_r;
    rewrite ?Hu; try (rewrite Hadd; reflexivity);
    destruct rest as [|c rest]; rewrite ?Hu, ?Hadd; try reflexivity.
  specialize (Hr eq_refl). if_false. reflexivity.
Qed.

Lemma time_finish_exact is_sec st ds :
  forallb is_digit ds = true -> time_inv st -> pt_value st = dec_value ds ->
  pt_valid st = true ->
  time_finish is_sec st =
  if pt_total st + tail_value is_sec ds <=? max
  then pt_total st + tail_value is_sec ds else NGX_ERROR.
Proof.
  intros Hd [Hv Ht] He Hval. unfold time_finish, tail_value. rewrite Hval, He in *.
  destruct is_sec; cbn [negb andb].
  - rewrite Z.mul_1_r. split_ifs; lia.
  - rewrite <- (time_add_exact 1000 _ _ NGX_ERROR) by lia. reflexivity.
Qed.

Lemma items_head is_sec step items tail n :
  items_ok is_sec step items = true -> forallb is_digit tail = true ->
  match repeat 32 n ++ time_text items tail with c :: _ => c <> 115 | [] => True end.
Proof.
  destruct n; cbn [repeat app]; [|intros; lia].
  destruct items as [|[[ds u] m] items]; cbn [time_text item_text].
  - destruct tail as [|c tail]; cbn [forallb]; [auto|]. unfold is_digit. lia.
  - cbn [items_ok]. destruct ds as [|c ds]; [discriminate|].
    cbn [forallb app]. unfold is_digit at 1. lia.
Qed.

Lemma time_sum_nonneg is_sec step items tail :
  items_ok is_sec step items = true -> forallb is_digit tail = true ->
  0 <= time_sum is_sec items tail.
Proof.
  revert step; induction items as [|[[ds u] n] items IH]; intros step Hi Ht.
  - cbn [time_sum]. unfold tail_value. pose proof (dec_value_nonneg tail Ht).
    destruct is_sec; lia.
  - cbn [items_ok time_sum item_value] in *.
    apply andb_prop in Hi as [Hi1 Hi2]. specialize (IH _ Hi2 Ht).
    assert (Hd : forallb is_digit ds = true) by (destruct (forallb is_digit ds); [auto|lia]).
    pose proof (dec_value_nonneg ds Hd).
    assert (0 <= unit_scale is_sec u) by (destruct is_sec, u; simpl; lia). nia.
Qed.

Lemma time_loop_items is_sec items tail st skip :
  items_ok is_sec (pt_step st) items = true -> forallb is_digit tail = true ->
  time_inv st -> pt_value st = 0 -> 0 <= pt_step st ->
  (if is_sec then True else st_month <= pt_step st) ->
  (pt_valid st = true \/ items <> [] \/ tail <> []) ->
  time_loop is_sec st skip (time_text items tail) =
  if pt_total st + time_sum is_sec items tail <=? max
  then pt_total st + time_sum is_sec items tail else NGX_ERROR.
Proof.
  revert st skip; induction items as [|[[ds u] n] items IH];
    intros st skip Hok Htl Hi Hv0 Hs Hm Hval.
  - cbn [time_text time_sum]. destruct tail as [|c tail].
    + cbn [time_loop]. apply time_finish_exact; auto. destruct Hval as [|[|]]; congruence.
    + rewrite <- (app_nil_r (c :: tail)) at 1.
      rewrite time_digits by (assumption || congruence). rewrite Hv0. fold (dec_value (c :: tail)).
      destruct Hi as [Hv Ht]. pose proof (dec_value_nonneg _ Htl).
      destruct (dec_value (c :: tail) <=? max) eqn:E.
      * cbn [time_loop]. rewrite time_finish_exact with (ds := c :: tail); auto.
        split; cbn [pt_value pt_total]; [lia|assumption].
      * unfold tail_value.
        match goal with |- context [?x <=? max] =>
          replace (x <=? max) with false by (destruct is_sec; lia) end. reflexivity.
  - cbn [items_ok] in Hok.
    apply andb_prop in Hok as [Hok Hok']. apply andb_prop in Hok as [Hok Hms].
    apply andb_prop in Hok as [Hok Hst]. apply andb_prop in Hok as [Hlen Hd].
    assert (Hne : ds <> []) by (intros ->; discriminate).
    pose proof (time_sum_nonneg _ _ _ _ Hok' Htl) as Hsum.
    pose proof (dec_value_nonneg _ Hd) as Hdv.
    assert (Hk : 0 < unit_scale is_sec u)
      by (destruct is_sec, u; cbn in *; unfold st_msec in *; lia).
    cbn [time_text item_text time_sum item_value]. rewrite <- !app_assoc.
    rewrite time_digits by assumption. rewrite Hv0. fold (dec_value ds).
    destruct Hi as [Hv Ht].
    assert (dec_value ds <= dec_value ds * unit_scale is_sec u) by nia.
    destruct (dec_value ds <=? max) eqn:E1; [|if_false; reflexivity].
    rewrite time_unit_run; cbn [pt_step pt_value pt_total pt_valid].
    2: lia.
    2: { destruct is_sec; [intros ->; discriminate|assumption]. }
    2: { intros _. eapply items_head; eassumption. }
    2: { split; cbn [pt_value pt_total]; lia. }
    destruct (pt_total st + dec_value ds * unit_scale is_sec u <=? max) eqn:E2.
    + rewrite time_spaces, IH; cbn [pt_step pt_value pt_total pt_valid]; auto; try lia.
      * rewrite Z.add_assoc. reflexivity.
      * split; cbn [pt_value pt_total]; [split; [lia|apply max_int_nonneg]|nia].
      * destruct is_sec; [exact I|lia].
    + if_false. reflexivity.
Qed.

End Time.

(** ** Properties *)

(** each of the decimal parsers ngx_atoi(), ngx_atosz(), ngx_atoof() and
    ngx_atotm() returns the number its input denotes exactly when the input
    is a non-empty string of digits whose value fits in the result type, and
    NGX_ERROR otherwise; the overflow test rejects no number that fits. *)
Theorem decimal_parsers_exact (P : Platform) (line : list Z) :
  ngx_atoi line = checked_dec NGX_MAX_INT_T_VALUE line
  /\ ngx_atosz line = checked_dec NGX_MAX_SIZE_T_VALUE line
  /\ ngx_atoof line = checked_dec NGX_MAX_OFF_T_VALUE line
  /\ ngx_atotm line = checked_dec NGX_MAX_TIME_T_VALUE line.
Proof. repeat split; apply ato_spec, max_value_nonneg. Qed.

(** Ngx_hextoi() returns the value of a non-empty string of hexadecimal
    digits, of either case, that fits in an ngx_int_t, and NGX_ERROR on every
    other string of bytes. *)
Theorem hextoi_exact (P : Platform) (line : list Z) :
  bytes line ->
  ngx_hextoi line =
  match line, hex_value line with
  | _ :: _, Some v => if v <=? NGX_MAX_INT_T_VALUE then v else NGX_ERROR
  | _, _ => NGX_ERROR
  end.
Proof.
  intros Hb. unfold ngx_hextoi, hex_value. destruct line as [|c line]; [reflexivity|].
  apply hextoi_loop_spec; [|assumption]. split; [lia|apply max_value_nonneg].
Qed.

Lemma hextoi_exact_witness :
  bytes (bs "1fF") /\ @ngx_hextoi lp64 (bs "1fF") = 511.
Proof.
  assert (Hb : bytes (bs "1fF"))
    by (repeat constructor; vm_compute; congruence).
  split; [exact Hb|]. rewrite (hextoi_exact lp64 (bs "1fF") Hb). vm_compute. reflexivity.
Defined.

(** Ngx_atofp() reads a fixed point number with [point] decimal places:
    an integer part alone is scaled by 10^point; with a fraction of at most
    [point] digits the missing places are filled with zeros; a longer
    fraction, or a result that does not fit, is an error. *)
Theorem atofp_exact (P : Platform) (point : nat) (ip fp : list Z) :
  (0 < point)%nat -> forallb is_digit ip = true -> forallb is_digit fp = true ->
  ngx_atofp (ip ++ chr "." :: fp) point =
    (let v := dec_value (ip ++ fp)
              * 10 ^ (Z.of_nat point - Z.of_nat (length fp)) in
     if (Z.of_nat (length fp) <=? Z.of_nat point) && (v <=? NGX_MAX_INT_T_VALUE)
     then v else NGX_ERROR)
  /\ (ip <> [] ->
      ngx_atofp ip point =
      let v := dec_value ip * 10 ^ Z.of_nat point in
      if v <=? NGX_MAX_INT_T_VALUE then v else NGX_ERROR).
Proof.
  intros Hp Hi Hf. pose proof (max_value_nonneg ptr_size) as Hm.
  fold NGX_MAX_INT_T_VALUE in Hm.
  pose proof (dec_value_nonneg ip Hi) as Hv.
  split.
  - unfold ngx_atofp. destruct (ip ++ 46 :: fp) as [|c l] eqn:E; [destruct ip; discriminate|].
    rewrite <- E, atofp_int_spec by (assumption || lia). fold (dec_value ip).
    unfold dec_value at 3 4. rewrite dec_from_app. fold (dec_value ip). cbv zeta.
    destruct (dec_value ip <=? NGX_MAX_INT_T_VALUE) eqn:E1.
    + destruct point as [|point]; [lia|]. cbn [atofp_loop].
      change (46 =? 46) with true. cbv iota. apply atofp_frac_spec; [lia|assumption].
    + destruct (Z.of_nat (length fp) <=? Z.of_nat point) eqn:E2; [|reflexivity].
      pose proof (dec_from_gt (dec_value ip) fp NGX_MAX_INT_T_VALUE ltac:(lia) Hf).
      assert (0 < 10 ^ (Z.of_nat point - Z.of_nat (length fp)))
        by (apply Z.pow_pos_nonneg; lia).
      cbn [andb]. match goal with |- context [?x <=? NGX_MAX_INT_T_VALUE] =>
        replace (x <=? NGX_MAX_INT_T_VALUE) with false by nia end. reflexivity.
  - intros Hne. unfold ngx_atofp. destruct ip as [|c l] eqn:E; [congruence|].
    rewrite <- E in *. rewrite <- (app_nil_r ip) at 1.
    rewrite atofp_int_spec by (assumption || lia). fold (dec_value ip). cbv zeta.
    destruct (dec_value ip <=? NGX_MAX_INT_T_VALUE) eqn:E1.
    + cbn [atofp_loop]. apply atofp_scale_spec. lia.
    + assert (0 < 10 ^ Z.of_nat point) by (apply Z.pow_pos_nonneg; lia).
      replace (_ <=? _) with false by nia. reflexivity.
Qed.

Lemma atofp_exact_witness : @ngx_atofp lp64 (bs "10.5") 2 = 1050.
Proof.
  change (bs "10.5") with (bs "10" ++ chr "." :: bs "5").
  rewrite (proj1 (atofp_exact lp64 2 (bs "10") (bs "5")
                    ltac:(lia) eq_refl eq_refl)).
  vm_compute. reflexivity.
Defined.

(** ngx_parse_size() and ngx_parse_offset() read "<digits>[kKmM]" and
    "<digits>[kKmMgG]" as the number times its unit, and return NGX_ERROR
    exactly when there is no number or the product does not fit in the
    result type: comparing with [max / scale] first loses nothing. *)
Theorem parse_size_offset_exact (P : Platform) (line : list Z) :
  ngx_parse_size line = scaled_value NGX_MAX_SIZE_T_VALUE size_scale line
  /\ ngx_parse_offset line = scaled_value NGX_MAX_OFF_T_VALUE offset_scale line.
Proof. split; [apply parse_size_spec|apply parse_offset_spec]. Qed.

(** ngx_parse_time() reads a sequence of numbers with units in their
    order, spaces after a unit and a number without a unit at the end, as the
    sum of the components in seconds (or milliseconds), and returns NGX_ERROR
    exactly when the sum does not fit in an ngx_int_t. *)
Theorem parse_time_sum (P : Platform) (is_sec : bool) (items : list titem)
    (tail : list Z) :
  items_ok is_sec (if is_sec then st_start else st_month) items = true ->
  forallb is_digit tail = true -> (items <> [] \/ tail <> []) ->
  ngx_parse_time (time_text items tail) is_sec =
  if time_sum is_sec items tail <=? NGX_MAX_INT_T_VALUE
  then time_sum is_sec items tail else NGX_ERROR.
Proof.
  intros Hok Htl Hne. unfold ngx_parse_time.
  rewrite time_loop_items; cbn [pt_step pt_value pt_total pt_valid]; auto.
  - split; cbn; split; try lia; apply max_int_nonneg.
  - destruct is_sec; unfold st_start, st_month; lia.
  - destruct is_sec; [exact I|lia].
Qed.

Lemma parse_time_sum_witness :
  @ngx_parse_time lp64
    (time_text [(bs "1", Uhour, 1%nat); (bs "30", Umin, O)] (bs "15")) true = 5415.
Proof.
  pose (items := [(bs "1", Uhour, 1%nat); (bs "30", Umin, O)]).
  assert (Hi : items_ok true st_start items = true) by (vm_compute; reflexivity).
  assert (Ht : forallb is_digit (bs "15") = true) by (vm_compute; reflexivity).
  assert (Hn : items <> [] \/ bs "15" <> []) by (left; discriminate).
  etransitivity; [exact (parse_time_sum lp64 true items (bs "15") Hi Ht Hn)|].
  vm_compute. reflexivity.
Defined.

(** On every input, on every platform, ngx_parse_time() returns NGX_ERROR
    or a number between 0 and NGX_MAX_INT_T_VALUE. *)
Theorem parse_time_bounds (P : Platform) (line : list Z) (is_sec : bool) :
  ngx_parse_time line is_sec = NGX_ERROR
  \/ 0 <= ngx_parse_time line is_sec <= NGX_MAX_INT_T_VALUE.
Proof.
  apply time_loop_bounds with (n := length line); [lia|].
  split; cbn; split; try lia; apply max_int_nonneg.
Qed.
