(* ===== verification/NgxEscape.v ===== *)
(** * Escaping: URIs, HTML and JSON

    Models of ngx_escape_uri(), ngx_unescape_uri(), ngx_escape_html(),
    ngx_escape_json() and ngx_hex_dump() of [src/core/ngx_string.c].  A
    function that is called with [dst == NULL] to compute a length is a
    definition of its own, [*_len]. *)

From Stdlib Require Import String Ascii ZArith Bool Lia ZifyBool List.
From S2P Require Import Prelude.
Import ListNotations.
Local Open Scope Z_scope.

Definition HEX : list Z := bs "0123456789ABCDEF".

Definition hex : list Z := bs "0123456789abcdef".

Fixpoint ngx_hex_dump (src : list Z) : list Z :=
  match src with
  | [] => []
  | c :: src' =>
      nth (Z.to_nat (Z.shiftr c 4)) hex 0
      :: nth (Z.to_nat (Z.land c 15)) hex 0
      :: ngx_hex_dump src'
  end.

(** ** ngx_escape_uri() *)

(** The NGX_ESCAPE_* macros. *)
Inductive escape_type :=
  | NGX_ESCAPE_URI | NGX_ESCAPE_ARGS | NGX_ESCAPE_URI_COMPONENT
  | NGX_ESCAPE_HTML | NGX_ESCAPE_REFRESH | NGX_ESCAPE_MEMCACHED
  | NGX_ESCAPE_MAIL_AUTH.

(** " ", "#", "%", "?", not allowed *)
Definition escape_uri_map : list Z :=
  [0xffffffff; 0xd000002d; 0x50000000; 0xb8000001;
   0xffffffff; 0xffffffff; 0xffffffff; 0xffffffff].

(** " ", "#", "%", "&", "+", ";", "?", not allowed *)
Definition escape_args_map : list Z :=
  [0xffffffff; 0xd800086d; 0x50000000; 0xb8000001;
   0xffffffff; 0xffffffff; 0xffffffff; 0xffffffff].

(** not ALPHA, DIGIT, "-", ".", "_", "~" *)
Definition escape_uri_component_map : list Z :=
  [0xffffffff; 0xfc009fff; 0x78000001; 0xb8000001;
   0xffffffff; 0xffffffff; 0xffffffff; 0xffffffff].

Definition escape_html_map : list Z :=
  [0xffffffff; 0x500000ad; 0x50000000; 0xb8000001;
   0xffffffff; 0xffffffff; 0xffffffff; 0xffffffff].

Definition escape_refresh_map : list Z :=
  [0xffffffff; 0x50000085; 0x50000000; 0xd8000001;
   0xffffffff; 0xffffffff; 0xffffffff; 0xffffffff].

(** " ", "%", %00-%1F *)
Definition escape_memcached_map : list Z :=
  [0xffffffff; 0x00000021; 0x00000000; 0x00000000;
   0x00000000; 0x00000000; 0x00000000; 0x00000000].

(** [escape = map[type]] *)
Definition escape_map (type : escape_type) : list Z :=
  match type with
  | NGX_ESCAPE_URI => escape_uri_map
  | NGX_ESCAPE_ARGS => escape_args_map
  | NGX_ESCAPE_URI_COMPONENT => escape_uri_component_map
  | NGX_ESCAPE_HTML => escape_html_map
  | NGX_ESCAPE_REFRESH => escape_refresh_map
  | NGX_ESCAPE_MEMCACHED | NGX_ESCAPE_MAIL_AUTH => escape_memcached_map
  end.

Fixpoint ngx_escape_uri_len (type : escape_type) (src : list Z) : nat :=
  match src with
  | [] => O
  | c :: src' =>
      if in_bitmap (escape_map type) c then S (ngx_escape_uri_len type src')
      else ngx_escape_uri_len type src'
  end.

Fixpoint ngx_escape_uri (type : escape_type) (src : list Z) : list Z :=
  match src with
  | [] => []
  | c :: src' =>
      if in_bitmap (escape_map type) c then
        chr "%" :: nth (Z.to_nat (Z.shiftr c 4)) HEX 0
          :: nth (Z.to_nat (Z.land c 15)) HEX 0
          :: ngx_escape_uri type src'
      else c :: ngx_escape_uri type src'
  end.

(** ** ngx_unescape_uri() *)

Definition NGX_UNESCAPE_URI : Z := 1.
Definition NGX_UNESCAPE_REDIRECT : Z := 2.

Definition has_flag (type flag : Z) : bool := negb (Z.land type flag =? 0).

(** The states; the quoted states remember what the code reads back from the
    source with [*(s - 1)] and [*(s - 2)] and the [decoded] nibble. *)
Inductive unescape_state :=
  | ue_usual
  | ue_quoted
  | ue_quoted_second (decoded prev : Z).

(** One iteration: the bytes written, and the next state or [None] for
    [goto done]. *)
Definition unescape_step (type : Z) (state : unescape_state) (ch : Z)
    : list Z * option unescape_state :=
  match state with
  | ue_usual =>
      if (ch =? chr "?")
         && has_flag type (Z.lor NGX_UNESCAPE_URI NGX_UNESCAPE_REDIRECT)
      then ([ch], None)
      else if ch =? chr "%" then ([], Some ue_quoted)
      else ([ch], Some ue_usual)
  | ue_quoted =>
      if (ch >=? chr "0") && (ch <=? chr "9") then
        ([], Some (ue_quoted_second (ch - chr "0") ch))
      else
        let c := Z.lor ch 32 in
        if (c >=? chr "a") && (c <=? chr "f") then
          ([], Some (ue_quoted_second (c - chr "a" + 10) ch))
        else ([ch], Some ue_usual)
  | ue_quoted_second decoded prev =>
      if (ch >=? chr "0") && (ch <=? chr "9") then
        let d := (Z.shiftl decoded 4 + (ch - chr "0")) mod 256 in
        if has_flag type NGX_UNESCAPE_REDIRECT then
          if (d >? chr "%") && (d <? 0x7f) then ([d], Some ue_usual)
          else ([chr "%"; prev; ch], Some ue_usual)
        else ([d], Some ue_usual)
      else
        let c := Z.lor ch 32 in
        if (c >=? chr "a") && (c <=? chr "f") then
          let d := (Z.shiftl decoded 4 + (c - chr "a") + 10) mod 256 in
          if has_flag type NGX_UNESCAPE_URI then
            if d =? chr "?" then ([d], None) else ([d], Some ue_usual)
          else if has_flag type NGX_UNESCAPE_REDIRECT then
            if d =? chr "?" then ([d], None)
            else if (d >? chr "%") && (d <? 0x7f) then ([d], Some ue_usual)
            else ([chr "%"; prev; ch], Some ue_usual)
          else ([d], Some ue_usual)
        else ([], Some ue_usual)
  end.

(** The bytes written to [dst] and the source that is left. *)
Fixpoint unescape_loop (type : Z) (state : unescape_state) (src : list Z)
    : list Z * list Z :=
  match src with
  | [] => ([], [])
  | ch :: src' =>
      match unescape_step type state ch with
      | (out, None) => (out, src')
      | (out, Some state') =>
          let '(d, s) := unescape_loop type state' src' in (out ++ d, s)
      end
  end.

Definition ngx_unescape_uri (src : list Z) (type : Z) : list Z * list Z :=
  unescape_loop type ue_usual src.

(** ** ngx_escape_html() *)

Fixpoint ngx_escape_html_len (src : list Z) : nat :=
  match src with
  | [] => O
  | c :: src' =>
      Nat.add
        (if c =? chr "<" then 3%nat
         else if c =? chr ">" then 3%nat
         else if c =? chr "&" then 4%nat
         else if c =? 34 then 5%nat
         else 0%nat)
        (ngx_escape_html_len src')
  end.

Fixpoint ngx_escape_html (src : list Z) : list Z :=
  match src with
  | [] => []
  | c :: src' =>
      (if c =? chr "<" then bs "&lt;"
       else if c =? chr ">" then bs "&gt;"
       else if c =? chr "&" then bs "&amp;"
       else if c =? 34 then bs "&quot;"
       else [c]) ++ ngx_escape_html src'
  end.

(** ** ngx_escape_json() *)

Fixpoint ngx_escape_json_len (src : list Z) : nat :=
  match src with
  | [] => O
  | ch :: src' =>
      Nat.add
        (if (ch =? 92) || (ch =? 34) then 1%nat
         else if ch <=? 0x1f then
           if (ch =? 10) || (ch =? 13) || (ch =? 9) || (ch =? 8) || (ch =? 12)
           then 1%nat else 5%nat
         else 0%nat)
        (ngx_escape_json_len src')
  end.

Fixpoint ngx_escape_json (src : list Z) : list Z :=
  match src with
  | [] => []
  | ch :: src' =>
      (if ch >? 0x1f then
         if (ch =? 92) || (ch =? 34) then [92; ch] else [ch]
       else
         92 ::
         (if ch =? 10 then [chr "n"]
          else if ch =? 13 then [chr "r"]
          else if ch =? 9 then [chr "t"]
          else if ch =? 8 then [chr "b"]
          else if ch =? 12 then [chr "f"]
          else
            let lo := Z.land ch 15 in
            [chr "u"; chr "0"; chr "0"; chr "0" + Z.shiftr ch 4;
             if lo <? 10 then chr "0" + lo else chr "A" + lo - 10]))
      ++ ngx_escape_json src'
  end.

Example escape_ex : ngx_escape_uri NGX_ESCAPE_URI (bs "/a b?c") = bs "/a%20b%3Fc".
Proof. reflexivity. Qed.

Example unescape_ex : ngx_unescape_uri (bs "/a%20b%3Fc") 0 = (bs "/a b?c", []).
Proof. reflexivity. Qed.

Example json_ex : ngx_escape_json [34; 1; 10; 97] = bs "\" ++ [34] ++ bs "\u0001\na".
Proof. reflexivity. Qed.

(** ** Escaped and unescaped URIs *)

Definition hi (c : Z) : Z := nth (Z.to_nat (Z.shiftr c 4)) HEX 0.
Definition lo (c : Z) : Z := nth (Z.to_nat (Z.land c 15)) HEX 0.

(** A "%XX" triple the escaper writes is read back as the byte. *)
Definition triple_read (c : Z) : bool :=
  match unescape_step 0 ue_quoted (hi c) with
  | ([], Some (ue_quoted_second d p)) =>
      match unescape_step 0 (ue_quoted_second d p) (lo c) with
      | ([c'], Some ue_usual) => c' =? c
      | _ => false
      end
  | _ => false
  end.

Lemma triple_read_all c : is_byte c -> triple_read c = true.
Proof. apply byte_forall. vm_compute. reflexivity. Qed.

Lemma unescape_triple c rest :
  is_byte c ->
  unescape_loop 0 ue_usual (37 :: hi c :: lo c :: rest) =
  (let '(d, s) := unescape_loop 0 ue_usual rest in (c :: d, s)).
Proof.
  intros Hc. pose proof (triple_read_all c Hc) as Ht. unfold triple_read in Ht.
  change (unescape_loop 0 ue_usual (37 :: hi c :: lo c :: rest))
    with (let '(d, s) := unescape_loop 0 ue_quoted (hi c :: lo c :: rest) in ([] ++ d, s)).
  cbn [unescape_loop].
  destruct (unescape_step 0 ue_quoted (hi c)) as [[|] [[| |d p]|]]; try discriminate.
  destruct (unescape_step 0 (ue_quoted_second d p) (lo c)) as [[|c' [|]] [[| |]|]];
    try discriminate.
  destruct (unescape_loop 0 ue_usual rest). cbn [app]. repeat f_equal. lia.
Qed.

Definition escapes_percent (type : escape_type) : bool :=
  in_bitmap (escape_map type) (chr "%").

Lemma unescape_escape type src :
  escapes_percent type = true -> bytes src ->
  unescape_loop 0 ue_usual (ngx_escape_uri type src) = (src, []).
Proof.
  intros Hp. induction 1 as [|c src Hc Hs IH]; [reflexivity|].
  cbn [ngx_escape_uri]. destruct (in_bitmap (escape_map type) c) eqn:E.
  - rewrite (unescape_triple c) by assumption. rewrite IH. reflexivity.
  - cbn [unescape_loop unescape_step].
    replace (has_flag 0 _) with false by reflexivity. rewrite andb_false_r.
    destruct (c =? 37) eqn:E37; [|rewrite IH; reflexivity].
    assert (c = 37) as -> by lia. unfold escapes_percent in Hp. congruence.
Qed.

(** ** Reference readers for the HTML and JSON escapes *)

Fixpoint html_unescape (l : list Z) : option (list Z) :=
  match l with
  | [] => Some []
  | 38 :: 108 :: 116 :: 59 :: l' => option_map (cons 60) (html_unescape l')
  | 38 :: 103 :: 116 :: 59 :: l' => option_map (cons 62) (html_unescape l')
  | 38 :: 97 :: 109 :: 112 :: 59 :: l' => option_map (cons 38) (html_unescape l')
  | 38 :: 113 :: 117 :: 111 :: 116 :: 59 :: l' => option_map (cons 34) (html_unescape l')
  | c :: l' =>
      if (c =? 38) || (c =? 60) || (c =? 62) || (c =? 34) then None
      else option_map (cons c) (html_unescape l')
  end.

Lemma html_unescape_plain c l :
  c <> 38 -> c <> 60 -> c <> 62 -> c <> 34 ->
  html_unescape (c :: l) = option_map (cons c) (html_unescape l).
Proof.
  intros. cbn [html_unescape].
  replace ((c =? 38) || (c =? 60) || (c =? 62) || (c =? 34)) with false by lia.
  destruct c as [|p|p]; try reflexivity.
  repeat (destruct p as [p|p|]; try reflexivity; try lia).
Qed.

Lemma html_unescape_escape src : html_unescape (ngx_escape_html src) = Some src.
Proof.
  induction src as [|c src IH]; [reflexivity|]. cbn [ngx_escape_html].
  destruct (c =? 60) eqn:E1; [assert (c = 60) as -> by lia; cbn; rewrite IH; reflexivity|].
  destruct (c =? 62) eqn:E2; [assert (c = 62) as -> by lia; cbn; rewrite IH; reflexivity|].
  destruct (c =? 38) eqn:E3; [assert (c = 38) as -> by lia; cbn; rewrite IH; reflexivity|].
  destruct (c =? 34) eqn:E4; [assert (c = 34) as -> by lia; cbn; rewrite IH; reflexivity|].
  cbn [app]. rewrite html_unescape_plain, IH by lia. reflexivity.
Qed.

(** The JSON string syntax: two-character escapes, [\u00XX] and plain bytes;
    a raw control byte or quotation mark is not a string. *)
Definition json_short (c : Z) : option Z :=
  if (c =? 34) || (c =? 92) || (c =? 47) then Some c
  else if c =? 98 then Some 8
  else if c =? 102 then Some 12
  else if c =? 110 then Some 10
  else if c =? 114 then Some 13
  else if c =? 116 then Some 9
  else None.

Fixpoint json_unescape (l : list Z) : option (list Z) :=
  match l with
  | [] => Some []
  | c :: l1 =>
      if c =? 92 then
        match l1 with
        | [] => None
        | e :: l2 =>
            match json_short e with
            | Some b => option_map (cons b) (json_unescape l2)
            | None =>
                if e =? 117 then
                  match l2 with
                  | a1 :: a2 :: a3 :: a4 :: l3 =>
                      match hex_value [a1; a2; a3; a4] with
                      | Some v =>
                          if v <? 256 then option_map (cons v) (json_unescape l3)
                          else None
                      | None => None
                      end
                  | _ => None
                  end
                else None
            end
        end
      else if (c <? 32) || (c =? 34) then None
      else option_map (cons c) (json_unescape l1)
  end.

(** The [\u00XX] escape of a control byte denotes the byte. *)
Definition json_u_read (ch : Z) : bool :=
  if ch <=? 31 then
    opt_eqb
      (hex_value [48; 48; 48 + Z.shiftr ch 4;
                  if Z.land ch 15 <? 10 then 48 + Z.land ch 15
                  else 65 + Z.land ch 15 - 10]) (Some ch)
  else true.

Lemma json_u_read_all c : is_byte c -> json_u_read c = true.
Proof. apply byte_forall. vm_compute. reflexivity. Qed.

Lemma json_unescape_escape src :
  bytes src -> json_unescape (ngx_escape_json src) = Some src.
Proof.
  induction 1 as [|c src Hc Hs IH]; [reflexivity|]. cbn [ngx_escape_json].
  destruct (c >? 31) eqn:E.
  - destruct ((c =? 92) || (c =? 34)) eqn:E2; cbn [app json_unescape].
    + change (92 =? 92) with true. cbv iota. unfold json_short. if_true.
      rewrite IH. reflexivity.
    + if_false. if_false. rewrite IH. reflexivity.
  - cbn [app]. cbn [json_unescape]. change (92 =? 92) with true. cbv iota.
    repeat match goal with
    | |- context [c =? ?k] =>
        destruct (c =? k) eqn:?;
          [assert (c = k) as -> by lia; cbn; rewrite IH; reflexivity|]
    end.
    pose proof (json_u_read_all c Hc) as Hu. unfold json_u_read in Hu.
    replace (c <=? 31) with true in Hu by lia. apply opt_eqb_eq in Hu.
    cbn [app]. change (json_short 117) with (@None Z). change (117 =? 117) with true.
    cbv iota. rewrite Hu. if_true. rewrite IH. reflexivity.
Qed.

Lemma escape_html_length src :
  length (ngx_escape_html src) = (length src + ngx_escape_html_len src)%nat.
Proof.
  induction src as [|c src IH]; [reflexivity|].
  cbn [ngx_escape_html ngx_escape_html_len length]. rewrite length_app, IH.
  split_ifs; simpl; lia.
Qed.

Lemma escape_json_length src :
  length (ngx_escape_json src) = (length src + ngx_escape_json_len src)%nat.
Proof.
  induction src as [|c src IH]; [reflexivity|].
  cbn [ngx_escape_json ngx_escape_json_len length]. rewrite length_app, IH.
  destruct (c >? 31) eqn:E.
  - replace (c <=? 31) with false by lia. split_ifs; simpl; lia.
  - replace ((c =? 92) || (c =? 34)) with false by lia.
    replace (c <=? 31) with true by lia. cbv zeta. cbn [length].
    destruct (c =? 10), (c =? 13), (c =? 9), (c =? 8), (c =? 12); cbn [orb length]; lia.
Qed.

Lemma escape_uri_length type src :
  length (ngx_escape_uri type src)
  = (length src + 2 * ngx_escape_uri_len type src)%nat.
Proof.
  induction src as [|c src IH]; [reflexivity|].
  cbn [ngx_escape_uri ngx_escape_uri_len length]. split_ifs; cbn [length]; lia.
Qed.

(** ** Properties *)

(** what ngx_escape_uri() escapes, ngx_unescape_uri() without flags reads
    back: for every escape type that escapes the percent sign and every byte
    string the round trip is the identity and uses the whole input. *)
Theorem uri_escape_roundtrip (type : escape_type) (src : list Z) :
  escapes_percent type = true -> bytes src ->
  ngx_unescape_uri (ngx_escape_uri type src) 0 = (src, []).
Proof. apply unescape_escape. Qed.

Lemma uri_escape_roundtrip_witness :
  ngx_unescape_uri (ngx_escape_uri NGX_ESCAPE_ARGS (bs "a b%&")) 0
  = (bs "a b%&", []).
Proof.
  apply (uri_escape_roundtrip NGX_ESCAPE_ARGS (bs "a b%&"));
    [vm_compute; reflexivity|repeat constructor; vm_compute; congruence].
Defined.

(** ngx_escape_html() and ngx_escape_json() lose nothing and leave no
    character that could end the quoted context: a reader of HTML character
    references (that refuses raw angle brackets, quotation marks and stray
    ampersands) and a reader of JSON strings (that refuses raw control bytes
    and quotation marks) both read back the source. *)
Theorem html_json_escape_roundtrip (src : list Z) :
  bytes src ->
  html_unescape (ngx_escape_html src) = Some src
  /\ json_unescape (ngx_escape_json src) = Some src.
Proof. split; [apply html_unescape_escape|apply json_unescape_escape; assumption]. Qed.

Lemma html_json_escape_roundtrip_witness :
  html_unescape (ngx_escape_html [60; 34; 1]) = Some [60; 34; 1]
  /\ json_unescape (ngx_escape_json [60; 34; 1]) = Some [60; 34; 1].
Proof.
  apply (html_json_escape_roundtrip [60; 34; 1]).
  repeat constructor; vm_compute; congruence.
Defined.

(** The sizing calls (with a NULL destination) are exact: an escaper
    writes as many bytes as the source has plus the length the sizing call
    returned (twice it for ngx_escape_uri()), so a buffer allocated from it
    is filled to the last byte and never overrun. *)
Theorem escape_sizes_exact (type : escape_type) (src : list Z) :
  length (ngx_escape_uri type src)
    = (length src + 2 * ngx_escape_uri_len type src)%nat
  /\ length (ngx_escape_html src) = (length src + ngx_escape_html_len src)%nat
  /\ length (ngx_escape_json src) = (length src + ngx_escape_json_len src)%nat.
Proof.
  split; [apply escape_uri_length|split; [apply escape_html_length|apply escape_json_length]].
Qed.

(** The last word of the [refresh] bitmap is 0xd8000001 while the comment
    beside it spells 1011 1000 ... (0xb8000001, as in the other tables): with
    NGX_ESCAPE_REFRESH the code escapes "~" and leaves "}" as it is. *)
Lemma refresh_map_differs_from_comment :
  in_bitmap (escape_map NGX_ESCAPE_REFRESH) (chr "~") = true
  /\ in_bitmap (escape_map NGX_ESCAPE_REFRESH) (chr "}") = false
  /\ in_bitmap (escape_map NGX_ESCAPE_URI) (chr "~") = false
  /\ in_bitmap (escape_map NGX_ESCAPE_URI) (chr "}") = true.
Proof. repeat split; reflexivity. Qed.
