(* ===== verification/NgxBase64.v ===== *)
(** * Base64 encoding of ngx_string.c

    Models of ngx_encode_base64(), ngx_encode_base64url(),
    ngx_decode_base64() and ngx_decode_base64url() of
    [src/core/ngx_string.c], with the alphabets as the tables of the code. *)

From Stdlib Require Import String Ascii ZArith Bool Lia ZifyBool List.
From S2P Require Import Prelude.
Import ListNotations.
Local Open Scope Z_scope.

#[local] Ltac Zify.zify_post_hook ::= Z.div_mod_to_equations.

Definition idx (table : list Z) (i : Z) : Z := nth (Z.to_nat i) table 0.

(** ** Encoding *)

Fixpoint ngx_encode_base64_internal (basis : list Z) (padding : bool)
    (s : list Z) : list Z :=
  match s with
  | s0 :: s1 :: s2 :: s' =>
      idx basis (Z.land (Z.shiftr s0 2) 0x3f)
      :: idx basis (Z.lor (Z.shiftl (Z.land s0 3) 4) (Z.shiftr s1 4))
      :: idx basis (Z.lor (Z.shiftl (Z.land s1 0x0f) 2) (Z.shiftr s2 6))
      :: idx basis (Z.land s2 0x3f)
      :: ngx_encode_base64_internal basis padding s'
  | [s0] =>
      idx basis (Z.land (Z.shiftr s0 2) 0x3f)
      :: idx basis (Z.shiftl (Z.land s0 3) 4)
      :: (if padding then [chr "="] else []) ++ (if padding then [chr "="] else [])
  | [s0; s1] =>
      idx basis (Z.land (Z.shiftr s0 2) 0x3f)
      :: idx basis (Z.lor (Z.shiftl (Z.land s0 3) 4) (Z.shiftr s1 4))
      :: idx basis (Z.shiftl (Z.land s1 0x0f) 2)
      :: (if padding then [chr "="] else [])
  | [] => []
  end.

Definition basis64_enc : list Z :=
  bs "ABCDEFGHIJKLMNOPQRSTUVWXYZabcdefghijklmnopqrstuvwxyz0123456789+/".

Definition basis64url_enc : list Z :=
  bs "ABCDEFGHIJKLMNOPQRSTUVWXYZabcdefghijklmnopqrstuvwxyz0123456789-_".

Definition ngx_encode_base64 (src : list Z) : list Z :=
  ngx_encode_base64_internal basis64_enc true src.

Definition ngx_encode_base64url (src : list Z) : list Z :=
  ngx_encode_base64_internal basis64url_enc false src.

(** ** Decoding *)

(** The first loop: the length up to "=", or [None] when a byte is not in
    the alphabet. *)
Fixpoint decode_len (basis : list Z) (s : list Z) : option nat :=
  match s with
  | [] => Some O
  | c :: s' =>
      if c =? chr "=" then Some O
      else if idx basis c =? 77 then None
      else option_map S (decode_len basis s')
  end.

(** The second loop and the two tests after it, on the [len] bytes. *)
Fixpoint decode_bytes (basis : list Z) (s : list Z) : list Z :=
  let b i := idx basis i in
  match s with
  | s0 :: s1 :: s2 :: s3 :: s' =>
      Z.lor (Z.shiftl (b s0) 2) (Z.shiftr (b s1) 4) mod 256
      :: Z.lor (Z.shiftl (b s1) 4) (Z.shiftr (b s2) 2) mod 256
      :: Z.lor (Z.shiftl (b s2) 6) (b s3) mod 256
      :: decode_bytes basis s'
  | [s0; s1; s2] =>
      [Z.lor (Z.shiftl (b s0) 2) (Z.shiftr (b s1) 4) mod 256;
       Z.lor (Z.shiftl (b s1) 4) (Z.shiftr (b s2) 2) mod 256]
  | [s0; s1] => [Z.lor (Z.shiftl (b s0) 2) (Z.shiftr (b s1) 4) mod 256]
  | _ => []
  end.

(** [None] is NGX_ERROR; [Some d] is NGX_OK with [dst] set to [d]. *)
Definition ngx_decode_base64_internal (basis : list Z) (src : list Z)
    : option (list Z) :=
  match decode_len basis src with
  | None => None
  | Some len =>
      if Nat.eqb (Nat.modulo len 4) 1 then None
      else Some (decode_bytes basis (firstn len src))
  end.

Definition basis64_dec : list Z := [
  77; 77; 77; 77; 77; 77; 77; 77; 77; 77; 77; 77; 77; 77; 77; 77;
  77; 77; 77; 77; 77; 77; 77; 77; 77; 77; 77; 77; 77; 77; 77; 77;
  77; 77; 77; 77; 77; 77; 77; 77; 77; 77; 77; 62; 77; 77; 77; 63;
  52; 53; 54; 55; 56; 57; 58; 59; 60; 61; 77; 77; 77; 77; 77; 77;
  77;  0;  1;  2;  3;  4;  5;  6;  7;  8;  9; 10; 11; 12; 13; 14;
  15; 16; 17; 18; 19; 20; 21; 22; 23; 24; 25; 77; 77; 77; 77; 77;
  77; 26; 27; 28; 29; 30; 31; 32; 33; 34; 35; 36; 37; 38; 39; 40;
  41; 42; 43; 44; 45; 46; 47; 48; 49; 50; 51; 77; 77; 77; 77; 77;

  77; 77; 77; 77; 77; 77; 77; 77; 77; 77; 77; 77; 77; 77; 77; 77;
  77; 77; 77; 77; 77; 77; 77; 77; 77; 77; 77; 77; 77; 77; 77; 77;
  77; 77; 77; 77; 77; 77; 77; 77; 77; 77; 77; 77; 77; 77; 77; 77;
  77; 77; 77; 77; 77; 77; 77; 77; 77; 77; 77; 77; 77; 77; 77; 77;
  77; 77; 77; 77; 77; 77; 77; 77; 77; 77; 77; 77; 77; 77; 77; 77;
  77; 77; 77; 77; 77; 77; 77; 77; 77; 77; 77; 77; 77; 77; 77; 77;
  77; 77; 77; 77; 77; 77; 77; 77; 77; 77; 77; 77; 77; 77; 77; 77;
  77; 77; 77; 77; 77; 77; 77; 77; 77; 77; 77; 77; 77; 77; 77; 77].

Definition basis64url_dec : list Z := [
  77; 77; 77; 77; 77; 77; 77; 77; 77; 77; 77; 77; 77; 77; 77; 77;
  77; 77; 77; 77; 77; 77; 77; 77; 77; 77; 77; 77; 77; 77; 77; 77;
  77; 77; 77; 77; 77; 77; 77; 77; 77; 77; 77; 77; 77; 62; 77; 77;
  52; 53; 54; 55; 56; 57; 58; 59; 60; 61; 77; 77; 77; 77; 77; 77;
  77;  0;  1;  2;  3;  4;  5;  6;  7;  8;  9; 10; 11; 12; 13; 14;
  15; 16; 17; 18; 19; 20; 21; 22; 23; 24; 25; 77; 77; 77; 77; 63;
  77; 26; 27; 28; 29; 30; 31; 32; 33; 34; 35; 36; 37; 38; 39; 40;
  41; 42; 43; 44; 45; 46; 47; 48; 49; 50; 51; 77; 77; 77; 77; 77;

  77; 77; 77; 77; 77; 77; 77; 77; 77; 77; 77; 77; 77; 77; 77; 77;
  77; 77; 77; 77; 77; 77; 77; 77; 77; 77; 77; 77; 77; 77; 77; 77;
  77; 77; 77; 77; 77; 77; 77; 77; 77; 77; 77; 77; 77; 77; 77; 77;
  77; 77; 77; 77; 77; 77; 77; 77; 77; 77; 77; 77; 77; 77; 77; 77;
  77; 77; 77; 77; 77; 77; 77; 77; 77; 77; 77; 77; 77; 77; 77; 77;
  77; 77; 77; 77; 77; 77; 77; 77; 77; 77; 77; 77; 77; 77; 77; 77;
  77; 77; 77; 77; 77; 77; 77; 77; 77; 77; 77; 77; 77; 77; 77; 77;
  77; 77; 77; 77; 77; 77; 77; 77; 77; 77; 77; 77; 77; 77; 77; 77].

Definition ngx_decode_base64 (src : list Z) : option (list Z) :=
  ngx_decode_base64_internal basis64_dec src.

Definition ngx_decode_base64url (src : list Z) : option (list Z) :=
  ngx_decode_base64_internal basis64url_dec src.

Example encode_ex : ngx_encode_base64 (bs "nginx") = bs "bmdpbng=".
Proof. reflexivity. Qed.

Example decode_ex : ngx_decode_base64 (bs "bmdpbng=") = Some (bs "nginx").
Proof. reflexivity. Qed.

(** ** The indices the encoder computes

    Six-bit groups of the source, as arithmetic. *)

Ltac to_arith :=
  repeat first
    [ rewrite (land_ones_mod _ 0x3f 6) by (reflexivity || lia)
    | rewrite (land_ones_mod _ 0x0f 4) by (reflexivity || lia)
    | rewrite (land_ones_mod _ 3 2) by (reflexivity || lia)
    | rewrite Z.shiftr_div_pow2 by lia
    | rewrite Z.shiftl_mul_pow2 by lia ];
  change (2 ^ 6) with 64 in *; change (2 ^ 4) with 16 in *; change (2 ^ 2) with 4 in *.

Lemma sextet0 a : is_byte a -> Z.land (Z.shiftr a 2) 0x3f = a / 4.
Proof. intros [? ?]. to_arith. apply Z.mod_small. lia. Qed.

Lemma sextet1 a b : is_byte a -> is_byte b ->
  Z.lor (Z.shiftl (Z.land a 3) 4) (Z.shiftr b 4) = (a mod 4) * 16 + b / 16.
Proof. intros [? ?] [? ?]. to_arith. apply (lor_disjoint _ _ 4); lia. Qed.

Lemma sextet2 b c : is_byte b -> is_byte c ->
  Z.lor (Z.shiftl (Z.land b 0x0f) 2) (Z.shiftr c 6) = (b mod 16) * 4 + c / 64.
Proof. intros [? ?] [? ?]. to_arith. apply (lor_disjoint _ _ 2); lia. Qed.

Lemma sextet3 c : is_byte c -> Z.land c 0x3f = c mod 64.
Proof. intros _. to_arith. reflexivity. Qed.

(** The bytes the decoder makes of them. *)

Lemma octet0 i j : 0 <= j < 64 ->
  Z.lor (Z.shiftl i 2) (Z.shiftr j 4) mod 256 = (i * 4 + j / 16) mod 256.
Proof. intros. to_arith. f_equal. apply (lor_disjoint _ _ 2); lia. Qed.

Lemma octet1 j k : 0 <= k < 64 ->
  Z.lor (Z.shiftl j 4) (Z.shiftr k 2) mod 256 = (j * 16 + k / 4) mod 256.
Proof. intros. to_arith. f_equal. apply (lor_disjoint _ _ 4); lia. Qed.

Lemma octet2 k l : 0 <= l < 64 ->
  Z.lor (Z.shiftl k 6) l mod 256 = (k * 64 + l) mod 256.
Proof. intros. to_arith. f_equal. apply (lor_disjoint _ _ 6); lia. Qed.

(** ** Round trip, for any alphabet and its inverse table *)

Section Alphabet.
Variables enc dec : list Z.
Hypothesis dec_enc : forall i, 0 <= i < 64 -> idx dec (idx enc i) = i.
Hypothesis enc_not_pad : forall i, 0 <= i < 64 -> idx enc i <> chr "=".

Abbreviation body := (ngx_encode_base64_internal enc false).

(** A byte the decoder accepts. *)
Definition valid (c : Z) : Prop := c <> chr "=" /\ 0 <= idx dec c < 64.

Lemma valid_enc i : 0 <= i < 64 -> valid (idx enc i).
Proof. intros Hi. split; [apply enc_not_pad, Hi|]. rewrite dec_enc; assumption. Qed.

Lemma encode_pad s : exists n,
  ngx_encode_base64_internal enc true s = body s ++ repeat (chr "=") n.
Proof.
  induction s as [| | |a b c s [n IH]] using list_ind3; cbn [ngx_encode_base64_internal app].
  - exists O. reflexivity.
  - exists 2%nat. reflexivity.
  - exists 1%nat. reflexivity.
  - exists n. rewrite IH. reflexivity.
Qed.

Lemma body_ok s : bytes s ->
  Forall valid (body s) /\ Nat.modulo (length (body s)) 4 <> 1%nat
  /\ decode_bytes dec (body s) = s.
Proof.
  induction s as [|a|a b|a b c s IH] using list_ind3; intros Hb;
    cbn [ngx_encode_base64_internal app].
  - split; [constructor|]. split; [discriminate|reflexivity].
  - inv Hb. rename H1 into Ha. pose proof Ha as [? ?].
    rewrite sextet0 by assumption.
    replace (Z.shiftl (Z.land a 3) 4) with (a mod 4 * 16) by (to_arith; lia).
    split; [repeat constructor; try apply valid_enc; lia|].
    split; [discriminate|]. cbn [decode_bytes]. rewrite !dec_enc, octet0 by lia.
    f_equal. lia.
  - inv Hb. inv H2. rename H1 into Ha, H3 into Hbb. pose proof Ha as [? ?]. pose proof Hbb as [? ?].
    rewrite sextet0, sextet1 by assumption.
    replace (Z.shiftl (Z.land b 0x0f) 2) with (b mod 16 * 4) by (to_arith; lia).
    split; [repeat constructor; try apply valid_enc; lia|].
    split; [discriminate|]. cbn [decode_bytes]. rewrite !dec_enc, octet0, octet1 by lia.
    repeat f_equal; lia.
  - inv Hb. inv H2. inv H4. rename H1 into Ha, H3 into Hbb, H2 into Hc.
    pose proof Ha as [? ?]. pose proof Hbb as [? ?]. pose proof Hc as [? ?].
    destruct (IH H5) as (Hv & Hl & Hd).
    rewrite sextet0, sextet1, sextet2, sextet3 by assumption.
    split; [repeat constructor; try apply valid_enc; assumption || lia|].
    split.
    { cbn [length]. intros Hm. apply Hl.
      rewrite <- (Nat.Div0.mod_add (length (body s)) 1 4), Nat.add_comm. exact Hm. }
    cbn [decode_bytes]. rewrite !dec_enc, octet0, octet1, octet2, Hd by lia.
    repeat f_equal; lia.
Qed.

Lemma decode_len_body l n :
  Forall valid l -> decode_len dec (l ++ repeat (chr "=") n) = Some (length l).
Proof.
  induction 1 as [|c l [Hp Hr] Hl IH]; cbn [app decode_len length].
  - destruct n; reflexivity.
  - rewrite IH. if_false. if_false. reflexivity.
Qed.

Lemma decode_encode pad s : bytes s ->
  ngx_decode_base64_internal dec (ngx_encode_base64_internal enc pad s) = Some s.
Proof.
  intros Hb. destruct (body_ok s Hb) as (Hv & Hl & Hd).
  assert (E : exists n, ngx_encode_base64_internal enc pad s
                        = body s ++ repeat (chr "=") n).
  { destruct pad; [apply encode_pad|exists O; rewrite app_nil_r; reflexivity]. }
  destruct E as [n ->]. unfold ngx_decode_base64_internal.
  rewrite decode_len_body by assumption.
  apply Nat.eqb_neq in Hl. rewrite Hl.
  rewrite firstn_app, firstn_all, Nat.sub_diag, firstn_O, app_nil_r, Hd. reflexivity.
Qed.
End Alphabet.

Definition sextets : list Z := map Z.of_nat (seq 0 64).

Lemma sextet_forall (f : Z -> bool) :
  forallb f sextets = true -> forall i, 0 <= i < 64 -> f i = true.
Proof.
  intros Hf i Hi. rewrite forallb_forall in Hf. apply Hf.
  apply in_map_iff. exists (Z.to_nat i). split; [lia|]. apply in_seq. lia.
Qed.

(** ** Properties *)

(** decoding inverts encoding, for the standard alphabet with padding and
    for the URL alphabet without: every byte string is read back whole. *)
Theorem base64_roundtrip (src : list Z) :
  bytes src ->
  ngx_decode_base64 (ngx_encode_base64 src) = Some src
  /\ ngx_decode_base64url (ngx_encode_base64url src) = Some src.
Proof.
  intros Hb. split; apply decode_encode; try assumption; intros i Hi.
  - apply Z.eqb_eq. revert i Hi. apply sextet_forall. vm_compute. reflexivity.
  - apply Z.eqb_neq, negb_true_iff. revert i Hi. apply sextet_forall. vm_compute. reflexivity.
  - apply Z.eqb_eq. revert i Hi. apply sextet_forall. vm_compute. reflexivity.
  - apply Z.eqb_neq, negb_true_iff. revert i Hi. apply sextet_forall. vm_compute. reflexivity.
Qed.

Lemma base64_roundtrip_witness :
  ngx_decode_base64 (ngx_encode_base64 [0; 255; 7; 200]) = Some [0; 255; 7; 200]
  /\ ngx_decode_base64url (ngx_encode_base64url [0; 255; 7; 200])
     = Some [0; 255; 7; 200].
Proof.
  apply (base64_roundtrip [0; 255; 7; 200]).
  repeat constructor; vm_compute; congruence.
Defined.
