(* ===== verification/NgxPrintf.v ===== *)
(** * Formatted output

    Models of ngx_sprintf(), ngx_snprintf() and ngx_slprintf() of
    [src/core/ngx_string.c]: the interpreter ngx_vslprintf() of format
    strings and the two routines that print numbers and strings into what is
    left of the buffer. *)

From Stdlib Require Import String Ascii ZArith Bool Lia ZifyBool List.
From S2P Require Import Prelude NgxNumber NgxEscape.
Import ListNotations.
Local Open Scope Z_scope.

Module Printf.

(** The room [last - buf] left in the buffer; [None] when [last] is
    [(void * ) -1], which no buffer reaches. *)
Definition room : Type := option nat.

Definition has_room (k : room) : bool :=
  match k with Some O => false | _ => true end.

Definition shrink (k : room) (n : nat) : room :=
  match k with Some k => Some (k - n)%nat | None => None end.

(** What fits of [l]. *)
Definition fitting (k : room) (l : list Z) : list Z :=
  match k with Some k => firstn k l | None => l end.

(** Text written, and the room it leaves. *)
Definition emit (k : room) (l : list Z) : list Z * room :=
  let l := fitting k l in (l, shrink k (length l)).

(** ** ngx_sprintf_num() *)

Definition NGX_INT64_LEN : nat := 20.
Definition NGX_INT32_LEN : nat := 11.
Definition NGX_MAX_UINT32_VALUE : Z := 0xffffffff.

(** [do { *--p = digit(n % base) } while (n /= base)], [temp] being filled
    from its end; the fuel is the size of [temp]. *)
Fixpoint digits (fuel : nat) (base : Z) (table : list Z) (n : Z) (temp : list Z)
    : list Z :=
  match fuel with
  | O => temp
  | S fuel' =>
      let temp := nth (Z.to_nat (n mod base)) table 0 :: temp in
      if n / base =? 0 then temp else digits fuel' base table (n / base) temp
  end.

Definition number (ui64 : Z) (hexadecimal : Z) : list Z :=
  if hexadecimal =? 0 then
    if ui64 <=? NGX_MAX_UINT32_VALUE
    then digits NGX_INT64_LEN 10 hex (wrapu size4 ui64) []
    else digits NGX_INT64_LEN 10 hex ui64 []
  else if hexadecimal =? 1 then digits NGX_INT64_LEN 16 hex ui64 []
  else digits NGX_INT64_LEN 16 HEX ui64 [].

Definition ngx_sprintf_num (k : room) (ui64 zero hexadecimal width : Z)
    : list Z * room :=
  let p := number ui64 hexadecimal in
  let '(pad, k) := emit k (repeat zero (Z.to_nat width - length p)) in
  let '(num, k) := emit k p in
  (pad ++ num, k).

(** ** ngx_sprintf_str() *)

(** [while (len-- && buf < last - 1)], two digits per byte *)
Fixpoint hex_string (k : room) (table : list Z) (src : list Z) : list Z * room :=
  match src with
  | [] => ([], k)
  | c :: src' =>
      let fits := match k with Some k => (1 <? k)%nat | None => true end in
      if fits then
        let '(l, k') := hex_string (shrink k 2) table src' in
        (nth (Z.to_nat (Z.shiftr c 4)) table 0
           :: nth (Z.to_nat (Z.land c 15)) table 0 :: l, k')
      else ([], k)
  end.

(** [src] is the string up to its NUL or of its length. *)
Definition ngx_sprintf_str (k : room) (src : list Z) (hexadecimal : Z)
    : list Z * room :=
  if hexadecimal =? 0 then emit k src
  else if hexadecimal =? 1 then hex_string k hex src
  else hex_string k HEX src.

(** ** ngx_vslprintf() *)

(** An argument: an integer of the type the conversion names, a string
    (what an [ngx_str_t], a variable value or a pointer designates), or a
    [double] as the code sees it: whether it is negative, the integer part
    of its absolute value, and its fraction scaled and rounded. *)
Inductive arg :=
  | Arg_int (z : Z)
  | Arg_str (l : list Z)
  | Arg_double (negative : bool) (whole : Z) (frac : Z -> Z).

(** The variables of one conversion. *)
Record conv := mk_conv {
  zero : Z; width : Z; sign : bool; hexf : Z; max_width : bool;
  frac_width : Z; slen : option Z
}.

Section Widths.
Context `{P : Platform}.

(** [while ( *fmt >= '0' && *fmt <= '9') n = n * 10 + ( *fmt++ - '0')] *)
Fixpoint read_width (n : Z) (fmt : list Z) : Z * list Z :=
  match fmt with
  | c :: fmt' =>
      if (c >=? chr "0") && (c <=? chr "9")
      then read_width (wrapu ptr_size (n * 10 + (c - chr "0"))) fmt'
      else (n, fmt)
  | [] => (n, [])
  end.

(** The loop over the modifiers; [None] when an argument is missing. *)
Fixpoint modifiers (c : conv) (fmt : list Z) (args : list arg)
    : option (conv * list Z * list arg) :=
  match fmt with
  | ch :: fmt' =>
      if ch =? chr "u" then
        modifiers (mk_conv (zero c) (width c) false (hexf c) (max_width c)
                     (frac_width c) (slen c)) fmt' args
      else if ch =? chr "m" then
        modifiers (mk_conv (zero c) (width c) (sign c) (hexf c) true
                     (frac_width c) (slen c)) fmt' args
      else if ch =? chr "X" then
        modifiers (mk_conv (zero c) (width c) false 2 (max_width c)
                     (frac_width c) (slen c)) fmt' args
      else if ch =? chr "x" then
        modifiers (mk_conv (zero c) (width c) false 1 (max_width c)
                     (frac_width c) (slen c)) fmt' args
      else if ch =? chr "." then
        let '(n, rest) := read_width (frac_width c) fmt' in
        Some (mk_conv (zero c) (width c) (sign c) (hexf c) (max_width c) n (slen c),
              rest, args)
      else if ch =? chr "*" then
        match args with
        | Arg_int n :: args' =>
            modifiers (mk_conv (zero c) (width c) (sign c) (hexf c) (max_width c)
                         (frac_width c) (Some (wrapu size_t_size n))) fmt' args'
        | _ => None
        end
      else Some (c, fmt, args)
  | [] => Some (c, [], args)
  end.

Definition ptr_len : nat :=
  match ptr_size with size4 => NGX_INT32_LEN | size8 => NGX_INT64_LEN end.

Definition ptr_bytes : Z := match ptr_size with size4 => 4 | size8 => 8 end.

(** The integer conversions: the type of the argument, whether it is always
    signed, and whether the [m] modifier applies. *)
Definition int_conv (ch : Z) : option (type_size * bool * bool) :=
  if ch =? chr "O" then Some (off_t_size, true, false)
  else if ch =? chr "P" then Some (size4, true, false)
  else if ch =? chr "T" then Some (time_t_size, true, false)
  else if ch =? chr "z" then Some (size_t_size, false, false)
  else if ch =? chr "i" then Some (ptr_size, false, true)
  else if ch =? chr "d" then Some (size4, false, false)
  else if ch =? chr "l" then Some (long_size, false, false)
  else if ch =? chr "D" then Some (size4, false, false)
  else if ch =? chr "L" then Some (size8, false, false)
  else if ch =? chr "A" then Some (ptr_size, false, true)
  else if ch =? chr "r" then Some (rlim_t_size, true, false)
  else None.

(** [if (sign) { ... }] and the call of ngx_sprintf_num() *)
Definition print_int (k : room) (c : conv) (signed : bool) (size : type_size) (z : Z)
    (width : Z) : list Z * room :=
  if signed then
    let i64 := to_signed size z in
    if i64 <? 0 then
      let '(m, k) := emit k [chr "-"] in
      let '(l, k) := ngx_sprintf_num k (wrapu size8 (- i64)) (zero c) (hexf c) width in
      (m ++ l, k)
    else ngx_sprintf_num k i64 (zero c) (hexf c) width
  else ngx_sprintf_num k (wrapu size z) (zero c) (hexf c) width.

(** [case 'f'] *)
Definition print_double (k : room) (c : conv) (negative : bool) (whole : Z)
    (frac : Z -> Z) : list Z * room :=
  let '(m, k) := if negative then emit k [chr "-"] else ([], k) in
  let scale := wrapu ptr_size (10 ^ frac_width c) in
  let fr := wrapu size8 (frac scale) in
  let carry := negb (frac_width c =? 0) && (fr =? scale) in
  let whole := wrapu size8 (if carry then whole + 1 else whole) in
  let fr := if carry then 0 else fr in
  let '(l, k) := ngx_sprintf_num k whole (zero c) 0 (width c) in
  if frac_width c =? 0 then (m ++ l, k)
  else
    let '(d, k) := if has_room k then emit k [chr "."] else ([], k) in
    let '(f, k) := ngx_sprintf_num k fr (chr "0") 0 (frac_width c) in
    (m ++ l ++ d ++ f, k).

(** The string [%s] designates: up to the NUL, or [slen] bytes. *)
Definition s_string (slen : option Z) (l : list Z) : list Z :=
  match slen with
  | Some n => if n =? wrapu size_t_size (-1) then l else firstn (Z.to_nat n) l
  | None => l
  end.

(** The conversion character: what to do with the room there is, and the
    arguments left; [None] when the arguments do not match the
    format or the format ends inside a conversion, both undefined in C. *)
Definition convert (c : conv) (ch : Z) (args : list arg)
    : option ((room -> list Z * room) * list arg) :=
  let single (x : Z) := Some (fun k => emit k [x], args) in
  if (ch =? chr "V") || (ch =? chr "v") then
    match args with
    | Arg_str l :: args' => Some (fun k => ngx_sprintf_str k l (hexf c), args')
    | _ => None
    end
  else if ch =? chr "s" then
    match args with
    | Arg_str l :: args' => Some (fun k => ngx_sprintf_str k (s_string (slen c) l) (hexf c), args')
    | _ => None
    end
  else if ch =? chr "M" then
    match args with
    | Arg_int z :: args' =>
        Some (fun k => if to_signed ptr_size z =? -1
              then print_int k c true size8 (-1) (width c)
              else print_int k c false ptr_size z (width c), args')
    | _ => None
    end
  else if ch =? chr "f" then
    match args with
    | Arg_double negative whole frac :: args' =>
        Some (fun k => print_double k c negative whole frac, args')
    | _ => None
    end
  else if ch =? chr "p" then
    match args with
    | Arg_int z :: args' =>
        Some (fun k => ngx_sprintf_num k (wrapu ptr_size z) (chr "0") 2 (2 * ptr_bytes), args')
    | _ => None
    end
  else if ch =? chr "c" then
    match args with
    | Arg_int d :: args' => Some (fun k => emit k [Z.land d 0xff], args')
    | _ => None
    end
  else if ch =? chr "Z" then single 0
  else if ch =? chr "N" then single LF
  else
    match int_conv ch with
    | Some (size, signed, max) =>
        match args with
        | Arg_int z :: args' =>
            let w := if max && max_width c then Z.of_nat ptr_len else width c in
            Some (fun k => print_int k c (signed || sign c) size z w, args')
        | _ => None
        end
    | None => single ch              (* "%%" and the default *)
    end.

(** The loop over the format; each iteration uses up a character of it. *)
Fixpoint ngx_vslprintf (fuel : nat) (k : room) (fmt : list Z) (args : list arg)
    : option (list Z) :=
  match fuel with
  | O => None
  | S fuel' =>
      match fmt with
      | [] => Some []
      | ch :: fmt' =>
          if negb (has_room k) then Some []
          else if ch =? chr "%" then
            let z := match fmt' with
                     | d :: _ => if d =? chr "0" then chr "0" else chr " "
                     | [] => chr " "
                     end in
            let '(w, fmt1) := read_width 0 fmt' in
            match modifiers (mk_conv z w true 0 false 0 None) fmt1 args with
            | Some (c, d :: fmt2, args1) =>
                match convert c d args1 with
                | Some (f, args2) =>
                    let '(l, k') := f k in
                    option_map (app l) (ngx_vslprintf fuel' k' fmt2 args2)
                | None => None
                end
            | _ => None
            end
          else
            let '(l, k') := emit k [ch] in
            option_map (app l) (ngx_vslprintf fuel' k' fmt' args)
      end
  end.

Definition ngx_sprintf (fmt : list Z) (args : list arg) : option (list Z) :=
  ngx_vslprintf (S (length fmt)) None fmt args.

Definition ngx_snprintf (max : nat) (fmt : list Z) (args : list arg)
    : option (list Z) :=
  ngx_vslprintf (S (length fmt)) (Some max) fmt args.

Definition ngx_slprintf (buf last : nat) (fmt : list Z) (args : list arg)
    : option (list Z) :=
  ngx_vslprintf (S (length fmt)) (Some (last - buf)%nat) fmt args.

End Widths.

Example sprintf_1 :
  @ngx_sprintf lp64 (bs "%s, %02d %uxD|%5i|%p|%*s%%%xV")
    [Arg_str (bs "Mon"); Arg_int 7; Arg_int (-1); Arg_int (-42); Arg_int 255;
     Arg_int 2; Arg_str (bs "abc"); Arg_str (bs "hi")]
  = Some (bs "Mon, 07 ffffffff|-   42|00000000000000FF|ab%6869").
Proof. vm_compute. reflexivity. Qed.

Example snprintf_1 :
  @ngx_snprintf lp64 5 (bs "%xV]") [Arg_str (bs "abc")] = Some (bs "6162]").
Proof. vm_compute. reflexivity. Qed.

(** ** Truncation *)

(** A routine that prints [l] when there is room, and what fits of it
    otherwise. *)
Definition truncates (f : room -> list Z * room) (l : list Z) : Prop :=
  f None = (l, None) /\ forall k, f (Some k) = (firstn k l, Some (k - length l)%nat).

Lemma truncates_emit l : truncates (fun k => emit k l) l.
Proof.
  split; [reflexivity|]. intros k. unfold emit. cbn [fitting shrink].
  rewrite length_firstn. do 2 f_equal. lia.
Qed.

Lemma truncates_nil : truncates (fun k => ([], k)) [].
Proof. split; [reflexivity|]. intros k. rewrite firstn_nil, Nat.sub_0_r. reflexivity. Qed.

Lemma truncates_seq f g a b : truncates f a -> truncates g b ->
  truncates (fun k => let '(x, k1) := f k in let '(y, k2) := g k1 in (x ++ y, k2)) (a ++ b).
Proof.
  intros [F0 F] [G0 G]. split; [rewrite F0, G0; reflexivity|]. intros k.
  rewrite F, G, firstn_app, length_app. do 2 f_equal. lia.
Qed.

Lemma truncates_ext f g l : (forall k, g k = f k) -> truncates f l -> truncates g l.
Proof. intros H [F0 F]. split; intros; rewrite H; auto. Qed.

Create HintDb printf.
#[export] Hint Resolve truncates_emit truncates_nil truncates_seq : printf.

Lemma truncates_num ui64 z h w :
  truncates (fun k => ngx_sprintf_num k ui64 z h w)
    (repeat z (Z.to_nat w - length (number ui64 h)) ++ number ui64 h).
Proof. unfold ngx_sprintf_num. auto with printf. Qed.
#[export] Hint Resolve truncates_num : printf.

Section Truncation.
Context `{P : Platform}.

Lemma truncates_int c signed size z w :
  exists l, truncates (fun k => print_int k c signed size z w) l.
Proof. unfold print_int. split_ifs; eauto with printf. Qed.

Lemma truncates_double c negative whole frac :
  exists l, truncates (fun k => print_double k c negative whole frac) l.
Proof.
  unfold print_double. set (ca := negb _ && _).
  assert (Hm : exists m, truncates (fun k => if negative then emit k [45] else ([], k)) m)
    by (destruct negative; eauto with printf).
  destruct Hm as [m Hm].
  pose proof (truncates_num (wrapu size8 (if ca then whole + 1 else whole)) (zero c) 0 (width c)) as Hn.
  destruct (frac_width c =? 0).
  - eexists. eapply truncates_ext; [|apply (truncates_seq _ _ _ _ Hm Hn)].
    intros k. cbv beta. destruct (if negative then _ else _). reflexivity.
  - eexists. eapply truncates_ext;
      [|apply (truncates_seq _ _ _ _ Hm (truncates_seq _ _ _ _ Hn
          (truncates_seq _ _ _ _ (truncates_emit [46])
            (truncates_num (if ca then 0 else wrapu size8 (frac (wrapu ptr_size (10 ^ frac_width c))))
               48 0 (frac_width c)))))].
    intros k. cbv beta. destruct (if negative then _ else _) as [a k1].
    destruct (ngx_sprintf_num k1 _ _ _ _) as [b k2].
    replace (if has_room k2 then emit k2 [46] else ([], k2)) with (emit k2 [46])
      by (destruct k2 as [[|k2]|]; reflexivity).
    destruct (emit k2 [46]) as [d k3]. destruct (ngx_sprintf_num k3 _ _ _ _) as [e k4].
    reflexivity.
Qed.

(** A conversion that is not a hexadecimal string. *)
Lemma convert_truncates c ch args f args' :
  hexf c = 0 -> convert c ch args = Some (f, args') -> exists l, truncates f l.
Proof.
  intros Hh H. unfold convert, ngx_sprintf_str in H. rewrite Hh in H. cbn [Z.eqb] in H.
  split_ifs_in H;
    try (destruct args as [|[z|s|neg wh fr] args]; try discriminate H);
    try (destruct (int_conv ch) as [[[size sg] mx]|]; try discriminate H);
    match type of H with Some (?g, _) = _ => assert (Hf : f = g) by congruence; rewrite Hf end;
    try (eexists; apply truncates_emit);
    try (eexists; apply truncates_num); try apply truncates_double;
    try (destruct (to_signed ptr_size z =? -1)); apply truncates_int.
Qed.

(** A routine that never writes past the room there is. *)
Definition respects (f : room -> list Z * room) : Prop :=
  forall k, exists l, f (Some k) = (l, Some (k - length l)%nat) /\ (length l <= k)%nat.

Lemma truncates_respects f l : truncates f l -> respects f.
Proof.
  intros [_ F] k. exists (firstn k l). rewrite F, length_firstn. split; [|lia].
  do 2 f_equal. lia.
Qed.

Lemma hex_string_respects table src : respects (fun k => hex_string k table src).
Proof.
  induction src as [|c src IH]; intros k; cbn [hex_string].
  - exists []. split; [|simpl; lia]. rewrite Nat.sub_0_r. reflexivity.
  - destruct (1 <? k)%nat eqn:E; [|exists []; split; [rewrite Nat.sub_0_r|simpl; lia]; reflexivity].
    cbn [shrink]. destruct (IH (k - 2)%nat) as (l & HL & Hk). cbv beta in HL. rewrite HL.
    apply Nat.ltb_lt in E. eexists (_ :: _ :: l). cbn [length]. split; [|lia].
    do 2 f_equal. lia.
Qed.

Lemma convert_respects c ch args f args' :
  convert c ch args = Some (f, args') -> respects f.
Proof.
  intros H. destruct (hexf c =? 0) eqn:Eh.
  { destruct (convert_truncates c ch args f args' ltac:(lia) H) as [l HT].
    eapply truncates_respects, HT. }
  assert (Hstr : forall s, respects (fun k => ngx_sprintf_str k s (hexf c))).
  { intros s. unfold ngx_sprintf_str. rewrite Eh. destruct (hexf c =? 1); apply hex_string_respects. }
  assert (Hint : forall sg size z w, respects (fun k => print_int k c sg size z w)).
  { intros sg size z w. destruct (truncates_int c sg size z w) as [l HT].
    eapply truncates_respects, HT. }
  unfold convert in H.
  split_ifs_in H;
    try (destruct args as [|[z|s|neg wh fr] args]; try discriminate H);
    try (destruct (int_conv ch) as [[[size sg] mx]|]; try discriminate H);
    match type of H with Some (?g, _) = _ => assert (Hf : f = g) by congruence; rewrite Hf end;
    try (eapply truncates_respects, truncates_emit);
    try (eapply truncates_respects, truncates_num); auto;
    try (destruct (truncates_double c neg wh fr) as [l HT]; eapply truncates_respects, HT).
  all: destruct (to_signed ptr_size z =? -1); apply Hint.
Qed.

(** ** The loop *)

Lemma read_width_shorter fmt : forall n m rest,
  read_width n fmt = (m, rest) -> (length rest <= length fmt)%nat.
Proof.
  induction fmt as [|c fmt IH]; intros n m rest H; cbn [read_width] in H.
  - injection H as _ <-. lia.
  - split_ifs_in H; [apply IH in H; simpl; lia|injection H as _ <-; lia].
Qed.

Lemma read_width_in fmt : forall n m rest,
  read_width n fmt = (m, rest) -> forall c, In c rest -> In c fmt.
Proof.
  induction fmt as [|c fmt IH]; intros n m rest H d Hd; cbn [read_width] in H.
  - injection H as _ <-. exact Hd.
  - split_ifs_in H; [right; eapply IH; eassumption|injection H as _ <-; exact Hd].
Qed.

Lemma modifiers_rest fmt : forall c args c' rest args',
  modifiers c fmt args = Some (c', rest, args') ->
  (length rest <= length fmt)%nat /\ (forall d, In d rest -> In d fmt) /\
  (~ In 120 fmt -> ~ In 88 fmt -> hexf c' = hexf c).
Proof.
  induction fmt as [|d fmt IH]; intros c args c' rest args' H; cbn [modifiers] in H.
  { injection H as <- <- _. auto. }
  destruct (d =? 46) eqn:Ed.
  { split_ifs_in H; try lia. destruct (read_width (frac_width c) fmt) as [n r] eqn:ER.
    injection H as <- <- _. pose proof (read_width_shorter _ _ _ _ ER).
    cbn [length hexf]. split; [lia|]. split; [|auto].
    intros. right. eapply read_width_in; eassumption. }
  split_ifs_in H;
    try (destruct args as [|[z|s|neg wh fr] args]; try discriminate H);
    try (apply IH in H as (HL & Hin & Hx); cbn [hexf] in Hx; cbn [length In];
         split; [lia|]; split; [auto|]; intros; rewrite Hx by tauto;
         reflexivity || (exfalso; intuition lia)).
  all: injection H as <- <- _; auto.
Qed.

(** The characters x and X, which make a string hexadecimal, do not occur. *)
Definition plain_format (fmt : list Z) : Prop := ~ In 120 fmt /\ ~ In 88 fmt.

Lemma plain_rest fmt rest : plain_format fmt -> (forall d, In d rest -> In d fmt) -> plain_format rest.
Proof. intros [H1 H2] H. split; auto. Qed.

Lemma vslprintf_bounded fuel : forall k fmt args out,
  ngx_vslprintf fuel (Some k) fmt args = Some out -> (length out <= k)%nat.
Proof.
  induction fuel as [|fuel IH]; intros k fmt args out H; cbn [ngx_vslprintf] in H; [discriminate|].
  destruct fmt as [|ch fmt]; [injection H as <-; simpl; lia|].
  destruct (negb (has_room (Some k))); [injection H as <-; simpl; lia|].
  destruct (ch =? 37).
  - destruct (read_width 0 fmt) as [w fmt1].
    destruct (modifiers _ fmt1 args) as [[[c [|d fmt2]] args1]|]; try discriminate H.
    destruct (convert c d args1) as [[f args2]|] eqn:EC; [|discriminate H].
    destruct (convert_respects _ _ _ _ _ EC k) as (l & Hf & Hl). rewrite Hf in H.
    destruct (ngx_vslprintf fuel _ fmt2 args2) as [out'|] eqn:ER; [|discriminate H].
    injection H as <-. apply IH in ER. rewrite length_app. lia.
  - destruct (emit (Some k) [ch]) as [l k'] eqn:Ee.
    destruct (truncates_respects _ _ (truncates_emit [ch]) k) as (l0 & Hf & Hl).
    cbv beta in Hf. rewrite Ee in Hf. injection Hf as -> ->.
    destruct (ngx_vslprintf fuel _ fmt args) as [out'|] eqn:ER; [|discriminate H].
    injection H as <-. apply IH in ER. rewrite length_app. lia.
Qed.

(** No more room: nothing is printed. *)
Lemma vslprintf_no_room fuel fmt args :
  (length fmt < fuel)%nat -> ngx_vslprintf fuel (Some O) fmt args = Some [].
Proof. destruct fuel as [|fuel]; [lia|]. destruct fmt; reflexivity. Qed.

Lemma vslprintf_prefix fuel : forall k fmt args full,
  plain_format fmt -> ngx_vslprintf fuel None fmt args = Some full ->
  ngx_vslprintf fuel (Some k) fmt args = Some (firstn k full).
Proof.
  induction fuel as [|fuel IH]; intros k fmt args full Hpl H; cbn [ngx_vslprintf] in *;
    [discriminate|].
  destruct fmt as [|ch fmt]; [injection H as <-; rewrite firstn_nil; reflexivity|].
  destruct k as [|k]; [reflexivity|]. cbn [has_room negb] in *.
  assert (Hpl' : plain_format fmt) by (eapply plain_rest; [exact Hpl|right; assumption]).
  destruct (ch =? 37).
  - destruct (read_width 0 fmt) as [w fmt1] eqn:EW.
    assert (Hpl1 : plain_format fmt1)
      by (eapply plain_rest; [exact Hpl'|eapply read_width_in, EW]).
    destruct (modifiers _ fmt1 args) as [[[c [|d fmt2]] args1]|] eqn:EM; try discriminate H.
    apply modifiers_rest in EM as (_ & Hin & Hx). cbn [hexf] in Hx.
    destruct (convert c d args1) as [[f args2]|] eqn:EC; [|discriminate H].
    destruct (convert_truncates c d args1 f args2 (Hx (proj1 Hpl1) (proj2 Hpl1)) EC)
      as (l & F0 & F).
    rewrite F0 in H. rewrite F.
    destruct (ngx_vslprintf fuel None fmt2 args2) as [out|] eqn:ER; [|discriminate H].
    injection H as <-. rewrite (IH _ _ _ out); [|eapply plain_rest; [exact Hpl1|]|exact ER].
    + cbn [option_map]. rewrite firstn_app. reflexivity.
    + intros e He. apply Hin. right. exact He.
  - cbn [emit fitting shrink length] in *.
    destruct (ngx_vslprintf fuel None fmt args) as [out|] eqn:ER; [|discriminate H].
    injection H as <-. cbn [firstn length Nat.sub].
    rewrite (IH _ _ _ out Hpl' ER), firstn_nil. cbn. rewrite Nat.sub_0_r. reflexivity.
Qed.

(** More fuel changes nothing. *)
Lemma vslprintf_fuel fuel1 : forall fuel2 k fmt args,
  (length fmt < fuel1)%nat -> (length fmt < fuel2)%nat ->
  ngx_vslprintf fuel1 k fmt args = ngx_vslprintf fuel2 k fmt args.
Proof.
  induction fuel1 as [|fuel1 IH]; intros fuel2 k fmt args H1 H2; [lia|].
  destruct fuel2 as [|fuel2]; [lia|]. cbn [ngx_vslprintf].
  destruct fmt as [|ch fmt]; [reflexivity|]. cbn [length] in *.
  destruct (negb (has_room k)); [reflexivity|].
  destruct (ch =? 37).
  - destruct (read_width 0 fmt) as [w fmt1] eqn:EW. apply read_width_shorter in EW.
    destruct (modifiers _ fmt1 args) as [[[c [|d fmt2]] args1]|] eqn:EM; try reflexivity.
    apply modifiers_rest in EM as (HL & _ & _). cbn [length] in HL.
    destruct (convert c d args1) as [[f args2]|]; [|reflexivity].
    destruct (f k) as [l k']. rewrite (IH fuel2 k' fmt2 args2); [reflexivity|lia|lia].
  - destruct (emit k [ch]) as [l k']. rewrite (IH fuel2 k' fmt args); [reflexivity|lia|lia].
Qed.

End Truncation.

(** ** Numbers read back *)

(** The digits of [n] in a base, most significant first. *)
Fixpoint digit_values (fuel : nat) (base n : Z) (acc : list Z) : list Z :=
  match fuel with
  | O => acc
  | S fuel' =>
      if n / base =? 0 then n mod base :: acc
      else digit_values fuel' base (n / base) (n mod base :: acc)
  end.

Lemma digits_values fuel base table : forall n vs temp,
  digits fuel base table n (map (fun d => nth (Z.to_nat d) table 0) vs ++ temp) =
  map (fun d => nth (Z.to_nat d) table 0) (digit_values fuel base n vs) ++ temp.
Proof.
  induction fuel as [|fuel IH]; intros n vs temp; cbn [digits digit_values]; [reflexivity|].
  destruct (n / base =? 0); [reflexivity|]. apply (IH (n / base) (n mod base :: vs) temp).
Qed.

(** Reading the digits back gives the number. *)
Lemma digit_values_spec base : 1 < base -> forall fuel n acc,
  0 <= n < base ^ Z.of_nat fuel -> (0 < fuel)%nat ->
  exists ds, digit_values fuel base n acc = ds ++ acc /\ ds <> [] /\
    (length ds <= fuel)%nat /\ Forall (fun d => 0 <= d < base) ds /\
    (forall a, fold_left (fun a d => a * base + d) ds a = a * base ^ Z.of_nat (length ds) + n) /\
    (1 <= n -> base ^ (Z.of_nat (length ds) - 1) <= n).
Proof.
  intros Hb. induction fuel as [|fuel IH]; intros n acc Hn Hf; [lia|]. cbn [digit_values].
  pose proof (Z.div_mod n base ltac:(lia)) as Hdm.
  pose proof (Z.mod_pos_bound n base ltac:(lia)) as Hm.
  assert (Hq : 0 <= n / base) by (apply Z.div_pos; lia).
  destruct (n / base =? 0) eqn:E.
  - exists [n mod base]. split; [reflexivity|]. split; [discriminate|]. split; [simpl; lia|].
    split; [repeat constructor; lia|]. cbn [length fold_left].
    replace (Z.of_nat 1) with 1 by reflexivity. split; [intros; lia|]. simpl. lia.
  - assert (Hlt : n / base < base ^ Z.of_nat fuel).
    { apply Z.div_lt_upper_bound; [lia|]. rewrite Nat2Z.inj_succ, Z.pow_succ_r in Hn by lia. lia. }
    assert (Hf' : (0 < fuel)%nat).
    { destruct fuel; [|lia]. cbn in Hlt. lia. }
    destruct (IH (n / base) (n mod base :: acc) ltac:(lia) Hf')
      as (ds & -> & Hne & HL & HF & Hv & Hlow).
    exists (ds ++ [n mod base]). rewrite <- app_assoc, length_app. cbn [length].
    split; [reflexivity|]. split; [destruct ds; discriminate|]. split; [lia|].
    split; [apply Forall_app; split; [assumption|repeat constructor; lia]|].
    replace (Z.of_nat (length ds + 1)) with (Z.succ (Z.of_nat (length ds))) by lia.
    split.
    + intros a. rewrite fold_left_app. cbn [fold_left]. rewrite Hv, Z.pow_succ_r by lia. nia.
    + intros _. replace (Z.succ _ - 1) with (Z.succ (Z.of_nat (length ds) - 1)) by lia.
      destruct ds; [contradiction|]. cbn [length] in *.
      rewrite Z.pow_succ_r by lia. specialize (Hlow ltac:(lia)). nia.
Qed.

Lemma dec_digits_read ds : Forall (fun d => 0 <= d < 10) ds ->
  let l := map (fun d => nth (Z.to_nat d) hex 0) ds in
  forallb is_digit l = true /\
  forall a, dec_from a l = fold_left (fun a d => a * 10 + d) ds a.
Proof.
  induction 1 as [|d ds Hd Hds [IH1 IH2]]; cbn [map forallb dec_from fold_left]; [auto|].
  assert (Hn : nth (Z.to_nat d) hex 0 = 48 + d).
  { assert (d = 0 \/ d = 1 \/ d = 2 \/ d = 3 \/ d = 4 \/ d = 5 \/ d = 6 \/ d = 7 \/ d = 8 \/ d = 9)
      as Hc by lia. repeat destruct Hc as [->|Hc]; try reflexivity. subst. reflexivity. }
  rewrite Hn, IH1. split; [unfold is_digit; lia|]. intros a. rewrite IH2. f_equal. lia.
Qed.

Lemma hex_digits_read table ds : table = hex \/ table = HEX ->
  Forall (fun d => 0 <= d < 16) ds ->
  let l := map (fun d => nth (Z.to_nat d) table 0) ds in
  bytes l /\ forall a, hex_from a l = Some (fold_left (fun a d => a * 16 + d) ds a).
Proof.
  intros Ht. induction 1 as [|d ds Hd Hds [IH1 IH2]]; cbn [map hex_from fold_left];
    [split; [constructor|auto]|].
  assert (Hn : hex_digit (nth (Z.to_nat d) table 0) = Some d /\ is_byte (nth (Z.to_nat d) table 0)).
  { assert (Hc : In d (map Z.of_nat (seq 0 16)))
      by (apply in_map_iff; exists (Z.to_nat d); split; [lia|apply in_seq; lia]).
    destruct Ht as [-> | ->]; cbn in Hc; unfold is_byte;
      repeat destruct Hc as [<-|Hc]; try contradiction;
      (split; [reflexivity|vm_compute; split; congruence]). }
  destruct Hn as [-> Hb]. split; [constructor; assumption|]. intros a. apply IH2.
Qed.

Lemma number_dec n : 0 <= n < 2 ^ 64 ->
  forallb is_digit (number n 0) = true /\ dec_value (number n 0) = n /\
  number n 0 <> [] /\ (length (number n 0) <= 20)%nat /\
  (1 <= n -> 10 ^ (Z.of_nat (length (number n 0)) - 1) <= n).
Proof.
  intros Hn. unfold number. cbn [Z.eqb].
  replace (if n <=? NGX_MAX_UINT32_VALUE then _ else _) with (digits NGX_INT64_LEN 10 hex n [])
    by (unfold NGX_MAX_UINT32_VALUE; split_if; [|reflexivity];
        rewrite wrapu_small by (change (2 ^ bits size4) with 4294967296; lia); reflexivity).
  pose proof (digits_values NGX_INT64_LEN 10 hex n [] []) as HD. cbn [map app] in HD.
  rewrite HD, app_nil_r.
  assert (Hp : 2 ^ 64 <= 10 ^ Z.of_nat NGX_INT64_LEN) by (vm_compute; discriminate).
  destruct (digit_values_spec 10 ltac:(lia) NGX_INT64_LEN n [] (conj (proj1 Hn)
    (Z.lt_le_trans _ _ _ (proj2 Hn) Hp)) ltac:(unfold NGX_INT64_LEN; lia)) as (ds & -> & Hne & HL & HF & Hv & Hlow).
  rewrite app_nil_r, length_map. destruct (dec_digits_read ds HF) as [H1 H2].
  split; [exact H1|]. split; [unfold dec_value; rewrite H2, Hv; lia|].
  split; [destruct ds; [contradiction|discriminate]|]. auto.
Qed.

Lemma number_hex n h : 0 <= n < 2 ^ 64 -> h = 1 \/ h = 2 ->
  bytes (number n h) /\ hex_value (number n h) = Some n /\ number n h <> [].
Proof.
  intros Hn Hh. unfold number.
  replace (if h =? 0 then _ else _) with
    (digits NGX_INT64_LEN 16 (if h =? 1 then hex else HEX) n [])
    by (destruct Hh as [-> | ->]; reflexivity).
  set (table := if h =? 1 then hex else HEX).
  assert (Ht : table = hex \/ table = HEX) by (unfold table; destruct (h =? 1); auto).
  pose proof (digits_values NGX_INT64_LEN 16 table n [] []) as HD. cbn [map app] in HD.
  rewrite HD, app_nil_r.
  assert (Hp : 2 ^ 64 <= 16 ^ Z.of_nat NGX_INT64_LEN) by (vm_compute; discriminate).
  destruct (digit_values_spec 16 ltac:(lia) NGX_INT64_LEN n [] (conj (proj1 Hn)
    (Z.lt_le_trans _ _ _ (proj2 Hn) Hp)) ltac:(unfold NGX_INT64_LEN; lia)) as (ds & -> & Hne & HL & HF & Hv & _).
  rewrite app_nil_r. destruct (hex_digits_read table ds Ht HF) as [H1 H2].
  split; [exact H1|]. split; [unfold hex_value; rewrite H2, Hv; f_equal; lia|].
  destruct ds; [contradiction|discriminate].
Qed.

Section RoundTrip.
Context `{P : Platform}.

Lemma bits_pow size : 2 * 2 ^ (bits size - 1) = 2 ^ bits size.
Proof. destruct size; reflexivity. Qed.

Lemma to_signed_small size z : 0 <= z <= max_value size -> to_signed size z = z.
Proof.
  intros H. unfold to_signed. rewrite wrapu_small by
    (rewrite max_value_bits in H; pose proof (bits_pow size); lia).
  replace (z <=? max_value size) with true by lia. reflexivity.
Qed.

Lemma max_value_64 size z : 0 <= z <= max_value size -> 0 <= z < 2 ^ 64.
Proof. change (2 ^ 64) with 18446744073709551616. destruct size; cbn [max_value]; lia. Qed.

(** An integer conversion without width, in decimal and in hexadecimal. *)
Lemma sprintf_dec ch size signed max n :
  In ch [chr "i"; chr "z"; chr "O"; chr "T"] ->
  int_conv ch = Some (size, signed, max) -> 0 <= n <= max_value size ->
  ngx_sprintf [chr "%"; ch] [Arg_int n] = Some (number n 0).
Proof.
  intros Hch Hc Hn. pose proof (to_signed_small size n Hn) as Hs.
  unfold ngx_sprintf. cbn [length].
  repeat destruct Hch as [<-|Hch]; try contradiction; injection Hc as <- <- <-;
    cbn -[number to_signed]; unfold print_int; rewrite Hs;
    replace (n <? 0) with false by lia; cbn -[number]; rewrite !app_nil_r; reflexivity.
Qed.

Lemma sprintf_hex x n : In x [chr "x"; chr "X"] -> 0 <= n <= NGX_MAX_INT_T_VALUE ->
  ngx_sprintf [chr "%"; x; chr "i"] [Arg_int n] =
  Some (number n (if x =? chr "x" then 1 else 2)).
Proof.
  intros Hx Hn. unfold NGX_MAX_INT_T_VALUE in Hn.
  assert (Hw : wrapu ptr_size n = n) by (apply wrapu_small; rewrite max_value_bits in Hn;
    pose proof (bits_pow ptr_size); lia).
  unfold ngx_sprintf. cbn [length].
  repeat destruct Hx as [<-|Hx]; try contradiction;
    cbn -[number wrapu]; unfold print_int; rewrite Hw; cbn -[number]; rewrite !app_nil_r; reflexivity.
Qed.

(** A formatted string never exceeds the room given for it: what
    ngx_snprintf() writes fits in [max] bytes, and, unless the format prints
    a string in hexadecimal (which stops at a whole byte), it is exactly the
    first [max] bytes of what ngx_sprintf() would write.  The interpreter of
    the format always ends. *)
Theorem snprintf_truncates max fmt args :
  (forall out, ngx_snprintf max fmt args = Some out -> (length out <= max)%nat) /\
  (forall full, ~ In (chr "x") fmt -> ~ In (chr "X") fmt ->
     ngx_sprintf fmt args = Some full ->
     ngx_snprintf max fmt args = Some (firstn max full)) /\
  (forall fuel k, (length fmt < fuel)%nat ->
     ngx_vslprintf fuel k fmt args = ngx_vslprintf (S (length fmt)) k fmt args).
Proof.
  split; [|split].
  - intros out H. eapply vslprintf_bounded, H.
  - intros full H1 H2 H. apply vslprintf_prefix; [split; assumption|exact H].
  - intros fuel k H. apply vslprintf_fuel; lia.
Qed.

(** Numbers that ngx_sprintf() prints are read back by the parsers: [%i],
    [%z], [%O] and [%T] by ngx_atoi(), ngx_atosz(), ngx_atoof() and
    ngx_atotm(), and [%xi] and [%Xi] by ngx_hextoi(), for every value from 0
    to the maximum of the type. *)
Theorem printed_numbers_roundtrip n :
  (0 <= n <= NGX_MAX_INT_T_VALUE ->
   option_map ngx_atoi (ngx_sprintf (bs "%i") [Arg_int n]) = Some n /\
   option_map ngx_hextoi (ngx_sprintf (bs "%xi") [Arg_int n]) = Some n /\
   option_map ngx_hextoi (ngx_sprintf (bs "%Xi") [Arg_int n]) = Some n) /\
  (0 <= n <= NGX_MAX_SIZE_T_VALUE ->
   option_map ngx_atosz (ngx_sprintf (bs "%z") [Arg_int n]) = Some n) /\
  (0 <= n <= NGX_MAX_OFF_T_VALUE ->
   option_map ngx_atoof (ngx_sprintf (bs "%O") [Arg_int n]) = Some n) /\
  (0 <= n <= NGX_MAX_TIME_T_VALUE ->
   option_map ngx_atotm (ngx_sprintf (bs "%T") [Arg_int n]) = Some n).
Proof.
  assert (Hdec : forall size, 0 <= n <= max_value size -> ato (max_value size) (number n 0) = n).
  { intros size Hn. rewrite ato_spec by apply max_value_nonneg.
    destruct (number_dec n (max_value_64 size n Hn)) as (H1 & H2 & H3 & _).
    unfold checked_dec. rewrite H1, H2. destruct (number n 0); [contradiction|].
    replace (n <=? max_value size) with true by lia. reflexivity. }
  assert (Hhex : forall h, h = 1 \/ h = 2 -> 0 <= n <= NGX_MAX_INT_T_VALUE ->
            ngx_hextoi (number n h) = n).
  { intros h Hh Hn. destruct (number_hex n h (max_value_64 _ n Hn) Hh) as (H1 & H2 & H3).
    unfold ngx_hextoi, NGX_MAX_INT_T_VALUE. destruct (number n h) as [|c l] eqn:E; [contradiction|].
    rewrite hextoi_loop_spec; [|split; [lia|apply max_value_nonneg]|assumption].
    unfold hex_value in H2. rewrite H2.
    unfold NGX_MAX_INT_T_VALUE in Hn. replace (n <=? max_value ptr_size) with true by lia.
    reflexivity. }
  split; [intros Hn; split; [|split]|split; [|split]; intros Hn].
  - change (bs "%i") with [37; 105]. rewrite (sprintf_dec _ ptr_size false true n) by (simpl; auto).
    cbn [option_map]. f_equal. apply (Hdec ptr_size), Hn.
  - change (bs "%xi") with [37; 120; 105]. rewrite (sprintf_hex 120 n) by (simpl; auto).
    cbn [option_map]. f_equal. apply Hhex; auto.
  - change (bs "%Xi") with [37; 88; 105]. rewrite (sprintf_hex 88 n) by (simpl; auto).
    cbn [option_map]. f_equal. apply Hhex; auto.
  - change (bs "%z") with [37; 122]. rewrite (sprintf_dec _ size_t_size false false n) by (simpl; auto).
    cbn [option_map]. f_equal. apply (Hdec size_t_size), Hn.
  - change (bs "%O") with [37; 79]. rewrite (sprintf_dec _ off_t_size true false n) by (simpl; auto).
    cbn [option_map]. f_equal. apply (Hdec off_t_size), Hn.
  - change (bs "%T") with [37; 84]. rewrite (sprintf_dec _ time_t_size true false n) by (simpl; auto).
    cbn [option_map]. f_equal. apply (Hdec time_t_size), Hn.
Qed.
End RoundTrip.

Lemma snprintf_truncates_witness :
  @ngx_sprintf lp64 (bs "%s:%02d") [Arg_str (bs "abc"); Arg_int 7] = Some (bs "abc:07") /\
  @ngx_snprintf lp64 5 (bs "%s:%02d") [Arg_str (bs "abc"); Arg_int 7] = Some (bs "abc:0").
Proof.
  assert (E : @ngx_sprintf lp64 (bs "%s:%02d") [Arg_str (bs "abc"); Arg_int 7]
              = Some (bs "abc:07")) by (vm_compute; reflexivity).
  split; [exact E|].
  apply (proj1 (proj2 (@snprintf_truncates lp64 5 (bs "%s:%02d") _)) (bs "abc:07"));
    [| |exact E]; intros H; cbn in H; intuition discriminate.
Defined.

Lemma printed_numbers_roundtrip_witness :
  option_map (@ngx_atoi lp64) (@ngx_sprintf lp64 (bs "%i") [Arg_int 4096]) = Some 4096 /\
  option_map (@ngx_hextoi lp64) (@ngx_sprintf lp64 (bs "%xi") [Arg_int 4096]) = Some 4096.
Proof.
  assert (H : 0 <= 4096 <= @NGX_MAX_INT_T_VALUE lp64) by (vm_compute; split; discriminate).
  split; apply (@printed_numbers_roundtrip lp64 4096); exact H.
Defined.

End Printf.
