(* ===== verification/NgxTime.v ===== *)
(** * Dates

    Models of ngx_gmtime(), ngx_http_time() and ngx_http_cookie_time() of
    [src/core/ngx_times.c] and of ngx_parse_http_time() of
    [src/core/ngx_parse_time.c]. *)

From Stdlib Require Import String Ascii ZArith Bool Lia ZifyBool List.
From S2P Require Import Prelude NgxEscape NgxPrintf.
Import ListNotations.
Local Open Scope Z_scope.

Module Time.

(** [ngx_tm_t] *)
Record tm := mk_tm {
  tm_sec : Z; tm_min : Z; tm_hour : Z; tm_mday : Z; tm_mon : Z; tm_year : Z;
  tm_wday : Z
}.

Definition week : list (list Z) :=
  map bs ["Sun"; "Mon"; "Tue"; "Wed"; "Thu"; "Fri"; "Sat"]%string.

Definition months : list (list Z) :=
  map bs ["Jan"; "Feb"; "Mar"; "Apr"; "May"; "Jun";
          "Jul"; "Aug"; "Sep"; "Oct"; "Nov"; "Dec"]%string.

Definition mday_table : list Z := [31; 28; 31; 30; 31; 30; 31; 31; 30; 31; 30; 31].

Section Clock.
Context `{P : Platform}.

(** The part of ngx_gmtime() that finds the date, [days] being counted from
    March 1, 1 BC. *)
Definition gm_date (days : Z) : Z * Z * Z :=
  let year := (days + 2) * 400 / (365 * 400 + 100 - 4 + 1) in
  let yday := to_signed ptr_size (days - (365 * year + year / 4 - year / 100 + year / 400)) in
  let '(yday, year) :=
    if yday <? 0 then
      let leap := if (year mod 4 =? 0) && (negb (year mod 100 =? 0) || (year mod 400 =? 0))
                  then 1 else 0 in
      (365 + leap + yday, year - 1)
    else (yday, year) in
  let mon := (yday + 31) * 10 / 306 in
  let mday := yday - (367 * mon / 12 - 30) + 1 in
  if yday >=? 306 then (year + 1, mon - 10, mday) else (year, mon + 2, mday).

Definition ngx_gmtime (t : Z) : tm :=
  let t := if t <? 0 then 0 else t in
  let days := wrapu ptr_size (t / 86400) in
  let sec := t mod 86400 in
  let '(days, sec) := if days >? 2932896 then (2932896, 86399) else (days, sec) in
  let wday := (4 + days) mod 7 in
  let hour := sec / 3600 in
  let sec := sec mod 3600 in
  let min := sec / 60 in
  let sec := sec mod 60 in
  let '(year, mon, mday) := gm_date (days - (31 + 28) + 719527) in
  mk_tm sec min hour mday mon year wday.

Definition week_name (wday : Z) : list Z := nth (Z.to_nat wday) week [].
Definition month_name (mon : Z) : list Z := nth (Z.to_nat (mon - 1)) months [].

Definition ngx_http_time (t : Z) : option (list Z) :=
  let tm := ngx_gmtime t in
  Printf.ngx_sprintf (bs "%s, %02d %s %4d %02d:%02d:%02d GMT")
    [Printf.Arg_str (week_name (tm_wday tm)); Printf.Arg_int (tm_mday tm);
     Printf.Arg_str (month_name (tm_mon tm)); Printf.Arg_int (tm_year tm);
     Printf.Arg_int (tm_hour tm); Printf.Arg_int (tm_min tm); Printf.Arg_int (tm_sec tm)].

Definition ngx_http_cookie_time (t : Z) : option (list Z) :=
  let tm := ngx_gmtime t in
  let late := tm_year tm >? 2037 in
  Printf.ngx_sprintf
    (if late then bs "%s, %02d-%s-%d %02d:%02d:%02d GMT"
     else bs "%s, %02d-%s-%02d %02d:%02d:%02d GMT")
    [Printf.Arg_str (week_name (tm_wday tm)); Printf.Arg_int (tm_mday tm);
     Printf.Arg_str (month_name (tm_mon tm));
     Printf.Arg_int (if late then tm_year tm else tm_year tm mod 100);
     Printf.Arg_int (tm_hour tm); Printf.Arg_int (tm_min tm); Printf.Arg_int (tm_sec tm)].

(** ** ngx_parse_http_time() *)

Inductive format := no | rfc822 | rfc850 | isoc.

(** The first loop: the position of the first comma or space, and whether
    it is a space. *)
Fixpoint find_mark (p : nat) (l : list Z) : nat * bool :=
  match l with
  | [] => (p, false)
  | c :: l' =>
      if c =? chr "," then (p, false)
      else if c =? chr " " then (p, true)
      else find_mark (S p) l'
  end.

(** The second loop. *)
Fixpoint skip_spaces (p : nat) (l : list Z) : nat :=
  match l with
  | [] => p
  | c :: l' => if negb (c =? chr " ") then p else skip_spaces (S p) l'
  end.

Definition digit_at (v : list Z) (p : nat) : option Z :=
  let c := byte_at v p in
  if (c <? chr "0") || (c >? chr "9") then None else Some (c - chr "0").

(** Two and four digits *)
Definition two_digits (v : list Z) (p : nat) : option Z :=
  let* a := digit_at v p in
  let* b := digit_at v (p + 1) in
  Some (a * 10 + b).

Definition four_digits (v : list Z) (p : nat) : option Z :=
  let* a := digit_at v p in
  let* b := digit_at v (p + 1) in
  let* c := digit_at v (p + 2) in
  let* d := digit_at v (p + 3) in
  Some (a * 1000 + b * 100 + c * 10 + d).

Definition parse_month (v : list Z) (p : nat) : option Z :=
  let c := byte_at v p in
  if c =? chr "J" then
    Some (if byte_at v (p + 1) =? chr "a" then 0
          else if byte_at v (p + 2) =? chr "n" then 5 else 6)
  else if c =? chr "F" then Some 1
  else if c =? chr "M" then Some (if byte_at v (p + 2) =? chr "r" then 2 else 4)
  else if c =? chr "A" then Some (if byte_at v (p + 1) =? chr "p" then 3 else 7)
  else if c =? chr "S" then Some 8
  else if c =? chr "O" then Some 9
  else if c =? chr "N" then Some 10
  else if c =? chr "D" then Some 11
  else None.

(** The start of a date that is not in the ISO C format: the day, the format
    and the position of the month. *)
Definition parse_day (v : list Z) (p : nat) : option (Z * format * nat) :=
  let* day := two_digits v p in
  let p := (p + 2)%nat in
  if byte_at v p =? chr " " then
    let* _ := check (18 <=? length v - p)%nat in Some (day, rfc822, S p)
  else if byte_at v p =? chr "-" then Some (day, rfc850, S p)
  else None.

(** The year of the two formats. *)
Definition parse_year (fmt : format) (v : list Z) (p : nat) : option (Z * nat) :=
  match fmt with
  | rfc822 => let* year := four_digits v p in Some (year, (p + 4)%nat)
  | _ (* rfc850 *) =>
      let* year := two_digits v p in
      Some (year + (if year <? 70 then 2000 else 1900), (p + 2)%nat)
  end.

(** The day of the ISO C format. *)
Definition parse_isoc_day (v : list Z) (p : nat) : option (Z * nat) :=
  let p := if byte_at v p =? chr " " then S p else p in
  let* day := digit_at v p in
  let p := S p in
  let* (day, p) :=
    if byte_at v p =? chr " " then Some (day, p)
    else let* d := digit_at v p in Some (day * 10 + d, S p) in
  let* _ := check (14 <=? length v - p)%nat in
  Some (day, p).

(** The time of the day, from the space before it. *)
Definition parse_clock (v : list Z) (p : nat) : option (Z * Z * Z) :=
  let* _ := check (byte_at v p =? chr " ") in
  let* hour := two_digits v (p + 1) in
  let* _ := check (byte_at v (p + 3) =? chr ":") in
  let* min := two_digits v (p + 4) in
  let* _ := check (byte_at v (p + 6) =? chr ":") in
  let* sec := two_digits v (p + 7) in
  Some (hour, min, sec).

(** The checks and the Gauss formula. *)
Definition make_time (day month year hour min sec : Z) : option Z :=
  let* _ := check (negb ((hour >? 23) || (min >? 59) || (sec >? 59))) in
  let* _ :=
    if (day =? 29) && (month =? 1) then
      check (negb (negb (Z.land year 3 =? 0)
                   || ((year mod 100 =? 0) && negb (year mod 400 =? 0))))
    else check (negb (day >? nth (Z.to_nat month) mday_table 0)) in
  let month := month - 1 in
  let '(month, year) :=
    if month <=? 0 then (month + 12, wrapu ptr_size (year - 1)) else (month, year) in
  let days := wrapu ptr_size
    (365 * year + year / 4 - year / 100 + year / 400
     + 367 * month / 12 - 30 + day - 1 - 719527 + 31 + 28) in
  let time := wrapu size8 (days * 86400 + hour * 3600 + min * 60 + sec) in
  match time_t_size with
  | size4 => let* _ := check (negb (time >? 0x7fffffff)) in Some time
  | size8 => Some (to_signed size8 time)
  end.

(** The date from [p] on, [space] telling that the format is ISO C. *)
Definition parse_date (space : bool) (v : list Z) (p : nat) : option Z :=
  let* _ := check (18 <=? length v - p)%nat in
  if space then
    let* month := parse_month v p in
    let* (day, p) := parse_isoc_day v (p + 4) in
    let* (hour, min, sec) := parse_clock v p in
    let* _ := check (byte_at v (p + 9) =? chr " ") in
    let* year := four_digits v (p + 10) in
    make_time day month year hour min sec
  else
    let* (day, fmt, p) := parse_day v p in
    let* month := parse_month v p in
    let* _ := check (byte_at v (p + 3) =?
                     match fmt with rfc822 => chr " " | _ => chr "-" end) in
    let* (year, p) := parse_year fmt v (p + 4) in
    let* (hour, min, sec) := parse_clock v p in
    make_time day month year hour min sec.

Definition parse_http_time (v : list Z) : option Z :=
  let '(p, space) := find_mark 0 v in
  parse_date space v (skip_spaces (S p) (skipn (S p) v)).

Definition ngx_parse_http_time (v : list Z) : Z :=
  match parse_http_time v with Some t => t | None => NGX_ERROR end.

End Clock.

Example http_time_1 : @ngx_http_time lp64 784111777 = Some (bs "Sun, 06 Nov 1994 08:49:37 GMT").
Proof. vm_compute. reflexivity. Qed.

Example parse_1 : map (@ngx_parse_http_time lp64)
  [bs "Sun, 06 Nov 1994 08:49:37 GMT"; bs "Sunday, 06-Nov-94 08:49:37 GMT";
   bs "Sun Nov  6 08:49:37 1994"] = [784111777; 784111777; 784111777].
Proof. vm_compute. reflexivity. Qed.

Example cookie_time_1 :
  @ngx_http_cookie_time lp64 784111777 = Some (bs "Sun, 06-Nov-94 08:49:37 GMT").
Proof. vm_compute. reflexivity. Qed.

(** The day is compared with the length of the month only: day 00 is read as
    the last day of the month before, where day 32 is refused. *)
Example day_zero_accepted : map (@ngx_parse_http_time lp64)
  [bs "Mon, 00 Nov 1994 08:49:37 GMT"; bs "Mon, 31 Oct 1994 08:49:37 GMT";
   bs "Mon, 32 Oct 1994 08:49:37 GMT"] = [783593377; 783593377; NGX_ERROR].
Proof. vm_compute. reflexivity. Qed.

(** ** The calendar *)

(** Days from March 1, 1 BC to March 1 of a year. *)
Definition gauss (y : Z) : Z := 365 * y + y / 4 - y / 100 + y / 400.

Definition leap (y : Z) : bool :=
  (y mod 4 =? 0) && (negb (y mod 100 =? 0) || (y mod 400 =? 0)).

Definition year_length (y : Z) : Z := if leap y then 366 else 365.

(** Days from January 1, 1970 to January 1 of the [n]th year after it. *)
Fixpoint years_length (n : nat) : Z :=
  match n with
  | O => 0
  | S n' => years_length n' + year_length (1970 + Z.of_nat n')
  end.

(** In a leap year or not. *)
Definition month_length (lp : bool) (m : Z) : Z :=
  if m =? 2 then (if lp then 29 else 28)
  else if (m =? 4) || (m =? 6) || (m =? 9) || (m =? 11) then 30 else 31.

(** Days before the [n]th month of a year, months being counted from 0. *)
Fixpoint months_length (lp : bool) (n : nat) : Z :=
  match n with
  | O => 0
  | S n' => months_length lp n' + month_length lp (Z.of_nat n)
  end.

(** Days from January 1, 1970 to a date. *)
Definition civil_days (y m d : Z) : Z :=
  years_length (Z.to_nat (y - 1970)) + months_length (leap y) (Z.to_nat (m - 1)) + d - 1.

Definition valid_date (y m d : Z) : Prop :=
  1970 <= y <= 9999 /\ 1 <= m <= 12 /\ 1 <= d <= month_length (leap y) m.

Lemma gauss_step y : gauss (y + 1) = gauss y + year_length (y + 1).
Proof.
  unfold gauss, year_length, leap.
  destruct ((y + 1) mod 4 =? 0) eqn:E4, ((y + 1) mod 100 =? 0) eqn:E100,
    ((y + 1) mod 400 =? 0) eqn:E400; cbn [andb orb negb]; div_lia.
Qed.

Lemma years_length_gauss n :
  years_length n = gauss (1969 + Z.of_nat n) + 306 - 719527 + 59.
Proof.
  induction n as [|n IH]; [vm_compute; reflexivity|].
  cbn [years_length]. rewrite IH.
  replace (1969 + Z.of_nat (S n)) with (1969 + Z.of_nat n + 1) by lia.
  rewrite gauss_step. replace (1969 + Z.of_nat n + 1) with (1970 + Z.of_nat n) by lia. lia.
Qed.

(** The date of a day counted from March 1, 1 BC: the year is found with the
    help of the bound below and the rest by the tables. *)
Lemma year_estimate d :
  0 <= d -> let y := (d + 2) * 400 / 146097 in
  gauss y - 2 <= d < gauss (y + 1) /\ 0 <= y.
Proof. intros Hd. unfold gauss. div_lia. Qed.

(** The month and the day of the [yday]th day after March 1, [lp] telling
    whether the next February has 29 days and [lq] whether this year's had. *)
Definition month_ok (lp lq : bool) (yday : Z) : bool :=
  let mon := (yday + 31) * 10 / 306 in
  let mday := yday - (367 * mon / 12 - 30) + 1 in
  if yday >=? 306 then
    let m := mon - 10 in
    (1 <=? m) && (m <=? 2) && (1 <=? mday) && (mday <=? month_length lp m)
    && (months_length lp (Z.to_nat (m - 1)) + mday - 1 =? yday - 306)
  else
    let m := mon + 2 in
    (3 <=? m) && (m <=? 12) && (1 <=? mday) && (mday <=? month_length lq m)
    && (months_length lq (Z.to_nat (m - 1)) + mday - 1
        =? yday + 59 + if lq then 1 else 0).

Lemma month_table (lp lq : bool) (yday : Z) :
  0 <= yday < (if lp then 366 else 365) -> month_ok lp lq yday = true.
Proof.
  intros H.
  assert (HF : forall lp lq : bool, forallb (month_ok lp lq)
            (map Z.of_nat (seq 0 (if lp then 366 else 365))) = true)
    by (intros [] []; vm_compute; reflexivity).
  specialize (HF lp lq). rewrite forallb_forall in HF. apply HF.
  apply in_map_iff. exists (Z.to_nat yday). split; [lia|]. apply in_seq. destruct lp; lia.
Qed.

Section Correct.
Context `{P : Platform}.

Lemma ptr_signed z : - 1000 <= z <= 1000 -> to_signed ptr_size z = z.
Proof.
  intros H. unfold to_signed, wrapu. destruct ptr_size; cbn [bits max_value];
    change (2 ^ 32) with 4294967296; change (2 ^ 64) with 18446744073709551616;
    split_if; div_lia.
Qed.

(** The year in which a day lies, years beginning in March. *)
Lemma gm_year d : 0 <= d ->
  exists y yday, gauss y <= d < gauss (y + 1) /\ yday = d - gauss y /\
    gm_date d =
    let mon := (yday + 31) * 10 / 306 in
    let mday := yday - (367 * mon / 12 - 30) + 1 in
    if yday >=? 306 then (y + 1, mon - 10, mday) else (y, mon + 2, mday).
Proof.
  intros Hd. destruct (year_estimate d Hd) as [Hy Hy0]. unfold gm_date.
  change (365 * 400 + 100 - 4 + 1) with 146097. set (y := (d + 2) * 400 / 146097) in *.
  fold (gauss y). pose proof (gauss_step y) as Hs.
  assert (Hl : 365 <= year_length (y + 1) <= 366) by (unfold year_length; split_if; lia).
  rewrite ptr_signed by lia. destruct (d - gauss y <? 0) eqn:E.
  - exists (y - 1). eexists. pose proof (gauss_step (y - 1)) as Hs'.
    replace (y - 1 + 1) with y in * by lia.
    fold (leap y). unfold year_length in Hs'.
    assert (Hl' : 365 + (if leap y then 1 else 0) + (d - gauss y) = d - gauss (y - 1))
      by (destruct (leap y); lia).
    split; [destruct (leap y); lia|]. split; [reflexivity|]. rewrite Hl'. reflexivity.
  - exists y, (d - gauss y). split; [lia|]. split; reflexivity.
Qed.

Lemma gm_date_correct d : 719468 <= d <= 3652364 ->
  let '(y, m, day) := gm_date d in
  valid_date y m day /\ civil_days y m day = d - 719527 + 59.
Proof.
  intros Hd. destruct (gm_year d ltac:(lia)) as (y & yday & Hy & Hyd & ->).
  pose proof (gauss_step y) as Hs. unfold year_length in Hs.
  pose proof (month_table (leap (y + 1)) (leap y) yday
    ltac:(destruct (leap (y + 1)); lia)) as HM.
  assert (Hrange : 1969 <= y <= 9999) by (unfold gauss in Hy; div_lia).
  unfold month_ok in HM. cbv zeta in *.
  set (mon := (yday + 31) * 10 / 306) in *.
  set (mday := yday - (367 * mon / 12 - 30) + 1) in *.
  unfold valid_date, civil_days. destruct (yday >=? 306) eqn:E306.
  - assert (Hy2 : y <> 9999) by (intros ->; change (gauss 9999) with 3652059 in *; lia).
    rewrite years_length_gauss. replace (1969 + Z.of_nat (Z.to_nat (y + 1 - 1970))) with y by lia.
    repeat split; lia.
  - assert (Hy2 : y <> 1969) by (intros ->; change (gauss 1969) with 719162 in *; lia).
    rewrite years_length_gauss.
    replace (1969 + Z.of_nat (Z.to_nat (y - 1970))) with (y - 1) by lia.
    pose proof (gauss_step (y - 1)) as Hs'. unfold year_length in Hs'.
    replace (y - 1 + 1) with y in Hs' by lia.
    destruct (leap y); repeat split; lia.
Qed.

(** Seconds from January 1, 1970. *)
Definition civil_time (y m d hour min sec : Z) : Z :=
  civil_days y m d * 86400 + hour * 3600 + min * 60 + sec.

Definition date_ok (y m d hour min sec : Z) : bool :=
  (d <=? month_length (leap y) m) && (hour <=? 23) && (min <=? 59) && (sec <=? 59)
  && (civil_time y m d hour min sec <=? NGX_MAX_TIME_T_VALUE).

(** Evaluate the tables at concrete months. *)
Ltac eval_months :=
  match goal with
  | |- context [months_length ?b ?n] =>
      let v := eval vm_compute in (months_length b n) in change (months_length b n) with v
  end.

Lemma month_cases m : 1 <= m <= 12 ->
  In m [1; 2; 3; 4; 5; 6; 7; 8; 9; 10; 11; 12].
Proof. intros. simpl. lia. Qed.

(** The formula of ngx_parse_http_time() counts the days of the calendar. *)
Lemma gauss_civil y m d : 1970 <= y -> 1 <= m <= 12 ->
  let '(mo, y') := if m - 2 <=? 0 then (m - 2 + 12, y - 1) else (m - 2, y) in
  gauss y' + 367 * mo / 12 - 30 + d - 1 - 719527 + 31 + 28 = civil_days y m d.
Proof.
  intros Hy Hm. unfold civil_days. rewrite years_length_gauss.
  replace (1969 + Z.of_nat (Z.to_nat (y - 1970))) with (y - 1) by lia.
  pose proof (gauss_step (y - 1)) as Hs. unfold year_length in Hs.
  replace (y - 1 + 1) with y in Hs by lia.
  apply month_cases in Hm. repeat destruct Hm as [<-|Hm]; try contradiction;
    destruct (leap y); eval_months; cbn -[gauss]; lia.
Qed.

Lemma civil_days_range y m d : 1970 <= y <= 9999 -> 1 <= m <= 12 -> 1 <= d <= 31 ->
  0 <= civil_days y m d <= 2932896.
Proof.
  intros Hy Hm Hd. unfold civil_days. rewrite years_length_gauss.
  replace (1969 + Z.of_nat (Z.to_nat (y - 1970))) with (y - 1) by lia.
  assert (HG : gauss 1969 <= gauss (y - 1) <= gauss 9998) by (unfold gauss; div_lia).
  assert (HM : 0 <= months_length (leap y) (Z.to_nat (m - 1)) <= if leap y then 335 else 334).
  { apply month_cases in Hm. repeat destruct Hm as [<-|Hm]; try contradiction;
      destruct (leap y); eval_months; lia. }
  change (gauss 1969) with 719162 in HG. change (gauss 9998) with 3651694 in HG.
  assert (HL : leap y = true -> y <> 9999) by (intros H ->; discriminate H).
  assert (HG2 : y <> 9999 -> gauss (y - 1) <= gauss 9997) by (unfold gauss; div_lia).
  change (gauss 9997) with 3651329 in HG2.
  destruct (leap y); lia.
Qed.

Lemma leap_test y : 0 <= y ->
  negb (negb (Z.land y 3 =? 0) || ((y mod 100 =? 0) && negb (y mod 400 =? 0))) = leap y.
Proof.
  intros Hy. rewrite (land_ones_mod y 3 2) by (reflexivity || lia).
  change (2 ^ 2) with 4. unfold leap.
  destruct (y mod 4 =? 0), (y mod 100 =? 0), (y mod 400 =? 0); reflexivity.
Qed.

Lemma mday_table_length m : 1 <= m <= 12 ->
  nth (Z.to_nat (m - 1)) mday_table 0 = month_length false m.
Proof.
  intros Hm. apply month_cases in Hm.
  repeat destruct Hm as [<-|Hm]; try contradiction; reflexivity.
Qed.

(** The day is compared with the table, February 29 being a case apart. *)
Lemma day_check y m d : 0 <= y -> 1 <= m <= 12 ->
  (if (d =? 29) && (m - 1 =? 1)
   then check (negb (negb (Z.land y 3 =? 0)
                     || ((y mod 100 =? 0) && negb (y mod 400 =? 0))))
   else check (negb (d >? nth (Z.to_nat (m - 1)) mday_table 0)))
  = check (d <=? month_length (leap y) m).
Proof.
  intros Hy Hm. rewrite leap_test, mday_table_length by assumption. unfold month_length.
  destruct ((d =? 29) && (m - 1 =? 1)) eqn:E, (m =? 2) eqn:E2, (leap y); try lia;
    f_equal; lia.
Qed.

Lemma make_time_correct y m d hour min sec :
  1970 <= y <= 9999 -> 1 <= m <= 12 -> 1 <= d <= 31 -> 0 <= hour -> 0 <= min -> 0 <= sec ->
  make_time d (m - 1) y hour min sec =
  if date_ok y m d hour min sec then Some (civil_time y m d hour min sec) else None.
Proof.
  intros Hy Hm Hd Hh Hmi Hse. unfold make_time, date_ok.
  pose proof (civil_days_range y m d Hy Hm Hd) as HR.
  pose proof (gauss_civil y m d ltac:(lia) Hm) as HG.
  destruct (negb ((hour >? 23) || (min >? 59) || (sec >? 59))) eqn:E1; cbn [check bind];
    [|if_false; reflexivity].
  rewrite day_check by lia.
  destruct (d <=? month_length (leap y) m) eqn:E2; cbn [check bind andb];
    [|reflexivity].
  replace (m - 1 - 1) with (m - 2) by lia.
  assert (HW : wrapu ptr_size (y - 1) = y - 1)
    by (apply wrapu_uint32; lia).
  rewrite HW. destruct (if m - 2 <=? 0 then _ else _) as [mo y'].
  fold (gauss y'). rewrite HG.
  rewrite (wrapu_uint32 ptr_size) by lia.
  fold (civil_time y m d hour min sec).
  assert (HT : 0 <= civil_time y m d hour min sec < 253402300800) by (unfold civil_time; lia).
  rewrite wrapu_uint64 by lia.
  replace ((hour <=? 23) && (min <=? 59) && (sec <=? 59)) with true by lia.
  replace ((hour <=? 23) && _ && _ && _) with (civil_time y m d hour min sec <=? NGX_MAX_TIME_T_VALUE) by lia.
  unfold NGX_MAX_TIME_T_VALUE.
  destruct time_t_size; cbn [max_value].
  - destruct (civil_time y m d hour min sec >? 2147483647) eqn:E3; cbn [negb check bind];
      [if_false|if_true]; reflexivity.
  - if_true. rewrite Printf.to_signed_small by (cbn [max_value]; lia). reflexivity.
Qed.
End Correct.

(** ** Texts of dates *)

Definition d2 (n : Z) : list Z := [48 + n / 10; 48 + n mod 10].

Definition d4 (n : Z) : list Z :=
  [48 + n / 1000; 48 + n / 100 mod 10; 48 + n / 10 mod 10; 48 + n mod 10].

Definition clock_text (hour min sec : Z) : list Z :=
  32 :: d2 hour ++ 58 :: d2 min ++ 58 :: d2 sec.

(** What follows the day of the week in the three formats. *)
Definition rfc822_text (y m d hour min sec : Z) : list Z :=
  d2 d ++ 32 :: month_name m ++ 32 :: d4 y ++ clock_text hour min sec.

Definition rfc850_text (y m d hour min sec : Z) : list Z :=
  d2 d ++ 45 :: month_name m ++ 45 :: d2 (y mod 100) ++ clock_text hour min sec.

Definition isoc_text (y m d hour min sec : Z) : list Z :=
  month_name m ++ 32 :: (if d <? 10 then [32; 48 + d] else d2 d)
    ++ clock_text hour min sec ++ 32 :: d4 y.

Section Texts.
Variables pre l : list Z.

Lemma byte_at_app k : byte_at (pre ++ l) (length pre + k) = byte_at l k.
Proof. unfold byte_at. rewrite app_nth2 by lia. f_equal. lia. Qed.

Lemma digit_at_app k : digit_at (pre ++ l) (length pre + k) = digit_at l k.
Proof. unfold digit_at. rewrite byte_at_app. reflexivity. Qed.

Lemma two_digits_app k : two_digits (pre ++ l) (length pre + k) = two_digits l k.
Proof. unfold two_digits. rewrite <- Nat.add_assoc, !digit_at_app. reflexivity. Qed.

Lemma four_digits_app k : four_digits (pre ++ l) (length pre + k) = four_digits l k.
Proof. unfold four_digits. rewrite <- !Nat.add_assoc, !digit_at_app. reflexivity. Qed.

Lemma parse_month_app k : parse_month (pre ++ l) (length pre + k) = parse_month l k.
Proof. unfold parse_month. rewrite <- !Nat.add_assoc, !byte_at_app. reflexivity. Qed.

Lemma parse_clock_app k : parse_clock (pre ++ l) (length pre + k) = parse_clock l k.
Proof.
  unfold parse_clock. rewrite <- !Nat.add_assoc, !byte_at_app, !two_digits_app. reflexivity.
Qed.

Lemma length_app_sub k : (length (pre ++ l) - (length pre + k) = length l - k)%nat.
Proof. rewrite length_app. lia. Qed.

Lemma parse_day_app k :
  parse_day (pre ++ l) (length pre + k) =
  option_map (fun '(d, f, p) => (d, f, (length pre + p)%nat)) (parse_day l k).
Proof.
  unfold parse_day. rewrite <- !Nat.add_assoc, !byte_at_app, !two_digits_app, length_app_sub.
  destruct (two_digits l k); cbn [bind]; [|reflexivity].
  split_ifs; try reflexivity; [destruct (18 <=? _)%nat|]; cbn [check bind option_map];
    rewrite ?Nat.add_succ_r; reflexivity.
Qed.

Lemma parse_isoc_day_app k :
  parse_isoc_day (pre ++ l) (length pre + k) =
  option_map (fun '(d, p) => (d, (length pre + p)%nat)) (parse_isoc_day l k).
Proof.
  unfold parse_isoc_day. rewrite byte_at_app.
  assert (H : forall q, (let* day := digit_at (pre ++ l) (length pre + q) in
    let* (day, p) :=
      if byte_at (pre ++ l) (S (length pre + q)) =? 32 then Some (day, S (length pre + q))
      else let* d := digit_at (pre ++ l) (S (length pre + q)) in
           Some (day * 10 + d, S (S (length pre + q))) in
    let* _ := check (14 <=? length (pre ++ l) - p)%nat in Some (day, p)) =
    option_map (fun '(d, p) => (d, (length pre + p)%nat))
      (let* day := digit_at l q in
       let* (day, p) :=
         if byte_at l (S q) =? 32 then Some (day, S q)
         else let* d := digit_at l (S q) in Some (day * 10 + d, S (S q)) in
       let* _ := check (14 <=? length l - p)%nat in Some (day, p))).
  { intros q. rewrite <- !Nat.add_succ_r, !digit_at_app, byte_at_app.
    destruct (digit_at l q); cbn [bind]; [|reflexivity].
    split_if; cbn [bind].
    - rewrite length_app_sub. destruct (14 <=? _)%nat; reflexivity.
    - destruct (digit_at l (S q)); cbn [bind]; [|reflexivity].
      rewrite length_app_sub. destruct (14 <=? _)%nat; reflexivity. }
  destruct (byte_at l k =? 32); [rewrite <- Nat.add_succ_r|]; apply H.
Qed.
End Texts.

(** The day of the week is skipped. *)
Definition weekday (w : list Z) : Prop := Forall (fun c => c <> 44 /\ c <> 32) w.

Lemma find_mark_skip w c l : weekday w -> c = 44 \/ c = 32 ->
  forall p, find_mark p (w ++ c :: l) = ((p + length w)%nat, c =? 32).
Proof.
  intros Hw Hc. induction Hw as [|d w [H1 H2] Hw IH]; intros p; cbn [app find_mark length].
  - rewrite Nat.add_0_r. destruct Hc as [->| ->]; reflexivity.
  - do 2 if_false. rewrite IH. f_equal. lia.
Qed.

Lemma digit_at_eq l k n : 0 <= n <= 9 -> byte_at l k = 48 + n -> digit_at l k = Some n.
Proof.
  intros Hn E. unfold digit_at. rewrite E. if_false. f_equal. lia.
Qed.

Lemma two_digits_d2 n l : 0 <= n <= 99 -> two_digits (d2 n ++ l) 0 = Some n.
Proof.
  intros Hn. unfold two_digits.
  rewrite (digit_at_eq _ 0 (n / 10)), (digit_at_eq _ (0 + 1) (n mod 10));
    try reflexivity; cbn [bind]; [f_equal|..]; div_lia.
Qed.

Lemma four_digits_d4 n l : 0 <= n <= 9999 -> four_digits (d4 n ++ l) 0 = Some n.
Proof.
  intros Hn. unfold four_digits.
  rewrite (digit_at_eq _ 0 (n / 1000)), (digit_at_eq _ (0 + 1) (n / 100 mod 10)),
    (digit_at_eq _ (0 + 2) (n / 10 mod 10)), (digit_at_eq _ (0 + 3) (n mod 10));
    try reflexivity; cbn [bind]; [f_equal|..]; div_lia.
Qed.

Lemma parse_month_name m l : 1 <= m <= 12 -> parse_month (month_name m ++ l) 0 = Some (m - 1).
Proof.
  intros Hm. apply month_cases in Hm.
  repeat destruct Hm as [<-|Hm]; try contradiction; reflexivity.
Qed.

Lemma month_name_chars m : 1 <= m <= 12 -> exists a b c, month_name m = [a; b; c].
Proof.
  intros Hm. apply month_cases in Hm.
  repeat destruct Hm as [<-|Hm]; try contradiction; do 3 eexists; reflexivity.
Qed.

(** Reading at a known distance from the start. *)
Lemma two_digits_after pre n l k : 0 <= n <= 99 -> length pre = k ->
  two_digits (pre ++ d2 n ++ l) k = Some n.
Proof.
  intros Hn <-. rewrite <- (Nat.add_0_r (length pre)), two_digits_app. apply two_digits_d2, Hn.
Qed.

Lemma four_digits_after pre n l k : 0 <= n <= 9999 -> length pre = k ->
  four_digits (pre ++ d4 n ++ l) k = Some n.
Proof.
  intros Hn <-. rewrite <- (Nat.add_0_r (length pre)), four_digits_app. apply four_digits_d4, Hn.
Qed.

Lemma parse_clock_text hour min sec l :
  0 <= hour <= 99 -> 0 <= min <= 99 -> 0 <= sec <= 99 ->
  parse_clock (clock_text hour min sec ++ l) 0 = Some (hour, min, sec).
Proof.
  intros Hh Hm Hs. unfold parse_clock.
  change (clock_text hour min sec ++ l)
    with ([32] ++ d2 hour ++ ([58] ++ d2 min ++ 58 :: d2 sec ++ l)).
  rewrite (two_digits_after [32]) by auto.
  change ([32] ++ d2 hour ++ ([58] ++ d2 min ++ 58 :: d2 sec ++ l))
    with (([32] ++ d2 hour ++ [58]) ++ d2 min ++ ([58] ++ d2 sec ++ l)).
  rewrite two_digits_after by auto.
  change (([32] ++ d2 hour ++ [58]) ++ d2 min ++ ([58] ++ d2 sec ++ l))
    with (([32] ++ d2 hour ++ [58] ++ d2 min ++ [58]) ++ d2 sec ++ l).
  rewrite two_digits_after by auto. reflexivity.
Qed.

Lemma parse_clock_after pre hour min sec l k :
  0 <= hour <= 99 -> 0 <= min <= 99 -> 0 <= sec <= 99 -> length pre = k ->
  parse_clock (pre ++ clock_text hour min sec ++ l) k = Some (hour, min, sec).
Proof.
  intros Hh Hm Hs <-. rewrite <- (Nat.add_0_r (length pre)), parse_clock_app.
  apply parse_clock_text; assumption.
Qed.

Section Formats.
Context `{P : Platform}.

Lemma parse_year_app pre l fmt k :
  parse_year fmt (pre ++ l) (length pre + k) =
  option_map (fun '(n, p) => (n, (length pre + p)%nat)) (parse_year fmt l k).
Proof.
  unfold parse_year. rewrite two_digits_app, four_digits_app, <- !Nat.add_assoc.
  destruct fmt, (two_digits l k), (four_digits l k); reflexivity.
Qed.

(** What precedes the date does not matter. *)
Lemma parse_date_app space pre l :
  parse_date space (pre ++ l) (length pre) = parse_date space l 0.
Proof.
  rewrite <- (Nat.add_0_r (length pre)). unfold parse_date. rewrite length_app_sub.
  destruct (check _); cbn [bind]; [|reflexivity]. destruct space.
  - rewrite parse_month_app. destruct (parse_month l 0); cbn [bind]; [|reflexivity].
    rewrite <- Nat.add_assoc, parse_isoc_day_app.
    destruct (parse_isoc_day l (0 + 4)) as [[day p]|]; cbn [option_map bind]; [|reflexivity].
    rewrite parse_clock_app, <- !Nat.add_assoc, byte_at_app, four_digits_app. reflexivity.
  - rewrite parse_day_app.
    destruct (parse_day l 0) as [[[day f] p]|]; cbn [option_map bind]; [|reflexivity].
    rewrite parse_month_app, <- !Nat.add_assoc, byte_at_app, parse_year_app.
    destruct (parse_month l p); cbn [bind]; [|reflexivity].
    destruct (check _); cbn [bind]; [|reflexivity].
    destruct (parse_year f l (p + 4)) as [[yr q]|]; cbn [option_map bind]; [|reflexivity].
    rewrite parse_clock_app. reflexivity.
Qed.

Lemma skipn_app_exact (pre l : list Z) k : length pre = k -> skipn k (pre ++ l) = l.
Proof. intros <-. rewrite skipn_app, skipn_all, Nat.sub_diag. reflexivity. Qed.

(** The day of the week and the comma or the space after it are skipped. *)
Lemma parse_comma w c l : weekday w -> c <> 32 ->
  parse_http_time (w ++ 44 :: 32 :: c :: l) = parse_date false (c :: l) 0.
Proof.
  intros Hw Hc. unfold parse_http_time. rewrite find_mark_skip by auto. cbn [Nat.add].
  change (w ++ 44 :: 32 :: c :: l) with (w ++ [44] ++ 32 :: c :: l). rewrite app_assoc.
  rewrite skipn_app_exact by (rewrite length_app; simpl; lia).
  cbn [skip_spaces Z.eqb Pos.eqb negb]. replace (c =? 32) with false by lia. cbn [negb].
  rewrite <- app_assoc. change ([44] ++ 32 :: c :: l) with ([44; 32] ++ c :: l).
  rewrite app_assoc, <- (parse_date_app false (w ++ [44; 32])). f_equal.
  rewrite length_app. simpl. lia.
Qed.

Lemma parse_space w c l : weekday w -> c <> 32 ->
  parse_http_time (w ++ 32 :: c :: l) = parse_date true (c :: l) 0.
Proof.
  intros Hw Hc. unfold parse_http_time. rewrite find_mark_skip by auto. cbn [Nat.add].
  change (w ++ 32 :: c :: l) with (w ++ [32] ++ c :: l). rewrite app_assoc.
  rewrite skipn_app_exact by (rewrite length_app; simpl; lia).
  cbn [skip_spaces Z.eqb Pos.eqb negb]. replace (c =? 32) with false by lia. cbn [negb].
  rewrite <- (parse_date_app true (w ++ [32])). f_equal.
  rewrite length_app. simpl. lia.
Qed.

Variables (tail : list Z) (y m d hour min sec : Z).
Hypothesis Hm : 1 <= m <= 12.
Hypothesis Hd : 1 <= d <= 99.
Hypothesis Hclock : 0 <= hour <= 99 /\ 0 <= min <= 99 /\ 0 <= sec <= 99.

Lemma date_rfc822 : 0 <= y <= 9999 ->
  parse_date false (rfc822_text y m d hour min sec ++ tail) 0 =
  make_time d (m - 1) y hour min sec.
Proof.
  intros Hy. destruct Hclock as (Hh & Hmi & Hs).
  destruct (month_name_chars m Hm) as (a & b & c & Hc).
  pose proof (parse_month_name m (32 :: d4 y ++ clock_text hour min sec ++ tail) Hm) as HM.
  unfold rfc822_text. rewrite Hc in *.
  change ((d2 d ++ 32 :: [a; b; c] ++ 32 :: d4 y ++ clock_text hour min sec) ++ tail)
    with (d2 d ++ 32 :: [a; b; c] ++ 32 :: d4 y ++ clock_text hour min sec ++ tail).
  set (v := d2 d ++ _).
  unfold parse_date. change (18 <=? length v - 0)%nat with true. cbn [check bind].
  unfold parse_day, v. rewrite two_digits_d2 by lia. fold v. cbn [bind].
  cbn [Nat.add]. change (byte_at v 2 =? 32) with true.
  change (18 <=? length v - 2)%nat with true. cbn [check bind Nat.add].
  replace (parse_month v 3) with (Some (m - 1))
    by (symmetry; etransitivity; [|exact HM];
        exact (parse_month_app (d2 d ++ [32])
                 ([a; b; c] ++ 32 :: d4 y ++ clock_text hour min sec ++ tail) 0)).
  cbn [bind]. change (byte_at v 6 =? 32) with true. cbn [check bind parse_year].
  replace (four_digits v 7) with (Some y)
    by (symmetry; apply (four_digits_after (d2 d ++ 32 :: [a; b; c] ++ [32])); auto).
  cbn [bind Nat.add].
  replace (parse_clock v 11) with (Some (hour, min, sec))
    by (symmetry; apply (parse_clock_after (d2 d ++ 32 :: [a; b; c] ++ 32 :: d4 y)); auto).
  reflexivity.
Qed.

Lemma date_rfc850 : 1970 <= y <= 2069 ->
  parse_date false (rfc850_text y m d hour min sec ++ tail) 0 =
  make_time d (m - 1) y hour min sec.
Proof.
  intros Hy. destruct Hclock as (Hh & Hmi & Hs).
  destruct (month_name_chars m Hm) as (a & b & c & Hc).
  pose proof (parse_month_name m (45 :: d2 (y mod 100) ++ clock_text hour min sec ++ tail) Hm) as HM.
  unfold rfc850_text. rewrite Hc in *.
  change ((d2 d ++ 45 :: [a; b; c] ++ 45 :: d2 (y mod 100) ++ clock_text hour min sec) ++ tail)
    with (d2 d ++ 45 :: [a; b; c] ++ 45 :: d2 (y mod 100) ++ clock_text hour min sec ++ tail).
  set (v := d2 d ++ _).
  unfold parse_date. change (18 <=? length v - 0)%nat with true. cbn [check bind].
  unfold parse_day, v. rewrite two_digits_d2 by lia. fold v. cbn [bind].
  cbn [Nat.add]. change (byte_at v 2 =? 32) with false. change (byte_at v 2 =? 45) with true.
  cbn [check bind Nat.add].
  replace (parse_month v 3) with (Some (m - 1))
    by (symmetry; etransitivity; [|exact HM];
        exact (parse_month_app (d2 d ++ [45])
                 ([a; b; c] ++ 45 :: d2 (y mod 100) ++ clock_text hour min sec ++ tail) 0)).
  cbn [bind]. change (byte_at v 6 =? 45) with true. cbn [check bind parse_year].
  replace (two_digits v 7) with (Some (y mod 100))
    by (symmetry; apply (two_digits_after (d2 d ++ 45 :: [a; b; c] ++ [45])); auto; div_lia).
  cbn [bind Nat.add].
  replace (parse_clock v 9) with (Some (hour, min, sec))
    by (symmetry;
        apply (parse_clock_after (d2 d ++ 45 :: [a; b; c] ++ 45 :: d2 (y mod 100))); auto).
  cbn [bind]. f_equal. split_if; div_lia.
Qed.

Lemma date_isoc : 0 <= y <= 9999 ->
  parse_date true (isoc_text y m d hour min sec ++ tail) 0 =
  make_time d (m - 1) y hour min sec.
Proof.
  intros Hy. destruct Hclock as (Hh & Hmi & Hs).
  destruct (month_name_chars m Hm) as (a & b & c & Hc).
  set (dd := if d <? 10 then [32; 48 + d] else d2 d).
  pose proof (parse_month_name m
    (32 :: dd ++ clock_text hour min sec ++ 32 :: d4 y ++ tail) Hm) as HM.
  unfold isoc_text. fold dd. rewrite Hc in *.
  replace (([a; b; c] ++ 32 :: dd ++ clock_text hour min sec ++ 32 :: d4 y) ++ tail)
    with ([a; b; c] ++ 32 :: dd ++ clock_text hour min sec ++ 32 :: d4 y ++ tail)
    by (cbn [app]; rewrite <- !app_assoc; reflexivity).
  assert (Hdd : exists x z, dd = [x; z]) by (unfold dd, d2; split_if; eauto).
  set (v := [a; b; c] ++ _) in *.
  assert (HD : parse_isoc_day v 4 = Some (d, 6%nat)).
  { unfold parse_isoc_day, v, dd. cbn [app]. destruct (d <? 10) eqn:E10.
    - cbn [app]. set (u := a :: _).
      change (byte_at u 4 =? 32) with true. cbv iota.
      rewrite (digit_at_eq u 5 d) by (reflexivity || lia). cbn [bind].
      change (byte_at u 6 =? 32) with true. cbv iota. reflexivity.
    - cbn [app d2]. set (u := a :: _).
      assert (H4 : (byte_at u 4 =? 32) = false)
        by (change (byte_at u 4) with (48 + d / 10); div_lia).
      assert (H5 : (byte_at u 5 =? 32) = false)
        by (change (byte_at u 5) with (48 + d mod 10); div_lia).
      rewrite H4. cbv iota. rewrite (digit_at_eq u 4 (d / 10)) by (reflexivity || div_lia).
      cbn [bind]. rewrite H5. cbv iota.
      rewrite (digit_at_eq u 5 (d mod 10)) by (reflexivity || div_lia).
      cbn [bind]. change (14 <=? length u - 6)%nat with true. cbn [bind check].
      do 2 f_equal. div_lia. }
  destruct Hdd as (x & z & Hdd). clearbody dd. subst dd.
  unfold parse_date. change (18 <=? length v - 0)%nat with true. cbn [check bind Nat.add].
  rewrite HM. cbn [bind]. rewrite HD. cbn [bind].
  replace (parse_clock v 6) with (Some (hour, min, sec))
    by (symmetry; apply (parse_clock_after ([a; b; c] ++ 32 :: [x; z])); auto).
  cbn [bind Nat.add]. change (byte_at v 15 =? 32) with true. cbn [check bind].
  replace (four_digits v 16) with (Some y)
    by (symmetry; apply (four_digits_after
          ([a; b; c] ++ 32 :: [x; z] ++ clock_text hour min sec ++ [32])); auto).
  reflexivity.
Qed.
End Formats.

(** ** Printing *)

Lemma hex_nth d : 0 <= d <= 9 -> nth (Z.to_nat d) NgxEscape.hex 0 = 48 + d.
Proof.
  intros Hd. assert (Hc : In d [0; 1; 2; 3; 4; 5; 6; 7; 8; 9]) by (simpl; lia).
  repeat destruct Hc as [<-|Hc]; try contradiction; reflexivity.
Qed.

Lemma print_two n : 0 <= n <= 99 -> Printf.ngx_sprintf_num None n 48 0 2 = (d2 n, None).
Proof.
  intros Hn. unfold Printf.ngx_sprintf_num, Printf.number. cbn [Z.eqb].
  unfold Printf.NGX_MAX_UINT32_VALUE. replace (n <=? 4294967295) with true by lia.
  rewrite wrapu_uint32 by lia.
  unfold Printf.NGX_INT64_LEN. cbn [Printf.digits].
  rewrite hex_nth by div_lia. destruct (n / 10 =? 0) eqn:E1.
  - cbn. unfold d2. replace (n / 10) with 0 by lia. reflexivity.
  - replace (n / 10 / 10 =? 0) with true by div_lia.
    rewrite (hex_nth (n / 10 mod 10)) by div_lia. cbn. unfold d2.
    replace (n / 10 mod 10) with (n / 10) by div_lia. reflexivity.
Qed.

Lemma print_four n : 1000 <= n <= 9999 -> Printf.ngx_sprintf_num None n 32 0 4 = (d4 n, None).
Proof.
  intros Hn. unfold Printf.ngx_sprintf_num, Printf.number. cbn [Z.eqb].
  unfold Printf.NGX_MAX_UINT32_VALUE. replace (n <=? 4294967295) with true by lia.
  rewrite wrapu_uint32 by lia.
  unfold Printf.NGX_INT64_LEN. cbn [Printf.digits].
  replace (n / 10 =? 0) with false by div_lia.
  replace (n / 10 / 10 =? 0) with false by div_lia.
  replace (n / 10 / 10 / 10 =? 0) with false by div_lia.
  replace (n / 10 / 10 / 10 / 10 =? 0) with true by div_lia.
  rewrite !hex_nth by div_lia. cbn. unfold d4.
  replace (n / 10 / 10 / 10 mod 10) with (n / 1000) by div_lia.
  replace (n / 10 / 10 mod 10) with (n / 100 mod 10) by div_lia. reflexivity.
Qed.

Section Printing.
Context `{P : Platform}.

Lemma sprintf_date w mo d y hour min sec :
  0 <= d <= 99 -> 1000 <= y <= 9999 -> 0 <= hour <= 99 -> 0 <= min <= 99 -> 0 <= sec <= 99 ->
  Printf.ngx_sprintf (bs "%s, %02d %s %4d %02d:%02d:%02d GMT")
    [Printf.Arg_str w; Printf.Arg_int d; Printf.Arg_str mo; Printf.Arg_int y;
     Printf.Arg_int hour; Printf.Arg_int min; Printf.Arg_int sec] =
  Some (w ++ bs ", " ++ d2 d ++ 32 :: mo ++ 32 :: d4 y ++ clock_text hour min sec
          ++ bs " GMT").
Proof.
  intros Hd Hy Hh Hm Hs.
  assert (HI : forall n z, 0 <= n <= 9999 ->
    forall c width, Printf.hexf c = 0 -> Printf.zero c = z ->
    Printf.print_int None c true size4 n width = Printf.ngx_sprintf_num None n z 0 width).
  { intros n z Hn c width Hhex Hz. unfold Printf.print_int.
    rewrite Printf.to_signed_small by (cbn [max_value]; lia).
    replace (n <? 0) with false by lia. rewrite Hhex, Hz. reflexivity. }
  assert (H2 : forall n c, 0 <= n <= 99 -> Printf.hexf c = 0 -> Printf.zero c = 48 ->
    Printf.print_int None c true size4 n 2 = (d2 n, None)).
  { intros n c Hn Hhex Hz. rewrite (HI n 48) by (auto; lia). apply print_two, Hn. }
  assert (H4 : forall n c, 1000 <= n <= 9999 -> Printf.hexf c = 0 -> Printf.zero c = 32 ->
    Printf.print_int None c true size4 n 4 = (d4 n, None)).
  { intros n c Hn Hhex Hz. rewrite (HI n 32) by (auto; lia). apply print_four, Hn. }
  unfold Printf.ngx_sprintf.
  destruct P as [[] ? ? ? ? ?]; cbn -[Printf.print_int d2 d4];
    repeat (first [rewrite H2 by (auto; lia) | rewrite H4 by (auto; lia)];
            cbn -[Printf.print_int d2 d4]);
    rewrite <- !app_assoc; reflexivity.
Qed.
End Printing.

(** ** Properties *)

Section Properties.
Context `{P : Platform}.

Lemma weekday_name n : 0 <= n <= 6 -> weekday (week_name n).
Proof.
  intros Hn. assert (Hc : In n [0; 1; 2; 3; 4; 5; 6]) by (simpl; lia).
  repeat destruct Hc as [<-|Hc]; try contradiction;
    repeat constructor; vm_compute; discriminate.
Qed.

Lemma week_name_length n : 0 <= n <= 6 -> length (week_name n) = 3%nat.
Proof.
  intros Hn. assert (Hc : In n [0; 1; 2; 3; 4; 5; 6]) by (simpl; lia).
  repeat destruct Hc as [<-|Hc]; try contradiction; reflexivity.
Qed.

Lemma valid_day y m d : valid_date y m d -> 1 <= d <= 31.
Proof.
  intros (_ & Hm & Hd). enough (month_length (leap y) m <= 31) by lia.
  apply month_cases in Hm. repeat destruct Hm as [<-|Hm]; try contradiction;
    destruct (leap y); vm_compute; discriminate.
Qed.

Lemma parse_rfc822 w tail y m d hour min sec :
  weekday w -> 1970 <= y <= 9999 -> 1 <= m <= 12 -> 1 <= d <= 31 ->
  0 <= hour <= 99 -> 0 <= min <= 99 -> 0 <= sec <= 99 ->
  ngx_parse_http_time (w ++ bs ", " ++ rfc822_text y m d hour min sec ++ tail) =
  if date_ok y m d hour min sec then civil_time y m d hour min sec else NGX_ERROR.
Proof.
  intros Hw Hy Hm Hd Hh Hmi Hs. unfold ngx_parse_http_time.
  change (bs ", " ++ rfc822_text y m d hour min sec ++ tail) with
    (44 :: 32 :: (48 + d / 10) :: tl (rfc822_text y m d hour min sec ++ tail)).
  rewrite (parse_comma w (48 + d / 10)) by (assumption || div_lia).
  change (48 + d / 10 :: tl (rfc822_text y m d hour min sec ++ tail))
    with (rfc822_text y m d hour min sec ++ tail).
  rewrite date_rfc822, make_time_correct by (auto; lia).
  destruct (date_ok _ _ _ _ _ _); reflexivity.
Qed.

Lemma gmtime_days t : 0 <= t <= 253402300799 -> wrapu ptr_size (t / 86400) = t / 86400.
Proof.
  intros Ht. apply wrapu_uint32. div_lia.
Qed.

(** What ngx_gmtime() finds, the calendar being counted day by day. *)
Lemma gmtime_correct t : 0 <= t <= 253402300799 ->
  let tm := ngx_gmtime t in
  valid_date (tm_year tm) (tm_mon tm) (tm_mday tm) /\
  0 <= tm_hour tm <= 23 /\ 0 <= tm_min tm <= 59 /\ 0 <= tm_sec tm <= 59 /\
  tm_wday tm = (4 + t / 86400) mod 7 /\
  civil_time (tm_year tm) (tm_mon tm) (tm_mday tm) (tm_hour tm) (tm_min tm) (tm_sec tm) = t.
Proof.
  intros Ht. unfold ngx_gmtime. replace (t <? 0) with false by lia.
  rewrite gmtime_days by assumption.
  replace (t / 86400 >? 2932896) with false by div_lia.
  pose proof (gm_date_correct (t / 86400 - (31 + 28) + 719527) ltac:(div_lia)) as HG.
  destruct (gm_date _) as [[y m] d]. destruct HG as [HV HC].
  cbn [tm_year tm_mon tm_mday tm_hour tm_min tm_sec tm_wday].
  split; [exact HV|]. unfold civil_time. rewrite HC. repeat split; try div_lia.
Qed.

(** ngx_gmtime() gives the date and time of every second from 1970 to
    9999: a valid date of the Gregorian calendar (counted year by year and
    month by month) and a time of day that together denote it, with the right
    day of the week; earlier times are taken as the first second of 1970 and
    later ones as the last second of 9999. *)
Theorem gmtime_exact t :
  t <= NGX_MAX_TIME_T_VALUE -> ptr_size = size8 \/ time_t_size = size4 ->
  let tm := ngx_gmtime t in
  let s := Z.max 0 (Z.min t 253402300799) in
  valid_date (tm_year tm) (tm_mon tm) (tm_mday tm) /\
  0 <= tm_hour tm <= 23 /\ 0 <= tm_min tm <= 59 /\ 0 <= tm_sec tm <= 59 /\
  tm_wday tm = (4 + s / 86400) mod 7 /\
  civil_time (tm_year tm) (tm_mon tm) (tm_mday tm) (tm_hour tm) (tm_min tm) (tm_sec tm) = s.
Proof.
  intros Hmax Hp. cbv zeta.
  replace (ngx_gmtime t) with (ngx_gmtime (Z.max 0 (Z.min t 253402300799))).
  { apply gmtime_correct. lia. }
  unfold ngx_gmtime. replace (Z.max 0 (Z.min t 253402300799) <? 0) with false by lia.
  destruct (t <? 0) eqn:En; [replace (Z.max 0 (Z.min t 253402300799)) with 0 by lia; reflexivity|].
  destruct (t <=? 253402300799) eqn:El;
    [replace (Z.max 0 (Z.min t 253402300799)) with t by lia; reflexivity|].
  replace (Z.max 0 (Z.min t 253402300799)) with 253402300799 by lia.
  unfold NGX_MAX_TIME_T_VALUE in Hmax. pose proof (max_value_pos time_t_size).
  assert (t <= 9223372036854775807) by (destruct time_t_size; cbn [max_value] in Hmax; lia).
  destruct Hp as [Hp|Hp]; rewrite Hp in *; [|cbn [max_value] in Hmax; lia].
  rewrite !wrapu_uint64 by div_lia.
  replace (t / 86400 >? 2932896) with true by div_lia. reflexivity.
Qed.

(** ngx_parse_http_time() accepts the three formats of HTTP dates (RFC
    1123, RFC 850 and asctime()), whatever name the day of the week has and
    whatever follows the date, and returns the second the date denotes in
    the Gregorian calendar; a day that the month does not have, an hour,
    minute or second out of range, and a time that [time_t] cannot hold are
    errors. *)
Theorem parse_http_time_exact w tail y m d hour min sec :
  weekday w -> 1970 <= y <= 9999 -> 1 <= m <= 12 -> 1 <= d <= 31 ->
  0 <= hour <= 99 -> 0 <= min <= 99 -> 0 <= sec <= 99 ->
  let t := if date_ok y m d hour min sec then civil_time y m d hour min sec
           else NGX_ERROR in
  ngx_parse_http_time (w ++ bs ", " ++ rfc822_text y m d hour min sec ++ tail) = t /\
  (y <= 2069 ->
   ngx_parse_http_time (w ++ bs ", " ++ rfc850_text y m d hour min sec ++ tail) = t) /\
  ngx_parse_http_time (w ++ bs " " ++ isoc_text y m d hour min sec ++ tail) = t.
Proof.
  intros Hw Hy Hm Hd Hh Hmi Hs t.
  assert (HT : match make_time d (m - 1) y hour min sec with Some z => z | None => NGX_ERROR end = t)
    by (rewrite make_time_correct by lia; unfold t; destruct (date_ok _ _ _ _ _ _); reflexivity).
  destruct (month_name_chars m Hm) as (a & b & c & Hc).
  split; [|split; [intros Hy2|]]; [|unfold ngx_parse_http_time..].
  - apply parse_rfc822; assumption.
  - change (bs ", " ++ rfc850_text y m d hour min sec ++ tail) with
      (44 :: 32 :: (48 + d / 10) :: tl (rfc850_text y m d hour min sec ++ tail)).
    rewrite (parse_comma w (48 + d / 10)) by (assumption || div_lia).
    change (48 + d / 10 :: tl (rfc850_text y m d hour min sec ++ tail))
      with (rfc850_text y m d hour min sec ++ tail).
    rewrite date_rfc850 by (auto; lia). exact HT.
  - assert (Ha : a <> 32).
    { intros ->. apply month_cases in Hm.
      repeat destruct Hm as [<-|Hm]; try contradiction; discriminate Hc. }
    replace (isoc_text y m d hour min sec ++ tail) with
      (a :: tl (isoc_text y m d hour min sec ++ tail))
      by (unfold isoc_text; rewrite Hc; reflexivity).
    change (bs " " ++ a :: tl (isoc_text y m d hour min sec ++ tail))
      with (32 :: a :: tl (isoc_text y m d hour min sec ++ tail)).
    rewrite (parse_space w a) by assumption.
    replace (a :: tl (isoc_text y m d hour min sec ++ tail)) with
      (isoc_text y m d hour min sec ++ tail)
      by (unfold isoc_text; rewrite Hc; reflexivity).
    rewrite date_isoc by (auto; lia). exact HT.
Qed.

(** a date that ngx_http_time() prints is the 29 characters of the RFC
    1123 format, and ngx_parse_http_time() reads it back as the same second,
    for every second from 1970 to 9999 that [time_t] holds. *)
Theorem http_time_roundtrip t :
  0 <= t <= 253402300799 -> t <= NGX_MAX_TIME_T_VALUE ->
  exists s, ngx_http_time t = Some s /\ length s = 29%nat /\ ngx_parse_http_time s = t.
Proof.
  intros Ht Hmax. destruct (gmtime_correct t Ht) as (HV & Hh & Hm & Hs & Hw & HC).
  unfold ngx_http_time. set (tm := ngx_gmtime t) in *.
  pose proof (valid_day _ _ _ HV) as Hd. pose proof HV as (Hy & Hmo & _).
  rewrite sprintf_date by lia. eexists. split; [reflexivity|].
  assert (HW : weekday (week_name (tm_wday tm))) by (apply weekday_name; rewrite Hw; div_lia).
  split.
  { unfold clock_text. rewrite !length_app. cbn [length]. rewrite !length_app.
    destruct (month_name_chars (tm_mon tm) Hmo) as (a & b & c & Hc). rewrite Hc.
    rewrite week_name_length by (rewrite Hw; div_lia). reflexivity. }
  replace (_ ++ _) with (week_name (tm_wday tm) ++ bs ", " ++
      rfc822_text (tm_year tm) (tm_mon tm) (tm_mday tm) (tm_hour tm) (tm_min tm) (tm_sec tm)
      ++ bs " GMT")
    by (unfold rfc822_text; repeat (rewrite <- app_assoc; cbn [app]); reflexivity).
  rewrite parse_rfc822 by (auto; lia). unfold date_ok. rewrite HC.
  destruct HV as (_ & _ & HV). if_true. reflexivity.
Qed.

End Properties.

Lemma gmtime_exact_witness :
  let tm := @ngx_gmtime lp64 951782400 in
  valid_date (tm_year tm) (tm_mon tm) (tm_mday tm) /\
  0 <= tm_hour tm <= 23 /\ 0 <= tm_min tm <= 59 /\ 0 <= tm_sec tm <= 59 /\
  tm_wday tm = (4 + 951782400 / 86400) mod 7 /\
  civil_time (tm_year tm) (tm_mon tm) (tm_mday tm) (tm_hour tm) (tm_min tm) (tm_sec tm)
  = 951782400.
Proof.
  apply (@gmtime_exact lp64 951782400); [vm_compute; discriminate | left; reflexivity].
Defined.

Lemma parse_http_time_exact_witness :
  let t := if @date_ok lp64 1994 11 6 8 49 37 then civil_time 1994 11 6 8 49 37
           else NGX_ERROR in
  @ngx_parse_http_time lp64
    (bs "Sun" ++ bs ", " ++ rfc822_text 1994 11 6 8 49 37 ++ bs " GMT") = t /\
  (1994 <= 2069 -> @ngx_parse_http_time lp64
    (bs "Sun" ++ bs ", " ++ rfc850_text 1994 11 6 8 49 37 ++ bs " GMT") = t) /\
  @ngx_parse_http_time lp64
    (bs "Sun" ++ bs " " ++ isoc_text 1994 11 6 8 49 37 ++ bs " GMT") = t.
Proof.
  apply (@parse_http_time_exact lp64 (bs "Sun") (bs " GMT") 1994 11 6 8 49 37); try lia.
  repeat constructor; vm_compute; discriminate.
Defined.

Lemma http_time_roundtrip_witness :
  exists s, @ngx_http_time lp64 784111777 = Some s /\ length s = 29%nat /\
            @ngx_parse_http_time lp64 s = 784111777.
Proof.
  apply (@http_time_roundtrip lp64 784111777); [lia | vm_compute; discriminate].
Defined.

End Time.
