(* ===== verification/NgxRadixTree.v ===== *)
(** * Radix trees

    Model of [src/core/ngx_radix_tree.c]: the binary trees of address prefixes
    that the geo module and others look addresses up in.  Nodes live in a
    heap and point to their children and to their parent; deleted nodes are
    kept in a list of free nodes, linked through [right].  The functions for
    IPv4 and for IPv6 keys have the same loops over different cursors into
    the key, and the loops are written once, for any cursor. *)

From Stdlib Require Import ZArith Bool Lia ZifyBool.
From stdpp Require Import base list numbers gmap.
From S2P Require Import Prelude.
Local Open Scope Z_scope.

Module Radix.

(** [ngx_radix_node_t] *)
Record node := mk_node {
  right : option nat; left : option nat; parent : option nat; value : Z
}.

(** [ngx_radix_tree_t].  [used] counts the nodes cut from pages so far and is
    the address of the next one, [size] is what is left of the current page
    and [pages] how many more pages the pool can give. *)
Record tree := mk_tree {
  root : nat; free : option nat; heap : gmap nat node;
  used : nat; size : Z; pages : nat
}.

(** What a call may come to. *)
Inductive outcome :=
  | Returns (rc : Z) (t : tree)
  | Null_dereference
  | Out_of_fuel.

Section Memory.
Context `{P : Platform}.
Variable ngx_pagesize : Z.

Definition NGX_RADIX_NO_VALUE : Z := wrapu ptr_size (-1).

(** [sizeof(ngx_radix_node_t)] *)
Definition node_size : Z := match ptr_size with size4 => 16 | size8 => 32 end.

Definition ngx_radix_alloc (t : tree) : option (nat * tree) :=
  match free t with
  | Some p =>
      Some (p, mk_tree (root t) (heap t !! p ≫= right) (heap t) (used t) (size t) (pages t))
  | None =>
      let cut sz n :=
        Some (used t, mk_tree (root t) None (heap t) (S (used t)) (sz - node_size) n) in
      if size t <? node_size then
        match pages t with
        | O => None
        | S n => cut ngx_pagesize n
        end
      else cut (size t) (pages t)
  end.

(** ** Access to nodes *)

Definition child (h : gmap nat node) (d : bool) (a : nat) : option nat :=
  h !! a ≫= fun nd => if d then right nd else left nd.

Definition value_of (h : gmap nat node) (a : nat) : Z :=
  match h !! a with Some nd => value nd | None => NGX_RADIX_NO_VALUE end.

Definition parent_of (h : gmap nat node) (a : nat) : option nat := h !! a ≫= parent.

Definition set_heap (h : gmap nat node) (t : tree) : tree :=
  mk_tree (root t) (free t) h (used t) (size t) (pages t).

Definition set_free (f : option nat) (t : tree) : tree :=
  mk_tree (root t) f (heap t) (used t) (size t) (pages t).

(** [node->right = x] or [node->left = x] *)
Definition with_child (d : bool) (x : option nat) (nd : node) : node :=
  if d then mk_node x (left nd) (parent nd) (value nd)
  else mk_node (right nd) x (parent nd) (value nd).

Definition with_value (v : Z) (nd : node) : node :=
  mk_node (right nd) (left nd) (parent nd) v.

Definition set_child (a : nat) (d : bool) (x : option nat) (t : tree) : tree :=
  set_heap (alter (with_child d x) a (heap t)) t.

Definition set_value (a : nat) (v : Z) (t : tree) : tree :=
  set_heap (alter (with_value v) a (heap t)) t.

(** ** The loops

    A cursor points to a bit of the key: [more c] is whether the mask has
    the bit, [dir c] whether the key has it. *)

Section Loops.
Context {C : Type}.
Variables (more : C -> bool) (dir : C -> bool) (next : C -> C).

(** The first loop of an insertion, and whether [next] is not NULL after
    it. *)
Fixpoint descend (fuel : nat) (h : gmap nat node) (c : C) (a : nat)
    : option (C * nat * bool) :=
  match fuel with
  | O => None
  | S fuel' =>
      if more c then
        match child h (dir c) a with
        | None => Some (c, a, false)
        | Some b => descend fuel' h (next c) b
        end
      else Some (c, a, true)
  end.

(** The second one, with the new nodes, and the assignment after it. *)
Fixpoint grow (fuel : nat) (v : Z) (t : tree) (c : C) (a : nat) : outcome :=
  match fuel with
  | O => Out_of_fuel
  | S fuel' =>
      if more c then
        match ngx_radix_alloc t with
        | None => Returns NGX_ERROR t
        | Some (p, t1) =>
            let t2 := set_heap
                        (<[p := mk_node None None (Some a) NGX_RADIX_NO_VALUE]> (heap t1)) t1 in
            grow fuel' v (set_child a (dir c) (Some p) t2) (next c) p
        end
      else Returns NGX_OK (set_value a v t)
  end.

Definition insert_at (fuel : nat) (t : tree) (c : C) (v : Z) : outcome :=
  match descend fuel (heap t) c (root t) with
  | None => Out_of_fuel
  | Some (_, a, true) =>
      if negb (value_of (heap t) a =? NGX_RADIX_NO_VALUE) then Returns NGX_BUSY t
      else Returns NGX_OK (set_value a v t)
  | Some (c', a, false) => grow fuel v t c' a
  end.

(** The first loop of a deletion. *)
Fixpoint walk (fuel : nat) (h : gmap nat node) (c : C) (o : option nat)
    : option (option nat) :=
  match fuel with
  | O => None
  | S fuel' =>
      match o with
      | None => Some None
      | Some a => if more c then walk fuel' h (next c) (child h (dir c) a) else Some (Some a)
      end
  end.

Definition is_leaf (h : gmap nat node) (a : nat) : bool :=
  match child h true a, child h false a with None, None => true | _, _ => false end.

(** The second one, which frees a leaf and the nodes above that become
    useless. *)
Fixpoint trim (fuel : nat) (t : tree) (a : nat) : outcome :=
  match fuel with
  | O => Out_of_fuel
  | S fuel' =>
      match parent_of (heap t) a with
      | None => Null_dereference
      | Some b =>
          let t1 := if decide (child (heap t) true b = Some a)
                    then set_child b true None t else set_child b false None t in
          let t2 := set_free (Some a) (set_child a true (free t1) t1) in
          if negb (is_leaf (heap t2) b) then Returns NGX_OK t2
          else if negb (value_of (heap t2) b =? NGX_RADIX_NO_VALUE) then Returns NGX_OK t2
          else match parent_of (heap t2) b with
               | None => Returns NGX_OK t2
               | Some _ => trim fuel' t2 b
               end
      end
  end.

Definition delete_at (fuel : nat) (t : tree) (c : C) : outcome :=
  match walk fuel (heap t) c (Some (root t)) with
  | None => Out_of_fuel
  | Some None => Returns NGX_ERROR t
  | Some (Some a) =>
      if negb (is_leaf (heap t) a) then
        if negb (value_of (heap t) a =? NGX_RADIX_NO_VALUE)
        then Returns NGX_OK (set_value a NGX_RADIX_NO_VALUE t)
        else Returns NGX_ERROR t
      else trim fuel t a
  end.

End Loops.

(** The loop of a lookup: [read c] is the bit of the key, [None] outside of
    it.  [None] stands for a read outside of the key or no fuel. *)
Fixpoint find_loop {C} (read : C -> option bool) (next : C -> C) (fuel : nat)
    (h : gmap nat node) (c : C) (o : option nat) (v : Z) : option Z :=
  match fuel with
  | O => None
  | S fuel' =>
      match o with
      | None => Some v
      | Some a =>
          let v' := if negb (value_of h a =? NGX_RADIX_NO_VALUE) then value_of h a else v in
          match read c with
          | None => None
          | Some d => find_loop read next fuel' h (next c) (child h d a) v'
          end
      end
  end.

(** ** IPv4: the cursor is [bit] *)

Definition next32 (bit : Z) : Z := Z.shiftr bit 1.
Definition has32 (w bit : Z) : bool := negb (Z.land w bit =? 0).

Definition ngx_radix32tree_insert (t : tree) (key mask v : Z) : outcome :=
  insert_at (has32 mask) (has32 key) next32 34 t 0x80000000 v.

Definition ngx_radix32tree_delete (t : tree) (key mask : Z) : outcome :=
  delete_at (has32 mask) (has32 key) next32 34 t 0x80000000.

Definition ngx_radix32tree_find (t : tree) (key : Z) : option Z :=
  find_loop (fun bit => Some (has32 key bit)) next32 34 (heap t) 0x80000000
    (Some (root t)) NGX_RADIX_NO_VALUE.

(** ** IPv6: the cursor is [i] and [bit] *)

Definition next128 (c : nat * Z) : nat * Z :=
  let bit := Z.shiftr c.2 1 in
  if bit =? 0 then (S c.1, 0x80) else (c.1, bit).

Definition has128 (w : list Z) (c : nat * Z) : bool :=
  negb (Z.land (byte_at w c.1) c.2 =? 0).

(** [break] at [++i == 16] *)
Definition more128 (mask : list Z) (c : nat * Z) : bool :=
  (c.1 <? 16)%nat && has128 mask c.

Definition ngx_radix128tree_insert (t : tree) (key mask : list Z) (v : Z) : outcome :=
  insert_at (more128 mask) (has128 key) next128 130 t (O, 0x80) v.

Definition ngx_radix128tree_delete (t : tree) (key mask : list Z) : outcome :=
  delete_at (more128 mask) (has128 key) next128 130 t (O, 0x80).

(** [key] is the memory from the key on. *)
Definition ngx_radix128tree_find (t : tree) (key : list Z) : option Z :=
  find_loop (fun c => if (c.1 <? length key)%nat then Some (has128 key c) else None)
    next128 130 (heap t) (O, 0x80) (Some (root t)) NGX_RADIX_NO_VALUE.

(** ** Creation *)

(** The [do] loop of the preallocation. *)
Fixpoint fill (fuel : nat) (t : tree) (key mask inc : Z) : outcome :=
  match fuel with
  | O => Out_of_fuel
  | S fuel' =>
      match ngx_radix32tree_insert t key mask NGX_RADIX_NO_VALUE with
      | Returns rc t' =>
          if negb (rc =? NGX_OK) then Returns NGX_ERROR t'
          else
            let key := wrapu size4 (key + inc) in
            if key =? 0 then Returns NGX_OK t' else fill fuel' t' key mask inc
      | o => o
      end
  end.

(** [while (preallocate--)]: the [k]th round, from 0, has [2 ^ (k + 1)] keys. *)
Fixpoint preallocate_loop (n k : nat) (t : tree) (mask inc : Z) : outcome :=
  match n with
  | O => Returns NGX_OK t
  | S n' =>
      let mask := Z.lor (Z.shiftr mask 1) 0x80000000 in
      match fill (2 ^ S k) t 0 mask inc with
      | Returns rc t' =>
          if negb (rc =? NGX_OK) then Returns NGX_ERROR t'
          else preallocate_loop n' (S k) t' mask (Z.shiftr inc 1)
      | o => o
      end
  end.

(** NGX_ERROR stands for NULL; [pool_pages] is what the pool can give. *)
Definition ngx_radix_tree_create (pool_pages : nat) (preallocate : Z) : outcome :=
  let t0 := mk_tree O None ∅ O 0 pool_pages in
  match ngx_radix_alloc t0 with
  | None => Returns NGX_ERROR t0
  | Some (a, t) =>
      let t := mk_tree a (free t) (<[a := mk_node None None None NGX_RADIX_NO_VALUE]> (heap t))
                 (used t) (size t) (pages t) in
      let n := if preallocate =? -1 then
                 (if ngx_pagesize / node_size =? 128 then 6
                  else if ngx_pagesize / node_size =? 256 then 7 else 8)
               else preallocate in
      preallocate_loop (Z.to_nat n) 0 t 0 0x80000000
  end.

End Memory.

(** Prefixes of different lengths; 10.0.0.0/8 is 0x0a000000. *)
Definition sample : option tree :=
  match @ngx_radix_tree_create lp64 4096 10 (-1) with
  | Returns _ t =>
      match @ngx_radix32tree_insert lp64 4096 t 0x0a000000 0xff000000 7 with
      | Returns _ t =>
          match @ngx_radix32tree_insert lp64 4096 t 0x0a010000 0xffff0000 8 with
          | Returns _ t => Some t
          | _ => None
          end
      | _ => None
      end
  | _ => None
  end.

Example find_1 :
  match sample with
  | Some t => map (@ngx_radix32tree_find lp64 t) [0x0a010203; 0x0a020304; 0x0b000000]
  | None => []
  end = [Some 8; Some 7; Some (@NGX_RADIX_NO_VALUE lp64)].
Proof. vm_compute. reflexivity. Qed.

(** ** Well-formed trees

    [σ] gives the address of the node at the end of each path from the root;
    a path is the list of its turns, [true] to the right.  [F] is the list of
    free nodes and [N] the greatest length of a path. *)

Fixpoint chain (h : gmap nat node) (f : option nat) (F : list nat) : Prop :=
  match F with
  | [] => f = None
  | a :: F' => f = Some a /\ exists nd, h !! a = Some nd /\ chain h (right nd) F'
  end.

Definition node_ok (σ : gmap (list bool) nat) (π : list bool) (nd : node) : Prop :=
  right nd = σ !! (π ++ [true]) /\ left nd = σ !! (π ++ [false]) /\
  (π = [] -> parent nd = None) /\
  (forall π' e, π = π' ++ [e] -> parent nd = σ !! π').

Record wf (N : nat) (t : tree) (σ : gmap (list bool) nat) (F : list nat) : Prop := {
  wf_root : σ !! [] = Some (root t);
  wf_inj : forall π1 π2 a, σ !! π1 = Some a -> σ !! π2 = Some a -> π1 = π2;
  wf_closed : forall π d, is_Some (σ !! (π ++ [d])) -> is_Some (σ !! π);
  wf_node : forall π a, σ !! π = Some a -> exists nd, heap t !! a = Some nd /\ node_ok σ π nd;
  wf_used : forall π a, σ !! π = Some a -> (a < used t)%nat;
  wf_depth : forall π, is_Some (σ !! π) -> (length π <= N)%nat;
  wf_chain : chain (heap t) (free t) F;
  wf_dup : NoDup F;
  wf_free : forall a, a ∈ F -> (a < used t)%nat /\ forall π, σ !! π <> Some a
}.

Lemma chain_frame h h' f F :
  (forall a, a ∈ F -> h' !! a = h !! a) -> chain h f F -> chain h' f F.
Proof.
  revert f. induction F as [|a F IH]; intros f HA; [done|]. cbn. intros (-> & nd & Ha & HC).
  split; [done|]. exists nd. rewrite HA by set_solver. split; [done|]. apply IH; [|done]. set_solver.
Qed.

Section Invariant.
Context `{P : Platform}.
Variables (ngx_pagesize : Z) (N : nat).

(** The value at the end of a path. *)
Definition vals (t : tree) (σ : gmap (list bool) nat) (π : list bool) : option Z :=
  match σ !! π with
  | None => None
  | Some a =>
      if value_of (heap t) a =? NGX_RADIX_NO_VALUE then None else Some (value_of (heap t) a)
  end.

Lemma wf_child t σ F π a d : wf N t σ F -> σ !! π = Some a -> child (heap t) d a = σ !! (π ++ [d]).
Proof.
  intros HW Ha. destruct (wf_node _ _ _ _ HW π a Ha) as (nd & Hn & H1 & H2 & _).
  unfold child. rewrite Hn. by destruct d.
Qed.

Lemma wf_parent t σ F π d a : wf N t σ F -> σ !! (π ++ [d]) = Some a -> parent_of (heap t) a = σ !! π.
Proof.
  intros HW Ha. destruct (wf_node _ _ _ _ HW _ a Ha) as (nd & Hn & _ & _ & _ & H4).
  unfold parent_of. rewrite Hn. cbn. eauto.
Qed.

Lemma wf_parent_root t σ F : wf N t σ F -> parent_of (heap t) (root t) = None.
Proof.
  intros HW. destruct (wf_node _ _ _ _ HW [] _ (wf_root _ _ _ _ HW)) as (nd & Hn & _ & _ & H3 & _).
  unfold parent_of. rewrite Hn. cbn. auto.
Qed.

(** Below a path that is missing all are. *)
Lemma prefix_missing t σ F π ρ : wf N t σ F -> σ !! π = None -> ~ is_Some (σ !! (π ++ ρ)).
Proof.
  intros HW Hn. induction ρ as [|d ρ IH] using rev_ind.
  - rewrite app_nil_r, Hn. by intros [? ?].
  - rewrite app_assoc. intros H. by apply (wf_closed _ _ _ _ HW) in H.
Qed.

(** *** Values *)

Lemma set_value_wf t σ F π a v : wf N t σ F -> σ !! π = Some a ->
  wf N (set_value a v t) σ F /\
  forall ρ, vals (set_value a v t) σ ρ =
    if decide (ρ = π) then (if v =? NGX_RADIX_NO_VALUE then None else Some v) else vals t σ ρ.
Proof.
  intros HW Ha. pose proof HW as []. split.
  - split; try done; cbn.
    + intros ρ b Hb. destruct (wf_node0 ρ b Hb) as (nd & Hn & HO).
      destruct (decide (b = a)) as [->|Hne].
      * rewrite lookup_alter_eq, Hn. by eexists.
      * rewrite lookup_alter_ne by done. eauto.
    + eapply chain_frame; [|done]. intros b Hb. apply lookup_alter_ne. intros ->.
      by apply (proj2 (wf_free0 _ Hb) π).
  - intros ρ. unfold vals. case_decide as Hd.
    + subst ρ. rewrite Ha. cbn. unfold value_of. rewrite lookup_alter_eq.
      destruct (wf_node0 π a Ha) as (nd & -> & _). done.
    + destruct (σ !! ρ) as [b|] eqn:Eb; [|done]. cbn. unfold value_of.
      rewrite lookup_alter_ne; [done|]. intros ->. eauto.
Qed.

(** *** A new node *)

Lemma alloc_wf t σ F p t1 : wf N t σ F -> ngx_radix_alloc ngx_pagesize t = Some (p, t1) ->
  exists F', wf N t1 σ F' /\ heap t1 = heap t /\ (p < used t1)%nat /\ (p ∉ F') /\
    forall π, σ !! π <> Some p.
Proof.
  intros HW. pose proof HW as []. unfold ngx_radix_alloc.
  destruct (free t) as [q|] eqn:Ef.
  - intros [= -> <-]. destruct F as [|q F]; [done|].
    destruct wf_chain0 as ([= ->] & nd & Hn & HC). apply NoDup_cons in wf_dup0 as [Hq HD].
    exists F. split; [split; try done; cbn|].
    + by rewrite Hn.
    + intros b Hb. apply wf_free0. by right.
    + destruct (wf_free0 q) as [H1 H2]; [by left|]. done.
  - destruct F as [|? F]; [|by destruct wf_chain0 as [[=] _]].
    assert (HC : forall sz n, wf N (mk_tree (root t) None (heap t) (S (used t)) sz n) σ []).
    { intros sz n. split; try done; cbn; [intros π a Hp; apply wf_used0 in Hp; lia|by intros a ?%not_elem_of_nil]. }
    assert (HU : forall π, σ !! π <> Some (used t)) by (intros π Hp; apply wf_used0 in Hp; lia).
    destruct (size t <? node_size); [destruct (pages t); [done|]|]; intros [= <- <-];
      exists []; (split; [apply HC|]); cbn; repeat split; try done; try lia; apply not_elem_of_nil.
Qed.

(** The child [d] of [a] becomes the node [p]. *)
Definition link (t : tree) (a : nat) (d : bool) (p : nat) : tree :=
  set_child a d (Some p)
    (set_heap (<[p := mk_node None None (Some a) NGX_RADIX_NO_VALUE]> (heap t)) t).

Lemma snoc_neq (π : list bool) d : π ++ [d] <> π.
Proof. intros H. apply (f_equal length) in H. rewrite length_app in H. cbn in H. lia. Qed.

Section Link.
Variables (t : tree) (σ : gmap (list bool) nat) (F : list nat) (π : list bool).
Variables (a : nat) (d : bool) (p : nat).
Hypothesis HW : wf N t σ F.
Hypothesis Hp : (p < used t)%nat.
Hypothesis HF : p ∉ F.
Hypothesis Hpσ : forall ρ, σ !! ρ <> Some p.
Hypothesis Ha : σ !! π = Some a.
Hypothesis Hd : σ !! (π ++ [d]) = None.
Hypothesis HN : (length π < N)%nat.

Lemma link_heap ρ b : σ !! ρ = Some b -> heap (link t a d p) !! b =
  if decide (b = a) then with_child d (Some p) <$> heap t !! b else heap t !! b.
Proof.
  intros Hb. cbn. assert (b <> p) by (intros ->; by apply (Hpσ ρ)). case_decide as E; [subst b|].
  - rewrite lookup_alter_eq, lookup_insert_ne by done. done.
  - rewrite lookup_alter_ne, lookup_insert_ne by done. done.
Qed.

Lemma link_heap_new : heap (link t a d p) !! p = Some (mk_node None None (Some a) NGX_RADIX_NO_VALUE).
Proof.
  cbn. rewrite lookup_alter_ne, lookup_insert_eq; [done|]. intros ->. by apply (Hpσ π).
Qed.

Lemma link_above ρ e : is_Some (σ !! (ρ ++ [e])) -> ρ <> π ++ [d].
Proof. intros Hs ->. apply (wf_closed _ _ _ _ HW) in Hs. rewrite Hd in Hs. by destruct Hs. Qed.

Lemma link_node_new : node_ok (<[π ++ [d] := p]> σ) (π ++ [d])
  (mk_node None None (Some a) NGX_RADIX_NO_VALUE).
Proof.
  assert (HX : forall e, <[π ++ [d]:=p]> σ !! ((π ++ [d]) ++ [e]) = None).
  { intros e. rewrite lookup_insert_ne by (intros E; symmetry in E; by apply snoc_neq in E).
    destruct (σ !! ((π ++ [d]) ++ [e])) as [x|] eqn:Ex; [|done]. exfalso.
    apply (link_above (π ++ [d]) e); [rewrite Ex; by eexists|done]. }
  split; [by rewrite HX|]. split; [by rewrite HX|]. split; [by destruct π|].
  intros ρ e E. apply app_inj_tail in E as [<- <-].
  rewrite lookup_insert_ne by apply snoc_neq. by rewrite Ha.
Qed.

Lemma link_node_old ρ b : σ !! ρ = Some b ->
  exists nd, heap (link t a d p) !! b = Some nd /\ node_ok (<[π ++ [d] := p]> σ) ρ nd.
Proof.
  intros Hb. destruct (wf_node _ _ _ _ HW ρ b Hb) as (nd & Hn & H1 & H2 & H3 & H4).
  rewrite (link_heap ρ b Hb).
  assert (HP : forall ρ' e, ρ = ρ' ++ [e] -> parent nd = <[π ++ [d]:=p]> σ !! ρ').
  { intros ρ' e ->. rewrite lookup_insert_ne; [eauto|]. intros E.
    apply (link_above ρ' e); [rewrite Hb; by eexists|done]. }
  destruct (decide (b = a)) as [->|Hba].
  - assert (ρ = π) as -> by (by apply (wf_inj _ _ _ _ HW) with a). rewrite Hn. cbn.
    eexists. split; [done|].
    assert (Hne : forall e, e <> d -> <[π ++ [d]:=p]> σ !! (π ++ [e]) = σ !! (π ++ [e])).
    { intros e He. apply lookup_insert_ne. intros [_ E]%app_inj_tail. done. }
    destruct d; cbn; repeat split; try done; by rewrite ?lookup_insert_eq, ?Hne.
  - eexists. split; [done|].
    assert (Hne : forall e, <[π ++ [d]:=p]> σ !! (ρ ++ [e]) = σ !! (ρ ++ [e])).
    { intros e. apply lookup_insert_ne. intros [-> _]%app_inj_tail. by simplify_eq. }
    repeat split; try done; by rewrite Hne.
Qed.

Lemma link_vals ρ : vals (link t a d p) (<[π ++ [d] := p]> σ) ρ = vals t σ ρ.
Proof.
  unfold vals. destruct (decide (ρ = π ++ [d])) as [->|Hne].
  - rewrite lookup_insert_eq, Hd. unfold value_of. rewrite link_heap_new. cbn. by rewrite Z.eqb_refl.
  - rewrite lookup_insert_ne by done. destruct (σ !! ρ) as [b|] eqn:Eb; [|done].
    unfold value_of. rewrite (link_heap ρ b Eb).
    destruct (wf_node _ _ _ _ HW ρ b Eb) as (nd & -> & _). case_decide; [|done]. by destruct d.
Qed.

Lemma link_wf : wf N (link t a d p) (<[π ++ [d] := p]> σ) F.
Proof.
  pose proof HW as []. split.
  - rewrite lookup_insert_ne; [done|]. by destruct π.
  - intros π1 π2 b. rewrite !lookup_insert_Some.
    intros [[<- <-]|[H1 H1']] [[<- E]|[H2 H2']]; try done; [by apply Hpσ in H2'| |eauto].
    subst b. by apply Hpσ in H1'.
  - intros ρ e Hs. destruct (decide (ρ = π ++ [d])) as [->|Hne]; [by rewrite lookup_insert_eq; eexists|].
    rewrite lookup_insert_ne by done. destruct (decide (ρ ++ [e] = π ++ [d])) as [E|E].
    + apply app_inj_tail in E as [-> _]. by exists a.
    + rewrite lookup_insert_ne in Hs by done. eauto.
  - intros ρ b. rewrite lookup_insert_Some. intros [[<- <-]|[_ Hb]]; [|by apply link_node_old].
    rewrite link_heap_new. eexists. split; [done|apply link_node_new].
  - intros ρ b. rewrite lookup_insert_Some. cbn. intros [[<- <-]|[_ Hb]]; eauto.
  - intros ρ. destruct (decide (ρ = π ++ [d])) as [->|Hne].
    + intros _. rewrite length_app. cbn. lia.
    + rewrite lookup_insert_ne by done. eauto.
  - cbn. eapply chain_frame; [|done]. intros b Hb.
    rewrite lookup_alter_ne, lookup_insert_ne; [done| |]; intros ->; [done|].
    by apply (proj2 (wf_free0 _ Hb) π).
  - done.
  - intros b Hb. destruct (wf_free0 b Hb) as [H1 H2]. split; [done|]. intros ρ.
    rewrite lookup_insert_Some. intros [[_ ->]|[_ E]]; [done|]. by apply H2 in E.
Qed.

End Link.

(** *** A leaf less *)

(** The leaf [a], the child [d] of [b], moves to the list of free nodes. *)
Definition cut (t : tree) (b : nat) (d : bool) (a : nat) : tree :=
  let t1 := set_child b d None t in set_free (Some a) (set_child a true (free t1) t1).

Section Cut.
Variables (t : tree) (σ : gmap (list bool) nat) (F : list nat) (π : list bool).
Variables (a b : nat) (d : bool).
Hypothesis HW : wf N t σ F.
Hypothesis Hb : σ !! π = Some b.
Hypothesis Ha : σ !! (π ++ [d]) = Some a.
Hypothesis Hl : forall e, σ !! ((π ++ [d]) ++ [e]) = None.

Lemma cut_neq : a <> b.
Proof. intros ->. pose proof (wf_inj _ _ _ _ HW _ _ _ Ha Hb) as E. by apply snoc_neq in E. Qed.

Lemma cut_heap x : x <> a -> heap (cut t b d a) !! x =
  if decide (x = b) then with_child d None <$> heap t !! x else heap t !! x.
Proof.
  intros Hx. cbn. rewrite lookup_alter_ne by done. case_decide as E; [subst x|].
  - by rewrite lookup_alter_eq.
  - by rewrite lookup_alter_ne.
Qed.

Lemma cut_lookup ρ x : delete (π ++ [d]) σ !! ρ = Some x -> σ !! ρ = Some x /\ x <> a.
Proof.
  rewrite lookup_delete_Some. intros [Hne Hx]. split; [done|]. intros ->.
  by pose proof (wf_inj _ _ _ _ HW _ _ _ Ha Hx).
Qed.

Lemma cut_node ρ x : delete (π ++ [d]) σ !! ρ = Some x ->
  exists nd, heap (cut t b d a) !! x = Some nd /\ node_ok (delete (π ++ [d]) σ) ρ nd.
Proof.
  intros [Hx Hxa]%cut_lookup. rewrite cut_heap by done.
  destruct (wf_node _ _ _ _ HW ρ x Hx) as (nd & Hn & H1 & H2 & H3 & H4). rewrite Hn.
  assert (HP : forall ρ' e, ρ = ρ' ++ [e] -> parent nd = delete (π ++ [d]) σ !! ρ').
  { intros ρ' e ->. rewrite lookup_delete_ne; [eauto|]. intros <-. by rewrite Hl in Hx. }
  case_decide as E.
  - subst x. assert (ρ = π) as -> by (by apply (wf_inj _ _ _ _ HW) with b). eexists. split; [done|].
    assert (Hne : forall e, e <> d -> delete (π ++ [d]) σ !! (π ++ [e]) = σ !! (π ++ [e])).
    { intros e He. apply lookup_delete_ne. intros [_ E]%app_inj_tail. done. }
    destruct d; cbn; repeat split; try done; by rewrite ?lookup_delete_eq, ?Hne.
  - eexists. split; [done|].
    assert (Hne : forall e, delete (π ++ [d]) σ !! (ρ ++ [e]) = σ !! (ρ ++ [e])).
    { intros e. apply lookup_delete_ne. intros [-> _]%app_inj_tail. by simplify_eq. }
    repeat split; try done; by rewrite Hne.
Qed.

Lemma cut_chain : chain (heap (cut t b d a)) (Some a) (a :: F).
Proof.
  pose proof HW as []. pose proof cut_neq. split; [done|]. cbn.
  destruct (wf_node0 _ a Ha) as (nd & Hn & _).
  rewrite lookup_alter_eq, lookup_alter_ne, Hn by done. eexists. split; [done|]. cbn.
  eapply chain_frame; [|done]. intros x Hx. rewrite !lookup_alter_ne; [done|..]; intros ->.
  - by apply (proj2 (wf_free0 _ Hx) π).
  - by apply (proj2 (wf_free0 _ Hx) (π ++ [d])).
Qed.

Lemma cut_vals ρ : vals (cut t b d a) (delete (π ++ [d]) σ) ρ =
  if decide (ρ = π ++ [d]) then None else vals t σ ρ.
Proof.
  unfold vals. case_decide as E; [subst ρ; by rewrite lookup_delete_eq|].
  rewrite lookup_delete_ne by done. destruct (σ !! ρ) as [x|] eqn:Ex; [|done].
  assert (x <> a) by (intros ->; by pose proof (wf_inj _ _ _ _ HW _ _ _ Ex Ha)).
  unfold value_of. rewrite cut_heap by done.
  destruct (wf_node _ _ _ _ HW ρ x Ex) as (nd & -> & _). case_decide; [|done]. by destruct d.
Qed.

Lemma cut_wf : wf N (cut t b d a) (delete (π ++ [d]) σ) (a :: F).
Proof.
  pose proof HW as []. split.
  - rewrite lookup_delete_ne; [done|]. by destruct π.
  - intros π1 π2 x [H1 _]%cut_lookup [H2 _]%cut_lookup. eauto.
  - intros ρ e [x Hx]. pose proof Hx as [Hx' _]%cut_lookup. destruct (decide (ρ = π ++ [d])) as [->|Hne].
    + by rewrite Hl in Hx'.
    + rewrite lookup_delete_ne by done. apply (wf_closed0 ρ e). by eexists.
  - apply cut_node.
  - intros ρ x [Hx _]%cut_lookup. eauto.
  - intros ρ [x [Hx _]%cut_lookup]. apply wf_depth0. by eexists.
  - apply cut_chain.
  - constructor; [|done]. intros Hf. by apply (proj2 (wf_free0 _ Hf) (π ++ [d])).
  - intros x Hx. apply elem_of_cons in Hx as [->|Hx].
    + split; [eauto|]. by intros ρ [_ Hx]%cut_lookup.
    + destruct (wf_free0 x Hx) as [G1 G2]. split; [done|]. intros ρ [Hx' _]%cut_lookup. by apply G2 in Hx'.
Qed.

End Cut.

Lemma leaf_children t σ F π a : wf N t σ F -> σ !! π = Some a ->
  is_leaf (heap t) a = true <-> forall e, σ !! (π ++ [e]) = None.
Proof.
  intros HW Ha. unfold is_leaf. rewrite !(wf_child _ _ _ _ _ _ HW Ha).
  split; [|by intros H; rewrite !H].
  intros H e. destruct (σ !! (π ++ [true])) eqn:E1, (σ !! (π ++ [false])) eqn:E2; try done. by destruct e.
Qed.

Lemma trim_wf fuel : forall t σ F π d a, wf N t σ F -> σ !! (π ++ [d]) = Some a ->
  is_leaf (heap t) a = true -> (length π < fuel)%nat ->
  exists t' σ' F', trim fuel t a = Returns NGX_OK t' /\ wf N t' σ' F' /\
    forall ρ, vals t' σ' ρ = if decide (ρ = π ++ [d]) then None else vals t σ ρ.
Proof.
  induction fuel as [|fuel IH]; intros t σ F π d a HW Ha Hl Hf; [lia|]. cbn [trim].
  destruct (wf_closed _ _ _ _ HW π d ltac:(by eexists)) as [b Hb].
  rewrite (wf_parent _ _ _ _ _ _ HW Ha), Hb.
  assert (HC : (if decide (child (heap t) true b = Some a)
                then set_child b true None t else set_child b false None t) = set_child b d None t).
  { rewrite (wf_child _ _ _ _ _ _ HW Hb). case_decide as E.
    - pose proof (wf_inj _ _ _ _ HW _ _ _ E Ha) as [_ ->]%app_inj_tail. done.
    - destruct d; [|done]. by rewrite Ha in E. }
  rewrite HC. cbv zeta. fold (cut t b d a).
  assert (Hc : forall e, σ !! ((π ++ [d]) ++ [e]) = None) by (by apply (leaf_children t σ F _ a)).
  pose proof (cut_wf t σ F π a b d HW Hb Ha Hc) as HW'.
  pose proof (cut_vals t σ F π a b d HW Ha Hc) as HV.
  set (σ' := delete (π ++ [d]) σ) in *.
  assert (Hb' : σ' !! π = Some b) by (unfold σ'; rewrite lookup_delete_ne by apply snoc_neq; done).
  assert (HD : exists t' σ' F', Returns NGX_OK (cut t b d a) = Returns NGX_OK t' /\ wf N t' σ' F' /\
    forall ρ, vals t' σ' ρ = if decide (ρ = π ++ [d]) then None else vals t σ ρ) by eauto 6.
  destruct (is_leaf (heap (cut t b d a)) b) eqn:El; [|done]. cbn [negb].
  destruct (value_of (heap (cut t b d a)) b =? NGX_RADIX_NO_VALUE) eqn:Ev; [|done]. cbn [negb].
  destruct (parent_of (heap (cut t b d a)) b) as [g|] eqn:Eg; [|done].
  clear HC HD. clearbody σ'. destruct π as [|e π' _] using rev_ind.
  - exfalso. pose proof (wf_root _ _ _ _ HW') as HR. rewrite Hb' in HR. injection HR as HR.
    pose proof (wf_parent_root _ _ _ HW') as HP. change (root (cut t b d a)) with (root t) in HP.
    rewrite <- HR, Eg in HP. done.
  - destruct (IH _ _ _ π' e b HW' Hb' El) as (t' & σ'' & F' & Et & HW'' & HV'').
    { rewrite length_app in Hf. cbn in Hf. lia. }
    exists t', σ'', F'. split; [done|]. split; [done|]. intros ρ. rewrite HV'', HV.
    case_decide as E; [|done]. subst ρ. case_decide; [done|].
    specialize (HV (π' ++ [e])). rewrite decide_False in HV by (intros E; symmetry in E; by apply snoc_neq in E).
    rewrite <- HV. unfold vals. by rewrite Hb', Ev.
Qed.

(** *** The loops

    [spells c ρ]: from the cursor [c] on, the key has the bits [ρ] up to the
    first one that the mask does not have. *)

Section Spelling.
Context {C : Type}.
Variables (more : C -> bool) (dir : C -> bool) (next : C -> C).

Inductive spells : C -> list bool -> Prop :=
  | spells_end c : more c = false -> spells c []
  | spells_bit c ρ : more c = true -> spells (next c) ρ -> spells c (dir c :: ρ).

Lemma cons_snoc (π : list bool) d ρ : π ++ d :: ρ = (π ++ [d]) ++ ρ.
Proof. by rewrite <- app_assoc. Qed.

Lemma descend_spec t σ F c ρ : wf N t σ F -> spells c ρ ->
  forall fuel π a, σ !! π = Some a -> (length ρ < fuel)%nat ->
  (exists c' b, descend more dir next fuel (heap t) c a = Some (c', b, true) /\
     σ !! (π ++ ρ) = Some b) \/
  (exists c' b ρ1 d ρ2, descend more dir next fuel (heap t) c a = Some (c', b, false) /\
     ρ = ρ1 ++ d :: ρ2 /\ spells c' (d :: ρ2) /\
     σ !! (π ++ ρ1) = Some b /\ σ !! ((π ++ ρ1) ++ [d]) = None).
Proof.
  intros HW HS. induction HS as [c Hm|c ρ Hm HS IH]; intros fuel π a Ha Hf;
    (destruct fuel as [|fuel]; [cbn in Hf; lia|]); cbn [descend]; rewrite Hm.
  - left. exists c, a. by rewrite app_nil_r.
  - rewrite (wf_child _ _ _ _ _ _ HW Ha). destruct (σ !! (π ++ [dir c])) as [b|] eqn:Eb.
    + rewrite cons_snoc. destruct (IH fuel (π ++ [dir c]) b Eb ltac:(cbn in Hf; lia))
        as [H|(c' & b' & ρ1 & d & ρ2 & H1 & -> & H3 & H4 & H5)]; [by left|].
      right. exists c', b', (dir c :: ρ1), d, ρ2. split; [done|]. split; [done|]. split; [done|].
      rewrite (cons_snoc π (dir c) ρ1). done.
    + right. exists c, a, [], (dir c), ρ. rewrite app_nil_r. do 2 (split; [done|]).
      split; [by constructor|]. done.
Qed.

(** What an insertion or a deletion may do to the values. *)
Definition updated (t : tree) (σ : gmap (list bool) nat) (π : list bool) (o : option Z)
    (t' : tree) (σ' : gmap (list bool) nat) : Prop :=
  forall ρ, vals t' σ' ρ = if decide (ρ = π) then o else vals t σ ρ.

Definition same_values (t : tree) (σ : gmap (list bool) nat) (t' : tree)
    (σ' : gmap (list bool) nat) : Prop := forall ρ, vals t' σ' ρ = vals t σ ρ.

(** No node can be allocated. *)
Definition no_memory (t : tree) : Prop := ngx_radix_alloc ngx_pagesize t = None.

Definition as_value (v : Z) : option Z := if v =? NGX_RADIX_NO_VALUE then None else Some v.

Lemma grow_spec c ρ : spells c ρ ->
  forall fuel v t σ F π a, wf N t σ F -> σ !! π = Some a ->
  (forall d ρ', ρ = d :: ρ' -> σ !! (π ++ [d]) = None) ->
  (length π + length ρ <= N)%nat -> (length ρ < fuel)%nat ->
  exists rc t' σ' F', grow ngx_pagesize more dir next fuel v t c a = Returns rc t' /\
    wf N t' σ' F' /\
    ((rc = NGX_OK /\ updated t σ (π ++ ρ) (as_value v) t' σ') \/
     (rc = NGX_ERROR /\ no_memory t' /\ same_values t σ t' σ')).
Proof.
  intros HS. induction HS as [c Hm|c ρ Hm HS IH]; intros fuel v t σ F π a HW Ha Hn HN Hf;
    (destruct fuel as [|fuel]; [cbn in Hf; lia|]); cbn [grow]; rewrite Hm.
  - destruct (set_value_wf t σ F π a v HW Ha) as [HW' HV].
    exists NGX_OK, (set_value a v t), σ, F. rewrite app_nil_r. split; [done|]. split; [done|]. by left.
  - destruct (ngx_radix_alloc ngx_pagesize t) as [[p t1]|] eqn:EA.
    + destruct (alloc_wf _ _ _ _ _ HW EA) as (F1 & HW1 & Hh & Hp & HpF & Hpσ).
      pose proof (link_wf t1 σ F1 π a (dir c) p HW1 Hp HpF Hpσ Ha (Hn _ _ eq_refl)
                    ltac:(cbn in HN; lia)) as HW2.
      pose proof (link_vals t1 σ F1 π a (dir c) p HW1 Hpσ Ha (Hn _ _ eq_refl)) as HV.
      destruct (IH fuel v _ _ _ (π ++ [dir c]) p HW2) as (rc & t' & σ' & F' & E & HW' & HR).
      * apply lookup_insert_eq.
      * intros d ρ' ->. destruct (<[_ := _]> σ !! _) as [x|] eqn:Ex; [|done]. exfalso.
        rewrite lookup_insert_ne in Ex by (intros E; symmetry in E; by apply snoc_neq in E).
        destruct (wf_closed _ _ _ _ HW1 (π ++ [dir c]) d) as [y Hy]; [rewrite Ex; by eexists|].
        by rewrite (Hn _ _ eq_refl) in Hy.
      * rewrite length_app. cbn in *. lia.
      * cbn in Hf. lia.
      * assert (HV1 : forall ξ, vals t1 σ ξ = vals t σ ξ) by (intros ξ; unfold vals; by rewrite Hh).
        exists rc, t', σ', F'. split; [exact E|]. split; [done|]. rewrite cons_snoc.
        destruct HR as [[-> HR]|(-> & HO & HR)]; [left|right]; (split; [done|]);
          [|split; [done|]]; intros ξ; rewrite HR, HV, HV1; done.
    + exists NGX_ERROR, t, σ, F. split; [done|]. split; [done|]. by right.
Qed.

Lemma insert_at_spec t σ F c ρ fuel v : wf N t σ F -> spells c ρ ->
  (length ρ <= N)%nat -> (length ρ < fuel)%nat ->
  exists rc t' σ' F', insert_at ngx_pagesize more dir next fuel t c v = Returns rc t' /\
    wf N t' σ' F' /\
    ((rc = NGX_BUSY /\ is_Some (vals t σ ρ) /\ same_values t σ t' σ') \/
     (rc = NGX_OK /\ vals t σ ρ = None /\ updated t σ ρ (as_value v) t' σ') \/
     (rc = NGX_ERROR /\ no_memory t' /\ vals t σ ρ = None /\ same_values t σ t' σ')).
Proof.
  intros HW HS HN Hf. unfold insert_at.
  destruct (descend_spec t σ F c ρ HW HS fuel [] (root t) (wf_root _ _ _ _ HW) Hf)
    as [(c' & b & -> & Hb)|(c' & b & ρ1 & d & ρ2 & -> & -> & HS' & Hb & Hd)]; cbn [app] in *.
  - assert (HV : vals t σ ρ = as_value (value_of (heap t) b)) by (unfold vals; by rewrite Hb).
    unfold as_value in *. destruct (value_of (heap t) b =? NGX_RADIX_NO_VALUE); cbn [negb].
    + destruct (set_value_wf t σ F ρ b v HW Hb) as [HW' HV'].
      exists NGX_OK, (set_value b v t), σ, F. split; [done|]. split; [done|]. right. left.
      split; [done|]. split; [done|exact HV'].
    + exists NGX_BUSY, t, σ, F. split; [done|]. split; [done|]. left. rewrite HV. by repeat eexists.
  - destruct (grow_spec c' (d :: ρ2) HS' fuel v t σ F ρ1 b HW Hb) as (rc & t' & σ' & F' & E & HW' & HR).
    + intros e ρ' [= <- <-]. done.
    + rewrite length_app in HN. cbn in *. lia.
    + rewrite length_app in Hf. cbn in *. lia.
    + exists rc, t', σ', F'. split; [done|]. split; [done|]. right.
      assert (HV : vals t σ (ρ1 ++ d :: ρ2) = None).
      { unfold vals. destruct (σ !! (ρ1 ++ d :: ρ2)) as [x|] eqn:Ex; [|done]. exfalso.
        rewrite cons_snoc in Ex. eapply (prefix_missing _ _ _ _ _ HW Hd). rewrite Ex. by eexists. }
      destruct HR as [[-> HR]|(-> & HO & HR)]; [left|right]; auto.
Qed.

Lemma walk_spec t σ F c ρ : wf N t σ F -> spells c ρ ->
  forall fuel π, (length ρ + 1 < fuel)%nat ->
  walk more dir next fuel (heap t) c (σ !! π) = Some (σ !! (π ++ ρ)).
Proof.
  intros HW HS. induction HS as [c Hm|c ρ Hm HS IH]; intros fuel π Hf;
    (destruct fuel as [|fuel]; [cbn in Hf; lia|]); cbn [walk].
  - rewrite app_nil_r. destruct (σ !! π); [by rewrite Hm|done].
  - destruct (σ !! π) as [a|] eqn:Ea.
    + rewrite Hm, (wf_child _ _ _ _ _ _ HW Ea), IH by (cbn in Hf; lia). by rewrite <- cons_snoc.
    + destruct (σ !! (π ++ dir c :: ρ)) as [x|] eqn:Ex; [|done]. exfalso.
      eapply (prefix_missing _ _ _ _ _ HW Ea). rewrite Ex. by eexists.
Qed.

(** A root without children is not to be deleted: it has no parent. *)
Definition lone_root (σ : gmap (list bool) nat) : Prop := forall e : bool, σ !! [e] = None.

Lemma delete_at_spec t σ F c ρ fuel : wf N t σ F -> spells c ρ -> (length ρ + 1 < fuel)%nat ->
  (ρ = [] /\ lone_root σ /\ delete_at more dir next fuel t c = Null_dereference) \/
  (~ (ρ = [] /\ lone_root σ) /\
   exists rc t' σ' F', delete_at more dir next fuel t c = Returns rc t' /\ wf N t' σ' F' /\
    ((rc = NGX_OK /\ updated t σ ρ None t' σ') \/
     (rc = NGX_ERROR /\ vals t σ ρ = None /\ same_values t σ t' σ'))).
Proof.
  intros HW HS Hf. unfold delete_at. rewrite <- (wf_root _ _ _ _ HW).
  rewrite (walk_spec t σ F c ρ HW HS) by done. cbn [app].
  destruct (σ !! ρ) as [a|] eqn:Ea.
  2: { right. split; [intros [-> _]; by rewrite (wf_root _ _ _ _ HW) in Ea|].
       exists NGX_ERROR, t, σ, F. do 2 (split; [done|]). right. split; [done|]. split; [|done].
       unfold vals. by rewrite Ea. }
  pose proof (leaf_children t σ F ρ a HW Ea) as HL.
  destruct (is_leaf (heap t) a) eqn:El; cbn [negb].
  - destruct ρ as [|d ρ _] using rev_ind.
    + left. split; [done|]. split; [intros e; by apply HL|]. destruct fuel; [lia|]. cbn [trim].
      rewrite (wf_root _ _ _ _ HW) in Ea. simplify_eq. by rewrite (wf_parent_root _ _ _ HW).
    + right. split; [by intros [[_ [=]]%app_nil _]|].
      destruct (trim_wf fuel t σ F ρ d a HW Ea El) as (t' & σ' & F' & E & HW' & HV).
      { rewrite length_app in Hf. cbn in Hf. lia. }
      exists NGX_OK, t', σ', F'. split; [done|]. split; [done|]. by left.
  - right. split.
    { intros [-> Hl]. enough (false = true) by done. apply HL. intros e. apply Hl. }
    assert (HV : vals t σ ρ = as_value (value_of (heap t) a)) by (unfold vals; by rewrite Ea).
    unfold as_value in HV. destruct (value_of (heap t) a =? NGX_RADIX_NO_VALUE) eqn:Ev; cbn [negb].
    + exists NGX_ERROR, t, σ, F. do 2 (split; [done|]). by right.
    + destruct (set_value_wf t σ F ρ a NGX_RADIX_NO_VALUE HW Ea) as [HW' HV'].
      exists NGX_OK, (set_value a NGX_RADIX_NO_VALUE t), σ, F. do 2 (split; [done|]). left.
      split; [done|]. intros ξ. rewrite HV', Z.eqb_refl. done.
Qed.

End Spelling.

(** *** Lookups *)

Section Reading.
Context {C : Type}.
Variables (read : C -> option bool) (next : C -> C).

(** The bits of the key from a cursor on. *)
Fixpoint reads (c : C) (κ : list bool) : Prop :=
  match κ with
  | [] => True
  | d :: κ' => read c = Some d /\ reads (next c) κ'
  end.

(** The last value met on the way. *)
Fixpoint last_value (t : tree) (σ : gmap (list bool) nat) (π κ : list bool) (v : Z) : Z :=
  let v' := default v (vals t σ π) in
  match κ with
  | [] => v'
  | d :: κ' => last_value t σ (π ++ [d]) κ' v'
  end.

Lemma last_value_missing t σ F κ : forall π v, wf N t σ F -> σ !! π = None ->
  last_value t σ π κ v = v.
Proof.
  induction κ as [|d κ IH]; intros π v HW Hn; cbn; unfold vals at 1; rewrite Hn; [done|].
  apply IH; [done|]. destruct (σ !! (π ++ [d])) as [x|] eqn:Ex; [|done]. exfalso.
  eapply (prefix_missing _ _ _ _ _ HW Hn). rewrite Ex. by eexists.
Qed.

Lemma find_loop_spec t σ F κ : wf N t σ F ->
  forall fuel c π v, reads c κ -> (N < length π + length κ)%nat -> (length κ < fuel)%nat ->
  find_loop read next fuel (heap t) c (σ !! π) v = Some (last_value t σ π κ v).
Proof.
  intros HW. induction κ as [|d κ IH]; intros fuel c π v HR HN Hf;
    (destruct fuel as [|fuel]; [cbn in Hf; lia|]); cbn [find_loop];
    (destruct (σ !! π) as [a|] eqn:Ea; [|by erewrite last_value_missing]).
  - pose proof (wf_depth _ _ _ _ HW π ltac:(rewrite Ea; by eexists)). cbn in HN. lia.
  - destruct HR as [-> HR]. rewrite (wf_child _ _ _ _ _ _ HW Ea), IH; [|done|rewrite length_app; cbn in *; lia|cbn in Hf; lia].
    cbn [last_value]. do 2 f_equal. unfold vals. rewrite Ea. by destruct (_ =? _).
Qed.

End Reading.

(** *** Maps of prefixes: the specification *)

Definition represents (t : tree) (m : gmap (list bool) Z) : Prop :=
  exists σ F, wf N t σ F /\ forall π, m !! π = vals t σ π.

(** [v] is the value of the longest prefix of [κ] in the map. *)
Definition longest_match (m : gmap (list bool) Z) (κ : list bool) (v : Z) : Prop :=
  (exists π, π `prefix_of` κ /\ m !! π = Some v /\
     forall ρ, ρ `prefix_of` κ -> is_Some (m !! ρ) -> (length ρ <= length π)%nat) \/
  (v = NGX_RADIX_NO_VALUE /\ forall ρ, ρ `prefix_of` κ -> m !! ρ = None).

Lemma last_value_match t σ κ : forall π v,
  (exists ρ, ρ `prefix_of` κ /\ vals t σ (π ++ ρ) = Some (last_value t σ π κ v) /\
     forall ξ, ξ `prefix_of` κ -> is_Some (vals t σ (π ++ ξ)) -> (length ξ <= length ρ)%nat) \/
  (last_value t σ π κ v = v /\ forall ξ, ξ `prefix_of` κ -> vals t σ (π ++ ξ) = None).
Proof.
  induction κ as [|d κ IH]; intros π v; cbn [last_value].
  - destruct (vals t σ π) as [w|] eqn:E; cbn [default]; [left; exists []|right; split; [done|]];
      [split; [done|]; rewrite app_nil_r; split; [done|]|]; intros ξ ->%prefix_nil_inv; [done|].
    by rewrite app_nil_r.
  - destruct (IH (π ++ [d]) (default v (vals t σ π))) as [(ρ & Hρ & HV & HM)|[HV HN]].
    + left. exists (d :: ρ). rewrite cons_snoc. split; [by apply prefix_cons|]. split; [done|].
      intros [|e ξ] Hξ Hs; cbn; [lia|].
      pose proof (prefix_cons_inv_1 _ _ _ _ Hξ) as ->. apply prefix_cons_inv_2 in Hξ.
      rewrite cons_snoc in Hs. specialize (HM ξ Hξ Hs). lia.
    + assert (HD : forall e ξ, (e :: ξ) `prefix_of` (d :: κ) -> vals t σ (π ++ e :: ξ) = None).
      { intros e ξ Hξ. pose proof (prefix_cons_inv_1 _ _ _ _ Hξ) as ->. apply prefix_cons_inv_2 in Hξ.
        rewrite cons_snoc. auto. }
      rewrite HV. destruct (vals t σ π) as [w|] eqn:E; cbn [default].
      * left. exists []. split; [apply prefix_nil|]. rewrite app_nil_r. split; [done|].
        intros [|e ξ] Hξ Hs; [done|]. rewrite HD in Hs by done. by destruct Hs.
      * right. split; [done|]. intros [|e ξ] Hξ; [by rewrite app_nil_r|auto].
Qed.

(** The bit read past the end of the key does not matter. *)
Lemma longest_match_shorten m κ e v :
  (forall π, is_Some (m !! π) -> (length π <= length κ)%nat) ->
  longest_match m (κ ++ [e]) v -> longest_match m κ v.
Proof.
  intros HL. assert (HP : forall ρ, ρ `prefix_of` κ -> ρ `prefix_of` κ ++ [e]).
  { intros ρ Hρ. by apply prefix_app_r. }
  intros [(π & Hπ & HV & HM)|[-> HN]]; [left|right; auto].
  exists π. split; [|auto]. destruct Hπ as [k Hk].
  destruct k as [|x k _] using rev_ind.
  - rewrite app_nil_r in Hk. specialize (HL π ltac:(rewrite HV; by eexists)).
    rewrite <- Hk, length_app in HL. cbn in HL. lia.
  - rewrite app_assoc in Hk. apply app_inj_tail in Hk as [-> _]. by exists k.
Qed.

Lemma find_loop_match {C} (read : C -> option bool) next t m fuel c κ e :
  represents t m -> reads read next c (κ ++ [e]) -> length κ = N -> (S N < fuel)%nat ->
  exists v, find_loop read next fuel (heap t) c (Some (root t)) NGX_RADIX_NO_VALUE = Some v /\
    longest_match m κ v.
Proof.
  intros (σ & F & HW & HV) HR HL Hf. rewrite <- (wf_root _ _ _ _ HW).
  rewrite (find_loop_spec _ _ t σ F (κ ++ [e]) HW) by (done || rewrite length_app; cbn; lia).
  eexists. split; [done|]. apply (longest_match_shorten m κ e).
  { intros π Hs. rewrite HV in Hs. rewrite HL. apply (wf_depth _ _ _ _ HW).
    unfold vals in Hs. destruct (σ !! π); [by eexists|by destruct Hs]. }
  destruct (last_value_match t σ (κ ++ [e]) [] NGX_RADIX_NO_VALUE) as [(ρ & Hρ & Hv & HM)|[-> HN]];
    cbn [app] in *; [left|right].
  - exists ρ. rewrite HV. split; [done|]. split; [done|]. intros ξ. rewrite HV. auto.
  - split; [done|]. intros ξ. rewrite HV. auto.
Qed.

End Invariant.

(** ** The cursors *)

(** The [n] low bits of a word, highest first. *)
Fixpoint bits_of (n : nat) (w : Z) : list bool :=
  match n with
  | O => []
  | S n' => Z.testbit w (Z.of_nat n') :: bits_of n' w
  end.

(** The bytes of a key from the [i]th on. *)
Fixpoint bytes_from (w : list Z) (i n : nat) : list bool :=
  match n with
  | O => []
  | S n' => bits_of 8 (byte_at w i) ++ bytes_from w (S i) n'
  end.

(** The bits of the key under the leading ones of the mask. *)
Fixpoint masked (mask key : list bool) : list bool :=
  match mask, key with
  | true :: mask', b :: key' => b :: masked mask' key'
  | _, _ => []
  end.

Definition bits32 (w : Z) : list bool := bits_of 32 w.
Definition bits128 (w : list Z) : list bool := bytes_from w 0 16.

Lemma masked_length mask key : (length (masked mask key) <= length mask)%nat.
Proof.
  revert key. induction mask as [|[] mask IH]; intros [|b key]; cbn; try lia. specialize (IH key). lia.
Qed.

Lemma bits_of_length n w : length (bits_of n w) = n.
Proof. induction n as [|n IH]; cbn; [done|by rewrite IH]. Qed.

Lemma bytes_from_length w i n : length (bytes_from w i n) = (8 * n)%nat.
Proof. revert i. induction n as [|n IH]; intros i; cbn; [done|]. rewrite IH. lia. Qed.

Lemma has_bit w k : 0 <= k -> negb (Z.land w (2 ^ k) =? 0) = Z.testbit w k.
Proof. intros Hk. rewrite <- Z.shiftl_1_l. by apply land_bit. Qed.

Definition bit (n : nat) : Z := match n with O => 0 | S k => 2 ^ Z.of_nat k end.

Lemma next_bit n : Z.shiftr (bit (S n)) 1 = bit n.
Proof.
  unfold bit. rewrite Z.shiftr_div_pow2 by lia. change (2 ^ 1) with 2. destruct n as [|n]; [done|].
  rewrite Nat2Z.inj_succ, Z.pow_succ_r, Z.mul_comm, Z.div_mul by lia. done.
Qed.

Lemma has_bit_S w n : negb (Z.land w (bit (S n)) =? 0) = Z.testbit w (Z.of_nat n).
Proof. apply has_bit. lia. Qed.

Lemma spells32 mask key n :
  spells (has32 mask) (has32 key) next32 (bit n) (masked (bits_of n mask) (bits_of n key)).
Proof.
  induction n as [|n IH]; cbn [bits_of masked].
  - apply spells_end. unfold has32, bit. by rewrite Z.land_0_r.
  - destruct (Z.testbit mask (Z.of_nat n)) eqn:E.
    + replace (Z.testbit key (Z.of_nat n)) with (has32 key (bit (S n))) by apply has_bit_S.
      apply spells_bit; [unfold has32; by rewrite has_bit_S|].
      unfold next32. by rewrite next_bit.
    + apply spells_end. unfold has32. by rewrite has_bit_S.
Qed.

Lemma reads32 key n :
  reads (fun c => Some (has32 key c)) next32 (bit n) (bits_of n key ++ [false]).
Proof.
  induction n as [|n IH]; cbn [bits_of app reads].
  - unfold has32, bit. by rewrite Z.land_0_r.
  - unfold has32 at 1. rewrite has_bit_S. split; [done|].
    change (next32 (bit (S n))) with (Z.shiftr (bit (S n)) 1). by rewrite next_bit.
Qed.

Lemma next128_S i n : next128 (i, bit (S (S n))) = (i, bit (S n)).
Proof.
  unfold next128. cbn [fst snd]. rewrite next_bit.
  replace (bit (S n) =? 0) with false; [done|]. unfold bit. symmetry. apply Z.eqb_neq.
  apply Z.pow_nonzero; lia.
Qed.

Lemma next128_0 i : next128 (i, bit 1) = (S i, bit 8).
Proof. done. Qed.

Lemma spells128 mask key n : forall i j, (i + S n)%nat = 16%nat ->
  spells (more128 mask) (has128 key) next128 (i, bit (S j))
    (masked (bits_of (S j) (byte_at mask i) ++ bytes_from mask (S i) n)
            (bits_of (S j) (byte_at key i) ++ bytes_from key (S i) n)).
Proof.
  induction n as [|n IHn]; intros i j Hi; induction j as [|j IHj]; cbn [bits_of app masked].
  all: assert (HM : forall j, more128 mask (i, bit (S j)) = Z.testbit (byte_at mask i) (Z.of_nat j))
    by (intros k; unfold more128, has128; cbn [fst snd]; rewrite has_bit_S;
        by replace (i <? 16)%nat with true by lia).
  all: assert (HK : forall j, Z.testbit (byte_at key i) (Z.of_nat j) = has128 key (i, bit (S j)))
    by (intros k; unfold has128; cbn [fst snd]; by rewrite has_bit_S).
  all: match goal with |- context [if Z.testbit ?w ?k then _ else _] =>
         destruct (Z.testbit w k) eqn:E; [|by apply spells_end; rewrite HM] end.
  all: rewrite HK; apply spells_bit; [by rewrite HM|]; rewrite ?next128_S, ?next128_0.
  - apply spells_end. unfold more128. cbn [fst]. by replace (S i <? 16)%nat with false by lia.
  - apply IHj.
  - apply IHn. lia.
  - apply IHj.
Qed.

Lemma reads128 key e n : (16 < length key)%nat -> e = Z.testbit (byte_at key 16) 7 ->
  forall i j, (i + S n)%nat = 16%nat ->
  reads (fun c => if (c.1 <? length key)%nat then Some (has128 key c) else None) next128
    (i, bit (S j)) ((bits_of (S j) (byte_at key i) ++ bytes_from key (S i) n) ++ [e]).
Proof.
  intros HL He.
  assert (HR : forall i j, (i <= 16)%nat ->
    (if ((i, bit (S j)).1 <? length key)%nat then Some (has128 key (i, bit (S j))) else None)
    = Some (Z.testbit (byte_at key i) (Z.of_nat j))).
  { intros i j Hi. cbn [fst]. replace (i <? length key)%nat with true by lia.
    unfold has128. cbn [fst snd]. by rewrite has_bit_S. }
  induction n as [|n IHn]; intros i j Hi; induction j as [|j IHj]; cbn [bits_of app reads];
    (split; [apply HR; lia|]); rewrite ?next128_S, ?next128_0; try apply IHj.
  - split; [|done]. replace (S i) with 16%nat by lia. rewrite He. apply HR. lia.
  - apply IHn. lia.
Qed.

(** ** Maps *)

Section Maps.
Context `{P : Platform}.
Variable ngx_pagesize : Z.

Definition prefix32 (key mask : Z) : list bool := masked (bits32 mask) (bits32 key).
Definition prefix128 (key mask : list Z) : list bool := masked (bits128 mask) (bits128 key).

(** What an insertion comes to, for a map that the tree stands for. *)
Definition insert_outcome (N : nat) (m : gmap (list bool) Z) (π : list bool) (v : Z)
    (o : outcome) : Prop :=
  exists rc t, o = Returns rc t /\
    match m !! π with
    | Some _ => rc = NGX_BUSY /\ represents N t m
    | None =>
        (rc = NGX_OK /\ represents N t (match as_value v with
                                        | Some v => <[π := v]> m | None => m end)) \/
        (rc = NGX_ERROR /\ no_memory ngx_pagesize t /\ represents N t m)
    end.

Lemma same_represents (N : nat) (t t' : tree) (σ σ' : gmap (list bool) nat) (F' : list nat) (m : gmap (list bool) Z) :
  (forall π : list bool, m !! π = vals t σ π) -> wf N t' σ' F' -> same_values t σ t' σ' -> represents N t' m.
Proof. intros Hm HW HS. exists σ', F'. split; [done|]. intros ρ. by rewrite HS. Qed.

Lemma insert_at_outcome {C} (more dir : C -> bool) next N fuel t m c π v :
  represents N t m -> spells more dir next c π -> (length π <= N)%nat -> (length π < fuel)%nat ->
  insert_outcome N m π v (insert_at ngx_pagesize more dir next fuel t c v).
Proof.
  intros (σ & F & HW & Hm) HS HN Hf.
  destruct (insert_at_spec ngx_pagesize N more dir next t σ F c π fuel v HW HS HN Hf)
    as (rc & t' & σ' & F' & -> & HW' & HR).
  exists rc, t'. split; [done|]. rewrite Hm.
  destruct HR as [(-> & [w ->] & HR)|[(-> & Hn & HR)|(-> & HO & -> & HR)]].
  - split; [done|]. by eapply same_represents.
  - rewrite Hn. left. split; [done|]. exists σ', F'. split; [done|]. intros ρ. rewrite HR.
    destruct (as_value v) as [w|]; case_decide as E; rewrite ?E; try done.
    + by rewrite lookup_insert_eq.
    + by rewrite lookup_insert_ne.
    + by rewrite Hm.
  - right. split; [done|]. split; [done|]. by eapply same_represents.
Qed.

Lemma insert32_outcome t m key mask v : represents 32 t m ->
  insert_outcome 32 m (prefix32 key mask) v
    (ngx_radix32tree_insert ngx_pagesize t key mask v).
Proof.
  intros HR. pose proof (masked_length (bits32 mask) (bits32 key)) as HL.
  unfold bits32 in HL at 3. rewrite bits_of_length in HL.
  apply insert_at_outcome; [done|apply (spells32 mask key 32)|done|unfold prefix32; lia].
Qed.

(** *** Creation *)

Definition empty_or_error (o : outcome) : Prop :=
  exists rc t, o = Returns rc t /\ ((rc = NGX_OK /\ represents 32 t ∅) \/ (rc = NGX_ERROR /\ no_memory ngx_pagesize t)).

(** [n] keys are left. *)
Lemma fill_empty n : forall t key mask inc, represents 32 t ∅ -> 0 < inc ->
  key = 4294967296 - Z.of_nat (S n) * inc -> 0 <= key ->
  empty_or_error (fill ngx_pagesize (S n) t key mask inc).
Proof.
  induction n as [|n IH]; intros t key mask inc HR Hi Hk H0; cbn [fill];
    destruct (insert32_outcome t ∅ key mask NGX_RADIX_NO_VALUE HR) as (rc & t' & -> & HO);
    rewrite lookup_empty in HO; unfold as_value in HO; rewrite Z.eqb_refl in HO;
    (destruct HO as [[-> HR']|(-> & HM & HR')]; cbn [negb]; change (NGX_OK =? NGX_OK) with true;
     change (NGX_ERROR =? NGX_OK) with false; cbv iota; [|by eexists _, _; eauto]).
  - replace (key + inc) with 4294967296 by lia. change (wrapu size4 4294967296 =? 0) with true.
    cbv iota. eexists _, _. eauto.
  - cbn [negb]. rewrite wrapu_uint32 by nia. replace (key + inc =? 0) with false by nia.
    apply IH; [done|done|lia|lia].
Qed.

Lemma preallocate_empty n : forall k t mask, represents 32 t ∅ -> (k + n <= 32)%nat ->
  empty_or_error (preallocate_loop ngx_pagesize n k t mask (bit (32 - k))).
Proof.
  induction n as [|n IH]; intros k t mask HR Hk; cbn [preallocate_loop]; [eexists _, _; eauto|].
  assert (Hp : (2 ^ S k)%nat <> 0%nat) by (apply Nat.pow_nonzero; lia).
  destruct (2 ^ S k)%nat as [|q] eqn:Eq; [done|].
  destruct (fill_empty q t 0 (Z.lor (Z.shiftr mask 1) 0x80000000) (bit (32 - k)) HR)
    as (rc & t' & -> & HO); [| |lia|].
  - unfold bit. replace (32 - k)%nat with (S (31 - k)) by lia. apply Z.pow_pos_nonneg; lia.
  - rewrite <- Eq, Nat2Z.inj_pow. unfold bit. replace (32 - k)%nat with (S (31 - k)) by lia.
    change (Z.of_nat 2) with 2. rewrite <- Z.pow_add_r by lia.
    replace (Z.of_nat (S k) + Z.of_nat (31 - k)) with 32 by lia. done.
  - destruct HO as [[-> HR']|[-> HM]]; cbn; [|eexists _, _; eauto].
    replace (32 - k)%nat with (S (32 - S k)) by lia. rewrite next_bit. apply IH; [done|lia].
Qed.

(** A tree of a root alone. *)
Lemma root_wf a n sz pg nd : nd = mk_node None None None NGX_RADIX_NO_VALUE -> (a < n)%nat ->
  represents 32 (mk_tree a None {[a := nd]} n sz pg) ∅.
Proof.
  intros -> Ha. exists {[ [] := a ]}, []. split.
  - split; cbn; try done.
    + intros π1 π2 b [<- _]%lookup_singleton_Some [<- _]%lookup_singleton_Some. done.
    + intros π d [b [E _]%lookup_singleton_Some]. by destruct π.
    + intros π b [<- <-]%lookup_singleton_Some. rewrite lookup_singleton_eq. eexists. split; [done|].
      repeat split; cbn; try done. intros π' e E. by destruct π'.
    + by intros π b [_ <-]%lookup_singleton_Some.
    + intros π [b [<- _]%lookup_singleton_Some]. cbn. lia.
    + constructor.
    + by intros b ?%not_elem_of_nil.
  - intros π. rewrite lookup_empty. unfold vals.
    destruct ({[ [] := a ]} !! π) as [b|] eqn:E; [|done].
    apply lookup_singleton_Some in E as [_ <-]. unfold value_of. cbn.
    rewrite lookup_singleton_eq. cbn. by rewrite Z.eqb_refl.
Qed.

Lemma create_empty pool_pages preallocate : -1 <= preallocate <= 32 ->
  empty_or_error (ngx_radix_tree_create ngx_pagesize pool_pages preallocate).
Proof.
  intros Hp. unfold ngx_radix_tree_create, ngx_radix_alloc. cbn [free size pages].
  assert (Hs : (0 <? node_size) = true) by (unfold node_size; by destruct ptr_size). rewrite Hs.
  destruct pool_pages as [|pg].
  { eexists _, _. split; [done|]. right. split; [done|].
    unfold no_memory, ngx_radix_alloc. cbn [free size pages]. by rewrite Hs. }
  cbn [used root heap].
  apply (preallocate_empty _ 0); [by apply root_wf; [|lia]|]. cbn. repeat split_if; lia.
Qed.

Lemma represents_deeper N N' t m : (N <= N')%nat -> represents N t m -> represents N' t m.
Proof.
  intros HN (σ & F & HW & HV). exists σ, F. split; [|done]. destruct HW. split; try done.
  intros π Hp. apply wf_depth0 in Hp. lia.
Qed.

(** *** Deletion *)

Definition delete_outcome (N : nat) (t : tree) (m : gmap (list bool) Z) (π : list bool)
    (o : outcome) : Prop :=
  if bool_decide (π = []) && is_leaf (heap t) (root t) then o = Null_dereference
  else exists rc t', o = Returns rc t' /\
    ((rc = NGX_OK /\ represents N t' (delete π m)) \/
     (rc = NGX_ERROR /\ m !! π = None /\ represents N t' m)).

Lemma delete_at_outcome {C} (more dir : C -> bool) next N fuel t m c π :
  represents N t m -> spells more dir next c π -> (length π + 1 < fuel)%nat ->
  delete_outcome N t m π (delete_at more dir next fuel t c).
Proof.
  intros (σ & F & HW & Hm) HS Hf. unfold delete_outcome.
  pose proof (leaf_children N t σ F [] (root t) HW (wf_root _ _ _ _ HW)) as HL. cbn [app] in HL.
  destruct (delete_at_spec N more dir next t σ F c π fuel HW HS Hf)
    as [(-> & Hl & ->)|(Hn & rc & t' & σ' & F' & -> & HW' & HR)].
  - rewrite (proj2 HL Hl). done.
  - replace (bool_decide (π = []) && is_leaf (heap t) (root t)) with false.
    2: { symmetry. apply andb_false_iff. destruct (is_leaf (heap t) (root t)) eqn:E; [|by right].
         left. apply bool_decide_eq_false. intros ->. apply Hn. split; [done|]. exact (proj1 HL eq_refl). }
    exists rc, t'. split; [done|]. destruct HR as [[-> HR]|(-> & Hv & HR)]; [left|right]; (split; [done|]).
    + exists σ', F'. split; [done|]. intros ρ. rewrite HR. case_decide as E.
      * subst ρ. apply lookup_delete_eq.
      * by rewrite lookup_delete_ne.
    + rewrite Hm. split; [done|]. by eapply same_represents.
Qed.

Lemma prefix32_length key mask : (length (prefix32 key mask) <= 32)%nat.
Proof.
  unfold prefix32, bits32. pose proof (masked_length (bits_of 32 mask) (bits_of 32 key)) as H.
  by rewrite bits_of_length in H.
Qed.

Lemma prefix128_length key mask : (length (prefix128 key mask) <= 128)%nat.
Proof.
  unfold prefix128, bits128. pose proof (masked_length (bytes_from mask 0 16) (bytes_from key 0 16)) as H.
  by rewrite bytes_from_length in H.
Qed.

Lemma spells_prefix32 key mask :
  spells (has32 mask) (has32 key) next32 0x80000000 (prefix32 key mask).
Proof. apply (spells32 mask key 32). Qed.

Lemma spells_prefix128 key mask :
  spells (more128 mask) (has128 key) next128 (0%nat, 0x80) (prefix128 key mask).
Proof. apply (spells128 mask key 15 0 7). done. Qed.

(** C12: a radix tree stands for a map from prefixes to values, and the
    operations on its nodes are the operations on the map, for IPv4 and for
    IPv6 addresses.  A new tree, preallocated or not, stands for the empty
    map; an insertion binds the prefix (the bits of the key under the leading
    ones of the mask), fails with NGX_BUSY when it is bound and with NGX_ERROR
    only when there is no memory, which leaves the map as it was; a deletion
    unbinds it, and fails with NGX_ERROR only when it was not bound.  The
    structure of the nodes, with parent pointers and the list of free nodes,
    remains sound.  A root without children is the exception: deleting the
    empty prefix there follows a NULL parent. *)
Theorem radix_updates_refine :
  (forall pool_pages preallocate, -1 <= preallocate <= 32 ->
     exists rc t, ngx_radix_tree_create ngx_pagesize pool_pages preallocate = Returns rc t /\
       ((rc = NGX_OK /\ represents 32 t ∅ /\ represents 128 t ∅) \/
        (rc = NGX_ERROR /\ no_memory ngx_pagesize t))) /\
  (forall t m key mask v, represents 32 t m ->
     insert_outcome 32 m (prefix32 key mask) v
       (ngx_radix32tree_insert ngx_pagesize t key mask v) /\
     delete_outcome 32 t m (prefix32 key mask) (ngx_radix32tree_delete t key mask)) /\
  (forall t m key mask v, represents 128 t m ->
     insert_outcome 128 m (prefix128 key mask) v
       (ngx_radix128tree_insert ngx_pagesize t key mask v) /\
     delete_outcome 128 t m (prefix128 key mask) (ngx_radix128tree_delete t key mask)).
Proof.
  split; [|split].
  - intros pool_pages preallocate Hp. destruct (create_empty pool_pages preallocate Hp)
      as (rc & t & -> & HO). exists rc, t. split; [done|].
    destruct HO as [[-> HR]|HO]; [left|by right].
    split; [done|]. split; [done|]. eapply represents_deeper; [|done]. lia.
  - intros t m key mask v HR. split; [by apply insert32_outcome|].
    apply delete_at_outcome; [done|apply spells_prefix32|]. pose proof (prefix32_length key mask). lia.
  - intros t m key mask v HR. pose proof (prefix128_length key mask).
    split; [apply insert_at_outcome|apply delete_at_outcome]; try done;
      try apply spells_prefix128; lia.
Qed.

(** C13: a lookup in a radix tree returns the value of the longest prefix of
    the address that the map binds, or NGX_RADIX_NO_VALUE when there is none;
    for IPv6 this needs one byte after the 16 of the address to be readable,
    whose value does not matter. *)
Theorem radix_find_longest t m :
  (represents 32 t m -> forall key, exists v,
     ngx_radix32tree_find t key = Some v /\ longest_match m (bits32 key) v) /\
  (represents 128 t m -> forall key, (16 < length key)%nat -> exists v,
     ngx_radix128tree_find t key = Some v /\ longest_match m (bits128 key) v).
Proof.
  split.
  - intros HR key. apply (find_loop_match 32 _ _ t m 34 _ (bits32 key) false HR);
      [apply (reads32 key 32)|apply bits_of_length|lia].
  - intros HR key HL. eapply (find_loop_match 128 _ _ t m 130 _ (bits128 key));
      [done|by apply (reads128 key _ 15 HL eq_refl 0 7)|apply bytes_from_length|lia].
Qed.

End Maps.

(** *** Examples *)

Definition sample_tree : tree := match sample with Some t => t | None => mk_tree 0 None ∅ 0 0 0 end.

(** The address ::1 and a tree with the prefix ::1/128. *)
Definition loopback : list Z := replicate 15 0 ++ [1].

Definition sample128 : tree :=
  match @ngx_radix_tree_create lp64 4096 10 0 with
  | Returns _ t =>
      match @ngx_radix128tree_insert lp64 4096 t loopback (replicate 16 255) 9 with
      | Returns _ t => t | _ => t
      end
  | _ => mk_tree 0 None ∅ 0 0 0
  end.

(** The lookup of an address that matches a prefix of 128 bits tests the byte
    after the address. *)
Example find128_reads_past_key :
  @ngx_radix128tree_find lp64 sample128 loopback = None /\
  @ngx_radix128tree_find lp64 sample128 (loopback ++ [255]) = Some 9.
Proof. split; vm_compute; reflexivity. Qed.

(** A tree without preallocated nodes: 0.0.0.0/0 is inserted, and deleting it
    follows the parent of the root. *)
Example delete_root_dereferences_null :
  match @ngx_radix_tree_create lp64 4096 1 0 with
  | Returns _ t =>
      match @ngx_radix32tree_insert lp64 4096 t 0 0 5 with
      | Returns rc t => rc = NGX_OK /\ @ngx_radix32tree_delete lp64 t 0 0 = Null_dereference
      | _ => False
      end
  | _ => False
  end.
Proof. vm_compute. split; reflexivity. Qed.

Lemma radix_updates_refine_witness :
  exists rc t, @ngx_radix_tree_create lp64 4096 10 6 = Returns rc t /\
    ((rc = NGX_OK /\ @represents lp64 32 t ∅ /\ @represents lp64 128 t ∅) \/
     (rc = NGX_ERROR /\ @no_memory lp64 4096 t)).
Proof. apply (proj1 (@radix_updates_refine lp64 4096)). lia. Defined.

Lemma radix_find_longest_witness :
  exists v, @ngx_radix32tree_find lp64
    (mk_tree 0 None {[0%nat := mk_node None None None (@NGX_RADIX_NO_VALUE lp64)]} 1 4064 9)
    0x0a000001 = Some v /\ @longest_match lp64 ∅ (bits32 0x0a000001) v.
Proof.
  apply (proj1 (@radix_find_longest lp64
    (mk_tree 0 None {[0%nat := mk_node None None None (@NGX_RADIX_NO_VALUE lp64)]} 1 4064 9) ∅)).
  apply (@root_wf lp64); [reflexivity|lia].
Defined.

End Radix.
