(* ===== verification/NgxState.v ===== *)
(** * Programs that read and write memory

    A computation on a state that may fail: it returns a value and the new
    state, or nothing when it dereferences a pointer to no object or exhausts
    its fuel.  The notations are those of stdpp's monads.  [wp m s Q] says
    that [m] run from [s] succeeds and ends in a value and a state that
    satisfy [Q]: a statement of total correctness. *)

From stdpp Require Import base option tactics gmap list.

Definition M (S A : Type) : Type := S -> option (A * S).

#[export] Instance M_ret (S : Type) : MRet (M S) := fun A x s => Some (x, s).
#[export] Instance M_bind (S : Type) : MBind (M S) :=
  fun A B f m s => match m s with Some (x, s') => f x s' | None => None end.
#[export] Instance M_fail (S : Type) : MFail (M S) := fun A _ s => None.

#[global] Typeclasses Opaque M.

Section Operations.
Context {S : Type}.

(** The state itself, and a change of it. *)
Definition gets {A} (f : S -> A) : M S A := fun s => Some (f s, s).
Definition modify (f : S -> S) : M S unit := fun s => Some (tt, f s).

(** A value of the state that must be there. *)
Definition gets_some {A} (f : S -> option A) : M S A :=
  fun s => match f s with Some x => Some (x, s) | None => None end.

Definition skip : M S unit := mret tt.

Definition when (P : Prop) `{Decision P} (m : M S unit) : M S unit :=
  if decide P then m else skip.

(** ** Total correctness *)

Definition wp {A} (m : M S A) (s : S) (Q : A -> S -> Prop) : Prop :=
  match m s with Some (x, s') => Q x s' | None => False end.

Lemma wp_ret {A} (x : A) s Q : Q x s -> wp (mret x) s Q.
Proof. done. Qed.

Lemma wp_skip s Q : Q tt s -> wp skip s Q.
Proof. done. Qed.

Lemma wp_gets {A} (f : S -> A) s Q : Q (f s) s -> wp (gets f) s Q.
Proof. done. Qed.

Lemma wp_modify f s Q : Q tt (f s) -> wp (modify f) s Q.
Proof. done. Qed.

Lemma wp_gets_some {A} (f : S -> option A) x s Q : f s = Some x -> Q x s -> wp (gets_some f) s Q.
Proof. unfold wp, gets_some. by intros ->. Qed.

Lemma wp_bind {A B} (f : A -> M S B) m s Q :
  wp m s (fun x s' => wp (f x) s' Q) -> wp (m ≫= f) s Q.
Proof. unfold wp, mbind, M_bind. by destruct (m s) as [[x s']|]. Qed.

Lemma wp_mono {A} (m : M S A) s (Q R : A -> S -> Prop) :
  wp m s Q -> (forall x s', Q x s' -> R x s') -> wp m s R.
Proof. unfold wp. destruct (m s) as [[x s']|]; auto. Qed.

Lemma wp_when P `{Decision P} m s Q :
  (P -> wp m s Q) -> (~ P -> Q tt s) -> wp (when P m) s Q.
Proof. unfold when. destruct (decide P); [auto|]. intros _ HQ. apply wp_skip, HQ; done. Qed.

Lemma wp_run {A} (m : M S A) s Q : wp m s Q -> exists x s', m s = Some (x, s') /\ Q x s'.
Proof. unfold wp. destruct (m s) as [[x s']|]; naive_solver. Qed.

End Operations.

(** Fixed steps of a symbolic execution. *)
Ltac wp_pure :=
  lazymatch goal with
  | |- wp (_ ≫= _) _ _ => apply wp_bind
  | |- wp (mret _) _ _ => apply wp_ret
  | |- wp skip _ _ => apply wp_skip
  | |- wp (gets _) _ _ => apply wp_gets
  | |- wp (modify _) _ _ => apply wp_modify
  end.

(** ** Objects without repetition in a finite memory *)

Lemma nodup_length_dom {A} (h : gmap nat A) (l : list nat) :
  NoDup l -> (forall a, a ∈ l -> is_Some (h !! a)) -> length l <= size h.
Proof.
  intros Hl Hin. rewrite <- size_dom, <- (size_list_to_set (C := gset nat) l Hl).
  apply subseteq_size. intros a Ha. apply elem_of_list_to_set in Ha.
  apply elem_of_dom. auto.
Qed.
