(* ===== verification/NgxRbtree.v ===== *)
(** * Red-black trees

    core/ngx_rbtree.c and core/ngx_rbtree.h: a red-black tree linked through
    the nodes that the objects embed, with pointers to parents and one
    sentinel in place of every missing child.  The memory is a finite map from
    addresses to nodes.  The representation predicate [holds] relates it to an
    inductive tree under a one-hole context; the operations are executed
    symbolically against it, the results being stated on the inorder list of
    the nodes.  The functions that choose the place of a new node are the
    instances of the class [InsertPt]. *)

From Stdlib Require Import ZArith Lia ZifyBool.
From stdpp Require Import base option tactics gmap list sorting.
From S2P Require Import Prelude NgxState.

Local Open Scope Z_scope.

Module Rbtree.

(** An address; [NULL] is the address of no object. *)
Definition ptr : Type := nat.
Definition NULL : ptr := O.

(** [ngx_rbtree_node_t]; [red] is whether [color] is not 0. *)
Record node := mk_node {
  key : Z; left : ptr; right : ptr; parent : ptr; red : bool
}.

(** [ngx_rbtree_t] and the memory; the sentinel is a constant of the tree. *)
Record state := mk_state { root : ptr; heap : gmap ptr node }.

(** The two rotations and the two halves of the loops of insertion and
    deletion are mirror images of each other: the definitions take the
    side. *)
Inductive side := Left | Right.
Definition other (d : side) : side := match d with Left => Right | Right => Left end.

#[export] Instance side_eq_dec : EqDecision side.
Proof. solve_decision. Defined.

Definition get_child (d : side) (n : node) : ptr :=
  match d with Left => left n | Right => right n end.

Definition with_child (d : side) (p : ptr) (n : node) : node :=
  match d with
  | Left => mk_node (key n) p (right n) (parent n) (red n)
  | Right => mk_node (key n) (left n) p (parent n) (red n)
  end.
Definition with_parent (p : ptr) (n : node) : node :=
  mk_node (key n) (left n) (right n) p (red n).
Definition with_color (c : bool) (n : node) : node :=
  mk_node (key n) (left n) (right n) (parent n) c.
Definition with_key (k : Z) (n : node) : node :=
  mk_node k (left n) (right n) (parent n) (red n).

(** ** Access to memory *)

Definition load (p : ptr) : M state node := gets_some (fun s => heap s !! p).

(** [p->f = v]: [f] changes the field. *)
Definition store (p : ptr) (f : node -> node) : M state unit :=
  _ ← load p; modify (fun s => mk_state (root s) (alter f p (heap s))).

Definition child (d : side) (p : ptr) : M state ptr := n ← load p; mret (get_child d n).
Definition parent_of (p : ptr) : M state ptr := n ← load p; mret (parent n).
Definition key_of (p : ptr) : M state Z := n ← load p; mret (key n).
Definition ngx_rbt_is_red (p : ptr) : M state bool := n ← load p; mret (red n).

Definition set_child (d : side) (p x : ptr) : M state unit := store p (with_child d x).
Definition set_parent (p x : ptr) : M state unit := store p (with_parent x).
Definition ngx_rbt_red (p : ptr) : M state unit := store p (with_color true).
Definition ngx_rbt_black (p : ptr) : M state unit := store p (with_color false).
Definition ngx_rbt_copy_color (p q : ptr) : M state unit :=
  c ← ngx_rbt_is_red q; store p (with_color c).
Definition set_root (p : ptr) : M state unit := modify (fun s => mk_state p (heap s)).

(** Enough iterations for every path of the tree. *)
Definition fuel : M state nat := gets (fun s => (2 * size (heap s) + 2)%nat).

Section Operations.
Variable sentinel : ptr.

(** [ngx_rbtree_init] *)
Definition ngx_rbtree_init : M state unit :=
  ngx_rbt_black sentinel ;; set_root sentinel.

(** [p] instead of [n] in the parent [q] of [n]; [d] is the side that is
    looked at first. *)
Definition set_in_parent (d : side) (q n p : ptr) : M state unit :=
  l ← child d q;
  if decide (n = l) then set_child d q p else set_child (other d) q p.

(** [p] instead of [n] below the parent of [n], or as the root. *)
Definition relink (d : side) (n p : ptr) : M state unit :=
  r ← gets root;
  if decide (n = r) then set_root p
  else q ← parent_of n; set_in_parent d q n p.

(** [ngx_rbtree_left_rotate] is [rotate Left]: the node goes down to the
    left. *)
Definition rotate (d : side) (n : ptr) : M state unit :=
  temp ← child (other d) n;
  x ← child d temp;
  set_child (other d) n x ;;
  x ← child d temp;
  when (x <> sentinel) (set_parent x n) ;;
  p ← parent_of n;
  set_parent temp p ;;
  relink d n temp ;;
  set_child d temp n ;;
  set_parent n temp.

Definition ngx_rbtree_left_rotate : ptr -> M state unit := rotate Left.
Definition ngx_rbtree_right_rotate : ptr -> M state unit := rotate Right.

Fixpoint min_loop (f : nat) (n : ptr) : M state ptr :=
  match f with
  | O => mfail
  | S f =>
      l ← child Left n;
      if decide (l = sentinel) then mret n else min_loop f l
  end.

Definition ngx_rbtree_min (n : ptr) : M state ptr := f ← fuel; min_loop f n.

(** ** Insertion *)

(** The functions [tree->insert]: [less] compares the new node with a node of
    the tree, each given by its address and its key; the functions of this
    file compare the keys only. *)
Fixpoint insert_loop (less : ptr * Z -> ptr * Z -> bool) (f : nat) (temp n : ptr) : M state (ptr * side) :=
  match f with
  | O => mfail
  | S f =>
      kn ← key_of n;
      kt ← key_of temp;
      let d := if less (n, kn) (temp, kt) then Left else Right in
      p ← child d temp;
      if decide (p = sentinel) then mret (temp, d) else insert_loop less f p n
  end.

Definition insert_by (less : ptr * Z -> ptr * Z -> bool) (temp n : ptr) : M state unit :=
  f ← fuel;
  p ← insert_loop less f temp n;
  set_child p.2 p.1 n ;;
  set_parent n p.1 ;;
  set_child Left n sentinel ;;
  set_child Right n sentinel ;;
  ngx_rbt_red n.

(** [node->key < temp->key] *)
Definition value_less (e x : ptr * Z) : bool := e.2 <? x.2.

Definition ngx_rbtree_insert_value : ptr -> ptr -> M state unit := insert_by value_less.

(** [(ngx_rbtree_key_int_t) (node->key - temp->key) < 0] *)
Definition timer_less `{Platform} (e x : ptr * Z) : bool :=
  to_signed ptr_size (e.2 - x.2) <? 0.

Definition ngx_rbtree_insert_timer_value `{Platform} : ptr -> ptr -> M state unit :=
  insert_by timer_less.

(** One iteration of the loop that re-balances, the parent of [n] being on
    the side [d] of the grandparent; the new [node]. *)
Definition insert_fix (d : side) (n : ptr) : M state ptr :=
  p ← parent_of n;
  g ← parent_of p;
  temp ← child (other d) g;
  c ← ngx_rbt_is_red temp;
  if (c : bool) then
    p ← parent_of n; ngx_rbt_black p ;;
    ngx_rbt_black temp ;;
    p ← parent_of n; g ← parent_of p; ngx_rbt_red g ;;
    p ← parent_of n; parent_of p
  else
    p ← parent_of n;
    x ← child (other d) p;
    n ← (if decide (n = x) then
           n ← parent_of n; rotate d n ;; mret n
         else mret n);
    p ← parent_of n; ngx_rbt_black p ;;
    p ← parent_of n; g ← parent_of p; ngx_rbt_red g ;;
    p ← parent_of n; g ← parent_of p; rotate (other d) g ;;
    mret n.

Fixpoint insert_balance (f : nat) (n : ptr) : M state unit :=
  match f with
  | O => mfail
  | S f =>
      r ← gets root;
      if decide (n = r) then skip
      else
        p ← parent_of n;
        c ← ngx_rbt_is_red p;
        if (c : bool) then
          g ← parent_of p;
          l ← child Left g;
          n ← insert_fix (if decide (p = l) then Left else Right) n;
          insert_balance f n
        else skip
  end.

Definition ngx_rbtree_insert (insert : ptr -> ptr -> M state unit) (n : ptr) : M state unit :=
  r ← gets root;
  if decide (r = sentinel) then
    set_parent n NULL ;;
    set_child Left n sentinel ;;
    set_child Right n sentinel ;;
    ngx_rbt_black n ;;
    set_root n
  else
    insert r n ;;
    f ← fuel;
    insert_balance f n ;;
    r ← gets root;
    ngx_rbt_black r.

(** ** Deletion *)

(** The node that leaves its place, and the one that takes it. *)
Definition delete_target (n : ptr) : M state (ptr * ptr) :=
  l ← child Left n;
  if decide (l = sentinel) then temp ← child Right n; mret (n, temp)
  else
    r ← child Right n;
    if decide (r = sentinel) then temp ← child Left n; mret (n, temp)
    else
      r ← child Right n;
      subst ← ngx_rbtree_min r;
      temp ← child Right subst;
      mret (subst, temp).

(** The block marked DEBUG stuff. *)
Definition clear (n : ptr) : M state unit :=
  set_child Left n NULL ;;
  set_child Right n NULL ;;
  set_parent n NULL ;;
  store n (with_key 0).

(** [subst] takes the place of [node]. *)
Definition replace (n subst : ptr) : M state unit :=
  l ← child Left n; set_child Left subst l ;;
  r ← child Right n; set_child Right subst r ;;
  p ← parent_of n; set_parent subst p ;;
  ngx_rbt_copy_color subst n ;;
  relink Left n subst ;;
  l ← child Left subst;
  when (l <> sentinel) (set_parent l subst) ;;
  r ← child Right subst;
  when (r <> sentinel) (set_parent r subst).

(** The node [subst] is taken out, and put in the place of [n] if it is not
    [n]. *)
Definition unlink (n subst temp : ptr) : M state unit :=
  q ← parent_of subst;
  set_in_parent Left q subst temp ;;
  if decide (subst = n) then
    q ← parent_of subst; set_parent temp q
  else
    q ← parent_of subst;
    (if decide (q = n) then set_parent temp subst else set_parent temp q) ;;
    replace n subst.

(** The sibling of [temp], which is on the side [d] of its parent, after it
    was made black. *)
Definition black_sibling (d : side) (temp : ptr) : M state ptr :=
  p ← parent_of temp;
  w ← child (other d) p;
  c ← ngx_rbt_is_red w;
  if (c : bool) then
    ngx_rbt_black w ;;
    p ← parent_of temp; ngx_rbt_red p ;;
    p ← parent_of temp; rotate d p ;;
    p ← parent_of temp; child (other d) p
  else mret w.

(** The sibling [w] after its child away from [temp] was made red. *)
Definition far_red (d : side) (temp w : ptr) : M state ptr :=
  x ← child (other d) w;
  c ← ngx_rbt_is_red x;
  if (c : bool) then mret w
  else
    x ← child d w; ngx_rbt_black x ;;
    ngx_rbt_red w ;;
    rotate (other d) w ;;
    p ← parent_of temp; child (other d) p.

(** The rest of an iteration of the fixup; the new [temp]. *)
Definition settle (d : side) (temp w : ptr) : M state ptr :=
  wl ← child Left w; cl ← ngx_rbt_is_red wl;
  wr ← child Right w; cr ← ngx_rbt_is_red wr;
  if negb cl && negb cr then
    ngx_rbt_red w ;;
    parent_of temp
  else
    w ← far_red d temp w;
    p ← parent_of temp; ngx_rbt_copy_color w p ;;
    p ← parent_of temp; ngx_rbt_black p ;;
    x ← child (other d) w; ngx_rbt_black x ;;
    p ← parent_of temp; rotate d p ;;
    gets root.

Definition delete_fix (d : side) (temp : ptr) : M state ptr :=
  w ← black_sibling d temp; settle d temp w.

Fixpoint delete_balance (f : nat) (temp : ptr) : M state unit :=
  match f with
  | O => mfail
  | S f =>
      r ← gets root;
      if decide (temp = r) then ngx_rbt_black temp
      else
        c ← ngx_rbt_is_red temp;
        if (c : bool) then ngx_rbt_black temp
        else
          p ← parent_of temp;
          l ← child Left p;
          temp ← delete_fix (if decide (temp = l) then Left else Right) temp;
          delete_balance f temp
  end.

(** The rest of the deletion, with [subst] and [temp]. *)
Definition take_out (n subst temp : ptr) : M state unit :=
  r ← gets root;
  if decide (subst = r) then
    set_root temp ;;
    ngx_rbt_black temp ;;
    clear n
  else
    c ← ngx_rbt_is_red subst;
    unlink n subst temp ;;
    clear n ;;
    if (c : bool) then skip
    else f ← fuel; delete_balance f temp.

Definition ngx_rbtree_delete (n : ptr) : M state unit :=
  t ← delete_target n;
  take_out n t.1 t.2.

(** ** The next node in order *)

Fixpoint next_loop (f : nat) (root n : ptr) : M state ptr :=
  match f with
  | O => mfail
  | S f =>
      p ← parent_of n;
      if decide (n = root) then mret NULL
      else
        l ← child Left p;
        if decide (n = l) then mret p else next_loop f root p
  end.

Definition ngx_rbtree_next (n : ptr) : M state ptr :=
  r ← child Right n;
  if decide (r <> sentinel) then r ← child Right n; ngx_rbtree_min r
  else r ← gets root; f ← fuel; next_loop f r n.

(** The walk of the lookups that the users of the tree write: [cmp] compares
    what is looked for with a node. *)
Fixpoint lookup_loop (cmp : ptr * Z -> comparison) (f : nat) (n : ptr) : M state (option ptr) :=
  match f with
  | O => mfail
  | S f =>
      if decide (n = sentinel) then mret None
      else
        k ← key_of n;
        match cmp (n, k) with
        | Eq => mret (Some n)
        | Lt => l ← child Left n; lookup_loop cmp f l
        | Gt => r ← child Right n; lookup_loop cmp f r
        end
  end.

Definition rbtree_lookup (cmp : ptr * Z -> comparison) : M state (option ptr) :=
  f ← fuel; r ← gets root; lookup_loop cmp f r.

End Operations.

(** ** Symbolic execution of the memory operations *)

Lemma alter_some (f : node -> node) (h : gmap ptr node) p n :
  h !! p = Some n -> alter f p h = <[p := f n]> h.
Proof.
  intros H. apply map_eq. intros a. destruct (decide (a = p)) as [->|Ha].
  - by rewrite lookup_alter_eq, lookup_insert_eq, H.
  - by rewrite lookup_alter_ne, lookup_insert_ne by done.
Qed.

Lemma wp_load p n σ Q : heap σ !! p = Some n -> Q n σ -> wp (load p) σ Q.
Proof. apply (wp_gets_some (fun s => heap s !! p)). Qed.

Lemma wp_store p f n σ Q :
  heap σ !! p = Some n -> Q tt (mk_state (root σ) (<[p := f n]> (heap σ))) ->
  wp (store p f) σ Q.
Proof.
  intros H HQ. apply wp_bind, (wp_load p n); [done|]. apply wp_modify.
  by rewrite (alter_some f _ p n).
Qed.

(** The head of a computation is executed; the cells it reads are looked up
    by [tac]. *)
Ltac wp_step tac :=
  lazymatch goal with
  | |- wp (_ ≫= _) _ _ => apply wp_bind
  | |- wp (mret _) _ _ => apply wp_ret
  | |- wp skip _ _ => apply wp_skip
  | |- wp (gets _) _ _ => apply wp_gets
  | |- wp fuel _ _ => apply wp_gets
  | |- wp (set_root _) _ _ => apply wp_modify
  | |- wp (load _) _ _ => eapply wp_load; [cbn [heap]; tac|]
  | |- wp (store _ _) _ _ => eapply wp_store; [cbn [heap]; tac|]
  | |- wp (child _ _) _ _ => unfold child
  | |- wp (parent_of _) _ _ => unfold parent_of
  | |- wp (key_of _) _ _ => unfold key_of
  | |- wp (ngx_rbt_is_red _) _ _ => unfold ngx_rbt_is_red
  | |- wp (set_child _ _ _) _ _ => unfold set_child
  | |- wp (set_parent _ _) _ _ => unfold set_parent
  | |- wp (ngx_rbt_red _) _ _ => unfold ngx_rbt_red
  | |- wp (ngx_rbt_black _) _ _ => unfold ngx_rbt_black
  | |- wp (ngx_rbt_copy_color _ _) _ _ => unfold ngx_rbt_copy_color
  end; cbn [get_child other heap root key left right parent red with_child
            with_parent with_color with_key fst snd].

(** ** Trees and contexts *)

Inductive rb := E | T (c : bool) (l : rb) (a : ptr) (k : Z) (r : rb).

(** [join d c t a k x]: the subtree [t] is on the side [d]. *)
Definition join (d : side) (c : bool) (t : rb) (a : ptr) (k : Z) (x : rb) : rb :=
  match d with Left => T c t a k x | Right => T c x a k t end.

Inductive ctx := Top | Fr (d : side) (c : bool) (C : ctx) (a : ptr) (k : Z) (x : rb).

Fixpoint plug (C : ctx) (t : rb) : rb :=
  match C with Top => t | Fr d c C a k x => plug C (join d c t a k x) end.

(** The nodes in order, with their keys. *)
Fixpoint inorder (t : rb) : list (ptr * Z) :=
  match t with E => [] | T _ l a k r => inorder l ++ (a, k) :: inorder r end.

Fixpoint before (C : ctx) : list (ptr * Z) :=
  match C with
  | Top => []
  | Fr Left _ C _ _ _ => before C
  | Fr Right _ C a k x => before C ++ inorder x ++ [(a, k)]
  end.

Fixpoint after (C : ctx) : list (ptr * Z) :=
  match C with
  | Top => []
  | Fr Left _ C a k x => (a, k) :: inorder x ++ after C
  | Fr Right _ C _ _ _ => after C
  end.

Definition elems (C : ctx) (t : rb) : list (ptr * Z) := before C ++ inorder t ++ after C.

Definition addrs (t : rb) : list ptr := (inorder t).*1.

Lemma elems_frame d c C a k x t : elems (Fr d c C a k x) t = elems C (join d c t a k x).
Proof. unfold elems. destruct d; cbn; by rewrite <- ?(assoc_L (++)). Qed.

Lemma inorder_plug C t : inorder (plug C t) = elems C t.
Proof.
  revert t. induction C as [|d c C IH a k x]; intros t; cbn [plug].
  - unfold elems. cbn. by rewrite (right_id_L [] (++)).
  - by rewrite IH, elems_frame.
Qed.

Fixpoint depth (C : ctx) : nat :=
  match C with Top => O | Fr _ _ C _ _ _ => S (depth C) end.

Lemma depth_length C t : (depth C <= length (elems C t))%nat.
Proof.
  revert t. induction C as [|d c C IH a k x]; intros t; cbn [depth]; [lia|].
  specialize (IH E). unfold elems in *. rewrite !length_app in *. cbn [inorder length] in IH.
  destruct d; cbn; rewrite ?length_app; cbn; lia.
Qed.

Fixpoint comp (D C : ctx) : ctx :=
  match D with Top => C | Fr d c D a k x => Fr d c (comp D C) a k x end.

Lemma plug_comp D C t : plug (comp D C) t = plug C (plug D t).
Proof. revert t. induction D as [|d c D IH a k x]; intros t; cbn; [done|]. by rewrite IH. Qed.

Lemma after_comp D C : after (comp D C) = after D ++ after C.
Proof. induction D as [|[] c D IH a k x]; cbn; [done| |done]. by rewrite IH, (assoc_L (++)). Qed.

Lemma before_comp D C : before (comp D C) = before C ++ before D.
Proof.
  induction D as [|[] c D IH a k x]; cbn; [by rewrite (right_id_L [] (++))|done|].
  by rewrite IH, <- (assoc_L (++)).
Qed.

Definition caddrs (C : ctx) : list ptr := (before C ++ after C).*1.

(** *** Occurrences

    That addresses are apart is a matter of counting them. *)

Definition one (x a : ptr) : nat := if decide (x = a) then 1 else 0.

Fixpoint occ (x : ptr) (l : list ptr) : nat :=
  match l with [] => 0 | a :: l => one x a + occ x l end%nat.

Lemma one_refl x : one x x = 1%nat.
Proof. unfold one. by rewrite decide_True. Qed.

Lemma occ_app x l1 l2 : occ x (l1 ++ l2) = (occ x l1 + occ x l2)%nat.
Proof. induction l1; cbn; lia. Qed.

Lemma occ_cons x a l : occ x (a :: l) = (one x a + occ x l)%nat.
Proof. done. Qed.

Lemma elem_occ x l : x ∈ l <-> (1 <= occ x l)%nat.
Proof.
  induction l as [|a l IH]; cbn; [rewrite elem_of_nil; lia|].
  rewrite elem_of_cons, IH. unfold one. destruct (decide (x = a)); intuition lia.
Qed.

Lemma not_elem_occ x l : x ∉ l <-> occ x l = 0%nat.
Proof. rewrite elem_occ. lia. Qed.

Lemma nodup_occ l : NoDup l <-> forall x, (occ x l <= 1)%nat.
Proof.
  induction l as [|a l IH]; [split; [cbn; lia|constructor]|].
  rewrite NoDup_cons, IH, not_elem_occ. cbn. split.
  - intros [Ha Hl] x. specialize (Hl x). unfold one. destruct (decide (x = a)); subst; lia.
  - intros H. split; [specialize (H a); rewrite one_refl in H; lia|].
    intros x. specialize (H x). lia.
Qed.

Lemma occ_T x c l a k r : occ x (addrs (T c l a k r)) = (occ x (addrs l) + one x a + occ x (addrs r))%nat.
Proof. unfold addrs. cbn. rewrite fmap_app, occ_app. cbn. lia. Qed.

Lemma occ_E x : occ x (addrs E) = 0%nat.
Proof. done. Qed.

Lemma occ_join x d c t a k t' :
  occ x (addrs (join d c t a k t')) = (occ x (addrs t) + one x a + occ x (addrs t'))%nat.
Proof. destruct d; cbn [join]; rewrite occ_T; lia. Qed.

Lemma occ_Top x : occ x (caddrs Top) = 0%nat.
Proof. done. Qed.

Lemma occ_Fr x d c C a k t :
  occ x (caddrs (Fr d c C a k t)) = (one x a + occ x (addrs t) + occ x (caddrs C))%nat.
Proof.
  unfold caddrs, addrs. destruct d; cbn; rewrite !fmap_app, ?fmap_cons, ?fmap_app, !occ_app; cbn;
    rewrite ?occ_app; cbn; lia.
Qed.

Lemma occ_elems x C t : occ x (elems C t).*1 = (occ x (addrs t) + occ x (caddrs C))%nat.
Proof. unfold elems, caddrs, addrs. rewrite !fmap_app, !occ_app. lia. Qed.

Lemma occ_plug x C t : occ x (addrs (plug C t)) = (occ x (addrs t) + occ x (caddrs C))%nat.
Proof. unfold addrs at 1. by rewrite inorder_plug, occ_elems. Qed.

Lemma occ_comp x D C : occ x (caddrs (comp D C)) = (occ x (caddrs D) + occ x (caddrs C))%nat.
Proof. unfold caddrs. rewrite before_comp, after_comp, !fmap_app, !occ_app. lia. Qed.

Create Rewrite HintDb occ.
Hint Rewrite one_refl occ_cons occ_app occ_T occ_E occ_join occ_Top occ_Fr occ_elems occ_plug occ_comp : occ.

(** Solves that addresses differ or are not among others, [Hd] saying that
    every address occurs at most once. *)
Ltac apart Hd :=
  let go x :=
    pose proof (Hd x); autorewrite with occ in *;
    repeat match goal with
      | H : _ ∈ _ |- _ => rewrite elem_occ in H
      | H : _ ∉ _ |- _ => rewrite not_elem_occ in H
      end; autorewrite with occ in *; lia in
  lazymatch goal with
  | |- ?a <> ?b => first [intros ->; go b | intros <-; go a | intros Heq; rewrite <- Heq in *; go a]
  | |- ?a = ?b -> False => first [intros ->; go b | intros <-; go a]
  | |- ?a ∉ _ => rewrite not_elem_occ; go a
  | |- ?a ∈ _ => rewrite elem_occ; go a
  | |- forall x, (_ <= 1)%nat => let x := fresh "x" in intros x; go x
  end.

Section Representation.
Variable s : ptr.

Definition addr (t : rb) : ptr := match t with E => s | T _ _ a _ _ => a end.

Definition cell (d : side) (k : Z) (p x q : ptr) (c : bool) : node :=
  match d with Left => mk_node k p x q c | Right => mk_node k x p q c end.

Fixpoint stored (h : gmap ptr node) (q : ptr) (t : rb) : Prop :=
  match t with
  | E => True
  | T c l a k r =>
      h !! a = Some (mk_node k (addr l) (addr r) q c) /\ stored h a l /\ stored h a r
  end.

(** The parent of what is in the hole, [q] being the parent of the root. *)
Definition up (q : ptr) (C : ctx) : ptr :=
  match C with Top => q | Fr _ _ _ a _ _ => a end.

(** The root, [p] being in the hole. *)
Fixpoint top (p : ptr) (C : ctx) : ptr :=
  match C with Top => p | Fr _ _ C a _ _ => top a C end.

Fixpoint cstored (h : gmap ptr node) (q p : ptr) (C : ctx) : Prop :=
  match C with
  | Top => True
  | Fr d c C a k x =>
      h !! a = Some (cell d k p (addr x) (up q C) c) /\ stored h a x /\ cstored h q a C
  end.

Lemma stored_join h q d c t a k x :
  stored h q (join d c t a k x) <->
  h !! a = Some (cell d k (addr t) (addr x) q c) /\ stored h a t /\ stored h a x.
Proof. destruct d; cbn; tauto. Qed.

Lemma cell_red d k p x q c : red (cell d k p x q c) = c.
Proof. by destruct d. Qed.

Lemma cell_parent d k p x q c : parent (cell d k p x q c) = q.
Proof. by destruct d. Qed.

(** On which side of its parent a node is. *)
Lemma cell_side d k p x q c : p <> x ->
  (if decide (p = left (cell d k p x q c)) then Left else Right) = d.
Proof. intros H. destruct d; cbn; by case_decide. Qed.

Lemma addr_join d c t a k x : addr (join d c t a k x) = a.
Proof. by destruct d. Qed.

(** *** What does not change *)

Lemma stored_frame h h' q t :
  stored h q t -> (forall a, a ∈ addrs t -> h' !! a = h !! a) -> stored h' q t.
Proof.
  revert q. induction t as [|c l IHl a k r IHr]; intros q; [done|].
  cbn [stored]. intros (Ha & Hl & Hr) F.
  split; [rewrite F by (rewrite elem_occ, occ_T, one_refl; lia); done|].
  split; [apply IHl | apply IHr]; try done; intros b Hb; apply F;
    rewrite elem_occ in *; rewrite occ_T; lia.
Qed.

Lemma cstored_frame h h' q p C :
  cstored h q p C -> (forall a, a ∈ caddrs C -> h' !! a = h !! a) -> cstored h' q p C.
Proof.
  revert p. induction C as [|d c C IH a k x]; intros p; [done|].
  cbn [cstored]. intros (Ha & Hx & HC) F.
  split; [rewrite F; [done|] | split; [eapply stored_frame; [done|]; intros b Hb; apply F
    | apply IH; [done|]; intros b Hb; apply F]].
  all: rewrite elem_occ in *; rewrite occ_Fr, ?one_refl; lia.
Qed.

Lemma top_in p C : top p C = p \/ top p C ∈ caddrs C.
Proof.
  revert p. induction C as [|d c C IH a k x]; intros p; [by left|]. right. cbn [top].
  destruct (IH a) as [->|H]; rewrite elem_occ in *; rewrite occ_Fr, ?one_refl; lia.
Qed.

Lemma addr_in t : addr t = s \/ addr t ∈ addrs t.
Proof.
  destruct t as [|c l a k r]; [by left|right]. cbn [addr]. rewrite elem_occ, occ_T, one_refl. lia.
Qed.

Lemma stored_insert h q t a n :
  stored h q t -> a ∉ addrs t -> stored (<[a := n]> h) q t.
Proof. intros H Ha. eapply stored_frame; [done|]. intros b Hb. apply lookup_insert_ne. congruence. Qed.

Lemma cstored_insert h q p C a n :
  cstored h q p C -> a ∉ caddrs C -> cstored (<[a := n]> h) q p C.
Proof. intros H Ha. eapply cstored_frame; [done|]. intros b Hb. apply lookup_insert_ne. congruence. Qed.

(** *** The tree in focus

    [h0] is the memory at the start, [L] the nodes of the tree in order and
    [q] what the root has for a parent: a tree whose root was deleted keeps a
    stale pointer there. *)

Section Focus.
Variables (h0 : gmap ptr node) (L : list (ptr * Z)) (q : ptr).

Record holds (σ : state) (C : ctx) (t : rb) : Prop := {
  holds_tree : stored (heap σ) (up q C) t;
  holds_ctx : cstored (heap σ) q (addr t) C;
  holds_root : root σ = top (addr t) C;
  holds_elems : elems C t = L;
  holds_frame : forall a, a ∉ L.*1 -> heap σ !! a = h0 !! a
}.

Lemma holds_zoom σ d c C a k x t :
  holds σ (Fr d c C a k x) t <-> holds σ C (join d c t a k x).
Proof.
  split; intros [H1 H2 H3 H4 H5]; constructor; try done.
  - apply stored_join. cbn in *. tauto.
  - rewrite addr_join. cbn in H2. tauto.
  - by rewrite addr_join.
  - by rewrite <- elems_frame.
  - apply stored_join in H1. cbn. tauto.
  - apply stored_join in H1. rewrite addr_join in H2. cbn. tauto.
  - rewrite addr_join in H3. done.
  - by rewrite elems_frame.
Qed.

End Focus.

Lemma wp_set_in_parent d n p d' c C a k x q σ Q :
  cstored (heap σ) q n (Fr d' c C a k x) ->
  (forall y, one y s + one y n + occ y (caddrs (Fr d' c C a k x)) <= 1)%nat ->
  (forall σ', root σ' = root σ -> cstored (heap σ') q p (Fr d' c C a k x) ->
     (forall b, b ∉ caddrs (Fr d' c C a k x) -> heap σ' !! b = heap σ !! b) -> Q tt σ') ->
  wp (set_in_parent d a n p) σ Q.
Proof.
  intros (Ha & Hx & HC) Hd HQ.
  assert (n <> addr x) as Hnx by (destruct (addr_in x) as [->|]; apart Hd).
  unfold set_in_parent. repeat wp_step eassumption.
  destruct d', d; cbn [cell get_child left right other];
    rewrite ?decide_True, ?decide_False by done; repeat wp_step eassumption;
    (apply HQ; cbn [root heap];
     [ done
     | cbn [cstored]; rewrite lookup_insert_eq; split; [done|];
       split; [apply stored_insert | apply cstored_insert]; try done; apart Hd
     | intros b Hb; apply lookup_insert_ne; apart Hd ]).
Qed.

Lemma wp_relink d n p nd C q σ Q :
  heap σ !! n = Some nd -> parent nd = up q C -> cstored (heap σ) q n C -> root σ = top n C ->
  (forall x, one x s + one x n + occ x (caddrs C) <= 1)%nat ->
  (forall σ', root σ' = top p C -> cstored (heap σ') q p C ->
     (forall a, a ∉ caddrs C -> heap σ' !! a = heap σ !! a) -> Q tt σ') ->
  wp (relink d n p) σ Q.
Proof.
  intros Hn Hp HC Hr Hd HQ. unfold relink. repeat wp_step eassumption.
  destruct C as [|d' c C a k x]; cbn [top up] in *.
  - rewrite decide_True by done. wp_step eassumption. by apply HQ.
  - rewrite decide_False by (rewrite Hr; destruct (top_in a C) as [->|]; apart Hd).
    repeat wp_step eassumption. rewrite Hp. eapply wp_set_in_parent; [done..|].
    intros σ' R S F. apply HQ; [congruence|done..].
Qed.

Lemma wp_reparent t n q σ Q :
  stored (heap σ) q t -> (forall x, one x s + occ x (addrs t) <= 1)%nat ->
  (forall σ', root σ' = root σ -> stored (heap σ') n t ->
     (forall a, a ∉ addrs t -> heap σ' !! a = heap σ !! a) -> Q tt σ') ->
  wp (when (addr t <> s) (set_parent (addr t) n)) σ Q.
Proof.
  intros Ht Hd HQ. apply wp_when; intros Hs.
  - destruct t as [|c l a k r]; [done|]. cbn [addr stored] in *. destruct Ht as (Ha & Hl & Hr).
    repeat wp_step eassumption. apply HQ; cbn [root heap].
    + done.
    + cbn [stored]. rewrite lookup_insert_eq. split; [done|].
      split; apply stored_insert; try done; apart Hd.
    + intros b Hb. apply lookup_insert_ne. apart Hd.
  - destruct t as [|c l a k r]; [by apply HQ|]. cbn [addr] in Hs. exfalso. apply Hs. apart Hd.
Qed.

(** Lookup through updates and frames. *)
Ltac look Hd :=
  cbn [heap root];
  first
    [ eassumption
    | reflexivity
    | rewrite lookup_insert_eq; look Hd
    | rewrite lookup_insert_ne by (done || congruence || apart Hd); look Hd
    | match goal with F : forall a, a ∉ _ -> heap ?σ !! a = _ |- context [heap ?σ !! _] =>
        rewrite F by (done || apart Hd); look Hd end
    | match goal with F : forall a, a ∉ _ -> a <> _ -> heap ?σ !! a = _ |- context [heap ?σ !! _] =>
        rewrite F by (done || apart Hd); look Hd end ].

Ltac frame Hd :=
  cbn [heap root];
  first
    [ eassumption
    | apply stored_insert; [frame Hd | apart Hd]
    | apply cstored_insert; [frame Hd | apart Hd]
    | eapply stored_frame; [eassumption | intros ? ?; look Hd]
    | eapply cstored_frame; [eassumption | intros ? ?; look Hd] ].

(** Reads a field of a node near the focus. *)
Ltac cells H :=
  pose proof (holds_tree _ _ _ _ _ _ H); pose proof (holds_ctx _ _ _ _ _ _ H);
  cbn [stored cstored join up cell addr] in *; destruct_and?; eassumption.

Ltac hread H :=
  repeat (lazymatch goal with
          | |- wp (store _ _) _ _ => fail
          | |- wp (ngx_rbt_red _) _ _ => fail
          | |- wp (ngx_rbt_black _) _ _ => fail
          | |- wp (ngx_rbt_copy_color _ _) _ _ => fail
          | _ => wp_step ltac:(idtac; cells H)
          end).

Lemma stored_alloc h q t a : stored h q t -> a ∈ addrs t -> is_Some (h !! a).
Proof.
  revert q. induction t as [|c l IHl b k r IHr]; intros q; [unfold addrs; set_solver|].
  cbn [stored]. intros (Hb & Hl & Hr). unfold addrs in *. cbn [inorder].
  rewrite fmap_app, fmap_cons. intros [Ha|[->|Ha]%elem_of_cons]%elem_of_app; eauto.
Qed.

(** [set_parent] on a tree that may be empty: the sentinel gets a parent
    then. *)
Lemma wp_set_parent t p q σ sn Q :
  stored (heap σ) q t -> heap σ !! s = Some sn -> (forall x, one x s + occ x (addrs t) <= 1)%nat ->
  (forall σ' sn', root σ' = root σ -> stored (heap σ') p t ->
     heap σ' !! s = Some sn' -> red sn' = red sn -> (t = E -> parent sn' = p) ->
     (forall a, a ∉ addrs t -> a <> s -> heap σ' !! a = heap σ !! a) -> Q tt σ') ->
  wp (set_parent (addr t) p) σ Q.
Proof.
  intros Ht Hs Hd HQ. destruct t as [|c l a k r]; cbn [addr stored] in *.
  - repeat wp_step eassumption. eapply (HQ _ (with_parent p sn)); cbn [heap root]; try done.
    + by rewrite lookup_insert_eq.
    + intros a _ Ha. by apply lookup_insert_ne.
  - destruct Ht as (Ha & Hl & Hr). repeat wp_step eassumption.
    eapply (HQ _ sn); cbn [heap root stored]; try done.
    + split_and!; [by rewrite lookup_insert_eq | frame Hd..].
    + rewrite lookup_insert_ne; [done|]. apart Hd.
    + intros b Hb _. apply lookup_insert_ne. apart Hd.
Qed.

Section Rotation.
Variables (h0 : gmap ptr node) (L : list (ptr * Z)) (q : ptr).
Hypothesis Hnodup : NoDup (s :: L.*1).

#[local] Abbreviation holds := (holds h0 L q).

Lemma holds_apart σ C t : holds σ C t ->
  forall x, (one x s + occ x (addrs t) + occ x (caddrs C) <= 1)%nat.
Proof.
  intros H x. rewrite nodup_occ in Hnodup. specialize (Hnodup x). cbn in Hnodup.
  rewrite <- (holds_elems _ _ _ _ _ _ H), occ_elems in Hnodup. lia.
Qed.

(** The focus is the root exactly under the empty context. *)
Lemma root_focus σ C t : holds σ C t -> (addr t = root σ <-> C = Top).
Proof.
  intros H. pose proof (holds_apart _ _ _ H) as Hd. rewrite (holds_root _ _ _ _ _ _ H).
  destruct C as [|d c C a k x]; [done|]. split; [|done]. cbn [top]. intros E. exfalso. revert E.
  destruct t as [|c' l n k' r]; cbn [addr]; destruct (top_in a C) as [->|]; apart Hd.
Qed.

Lemma elems_rotate d c X n k c' Y m k' Z C :
  elems C (join d c' (join d c X n k Y) m k' Z) = elems C (join d c X n k (join d c' Y m k' Z)).
Proof. unfold elems. destruct d; cbn; repeat (rewrite <- (assoc_L (++)); cbn); done. Qed.

Lemma rotate_spec d c X n k c' Y m k' Z C σ :
  holds σ C (join d c X n k (join d c' Y m k' Z)) ->
  wp (rotate s d n) σ (fun _ σ' => holds σ' C (join d c' (join d c X n k Y) m k' Z)).
Proof.
  intros H. pose proof (holds_apart _ _ _ H) as Hd. destruct H as [Ht HC Hr HL HF].
  apply stored_join in Ht as (Hn & HX & Ht). rewrite !addr_join in *.
  apply stored_join in Ht as (Hm & HY & HZ). unfold rotate.
  assert (n <> m) as N by apart Hd.
  assert (forall σ', stored (heap σ') (up q C) (join d c' (join d c X n k Y) m k' Z) ->
    cstored (heap σ') q m C -> root σ' = top m C ->
    (forall a, a ∉ L.*1 -> heap σ' !! a = heap σ !! a) ->
    holds σ' C (join d c' (join d c X n k Y) m k' Z)) as Hend.
  { intros σ' E1 E2 E3 E4. constructor; rewrite ?addr_join; try done.
    - by rewrite elems_rotate.
    - intros a Ha. rewrite E4 by done. auto. }
  subst L.
  destruct d; cbn [cell] in *; repeat wp_step ltac:(idtac; look Hd).
  all: eapply (wp_reparent Y); [frame Hd | apart Hd|].
  all: intros σ1 R1 S1 F1; cbn [root heap] in *; repeat wp_step ltac:(idtac; look Hd).
  all: eapply wp_relink; [look Hd | reflexivity | frame Hd | cbn [root]; congruence | apart Hd |].
  all: intros σ2 R2 S2 F2; cbn [root heap] in *; repeat wp_step ltac:(idtac; look Hd).
  all: apply Hend; [cbn [join stored addr heap]; split_and!; first [look Hd | frame Hd]
    | frame Hd | cbn [root]; congruence | intros a Ha; look Hd].
Qed.
Lemma color_spec d c l a k r C c' σ :
  holds σ C (join d c l a k r) ->
  wp (store a (with_color c')) σ (fun _ σ' => holds σ' C (join d c' l a k r)).
Proof.
  intros H. pose proof (holds_apart _ _ _ H) as Hd. destruct H as [Ht HC Hr HL HF].
  apply stored_join in Ht as (Ha & Hl & Ht). rewrite !addr_join in *.
  repeat wp_step eassumption. subst L. constructor; rewrite ?addr_join; cbn [heap root].
  - apply stored_join. split_and!; [|frame Hd..]. destruct d; look Hd.
  - frame Hd.
  - done.
  - unfold elems. by destruct d.
  - intros b Hb. rewrite <- HF by done. look Hd.
Qed.

(** *** What the fields of the tree in focus are *)

Variable sn : node.
Hypothesis Hsent : h0 !! s = Some sn.
Hypothesis Hblack : red sn = false.

Definition color (t : rb) : bool := match t with E => false | T c _ _ _ _ => c end.

Lemma holds_sentinel σ C t : holds σ C t -> heap σ !! s = Some sn.
Proof.
  intros H. rewrite (holds_frame _ _ _ _ _ _ H); [done|]. apply NoDup_cons in Hnodup. tauto.
Qed.

Lemma stored_color σ q' t : stored (heap σ) q' t -> heap σ !! s = Some sn ->
  exists nd, heap σ !! addr t = Some nd /\ red nd = color t.
Proof. destruct t as [|c l a k r]; cbn; naive_solver. Qed.

Lemma wp_load_tree t q' σ Q : stored (heap σ) q' t -> heap σ !! s = Some sn ->
  (forall nd, red nd = color t -> Q nd σ) -> wp (load (addr t)) σ Q.
Proof.
  intros Ht Hs HQ. destruct (stored_color _ _ _ Ht Hs) as (nd & Hn & Hc).
  eapply wp_load; eauto.
Qed.

(** ** The red-black properties *)

(** [ok c n t]: the root of [t] has the color [c], no red node has a red
    child, and every path to a leaf passes [n] black nodes. *)
Inductive ok : bool -> nat -> rb -> Prop :=
  | ok_E : ok false O E
  | ok_red n l a k r : ok false n l -> ok false n r -> ok true n (T true l a k r)
  | ok_black n c l a k c' r : ok c n l -> ok c' n r -> ok false (S n) (T false l a k r).

(** [cok c n C]: a tree of black height [n] fits in the hole; a red one
    does if [c] is true. *)
Inductive cok : bool -> nat -> ctx -> Prop :=
  | cok_Top n : cok false n Top
  | cok_red d C a k x n : cok true n C -> ok false n x -> cok false n (Fr d true C a k x)
  | cok_black d C a k x n b c : cok b (S n) C -> ok c n x -> cok true n (Fr d false C a k x).

Lemma ok_join_red d n l a k r : ok false n l -> ok false n r -> ok true n (join d true l a k r).
Proof. destruct d; by constructor. Qed.

Lemma ok_join_black d n c l a k c' r :
  ok c n l -> ok c' n r -> ok false (S n) (join d false l a k r).
Proof. destruct d; econstructor; eauto. Qed.

Lemma ok_color c n t : ok c n t -> color t = c.
Proof. by destruct 1. Qed.

Lemma plug_ok C n c b t : ok c n t -> cok b n C -> (c = true -> b = true) ->
  exists m, ok false m (plug C t).
Proof.
  intros Ht HC. revert t c Ht. induction HC; intros t c' Ht Hc; cbn [plug].
  - destruct c'; [by specialize (Hc eq_refl)|]. eauto.
  - destruct c'; [by specialize (Hc eq_refl)|]. eapply IHHC; [by apply ok_join_red|done].
  - eapply IHHC; [by eapply ok_join_black|done].
Qed.

(** ** Re-balancing after an insertion *)

Lemma zoom_out σ d c C a k x t :
  holds σ (Fr d c C a k x) t -> holds σ C (join d c t a k x).
Proof. apply holds_zoom. Qed.

Lemma zoom_in σ d c C a k x t :
  holds σ C (join d c t a k x) -> holds σ (Fr d c C a k x) t.
Proof. apply holds_zoom. Qed.

(** The same state seen from the sibling. *)
Lemma holds_swap σ d c C a k x t :
  holds σ (Fr d c C a k x) t <-> holds σ (Fr (other d) c C a k t) x.
Proof. rewrite !holds_zoom. by destruct d. Qed.

Lemma color_frame d c C a k x t c' σ :
  holds σ (Fr d c C a k x) t ->
  wp (store a (with_color c')) σ (fun _ σ' => holds σ' (Fr d c' C a k x) t).
Proof.
  intros H. apply holds_zoom in H. eapply wp_mono; [by eapply color_spec|].
  intros [] σ' H'. by apply holds_zoom.
Qed.

Lemma color_frame2 d c C a k x d1 c1 a1 k1 x1 t c' σ :
  holds σ (Fr d1 c1 (Fr d c C a k x) a1 k1 x1) t ->
  wp (store a (with_color c')) σ (fun _ σ' => holds σ' (Fr d1 c1 (Fr d c' C a k x) a1 k1 x1) t).
Proof.
  intros H. apply holds_zoom in H. eapply wp_mono; [by eapply color_frame|].
  intros [] σ' H'. by apply holds_zoom.
Qed.

Lemma color_sibling d c C a k cx l b kb r t c' σ :
  holds σ (Fr d c C a k (T cx l b kb r)) t ->
  wp (store b (with_color c')) σ (fun _ σ' => holds σ' (Fr d c C a k (T c' l b kb r)) t).
Proof.
  intros H. apply holds_swap in H. eapply wp_mono; [by eapply (color_spec Left)|].
  intros [] σ' H'. by apply holds_swap.
Qed.

Lemma color_uncle d c C a k cx l b kb r d1 c1 a1 k1 x1 t c' σ :
  holds σ (Fr d1 c1 (Fr d c C a k (T cx l b kb r)) a1 k1 x1) t ->
  wp (store b (with_color c')) σ
    (fun _ σ' => holds σ' (Fr d1 c1 (Fr d c C a k (T c' l b kb r)) a1 k1 x1) t).
Proof.
  intros H. apply holds_zoom in H. eapply wp_mono; [by eapply color_sibling|].
  intros [] σ' H'. by apply holds_zoom.
Qed.

(** Reads the color of a subtree that may be empty; [Hc] gives it. *)
Ltac hisred H Hs Hc :=
  eapply wp_load_tree; [cells H | exact Hs | ];
  let nd := fresh "nd" in let Hnd := fresh "Hnd" in
  intros nd Hnd; repeat wp_pure; rewrite Hnd, Hc; clear nd Hnd; cbn [andb negb].

(** Changes a color near the focus: [lem] is one of the lemmas above. *)
Ltac hcolor H lem :=
  let H' := fresh "H" in
  eapply wp_mono; [eapply lem; exact H|]; intros [] ? H'; cbn beta in H'; clear H; rename H' into H.

Ltac hrotate H d :=
  let H' := fresh "H" in
  eapply wp_mono; [eapply (rotate_spec d); exact H|]; intros [] ? H'; cbn beta in H';
  clear H; rename H' into H.

Lemma insert_fix_red d d' C g kg ul ua uk ur p kp x l n kn r σ :
  holds σ (Fr d' true (Fr d false C g kg (T true ul ua uk ur)) p kp x) (T true l n kn r) ->
  wp (insert_fix s d n) σ (fun n' σ' => n' = g /\
    holds σ' C (join d true (join d' false (T true l n kn r) p kp x) g kg (T false ul ua uk ur))).
Proof.
  intros H. unfold insert_fix.
  destruct d, d'; hread H; hcolor H color_frame; hread H; hcolor H color_uncle; hread H;
    hcolor H color_frame2; hread H; split; try done; do 2 apply zoom_out in H; done.
Qed.

(** The uncle is black, [n] is on the side of its parent. *)
Lemma insert_fix_outer d C g kg u p kp x l n kn r σ :
  color u = false ->
  holds σ (Fr d true (Fr d false C g kg u) p kp x) (T true l n kn r) ->
  wp (insert_fix s d n) σ (fun n' σ' => n' = n /\
    holds σ' (Fr d false C p kp (join d true x g kg u)) (T true l n kn r)).
Proof.
  intros Hu H. pose proof (holds_apart _ _ _ H) as Hd. unfold insert_fix.
  assert (n <> addr x) as Hnx by (destruct (addr_in x) as [->|]; apart Hd).
  pose proof (holds_sentinel _ _ _ H) as Hs.
  destruct d; hread H; hisred H Hs Hu; hread H;
    (rewrite decide_False by done); hread H; hcolor H color_frame; hread H; hcolor H color_frame2;
    hread H; do 2 apply zoom_out in H; cbn [other];
    [hrotate H Right | hrotate H Left]; hread H; (split; [done|]); by apply zoom_in.
Qed.

(** The uncle is black, [n] is on the other side of its parent. *)
Lemma insert_fix_inner d C g kg u p kp x l n kn r σ :
  color u = false ->
  holds σ (Fr (other d) true (Fr d false C g kg u) p kp x) (join d true l n kn r) ->
  wp (insert_fix s d n) σ (fun n' σ' => n' = p /\
    holds σ' (Fr d false C n kn (join d true r g kg u)) (join d true x p kp l)).
Proof.
  intros Hu H. pose proof (holds_apart _ _ _ H) as Hd. unfold insert_fix.
  pose proof (holds_sentinel _ _ _ H) as Hs.
  destruct d; hread H; hisred H Hs Hu; hread H;
    (rewrite decide_True by done); hread H; apply zoom_out in H; cbn [other] in *.
  - hrotate H Left. apply (zoom_in _ Left) in H. hread H. hcolor H color_frame. hread H.
    hcolor H color_frame2. hread H. do 2 apply zoom_out in H. hrotate H Right. hread H.
    split; [done|]. by apply zoom_in.
  - hrotate H Right. apply (zoom_in _ Right) in H. hread H. hcolor H color_frame. hread H.
    hcolor H color_frame2. hread H. do 2 apply zoom_out in H. hrotate H Left. hread H.
    split; [done|]. by apply zoom_in.
Qed.

(** What an iteration does: the red node moves two levels up, or the tree is
    right below a black node. *)
Lemma insert_fix_spec d d' C g kg u p kp x t n m b cu σ :
  holds σ (Fr d' true (Fr d false C g kg u) p kp x) t -> addr t = n ->
  ok true m t -> ok false m x -> ok cu m u -> cok b (S m) C ->
  wp (insert_fix s d n) σ (fun n' σ' => exists C' t' m' b',
    n' = addr t' /\ holds σ' C' t' /\ ok true m' t' /\ cok b' m' C' /\
    (C' = C \/ (b' = true /\ depth C' = S (depth C)))).
Proof.
  intros H <- Ht Hx Hu HC. inversion Ht as [|? l n k r Hl Hr|]; subst. cbn [addr].
  destruct cu.
  - inversion Hu; subst. eapply wp_mono; [by eapply insert_fix_red|].
    intros n' σ' [-> H']. eexists C, _, _, _.
    split; [|split; [exact H'|]]; [by rewrite addr_join|].
    split; [|split; [exact HC|by left]].
    apply ok_join_red; [|by econstructor]. by eapply ok_join_black.
  - apply ok_color in Hu as Hcu. destruct (decide (d' = d)) as [->|Hne].
    + eapply wp_mono; [by eapply insert_fix_outer|].
      intros n' σ' [-> H']. do 4 eexists. split; [|split; [exact H'|]]; [done|].
      split; [exact Ht|]. split; [|right; split; reflexivity].
      eapply cok_black; [done|]. by apply ok_join_red.
    + assert (d' = other d) as -> by (by destruct d, d').
      assert (exists l' r', T true l n k r = join d true l' n k r' /\ ok false m l' /\ ok false m r')
        as (l' & r' & E & Hl' & Hr') by (destruct d; eauto).
      rewrite E in H. eapply wp_mono; [by eapply insert_fix_inner|].
      intros n' σ' [-> H']. do 4 eexists. split; [|split; [exact H'|]]; [by rewrite addr_join|].
      split; [by apply ok_join_red|]. split; [|right; split; reflexivity].
      eapply cok_black; [done|]. by apply ok_join_red.
Qed.

(** From the root of the tree. *)
Lemma holds_plug σ C t : holds σ C t -> holds σ Top (plug C t).
Proof.
  revert t. induction C as [|d c C IH a k x]; intros t H; cbn [plug]; [done|].
  by apply IH, zoom_out.
Qed.

Lemma holds_alloc σ C t a : holds σ C t -> a ∈ L.*1 -> is_Some (heap σ !! a).
Proof.
  intros H Ha. apply holds_plug in H. rewrite <- (holds_elems _ _ _ _ _ _ H) in Ha.
  eapply stored_alloc; [apply (holds_tree _ _ _ _ _ _ H)|].
  unfold elems in Ha. cbn in Ha. by rewrite (right_id_L [] (++)) in Ha.
Qed.

Lemma holds_size σ C t : holds σ C t -> (length L <= size (heap σ))%nat.
Proof.
  intros H. apply NoDup_cons in Hnodup as [_ Hnd]. rewrite <- (length_fmap fst).
  apply nodup_length_dom; [done|]. intros a Ha. by eapply holds_alloc.
Qed.

Lemma insert_balance_spec f n C t m b σ :
  holds σ C t -> addr t = n -> ok true m t -> cok b m C ->
  ((if b then 0 else depth C) < f)%nat ->
  wp (insert_balance s f n) σ (fun _ σ' => exists t' c' m', holds σ' Top t' /\ ok c' m' t').
Proof.
  revert n C t m b σ. induction f as [|f IH]; intros n C t m b σ H <- Ht HC Hf; [lia|].
  cbn [insert_balance]. repeat wp_pure. pose proof (holds_apart _ _ _ H) as Hd.
  assert (t <> E) as HtE by (by inversion Ht).
  destruct (decide (addr t = root σ)) as [Hr|Hr].
  { apply (root_focus _ _ _ H) in Hr as ->. repeat wp_pure. eauto. }
  rewrite (root_focus _ _ _ H) in Hr.
  inversion HC as [| d C0 p kp x ? HC0 Hx | d C0 p kp x ? b' c HC0 Hx]; subst; [done| |].
  - inversion HC0 as [| | d2 C1 g kg u ? b2 c2 HC1 Hu]; subst.
    inversion Ht as [|? l n k r Hl Hr'|]; subst. cbn [addr] in *. hread H.
    rewrite cell_red. hread H. rewrite cell_parent. hread H.
    rewrite cell_side by (destruct (addr_in u) as [->|]; apart Hd).
    eapply wp_mono; [by eapply insert_fix_spec|].
    intros n' σ' (C' & t' & m' & b3 & -> & H' & Ht' & HC' & [-> | [-> HD]]);
      eapply IH; eauto; cbn [depth] in Hf; try destruct b3; cbn; lia.
  - inversion Ht as [|? l n k r Hl Hr'|]; subst. cbn [addr] in *. hread H.
    rewrite cell_red. repeat wp_pure. destruct (plug_ok _ _ _ _ _ Ht HC) as [m' Hm]; [done|].
    apply holds_plug in H. eauto.
Qed.

(** ** Re-balancing after a deletion *)

(** The focus may be the sentinel, whose parent the deletion has set. *)
Definition linked (C : ctx) (t : rb) : Prop := t = E -> parent sn = up q C.

Lemma wp_load_focus C t σ Q : holds σ C t -> linked C t ->
  (forall nt, parent nt = up q C -> Q nt σ) -> wp (load (addr t)) σ Q.
Proof.
  intros H Hl HQ. destruct t as [|c l a k r]; cbn [addr].
  - eapply wp_load; [by eapply holds_sentinel|]. by apply HQ, Hl.
  - destruct (holds_tree _ _ _ _ _ _ H) as (Ha & _). eapply wp_load; [exact Ha|]. by apply HQ.
Qed.

(** Reads the parent of the focus. *)
Ltac hparent H Hl :=
  eapply (wp_load_focus _ _ _ _ H); [exact Hl|];
  let nt := fresh "nt" in let Hnt := fresh "Hnt" in
  intros nt Hnt; repeat wp_pure; rewrite Hnt; clear nt Hnt; cbn [up].

Lemma black_sibling_red d C p kp wl w kw wr t σ :
  holds σ (Fr d false C p kp (join d true wl w kw wr)) t -> linked (Fr d false C p kp E) t ->
  wp (black_sibling s d (addr t)) σ (fun w' σ' => w' = addr wl /\
    holds σ' (Fr d true (Fr d false C w kw wr) p kp wl) t).
Proof.
  intros H Hl. unfold black_sibling.
  destruct d; hread H; hparent H Hl; hread H; hcolor H color_sibling; hread H; hparent H Hl;
    hread H; hcolor H color_frame; hread H; hparent H Hl; apply zoom_out in H.
  - hrotate H Left. do 2 apply (zoom_in _ Left) in H. hread H. hparent H Hl. hread H. done.
  - hrotate H Right. do 2 apply (zoom_in _ Right) in H. hread H. hparent H Hl. hread H. done.
Qed.

Lemma black_sibling_black d c C p kp wl w kw wr t σ :
  holds σ (Fr d c C p kp (join d false wl w kw wr)) t -> linked (Fr d c C p kp E) t ->
  wp (black_sibling s d (addr t)) σ (fun w' σ' => w' = w /\ σ' = σ).
Proof.
  intros H Hl. unfold black_sibling. destruct d; hread H; hparent H Hl; by hread H.
Qed.

Lemma far_red_red d c C p kp wl w kw xl x kx xr t σ :
  holds σ (Fr d c C p kp (join d false wl w kw (T true xl x kx xr))) t ->
  wp (far_red s d (addr t) w) σ (fun w' σ' => w' = w /\ σ' = σ).
Proof. intros H. unfold far_red. destruct d; by hread H. Qed.

Lemma far_red_black d c C p kp xl x kx xr w kw wr t σ :
  holds σ (Fr d c C p kp (join d false (join d true xl x kx xr) w kw wr)) t ->
  linked (Fr d c C p kp E) t -> color wr = false ->
  wp (far_red s d (addr t) w) σ (fun w' σ' => w' = x /\
    holds σ' (Fr d c C p kp (join d false xl x kx (join d true xr w kw wr))) t).
Proof.
  intros H Hl Hwr. pose proof (holds_sentinel _ _ _ H) as Hs. unfold far_red.
  destruct d; hread H; hisred H Hs Hwr; hread H; apply holds_swap in H; cbn [join other] in H.
  - apply (zoom_in _ Left) in H. hcolor H (color_spec Left). hread H. hcolor H color_frame.
    apply zoom_out in H. hread H. hrotate H Right. apply holds_swap in H. hread H. hparent H Hl.
    by hread H.
  - apply (zoom_in _ Right) in H. hcolor H (color_spec Right). hread H. hcolor H color_frame.
    apply zoom_out in H. hread H. hrotate H Left. apply holds_swap in H. hread H. hparent H Hl.
    by hread H.
Qed.

Lemma settle_black d c C p kp wl w kw wr t σ :
  holds σ (Fr d c C p kp (join d false wl w kw wr)) t -> linked (Fr d c C p kp E) t ->
  color wl = false -> color wr = false ->
  wp (settle s d (addr t) w) σ (fun p' σ' => p' = p /\
    holds σ' C (join d c t p kp (join d true wl w kw wr))).
Proof.
  intros H Hl H1 H2. pose proof (holds_sentinel _ _ _ H) as Hs. unfold settle.
  destruct d; hread H;
    [hisred H Hs H1; hread H; hisred H Hs H2 | hisred H Hs H2; hread H; hisred H Hs H1];
    hread H; hcolor H color_sibling; hread H; hparent H Hl; by apply zoom_out in H.
Qed.

(** Once the child [x] of the sibling away from [temp] is red, a rotation
    ends the loop. *)
Lemma settle_rotate d c C p kp wl w kw xl x kx xr t σ (Q : ptr -> state -> Prop) :
  holds σ (Fr d c C p kp (join d false wl w kw (T true xl x kx xr))) t ->
  linked (Fr d c C p kp E) t ->
  (forall σ', holds σ' C (join d c (join d false t p kp wl) w kw (T false xl x kx xr)) ->
     Q (root σ') σ') ->
  wp (p ← parent_of (addr t); ngx_rbt_copy_color w p ;;
      p ← parent_of (addr t); ngx_rbt_black p ;;
      x ← child (other d) w; ngx_rbt_black x ;;
      p ← parent_of (addr t); rotate s d p ;;
      gets root) σ Q.
Proof.
  intros H Hl HQ. destruct d; hread H; hparent H Hl; unfold ngx_rbt_copy_color; hread H;
    hcolor H color_sibling; hread H; hparent H Hl; hcolor H color_frame; hread H;
    apply holds_swap in H; cbn [join other] in H.
  - apply (zoom_in _ Right) in H. hcolor H (color_spec Left). apply zoom_out, holds_swap in H.
    hread H. hparent H Hl. apply zoom_out in H. hrotate H Left. hread H. by apply HQ.
  - apply (zoom_in _ Left) in H. hcolor H (color_spec Left). apply zoom_out, holds_swap in H.
    hread H. hparent H Hl. apply zoom_out in H. hrotate H Right. hread H. by apply HQ.
Qed.

Definition blacken (t : rb) : rb := match t with E => E | T _ l a k r => T false l a k r end.

(** [t] lacks one black node; when its root is red, the root only has to
    become black. *)
Definition short (m : nat) (t : rb) : Prop :=
  ok false m t \/ (color t = true /\ ok false (S m) (blacken t)).

Lemma short_join d t p k x m : ok false m t -> ok true m x -> short m (join d true t p k x).
Proof.
  intros Ht Hx. right. split; [by destruct d|].
  replace (blacken (join d true t p k x)) with (join d false t p k x) by (by destruct d).
  by eapply ok_join_black.
Qed.

(** A node of color [c] over trees of black height [n] fits in the hole. *)
Definition accepts (c : bool) (n : nat) (C : ctx) : Prop :=
  if c then cok true n C else exists b, cok b (S n) C.

Lemma cok_frame_inv d c C a k x b n : cok b n (Fr d c C a k x) ->
  accepts c n C /\ exists cx, ok cx n x /\ (c = true -> cx = false).
Proof. inversion 1; subst; cbn; split; eauto; eexists; split; eauto; done. Qed.

Lemma accepts_plug d c C n l a k r : accepts c n C -> ok false n l -> ok false n r ->
  exists m, ok false m (plug C (join d c l a k r)).
Proof.
  destruct c; cbn; [|intros [b HC]]; intros; eapply plug_ok; eauto using ok_join_red, ok_join_black.
  done.
Qed.

(** What is left to do after an iteration, the focus being [t] under [C]. *)
Definition fixed (n : ptr) (σ : state) (C : ctx) (P : rb -> Prop) : Prop :=
  (exists t m b, n = addr t /\ t <> E /\ holds σ C t /\ short m t /\ cok b (S m) C /\ P t) \/
  (n = root σ /\ exists t m, holds σ Top t /\ ok false m t).

Lemma settle_rotate_ok d c C p kp wl w kw xl x kx xr t m c1 σ :
  holds σ C (join d c (join d false t p kp wl) w kw (T false xl x kx xr)) ->
  accepts c (S m) C -> ok false m t -> ok c1 m wl -> ok true m (T true xl x kx xr) ->
  exists t m, holds σ Top t /\ ok false m t.
Proof.
  intros H HC Ht Hw Hx. inversion Hx; subst. apply holds_plug in H.
  destruct (accepts_plug d c C (S m) (join d false t p kp wl) w kw (T false xl x kx xr)) as [m' Hm];
    eauto using ok_join_black, ok_black.
Qed.

Lemma settle_spec d c C p kp wl w kw wr t m c1 c2 σ :
  holds σ (Fr d c C p kp (join d false wl w kw wr)) t -> linked (Fr d c C p kp E) t ->
  ok false m t -> ok c1 m wl -> ok c2 m wr -> accepts c (S m) C ->
  wp (settle s d (addr t) w) σ (fun n σ' => fixed n σ' C (fun t' => c = true -> color t' = true)).
Proof.
  intros H Hl Ht H1 H2 HC. destruct c2.
  - (* the far child is red *)
    inversion H2 as [|? xl x kx xr Hxl Hxr|]; subst. pose proof (holds_sentinel _ _ _ H) as Hs.
    pose proof (ok_color _ _ _ H1) as E1. unfold settle.
    destruct d; hread H; [hisred H Hs E1; hread H | hread H; hisred H Hs E1];
      rewrite ?andb_false_r; cbn [andb negb];
      (apply wp_bind; eapply wp_mono; [by eapply far_red_red|]); intros w' σ' [-> ->];
      eapply settle_rotate; eauto; intros σ' H'; right; eauto using settle_rotate_ok.
  - pose proof (ok_color _ _ _ H2) as E2. destruct c1.
    + (* the near child is red *)
      inversion H1 as [|? xl x kx xr Hxl Hxr|]; subst. pose proof (holds_sentinel _ _ _ H) as Hs.
      assert (exists l' r', T true xl x kx xr = join d true l' x kx r' /\ ok false m l' /\ ok false m r')
        as (l' & r' & E & Hl' & Hr') by (destruct d; eauto).
      unfold settle.
      destruct d; hread H; [hread H; hisred H Hs E2 | hisred H Hs E2; hread H];
        rewrite ?andb_false_r; cbn [andb negb]; rewrite E in H;
        (apply wp_bind; eapply wp_mono; [by eapply far_red_black|]); intros w' σ' [-> H'];
        eapply settle_rotate; eauto; intros σ2 H2'; right; split; try done;
        eapply settle_rotate_ok; eauto using ok_red.
    + eapply wp_mono; [eapply settle_black; eauto using ok_color|].
      intros p' σ' [-> H']. left.
      assert (ok true m (join d true wl w kw wr)) as Hw by (by apply ok_join_red).
      destruct c; [exists (join d true t p kp (join d true wl w kw wr)), m, true
                  | destruct HC as [b HC]; exists (join d false t p kp (join d true wl w kw wr)), (S m), b];
        (split; [by rewrite addr_join|]); (split; [by destruct d|]); (split; [done|]).
      * split; [by apply short_join|]. split; [done|]. by destruct d.
      * split; [left; by eapply ok_join_black|]. done.
Qed.

(** A tree of positive black height has a root. *)
Lemma ok_black_inv d m t : ok false (S m) t -> exists c1 c2 l a k r,
  t = join d false l a k r /\ ok c1 m l /\ ok c2 m r.
Proof. inversion 1; subst. destruct d; [do 6 eexists|do 2 eexists; exists r, a, k, l]; eauto. Qed.

Lemma ok_red_inv d m t : ok true m t -> exists l a k r,
  t = join d true l a k r /\ ok false m l /\ ok false m r.
Proof. inversion 1; subst. destruct d; [do 4 eexists|exists r, a, k, l]; eauto. Qed.

Lemma delete_fix_spec d c C p kp x t m b σ :
  holds σ (Fr d c C p kp x) t -> linked (Fr d c C p kp E) t ->
  ok false m t -> cok b (S m) (Fr d c C p kp x) ->
  wp (delete_fix s d (addr t)) σ (fun n σ' => exists C',
    fixed n σ' C' (fun t' => color t' = true \/ C' = C)).
Proof.
  intros H Hl Ht HC. apply cok_frame_inv in HC as (HC & cx & Hx & Hc).
  unfold delete_fix. destruct cx.
  - destruct c; [by specialize (Hc eq_refl)|]. destruct HC as [b' HC].
    apply (ok_red_inv d) in Hx as (wl & w & kw & wr & -> & Hwl & Hwr).
    apply wp_bind. eapply wp_mono; [by eapply black_sibling_red|].
    intros w' σ' [-> H']. apply (ok_black_inv d) in Hwl as (c1 & c2 & l1 & a1 & k1 & r1 & -> & Hl1 & Hr1).
    rewrite addr_join. eapply wp_mono.
    { eapply settle_spec; [exact H' | exact Hl | done..|]. cbn. by econstructor. }
    intros n σ2 [(t' & m' & b2 & E1 & E2 & E3 & E4 & E5 & E6)|Hend];
      exists (Fr d false C w kw wr); [left|right; exact Hend].
    do 3 eexists. repeat (split; [eassumption|]). left. by apply E6.
  - apply (ok_black_inv d) in Hx as (c1 & c2 & l1 & a1 & k1 & r1 & -> & Hl1 & Hr1).
    apply wp_bind. eapply wp_mono; [by eapply black_sibling_black|]. intros w' σ' [-> ->].
    eapply wp_mono; [by eapply settle_spec|].
    intros n σ2 [(t' & m' & b2 & E1 & E2 & E3 & E4 & E5 & E6)|Hend]; exists C; [left|right; exact Hend].
    do 3 eexists. repeat (split; [eassumption|]). by right.
Qed.

Lemma blacken_spec σ C t m b : holds σ C t -> t <> E -> ok false m (blacken t) -> cok b m C ->
  wp (ngx_rbt_black (addr t)) σ (fun _ σ' => exists t' m', holds σ' Top t' /\ ok false m' t').
Proof.
  intros H Ht Hok HC. destruct t as [|c l a k r]; [done|]. cbn [addr blacken] in *.
  eapply wp_mono; [by eapply (color_spec Left)|]. intros [] σ' H'. cbn beta in H'.
  apply holds_plug in H'. destruct (plug_ok C m false b (T false l a k r)) as [m' Hm]; eauto; done.
Qed.

(** The sibling of a tree that lacks a black node is not empty. *)
Lemma focus_not_sibling σ d c C p kp x t m b :
  holds σ (Fr d c C p kp x) t -> cok b (S m) (Fr d c C p kp x) -> addr t <> addr x.
Proof.
  intros H HC. pose proof (holds_apart _ _ _ H) as Hd.
  apply cok_frame_inv in HC as (_ & cx & Hx & _).
  destruct x as [|cx' l a k r]; [by inversion Hx|]. cbn [addr]. destruct t; cbn [addr]; apart Hd.
Qed.

Lemma holds_nonempty σ d c C p kp x t σ' :
  holds σ (Fr d c C p kp x) t -> ~ holds σ' Top E.
Proof.
  intros H H'. pose proof (holds_elems _ _ _ _ _ _ H) as HL.
  rewrite <- (holds_elems _ _ _ _ _ _ H') in HL. unfold elems in HL. destruct d; cbn in HL.
  - apply (f_equal length) in HL. rewrite !length_app in HL. cbn in HL. lia.
  - apply (f_equal length) in HL. rewrite !length_app in HL. cbn in HL. lia.
Qed.

Lemma delete_balance_spec f σ C t m b :
  holds σ C t -> linked C t -> short m t -> cok b (S m) C -> (t = E -> C <> Top) ->
  ((if color t then 0 else depth C) < f)%nat ->
  wp (delete_balance s f (addr t)) σ (fun _ σ' => exists t' m', holds σ' Top t' /\ ok false m' t').
Proof.
  revert σ C t m b. induction f as [|f IH]; intros σ C t m b H Hl Ht HC HE Hf; [lia|].
  cbn [delete_balance]. repeat wp_pure. pose proof (holds_sentinel _ _ _ H) as Hs.
  pose proof (holds_apart _ _ _ H) as Hd.
  destruct (decide (addr t = root σ)) as [Hr|Hr].
  { apply (root_focus _ _ _ H) in Hr as ->. assert (t <> E) as HtE by (intros ->; by apply HE).
    destruct Ht as [Ht|[_ Ht]]; (eapply blacken_spec; [done | done | | by apply cok_Top]); [|done].
    by inversion Ht; subst. }
  rewrite (root_focus _ _ _ H) in Hr. repeat wp_step fail.
  eapply wp_load_tree; [by apply (holds_tree _ _ _ _ _ _ H) | done|]. intros nd Hnd. repeat wp_pure.
  rewrite Hnd. destruct Ht as [Ht|[Hc Ht]].
  - pose proof (ok_color _ _ _ Ht) as Hct. rewrite Hct in *.
    destruct C as [|d c C p kp x]; [done|]. hread H. hparent H Hl. hread H.
    rewrite cell_side by (by eapply focus_not_sibling).
    eapply wp_mono; [by eapply delete_fix_spec|].
    intros n σ' (C' & [(t' & m' & b' & -> & E2 & E3 & E4 & E5 & E6)|(-> & t' & m' & H' & Hok)]).
    + eapply IH; [exact E3 | by intros -> | exact E4 | exact E5 | by intros -> |]. cbn in Hf.
      destruct E6 as [-> | ->]; [|destruct (color t')]; cbn; lia.
    + rewrite (holds_root _ _ _ _ _ _ H'). cbn [top].
      eapply (IH _ Top); [done| |by left|by constructor| |cbn in *; destruct (color t'); lia].
      all: intros ->; exfalso; by eapply holds_nonempty.
  - rewrite Hc. eapply blacken_spec; eauto. by intros ->.
Qed.

Lemma plug_ok_inv C t m c : ok c m (plug C t) -> c = false ->
  exists b c' m', cok b m' C /\ ok c' m' t /\ (c' = true -> b = true).
Proof.
  revert t m c. induction C as [|d c C IH a k x]; intros t m c0 H ->; cbn [plug] in H.
  - exists false, false, m. repeat split; [constructor|done|done].
  - destruct (IH _ _ _ H eq_refl) as (b & c' & m' & HC & Ht & Hb).
    assert (exists c1 c2 m1, ok c1 m1 t /\ ok c2 m1 x /\
      ((c = true /\ c' = true /\ m' = m1 /\ c1 = false /\ c2 = false) \/ (c = false /\ m' = S m1)))
      as (c1 & c2 & m1 & Ht1 & Hx & [(-> & -> & -> & -> & ->) | (-> & ->)]).
    { destruct d; cbn [join] in Ht; inversion Ht; subst; do 3 eexists; (split; [eassumption|]);
        (split; [eassumption|]); naive_solver. }
    + exists false, false, m1. repeat split; [|done|done]. rewrite Hb in HC by done. by constructor.
    + exists true, c1, m1. repeat split; [|done]. by econstructor.
Qed.

End Rotation.

(** ** Sorted trees *)

(** [less e x]: the node [e] goes to the left of the node [x]. *)
Section Order.
Variable less : ptr * Z -> ptr * Z -> bool.

Definition sorted (L : list (ptr * Z)) : Prop :=
  StronglySorted (fun e e' => less e' e = false) L.

(** The place of a new node: before the first that is greater. *)
Fixpoint place (e : ptr * Z) (L : list (ptr * Z)) : list (ptr * Z) :=
  match L with
  | [] => [e]
  | e' :: L' => if less e e' then e :: L else e' :: place e L'
  end.

(** The comparison with the new node [e] orders the nodes of [L]. *)
Definition coherent (e : ptr * Z) (L : list (ptr * Z)) : Prop :=
  forall x, x ∈ L ->
    (less e x = true -> less x e = false) /\
    forall y, y ∈ L -> less e x = true -> less y x = false -> less e y = true.

Lemma place_split e A B :
  Forall (fun x => less e x = false) A -> Forall (fun x => less e x = true) B ->
  place e (A ++ B) = A ++ e :: B.
Proof.
  induction 1 as [|x A Hx HA IH]; intros HB; cbn; [|by rewrite Hx, IH].
  destruct HB as [|y B Hy HB]; cbn; by rewrite ?Hy.
Qed.

Lemma place_perm e L : place e L ≡ₚ e :: L.
Proof.
  induction L as [|x L IH]; cbn; [done|]. destruct (less e x); [done|].
  rewrite IH. apply Permutation_swap.
Qed.

Lemma sorted_split A x B : sorted (A ++ x :: B) ->
  Forall (fun y => less x y = false) A /\ Forall (fun y => less y x = false) B.
Proof.
  unfold sorted. induction A as [|y A IH]; cbn; intros H; inversion H as [|? ? HS HF]; subst.
  - split; [constructor|]. done.
  - destruct (IH HS) as [H1 H2]. split; [|done]. constructor; [|done].
    rewrite Forall_forall in HF. apply HF. set_solver.
Qed.

Lemma sorted_app A B : sorted A -> sorted B ->
  (forall x y, x ∈ A -> y ∈ B -> less y x = false) -> sorted (A ++ B).
Proof.
  unfold sorted. induction 1 as [|x A HA IH HF]; intros HB H; cbn; [done|].
  constructor; [apply IH; [done|]; intros; apply H; set_solver|].
  rewrite Forall_forall in *. intros y Hy. apply elem_of_app in Hy as [Hy|Hy]; [auto|].
  apply H; set_solver.
Qed.

Lemma sorted_app_inv A B : sorted (A ++ B) -> sorted A /\ sorted B.
Proof.
  unfold sorted. induction A as [|x A IH]; cbn; intros H; [split; [constructor|done]|].
  inversion H as [|? ? HS HF]; subst. destruct (IH HS) as [H1 H2]. split; [|done].
  constructor; [done|]. rewrite Forall_forall in *. intros y Hy. apply HF. set_solver.
Qed.

Lemma sorted_place e A B :
  sorted (A ++ B) -> coherent e (A ++ B) ->
  Forall (fun x => less e x = false) A -> Forall (fun x => less e x = true) B ->
  sorted (A ++ e :: B).
Proof.
  intros HS HC HA HB. destruct (sorted_app_inv _ _ HS) as [SA SB].
  rewrite Forall_forall in *. change (e :: B) with ([e] ++ B). apply sorted_app; [done| |].
  - apply sorted_app; [repeat constructor|done|]. intros x y Hx Hy.
    apply list_elem_of_singleton in Hx as ->.
    apply HC; [|by apply HB]. set_solver.
  - intros x y Hx Hy. apply elem_of_app in Hy as [Hy|Hy].
    + apply list_elem_of_singleton in Hy as ->. by apply HA.
    + clear HC. apply list_elem_of_split in Hx as (A1 & A2 & ->).
      rewrite <- (assoc_L (++)) in HS. apply sorted_split in HS as [_ HS].
      rewrite Forall_forall in HS. apply HS. set_solver.
Qed.

Lemma coherent_sub k L L' : coherent k L -> (forall x, x ∈ L' -> x ∈ L) -> coherent k L'.
Proof.
  intros H Hsub x Hx. destruct (H x) as [H1 H2]; [by apply Hsub|]. split; [done|]. auto.
Qed.

Lemma place_sorted e L : sorted L -> coherent e L -> sorted (place e L).
Proof.
  intros HS HC. assert (exists A B, L = A ++ B /\ Forall (fun x => less e x = false) A /\
    Forall (fun x => less e x = true) B) as (A & B & -> & HA & HB).
  { induction L as [|x L IH]; [by exists [], []|].
    destruct (less e x) eqn:Hx.
    - exists [], (x :: L). split; [done|]. split; [constructor|].
      apply (sorted_split []) in HS as [_ HS]. constructor; [done|].
      rewrite Forall_forall in *. intros y Hy. destruct (HC x) as [_ H2]; [set_solver|].
      apply H2; [|done|by apply HS]. set_solver.
    - destruct IH as (A & B & -> & HA & HB).
      + by destruct (sorted_app_inv [x] L HS).
      + eapply coherent_sub; [done|]. set_solver.
      + exists (x :: A), B. split; [done|]. split; [by constructor|done]. }
  rewrite place_split by done. by apply sorted_place.
Qed.

End Order.

(** ** Insertion *)

Section Attach.
Variables (h0 : gmap ptr node) (L : list (ptr * Z)) (q : ptr).
Hypothesis Hnodup : NoDup (s :: L.*1).
Variable less : ptr * Z -> ptr * Z -> bool.
Variables (n : ptr) (nd : node).
Hypotheses (Hn : n ∉ s :: L.*1).
Hypotheses (Hsorted : sorted less L) (Hcoh : coherent less (n, key nd) L).

#[local] Abbreviation held := (holds h0 L q).

Definition between (C : ctx) : Prop :=
  Forall (fun x => less (n, key nd) x = false) (before C) /\
  Forall (fun x => less (n, key nd) x = true) (after C).

Lemma coherent_in A x B y : L = A ++ x :: B -> y ∈ L ->
  less (n, key nd) x = true -> less y x = false -> less (n, key nd) y = true.
Proof.
  intros E Hy. apply Hcoh; [rewrite E; set_solver|done].
Qed.

(** One step down keeps the place of the new node between what is before
    the context and what is after it. *)
Lemma between_step σ C c l a k r :
  held σ C (T c l a k r) -> between C ->
  between (if less (n, key nd) (a, k) then Fr Left c C a k r else Fr Right c C a k l).
Proof.
  intros H [HB HA]. pose proof (holds_elems _ _ _ _ _ _ H) as E.
  unfold elems in E. cbn [inorder] in E. symmetry in E.
  rewrite <- (assoc_L (++)), (assoc_L (++)) in E. cbn in E. pose proof E as E2.
  pose proof Hsorted as HS. rewrite E in HS. apply sorted_split in HS as [S1 S2].
  rewrite Forall_forall in *.
  destruct (less (n, key nd) (a, k)) eqn:Hk; split; cbn; rewrite ?Forall_forall; try done.
  - intros y [->|Hy]%elem_of_cons; [done|].
    eapply (coherent_in _ (a, k)); [exact E2 | rewrite E2; set_solver | done |]. by apply S2.
  - intros y Hy. apply elem_of_app in Hy as [Hy|Hy]; [auto|].
    apply elem_of_app in Hy as [Hy| ->%list_elem_of_singleton]; [|done].
    destruct (less (n, key nd) y) eqn:Hky; [|done]. rewrite <- Hk. symmetry.
    apply list_elem_of_split in Hy as (l1 & l2 & Hl). rewrite Hl in E2.
    eapply (coherent_in (before C ++ l1) y (l2 ++ (a, k) :: inorder r ++ after C) (a, k)); [| |done|].
    + rewrite E2. by rewrite <- !(assoc_L (++)).
    + rewrite E2. set_solver.
    + apply S1. rewrite Hl. set_solver.
Qed.

Lemma insert_loop_spec f σ C c l a k r :
  held σ C (T c l a k r) -> between C -> heap σ !! n = Some nd ->
  (length (inorder (T c l a k r)) <= f)%nat ->
  wp (insert_loop s less f a n) σ (fun p σ' => σ' = σ /\ exists c' C' k' x,
    let C1 := Fr p.2 c' C' p.1 k' x in
    held σ C1 E /\ between C1 /\ plug C1 E = plug C (T c l a k r)).
Proof.
  revert C c l a k r. induction f as [|f IH]; intros C c l a k r H HB Hnd Hf.
  { cbn in Hf. rewrite length_app in Hf. cbn in Hf. lia. }
  cbn [insert_loop]. pose proof (between_step _ _ _ _ _ _ _ H HB) as HB'.
  cbn [inorder] in Hf. rewrite length_app in Hf. cbn [length] in Hf.
  repeat wp_step ltac:(idtac; first [eassumption | cells H]).
  pose proof (holds_apart _ _ _ Hnodup _ _ _ H) as Hd.
  destruct (less (n, key nd) (a, k)); cbn [get_child left right].
  - destruct l as [|c' l' a' k' r']; cbn [addr].
    + rewrite decide_True by done. wp_pure. split; [done|]. do 4 eexists.
      split; [|split; [exact HB'|done]]. by apply (zoom_in _ _ _ _ Left).
    + rewrite decide_False by apart Hd.
      eapply wp_mono; [eapply (IH (Fr Left c C a k r)); eauto; [by apply zoom_in|lia]|].
      intros p σ' (-> & c2 & C2 & k2 & x2 & H2 & HB2 & HP). split; [done|].
      do 4 eexists. split; [exact H2|]. split; [exact HB2|]. by rewrite HP.
  - destruct r as [|c' l' a' k' r']; cbn [addr].
    + rewrite decide_True by done. wp_pure. split; [done|]. do 4 eexists.
      split; [|split; [exact HB'|done]]. by apply (zoom_in _ _ _ _ Right).
    + rewrite decide_False by apart Hd.
      eapply wp_mono; [eapply (IH (Fr Right c C a k l)); eauto; [by apply zoom_in|lia]|].
      intros p σ' (-> & c2 & C2 & k2 & x2 & H2 & HB2 & HP). split; [done|].
      do 4 eexists. split; [exact H2|]. split; [exact HB2|]. by rewrite HP.
Qed.

Lemma attach_spec σ t :
  held σ Top t -> t <> E -> heap σ !! n = Some nd ->
  wp (insert_by s less (addr t) n) σ (fun _ σ' => exists C,
    plug C E = t /\
    holds h0 (place less (n, key nd) L) q σ' C (T true E n (key nd) E)).
Proof.
  intros H Ht Hnd. destruct t as [|c l a k r]; [done|]. cbn [addr]. unfold insert_by.
  pose proof (holds_size _ _ _ Hnodup _ _ _ H) as Hsize.
  do 3 (wp_step eassumption). eapply wp_mono.
  { eapply (insert_loop_spec _ _ Top); [done| |done|].
    - split; constructor.
    - rewrite <- (holds_elems _ _ _ _ _ _ H) in Hsize. unfold elems in Hsize. cbn [before after] in Hsize.
      rewrite (right_id_L [] (++)) in Hsize. cbn [app] in Hsize. lia. }
  intros [p d] σ' (-> & c' & C & k' & x & H1 & HB & HP). cbn [fst snd] in *.
  pose proof (holds_apart _ _ _ Hnodup _ _ _ H1) as Hd.
  destruct H1 as [_ (Hp & Hx & HC) Hr HL HF]. cbn [addr up] in *.
  rewrite elem_of_cons in Hn. assert (n <> s /\ n ∉ L.*1) as [Hns HnL] by tauto.
  rewrite <- HL in HnL.
  assert (n <> p) as Hnp by (intros ->; apply HnL; rewrite elem_occ; autorewrite with occ; lia).
  assert (n ∉ addrs x) as Hnx by (rewrite not_elem_occ in *; autorewrite with occ in HnL; lia).
  assert (n ∉ caddrs C) as HnC by (rewrite not_elem_occ in *; autorewrite with occ in HnL; lia).
  repeat wp_step ltac:(idtac; look Hd).
  exists (Fr d c' C p k' x). split; [done|]. constructor; cbn [heap root].
  - cbn [stored addr up]. split; [|done]. look Hd.
  - cbn [cstored addr]. split; [|split]; [|frame Hd..].
    rewrite !lookup_insert_ne by done. rewrite lookup_insert_eq. by destruct d.
  - done.
  - destruct HB as [HB1 HB2]. rewrite <- HL. unfold elems. cbn [inorder app].
    symmetry. by apply place_split.
  - intros b Hb. rewrite place_perm, fmap_cons, not_elem_of_cons, <- HL in Hb. cbn [fst] in Hb.
    destruct Hb as [Hbn HbL].
    assert (b <> p) by (intros ->; apply HbL; rewrite elem_occ; autorewrite with occ; lia).
    rewrite !lookup_insert_ne by done. apply HF. by rewrite <- HL.
Qed.

End Attach.

(** ** The tree as a whole

    [tree_at σ L]: the memory [σ] holds a red-black tree of the nodes [L] in
    order. *)
Definition tree_at (σ : state) (L : list (ptr * Z)) : Prop :=
  NoDup (s :: L.*1) /\
  (exists sn, heap σ !! s = Some sn /\ red sn = false) /\
  exists q t m, holds (heap σ) L q σ Top t /\ ok false m t.

(** The memory outside of the tree and the sentinel. *)
Definition same_outside (l : list ptr) (σ σ' : state) : Prop :=
  forall a, a ∉ s :: l -> heap σ' !! a = heap σ !! a.

(** What a function [tree->insert] promises to ngx_rbtree_insert(): the new
    node becomes a red leaf at its place in the order. *)
Class InsertPt (less : ptr * Z -> ptr * Z -> bool) (insert : ptr -> ptr -> M state unit) : Prop :=
  insert_attaches : forall h0 L q n nd σ t,
    NoDup (s :: L.*1) -> n ∉ s :: L.*1 -> sorted less L -> coherent less (n, key nd) L ->
    holds h0 L q σ Top t -> t <> E -> heap σ !! n = Some nd ->
    wp (insert (addr t) n) σ (fun _ σ' => exists C,
      plug C E = t /\
      holds h0 (place less (n, key nd) L) q σ' C (T true E n (key nd) E)).

#[export] Instance insert_by_attaches less : InsertPt less (insert_by s less).
Proof. intros h0 L q n nd σ t; intros. by apply attach_spec. Qed.

Lemma holds_rebase h0 L q σ C t : holds h0 L q σ C t -> holds (heap σ) L q σ C t.
Proof. by intros []; constructor. Qed.

Lemma ok_paint c m t d l a k r :
  ok c m t -> t = join d c l a k r -> exists m', ok false m' (join d false l a k r).
Proof.
  intros H ->. destruct d; inversion H; subst; eexists; by eapply ok_black.
Qed.

Lemma insert_spec less insert `{!InsertPt less insert} σ L n nd :
  tree_at σ L -> heap σ !! n = Some nd -> n ∉ s :: L.*1 ->
  sorted less L -> coherent less (n, key nd) L ->
  wp (ngx_rbtree_insert s insert n) σ (fun _ σ' =>
    tree_at σ' (place less (n, key nd) L) /\ sorted less (place less (n, key nd) L) /\
    same_outside (n :: L.*1) σ σ').
Proof.
  intros (Hd & (sn & Hs & Hb) & q & t & m & H & Hok) Hn HnL HS HC.
  assert (NoDup (s :: (place less (n, key nd) L).*1)) as Hd'.
  { rewrite place_perm, fmap_cons. cbn [fst]. rewrite elem_of_cons in HnL.
    apply NoDup_cons in Hd as [H1 H2]. repeat (apply NoDup_cons; split); [set_solver|tauto|done]. }
  eapply wp_mono with (Q := fun _ σ' => (exists q t m,
    holds (heap σ) (place less (n, key nd) L) q σ' Top t /\ ok false m t)).
  - unfold ngx_rbtree_insert. repeat wp_step eassumption.
    rewrite (holds_root _ _ _ _ _ _ H). cbn [top]. destruct (decide (addr t = s)) as [Ht|Ht].
    + pose proof (holds_apart _ _ _ Hd _ _ _ H) as Hap.
      destruct t as [|c l a k r]; [|exfalso; revert Ht; cbn [addr]; apart Hap].
      assert (L = []) as -> by (by rewrite <- (holds_elems _ _ _ _ _ _ H)).
      assert (n <> s) by set_solver. repeat wp_step ltac:(idtac; look Hap).
      exists NULL, (T false E n (key nd) E), 1%nat. split; [|by repeat econstructor].
      constructor; cbn [heap root]; cbn; try done.
      * split; [|done]. look Hap.
      * intros a Ha. rewrite !lookup_insert_ne by set_solver. done.
    + assert (t <> E) as HtE by (intros ->; done).
      repeat wp_pure. eapply wp_mono; [exact (insert_attaches (heap σ) L q n nd σ t Hd HnL HS HC H HtE Hn)|].
      intros [] σ1 (C & HP & H1). repeat wp_step eassumption.
      destruct (plug_ok_inv C E m false) as (b & c' & m' & HCok & Hc' & _); [by rewrite HP|done|].
      inversion Hc'; subst. eapply wp_mono.
      { eapply (insert_balance_spec _ _ _ Hd' sn); [done|done|exact H1|done| |exact HCok|].
        - by constructor; constructor.
        - pose proof (holds_size _ _ _ Hd' _ _ _ H1). pose proof (depth_length C (T true E n (key nd) E)) as HD.
          rewrite (holds_elems _ _ _ _ _ _ H1) in HD. destruct b; lia. }
      intros [] σ2 (t' & c' & m2 & H2 & Hok2). repeat wp_pure.
      rewrite (holds_root _ _ _ _ _ _ H2). cbn [top].
      destruct t' as [|c2 l2 a2 k2 r2]; [exfalso|].
      { apply holds_elems in H2. unfold elems in H2. cbn in H2.
        pose proof (place_perm less (n, key nd) L) as HPerm. rewrite <- H2 in HPerm.
        by apply Permutation_nil_cons in HPerm. }
      cbn [addr]. eapply wp_mono; [by eapply (color_spec _ _ _ Hd' Left)|].
      intros [] σ3 H3. cbn beta in H3. destruct (ok_paint c' m2 (T c2 l2 a2 k2 r2) Left l2 a2 k2 r2)
        as [m3 Hm3]; [done|by inversion Hok2|]. eauto.
  - intros [] σ' (q' & t' & m' & H' & Hok'). split; [|split; [by apply place_sorted|]].
    + split; [done|]. split.
      * exists sn. split; [|done]. rewrite (holds_frame _ _ _ _ _ _ H'); [done|].
        by apply NoDup_cons in Hd' as [? _].
      * exists q', t', m'. split; [|done]. by eapply holds_rebase.
    + intros a Ha. apply (holds_frame _ _ _ _ _ _ H'). rewrite place_perm. set_solver.
Qed.

(** ** The leftmost node *)

Lemma holds_unplug h0 L q σ D C t : holds h0 L q σ C (plug D t) <-> holds h0 L q σ (comp D C) t.
Proof.
  revert t. induction D as [|d c D IH a k x]; intros t; cbn [plug comp]; [done|].
  by rewrite holds_zoom, IH.
Qed.

(** Every tree but the empty one has a leftmost node [m]; the walk to it
    takes as many steps as the path is long. *)
Lemma leftmost t : t <> E -> exists D c m km rm,
  t = plug D (T c E m km rm) /\ before D = [] /\
  forall f q σ, (depth D < f)%nat -> stored (heap σ) q t ->
    (forall x, one x s + occ x (addrs t) <= 1)%nat ->
    wp (min_loop s f (addr t)) σ (fun p σ' => p = m /\ σ' = σ).
Proof.
  induction t as [|c l IHl a k r _]; [done|]. intros _. destruct l as [|c' l' a' k' r'].
  - exists Top, c, a, k, r. split_and!; [done..|]. intros f q σ Hf (Ha & _) Hd. cbn [addr].
    destruct f as [|f]; [lia|]. cbn [min_loop]. repeat wp_step eassumption. cbn [addr].
    by rewrite decide_True.
  - destruct IHl as (D & cm & m & km & rm & E & HB & Hmin); [done|].
    exists (comp D (Fr Left c Top a k r)), cm, m, km, rm. split_and!.
    + rewrite plug_comp. cbn. by rewrite <- E.
    + by rewrite before_comp, HB.
    + intros f q σ Hf (Ha & Hl & Hr) Hd. cbn [addr]. destruct f as [|f]; [lia|].
      cbn [min_loop]. repeat wp_step eassumption. cbn [addr].
      rewrite decide_False by apart Hd. eapply Hmin; [|exact Hl|apart Hd].
      clear -Hf. revert f Hf. induction D as [|d c0 D IH ? ? ?]; cbn; intros f Hf; [lia|].
      destruct f as [|f]; [lia|]. specialize (IH f). lia.
Qed.

(** ** Taking a node out *)

(** An address outside of the tree is none of its parts. *)
Ltac outside Hb :=
  let H := fresh in pose proof Hb as H;
  apply not_elem_of_cons in H as [? H]; rewrite not_elem_occ in H; autorewrite with occ in H;
  try done; rewrite not_elem_occ; autorewrite with occ; lia.

Section Unlink.
Variables (L : list (ptr * Z)) (q : ptr).
Hypothesis Hnodup : NoDup (s :: L.*1).

(** The state after a node was taken out and before the fixup: [x] is in
    focus, in place of the node [subst] that was there. *)
Definition unlinked (n : ptr) (σ σ' : state) (C : ctx) (x : rb) : Prop :=
  holds (heap σ') (elems C x) q σ' C x /\
  (exists sn, heap σ' !! s = Some sn /\ red sn = false /\ linked q sn C x) /\
  is_Some (heap σ' !! n) /\ same_outside L.*1 σ σ'.

(** The node itself has a child missing. *)
Lemma unlink_one σ n c k l r x d cp C p kp y sn :
  holds (heap σ) L q σ (Fr d cp C p kp y) (T c l n k r) ->
  heap σ !! s = Some sn -> red sn = false ->
  (l = E /\ x = r \/ r = E /\ x = l) ->
  wp (unlink s n n (addr x)) σ (fun _ σ' => unlinked n σ σ' (Fr d cp C p kp y) x).
Proof.
  intros H Hs Hb Hx. pose proof (holds_apart _ _ _ Hnodup _ _ _ H) as Hd.
  destruct H as [(Hn & Hl & Hr) HC HR HL HF]. unfold unlink. cbn [up addr] in *.
  assert (stored (heap σ) n x) as Hsx by (destruct Hx as [[_ ->]|[_ ->]]; done).
  assert (forall b, (one b s + one b n + occ b (addrs x) + occ b (caddrs (Fr d cp C p kp y)) <= 1)%nat) as Hd'.
  { intros b. specialize (Hd b). rewrite occ_T in Hd.
    destruct Hx as [[-> ->]|[-> ->]]; rewrite ?occ_E in Hd; lia. }
  repeat wp_step eassumption. eapply wp_set_in_parent; [exact HC|apart Hd|].
  intros σ1 R1 S1 F1. rewrite decide_True by done. repeat wp_step ltac:(idtac; look Hd').
  eapply (wp_set_parent x p n _ sn); [frame Hd' | look Hd' | apart Hd' |].
  intros σ2 sn2 R2 S2 Hs2 Hb2 Hp2 F2. split_and!.
  - constructor; try done; [frame Hd'|]. rewrite R2, R1, HR. done.
  - exists sn2. split_and!; [done|congruence|]. exact Hp2.
  - exists (mk_node k (addr l) (addr r) p c). look Hd'.
  - intros a Ha. rewrite <- HL in Ha. apply not_elem_of_cons in Ha as [Has Ha].
    rewrite not_elem_occ, occ_elems, occ_T in Ha.
    rewrite F2; [apply F1; rewrite not_elem_occ; lia | | done].
    rewrite not_elem_occ. destruct Hx as [[-> ->]|[-> ->]]; lia.
Qed.

(** [m] takes the place of [n]. *)
Lemma wp_replace n m nd c l k r C ql qr σ Q :
  heap σ !! n = Some (mk_node k (addr l) (addr r) (up q C) c) -> heap σ !! m = Some nd ->
  stored (heap σ) ql l -> stored (heap σ) qr r -> cstored (heap σ) q n C -> root σ = top n C ->
  (forall x, one x s + one x n + one x m + occ x (addrs l) + occ x (addrs r) + occ x (caddrs C) <= 1)%nat ->
  (forall σ', root σ' = top m C -> stored (heap σ') (up q C) (T c l m (key nd) r) ->
     cstored (heap σ') q m C ->
     (forall a, a ∉ m :: addrs l ++ addrs r ++ caddrs C -> heap σ' !! a = heap σ !! a) -> Q tt σ') ->
  wp (replace s n m) σ Q.
Proof.
  intros Hn Hm Hl Hr HC HR Hd HQ. unfold replace.
  assert (n <> m) as Hnm by apart Hd.
  repeat wp_step ltac:(idtac; look Hd).
  eapply wp_relink; [look Hd | reflexivity | frame Hd | done | apart Hd|].
  intros σ1 R1 S1 F1. cbn [root heap] in *. repeat wp_step ltac:(idtac; look Hd).
  eapply (wp_reparent l); [frame Hd | apart Hd|]. intros σ2 R2 S2 F2.
  repeat wp_step ltac:(idtac; look Hd).
  eapply (wp_reparent r); [frame Hd | apart Hd|]. intros σ3 R3 S3 F3. cbn [root heap] in *.
  apply HQ.
  - congruence.
  - cbn [stored]. split_and!; [look Hd | frame Hd | frame Hd].
  - frame Hd.
  - intros a Ha. rewrite not_elem_occ in Ha. cbn [occ] in Ha. rewrite !occ_app in Ha.
    rewrite F3, F2, F1 by (rewrite not_elem_occ; lia). cbn [heap].
    rewrite !lookup_insert_ne; [done|..]; intros ->; rewrite one_refl in Ha; lia.
Qed.

(** The replacement [m] is the leftmost node of the right subtree. *)
Lemma replaced σ σ' n c l m km rm D C sn' :
  root σ' = top m C -> stored (heap σ') (up q C) (T c l m km (plug D rm)) ->
  cstored (heap σ') q m C -> heap σ' !! s = Some sn' -> red sn' = false ->
  (rm = E -> parent sn' = up q (comp D (Fr Right c C m km l))) ->
  is_Some (heap σ' !! n) -> same_outside L.*1 σ σ' ->
  unlinked n σ σ' (comp D (Fr Right c C m km l)) rm.
Proof.
  intros HR HT HC Hs Hb Hp Hn Ho. split_and!; [|eauto..]. apply holds_unplug, zoom_in.
  constructor; try done. rewrite <- (elems_frame Right). unfold elems.
  rewrite before_comp, after_comp. cbn [before after].
  rewrite inorder_plug. unfold elems. by rewrite <- !(assoc_L (++)).
Qed.

Lemma top_comp p D C : top p (comp D C) = top (top p D) C.
Proof. revert p. induction D as [|d c D IH a k x]; intros p; cbn; [done|]. by rewrite IH. Qed.

Lemma cstored_comp h D C t :
  cstored h q (addr t) (comp D C) -> stored h (up q (comp D C)) t ->
  stored h (up q C) (plug D t) /\ cstored h q (addr (plug D t)) C.
Proof.
  revert t. induction D as [|d c D IH a k x]; intros t; cbn [comp plug]; [done|].
  intros (Ha & Hx & HC) Ht. apply IH; [by rewrite addr_join|]. apply stored_join. done.
Qed.

Lemma unlink_two σ n c k l D cm m km rm C sn :
  holds (heap σ) L q σ C (T c l n k (plug D (T cm E m km rm))) ->
  heap σ !! s = Some sn -> red sn = false ->
  wp (unlink s n m (addr rm)) σ (fun _ σ' =>
    unlinked n σ σ' (comp D (Fr Right c C m km l)) rm).
Proof.
  intros H Hs Hb. pose proof (holds_apart _ _ _ Hnodup _ _ _ H) as Hd.
  assert (same_outside L.*1 σ σ) as Ho by done.
  apply (zoom_in _ _ _ _ Right), holds_unplug in H.
  destruct H as [(Hm & _ & Hrm) HC HR HL _]. unfold unlink. cbn [addr] in *.
  assert (n <> m) as Hnm by apart Hd.
  repeat wp_step eassumption.
  destruct D as [|dd cd D' a ka x]; cbn [comp up] in *.
  - (* the right child *)
    eapply wp_set_in_parent; [exact HC | apart Hd |]. intros σ1 R1 S1 F1.
    rewrite decide_False by done. repeat wp_step ltac:(idtac; look Hd). rewrite decide_True by done.
    eapply (wp_set_parent rm m m _ sn); [frame Hd | look Hd | apart Hd |].
    intros σ2 sn2 R2 S2 Hs2 Hb2 Hp2 F2. destruct S1 as (Hn1 & Hl1 & HC1). cbn [cell] in *.
    eapply (wp_replace n m _ c l k rm C n m); [look Hd | look Hd | frame Hd | done | frame Hd | | apart Hd |].
    { by rewrite R2, R1, HR. }
    intros σ3 R3 S3 HC3 F3. eapply (replaced _ _ _ c l m km rm Top C sn2); try done.
    + rewrite F3; [done|]. apart Hd.
    + congruence.
    + rewrite F3 by apart Hd. eexists. look Hd.
    + intros b Hb'. rewrite <- HL in Hb'. rewrite F3 by outside Hb'.
      rewrite F2, F1 by outside Hb'. done.
  - eapply wp_set_in_parent; [exact HC | apart Hd |]. intros σ1 R1 S1 F1.
    rewrite decide_False by done. assert (a <> n) as Han by apart Hd.
    repeat wp_step ltac:(idtac; look Hd). rewrite decide_False by done.
    eapply (wp_set_parent rm a m _ sn); [frame Hd | look Hd | apart Hd |].
    intros σ2 sn2 R2 S2 Hs2 Hb2 Hp2 F2.
    assert (cstored (heap σ2) q (addr rm) (comp (Fr dd cd D' a ka x) (Fr Right c C n k l))) as HC2 by frame Hd.
    apply cstored_comp in HC2 as (Hr2 & Hn2 & Hl2 & HC2); [|exact S2]. cbn [cell up] in *.
    eapply (wp_replace n m _ c l k (plug (Fr dd cd D' a ka x) rm) C n n);
      [exact Hn2 | look Hd | done | done | done | | apart Hd |].
    { rewrite R2, R1, HR. cbn [top]. by rewrite top_comp. }
    intros σ3 R3 S3 HC3 F3. eapply (replaced _ _ _ c l m km rm (Fr dd cd D' a ka x) C sn2); try done.
    + rewrite F3; [done|]. apart Hd.
    + congruence.
    + rewrite F3 by apart Hd. eauto.
    + intros b Hb'. rewrite <- HL in Hb'. rewrite F3 by outside Hb'.
      rewrite F2, F1 by outside Hb'. done.
Qed.

End Unlink.

(** ** Deletion *)

Lemma find_focus h0 L q σ C t n : holds h0 L q σ C t -> n ∈ addrs t ->
  exists C' c l k r, holds h0 L q σ C' (T c l n k r) /\ plug C' (T c l n k r) = plug C t.
Proof.
  revert C. induction t as [|c l IHl a k r IHr]; intros C H Hn.
  { rewrite elem_occ in Hn. cbn in Hn. lia. }
  destruct (decide (n = a)) as [->|Hna]; [eauto 10|].
  rewrite elem_occ, occ_T in Hn. unfold one in Hn. rewrite decide_False in Hn by done.
  destruct (decide (n ∈ addrs l)) as [Hl|Hl].
  - apply (zoom_in _ _ _ _ Left) in H. by destruct (IHl _ H Hl) as (C' & ? & ? & ? & ? & H' & E); eauto 10.
  - apply (zoom_in _ _ _ _ Right) in H. rewrite not_elem_occ in Hl.
    assert (n ∈ addrs r) as Hr by (rewrite elem_occ; lia).
    by destruct (IHr _ H Hr) as (C' & ? & ? & ? & ? & H' & E); eauto 10.
Qed.

(** The nodes but [n]. *)
Definition remove (n : ptr) (L : list (ptr * Z)) : list (ptr * Z) :=
  filter (fun e => e.1 <> n) L.

Lemma remove_split n k A B : NoDup (A ++ (n, k) :: B).*1 ->
  remove n (A ++ (n, k) :: B) = A ++ B.
Proof.
  rewrite fmap_app, fmap_cons, NoDup_app, NoDup_cons. cbn [fst]. intros (HA & HAB & Hn & HB).
  assert (forall l, n ∉ l.*1 -> remove n l = l) as Hid.
  { intros l. unfold remove. induction l as [|e l IH]; [done|]. rewrite fmap_cons, not_elem_of_cons.
    intros [He Hl]. rewrite filter_cons_True by done. by rewrite IH. }
  unfold remove in *. rewrite filter_app, filter_cons_False by (cbn; tauto).
  rewrite !Hid; [done|done|]. intros Hin. apply (HAB n Hin). set_solver.
Qed.

Lemma remove_elem n L a : a ∈ (remove n L).*1 <-> a <> n /\ a ∈ L.*1.
Proof.
  rewrite !list_elem_of_fmap. split.
  - intros (e & -> & He). apply list_elem_of_filter in He as [He1 He2]. eauto.
  - intros [Ha (e & -> & He)]. exists e. split; [done|]. by apply list_elem_of_filter.
Qed.

Lemma remove_nodup n L : NoDup (s :: L.*1) -> NoDup (s :: (remove n L).*1).
Proof.
  intros [Hs Hd]%NoDup_cons. apply NoDup_cons. rewrite remove_elem. split; [tauto|].
  eapply sublist_NoDup; [done|]. apply fmap_sublist, sublist_filter.
Qed.

Lemma remove_sorted less n L : sorted less L -> sorted less (remove n L).
Proof.
  unfold sorted, remove. induction 1 as [|e L HL IH HF]; [constructor|].
  rewrite filter_cons. case_decide; [|done]. constructor; [done|].
  rewrite Forall_forall in *. intros x Hx. apply HF. by apply list_elem_of_filter in Hx as [_ ?].
Qed.

Lemma ok_short c m t : ok c m t -> short m t.
Proof.
  intros H. destruct c; [right|by left]. split; [by eapply ok_color|].
  inversion H; subst. cbn. by econstructor.
Qed.

Lemma cok_rename b n D d c C a k a' k' x :
  cok b n (comp D (Fr d c C a k x)) -> cok b n (comp D (Fr d c C a' k' x)).
Proof.
  revert b n. induction D as [|d' c' D IH a1 k1 x1]; intros b n; cbn [comp];
    inversion 1; subst; econstructor; eauto.
Qed.

Lemma holds_agree h L q σ σ' C t : holds h L q σ C t -> root σ' = root σ ->
  (forall a, a ∈ L.*1 -> heap σ' !! a = heap σ !! a) -> holds (heap σ') L q σ' C t.
Proof.
  intros [H1 H2 H3 H4 H5] HR HF. subst L.
  assert (forall a, a ∈ addrs t \/ a ∈ caddrs C -> heap σ' !! a = heap σ !! a) as HF'.
  { intros a Ha. apply HF. rewrite !elem_occ in *. rewrite occ_elems. lia. }
  constructor; try done; [| |congruence].
  - eapply stored_frame; [done|]. auto.
  - eapply cstored_frame; [done|]. auto.
Qed.

(** A tree does not depend on the rest of the memory. *)
Lemma tree_agree σ σ' L : tree_at σ L -> root σ' = root σ ->
  (forall a, a ∈ s :: L.*1 -> heap σ' !! a = heap σ !! a) -> tree_at σ' L.
Proof.
  intros (Hd & (sn & Hs & Hb) & q & t & m & H & Hok) HR HF. split; [done|]. split.
  - exists sn. rewrite HF by set_solver. done.
  - exists q, t, m. split; [|done]. eapply holds_agree; [done..|]. intros a Ha. apply HF. by right.
Qed.

(** From the unlinked node to the tree without it. *)
Definition fits (c : bool) (C : ctx) (x : rb) : Prop :=
  if c then exists m b, ok false m x /\ cok b m C else exists m b, short m x /\ cok b (S m) C.

Lemma wp_clear n nd σ Q : heap σ !! n = Some nd ->
  (forall σ', root σ' = root σ -> is_Some (heap σ' !! n) ->
     (forall a, a <> n -> heap σ' !! a = heap σ !! a) -> Q tt σ') ->
  wp (clear n) σ Q.
Proof.
  intros Hn HQ. unfold clear.
  repeat wp_step ltac:(idtac; first [eassumption | by rewrite lookup_insert_eq]).
  apply HQ; cbn [heap root]; [done| |].
  - rewrite lookup_insert_eq. eauto.
  - intros a Ha. by rewrite !lookup_insert_ne by done.
Qed.

Lemma delete_finish L q n σ0 σ K x c :
  NoDup (s :: L.*1) -> n ∈ L.*1 -> unlinked L q n σ0 σ K x -> elems K x = remove n L ->
  K <> Top -> fits c K x ->
  wp (clear n ;; (if (c : bool) then skip else f ← fuel; delete_balance s f (addr x))) σ
    (fun _ σ' => tree_at σ' (remove n L) /\ is_Some (heap σ' !! n) /\ same_outside L.*1 σ0 σ').
Proof.
  intros Hnodup HnL (H & (sn & Hs & Hb & Hl) & [nd Hn] & Ho) Hrem HK Hfit. rewrite Hrem in H.
  pose proof (remove_nodup n L Hnodup) as Hd. apply NoDup_cons in Hnodup as [HsL _].
  assert (n <> s) as Hns by congruence. apply wp_bind. eapply wp_clear; [done|].
  intros σ1 R1 [nd' Hn1] F1. assert (heap σ1 !! s = Some sn) as Hs1 by (by rewrite F1).
  assert (holds (heap σ1) (remove n L) q σ1 K x) as H1.
  { eapply holds_agree; [done..|]. intros a Ha. apply F1. apply remove_elem in Ha. tauto. }
  assert (forall σ2 t m, holds (heap σ1) (remove n L) q σ2 Top t -> ok false m t ->
    tree_at σ2 (remove n L) /\ is_Some (heap σ2 !! n) /\ same_outside L.*1 σ0 σ2) as Hend.
  { intros σ2 t m H2 Hok. pose proof (holds_frame _ _ _ _ _ _ H2) as F2. split_and!.
    - split; [done|]. split; [|eauto 6 using holds_rebase]. exists sn. rewrite F2; [done|].
      by apply NoDup_cons in Hd as [? _].
    - rewrite F2 by (rewrite remove_elem; tauto). eauto.
    - intros a Ha. pose proof Ha as [Has HaL]%not_elem_of_cons.
      rewrite F2 by (rewrite remove_elem; tauto). rewrite F1; [by apply Ho|]. congruence. }
  destruct c; cbn [fits] in Hfit; destruct Hfit as (m & b & Hx & HC).
  - apply wp_skip. apply holds_plug in H1.
    destruct (plug_ok K m false b x) as [m' Hm]; [done..|]. by eapply Hend.
  - repeat wp_step eassumption.
    eapply wp_mono; [eapply (delete_balance_spec _ _ _ Hd sn)|]; try done.
    + pose proof (holds_size _ _ _ Hd _ _ _ H1). pose proof (depth_length K x) as HD.
      rewrite Hrem in HD. destruct (color x); lia.
    + intros [] σ2 (t & m' & H2 & Hok). by eapply Hend.
Qed.

(** The node deleted is the root and has a child missing. *)
Lemma delete_root L q n σ c l k r x m sn :
  NoDup (s :: L.*1) -> holds (heap σ) L q σ Top (T c l n k r) -> ok false m (T c l n k r) ->
  heap σ !! s = Some sn -> red sn = false -> (l = E /\ x = r \/ r = E /\ x = l) ->
  wp (set_root (addr x) ;; ngx_rbt_black (addr x) ;; clear n) σ (fun _ σ' =>
    tree_at σ' (remove n L) /\ is_Some (heap σ' !! n) /\ same_outside L.*1 σ σ').
Proof.
  intros Hnodup H Hok Hs Hb Hx. pose proof (holds_apart _ _ _ Hnodup _ _ _ H) as Hd.
  pose proof (remove_nodup n L Hnodup) as Hnd'. pose proof (holds_elems _ _ _ _ _ _ H) as HL.
  assert (remove n L = inorder x) as Hrem.
  { rewrite <- HL. unfold elems. cbn [before after inorder app]. rewrite (right_id_L [] (++)).
    apply NoDup_cons in Hnodup as [_ Hnodup]. rewrite <- HL in Hnodup. unfold elems in Hnodup.
    cbn [before after inorder app] in Hnodup. rewrite (right_id_L [] (++)) in Hnodup.
    rewrite remove_split by done. destruct Hx as [[-> ->]|[-> ->]]; cbn; [done|].
    by rewrite (right_id_L [] (++)). }
  assert (exists m', ok false m' (blacken x)) as [m' Hm'].
  { assert (exists cx mx, ok cx mx x) as (cx & mx & Hxok).
    { inversion Hok; subst; destruct Hx as [[-> ->]|[-> ->]]; eauto. }
    inversion Hxok; subst; eexists; cbn; econstructor; eauto. }
  destruct H as [(Hn & Hl & Hr) _ _ _ _]. cbn [up addr] in *.
  assert (stored (heap σ) n x) as Hsx by (destruct Hx as [[_ ->]|[_ ->]]; done).
  assert (forall b, (one b s + one b n + occ b (addrs x) <= 1)%nat) as Hd'.
  { intros b. specialize (Hd b). rewrite occ_T, occ_Top in Hd.
    destruct Hx as [[-> ->]|[-> ->]]; rewrite ?occ_E in Hd; lia. }
  assert (exists ndx, heap σ !! addr x = Some ndx) as [ndx Hndx].
  { destruct x; cbn [stored addr] in *; destruct_and?; eauto. }
  assert (n <> addr x) as Hnx by (destruct (addr_in x) as [->|]; apart Hd').
  repeat wp_step eassumption. eapply wp_clear; [cbn [heap]; by rewrite lookup_insert_ne|].
  intros σ1 R1 Hn1 F1. cbn [heap root] in *. rewrite Hrem in *.
  split_and!; [|done|].
  - split; [done|]. split.
    + exists (if decide (addr x = s) then with_color false ndx else sn).
      rewrite F1 by apart Hd'. case_decide as Hxs; [by rewrite Hxs, lookup_insert_eq|].
      by rewrite lookup_insert_ne.
    + exists n, (blacken x), m'. split; [|done]. constructor; try done.
      * destruct x as [|cx xl xa xk xr]; [done|]. cbn [blacken stored addr] in *.
        destruct Hsx as (Hxa & Hxl & Hxr). rewrite Hxa in Hndx. simplify_eq.
        split; [rewrite F1 by done; by rewrite lookup_insert_eq|].
        split; eapply stored_frame; [done| |done|]; intros a Ha; rewrite F1 by apart Hd';
          rewrite lookup_insert_ne; try done; apart Hd'.
      * rewrite R1. by destruct x.
      * destruct x; unfold elems; cbn; by rewrite ?(right_id_L [] (++)).
  - intros a Ha. rewrite <- HL in Ha. pose proof Ha as [Has HaL]%not_elem_of_cons.
    rewrite not_elem_occ, occ_elems, occ_T in HaL.
    assert (a <> n) as Han by (intros ->; rewrite one_refl in HaL; lia).
    rewrite F1 by done. apply lookup_insert_ne. intros <-. destruct (addr_in x) as [Hxs|Hxs]; [done|].
    rewrite elem_occ in Hxs. destruct Hx as [[-> ->]|[-> ->]]; lia.
Qed.

Section TakeOut.
Variables (L : list (ptr * Z)) (q : ptr) (σ : state) (n : ptr) (C : ctx) (c : bool) (l : rb) (k : Z) (r : rb).
Variables (m : nat) (sn : node).
Hypothesis Hnodup : NoDup (s :: L.*1).
Hypothesis H : holds (heap σ) L q σ C (T c l n k r).
Hypothesis Hok : ok false m (plug C (T c l n k r)).
Hypotheses (Hs : heap σ !! s = Some sn) (Hb : red sn = false).

Definition deleted (σ' : state) : Prop :=
  tree_at σ' (remove n L) /\ is_Some (heap σ' !! n) /\ same_outside L.*1 σ σ'.

Lemma focus_in : n ∈ L.*1.
Proof. rewrite <- (holds_elems _ _ _ _ _ _ H), elem_occ. autorewrite with occ. lia. Qed.

Lemma remove_focus : remove n L = before C ++ inorder l ++ inorder r ++ after C.
Proof.
  apply NoDup_cons in Hnodup as [_ Hnd]. rewrite <- (holds_elems _ _ _ _ _ _ H) in Hnd |- *.
  unfold elems in *. cbn [inorder] in *. rewrite <- (assoc_L (++)), (assoc_L (++)) in Hnd |- *.
  cbn [app] in *. rewrite remove_split by done. by rewrite <- (assoc_L (++)).
Qed.

Lemma take_out_one x : (l = E /\ x = r \/ r = E /\ x = l) ->
  wp (take_out s n n (addr x)) σ (fun _ σ' => deleted σ').
Proof.
  intros Hx. unfold take_out. repeat wp_pure.
  pose proof focus_in as Hin. pose proof remove_focus as Hrem.
  pose proof (root_focus _ _ _ Hnodup _ _ _ H) as Hroot. cbn [addr] in Hroot.
  destruct (decide (n = root σ)) as [HR|HR]; rewrite Hroot in HR.
  - subst C. by eapply delete_root.
  - destruct C as [|d cp C' p kp y]; [done|]. hread H.
    eapply wp_mono; [by eapply unlink_one|]. intros [] σ1 HU. eapply delete_finish; eauto.
    + rewrite Hrem. unfold elems. by destruct Hx as [[-> ->]|[-> ->]].
    + destruct (plug_ok_inv _ _ _ _ Hok eq_refl) as (b & c' & m' & HC & Ht & Hc).
      destruct c; inversion Ht; subst; do 2 eexists; (split; [|exact HC]);
        destruct Hx as [[-> ->]|[-> ->]]; eauto using ok_short.
Qed.

Lemma take_out_two D cm a km rm : r = plug D (T cm E a km rm) -> before D = [] ->
  wp (take_out s n a (addr rm)) σ (fun _ σ' => deleted σ').
Proof.
  intros Hr HD. unfold take_out. repeat wp_pure.
  pose proof focus_in as Hin. pose proof remove_focus as Hrem.
  pose proof H as H2. rewrite Hr in H2. apply (zoom_in _ _ _ _ Right), holds_unplug in H2.
  pose proof (root_focus _ _ _ Hnodup _ _ _ H2) as Hroot. cbn [addr] in Hroot.
  rewrite decide_False. 2: { rewrite Hroot. by destruct D. }
  hread H2. rewrite Hr in H.
  eapply wp_mono; [by eapply unlink_two|]. intros [] σ1 HU. eapply delete_finish; eauto.
  - rewrite Hrem, Hr, inorder_plug. unfold elems.
    rewrite before_comp, after_comp, HD. cbn [before after inorder app].
    by rewrite <- !(assoc_L (++)).
  - by destruct D.
  - rewrite Hr in Hok.
    assert (ok false m (plug (comp D (Fr Right c C n k l)) (T cm E a km rm))) as Hok2
      by (by rewrite plug_comp).
    destruct (plug_ok_inv _ _ _ _ Hok2 eq_refl) as (b & c' & m' & HC & Ht & Hc).
    apply (cok_rename _ _ _ _ _ _ _ _ a km) in HC.
    destruct cm; inversion Ht; subst; do 2 eexists; (split; [|exact HC]); eauto using ok_short.
Qed.

End TakeOut.

Lemma delete_spec σ L n :
  tree_at σ L -> n ∈ L.*1 ->
  wp (ngx_rbtree_delete s n) σ (fun _ σ' =>
    tree_at σ' (remove n L) /\ is_Some (heap σ' !! n) /\ same_outside L.*1 σ σ').
Proof.
  intros (Hd & (sn & Hs & Hb) & q & t & m & H & Hok) Hn.
  assert (n ∈ addrs t) as Hnt.
  { rewrite <- (holds_elems _ _ _ _ _ _ H) in Hn. rewrite elem_occ, occ_elems, occ_Top in Hn.
    rewrite elem_occ. lia. }
  destruct (find_focus _ _ _ _ _ _ _ H Hnt) as (C & c & l & k & r & HF & HP). cbn [plug] in HP.
  rewrite <- HP in Hok. clear t H Hnt HP.
  pose proof (holds_apart _ _ _ Hd _ _ _ HF) as Hap.
  pose proof (holds_size _ _ _ Hd _ _ _ HF) as Hsize.
  unfold ngx_rbtree_delete, delete_target. apply wp_bind. hread HF.
  destruct (decide (addr l = s)) as [El|El].
  { assert (l = E) as -> by (destruct l; [done|exfalso; revert El; cbn [addr]; apart Hap]).
    hread HF. cbn [fst snd]. eapply take_out_one; eauto. }
  hread HF. destruct (decide (addr r = s)) as [Er|Er].
  { assert (r = E) as -> by (destruct r; [done|exfalso; revert Er; cbn [addr]; apart Hap]).
    hread HF. cbn [fst snd]. eapply take_out_one; eauto. }
  hread HF. destruct (leftmost r) as (D & cm & a & km & rm & Hr & HD & Hmin); [by intros ->|].
  unfold ngx_rbtree_min. repeat wp_step eassumption. eapply wp_mono.
  { eapply Hmin; [|by destruct (holds_tree _ _ _ _ _ _ HF) as (_ & _ & ?)|apart Hap].
    pose proof (depth_length D (T cm E a km rm)) as HDl. rewrite <- inorder_plug, <- Hr in HDl.
    rewrite <- (holds_elems _ _ _ _ _ _ HF) in Hsize. unfold elems in Hsize.
    rewrite !length_app in Hsize. cbn [inorder length] in Hsize. rewrite length_app in Hsize.
    cbn [length] in Hsize. lia. }
  intros a' σ' [-> ->]. pose proof HF as HF2. rewrite Hr in HF2.
  apply (zoom_in _ _ _ _ Right), holds_unplug in HF2. hread HF2. cbn [fst snd].
  eapply take_out_two; eauto.
Qed.

(** ** Minimum and successor *)

Definition head_addr (L : list (ptr * Z)) : ptr := match L with [] => NULL | e :: _ => e.1 end.

(** The minimum of a subtree, with the fuel that the memory gives. *)
Lemma min_focus h0 L q σ C t :
  holds h0 L q σ C t -> NoDup (s :: L.*1) -> t <> E ->
  wp (ngx_rbtree_min s (addr t)) σ (fun p σ' => p = head_addr (inorder t ++ after C) /\ σ' = σ).
Proof.
  intros H Hd Ht. pose proof (holds_apart _ _ _ Hd _ _ _ H) as Hap.
  pose proof (holds_size _ _ _ Hd _ _ _ H) as Hsize.
  destruct (leftmost t Ht) as (D & cm & a & km & rm & Et & HD & Hmin).
  unfold ngx_rbtree_min. repeat wp_step eassumption. eapply wp_mono.
  - eapply Hmin; [|exact (holds_tree _ _ _ _ _ _ H)|apart Hap].
    pose proof (depth_length D (T cm E a km rm)) as HDl. rewrite <- inorder_plug, <- Et in HDl.
    rewrite <- (holds_elems _ _ _ _ _ _ H) in Hsize. unfold elems in Hsize.
    rewrite !length_app in Hsize. lia.
  - intros p σ' [-> ->]. split; [|done]. rewrite Et, inorder_plug. unfold elems. by rewrite HD.
Qed.

Lemma next_loop_spec h0 L q σ f C t :
  holds h0 L q σ C t -> NoDup (s :: L.*1) -> t <> E -> (depth C < f)%nat ->
  wp (next_loop f (root σ) (addr t)) σ (fun p σ' => p = head_addr (after C) /\ σ' = σ).
Proof.
  revert C t. induction f as [|f IH]; intros C t H Hd Ht Hf; [lia|]. cbn [next_loop].
  pose proof (holds_apart _ _ _ Hd _ _ _ H) as Hap.
  pose proof (root_focus _ _ _ Hd _ _ _ H) as Hroot.
  destruct t as [|c l a k r]; [done|]. cbn [addr] in *. hread H.
  destruct C as [|d c' C p kp x].
  - rewrite decide_True by (by apply Hroot). by repeat wp_pure.
  - rewrite decide_False by (rewrite Hroot; done). cbn [up]. hread H.
    assert (a <> addr x) as Hax by (destruct (addr_in x) as [->|]; apart Hap).
    destruct d; cbn [cell left after depth] in *.
    + rewrite decide_True by done. by repeat wp_pure.
    + rewrite decide_False by done. apply zoom_out in H.
      apply (IH C (join Right c' (T c l a k r) p kp x)); [done..|lia].
Qed.

Lemma next_focus h0 L q σ C c l a k r :
  holds h0 L q σ C (T c l a k r) -> NoDup (s :: L.*1) ->
  wp (ngx_rbtree_next s a) σ (fun p σ' => p = head_addr (inorder r ++ after C) /\ σ' = σ).
Proof.
  intros H Hd. pose proof (holds_apart _ _ _ Hd _ _ _ H) as Hap.
  unfold ngx_rbtree_next. hread H. destruct (decide (addr r <> s)) as [Hr|Hr].
  - hread H. apply (zoom_in _ _ _ _ Right) in H.
    eapply (min_focus _ _ _ _ _ _ H); [done|]. by intros ->.
  - assert (r = E) as ->.
    { destruct r; [done|]. exfalso. apply Hr. cbn [addr]. apart Hap. }
    pose proof (holds_size _ _ _ Hd _ _ _ H). pose proof (depth_length C (T c l a k E)) as HDl.
    rewrite (holds_elems _ _ _ _ _ _ H) in HDl.
    hread H. unfold fuel. repeat wp_pure. eapply (next_loop_spec _ _ _ _ _ _ _ H); [done..|lia].
Qed.

(** ** Balance *)

Fixpoint height (t : rb) : nat :=
  match t with E => O | T _ l _ _ r => S (Nat.max (height l) (height r)) end.

Lemma ok_height c m t : ok c m t -> (height t <= 2 * m + if c then 1 else 0)%nat.
Proof. induction 1 as [| |? [] ? ? ? []]; cbn [height] in *; lia. Qed.

Lemma ok_size c m t : ok c m t -> (2 ^ m <= length (inorder t) + 1)%nat.
Proof.
  induction 1; cbn [inorder Nat.pow]; rewrite ?length_app; cbn [length]; lia.
Qed.

Lemma tree_height σ L : tree_at σ L -> exists q t,
  root σ = addr t /\ stored (heap σ) q t /\ inorder t = L /\
  (height t <= 2 * Nat.log2 (length L + 1))%nat.
Proof.
  intros (_ & _ & q & t & m & H & Hok). exists q, t.
  pose proof (holds_elems _ _ _ _ _ _ H) as HL. rewrite <- inorder_plug in HL. cbn [plug] in HL.
  split_and!; [exact (holds_root _ _ _ _ _ _ H) | exact (holds_tree _ _ _ _ _ _ H) | done |].
  pose proof (ok_height _ _ _ Hok) as Hh. cbn in Hh. apply ok_size in Hok. rewrite HL in Hok.
  apply Nat.log2_le_mono in Hok. rewrite Nat.log2_pow2 in Hok by lia. lia.
Qed.

Lemma init_spec σ sn : heap σ !! s = Some sn ->
  wp (ngx_rbtree_init s) σ (fun _ σ' => tree_at σ' [] /\ same_outside [] σ σ').
Proof.
  intros Hs. unfold ngx_rbtree_init. repeat wp_step eassumption. split.
  - split; [by repeat constructor; set_solver|]. split.
    + exists (with_color false sn). cbn [heap]. by rewrite lookup_insert_eq.
    + exists NULL, E, O. split; [|constructor]. by constructor.
  - intros a Ha. cbn [heap]. apply lookup_insert_ne. set_solver.
Qed.

(** *** Facts about the whole tree *)

Lemma tree_root σ L : tree_at σ L -> (root σ = s <-> L = []).
Proof.
  intros (Hd & _ & q & t & m & H & _). pose proof (holds_apart _ _ _ Hd _ _ _ H) as Hap.
  rewrite (holds_root _ _ _ _ _ _ H), <- (holds_elems _ _ _ _ _ _ H).
  unfold elems. cbn [top before after app]. rewrite (right_id_L [] (++)).
  destruct t as [|c l a k r]; [done|]. cbn [addr inorder]. split; intros E.
  - exfalso. revert E. apart Hap.
  - by apply app_nil in E as [_ ?].
Qed.

Lemma tree_min σ L : tree_at σ L -> L <> [] ->
  wp (ngx_rbtree_min s (root σ)) σ (fun p σ' => p = head_addr L /\ σ' = σ).
Proof.
  intros HT HL. pose proof (tree_root _ _ HT) as HR. destruct HT as (Hd & _ & q & t & m & H & _).
  rewrite (holds_root _ _ _ _ _ _ H) in *. cbn [top] in *.
  eapply wp_mono; [apply (min_focus _ _ _ _ _ _ H Hd)|].
  - intros ->. by apply HL, HR.
  - intros p σ' [-> ->]. split; [|done]. by rewrite <- (holds_elems _ _ _ _ _ _ H).
Qed.

Lemma tree_next σ A n k B : tree_at σ (A ++ (n, k) :: B) ->
  wp (ngx_rbtree_next s n) σ (fun p σ' => p = head_addr B /\ σ' = σ).
Proof.
  intros (Hd & _ & q & t & m & H & _).
  destruct (find_focus _ _ _ _ _ _ n H) as (C & c & l & k' & r & HF & _).
  { pose proof (holds_elems _ _ _ _ _ _ H) as HL. unfold addrs, elems in *. cbn in HL.
    rewrite (right_id_L [] (++)) in HL. rewrite HL, fmap_app. set_solver. }
  eapply wp_mono; [by eapply next_focus|]. intros p σ' [-> ->]. split; [|done]. f_equal.
  pose proof (holds_elems _ _ _ _ _ _ HF) as HL. unfold elems in HL. cbn [inorder] in HL.
  rewrite <- (assoc_L (++)), (assoc_L (++)) in HL. cbn [app] in HL.
  apply NoDup_cons in Hd as [_ Hd]. revert HL Hd. clear. generalize (before C ++ inorder l).
  intros l0. revert A. induction l0 as [|e l0 IH]; intros [|e' A] HL Hd; cbn in *; simplify_eq.
  - done.
  - exfalso. cbn in Hd. apply NoDup_cons in Hd as [Hd _]. apply Hd. rewrite fmap_app. set_solver.
  - exfalso. cbn in Hd. apply NoDup_cons in Hd as [Hd _]. apply Hd. rewrite fmap_app. set_solver.
  - apply NoDup_cons in Hd as [_ Hd]. by eapply IH.
Qed.

Lemma tree_key σ L n k : tree_at σ L -> (n, k) ∈ L ->
  exists nd, heap σ !! n = Some nd /\ key nd = k.
Proof.
  intros (_ & _ & q & t & m & H & _). pose proof (holds_elems _ _ _ _ _ _ H) as HL.
  unfold elems in HL. cbn in HL. rewrite (right_id_L [] (++)) in HL. rewrite <- HL.
  pose proof (holds_tree _ _ _ _ _ _ H) as HT. revert HT. generalize (up q Top). clear.
  induction t as [|c l IHl a k' r IHr]; intros q'; cbn [stored inorder]; [set_solver|].
  intros (Ha & Hl & Hr) [He|[He|He]%elem_of_cons]%elem_of_app; eauto. simplify_eq. eauto.
Qed.

(** ** Lookups *)

(** What is looked for has a place in the order of [L]. *)
Definition monotone (cmp : ptr * Z -> comparison) (L : list (ptr * Z)) : Prop :=
  forall A x B, L = A ++ x :: B ->
    (cmp x = Lt -> Forall (fun y => cmp y = Lt) B) /\ (cmp x = Gt -> Forall (fun y => cmp y = Gt) A).

Definition found (cmp : ptr * Z -> comparison) (L : list (ptr * Z)) (r : option ptr) : Prop :=
  match r with
  | Some n => exists k, (n, k) ∈ L /\ cmp (n, k) = Eq
  | None => forall e, e ∈ L -> cmp e <> Eq
  end.

Lemma monotone_sub cmp A L B : monotone cmp (A ++ L ++ B) -> monotone cmp L.
Proof.
  intros H A' x B' ->. destruct (H (A ++ A') x (B' ++ B)) as [H1 H2].
  { by rewrite <- !(assoc_L (++)). }
  split; intros Hx; [apply H1 in Hx|apply H2 in Hx]; by apply Forall_app in Hx as [??].
Qed.

Lemma lookup_loop_spec cmp f t q σ : stored (heap σ) q t -> s ∉ addrs t -> monotone cmp (inorder t) ->
  (length (inorder t) < f)%nat -> wp (lookup_loop s cmp f (addr t)) σ (fun r σ' => σ' = σ /\ found cmp (inorder t) r).
Proof.
  revert q t. induction f as [|f IH]; intros q t Ht Hs Hm Hf; [lia|]. cbn [lookup_loop].
  destruct t as [|c l a k r]; cbn [addr].
  { rewrite decide_True by done. apply wp_ret. split; [done|]. set_solver. }
  destruct Ht as (Ha & Hl & Hr). unfold addrs in Hs. cbn [inorder] in *. rewrite fmap_app, fmap_cons in Hs.
  rewrite length_app in Hf. cbn [length fst] in *. rewrite decide_False by set_solver.
  destruct (Hm _ _ _ eq_refl) as [H1 H2]. rewrite Forall_forall in H1, H2.
  assert (monotone cmp (inorder l)) as Hml by (apply (monotone_sub cmp [] _ ((a, k) :: inorder r)); done).
  assert (monotone cmp (inorder r)) as Hmr.
  { apply (monotone_sub cmp (inorder l ++ [(a, k)]) _ []). by rewrite (right_id_L [] (++)), <- (assoc_L (++)). }
  repeat wp_step eassumption. cbn [key]. destruct (cmp (a, k)) eqn:Ec.
  - apply wp_ret. split; [done|]. exists k. split; [set_solver|done].
  - repeat wp_step eassumption. eapply wp_mono; [apply (IH a l Hl); [unfold addrs; set_solver|done|lia]|].
    intros [n|] σ' [-> Hn]; (split; [done|]); cbn in *.
    + destruct Hn as (k' & Hk & He). exists k'. split; [set_solver|done].
    + intros e [He|[->|He]%elem_of_cons]%elem_of_app; [by apply Hn|congruence|]. rewrite H1 by done. done.
  - repeat wp_step eassumption. eapply wp_mono; [apply (IH a r Hr); [unfold addrs; set_solver|done|lia]|].
    intros [n|] σ' [-> Hn]; (split; [done|]); cbn in *.
    + destruct Hn as (k' & Hk & He). exists k'. split; [set_solver|done].
    + intros e [He|[->|He]%elem_of_cons]%elem_of_app; [|congruence|by apply Hn]. rewrite H2 by done. done.
Qed.

Lemma lookup_spec cmp σ L : tree_at σ L -> monotone cmp L ->
  wp (rbtree_lookup s cmp) σ (fun r σ' => σ' = σ /\ found cmp L r).
Proof.
  intros (Hd & _ & q & t & m & H & _) Hm. pose proof (holds_size _ _ _ Hd _ _ _ H) as Hsize.
  pose proof (holds_elems _ _ _ _ _ _ H) as HL. rewrite <- inorder_plug in HL. cbn [plug] in HL.
  unfold rbtree_lookup. repeat wp_step eassumption. rewrite (holds_root _ _ _ _ _ _ H). cbn [top]. subst L.
  apply lookup_loop_spec with (q := up q Top); [exact (holds_tree _ _ _ _ _ _ H)| |done|lia].
  by apply NoDup_cons in Hd as [? _].
Qed.

(** ** Sequences of operations *)

Section Sequences.
Variable less : ptr * Z -> ptr * Z -> bool.
Variable insert : ptr -> ptr -> M state unit.
Context `{!InsertPt less insert}.

Inductive op := Insert (n : ptr) (k : Z) | Delete (n : ptr).

(** The caller sets the key of the node before it inserts it. *)
Definition run_op (o : op) : M state unit :=
  match o with
  | Insert n k => (store n (with_key k) ;; ngx_rbtree_insert s insert n)
  | Delete n => ngx_rbtree_delete s n
  end.

Fixpoint run_ops (os : list op) : M state unit :=
  match os with [] => skip | o :: os => (run_op o ;; run_ops os) end.

Definition spec_op (o : op) (L : list (ptr * Z)) : list (ptr * Z) :=
  match o with Insert n k => place less (n, k) L | Delete n => remove n L end.

(** What the caller must respect, [N] being the nodes that exist: a node is
    inserted once, and only nodes of the tree are deleted. *)
Definition op_ok (N : list ptr) (L : list (ptr * Z)) (o : op) : Prop :=
  match o with
  | Insert n k => n ∈ N /\ (n ∉ L.*1) /\ coherent less (n, k) L
  | Delete n => n ∈ L.*1
  end.

Fixpoint ops_ok (N : list ptr) (L : list (ptr * Z)) (os : list op) : Prop :=
  match os with [] => True | o :: os => op_ok N L o /\ ops_ok N (spec_op o L) os end.

Definition spec_ops (os : list op) (L : list (ptr * Z)) : list (ptr * Z) :=
  fold_left (fun L o => spec_op o L) os L.

Lemma run_op_spec N σ L o :
  tree_at σ L -> sorted less L -> s ∉ N -> (forall a, a ∈ N -> is_Some (heap σ !! a)) ->
  op_ok N L o ->
  wp (run_op o) σ (fun _ σ' => tree_at σ' (spec_op o L) /\ sorted less (spec_op o L) /\
    (forall a, a ∈ N -> is_Some (heap σ' !! a))).
Proof.
  intros HT HS HsN HN Hop. destruct o as [n k|n]; cbn [run_op spec_op].
  - destruct Hop as (Hn & HnL & Hc). destruct (HN n Hn) as [nd Hnd]. repeat wp_step eassumption.
    assert (n ∉ s :: L.*1) as Hns by (apply not_elem_of_cons; split; [congruence|done]).
    eapply wp_mono.
    + apply (insert_spec less insert _ L n (with_key k nd)); cbn [heap]; try done;
        [|by rewrite lookup_insert_eq].
      eapply tree_agree; [done..|]. intros a Ha. cbn [heap]. apply lookup_insert_ne. congruence.
    + intros [] σ' (HT' & HS' & Ho). cbn [key with_key] in *. split_and!; [done..|].
      intros a Ha. destruct (decide (a ∈ s :: n :: L.*1)) as [Hin|Hin].
      * destruct HT' as (_ & (sn & Hs & _) & q & t & m & H & _).
        apply elem_of_cons in Hin as [-> | Hin]; [eauto|].
        eapply (holds_alloc _ _ _ _ _ _ a H). rewrite place_perm, fmap_cons. done.
      * rewrite Ho by done. cbn [heap]. destruct (decide (a = n)) as [->|Han].
        -- rewrite lookup_insert_eq. eauto.
        -- rewrite lookup_insert_ne by done. auto.
  - eapply wp_mono; [by apply delete_spec|].
    intros [] σ' (HT' & Hn & Ho). split_and!; [done|by apply remove_sorted|].
    intros a Ha. destruct (decide (a = n)) as [->|Han]; [done|].
    destruct (decide (a ∈ L.*1)) as [Hin|Hin].
    + destruct HT' as (_ & _ & q & t & m & H & _).
      eapply (holds_alloc _ _ _ _ _ _ a H). by apply remove_elem.
    + rewrite Ho; [auto|]. apply not_elem_of_cons. split; [congruence|done].
Qed.

Lemma run_ops_spec N os : forall σ L,
  tree_at σ L -> sorted less L -> s ∉ N -> (forall a, a ∈ N -> is_Some (heap σ !! a)) ->
  ops_ok N L os ->
  wp (run_ops os) σ (fun _ σ' => tree_at σ' (spec_ops os L) /\ sorted less (spec_ops os L)).
Proof.
  induction os as [|o os IH]; intros σ L HT HS HsN HN Hok; [by apply wp_skip|].
  destruct Hok as [Ho Hok]. cbn [run_ops]. apply wp_bind.
  eapply wp_mono; [by eapply run_op_spec|]. intros [] σ' (HT' & HS' & HN'). by apply IH.
Qed.

End Sequences.

End Representation.

(** ** The comparisons of the two insertion functions *)

Lemma value_coherent e L : coherent value_less e L.
Proof. unfold value_less. intros x _. split; [lia|]. intros y _. lia. Qed.

(** Timers are ordered while they are within half of the range of the
    clock. *)
Definition in_window `{Platform} (base k : Z) : Prop :=
  (k - base) mod 2 ^ bits ptr_size < 2 ^ (bits ptr_size - 1).

Lemma signed_window `{Platform} base k x : in_window base k -> in_window base x ->
  to_signed ptr_size (k - x) =
  (k - base) mod 2 ^ bits ptr_size - (x - base) mod 2 ^ bits ptr_size.
Proof.
  unfold in_window, to_signed, wrapu. rewrite max_value_bits.
  assert (2 ^ bits ptr_size = 2 * 2 ^ (bits ptr_size - 1)) as HM by (by destruct ptr_size).
  assert (0 < 2 ^ (bits ptr_size - 1)) as HH by (apply Z.pow_pos_nonneg; destruct ptr_size; cbn; lia).
  rewrite HM. clear HM. set (h := 2 ^ (bits ptr_size - 1)) in *.
  replace (k - x) with ((k - base) - (x - base)) by lia.
  rewrite (Zminus_mod (k - base) (x - base)).
  pose proof (Z.mod_pos_bound (k - base) (2 * h)) as Hu.
  pose proof (Z.mod_pos_bound (x - base) (2 * h)) as Hv.
  set (u := (k - base) mod (2 * h)) in *. set (v := (x - base) mod (2 * h)) in *. intros Hk Hx.
  destruct (Z.ltb_spec u v).
  - replace ((u - v) mod (2 * h)) with (u - v + 2 * h); [split_ifs; lia|].
    apply (Z.mod_unique _ _ (-1)); lia.
  - rewrite Z.mod_small by lia. split_ifs; lia.
Qed.

Lemma timer_less_window `{Platform} base e x : in_window base e.2 -> in_window base x.2 ->
  timer_less e x = ((e.2 - base) mod 2 ^ bits ptr_size <? (x.2 - base) mod 2 ^ bits ptr_size).
Proof. intros Hk Hx. unfold timer_less. rewrite (signed_window base) by done. lia. Qed.

Lemma timer_coherent `{Platform} base e L :
  in_window base e.2 -> Forall (fun x => in_window base x.2) L -> coherent timer_less e L.
Proof.
  intros Hk HL. rewrite Forall_forall in HL. intros x Hx. split; [|intros y Hy]; rewrite !(timer_less_window base) by auto; lia.
Qed.

(** ** Theorems *)

(** C14: The red-black tree refines a sorted list: from ngx_rbtree_init(), any
    sequence of insertions and deletions of nodes, in any memory, runs without
    a bad dereference and terminates; the memory then holds a tree whose nodes
    in order are those that the same operations give on a list, each new node
    going after the nodes of equal keys; the tree has the red-black properties,
    so that no path is longer than twice the logarithm of the number of
    nodes. *)
Theorem rbtree_refines (less : ptr * Z -> ptr * Z -> bool) (s : ptr) (N : list ptr) (os : list op) σ sn :
  heap σ !! s = Some sn -> s ∉ N -> (forall a, a ∈ N -> is_Some (heap σ !! a)) ->
  ops_ok less N [] os ->
  exists σ' q t m, (ngx_rbtree_init s ;; run_ops s (insert_by s less) os) σ = Some (tt, σ') /\
    root σ' = addr s t /\ stored s (heap σ') q t /\
    inorder t = spec_ops less os [] /\ sorted less (spec_ops less os []) /\
    ok false m t /\ (height t <= 2 * Nat.log2 (length (spec_ops less os []) + 1))%nat.
Proof.
  intros Hs HsN HN Hok.
  assert (wp (ngx_rbtree_init s ;; run_ops s (insert_by s less) os) σ (fun _ σ' =>
    tree_at s σ' (spec_ops less os []) /\ sorted less (spec_ops less os []))) as Hwp.
  { apply wp_bind. eapply wp_mono; [by eapply init_spec|]. intros [] σ1 [HT Ho].
    eapply run_ops_spec; eauto; [apply _|constructor|].
    intros a Ha. rewrite Ho; [auto|]. set_solver. }
  apply wp_run in Hwp as ([] & σ' & Hrun & HT & HS). pose proof (tree_height _ _ _ HT) as HH.
  destruct HT as (_ & _ & q & t & m & H & Hm).
  pose proof (holds_elems _ _ _ _ _ _ _ H) as HL. rewrite <- inorder_plug in HL. cbn [plug] in HL.
  exists σ', q, t, m. split_and!; try done.
  - exact (holds_root _ _ _ _ _ _ _ H).
  - exact (holds_tree _ _ _ _ _ _ _ H).
  - pose proof (ok_height _ _ _ Hm) as Hh. cbn in Hh. apply ok_size in Hm. rewrite HL in Hm.
    apply Nat.log2_le_mono in Hm. rewrite Nat.log2_pow2 in Hm by lia. lia.
Qed.

Definition blank : node := mk_node 0 NULL NULL NULL true.
Definition sample_state : state :=
  mk_state NULL (list_to_map ((fun a => (a, blank)) <$> seq 1%nat 8%nat)).
Definition sample_ops : list op :=
  [Insert 1%nat 50; Insert 2%nat 20; Insert 3%nat 70; Insert 4%nat 20; Insert 5%nat 60; Insert 6%nat 80; Delete 2%nat; Insert 7%nat 65; Delete 1%nat].

Lemma rbtree_refines_witness : exists σ' q t m,
  (ngx_rbtree_init 8%nat ;; run_ops 8%nat (insert_by 8%nat value_less) sample_ops) sample_state = Some (tt, σ') /\
  root σ' = addr 8%nat t /\ stored 8%nat (heap σ') q t /\
  inorder t = [(4%nat, 20); (5%nat, 60); (7%nat, 65); (3%nat, 70); (6%nat, 80)] /\
  sorted value_less [(4%nat, 20); (5%nat, 60); (7%nat, 65); (3%nat, 70); (6%nat, 80)] /\
  ok false m t /\ (height t <= 4)%nat.
Proof.
  apply (rbtree_refines value_less 8%nat (seq 1%nat 7%nat) sample_ops sample_state blank).
  - reflexivity.
  - rewrite elem_of_seq. lia.
  - intros a Ha. rewrite elem_of_seq in Ha. unfold sample_state. cbn [heap].
    do 8 (destruct a as [|a]; [try lia; eexists; reflexivity|]). lia.
  - unfold sample_ops. cbn [ops_ok op_ok spec_op place remove].
    repeat split; try apply value_coherent; try (apply elem_of_seq; lia); set_solver.
Defined.

End Rbtree.
