(* ===== verification/NgxEventTimer.v ===== *)
(** * Timers

    event/ngx_event_timer.c and event/ngx_event_timer.h: the timers of the
    events, kept in a red-black tree ordered by expiry time on a clock that
    wraps around.  An event is named by the address of its node [ev->timer].
    The theorems are stated on the list of the timers in order: which one is
    found first, what adding and deleting do, and that
    ngx_event_expire_timers() calls the handlers of exactly the timers that
    have expired, in order, whatever the handlers do to the tree within their
    contract. *)

From Stdlib Require Import ZArith Lia ZifyBool.
From stdpp Require Import base option tactics gmap list sorting.
From S2P Require Import Prelude NgxState NgxRbtree.
Import Rbtree.

Local Open Scope Z_scope.

Module Timer.

(** The fields of [ngx_event_t] that the timers use. *)
Record event := mk_event { timer_set : bool; timedout : bool; cancelable : bool }.

(** [ngx_event_timer_rbtree] with the memory of the nodes, and the
    events. *)
Record tstate := mk_tstate { rb : Rbtree.state; events : gmap ptr event }.

Definition lift {A} (m : M Rbtree.state A) : M tstate A :=
  fun σ => match m (rb σ) with
           | Some (x, r) => Some (x, mk_tstate r (events σ))
           | None => None
           end.

Definition get_event (n : ptr) : M tstate event := gets_some (fun σ => events σ !! n).
Definition set_event (n : ptr) (f : event -> event) : M tstate unit :=
  _ ← get_event n; modify (fun σ => mk_tstate (rb σ) (alter f n (events σ))).

Definition with_timer_set (b : bool) (e : event) : event :=
  mk_event b (timedout e) (cancelable e).
Definition with_timedout (b : bool) (e : event) : event :=
  mk_event (timer_set e) b (cancelable e).

Section Timers.
Context `{P : Platform}.
(** [&ngx_event_timer_sentinel] *)
Variable sentinel : ptr.
(** [ngx_current_msec] *)
Variable now : Z.

Definition NGX_TIMER_INFINITE : Z := wrapu ptr_size (-1).
Definition NGX_TIMER_LAZY_DELAY : Z := 300.

Definition ngx_abs (v : Z) : Z := if v >=? 0 then v else to_signed ptr_size (- v).

Definition ngx_event_timer_init : M tstate Z :=
  lift (ngx_rbtree_init sentinel) ;; mret NGX_OK.

Definition ngx_event_find_timer : M tstate Z :=
  r ← lift (gets root);
  if decide (r = sentinel) then mret NGX_TIMER_INFINITE
  else
    n ← lift (ngx_rbtree_min sentinel r);
    k ← lift (key_of n);
    let timer := to_signed ptr_size (k - now) in
    mret (wrapu ptr_size (if timer >? 0 then timer else 0)).

Definition ngx_event_del_timer (n : ptr) : M tstate unit :=
  lift (ngx_rbtree_delete sentinel n) ;;
  set_event n (with_timer_set false).

(** The end of ngx_event_add_timer(): the timer is not in the tree. *)
Definition set_timer (n : ptr) (k : Z) : M tstate unit :=
  lift (store n (with_key k)) ;;
  lift (ngx_rbtree_insert sentinel (ngx_rbtree_insert_timer_value sentinel) n) ;;
  set_event n (with_timer_set true).

Definition ngx_event_add_timer (n : ptr) (timer : Z) : M tstate unit :=
  let k := wrapu ptr_size (now + timer) in
  e ← get_event n;
  if timer_set e then
    k' ← lift (key_of n);
    let diff := to_signed ptr_size (k - k') in
    if ngx_abs diff <? NGX_TIMER_LAZY_DELAY then skip
    else (ngx_event_del_timer n ;; set_timer n k)
  else set_timer n k.

(** [ev->handler] *)
Variable handler : ptr -> M tstate unit.

(** The loop gives the events whose handlers were called, in order. *)
Fixpoint expire_loop (f : nat) : M tstate (list ptr) :=
  match f with
  | O => mfail
  | S f =>
      r ← lift (gets root);
      if decide (r = sentinel) then mret []
      else
        n ← lift (ngx_rbtree_min sentinel r);
        k ← lift (key_of n);
        if to_signed ptr_size (k - now) >? 0 then mret []
        else
          lift (ngx_rbtree_delete sentinel n) ;;
          set_event n (with_timer_set false) ;;
          set_event n (with_timedout true) ;;
          handler n ;;
          l ← expire_loop f;
          mret (n :: l)
  end.

Definition ngx_event_expire_timers (f : nat) : M tstate (list ptr) := expire_loop f.

Fixpoint left_loop (f : nat) (n : ptr) : M tstate Z :=
  match f with
  | O => mfail
  | S f =>
      if decide (n = NULL) then mret NGX_OK
      else
        e ← get_event n;
        if negb (cancelable e) then mret NGX_AGAIN
        else n ← lift (ngx_rbtree_next sentinel n); left_loop f n
  end.

Definition ngx_event_no_timers_left : M tstate Z :=
  r ← lift (gets root);
  if decide (r = sentinel) then mret NGX_OK
  else
    n ← lift (ngx_rbtree_min sentinel r);
    f ← lift fuel;
    left_loop f n.

End Timers.

(** ** The invariant *)

Lemma eta σ : mk_tstate (rb σ) (events σ) = σ.
Proof. by destruct σ. Qed.

Lemma wp_lift {A} (m : M Rbtree.state A) σ (Q : A -> tstate -> Prop) :
  wp m (rb σ) (fun x r => Q x (mk_tstate r (events σ))) -> wp (lift m) σ Q.
Proof. unfold wp, lift. by destruct (m (rb σ)) as [[x r]|]. Qed.

Lemma wp_get_event n e σ Q : events σ !! n = Some e -> Q e σ -> wp (get_event n) σ Q.
Proof. apply (wp_gets_some (fun σ => events σ !! n)). Qed.

Lemma wp_set_event n f e σ Q : events σ !! n = Some e ->
  Q tt (mk_tstate (rb σ) (<[n := f e]> (events σ))) -> wp (set_event n f) σ Q.
Proof.
  intros He HQ. apply wp_bind, (wp_get_event n e); [done|]. apply wp_modify.
  replace (alter f n (events σ)) with (<[n := f e]> (events σ)); [done|].
  apply map_eq. intros a. destruct (decide (a = n)) as [->|Ha].
  - by rewrite lookup_alter_eq, lookup_insert_eq, He.
  - by rewrite lookup_alter_ne, lookup_insert_ne by done.
Qed.

Section Invariant.
Context `{P : Platform}.
Variable s : ptr.

(** [timers σ L]: [L] are the timers that are set, in order; every event has
    its node. *)
Record timers (σ : tstate) (L : list (ptr * Z)) : Prop := {
  timers_tree : tree_at s (rb σ) L;
  timers_sorted : sorted timer_less L;
  timers_set : forall n e, events σ !! n = Some e -> (timer_set e = true <-> n ∈ L.*1);
  timers_events : forall n, n ∈ L.*1 -> is_Some (events σ !! n);
  timers_nodes : forall n, is_Some (events σ !! n) ->
    n <> s /\ n <> NULL /\ is_Some (heap (rb σ) !! n)
}.

(** All times, the present one among them, lie within half of the clock. *)
Definition windowed (base now : Z) (L : list (ptr * Z)) : Prop :=
  in_window base now /\ Forall (fun e => in_window base e.2) L.

Definition expired (now : Z) (e : ptr * Z) : Prop := to_signed ptr_size (e.2 - now) <= 0.

#[export] Instance expired_dec now e : Decision (expired now e).
Proof. unfold expired. apply _. Defined.

(** In a sorted list, nothing after a timer that has not expired has. *)
Lemma expired_sorted base now e L :
  windowed base now (e :: L) -> sorted timer_less (e :: L) -> ~ expired now e ->
  Forall (fun x => ~ expired now x) (e :: L).
Proof.
  intros [Hnow HW] HS He. constructor; [done|]. inversion HW as [|? ? Hwe HWL]; subst.
  inversion HS as [|? ? _ HF]; subst. rewrite Forall_forall in *. intros x Hx Hxe.
  apply He. unfold expired in *. specialize (HF x Hx). specialize (HWL x Hx).
  rewrite (timer_less_window base) in HF by done.
  rewrite (signed_window base) in * by done. lia.
Qed.

Lemma timers_alloc σ L n : tree_at s σ L -> n ∈ L.*1 -> is_Some (heap σ !! n).
Proof. intros (_ & _ & q & t & m & H & _) Hn. by eapply holds_alloc. Qed.

Lemma remove_not_in n L : n ∉ L.*1 -> remove n L = L.
Proof.
  unfold remove. induction L as [|e L IH]; [done|]. rewrite fmap_cons, not_elem_of_cons.
  intros [He HL]. rewrite filter_cons_True by done. by rewrite IH.
Qed.

Lemma timers_delete σ L n e e' r :
  timers σ L -> events σ !! n = Some e -> timer_set e' = false ->
  tree_at s r (remove n L) -> is_Some (heap r !! n) -> same_outside s L.*1 (rb σ) r ->
  timers (mk_tstate r (<[n := e']> (events σ))) (remove n L).
Proof.
  intros [HT HS Hset Hev Hnd] He He' HT' Hn Ho. constructor; cbn [rb events].
  - done.
  - by apply remove_sorted.
  - intros a ea Ha. rewrite remove_elem. destruct (decide (a = n)) as [->|Han].
    + rewrite lookup_insert_eq in Ha. simplify_eq. split; [congruence|tauto].
    + rewrite lookup_insert_ne in Ha by done. rewrite (Hset a ea Ha). tauto.
  - intros a [Han Ha]%remove_elem. rewrite lookup_insert_ne by done. auto.
  - intros a Ha. destruct (decide (a = n)) as [->|Han].
    + destruct (Hnd n) as (? & ? & _); [eauto|]. done.
    + rewrite lookup_insert_ne in Ha by done. destruct (Hnd a Ha) as (Has & HaN & Hal).
      split_and!; [done..|]. destruct (decide (a ∈ L.*1)) as [Hin|Hin].
      * eapply timers_alloc; [exact HT'|]. by apply remove_elem.
      * rewrite Ho; [done|]. by apply not_elem_of_cons.
Qed.

Lemma del_timer_spec σ L n :
  timers σ L -> n ∈ L.*1 ->
  wp (ngx_event_del_timer s n) σ (fun _ σ' => timers σ' (remove n L) /\
    events σ' = alter (with_timer_set false) n (events σ)).
Proof.
  intros H Hn. unfold ngx_event_del_timer. apply wp_bind, wp_lift.
  destruct (timers_events _ _ H n Hn) as [e He].
  eapply wp_mono; [apply delete_spec; [apply (timers_tree _ _ H)|done]|].
  intros [] r (HT & Hal & Ho). eapply wp_set_event; [done|]. cbn [rb events]. split.
  - by eapply timers_delete.
  - apply map_eq. intros a. destruct (decide (a = n)) as [->|Ha].
    + by rewrite lookup_alter_eq, lookup_insert_eq, He.
    + by rewrite lookup_alter_ne, lookup_insert_ne by done.
Qed.

(** A timer that is not set is added at its place. *)
Lemma set_timer_spec σ L n k e :
  timers σ L -> events σ !! n = Some e -> n ∉ L.*1 -> coherent timer_less (n, k) L ->
  wp (set_timer s n k) σ (fun _ σ' => timers σ' (place timer_less (n, k) L)).
Proof.
  intros H He HnL Hc. destruct (timers_nodes _ _ H n) as (Hns & HnN & nd & Hnd); [eauto|].
  unfold set_timer. apply wp_bind, wp_lift. eapply wp_store; [done|]. cbn [rb events].
  apply wp_bind, wp_lift. cbn [rb events].
  assert (n ∉ s :: L.*1) as HnsL by (by apply not_elem_of_cons).
  eapply wp_mono.
  - apply (insert_spec s timer_less (ngx_rbtree_insert_timer_value s) _ L n (with_key k nd)).
    + eapply tree_agree; [apply (timers_tree _ _ H)|done|].
      intros a Ha. cbn [heap]. apply lookup_insert_ne. congruence.
    + cbn [heap]. by rewrite lookup_insert_eq.
    + done.
    + apply (timers_sorted _ _ H).
    + done.
  - intros [] r (HT & HS & Ho). cbn [with_key key] in *. eapply wp_set_event; [done|]. cbn [rb events].
    constructor; cbn [rb events].
    + done.
    + done.
    + intros a ea Ha. rewrite place_perm, fmap_cons, elem_of_cons. cbn [fst].
      destruct (decide (a = n)) as [->|Han].
      * rewrite lookup_insert_eq in Ha. simplify_eq. cbn. tauto.
      * rewrite lookup_insert_ne in Ha by done. rewrite (timers_set _ _ H a ea Ha). tauto.
    + intros a. rewrite place_perm, fmap_cons, elem_of_cons. cbn [fst]. intros [-> |Ha].
      * rewrite lookup_insert_eq. eauto.
      * rewrite lookup_insert_ne by congruence. by apply (timers_events _ _ H).
    + intros a Ha. destruct (decide (a = n)) as [->|Han].
      * split_and!; [done..|]. eapply timers_alloc; [exact HT|].
        rewrite place_perm, fmap_cons. set_solver.
      * rewrite lookup_insert_ne in Ha by done.
        destruct (timers_nodes _ _ H a Ha) as (Has & HaN & Hal). split_and!; [done..|].
        destruct (decide (a ∈ L.*1)) as [Hin|Hin].
        -- eapply timers_alloc; [exact HT|]. rewrite place_perm, fmap_cons. set_solver.
        -- rewrite Ho by set_solver. cbn [heap]. by rewrite lookup_insert_ne.
Qed.

(** What ngx_event_add_timer() does to the timers. *)
Definition add_effect (now : Z) (n : ptr) (timer : Z) (L L' : list (ptr * Z)) : Prop :=
  let k := wrapu ptr_size (now + timer) in
  (exists k', (n, k') ∈ L /\ ngx_abs (to_signed ptr_size (k - k')) < NGX_TIMER_LAZY_DELAY /\ L' = L) \/
  ((forall k', (n, k') ∈ L -> NGX_TIMER_LAZY_DELAY <= ngx_abs (to_signed ptr_size (k - k'))) /\
   L' = place timer_less (n, k) (remove n L)).

Lemma key_unique σ L n k k' : tree_at s σ L -> (n, k) ∈ L -> (n, k') ∈ L -> k = k'.
Proof.
  intros HT H1 H2. destruct (tree_key _ _ _ _ _ HT H1) as (nd & Hn & <-).
  destruct (tree_key _ _ _ _ _ HT H2) as (nd' & Hn' & <-). congruence.
Qed.

Lemma add_timer_spec base now σ L n e timer :
  timers σ L -> events σ !! n = Some e -> windowed base now L ->
  in_window base (wrapu ptr_size (now + timer)) ->
  wp (ngx_event_add_timer s now n timer) σ (fun _ σ' => exists L',
    timers σ' L' /\ windowed base now L' /\ add_effect now n timer L L').
Proof.
  intros H He [Hnow HW] Hk. unfold ngx_event_add_timer. set (k := wrapu ptr_size (now + timer)) in *.
  assert (forall L', (forall x, x ∈ L' -> x ∈ L) ->
    coherent timer_less (n, k) L' /\ windowed base now (place timer_less (n, k) L')) as Hsub.
  { intros L' HL'. rewrite Forall_forall in HW.
    assert (Forall (fun e => in_window base e.2) L') as HW' by (rewrite Forall_forall; auto).
    split; [by eapply timer_coherent|]. split; [done|]. rewrite place_perm. by constructor. }
  apply wp_bind. eapply wp_get_event; [done|]. destruct (timer_set e) eqn:Hset.
  - apply (timers_set _ _ H n e He) in Hset as Hin.
    apply list_elem_of_fmap in Hin as ([n' k'] & ? & Hin). cbn in *. subst n'.
    pose proof (timers_tree _ _ H) as HT. destruct (tree_key _ _ _ _ _ HT Hin) as (nd & Hnd & Hkey).
    apply wp_bind, wp_lift. unfold key_of. apply wp_bind. eapply wp_load; [done|]. apply wp_ret.
    rewrite Hkey. destruct (Z.ltb_spec (ngx_abs (to_signed ptr_size (k - k'))) NGX_TIMER_LAZY_DELAY) as [Hlt|Hge].
    + apply wp_skip. exists L. rewrite eta.
      split_and!; [done..|]. left. eauto.
    + apply wp_bind. rewrite eta.
      eapply wp_mono; [apply del_timer_spec; [done|]; by apply (list_elem_of_fmap_2' fst _ (n, k'))|].
      intros [] σ1 [H1 Hev]. destruct (Hsub (remove n L)) as [Hc HW'].
      { intros x Hx. by apply list_elem_of_filter in Hx as [_ ?]. }
      eapply wp_mono; [eapply (set_timer_spec _ _ _ _ (with_timer_set false e)); [done| |rewrite remove_elem; tauto|done]|].
      { by rewrite Hev, lookup_alter_eq, He. }
      intros [] σ2 H2. eexists. split_and!; [done..|]. right. split; [|done].
      intros k2 Hk2. by rewrite (key_unique _ _ _ _ _ HT Hk2 Hin).
  - assert (n ∉ L.*1) as Hn by (rewrite <- (timers_set _ _ H n e He); congruence).
    destruct (Hsub L) as [Hc HW']; [done|].
    eapply wp_mono; [by eapply set_timer_spec|]. intros [] σ2 H2. eexists. split_and!; [done..|].
    right. split; [|by rewrite remove_not_in].
    intros k2 Hk2. exfalso. apply Hn. by apply (list_elem_of_fmap_2' fst _ (n, k2)).
Qed.

(** ** Expiry *)

Section Expire.
Variables (base now : Z) (handler : ptr -> M tstate unit).

(** [eff n L L']: the handler of [n] may change the timers from [L] to
    [L']. *)
Variable eff : ptr -> list (ptr * Z) -> list (ptr * Z) -> Prop.

(** The contract of a handler: it keeps the invariant and has the effect
    [eff]; it may delete timers and add timers, but not one that has already
    expired. *)
Definition handler_ok : Prop := forall n σ L,
  timers σ L -> windowed base now L ->
  (exists e, events σ !! n = Some e /\ timer_set e = false /\ timedout e = true) ->
  wp (handler n) σ (fun _ σ' => exists L',
    eff n L L' /\ timers σ' L' /\ windowed base now L' /\
    filter (expired now) L' `sublist_of` filter (expired now) L).

(** The calls of handlers from the timers [L] to the timers [L']. *)
Inductive fires : list (ptr * Z) -> list ptr -> list (ptr * Z) -> Prop :=
  | fires_end L : Forall (fun e => ~ expired now e) L -> fires L [] L
  | fires_next n k L L1 l L' : expired now (n, k) -> eff n L L1 -> fires L1 l L' ->
      fires ((n, k) :: L) (n :: l) L'.

Lemma expire_loop_spec f σ L :
  handler_ok -> timers σ L -> windowed base now L ->
  (length (filter (expired now) L) < f)%nat ->
  wp (expire_loop s now handler f) σ (fun l σ' => exists L',
    timers σ' L' /\ windowed base now L' /\ Forall (fun e => ~ expired now e) L' /\
    fires L l L' /\ l `sublist_of` (filter (expired now) L).*1).
Proof.
  intros Hh. revert σ L. induction f as [|f IH]; intros σ L H HW Hf; [lia|]. cbn [expire_loop].
  pose proof (timers_tree _ _ H) as HT. apply wp_bind, wp_lift, wp_gets.
  rewrite eta.
  destruct L as [|[n k] L].
  { rewrite decide_True by (by apply (tree_root _ _ _ HT)). apply wp_ret.
    exists []. split_and!; [done..|by constructor|done]. }
  rewrite decide_False by (rewrite (tree_root _ _ _ HT); done). apply wp_bind, wp_lift.
  eapply wp_mono; [by apply tree_min|]. intros p r [-> ->]. cbn [head_addr fst].
  rewrite eta.
  destruct (tree_key _ _ _ n k HT) as (nd & Hnd & Hkey); [set_solver|].
  apply wp_bind, wp_lift. unfold key_of. apply wp_bind. eapply wp_load; [done|]. apply wp_ret.
  rewrite Hkey. rewrite eta.
  destruct (decide (expired now (n, k))) as [He|He]; pose proof He as He'; unfold expired in He'; cbn in He'.
  2: { rewrite (proj2 (Z.gtb_lt _ _)) by lia. apply wp_ret.
       pose proof (expired_sorted _ _ _ _ HW (timers_sorted _ _ H) He) as HF.
       exists ((n, k) :: L). split_and!; [done..|by constructor|]. apply sublist_nil_l. }
  replace (to_signed ptr_size (k - now) >? 0) with false by lia.
  destruct (timers_events _ _ H n) as [e Hev]; [set_solver|].
  apply wp_bind, wp_lift. eapply wp_mono; [apply (delete_spec _ _ _ n HT); set_solver|].
  intros [] r (HT1 & Hal & Ho). apply wp_bind. eapply wp_set_event; [done|]. cbn [rb events].
  apply wp_bind. eapply wp_set_event; [cbn [events]; by rewrite lookup_insert_eq|].
  cbn [rb events]. rewrite insert_insert_eq.
  assert (remove n ((n, k) :: L) = L) as Hrem.
  { apply (remove_split n k []). destruct HT as [Hd _]. by apply NoDup_cons in Hd as [_ ?]. }
  assert (timers (mk_tstate r (<[n := with_timedout true (with_timer_set false e)]> (events σ))) L) as H1.
  { rewrite <- Hrem. by eapply timers_delete. }
  assert (windowed base now L) as HW1 by (destruct HW as [? HW]; split; [done|]; by inversion HW).
  rewrite filter_cons_True in Hf by done. cbn [length] in Hf.
  apply wp_bind. eapply wp_mono; [apply Hh; [exact H1|done|]|].
  { eexists. cbn [events]. rewrite lookup_insert_eq. done. }
  intros [] σ2 (L2 & Heff & H2 & HW2 & Hsub). apply wp_bind. eapply wp_mono.
  { apply (IH σ2 L2); [done..|]. apply sublist_length in Hsub. lia. }
  intros l σ3 (L3 & H3 & HW3 & HF3 & Hfires & Hl). apply wp_ret. exists L3.
  split_and!; [done..|by econstructor|]. rewrite filter_cons_True by done.
  cbn. apply sublist_skip. etrans; [exact Hl|]. by apply fmap_sublist.
Qed.

(** Handlers that leave the timers alone: every expired timer fires, in
    order, and the others stay. *)
Lemma fires_all L l L' : (forall n L L', eff n L L' -> L' = L) -> fires L l L' ->
  l = (filter (expired now) L).*1 /\ L' = filter (fun e => ~ expired now e) L.
Proof.
  intros Heff. induction 1 as [L HF|n k L L1 l L' He Hn Hfi [-> ->]].
  - assert (filter (expired now) L = [] /\ filter (fun e => ~ expired now e) L = L) as [-> ->]; [|done].
    induction HF as [|e L He HF [IH1 IH2]]; [done|].
    by rewrite filter_cons_False, filter_cons_True, IH1, IH2.
  - apply Heff in Hn as ->. rewrite filter_cons_True, filter_cons_False by tauto. done.
Qed.
End Expire.

(** ** The other operations *)

Lemma init_timers σ sn :
  heap (rb σ) !! s = Some sn -> (forall n e, events σ !! n = Some e ->
    n <> s /\ n <> NULL /\ is_Some (heap (rb σ) !! n) /\ timer_set e = false) ->
  wp (ngx_event_timer_init s) σ (fun rc σ' => rc = NGX_OK /\ timers σ' []).
Proof.
  intros Hs Hev. unfold ngx_event_timer_init. apply wp_bind, wp_lift.
  eapply wp_mono; [by eapply init_spec|]. intros [] r [HT Ho]. apply wp_ret. split; [done|].
  constructor; cbn [rb events]; [done|constructor|..].
  - intros n e He. destruct (Hev n e He) as (_ & _ & _ & ->). set_solver.
  - set_solver.
  - intros n [e He]. destruct (Hev n e He) as (Hns & HnN & Hal & _). split_and!; [done..|].
    rewrite Ho; [done|]. set_solver.
Qed.

(** The time until the first timer. *)
Definition next_timer (now : Z) (L : list (ptr * Z)) : Z :=
  match L with [] => NGX_TIMER_INFINITE | e :: _ => Z.max 0 (to_signed ptr_size (e.2 - now)) end.

Lemma find_timer_spec σ L now : timers σ L ->
  wp (ngx_event_find_timer s now) σ (fun v σ' => v = next_timer now L /\ σ' = σ).
Proof.
  intros H. pose proof (timers_tree _ _ H) as HT. unfold ngx_event_find_timer.
  apply wp_bind, wp_lift, wp_gets. rewrite eta.
  destruct L as [|[n k] L].
  { rewrite decide_True by (by apply (tree_root _ _ _ HT)). by apply wp_ret. }
  rewrite decide_False by (rewrite (tree_root _ _ _ HT); done). apply wp_bind, wp_lift.
  eapply wp_mono; [by apply tree_min|]. intros p r [-> ->]. cbn [head_addr fst].
  destruct (tree_key _ _ _ n k HT) as (nd & Hnd & Hkey); [set_solver|].
  apply wp_bind, wp_lift. unfold key_of. apply wp_bind. eapply wp_load; [done|]. repeat apply wp_ret.
  rewrite Hkey. split; [|by destruct σ]. cbn [next_timer snd].
  assert (0 <= (if to_signed ptr_size (k - now) >? 0 then to_signed ptr_size (k - now) else 0)
    <= max_value ptr_size) as Hb.
  { unfold to_signed, wrapu. pose proof (max_value_pos ptr_size).
    pose proof (Z.mod_pos_bound (k - now) (2 ^ bits ptr_size)) as Hm.
    assert (0 < 2 ^ bits ptr_size) by (apply Z.pow_pos_nonneg; destruct ptr_size; cbn; lia).
    repeat case_match; lia. }
  rewrite wrapu_small; [repeat case_match; lia|]. revert Hb. rewrite max_value_bits.
  assert (2 ^ (bits ptr_size - 1) <= 2 ^ bits ptr_size) by (apply Z.pow_le_mono_r; lia). lia.
Qed.

(** No timer expires before the one found. *)
Lemma next_timer_least base now L e : windowed base now L -> sorted timer_less L -> e ∈ L ->
  next_timer now L <= Z.max 0 (to_signed ptr_size (e.2 - now)).
Proof.
  intros [Hnow HW] HS He. destruct L as [|e0 L]; [by apply not_elem_of_nil in He|]. cbn [next_timer].
  inversion HW as [|? ? H0 HWL]; subst. inversion HS as [|? ? _ HF]; subst.
  apply elem_of_cons in He as [->|He]; [lia|]. rewrite Forall_forall in *.
  specialize (HF e He). specialize (HWL e He). rewrite (timer_less_window base) in HF by done.
  rewrite !(signed_window base) by done. lia.
Qed.

Definition all_cancelable (σ : tstate) (L : list (ptr * Z)) : Prop :=
  Forall (fun e => exists ev, events σ !! e.1 = Some ev /\ cancelable ev = true) L.

Lemma left_loop_spec σ f A B : timers σ (A ++ B) -> (length B < f)%nat ->
  wp (left_loop s f (head_addr B)) σ (fun rc σ' => σ' = σ /\
    (rc = NGX_OK /\ all_cancelable σ B \/ rc = NGX_AGAIN /\ ~ all_cancelable σ B)).
Proof.
  revert A B. induction f as [|f IH]; intros A B H Hf; [lia|]. cbn [left_loop].
  destruct B as [|[n k] B]; cbn [head_addr fst].
  { rewrite decide_True by done. apply wp_ret. split; [done|]. left. split; [done|constructor]. }
  destruct (timers_events _ _ H n) as [e He]; [rewrite fmap_app; set_solver|].
  destruct (timers_nodes _ _ H n) as (_ & HnN & _); [eauto|].
  rewrite decide_False by done. apply wp_bind. eapply wp_get_event; [done|].
  destruct (cancelable e) eqn:Hc; cbn [negb].
  - apply wp_bind, wp_lift. eapply wp_mono; [eapply tree_next, (timers_tree _ _ H)|].
    intros p r [-> ->]. rewrite eta.
    cbn [length] in Hf. eapply wp_mono; [apply (IH (A ++ [(n, k)])); [by rewrite <- (assoc_L (++))|lia]|].
    intros rc σ' [-> [[-> HB]|[-> HB]]]; (split; [done|]); [left|right]; (split; [done|]).
    + constructor; [eauto|done].
    + intros HB'. apply HB. by inversion HB'.
  - apply wp_ret. split; [done|]. right. split; [done|]. intros HB.
    inversion HB as [|? ? (ev & Hev & Hcan) _]; subst. cbn in Hev. congruence.
Qed.

Lemma no_timers_left_spec σ L : timers σ L ->
  wp (ngx_event_no_timers_left s) σ (fun rc σ' => σ' = σ /\
    (rc = NGX_OK /\ all_cancelable σ L \/ rc = NGX_AGAIN /\ ~ all_cancelable σ L)).
Proof.
  intros H. pose proof (timers_tree _ _ H) as HT. unfold ngx_event_no_timers_left.
  apply wp_bind, wp_lift, wp_gets. rewrite eta.
  destruct (decide (root (rb σ) = s)) as [Hr|Hr]; rewrite (tree_root _ _ _ HT) in Hr.
  { subst L. apply wp_ret. split; [done|]. left. split; [done|constructor]. }
  apply wp_bind, wp_lift. eapply wp_mono; [by apply tree_min|]. intros p r [-> ->].
  apply wp_bind, wp_lift, wp_gets. cbn [rb events].
  rewrite eta.
  apply (left_loop_spec σ _ [] L H). destruct HT as (Hd & _ & q & t & m & Hh & _).
  pose proof (holds_size _ _ _ _ Hd _ _ _ Hh). lia.
Qed.

End Invariant.

(** ** Theorems *)

(** C39: ngx_event_expire_timers() terminates and fires the expired timers in
    order: whatever the handlers do to the timers within their contract (keep
    the tree, add no timer that has already expired), the handlers called are
    those of expired timers, in the order of expiry, each having been taken
    out of the tree and marked as timed out before its handler runs, and no
    expired timer is left; when the handlers leave the timers alone, exactly
    the expired timers fire and exactly the others stay. *)
Theorem expire_timers_fires `{P : Platform} s base now handler eff f σ L :
  handler_ok s base now handler eff -> timers s σ L -> windowed base now L ->
  (length (filter (expired now) L) < f)%nat ->
  exists l σ' L', ngx_event_expire_timers s now handler f σ = Some (l, σ') /\
    timers s σ' L' /\ Forall (fun e => ~ expired now e) L' /\
    fires now eff L l L' /\ l `sublist_of` (filter (expired now) L).*1 /\
    ((forall n L L', eff n L L' -> L' = L) ->
     l = (filter (expired now) L).*1 /\ L' = filter (fun e => ~ expired now e) L).
Proof.
  intros Hh H HW Hf. pose proof (expire_loop_spec _ _ _ _ _ f σ L Hh H HW Hf) as Hwp.
  apply wp_run in Hwp as (l & σ' & Hrun & L' & H' & HW' & HF & Hfi & Hl).
  exists l, σ', L'. split_and!; try done. intros Heff. by eapply fires_all.
Qed.

(** The operations on timers implement those on a list sorted by expiry:
    ngx_event_find_timer() gives the time until the first timer, and no timer
    expires before; ngx_event_add_timer() puts the timer at its place, unless
    it is already set to a time less than 300 ms away, and always leaves it
    set within 300 ms of the time asked for; ngx_event_del_timer() takes it
    out; ngx_event_no_timers_left() tells whether all timers may be
    cancelled.  None of them fails. *)
Theorem timer_operations_refine `{P : Platform} s base now σ L :
  timers s σ L -> windowed base now L ->
  (exists v, ngx_event_find_timer s now σ = Some (v, σ) /\ v = next_timer now L /\
     forall e, e ∈ L -> v <= Z.max 0 (to_signed ptr_size (e.2 - now))) /\
  (forall n timer, is_Some (events σ !! n) -> in_window base (wrapu ptr_size (now + timer)) ->
     exists σ' L' k, ngx_event_add_timer s now n timer σ = Some (tt, σ') /\
       timers s σ' L' /\ windowed base now L' /\ add_effect now n timer L L' /\
       (n, k) ∈ L' /\
       (k = wrapu ptr_size (now + timer) \/
        ngx_abs (to_signed ptr_size (wrapu ptr_size (now + timer) - k)) < NGX_TIMER_LAZY_DELAY)) /\
  (forall n, n ∈ L.*1 ->
     exists σ', ngx_event_del_timer s n σ = Some (tt, σ') /\ timers s σ' (remove n L)) /\
  (exists rc, ngx_event_no_timers_left s σ = Some (rc, σ) /\
     (rc = NGX_OK /\ all_cancelable σ L \/ rc = NGX_AGAIN /\ ~ all_cancelable σ L)).
Proof.
  intros H HW. split_and!.
  - pose proof (find_timer_spec _ _ _ now H) as Hwp. apply wp_run in Hwp as (v & σ' & Hrun & Hv & ->).
    exists v. split_and!; [done..|]. intros e He. rewrite Hv.
    eapply next_timer_least; [done|apply (timers_sorted _ _ _ H)|done].
  - intros n timer [e He] Hk. pose proof (add_timer_spec _ _ _ _ _ _ _ timer H He HW Hk) as Hwp.
    apply wp_run in Hwp as ([] & σ' & Hrun & L' & H' & HW' & Heff).
    destruct Heff as [(k' & Hin & Hlt & ->)|[Hge ->]].
    + exists σ', L, k'. split_and!; try done; [|by right]. left. eauto.
    + eexists σ', _, _. split_and!; [done..| | |by left]; [by right|].
      rewrite place_perm. by left.
  - intros n Hn. pose proof (del_timer_spec _ _ _ n H Hn) as Hwp.
    apply wp_run in Hwp as ([] & σ' & Hrun & H' & _). eauto.
  - pose proof (no_timers_left_spec _ _ _ H) as Hwp.
    apply wp_run in Hwp as (rc & σ' & Hrun & -> & Hrc). eauto.
Qed.

(** *** An example: three timers *)

Definition idle : event := mk_event false false true.
Definition empty_state : tstate :=
  mk_tstate (mk_state NULL (list_to_map ((fun a => (a, blank)) <$> seq 1%nat 4%nat)))
    (list_to_map ((fun a => (a, idle)) <$> seq 1%nat 3%nat)).
Definition add_three : M tstate unit :=
  ngx_event_timer_init 4%nat ;;
  ngx_event_add_timer (P := lp64) 4%nat 1000 1%nat 100 ;;
  ngx_event_add_timer (P := lp64) 4%nat 1000 2%nat 50 ;;
  ngx_event_add_timer (P := lp64) 4%nat 1000 3%nat 900.
Definition three_timers : tstate :=
  match add_three empty_state with Some (_, σ) => σ | None => empty_state end.
Definition three : list (ptr * Z) := [(2%nat, 1050); (1%nat, 1100); (3%nat, 1900)].

Lemma three_windowed now : 0 <= now < 2 ^ 63 -> windowed (P := lp64) 0 now three.
Proof.
  intros Hn. split; [unfold in_window; rewrite Z.sub_0_r, Z.mod_small by (cbn; lia); cbn; lia|].
  repeat constructor.
Qed.

Lemma three_timers_set : timers (P := lp64) 4%nat three_timers three.
Proof.
  assert (forall n, is_Some (events three_timers !! n) -> n ∈ seq 1%nat 3%nat) as Hev.
  { intros n [e He]. revert n e He.
    change (map_Forall (fun n (_ : event) => n ∈ seq 1%nat 3%nat) (events three_timers)).
    apply (bool_decide_unpack _). by vm_compute. }
  constructor.
  - split; [apply (bool_decide_unpack _); by vm_compute|]. split; [by eexists; vm_compute|].
    exists NULL, (T false (T true E 2%nat 1050 E) 1%nat 1100 (T true E 3%nat 1900 E)), 1%nat.
    split; [|by repeat econstructor]. constructor; try done.
  - repeat constructor.
  - change (map_Forall (fun n e => timer_set e = true <-> n ∈ three.*1) (events three_timers)).
    apply (bool_decide_unpack _). by vm_compute.
  - intros n Hn. cbn in Hn. repeat (apply elem_of_cons in Hn as [-> |Hn]; [by eexists; vm_compute|]).
    by apply elem_of_nil in Hn.
  - intros n Hn%Hev. cbn in Hn.
    repeat (apply elem_of_cons in Hn as [-> |Hn]; [split_and!; [done|done|by eexists; vm_compute]|]).
    by apply elem_of_nil in Hn.
Qed.

Lemma idle_handler_ok now :
  handler_ok (P := lp64) 4%nat 0 now (fun _ => skip) (fun _ L L' => L' = L).
Proof. intros n σ L H HW _. apply wp_skip. by exists L. Qed.

Lemma expire_timers_fires_witness : exists l σ' L',
  ngx_event_expire_timers (P := lp64) 4%nat 1500 (fun _ => skip) 3%nat three_timers = Some (l, σ') /\
  l = [2%nat; 1%nat] /\ L' = [(3%nat, 1900)] /\ timers (P := lp64) 4%nat σ' L'.
Proof.
  destruct (expire_timers_fires (P := lp64) 4%nat 0 1500 (fun _ => skip) (fun _ L L' => L' = L)
    3%nat three_timers three) as (l & σ' & L' & Hrun & HT & HF & Hfi & Hl & Hall).
  - apply idle_handler_ok.
  - apply three_timers_set.
  - apply three_windowed. lia.
  - vm_compute. lia.
  - destruct Hall as [-> ->]; [done|]. eexists _, σ', _. split; [exact Hrun|].
    split; [by vm_compute|]. split; [by vm_compute|]. exact HT.
Defined.

Lemma timer_operations_refine_witness :
  ngx_event_find_timer (P := lp64) 4%nat 1000 three_timers = Some (50, three_timers) /\
  exists rc, ngx_event_no_timers_left 4%nat three_timers = Some (rc, three_timers) /\ rc = NGX_OK.
Proof.
  destruct (timer_operations_refine (P := lp64) 4%nat 0 1000 three_timers three
    three_timers_set) as ((v & Hv & E & _) & _ & _ & rc & Hrc & Hc).
  - apply three_windowed. lia.
  - split; [rewrite Hv, E; reflexivity|]. exists rc. split; [exact Hrc|].
    revert Hrc. vm_compute. by intros [= <-].
Defined.

End Timer.
