(* ===== verification/NgxQueue.v ===== *)
(** * Queues

    core/ngx_queue.h and core/ngx_queue.c: circular doubly linked queues on a
    memory of nodes, with every macro of the header, the search for the middle
    and the insertion sort.  The theorem says that they implement the
    operations on lists; the users of queues are modelled on lists or on this
    memory. *)

From Stdlib Require Import ZArith Lia ZifyBool.
From stdpp Require Import base option tactics gmap list sorting.
From S2P Require Import Prelude NgxState.

Local Open Scope Z_scope.

Module Queue.

Definition ptr : Type := nat.
Definition NULL : ptr := O.

(** [ngx_queue_t] *)
Record qnode := mk_qnode { prev : ptr; next : ptr }.

Abbreviation memory := (gmap nat qnode).

Definition load (p : ptr) : M memory qnode := gets_some (fun h => h !! p).

Definition get_prev (p : ptr) : M memory ptr := n ← load p; mret (prev n).
Definition get_next (p : ptr) : M memory ptr := n ← load p; mret (next n).

Definition put_prev (p x : ptr) (h : memory) : memory := alter (fun n => mk_qnode x (next n)) p h.
Definition put_next (p x : ptr) (h : memory) : memory := alter (fun n => mk_qnode (prev n) x) p h.

Definition set_prev (p x : ptr) : M memory unit := _ ← load p; modify (put_prev p x).
Definition set_next (p x : ptr) : M memory unit := _ ← load p; modify (put_next p x).

Definition ngx_queue_init (q : ptr) : M memory unit := set_prev q q ;; set_next q q.

Definition ngx_queue_empty (h : ptr) : M memory bool := p ← get_prev h; mret (bool_decide (h = p)).

Definition ngx_queue_insert_head (h x : ptr) : M memory unit :=
  n ← get_next h; set_next x n ;;
  n ← get_next x; set_prev n x ;;
  set_prev x h ;;
  set_next h x.

Definition ngx_queue_insert_after : ptr -> ptr -> M memory unit := ngx_queue_insert_head.

Definition ngx_queue_insert_tail (h x : ptr) : M memory unit :=
  p ← get_prev h; set_prev x p ;;
  p ← get_prev x; set_next p x ;;
  set_next x h ;;
  set_prev h x.

Definition ngx_queue_head : ptr -> M memory ptr := get_next.
Definition ngx_queue_last : ptr -> M memory ptr := get_prev.
Definition ngx_queue_next : ptr -> M memory ptr := get_next.
Definition ngx_queue_prev : ptr -> M memory ptr := get_prev.

(** [debug] stands for [NGX_DEBUG]. *)
Definition ngx_queue_remove (debug : bool) (x : ptr) : M memory unit :=
  n ← get_next x; p ← get_prev x; set_prev n p ;;
  p ← get_prev x; n ← get_next x; set_next p n ;;
  if debug then (set_prev x NULL ;; set_next x NULL) else skip.

Definition ngx_queue_split (h q n : ptr) : M memory unit :=
  p ← get_prev h; set_prev n p ;;
  p ← get_prev n; set_next p n ;;
  set_next n q ;;
  p ← get_prev q; set_prev h p ;;
  p ← get_prev h; set_next p h ;;
  set_prev q n.

Definition ngx_queue_add (h n : ptr) : M memory unit :=
  p ← get_prev h; x ← get_next n; set_next p x ;;
  x ← get_next n; p ← get_prev h; set_prev x p ;;
  p ← get_prev n; set_prev h p ;;
  p ← get_prev h; set_next p h.

(** The fuel of a walk. *)
Definition fuel : M memory nat := gets (fun h => S (size h)).

Fixpoint middle_loop (f : nat) (queue middle nx : ptr) : M memory ptr :=
  match f with
  | O => mfail
  | S f =>
      middle ← ngx_queue_next middle;
      nx ← ngx_queue_next nx;
      last ← ngx_queue_last queue;
      if decide (nx = last) then mret middle
      else
        nx ← ngx_queue_next nx;
        last ← ngx_queue_last queue;
        if decide (nx = last) then mret middle else middle_loop f queue middle nx
  end.

Definition ngx_queue_middle (queue : ptr) : M memory ptr :=
  middle ← ngx_queue_head queue;
  last ← ngx_queue_last queue;
  if decide (middle = last) then mret middle
  else nx ← ngx_queue_head queue; f ← fuel; middle_loop f queue middle nx.

Section Sort.
Variable debug : bool.
Variable cmp : ptr -> ptr -> Z.

Fixpoint back_loop (f : nat) (queue pv q : ptr) : M memory ptr :=
  match f with
  | O => mfail
  | S f =>
      if cmp pv q <=? 0 then mret pv
      else
        pv ← ngx_queue_prev pv;
        if decide (pv = queue) then mret pv else back_loop f queue pv q
  end.

Fixpoint sort_loop (f : nat) (queue q : ptr) : M memory unit :=
  match f with
  | O => mfail
  | S f =>
      if decide (q = queue) then skip
      else
        pv ← ngx_queue_prev q;
        nx ← ngx_queue_next q;
        ngx_queue_remove debug q ;;
        g ← fuel; pv ← back_loop g queue pv q;
        ngx_queue_insert_after pv q ;;
        sort_loop f queue nx
  end.

Definition ngx_queue_sort (queue : ptr) : M memory unit :=
  q ← ngx_queue_head queue;
  last ← ngx_queue_last queue;
  if decide (q = last) then skip
  else q ← ngx_queue_next q; f ← fuel; sort_loop f queue q.

End Sort.

(** ** The operations on lists *)

(** The insertion sort of a list: [l] is the sorted part, from its end. *)
Fixpoint insert_back {B} (cmp : B -> B -> Z) (q : B) (l : list B) : list B :=
  match l with
  | [] => [q]
  | p :: l' => if cmp p q <=? 0 then q :: l else p :: insert_back cmp q l'
  end.

Definition list_sort {B} (cmp : B -> B -> Z) (l : list B) : list B :=
  reverse (fold_left (fun s q => insert_back cmp q s) l []).

(** ** Links *)

Definition nx (h : memory) (a b : ptr) : Prop := next <$> h !! a = Some b.
Definition pv (h : memory) (b a : ptr) : Prop := prev <$> h !! b = Some a.

Lemma put_next_some p x h a : is_Some (put_next p x h !! a) <-> is_Some (h !! a).
Proof. unfold put_next. by rewrite lookup_alter_is_Some. Qed.

Lemma put_prev_some p x h a : is_Some (put_prev p x h !! a) <-> is_Some (h !! a).
Proof. unfold put_prev. by rewrite lookup_alter_is_Some. Qed.

Lemma nx_put_next p x h a b : is_Some (h !! p) ->
  nx (put_next p x h) a b <-> (if decide (a = p) then b = x else nx h a b).
Proof.
  intros [n Hn]. unfold nx, put_next. case_decide; [subst|by rewrite lookup_alter_ne].
  rewrite lookup_alter_eq, Hn. cbn. naive_solver.
Qed.

Lemma pv_put_prev p x h a b : is_Some (h !! p) ->
  pv (put_prev p x h) a b <-> (if decide (a = p) then b = x else pv h a b).
Proof.
  intros [n Hn]. unfold pv, put_prev. case_decide; [subst|by rewrite lookup_alter_ne].
  rewrite lookup_alter_eq, Hn. cbn. naive_solver.
Qed.

Lemma nx_put_prev p x h a b : nx (put_prev p x h) a b <-> nx h a b.
Proof.
  unfold nx, put_prev. destruct (decide (a = p)) as [->|]; [|by rewrite lookup_alter_ne].
  rewrite lookup_alter_eq. by destruct (h !! p).
Qed.

Lemma pv_put_next p x h a b : pv (put_next p x h) a b <-> pv h a b.
Proof.
  unfold pv, put_next. destruct (decide (a = p)) as [->|]; [|by rewrite lookup_alter_ne].
  rewrite lookup_alter_eq. by destruct (h !! p).
Qed.

Lemma nx_some h a b : nx h a b -> is_Some (h !! a).
Proof. unfold nx. destruct (h !! a); naive_solver. Qed.

Lemma pv_some h a b : pv h a b -> is_Some (h !! a).
Proof. unfold pv. destruct (h !! a); naive_solver. Qed.

Lemma wp_next p x h Q : nx h p x -> Q x h -> wp (get_next p) h Q.
Proof.
  unfold nx, get_next. intros H HQ. apply wp_bind. destruct (h !! p) as [n|] eqn:E; cbn in H; [|done].
  simplify_eq. by apply (wp_gets_some _ n).
Qed.

Lemma wp_prev p x h Q : pv h p x -> Q x h -> wp (get_prev p) h Q.
Proof.
  unfold pv, get_prev. intros H HQ. apply wp_bind. destruct (h !! p) as [n|] eqn:E; cbn in H; [|done].
  simplify_eq. by apply (wp_gets_some _ n).
Qed.

Lemma wp_set_next p x h Q : is_Some (h !! p) -> Q tt (put_next p x h) -> wp (set_next p x) h Q.
Proof. intros [n Hn] HQ. apply wp_bind, (wp_gets_some _ n); [done|]. by apply wp_modify. Qed.

Lemma wp_set_prev p x h Q : is_Some (h !! p) -> Q tt (put_prev p x h) -> wp (set_prev p x) h Q.
Proof. intros [n Hn] HQ. apply wp_bind, (wp_gets_some _ n); [done|]. by apply wp_modify. Qed.

(** The memory that an operation leaves, link by link. *)
Ltac somes := repeat first [rewrite put_next_some | rewrite put_prev_some]; eauto using nx_some, pv_some.

Ltac links :=
  repeat first
    [ rewrite nx_put_prev | rewrite pv_put_next
    | rewrite nx_put_next by somes
    | rewrite pv_put_prev by somes ].

Ltac all_links := intros a b; repeat (links; try case_decide); naive_solver.

Ltac link_side :=
  first [ done | eassumption | by somes
        | repeat progress (links; rewrite ?decide_True, ?decide_False by done); first [done | eassumption] ].

Ltac wp_link :=
  lazymatch goal with
  | |- wp (get_next _) _ _ => eapply wp_next; [link_side|]
  | |- wp (get_prev _) _ _ => eapply wp_prev; [link_side|]
  | |- wp (set_next _ _) _ _ => eapply wp_set_next; [link_side|]
  | |- wp (set_prev _ _) _ _ => eapply wp_set_prev; [link_side|]
  | _ => wp_pure
  end.

(** [h'] has the same nodes as [h]. *)
Definition same_nodes (h h' : memory) : Prop := forall a, is_Some (h' !! a) <-> is_Some (h !! a).

Lemma insert_after_links p n x h : nx h p n -> is_Some (h !! n) -> is_Some (h !! x) -> x <> p -> x <> n ->
  wp (ngx_queue_insert_head p x) h (fun _ h' => same_nodes h h' /\
    (forall a b, nx h' a b <-> (if decide (a = p) then b = x else if decide (a = x) then b = n else nx h a b)) /\
    (forall a b, pv h' a b <-> (if decide (a = x) then b = p else if decide (a = n) then b = x else pv h a b))).
Proof.
  intros Hp Hn Hx H1 H2. unfold ngx_queue_insert_head. repeat wp_link. split_and!.
  - intros a. by somes.
  - by all_links.
  - by all_links.
Qed.

Lemma insert_before_links s p x h : pv h s p -> is_Some (h !! p) -> is_Some (h !! x) -> x <> p -> x <> s ->
  wp (ngx_queue_insert_tail s x) h (fun _ h' => same_nodes h h' /\
    (forall a b, nx h' a b <-> (if decide (a = p) then b = x else if decide (a = x) then b = s else nx h a b)) /\
    (forall a b, pv h' a b <-> (if decide (a = x) then b = p else if decide (a = s) then b = x else pv h a b))).
Proof.
  intros Hp Hn Hx H1 H2. unfold ngx_queue_insert_tail. repeat wp_link. split_and!.
  - intros a. by somes.
  - by all_links.
  - by all_links.
Qed.

Lemma remove_links debug p x n h : pv h x p -> nx h x n -> is_Some (h !! p) -> is_Some (h !! n) -> x <> p -> x <> n ->
  wp (ngx_queue_remove debug x) h (fun _ h' => same_nodes h h' /\
    (forall a b, a <> x -> nx h' a b <-> (if decide (a = p) then b = n else nx h a b)) /\
    (forall a b, a <> x -> pv h' a b <-> (if decide (a = n) then b = p else pv h a b))).
Proof.
  intros Hp Hn Hp' Hn' H1 H2. unfold ngx_queue_remove. repeat wp_link. destruct debug; repeat wp_link; split_and!.
  - intros a. by somes.
  - by all_links.
  - by all_links.
  - intros a. by somes.
  - by all_links.
  - by all_links.
Qed.

(** ** Chains

    [W] is a walk along the links, in both directions. *)
Fixpoint chain (h : memory) (W : list ptr) : Prop :=
  match W with
  | a :: (b :: _) as W' => nx h a b /\ pv h b a /\ chain h W'
  | _ => True
  end.

(** The nodes that are left, and those that are entered. *)
Fixpoint src (W : list ptr) : list ptr :=
  match W with a :: (_ :: _) as W' => a :: src W' | _ => [] end.

Definition tgt (W : list ptr) : list ptr := tail W.

Lemma src_app A p B : src (A ++ p :: B) = A ++ src (p :: B).
Proof.
  induction A as [|a A IH]; [done|]. change ((a :: A) ++ p :: B) with (a :: (A ++ p :: B)).
  destruct (A ++ p :: B) as [|b W] eqn:E; [by destruct A|]. cbn [src app]. f_equal. exact IH.
Qed.

Lemma tgt_app A p B : tgt (A ++ p :: B) = tgt (A ++ [p]) ++ B.
Proof. destruct A as [|a A]; cbn; [done|]. by rewrite <- (assoc_L (++)). Qed.

Lemma chain_app h A p B : chain h (A ++ p :: B) <-> chain h (A ++ [p]) /\ chain h (p :: B).
Proof.
  induction A as [|a A IH]; [cbn; tauto|]. destruct A as [|b A].
  - cbn. destruct B; tauto.
  - change (chain h ((a :: b :: A) ++ p :: B)) with (nx h a b /\ pv h b a /\ chain h ((b :: A) ++ p :: B)).
    change (chain h ((a :: b :: A) ++ [p])) with (nx h a b /\ pv h b a /\ chain h ((b :: A) ++ [p])). tauto.
Qed.

Lemma chain_keep h h' W : (forall a b, a ∈ src W -> nx h a b -> nx h' a b) ->
  (forall a b, a ∈ tgt W -> pv h a b -> pv h' a b) -> chain h W -> chain h' W.
Proof.
  induction W as [|a W IH]; [done|]. destruct W as [|b W]; [done|]. intros H1 H2 (Hn & Hp & HW). cbn [src tgt tail] in *.
  split; [apply H1; [left|done]|]. split; [apply H2; [left|done]|]. apply IH; [| |done].
  - intros x y Hx. apply H1. by right.
  - intros x y Hx. apply H2. right. exact Hx.
Qed.

Lemma chain_alloc h W a : chain h W -> (a ∈ src W \/ a ∈ tgt W) -> is_Some (h !! a).
Proof.
  induction W as [|x W IH]; [cbn; set_solver|]. destruct W as [|y W]; [cbn; set_solver|].
  intros (Hn & Hp & HW) H. cbn [src tgt tail] in H.
  assert (a = x \/ a = y \/ a ∈ src (y :: W) \/ a ∈ tgt (y :: W)) as [-> |[-> |Ha]] by (cbn [tgt tail]; set_solver);
    eauto using nx_some, pv_some.
Qed.

Section Chain.
Variables (h : memory) (A B : list ptr) (p x n : ptr).

Lemma chain_insert h' : chain h (A ++ p :: n :: B) ->
  NoDup (src (A ++ p :: n :: B)) -> NoDup (tgt (A ++ p :: n :: B)) ->
  x ∉ src (A ++ p :: n :: B) -> x ∉ tgt (A ++ p :: n :: B) ->
  (forall a b, nx h' a b <-> (if decide (a = p) then b = x else if decide (a = x) then b = n else nx h a b)) ->
  (forall a b, pv h' a b <-> (if decide (a = x) then b = p else if decide (a = n) then b = x else pv h a b)) ->
  chain h' (A ++ p :: x :: n :: B).
Proof.
  rewrite src_app, tgt_app. cbn [src]. intros HW Hs Ht Hxs Hxt Hn Hp.
  apply chain_app in HW as [HA (Hpn & Hnp & HB)]. apply NoDup_app in Hs as (Hs1 & Hs2 & Hs3). apply NoDup_cons in Hs3 as [Hs3 _].
  apply NoDup_app in Ht as (Ht1 & Ht2 & Ht3). apply NoDup_cons in Ht3 as [Ht3 _].
  assert (x <> p /\ x <> n) as [Hxp Hxn] by set_solver.
  apply chain_app. split; [|cbn [chain]; split_and!].
  - eapply chain_keep; [| |exact HA].
    + rewrite src_app. cbn [src]. intros a b Ha. rewrite (right_id_L [] (++)) in Ha. rewrite Hn, !decide_False; [done|set_solver..].
    + intros a b Ha. rewrite Hp, !decide_False; [done|set_solver..].
  - rewrite Hn. by rewrite decide_True.
  - rewrite Hp. by rewrite decide_True.
  - rewrite Hn. rewrite decide_False by done. by rewrite decide_True.
  - rewrite Hp. rewrite decide_False by done. by rewrite decide_True.
  - change (chain h' (n :: B)). eapply chain_keep; [| |exact HB].
    + intros a b Ha. rewrite Hn, !decide_False; [done|set_solver..].
    + intros a b Ha. cbn [tgt tail] in Ha. rewrite Hp, !decide_False; [done|set_solver..].
Qed.

Lemma chain_remove h' : chain h (A ++ p :: x :: n :: B) ->
  NoDup (src (A ++ p :: x :: n :: B)) -> NoDup (tgt (A ++ p :: x :: n :: B)) ->
  (forall a b, a <> x -> nx h' a b <-> (if decide (a = p) then b = n else nx h a b)) ->
  (forall a b, a <> x -> pv h' a b <-> (if decide (a = n) then b = p else pv h a b)) ->
  chain h' (A ++ p :: n :: B).
Proof.
  rewrite src_app, tgt_app. cbn [src]. intros HW Hs Ht Hn Hp.
  apply chain_app in HW as [HA (_ & _ & _ & _ & HB)]. apply NoDup_app in Hs as (Hs1 & Hs2 & Hs3).
  apply NoDup_cons in Hs3 as [Hs3 [Hs4 _]%NoDup_cons]. apply NoDup_app in Ht as (Ht1 & Ht2 & Ht3).
  apply NoDup_cons in Ht3 as [Ht3 [Ht4 _]%NoDup_cons].
  apply chain_app. split; [|cbn [chain]; split_and!].
  - eapply chain_keep; [| |exact HA].
    + rewrite src_app. cbn [src]. intros a b Ha. rewrite (right_id_L [] (++)) in Ha. rewrite Hn, decide_False; [done|set_solver..].
    + intros a b Ha. rewrite Hp, decide_False; [done|set_solver..].
  - rewrite Hn by set_solver. by rewrite decide_True.
  - rewrite Hp by set_solver. by rewrite decide_True.
  - change (chain h' (n :: B)). eapply chain_keep; [| |exact HB].
    + intros a b Ha. rewrite Hn, decide_False; [done|set_solver..].
    + intros a b Ha. cbn [tgt tail] in Ha. rewrite Hp, decide_False; [done|set_solver..].
Qed.

End Chain.

(** ** Queues as lists *)

Definition ring (s : ptr) (l : list ptr) : list ptr := s :: l ++ [s].

(** The memory [h] holds the queue [s] of the elements [l]. *)
Definition queue_at (h : memory) (s : ptr) (l : list ptr) : Prop := NoDup (s :: l) /\ chain h (ring s l).

Lemma src_ring s l : src (ring s l) = s :: l.
Proof. unfold ring. change (s :: l ++ [s]) with ((s :: l) ++ [s]). rewrite src_app. cbn. by rewrite (right_id_L [] (++)). Qed.

Lemma tgt_ring s l : tgt (ring s l) = l ++ [s].
Proof. done. Qed.

Lemma nodup_tgt (s : ptr) l : NoDup (s :: l) -> NoDup (l ++ [s]).
Proof. intros H. by rewrite <- Permutation_cons_append. Qed.

(** A ring cut before an element, and after one. *)
Lemma ring_after s A B : exists A' p n B', s :: A = A' ++ [p] /\ B ++ [s] = n :: B' /\
  ring s (A ++ B) = A' ++ p :: n :: B' /\ p = List.last (s :: A) s /\ n = hd s B.
Proof.
  destruct (exists_last (l := s :: A) ltac:(done)) as (A' & p & E). exists A', p.
  assert (exists n B', B ++ [s] = n :: B' /\ n = hd s B) as (n & B' & E' & En) by (destruct B as [|b B]; [by exists s, []|by exists b, (B ++ [s])]).
  exists n, B'. split_and!; [done|done| | |done].
  - unfold ring. rewrite <- (assoc_L (++)), E'. change (s :: A ++ n :: B') with ((s :: A) ++ n :: B'). rewrite E.
    by rewrite <- (assoc_L (++)).
  - rewrite E. by rewrite last_last.
Qed.

Lemma ring_remove s A x B : exists A' p n B', s :: A = A' ++ [p] /\ B ++ [s] = n :: B' /\
  ring s (A ++ x :: B) = A' ++ p :: x :: n :: B' /\ ring s (A ++ B) = A' ++ p :: n :: B' /\
  p = List.last (s :: A) s /\ n = hd s B.
Proof.
  destruct (ring_after s A B) as (A' & p & n & B' & E & E' & Er & Ep & En). exists A', p, n, B'. split_and!; try done.
  unfold ring. change (s :: (A ++ x :: B) ++ [s]) with (((s :: A) ++ x :: B) ++ [s]). rewrite E.
  rewrite <- !(assoc_L (++)). cbn. by rewrite E'.
Qed.

Lemma queue_alloc h s l a : queue_at h s l -> a ∈ s :: l -> is_Some (h !! a).
Proof. intros [_ H] Ha. eapply chain_alloc; [done|]. rewrite src_ring. by left. Qed.

Section Specs.
Variables (h : memory) (s : ptr).

Lemma queue_init_spec : is_Some (h !! s) ->
  wp (ngx_queue_init s) h (fun _ h' => same_nodes h h' /\ queue_at h' s []).
Proof.
  intros Hs. unfold ngx_queue_init. repeat wp_link. split; [intros a; by somes|].
  split; [repeat constructor; set_solver|]. cbn. split_and!; [| |done]; links; by rewrite decide_True.
Qed.

(** The elements before and after a place of the queue. *)
Lemma queue_ends A B : queue_at h s (A ++ B) -> nx h (List.last (s :: A) s) (hd s B) /\ pv h (hd s B) (List.last (s :: A) s).
Proof.
  intros [_ H]. destruct (ring_after s A B) as (A' & p & n & B' & _ & _ & Er & -> & ->). rewrite Er in H.
  apply chain_app in H as (_ & H1 & H2 & _). done.
Qed.

Lemma head_spec l (Q : ptr -> memory -> Prop) : queue_at h s l -> Q (hd s l) h -> wp (ngx_queue_head s) h Q.
Proof. intros H. apply wp_next. by apply (queue_ends [] l). Qed.

Lemma last_spec l (Q : ptr -> memory -> Prop) : queue_at h s l -> Q (List.last l s) h -> wp (ngx_queue_last s) h Q.
Proof.
  intros H HQ. apply (wp_prev _ (List.last (s :: l) s)); [|by destruct l].
  rewrite <- (right_id_L [] (++) l) in H. by apply queue_ends in H as [_ H].
Qed.

Lemma next_spec A x B (Q : ptr -> memory -> Prop) : queue_at h s (A ++ x :: B) -> Q (hd s B) h -> wp (ngx_queue_next x) h Q.
Proof.
  intros H. apply wp_next. change (x :: B) with ([x] ++ B) in H. rewrite (assoc_L (++)) in H.
  apply queue_ends in H as [H _]. change (s :: A ++ [x]) with ((s :: A) ++ [x]) in H. by rewrite last_last in H.
Qed.

Lemma prev_spec A x B (Q : ptr -> memory -> Prop) : queue_at h s (A ++ x :: B) -> Q (List.last (s :: A) s) h -> wp (ngx_queue_prev x) h Q.
Proof. intros H. apply wp_prev. by apply queue_ends in H as [_ H]. Qed.

Lemma empty_spec l (Q : bool -> memory -> Prop) : queue_at h s l -> Q (bool_decide (l = [])) h -> wp (ngx_queue_empty s) h Q.
Proof.
  intros H HQ. apply wp_bind. eapply last_spec; [done|]. apply wp_ret.
  replace (bool_decide (s = List.last l s)) with (bool_decide (l = [])); [done|]. apply bool_decide_ext.
  destruct H as [H _]. apply NoDup_cons in H as [H _]. destruct (decide (l = [])) as [->|Hl]; [done|].
  split; [done|]. intros E. exfalso. apply H. rewrite E. destruct (exists_last Hl) as (l' & x & ->). rewrite last_last. set_solver.
Qed.

Lemma insert_after_spec A p B x : queue_at h s (A ++ B) -> p = List.last (s :: A) s -> is_Some (h !! x) -> x ∉ s :: A ++ B ->
  wp (ngx_queue_insert_after p x) h (fun _ h' => same_nodes h h' /\ queue_at h' s (A ++ x :: B)).
Proof.
  intros H -> Hx Hnx. pose proof (queue_ends _ _ H) as [H1 H2].
  assert (x <> List.last (s :: A) s) as Hxp.
  { intros ->. apply Hnx. destruct (exists_last (l := s :: A) ltac:(done)) as (A' & p & E).
    change (s :: A ++ B) with ((s :: A) ++ B). rewrite E, last_last. set_solver. }
  assert (x <> hd s B) as Hxn by (intros ->; apply Hnx; destruct B; set_solver).
  eapply wp_mono; [eapply (insert_after_links _ (hd s B)); eauto using pv_some|]. intros _ h' (Hs & Hn & Hp). split; [done|].
  destruct H as [Hd H]. split.
  { change (s :: A ++ x :: B) with ((s :: A) ++ x :: B). rewrite <- Permutation_middle. by constructor. }
  destruct (ring_remove s A x B) as (A' & p & n & B' & E & E' & Er & Er' & Ep & En). rewrite <- Ep, <- En in *. rewrite Er.
  rewrite Er' in H. eapply (chain_insert h); try done; rewrite <- Er', ?src_ring, ?tgt_ring; [done|by apply nodup_tgt|done|].
  rewrite <- Permutation_cons_append. done.
Qed.

Lemma insert_head_spec l x : queue_at h s l -> is_Some (h !! x) -> x ∉ s :: l ->
  wp (ngx_queue_insert_head s x) h (fun _ h' => same_nodes h h' /\ queue_at h' s (x :: l)).
Proof. intros. by apply (insert_after_spec [] s l). Qed.

Lemma insert_tail_spec l x : queue_at h s l -> is_Some (h !! x) -> x ∉ s :: l ->
  wp (ngx_queue_insert_tail s x) h (fun _ h' => same_nodes h h' /\ queue_at h' s (l ++ [x])).
Proof.
  intros H Hx Hnx. rewrite <- (right_id_L [] (++) l) in H. pose proof (queue_ends _ _ H) as [H1 H2]. cbn [hd] in *.
  assert (x <> List.last (s :: l) s) as Hxp.
  { intros ->. apply Hnx. destruct (exists_last (l := s :: l) ltac:(done)) as (A' & p & E). rewrite E, last_last. set_solver. }
  assert (x <> s) as Hxn by set_solver.
  eapply wp_mono; [eapply (insert_before_links _ (List.last (s :: l) s)); eauto using nx_some|]. intros _ h' (Hs & Hn & Hp). split; [done|].
  destruct H as [Hd H]. rewrite (right_id_L [] (++)) in Hd, H. split.
  { change (s :: l ++ [x]) with ((s :: l) ++ [x]). rewrite <- Permutation_cons_append. by constructor. }
  destruct (ring_remove s l x []) as (A' & p & n & B' & E & E' & Er & Er' & Ep & En). cbn [hd] in En. rewrite <- Ep, <- En in *. rewrite Er.
  rewrite (right_id_L [] (++)) in Er'. rewrite Er' in H.
  eapply (chain_insert h); try done; rewrite <- Er', ?src_ring, ?tgt_ring; [done|by apply nodup_tgt|done|].
  rewrite <- Permutation_cons_append. done.
Qed.

Lemma remove_spec debug A x B : queue_at h s (A ++ x :: B) ->
  wp (ngx_queue_remove debug x) h (fun _ h' => same_nodes h h' /\ queue_at h' s (A ++ B)).
Proof.
  intros H. pose proof (queue_ends _ _ H) as [H1 H2]. cbn [hd] in *.
  assert (nx h x (hd s B) /\ pv h (hd s B) x) as [H3 H4].
  { change (x :: B) with ([x] ++ B) in H. rewrite (assoc_L (++)) in H. apply queue_ends in H.
    change (s :: A ++ [x]) with ((s :: A) ++ [x]) in H. by rewrite last_last in H. }
  destruct H as [Hd H]. assert (NoDup ((s :: A) ++ x :: B)) as Hd' by exact Hd. rewrite <- Permutation_middle in Hd'.
  apply NoDup_cons in Hd' as [Hx Hd'].
  assert (x <> List.last (s :: A) s) as Hxp.
  { intros ->. apply Hx. destruct (exists_last (l := s :: A) ltac:(done)) as (A' & p & E). rewrite E, last_last. set_solver. }
  assert (x <> hd s B) as Hxn by (intros ->; apply Hx; destruct B; set_solver).
  eapply wp_mono; [eapply (remove_links debug); eauto using nx_some, pv_some|]. intros _ h' (Hs & Hn & Hp). split; [done|]. split; [done|].
  destruct (ring_remove s A x B) as (A' & p & n & B' & E & E' & Er & Er' & Ep & En). rewrite <- Ep, <- En in *. rewrite Er'.
  rewrite Er in H. eapply (chain_remove h); try done; rewrite <- Er, ?src_ring, ?tgt_ring; [done|by apply nodup_tgt].
Qed.

Lemma split_links q n z p : pv h s z -> pv h q p -> is_Some (h !! z) -> is_Some (h !! p) -> is_Some (h !! n) ->
  n <> s -> n <> q -> n <> p -> n <> z -> s <> q -> p <> z ->
  wp (ngx_queue_split s q n) h (fun _ h' => same_nodes h h' /\
    (forall a b, nx h' a b <-> (if decide (a = p) then b = s else if decide (a = n) then b = q
                                else if decide (a = z) then b = n else nx h a b)) /\
    (forall a b, pv h' a b <-> (if decide (a = q) then b = n else if decide (a = s) then b = p
                                else if decide (a = n) then b = z else pv h a b))).
Proof.
  intros. unfold ngx_queue_split. repeat wp_link. split_and!.
  - intros a. by somes.
  - by all_links.
  - by all_links.
Qed.

Lemma last_in (x : ptr) (l : list ptr) : List.last (x :: l) x ∈ x :: l.
Proof. destruct (exists_last (l := x :: l) ltac:(done)) as (l' & y & E). rewrite E, last_last. set_solver. Qed.

(** A chain with a last edge. *)
Lemma chain_snoc g (a b : ptr) l : chain g (a :: l) -> nx g (List.last (a :: l) a) b -> pv g b (List.last (a :: l) a) ->
  chain g (a :: l ++ [b]).
Proof.
  intros H. destruct (exists_last (l := a :: l) ltac:(done)) as (l' & y & E). change (a :: l ++ [b]) with ((a :: l) ++ [b]).
  rewrite E in *. rewrite last_last, <- (assoc_L (++)). intros H1 H2. apply chain_app. split; [done|]. by cbn.
Qed.

Lemma chain_prefix g (a : ptr) l m : chain g (a :: l ++ m) -> chain g (a :: l).
Proof.
  intros H. destruct (exists_last (l := a :: l) ltac:(done)) as (l' & y & E). change (a :: l ++ m) with ((a :: l) ++ m) in H.
  rewrite E in *. rewrite <- (assoc_L (++)) in H. by apply chain_app in H as [H _].
Qed.

Lemma src_last (a : ptr) l : NoDup (a :: l) -> forall x, x ∈ src (a :: l) -> x ∈ a :: l /\ x <> List.last (a :: l) a.
Proof.
  intros Hd x. destruct (exists_last (l := a :: l) ltac:(done)) as (l' & y & E). rewrite E in *. rewrite src_app, last_last. cbn.
  apply NoDup_app in Hd as (_ & Hd & _). set_solver.
Qed.

Lemma split_spec A q B n : queue_at h s (A ++ q :: B) -> is_Some (h !! n) -> n ∉ s :: A ++ q :: B ->
  wp (ngx_queue_split s q n) h (fun _ h' => same_nodes h h' /\ queue_at h' s A /\ queue_at h' n (q :: B)).
Proof.
  intros H Hn Hnn. pose proof (queue_ends _ _ H) as [H1 H2]. cbn [hd] in *. pose proof H as [Hd HW].
  change (s :: A ++ q :: B) with ((s :: A) ++ q :: B) in Hd, Hnn. apply NoDup_app in Hd as (HdA & HdAB & HdB).
  assert (pv h s (List.last (q :: B) q)) as H3.
  { rewrite <- (right_id_L [] (++) (A ++ q :: B)) in H. apply queue_ends in H as [_ H]. cbn [hd] in H.
    destruct (exists_last (l := q :: B) ltac:(done)) as (B' & z & E). rewrite E in *.
    change (s :: A ++ B' ++ [z]) with ((s :: A) ++ B' ++ [z]) in H. rewrite (assoc_L (++)) in H. by rewrite !last_last in *. }
  pose proof (last_in s A) as Hp. pose proof (last_in q B) as Hz. set (p := List.last (s :: A) s) in *. set (z := List.last (q :: B) q) in *.
  rewrite not_elem_of_app in Hnn. destruct Hnn as [HnA HnB].
  assert (p <> z) as Npz by (intros E; apply (HdAB p Hp); by rewrite E).
  eapply wp_mono.
  - eapply (split_links q n z p); try done.
    + eapply (queue_alloc h s); [exact H|]. change (s :: A ++ q :: B) with ((s :: A) ++ q :: B). apply elem_of_app. by right.
    + eapply (queue_alloc h s); [exact H|]. change (s :: A ++ q :: B) with ((s :: A) ++ q :: B). apply elem_of_app. by left.
    + set_solver.
    + set_solver.
    + set_solver.
    + set_solver.
    + set_solver.
  - intros _ h' (Hs & Hnx & Hpv). split; [done|].
    assert (s <> q /\ n <> q /\ n <> s /\ p <> n /\ z <> n) as (N1 & N2 & N3 & N4 & N5) by set_solver.
    apply NoDup_cons in HdA as HdA'. apply NoDup_cons in HdB as HdB'. split.
    + split; [done|]. apply chain_snoc.
      * eapply chain_keep; [| |eapply chain_prefix; unfold ring in HW; rewrite <- (assoc_L (++)) in HW; exact HW].
        -- intros a b [Ha Ha']%src_last; [|done]. fold p in Ha'. rewrite Hnx, !decide_False; [done|set_solver..].
        -- intros a b Ha. cbn [tgt tail] in Ha. rewrite Hpv, !decide_False; [done|set_solver..].
      * fold p. rewrite Hnx. by rewrite decide_True.
      * fold p. rewrite Hpv. rewrite decide_False by done. by rewrite decide_True.
    + split; [by constructor|]. change (chain h' (n :: q :: B ++ [n])). split; [|split].
      * rewrite Hnx. rewrite decide_False by done. by rewrite decide_True.
      * rewrite Hpv. by rewrite decide_True.
      * apply chain_snoc.
        -- eapply chain_keep; [| |eapply chain_prefix; unfold ring in HW; rewrite <- (assoc_L (++)) in HW;
             change (s :: A ++ (q :: B) ++ [s]) with ((s :: A) ++ q :: (B ++ [s])) in HW; by apply chain_app in HW as [_ HW]].
           ++ intros a b [Ha Ha']%src_last; [|done]. fold z in Ha'. rewrite Hnx, !decide_False; [done|set_solver..].
           ++ intros a b Ha. cbn [tgt tail] in Ha. rewrite Hpv, !decide_False; [done|set_solver..].
        -- fold z. rewrite Hnx. rewrite decide_False by done. rewrite decide_False by done. by rewrite decide_True.
        -- fold z. rewrite Hpv. rewrite decide_False by done. rewrite decide_False by done. by rewrite decide_True.
Qed.

Lemma add_links n p x z : pv h s p -> nx h n x -> pv h n z -> is_Some (h !! p) -> is_Some (h !! x) -> is_Some (h !! z) ->
  s <> n -> s <> x -> n <> p -> (x = n <-> z = n) -> p <> z ->
  let z' := if decide (x = n) then p else z in
  wp (ngx_queue_add s n) h (fun _ h' => same_nodes h h' /\
    (forall a b, nx h' a b <-> (if decide (a = z') then b = s else if decide (a = p) then b = x else nx h a b)) /\
    (forall a b, pv h' a b <-> (if decide (a = s) then b = z' else if decide (a = x) then b = p else pv h a b))).
Proof.
  intros Hp Hx Hz Ap Ax Az N1 N2 N3 E N5 z'. unfold ngx_queue_add, z'. destruct (decide (x = n)) as [->|Exn].
  - assert (z = n) as -> by tauto. repeat wp_link. split_and!; [intros a; by somes| |]; by all_links.
  - assert (z <> n) by tauto. assert (n <> x) by done. repeat wp_link. split_and!; [intros a; by somes| |]; by all_links.
Qed.

Lemma add_spec A n B : queue_at h s A -> queue_at h n B -> (forall a, a ∈ s :: A -> a ∉ n :: B) ->
  wp (ngx_queue_add s n) h (fun _ h' => same_nodes h h' /\ queue_at h' s (A ++ B)).
Proof.
  intros HA HB Hdis. pose proof HA as [HdA HWA]. pose proof HB as [HdB HWB].
  assert (pv h s (List.last (s :: A) s)) as H1 by (rewrite <- (right_id_L [] (++) A) in HA; by apply queue_ends in HA as [_ ?]).
  assert (nx h n (hd n B) /\ pv h n (List.last (n :: B) n)) as [H2 H3].
  { destruct HB as [_ HB]. pose proof (ring_after n [] B) as (A1 & p1 & n1 & B1 & E1 & _ & Er & Ep & En). cbn [app] in Er. cbn [List.last] in Ep.
    rewrite Er in HB. apply chain_app in HB as (_ & Hx & _). rewrite <- En. split; [by rewrite <- Ep|]. clear -HWB.
    destruct (ring_after n B []) as (A1 & p1 & n1 & B1 & _ & _ & Er & Ep & En). rewrite (right_id_L [] (++)) in Er. cbn [hd] in En.
    rewrite Er in HWB. apply chain_app in HWB as (_ & _ & Hp & _). rewrite <- Ep. by rewrite En in Hp. }
  pose proof (last_in s A) as Hp. pose proof (last_in n B) as Hz. set (p := List.last (s :: A) s) in *. set (z := List.last (n :: B) n) in *.
  assert (hd n B ∈ n :: B) as Hx by (destruct B; set_solver).
  assert (p ∉ n :: B) as Npn by (by apply Hdis). assert (s ∉ n :: B) as Nsn by (apply Hdis; set_solver).
  assert (hd n B = n <-> B = []) as Ex.
  { split; [|by intros ->]. destruct B as [|b B]; [done|]. cbn. intros ->. apply NoDup_cons in HdB as [HdB _]. set_solver. }
  assert (z = n <-> B = []) as Ez.
  { split; [|by intros ->]. destruct B as [|b B]; [done|]. intros E. exfalso. apply NoDup_cons in HdB as [HdB _]. apply HdB.
    unfold z in E. destruct (exists_last (l := b :: B) ltac:(done)) as (l' & y & El). rewrite El in *.
    change (n :: l' ++ [y]) with ((n :: l') ++ [y]) in E. rewrite last_last in E. subst. set_solver. }
  eapply wp_mono; [eapply (add_links n p (hd n B) z); try done|].
  - by eapply (queue_alloc h s).
  - by eapply (queue_alloc h n).
  - by eapply (queue_alloc h n).
  - intros ->. apply Nsn. left.
  - intros E. apply Nsn. by rewrite E.
  - intros E. apply Npn. rewrite <- E. left.
  - by rewrite Ex, Ez.
  - intros E. apply Npn. by rewrite E.
  - intros _ h' (Hs & Hnx & Hpv). split; [done|]. split.
    { change (s :: A ++ B) with ((s :: A) ++ B). apply NoDup_app. split_and!; [done| |by apply NoDup_cons in HdB as [_ ?]]. set_solver. }
    destruct (decide (hd n B = n)) as [E|E].
    + apply Ex in E. subst B. rewrite (right_id_L [] (++)). cbn [hd] in *. apply chain_snoc.
      * eapply chain_keep; [| |eapply chain_prefix; exact HWA].
        -- intros a b [Ha Ha']%src_last; [|done]. fold p in Ha'. rewrite Hnx, !decide_False; done.
        -- apply NoDup_cons in HdA as [HdA _]. intros a b Ha. cbn [tgt tail] in Ha. rewrite Hpv, !decide_False; [done|set_solver..].
      * fold p. rewrite Hnx. by rewrite decide_True.
      * fold p. rewrite Hpv. by rewrite decide_True.
    + destruct B as [|b B]; [done|]. cbn [hd] in *. assert (p <> z) as Npz by (intros Epz; apply Npn; by rewrite Epz).
      assert (s <> b /\ s <> z) as [Nsb Nsz] by set_solver.
      apply NoDup_cons in HdA as HdA'. apply NoDup_cons in HdB as [HdB1 HdB2]. pose proof HdB2 as HdB3. apply NoDup_cons in HdB3 as [HdB3 _].
      assert (z = List.last (b :: B) b) as Ezl.
      { unfold z. destruct (exists_last (l := b :: B) ltac:(done)) as (l' & y & El). rewrite El.
        change (n :: l' ++ [y]) with ((n :: l') ++ [y]). by rewrite !last_last. }
      unfold ring. change (s :: (A ++ b :: B) ++ [s]) with (((s :: A) ++ b :: B) ++ [s]). rewrite <- (assoc_L (++)). cbn [app].
      change (s :: A ++ b :: B ++ [s]) with ((s :: A) ++ b :: B ++ [s]). apply chain_app. split.
      * apply chain_snoc.
        -- eapply chain_keep; [| |eapply chain_prefix; exact HWA].
           ++ intros a c [Ha Ha']%src_last; [|done]. fold p in Ha'. rewrite Hnx, !decide_False; [done..|]. intros ->. by apply (Hdis z Ha).
           ++ intros a c Ha. cbn [tgt tail] in Ha. rewrite Hpv, !decide_False; [done| |]; [|set_solver].
              intros ->. apply (Hdis b); [by right|set_solver].
        -- fold p. rewrite Hnx. rewrite decide_False by done. by rewrite decide_True.
        -- fold p. rewrite Hpv. rewrite decide_False by done. by rewrite decide_True.
      * change (chain h' (b :: B ++ [s])). apply chain_snoc.
        -- eapply chain_keep; [| |eapply chain_prefix; unfold ring in HWB; cbn [app] in HWB; destruct HWB as (_ & _ & HWB); exact HWB].
           ++ intros a c [Ha Ha']%src_last; [|done]. rewrite <- Ezl in Ha'. rewrite Hnx, !decide_False; [done| |done]. intros ->. set_solver.
           ++ intros a c Ha. cbn [tgt tail] in Ha. rewrite Hpv, !decide_False; [done|set_solver|set_solver].
        -- rewrite <- Ezl. rewrite Hnx. by rewrite decide_True.
        -- rewrite <- Ezl. rewrite Hpv. by rewrite decide_True.
Qed.

(** ** The middle *)

Lemma middle_loop_spec f l i j m n : queue_at h s l -> l !! i = Some m -> l !! j = Some n ->
  (j + 1 < length l)%nat -> (i <= j)%nat -> (length l <= j + 2 * f)%nat ->
  wp (middle_loop f s m n) h (fun r h' => h' = h /\ l !! (i + (length l - j) / 2)%nat = Some r).
Proof.
  intros H. revert i j m n. induction f as [|f IH]; intros i j m n Hi Hj Hl Hij Hf; [lia|]. cbn [middle_loop].
  assert (forall i x, l !! i = Some x -> l = take i l ++ x :: drop (S i) l) as Hcut by (intros; by rewrite take_drop_middle).
  assert (forall i x (Q : ptr -> memory -> Prop), l !! i = Some x -> (forall y, l !! (S i) = Some y -> Q y h) -> (S i < length l)%nat ->
    wp (ngx_queue_next x) h Q) as Hnext.
  { intros k x Q Hk HQ Hlen. eapply (next_spec (take k l) x (drop (S k) l)); [by rewrite take_drop_middle|]. apply HQ.
    destruct (lookup_lt_is_Some_2 l (S k) Hlen) as [y Hy]. rewrite (drop_S _ y) by done. done. }
  assert (exists z, List.last l s = z /\ l !! (length l - 1)%nat = Some z) as (z & Hz & Hlast).
  { destruct (exists_last (l := l)) as (l' & z & ->); [intros ->; cbn in Hl; lia|]. exists z. rewrite last_last, length_app. split; [done|].
    cbn. rewrite lookup_app_r by lia. by replace (length l' + 1 - 1 - length l')%nat with 0%nat by lia. }
  assert (forall k y, l !! k = Some y -> (y = z <-> k = (length l - 1)%nat)) as Hend.
  { destruct H as [H _]. apply NoDup_cons in H as [_ H]. intros k y Hk. split; [intros ->; by eapply NoDup_lookup|].
    intros ->. congruence. }
  apply wp_bind, (Hnext i); [done| |lia]. intros m' Hm'. apply wp_bind, (Hnext j); [done| |lia]. intros n' Hn'.
  apply wp_bind. eapply last_spec; [done|]. rewrite Hz. specialize (Hend _ _ Hn') as E1.
  destruct (decide (n' = z)) as [En|En].
  { apply wp_ret. split; [done|]. rewrite E1 in En. replace ((length l - j) / 2)%nat with 1%nat; [by rewrite Nat.add_1_r|].
    replace (length l - j)%nat with 2%nat by lia. done. }
  assert (S j <> length l - 1)%nat by tauto. apply wp_bind, (Hnext (S j)); [done| |lia]. intros n2 Hn2.
  apply wp_bind. eapply last_spec; [done|]. rewrite Hz. specialize (Hend _ _ Hn2) as E2.
  destruct (decide (n2 = z)) as [En2|En2].
  { apply wp_ret. split; [done|]. rewrite E2 in En2. replace ((length l - j) / 2)%nat with 1%nat; [by rewrite Nat.add_1_r|].
    replace (length l - j)%nat with 3%nat by lia. done. }
  assert (S (S j) <> length l - 1)%nat by tauto. assert (S (S j) < length l)%nat by (by eapply lookup_lt_Some).
  eapply wp_mono; [apply (IH (S i) (S (S j)) m' n2); [done|done|lia|lia|lia]|]. intros r h' [-> Hr]. split; [done|].
  rewrite <- Hr. f_equal. replace (length l - j)%nat with (length l - S (S j) + 1 * 2)%nat by lia.
  rewrite Nat.div_add by lia. lia.
Qed.

Lemma queue_size l : queue_at h s l -> (length l < size h)%nat.
Proof.
  intros H. pose proof (nodup_length_dom h (s :: l)) as Hs. cbn [length] in Hs. apply Nat.lt_le_trans with (S (length l)); [lia|].
  apply Hs; [apply H|]. intros a Ha. by eapply queue_alloc.
Qed.

Lemma middle_spec l : queue_at h s l ->
  wp (ngx_queue_middle s) h (fun r h' => h' = h /\ r = default s (l !! (length l / 2)%nat)).
Proof.
  intros H. pose proof (queue_size _ H) as Hsize. unfold ngx_queue_middle. apply wp_bind. eapply head_spec; [done|].
  apply wp_bind. eapply last_spec; [done|]. destruct l as [|x [|y l]]; [rewrite decide_True by done; by apply wp_ret|rewrite decide_True by done; by apply wp_ret|].
  pose proof H as [Hd _]. cbn [hd]. rewrite decide_False.
  2:{ apply NoDup_cons in Hd as [_ [Hd _]%NoDup_cons]. change (List.last (x :: y :: l) s) with (List.last (y :: l) s).
      destruct (exists_last (l := y :: l) ltac:(done)) as (l' & z & E). rewrite E in *. rewrite last_last. set_solver. }
  apply wp_bind. eapply head_spec; [done|]. apply wp_bind, wp_gets. cbn [hd].
  eapply wp_mono; [apply (middle_loop_spec _ (x :: y :: l) 0 0); [done|done|done|cbn; lia|lia|cbn in *; lia]|].
  intros r h' [-> Hr]. split; [done|]. rewrite Nat.sub_0_r in Hr. cbn [Nat.add] in Hr. by rewrite Hr.
Qed.

End Specs.

(** ** Sorting *)

Lemma insert_back_split {B} (cmp : B -> B -> Z) q S1 S2 : Forall (fun p => 0 < cmp p q) S1 ->
  (forall p S, S2 = p :: S -> cmp p q <= 0) -> insert_back cmp q (S1 ++ S2) = S1 ++ q :: S2.
Proof.
  induction 1 as [|p S1 Hp HS IH]; intros H2; cbn.
  - destruct S2 as [|p S]; cbn; [done|]. specialize (H2 p S eq_refl). by replace (cmp p q <=? 0) with true by lia.
  - replace (cmp p q <=? 0) with false by lia. by rewrite IH.
Qed.

Section SortSpec.
Variables (debug : bool) (cmp : ptr -> ptr -> Z) (s : ptr).

Lemma last_reverse (S : list ptr) : List.last (s :: reverse S) s = hd s S.
Proof.
  destruct S as [|x S]; [done|]. rewrite reverse_cons. change (s :: reverse S ++ [x]) with ((s :: reverse S) ++ [x]).
  by rewrite last_last.
Qed.

Lemma back_loop_spec f h q S1 p S2 R : queue_at h s (reverse (S1 ++ p :: S2) ++ R) -> Forall (fun p => 0 < cmp p q) S1 ->
  (length S2 < f)%nat ->
  wp (back_loop cmp f s p q) h (fun r h' => h' = h /\ exists T1 T2, S1 ++ p :: S2 = T1 ++ T2 /\ r = hd s T2 /\
    Forall (fun p => 0 < cmp p q) T1 /\ forall x S, T2 = x :: S -> cmp x q <= 0).
Proof.
  intros H. revert S1 p S2 H. induction f as [|f IH]; intros S1 p S2 H H1 Hf; [lia|]. cbn [back_loop].
  destruct (cmp p q <=? 0) eqn:E.
  - apply wp_ret. split; [done|]. exists S1, (p :: S2). split_and!; [done..|]. intros x S Hx. simplify_eq. lia.
  - apply wp_bind. assert (queue_at h s (reverse S2 ++ p :: (reverse S1 ++ R))) as H'.
    { rewrite reverse_app, reverse_cons, <- !(assoc_L (++)) in H. exact H. }
    eapply prev_spec; [exact H'|]. rewrite last_reverse. assert (Forall (fun p => 0 < cmp p q) (S1 ++ [p])) as H2.
    { apply Forall_app. split; [done|]. constructor; [lia|done]. }
    destruct S2 as [|p' S2]; cbn [hd].
    + rewrite decide_True by done. apply wp_ret. split; [done|]. exists (S1 ++ [p]), []. split_and!; [by rewrite (right_id_L [] (++))|done..].
    + rewrite decide_False.
      2:{ intros ->. destruct H' as [Hd _]. apply NoDup_cons in Hd as [Hd _]. apply Hd. rewrite reverse_cons. set_solver. }
      eapply wp_mono; [apply (IH (S1 ++ [p]) p' S2); [by rewrite <- (assoc_L (++))|done|cbn in Hf; lia]|].
      intros r h' (-> & T1 & T2 & ET & HT). split; [done|]. exists T1, T2. split; [|done]. by rewrite <- ET, <- (assoc_L (++)).
Qed.

Lemma sort_loop_spec f h S R : queue_at h s (reverse S ++ R) -> S <> [] -> (length R < f)%nat ->
  wp (sort_loop debug cmp f s (hd s R)) h (fun _ h' => same_nodes h h' /\
    queue_at h' s (reverse (fold_left (fun s q => insert_back cmp q s) R S))).
Proof.
  revert h S R. induction f as [|f IH]; intros h S R H HS Hf; [lia|]. cbn [sort_loop]. destruct R as [|q R]; cbn [hd].
  { rewrite decide_True by done. apply wp_skip. split; [done|]. by rewrite (right_id_L [] (++)) in H. }
  assert (NoDup (s :: q :: reverse S ++ R)) as Hd.
  { destruct H as [H _]. rewrite (Permutation_middle _ _ q). exact H. }
  apply NoDup_cons in Hd as [Hs Hd]. apply NoDup_cons in Hd as [Hq Hd]. rewrite decide_False by set_solver.
  apply wp_bind. eapply prev_spec; [exact H|]. rewrite last_reverse. apply wp_bind. eapply next_spec; [exact H|].
  apply wp_bind. eapply wp_mono; [eapply remove_spec; exact H|]. intros _ h1 [Hs1 H1]. apply wp_bind, wp_gets.
  destruct S as [|p S]; [done|]. cbn [hd]. apply wp_bind. eapply wp_mono.
  { eapply (back_loop_spec _ _ q [] p S R); [exact H1|constructor|]. pose proof (queue_size _ _ _ H1) as Hsz.
    rewrite length_app, length_reverse in Hsz. cbn [length] in Hsz. lia. }
  intros r h' (-> & T1 & T2 & ET & -> & HT1 & HT2). cbn [app] in ET. rewrite ET in *. rewrite reverse_app, <- (assoc_L (++)) in H1.
  apply wp_bind. eapply wp_mono.
  { eapply (insert_after_spec _ _ (reverse T2)); [exact H1|by rewrite last_reverse| |].
    - apply Hs1. eapply (queue_alloc _ s); [exact H|]. set_solver.
    - rewrite reverse_app in Hs, Hq. set_solver. }
  intros _ h2 [Hs2 H2]. eapply wp_mono.
  { apply (IH h2 (insert_back cmp q (T1 ++ T2)) R); [|by destruct T1, T2; cbn; try case_match|cbn in Hf; lia].
    rewrite insert_back_split by done. rewrite reverse_app, reverse_cons, <- !(assoc_L (++)). exact H2. }
  intros _ h3 [Hs3 H3]. split; [|exact H3]. intros a. rewrite (Hs3 a), (Hs2 a). apply Hs1.
Qed.

Lemma sort_spec h l : queue_at h s l ->
  wp (ngx_queue_sort debug cmp s) h (fun _ h' => same_nodes h h' /\ queue_at h' s (list_sort cmp l)).
Proof.
  intros H. pose proof (queue_size _ _ _ H) as Hsize. unfold ngx_queue_sort. apply wp_bind. eapply head_spec; [done|].
  apply wp_bind. eapply last_spec; [done|]. destruct l as [|x [|y l]]; [rewrite decide_True by done; by apply wp_skip|rewrite decide_True by done; by apply wp_skip|].
  pose proof H as [Hd _]. cbn [hd]. rewrite decide_False.
  2:{ apply NoDup_cons in Hd as [_ [Hd _]%NoDup_cons]. change (List.last (x :: y :: l) s) with (List.last (y :: l) s).
      destruct (exists_last (l := y :: l) ltac:(done)) as (l' & z & E). rewrite E in *. rewrite last_last. set_solver. }
  apply wp_bind. eapply (next_spec _ _ []); [done|]. apply wp_bind, wp_gets. apply (sort_loop_spec _ h [x]); [done|done|cbn in *; lia].
Qed.

End SortSpec.

(** ** Theorems *)

(** The operations on linked queues implement those on lists, without an
    access outside of their nodes: the ends and the neighbours of an element,
    insertion at both ends, removal, cutting a queue in two and joining two
    queues, the middle element, which is the first one of the second half for
    an even number, and the sort, which is a stable insertion sort and ends. *)
Theorem queue_refines debug cmp h s A x B n C :
  queue_at h s (A ++ x :: B) -> queue_at h n C -> (forall a, a ∈ s :: A ++ x :: B -> a ∉ n :: C) ->
  let l := A ++ x :: B in
  wp (ngx_queue_head s) h (fun r h' => h' = h /\ r = hd s l) /\
  wp (ngx_queue_last s) h (fun r h' => h' = h /\ r = List.last l s) /\
  wp (ngx_queue_next x) h (fun r h' => h' = h /\ r = hd s B) /\
  wp (ngx_queue_empty s) h (fun r h' => h' = h /\ r = false) /\
  wp (ngx_queue_remove debug x) h (fun _ h' => queue_at h' s (A ++ B) /\
    wp (ngx_queue_insert_head s x) h' (fun _ h2 => queue_at h2 s (x :: A ++ B)) /\
    wp (ngx_queue_insert_tail s x) h' (fun _ h2 => queue_at h2 s ((A ++ B) ++ [x]))) /\
  wp (ngx_queue_init n) h (fun _ h' => queue_at h' n []) /\
  (forall q, is_Some (h !! q) -> q ∉ s :: l -> wp (ngx_queue_split s x q) h (fun _ h' => queue_at h' s A /\ queue_at h' q (x :: B))) /\
  wp (ngx_queue_add s n) h (fun _ h' => queue_at h' s (l ++ C)) /\
  wp (ngx_queue_middle s) h (fun r h' => h' = h /\ l !! (length l / 2)%nat = Some r) /\
  wp (ngx_queue_sort debug cmp s) h (fun _ h' => queue_at h' s (list_sort cmp l)).
Proof.
  intros H HC Hdis l. split_and!.
  - by eapply head_spec.
  - by eapply last_spec.
  - by eapply next_spec.
  - eapply empty_spec; [done|]. split; [done|]. rewrite bool_decide_eq_false. by destruct A.
  - eapply wp_mono; [by eapply remove_spec|]. intros _ h' [Hs H']. split; [done|].
    assert (x ∉ s :: A ++ B) as Hx.
    { destruct H as [Hd _]. change (s :: A ++ x :: B) with ((s :: A) ++ x :: B) in Hd. rewrite <- Permutation_middle in Hd.
      by apply NoDup_cons in Hd as [? _]. }
    assert (is_Some (h' !! x)) as Hsx by (apply Hs; eapply (queue_alloc h s); [done|set_solver]).
    split; (eapply wp_mono; [first [by apply insert_head_spec|by apply insert_tail_spec]|]; by intros _ h2 [_ ?]).
  - eapply wp_mono; [apply queue_init_spec; eapply (queue_alloc h n); [done|left]|]. by intros _ h' [_ ?].
  - intros q Hq Hn. eapply wp_mono; [by eapply split_spec|]. by intros _ h' (_ & ? & ?).
  - eapply wp_mono; [by apply add_spec|]. by intros _ h' [_ ?].
  - eapply wp_mono; [by apply middle_spec|]. intros r h' [-> ->]. split; [done|]. fold l.
    destruct (lookup_lt_is_Some_2 l (length l / 2)) as [y Hy]; [|by rewrite Hy].
    apply Nat.div_lt; [|lia]. unfold l. rewrite length_app. cbn. lia.
  - eapply wp_mono; [by apply sort_spec|]. by intros _ h' [_ ?].
Qed.

(** A queue of three elements at 1, and an empty one at 5. *)
Definition sample : memory :=
  list_to_map [(1, mk_qnode 4 2); (2, mk_qnode 1 3); (3, mk_qnode 2 4); (4, mk_qnode 3 1); (5, mk_qnode 5 5)]%nat.

Lemma queue_refines_witness :
  wp (ngx_queue_sort true (fun a b => Z.of_nat b - Z.of_nat a) 1%nat) sample (fun _ h' => queue_at h' 1%nat [4%nat; 3%nat; 2%nat]).
Proof.
  apply (queue_refines true (fun a b => Z.of_nat b - Z.of_nat a) sample 1%nat [2%nat] 3%nat [4%nat] 5%nat []).
  - split; [repeat constructor; set_solver|]. cbn. repeat split.
  - split; [repeat constructor; set_solver|]. cbn. repeat split.
  - set_solver.
Defined.

End Queue.
