(* ===== verification/NgxCrc32.v ===== *)
(** * CRC32

    core/ngx_crc32.c and core/ngx_crc32.h: the checksum that hashes the keys
    of the shared memory zones, with the table of 16 entries for short strings
    and that of 256 entries for long ones and for pieces.  The reference is the
    shift register of the polynomial, one bit at a time. *)

From Stdlib Require Import String ZArith Lia ZifyBool.
From stdpp Require Import base option tactics list.
From S2P Require Import Prelude.

Local Open Scope Z_scope.

Module Crc32.

Definition ngx_crc32_table16 : list Z :=
  [0x00000000; 0x1db71064; 0x3b6e20c8; 0x26d930ac;
   0x76dc4190; 0x6b6b51f4; 0x4db26158; 0x5005713c;
   0xedb88320; 0xf00f9344; 0xd6d6a3e8; 0xcb61b38c;
   0x9b64c2b0; 0x86d3d2d4; 0xa00ae278; 0xbdbdf21c].

Definition ngx_crc32_table256 : list Z :=
  [0x00000000; 0x77073096; 0xee0e612c; 0x990951ba;
   0x076dc419; 0x706af48f; 0xe963a535; 0x9e6495a3;
   0x0edb8832; 0x79dcb8a4; 0xe0d5e91e; 0x97d2d988;
   0x09b64c2b; 0x7eb17cbd; 0xe7b82d07; 0x90bf1d91;
   0x1db71064; 0x6ab020f2; 0xf3b97148; 0x84be41de;
   0x1adad47d; 0x6ddde4eb; 0xf4d4b551; 0x83d385c7;
   0x136c9856; 0x646ba8c0; 0xfd62f97a; 0x8a65c9ec;
   0x14015c4f; 0x63066cd9; 0xfa0f3d63; 0x8d080df5;
   0x3b6e20c8; 0x4c69105e; 0xd56041e4; 0xa2677172;
   0x3c03e4d1; 0x4b04d447; 0xd20d85fd; 0xa50ab56b;
   0x35b5a8fa; 0x42b2986c; 0xdbbbc9d6; 0xacbcf940;
   0x32d86ce3; 0x45df5c75; 0xdcd60dcf; 0xabd13d59;
   0x26d930ac; 0x51de003a; 0xc8d75180; 0xbfd06116;
   0x21b4f4b5; 0x56b3c423; 0xcfba9599; 0xb8bda50f;
   0x2802b89e; 0x5f058808; 0xc60cd9b2; 0xb10be924;
   0x2f6f7c87; 0x58684c11; 0xc1611dab; 0xb6662d3d;
   0x76dc4190; 0x01db7106; 0x98d220bc; 0xefd5102a;
   0x71b18589; 0x06b6b51f; 0x9fbfe4a5; 0xe8b8d433;
   0x7807c9a2; 0x0f00f934; 0x9609a88e; 0xe10e9818;
   0x7f6a0dbb; 0x086d3d2d; 0x91646c97; 0xe6635c01;
   0x6b6b51f4; 0x1c6c6162; 0x856530d8; 0xf262004e;
   0x6c0695ed; 0x1b01a57b; 0x8208f4c1; 0xf50fc457;
   0x65b0d9c6; 0x12b7e950; 0x8bbeb8ea; 0xfcb9887c;
   0x62dd1ddf; 0x15da2d49; 0x8cd37cf3; 0xfbd44c65;
   0x4db26158; 0x3ab551ce; 0xa3bc0074; 0xd4bb30e2;
   0x4adfa541; 0x3dd895d7; 0xa4d1c46d; 0xd3d6f4fb;
   0x4369e96a; 0x346ed9fc; 0xad678846; 0xda60b8d0;
   0x44042d73; 0x33031de5; 0xaa0a4c5f; 0xdd0d7cc9;
   0x5005713c; 0x270241aa; 0xbe0b1010; 0xc90c2086;
   0x5768b525; 0x206f85b3; 0xb966d409; 0xce61e49f;
   0x5edef90e; 0x29d9c998; 0xb0d09822; 0xc7d7a8b4;
   0x59b33d17; 0x2eb40d81; 0xb7bd5c3b; 0xc0ba6cad;
   0xedb88320; 0x9abfb3b6; 0x03b6e20c; 0x74b1d29a;
   0xead54739; 0x9dd277af; 0x04db2615; 0x73dc1683;
   0xe3630b12; 0x94643b84; 0x0d6d6a3e; 0x7a6a5aa8;
   0xe40ecf0b; 0x9309ff9d; 0x0a00ae27; 0x7d079eb1;
   0xf00f9344; 0x8708a3d2; 0x1e01f268; 0x6906c2fe;
   0xf762575d; 0x806567cb; 0x196c3671; 0x6e6b06e7;
   0xfed41b76; 0x89d32be0; 0x10da7a5a; 0x67dd4acc;
   0xf9b9df6f; 0x8ebeeff9; 0x17b7be43; 0x60b08ed5;
   0xd6d6a3e8; 0xa1d1937e; 0x38d8c2c4; 0x4fdff252;
   0xd1bb67f1; 0xa6bc5767; 0x3fb506dd; 0x48b2364b;
   0xd80d2bda; 0xaf0a1b4c; 0x36034af6; 0x41047a60;
   0xdf60efc3; 0xa867df55; 0x316e8eef; 0x4669be79;
   0xcb61b38c; 0xbc66831a; 0x256fd2a0; 0x5268e236;
   0xcc0c7795; 0xbb0b4703; 0x220216b9; 0x5505262f;
   0xc5ba3bbe; 0xb2bd0b28; 0x2bb45a92; 0x5cb36a04;
   0xc2d7ffa7; 0xb5d0cf31; 0x2cd99e8b; 0x5bdeae1d;
   0x9b64c2b0; 0xec63f226; 0x756aa39c; 0x026d930a;
   0x9c0906a9; 0xeb0e363f; 0x72076785; 0x05005713;
   0x95bf4a82; 0xe2b87a14; 0x7bb12bae; 0x0cb61b38;
   0x92d28e9b; 0xe5d5be0d; 0x7cdcefb7; 0x0bdbdf21;
   0x86d3d2d4; 0xf1d4e242; 0x68ddb3f8; 0x1fda836e;
   0x81be16cd; 0xf6b9265b; 0x6fb077e1; 0x18b74777;
   0x88085ae6; 0xff0f6a70; 0x66063bca; 0x11010b5c;
   0x8f659eff; 0xf862ae69; 0x616bffd3; 0x166ccf45;
   0xa00ae278; 0xd70dd2ee; 0x4e048354; 0x3903b3c2;
   0xa7672661; 0xd06016f7; 0x4969474d; 0x3e6e77db;
   0xaed16a4a; 0xd9d65adc; 0x40df0b66; 0x37d83bf0;
   0xa9bcae53; 0xdebb9ec5; 0x47b2cf7f; 0x30b5ffe9;
   0xbdbdf21c; 0xcabac28a; 0x53b39330; 0x24b4a3a6;
   0xbad03605; 0xcdd70693; 0x54de5729; 0x23d967bf;
   0xb3667a2e; 0xc4614ab8; 0x5d681b02; 0x2a6f2b94;
   0xb40bbe37; 0xc30c8ea1; 0x5a05df1b; 0x2d02ef8d].

(** One byte of the loops. *)
Definition short_step (crc c : Z) : Z :=
  let crc := Z.lxor (nth (Z.to_nat (Z.land (Z.lxor crc (Z.land c 0xf)) 0xf)) ngx_crc32_table16 0) (Z.shiftr crc 4) in
  Z.lxor (nth (Z.to_nat (Z.land (Z.lxor crc (Z.shiftr c 4)) 0xf)) ngx_crc32_table16 0) (Z.shiftr crc 4).

Definition long_step (crc c : Z) : Z :=
  Z.lxor (nth (Z.to_nat (Z.land (Z.lxor crc c) 0xff)) ngx_crc32_table256 0) (Z.shiftr crc 8).

Definition ngx_crc32_short (p : list Z) : Z := Z.lxor (fold_left short_step p 0xffffffff) 0xffffffff.

Definition ngx_crc32_long (p : list Z) : Z := Z.lxor (fold_left long_step p 0xffffffff) 0xffffffff.

Definition ngx_crc32_init : Z := 0xffffffff.
Definition ngx_crc32_update (crc : Z) (p : list Z) : Z := fold_left long_step p crc.
Definition ngx_crc32_final (crc : Z) : Z := Z.lxor crc 0xffffffff.

(** ** The shift register *)

(** The polynomial x^32 + x^26 + x^23 + x^22 + x^16 + x^12 + x^11 + x^10 +
    x^8 + x^7 + x^5 + x^4 + x^2 + x + 1, the coefficient of x^31 first. *)
Definition poly : Z := fold_left (fun p i => Z.lor p (Z.shiftl 1 (31 - i))) [26; 23; 22; 16; 12; 11; 10; 8; 7; 5; 4; 2; 1; 0] 0.

Definition shift (r : Z) : Z := if Z.odd r then Z.lxor (Z.shiftr r 1) poly else Z.shiftr r 1.

Fixpoint shifts (n : nat) (r : Z) : Z := match n with O => r | S n => shift (shifts n r) end.

Definition crc_bits (p : list Z) (r : Z) : Z := fold_left (fun r c => shifts 8 (Z.lxor r c)) p r.

Definition crc32 (p : list Z) : Z := Z.lxor (crc_bits p 0xffffffff) 0xffffffff.

Example crc32_check : crc32 (bs "123456789"%string) = 0xcbf43926.
Proof. reflexivity. Qed.

Ltac xor_bits := apply Z.bits_inj'; intros ? ?; rewrite ?Z.lxor_spec; repeat destruct (Z.testbit _ _); reflexivity.

Lemma odd_lxor a b : Z.odd (Z.lxor a b) = xorb (Z.odd a) (Z.odd b).
Proof. by rewrite <- !Z.bit0_odd, Z.lxor_spec. Qed.

Lemma shift_lxor a b : shift (Z.lxor a b) = Z.lxor (shift a) (shift b).
Proof. unfold shift. rewrite odd_lxor, Z.shiftr_lxor. destruct (Z.odd a), (Z.odd b); cbn [xorb]; xor_bits. Qed.

Lemma shifts_lxor n a b : shifts n (Z.lxor a b) = Z.lxor (shifts n a) (shifts n b).
Proof. induction n as [|n IH]; [done|]. cbn [shifts]. by rewrite IH, shift_lxor. Qed.

Lemma shifts_add n m r : shifts (n + m) r = shifts n (shifts m r).
Proof. induction n as [|n IH]; [done|]. cbn [shifts Nat.add]. by rewrite IH. Qed.

Lemma shift_double c : shift (2 * c) = c.
Proof.
  unfold shift. rewrite Z.odd_mul. cbn. rewrite Z.shiftr_div_pow2 by lia. change (2 ^ 1) with 2.
  rewrite Z.mul_comm. by rewrite Z.div_mul.
Qed.

Lemma shifts_high n c : shifts n (Z.shiftl c (Z.of_nat n)) = c.
Proof.
  induction n as [|n IH]; [cbn; apply Z.shiftl_0_r|]. replace (S n) with (n + 1)%nat at 1 by lia. rewrite shifts_add. cbn [shifts].
  replace (Z.shiftl c (Z.of_nat (S n))) with (2 * Z.shiftl c (Z.of_nat n)).
  - by rewrite shift_double.
  - rewrite !Z.shiftl_mul_pow2 by lia. rewrite Nat2Z.inj_succ, Z.pow_succ_r by lia. lia.
Qed.

(** The bits that are shifted out and those that only move. *)
Lemma shifts_split n a : 0 <= a ->
  shifts n a = Z.lxor (shifts n (Z.land a (Z.ones (Z.of_nat n)))) (Z.shiftr a (Z.of_nat n)).
Proof.
  intros Ha. 
  replace (Z.shiftr a (Z.of_nat n)) with (shifts n (Z.shiftl (Z.shiftr a (Z.of_nat n)) (Z.of_nat n))) by apply shifts_high.
  rewrite <- shifts_lxor. f_equal.
  apply Z.bits_inj'. intros k Hk. rewrite Z.lxor_spec, Z.land_spec, Z.shiftl_spec by lia.
  destruct (Z.ltb_spec k (Z.of_nat n)).
  - rewrite Z.ones_spec_low by lia. rewrite Z.testbit_neg_r with (n := k - _) by lia. by destruct (Z.testbit a k).
  - rewrite Z.ones_spec_high, Z.shiftr_spec by lia. replace (k - Z.of_nat n + Z.of_nat n) with k by lia. by destruct (Z.testbit a k).
Qed.

Lemma crc_table_entry n T : (Z.of_nat n < 32) -> forallb (fun i => nth i T 0 =? shifts n (Z.of_nat i)) (seq 0 (2 ^ n)) = true ->
  forall a, 0 <= a -> Z.lxor (nth (Z.to_nat (Z.land a (Z.ones (Z.of_nat n)))) T 0) (Z.shiftr a (Z.of_nat n)) = shifts n a.
Proof.
  intros Hn HT a Ha. rewrite (shifts_split n a Ha). f_equal. rewrite forallb_forall in HT.
  assert (0 <= Z.land a (Z.ones (Z.of_nat n)) < 2 ^ Z.of_nat n) as Hr by (rewrite Z.land_ones by lia; apply Z.mod_pos_bound; lia).
  specialize (HT (Z.to_nat (Z.land a (Z.ones (Z.of_nat n))))). rewrite Z2Nat.id in HT by lia. apply Z.eqb_eq, HT, in_seq.
  split; [lia|]. apply Nat2Z.inj_lt. rewrite Z2Nat.id, Nat2Z.inj_add, Nat2Z.inj_pow by lia. cbn [Z.of_nat]. lia.
Qed.

Lemma shiftr_lxor_small a b n : 0 <= b < 2 ^ n -> 0 <= n -> Z.shiftr (Z.lxor a b) n = Z.shiftr a n.
Proof.
  intros Hb Hn. rewrite Z.shiftr_lxor, (Z.shiftr_div_pow2 b) by lia. rewrite (Z.div_small b) by lia. apply Z.lxor_0_r.
Qed.

Lemma long_step_eq crc c : 0 <= crc -> is_byte c -> long_step crc c = shifts 8 (Z.lxor crc c).
Proof.
  intros Hr Hc. unfold long_step. rewrite <- (shiftr_lxor_small crc c 8) by (unfold is_byte in Hc; lia).
  apply (crc_table_entry 8 ngx_crc32_table256); [lia|vm_compute; reflexivity|]. apply Z.lxor_nonneg. unfold is_byte in Hc. lia.
Qed.

Lemma nibble_eq crc d : 0 <= crc -> 0 <= d < 16 ->
  Z.lxor (nth (Z.to_nat (Z.land (Z.lxor crc d) 0xf)) ngx_crc32_table16 0) (Z.shiftr crc 4) = shifts 4 (Z.lxor crc d).
Proof.
  intros Hr Hd. rewrite <- (shiftr_lxor_small crc d 4) by lia.
  apply (crc_table_entry 4 ngx_crc32_table16); [lia|vm_compute; reflexivity|]. apply Z.lxor_nonneg. lia.
Qed.

Lemma shift_nonneg r : 0 <= r -> 0 <= shift r.
Proof.
  intros Hr. unfold shift. pose proof (proj2 (Z.shiftr_nonneg r 1) Hr). destruct (Z.odd r); [|done]. apply Z.lxor_nonneg.
  assert (0 <= poly) by (vm_compute; discriminate). lia.
Qed.

Lemma shifts_nonneg n r : 0 <= r -> 0 <= shifts n r.
Proof. intros Hr. induction n as [|n IH]; [done|]. cbn [shifts]. by apply shift_nonneg. Qed.

Lemma short_step_eq crc c : 0 <= crc -> is_byte c -> short_step crc c = shifts 8 (Z.lxor crc c).
Proof.
  intros Hr Hc. unfold is_byte in Hc. unfold short_step.
  assert (0 <= Z.land c 15 < 16) as Hl by (change 15 with (Z.ones 4); rewrite Z.land_ones by lia; apply Z.mod_pos_bound; lia).
  assert (0 <= Z.shiftr c 4 < 16) as Hh by (rewrite Z.shiftr_div_pow2 by lia; change (2 ^ 4) with 16; div_lia).
  rewrite (nibble_eq crc) by lia. rewrite nibble_eq; [|apply shifts_nonneg, Z.lxor_nonneg; lia|done].
  replace (Z.lxor (shifts 4 (Z.lxor crc (Z.land c 15))) (Z.shiftr c 4))
    with (Z.lxor (shifts 4 (Z.lxor crc (Z.land c 15))) (shifts 4 (Z.shiftl (Z.shiftr c 4) (Z.of_nat 4)))) by (by rewrite shifts_high).
  rewrite <- shifts_lxor, <- shifts_add. cbn [Nat.add]. f_equal.
  rewrite Z.lxor_assoc. f_equal.
  apply Z.bits_inj'. intros k Hk. change (Z.of_nat 4) with 4. rewrite Z.lxor_spec, Z.land_spec, Z.shiftl_spec by lia.
  change 15 with (Z.ones 4). destruct (Z.ltb_spec k 4).
  - rewrite Z.ones_spec_low by lia. rewrite (Z.testbit_neg_r _ (k - 4)) by lia. by destruct (Z.testbit c k).
  - rewrite Z.ones_spec_high, Z.shiftr_spec by lia. replace (k - 4 + 4) with k by lia. by destruct (Z.testbit c k).
Qed.

Lemma crc_bits_nonneg p r : bytes p -> 0 <= r -> 0 <= crc_bits p r.
Proof.
  intros Hp. revert r. induction Hp as [|c p Hc Hp IH]; intros r Hr; [done|]. cbn [crc_bits fold_left]. apply IH, shifts_nonneg, Z.lxor_nonneg.
  unfold is_byte in Hc. lia.
Qed.

Lemma steps_eq f p r : (forall r c, 0 <= r -> is_byte c -> f r c = shifts 8 (Z.lxor r c)) -> bytes p -> 0 <= r ->
  fold_left f p r = crc_bits p r.
Proof.
  intros Hf Hp. revert r. induction Hp as [|c p Hc Hp IH]; intros r Hr; [done|]. cbn [crc_bits fold_left]. rewrite Hf by done. apply IH, shifts_nonneg, Z.lxor_nonneg.
  unfold is_byte in Hc. lia.
Qed.

(** ** Changes are detected *)

Lemma shift_zero d : 0 <= d < 2 ^ 32 -> shift d = 0 -> d = 0.
Proof.
  intros Hd. unfold shift. rewrite Z.shiftr_div_pow2 by lia. change (2 ^ 1) with 2.
  destruct (Z.odd d) eqn:E.
  - intros H. apply Z.lxor_eq in H. assert (poly = 0xedb88320) as Ep by reflexivity. rewrite Ep in H. exfalso. div_lia.
  - intros H. rewrite (Zdiv2_odd_eqn d), E, Z.div2_div, H. lia.
Qed.

Lemma land_lxor a b m : Z.land (Z.lxor a b) m = Z.lxor (Z.land a m) (Z.land b m).
Proof.
  apply Z.bits_inj'. intros k _. rewrite !Z.land_spec, !Z.lxor_spec, !Z.land_spec. by destruct (Z.testbit a k), (Z.testbit b k), (Z.testbit m k).
Qed.

Lemma lxor_range a b n : 0 <= n -> 0 <= a < 2 ^ n -> 0 <= b < 2 ^ n -> 0 <= Z.lxor a b < 2 ^ n.
Proof.
  intros Hn Ha Hb. assert (0 <= Z.lxor a b) as H0 by (apply Z.lxor_nonneg; lia). split; [done|].
  rewrite <- (Z.mod_small a (2 ^ n)), <- (Z.mod_small b (2 ^ n)) by lia. rewrite <- !Z.land_ones by lia.
  rewrite <- land_lxor, Z.land_ones by lia. apply Z.mod_pos_bound. lia.
Qed.

Lemma shift_range r : 0 <= r < 2 ^ 32 -> 0 <= shift r < 2 ^ 32.
Proof.
  intros Hr. assert (0 <= Z.shiftr r 1 < 2 ^ 32) as H1 by (rewrite Z.shiftr_div_pow2 by lia; change (2 ^ 1) with 2; div_lia).
  unfold shift. destruct (Z.odd r); [|done]. apply lxor_range; [lia|done|]. vm_compute. split; [discriminate|reflexivity].
Qed.

Lemma shifts_range n r : 0 <= r < 2 ^ 32 -> 0 <= shifts n r < 2 ^ 32.
Proof. intros Hr. induction n as [|n IH]; [done|]. cbn [shifts]. by apply shift_range. Qed.

Lemma shifts_inj n a b : 0 <= a < 2 ^ 32 -> 0 <= b < 2 ^ 32 -> shifts n a = shifts n b -> a = b.
Proof.
  intros Ha Hb H. apply Z.lxor_eq. assert (shifts n (Z.lxor a b) = 0) as Hz by (rewrite shifts_lxor, H; apply Z.lxor_nilpotent).
  pose proof (lxor_range a b 32 ltac:(lia) Ha Hb) as Hr. clear -Hz Hr. induction n as [|n IH]; [done|]. apply IH.
  apply shift_zero; [|exact Hz]. by apply shifts_range.
Qed.

(** Bytes as a number, the first one least. *)
Fixpoint word (w : list Z) : Z := match w with [] => 0 | c :: w => Z.lxor c (Z.shiftl (word w) 8) end.

Lemma crc_bits_word w r : crc_bits w r = shifts (8 * length w) (Z.lxor r (word w)).
Proof.
  revert r. induction w as [|c w IH]; intros r; [cbn; by rewrite Z.lxor_0_r|]. cbn [crc_bits fold_left word]. unfold crc_bits in IH.
  rewrite IH. cbn [length]. replace (8 * S (length w))%nat with (8 * length w + 8)%nat by lia. rewrite shifts_add. f_equal.
  rewrite <- Z.lxor_assoc, (shifts_lxor 8 (Z.lxor r c)). f_equal. symmetry. apply (shifts_high 8).
Qed.

Lemma word_range w : bytes w -> 0 <= word w < 2 ^ (8 * Z.of_nat (length w)).
Proof.
  induction 1 as [|c w Hc Hw IH]; [cbn; lia|]. cbn [word length]. unfold is_byte in Hc.
  replace (8 * Z.of_nat (S (length w))) with (8 * Z.of_nat (length w) + 8) by lia. apply lxor_range; [lia| |].
  - split; [lia|]. apply Z.lt_le_trans with (2 ^ 8); [cbn; lia|]. apply Z.pow_le_mono_r; lia.
  - rewrite Z.shiftl_mul_pow2, Z.pow_add_r by lia. nia.
Qed.

Lemma word_inj w1 w2 : bytes w1 -> bytes w2 -> length w1 = length w2 -> word w1 = word w2 -> w1 = w2.
Proof.
  intros H1. revert w2. induction H1 as [|c w1 Hc H1 IH]; intros [|d w2] H2 Hl E; try done. apply Forall_cons in H2 as [Hd H2].
  cbn [word] in E. assert (c = d) as ->.
  { assert (Z.lxor c (Z.shiftl (word w1) 8) mod 2 ^ 8 = Z.lxor d (Z.shiftl (word w2) 8) mod 2 ^ 8) as E' by (by rewrite E).
    rewrite <- !Z.land_ones, !land_lxor, !Z.land_ones, !Z.shiftl_mul_pow2, !Z.mod_mul, !Z.lxor_0_r in E' by lia.
    unfold is_byte in *. rewrite !Z.mod_small in E' by (cbn; lia). done. }
  f_equal. apply IH; [done|cbn in Hl; lia|].
  assert (Z.shiftl (word w1) 8 = Z.shiftl (word w2) 8) as E'.
  { rewrite <- (Z.lxor_0_l (Z.shiftl (word w1) 8)), <- (Z.lxor_nilpotent d), Z.lxor_assoc, E. by rewrite <- Z.lxor_assoc, Z.lxor_nilpotent, Z.lxor_0_l. }
  rewrite !Z.shiftl_mul_pow2 in E' by lia. lia.
Qed.

Lemma crc_bits_range p r : bytes p -> 0 <= r < 2 ^ 32 -> 0 <= crc_bits p r < 2 ^ 32.
Proof.
  intros Hp. revert r. induction Hp as [|c p Hc Hp IH]; intros r Hr; [done|]. cbn [crc_bits fold_left]. apply IH, shifts_range, lxor_range; [lia|done|].
  unfold is_byte in Hc. lia.
Qed.

Lemma crc_bits_inj p a b : bytes p -> 0 <= a < 2 ^ 32 -> 0 <= b < 2 ^ 32 -> crc_bits p a = crc_bits p b -> a = b.
Proof.
  intros Hp. revert a b. induction Hp as [|c p Hc Hp IH]; intros a b Ha Hb H; [done|]. cbn [crc_bits fold_left] in H.
  assert (0 <= c < 2 ^ 32) as Hc' by (unfold is_byte in Hc; lia). pose proof (lxor_range a c 32 ltac:(lia) Ha Hc') as H1.
  pose proof (lxor_range b c 32 ltac:(lia) Hb Hc') as H2.
  apply IH in H; [|by apply shifts_range..]. apply shifts_inj in H; [|done..].
  rewrite <- (Z.lxor_0_r a), <- (Z.lxor_nilpotent c), <- Z.lxor_assoc, H, Z.lxor_assoc, Z.lxor_nilpotent. apply Z.lxor_0_r.
Qed.

(** ngx_crc32_short(), with its table of 16 entries, ngx_crc32_long(), and
    ngx_crc32_update() over the pieces of a string all compute the CRC-32 of
    the shift register, bit by bit; and the checksum of a string changes
    whenever at most 4 consecutive bytes of it do. *)
Theorem crc32_exact (p : list Z) (pieces : list (list Z)) : bytes p -> concat pieces = p ->
  ngx_crc32_short p = crc32 p /\ ngx_crc32_long p = crc32 p /\
  ngx_crc32_final (fold_left ngx_crc32_update pieces ngx_crc32_init) = crc32 p /\
  forall a w b w', p = a ++ w ++ b -> bytes w' -> length w' = length w -> (length w <= 4)%nat -> w' <> w ->
    ngx_crc32_short (a ++ w' ++ b) <> ngx_crc32_short p.
Proof.
  intros Hp Hpieces.
  assert (forall p, bytes p -> ngx_crc32_short p = crc32 p) as Hshort.
  { intros q Hq. unfold ngx_crc32_short. by rewrite (steps_eq _ _ _ short_step_eq Hq). }
  split; [by apply Hshort|]. split; [unfold ngx_crc32_long; by rewrite (steps_eq _ _ _ long_step_eq Hp)|]. split.
  - unfold ngx_crc32_final, crc32. f_equal. rewrite <- (steps_eq _ _ _ long_step_eq Hp) by done. rewrite <- Hpieces. clear.
    unfold ngx_crc32_update, ngx_crc32_init. generalize 0xffffffff. induction pieces as [|q l IH]; intros r; [done|].
    cbn [fold_left concat]. by rewrite fold_left_app, IH.
  - intros a w b w' -> Hw' Hl H4 Hne. unfold bytes in Hp. rewrite !Forall_app in Hp. destruct Hp as (Ha & Hw & Hb).
    rewrite !Hshort by (repeat apply bytes_app; done). intros E. apply Hne. unfold crc32, crc_bits in E. rewrite !fold_left_app in E.
    assert (forall x y, Z.lxor x 0xffffffff = Z.lxor y 0xffffffff -> x = y) as Hx.
    { intros x y Exy. rewrite <- (Z.lxor_0_r x), <- (Z.lxor_nilpotent 0xffffffff), <- Z.lxor_assoc, Exy, Z.lxor_assoc, Z.lxor_nilpotent.
      apply Z.lxor_0_r. }
    apply Hx in E. fold (crc_bits a 0xffffffff) in E. set (r := crc_bits a 0xffffffff) in E.
    assert (0 <= r < 2 ^ 32) as Hr by (apply crc_bits_range; [done|lia]).
    fold (crc_bits w r) in E. fold (crc_bits w' r) in E. apply crc_bits_inj in E; [|done|by apply crc_bits_range..].
    rewrite !crc_bits_word, Hl in E.
    assert (forall w, bytes w -> (length w <= 4)%nat -> 0 <= word w < 2 ^ 32) as Hwr.
    { intros v Hv Hv4. pose proof (word_range v Hv) as Hvr. split; [lia|]. eapply Z.lt_le_trans; [apply Hvr|]. apply Z.pow_le_mono_r; lia. }
    apply shifts_inj in E; [|apply lxor_range; [lia|done|apply Hwr; [done|lia]]..]. apply word_inj; [done..|].
    rewrite <- (Z.lxor_0_l (word w')), <- (Z.lxor_nilpotent r), Z.lxor_assoc, E. by rewrite <- Z.lxor_assoc, Z.lxor_nilpotent, Z.lxor_0_l.
Qed.

Lemma crc32_exact_witness : ngx_crc32_short (bs "12345"%string ++ bs "6780"%string) <> ngx_crc32_short (bs "123456789"%string).
Proof.
  destruct (crc32_exact (bs "123456789"%string) [bs "12345"%string; bs "6789"%string]) as (_ & _ & _ & H).
  - repeat constructor; discriminate.
  - reflexivity.
  - apply (H (bs "12345"%string) (bs "6789"%string) [] (bs "6780"%string)); [reflexivity|repeat constructor; discriminate|reflexivity|cbn; lia|discriminate].
Defined.

End Crc32.
