(* ===== verification/NgxKeyTree.v ===== *)
(** * Trees of strings with their hashes

    The comparisons that the modules of request and connection limits use in
    their red-black trees: a node holds the hash of a string as its key and the
    string beside it, ngx_memn2cmp() of core/ngx_string.c tells strings of
    equal hashes apart.  The lemmas give the lookup of such a tree as the
    lookup of the string. *)

From Stdlib Require Import ZArith Lia ZifyBool.
From stdpp Require Import base option tactics gmap list sorting.
From S2P Require Import Prelude NgxState NgxRbtree.
Import Rbtree.

Local Open Scope Z_scope.

Module KeyTree.

(** [memcmp]: only the sign of a result is specified. *)
Fixpoint ngx_memcmp (s1 s2 : list Z) (n : nat) : Z :=
  match n, s1, s2 with
  | S n, c1 :: s1, c2 :: s2 => if c1 =? c2 then ngx_memcmp s1 s2 n else c1 - c2
  | _, _, _ => 0
  end.

Definition ngx_memn2cmp (s1 s2 : list Z) : Z :=
  let n1 := length s1 in
  let n2 := length s2 in
  let '(n, z) := if Nat.leb n1 n2 then (n1, -1) else (n2, 1) in
  let m := ngx_memcmp s1 s2 n in
  if negb (m =? 0) || Nat.eqb n1 n2 then m else z.

(** ** The lexicographic order *)

Fixpoint lex (s1 s2 : list Z) : comparison :=
  match s1, s2 with
  | [], [] => Eq
  | [], _ :: _ => Lt
  | _ :: _, [] => Gt
  | c1 :: s1, c2 :: s2 => match c1 ?= c2 with Eq => lex s1 s2 | c => c end
  end.

Lemma memn2cmp_lex s1 s2 : (ngx_memn2cmp s1 s2 ?= 0) = lex s1 s2.
Proof.
  assert (forall s1 s2 n, n = Nat.min (length s1) (length s2) ->
    match ngx_memcmp s1 s2 n with
    | 0 => lex s1 s2 = Nat.compare (length s1) (length s2)
    | m => lex s1 s2 = (m ?= 0)
    end) as H.
  { clear. induction s1 as [|c1 s1 IH]; intros [|c2 s2] n ->; try done. cbn [length Nat.min ngx_memcmp].
    specialize (IH s2 _ eq_refl). cbn [lex]. destruct (Z.eqb_spec c1 c2) as [->|Hc]; [rewrite Z.compare_refl; exact IH|].
    rewrite Z.compare_sub. destruct (c1 - c2) eqn:E; [lia|done|done]. }
  unfold ngx_memn2cmp. destruct (Nat.leb_spec (length s1) (length s2)) as [Hl|Hl].
  - specialize (H s1 s2 (length s1) ltac:(lia)). destruct (ngx_memcmp s1 s2 (length s1)) as [|m|m]; cbn; [|by rewrite H..].
    rewrite H. destruct (Nat.eqb_spec (length s1) (length s2)) as [->|Hn]; [by rewrite Nat.compare_refl|].
    symmetry. apply Nat.compare_lt_iff. lia.
  - specialize (H s1 s2 (length s2) ltac:(lia)). destruct (ngx_memcmp s1 s2 (length s2)) as [|m|m]; cbn; [|by rewrite H..].
    rewrite H. destruct (Nat.eqb_spec (length s1) (length s2)); [lia|]. symmetry. by apply Nat.compare_gt_iff.
Qed.

Lemma lex_eq s1 s2 : lex s1 s2 = Eq <-> s1 = s2.
Proof.
  revert s2. induction s1 as [|c1 s1 IH]; intros [|c2 s2]; cbn; try done. destruct (Z.compare_spec c1 c2) as [->|H|H].
  - rewrite IH. split; congruence.
  - split; [done|]. intros E. simplify_eq. lia.
  - split; [done|]. intros E. simplify_eq. lia.
Qed.

Lemma lex_antisym s1 s2 : lex s2 s1 = CompOpp (lex s1 s2).
Proof.
  revert s2. induction s1 as [|c1 s1 IH]; intros [|c2 s2]; cbn; try done. rewrite (Z.compare_antisym c1 c2).
  destruct (c1 ?= c2); cbn; [apply IH|done..].
Qed.

Lemma lex_lt_trans s1 s2 s3 : lex s1 s2 = Lt -> lex s2 s3 = Lt -> lex s1 s3 = Lt.
Proof.
  revert s2 s3. induction s1 as [|c1 s1 IH]; intros [|c2 s2] [|c3 s3]; cbn; try done.
  destruct (Z.compare_spec c1 c2) as [->|H|H]; [|intros _|done].
  - destruct (c2 ?= c3); [|done..]. apply IH.
  - destruct (Z.compare_spec c2 c3) as [->|H'|H']; [|intros _|done].
    + intros _. by rewrite (proj2 (Z.compare_lt_iff _ _) H).
    + by rewrite (proj2 (Z.compare_lt_iff c1 c3)) by lia.
Qed.

(** Hashes first. *)
Definition ord (a b : Z * list Z) : comparison :=
  match a.1 ?= b.1 with Eq => lex a.2 b.2 | c => c end.

Lemma ord_eq a b : ord a b = Eq <-> a = b.
Proof.
  destruct a as [k1 s1], b as [k2 s2]. unfold ord. cbn. destruct (Z.compare_spec k1 k2) as [->|H|H].
  - rewrite lex_eq. split; congruence.
  - split; [done|]. intros E. simplify_eq. lia.
  - split; [done|]. intros E. simplify_eq. lia.
Qed.

Lemma ord_antisym a b : ord b a = CompOpp (ord a b).
Proof.
  unfold ord. rewrite (Z.compare_antisym a.1 b.1), (lex_antisym a.2 b.2). by destruct (a.1 ?= b.1).
Qed.

Lemma ord_trans a b c : ord a b = Lt -> ord b c = Lt -> ord a c = Lt.
Proof.
  unfold ord. destruct (Z.compare_spec a.1 b.1) as [->|H|H]; [|intros _|done].
  - destruct (b.1 ?= c.1); [|done..]. apply lex_lt_trans.
  - destruct (Z.compare_spec b.1 c.1) as [<-|H'|H']; [|intros _|done].
    + intros _. by rewrite (proj2 (Z.compare_lt_iff _ _) H).
    + by rewrite (proj2 (Z.compare_lt_iff a.1 c.1)) by lia.
Qed.

(** [a < b <= c] and [a <= b < c] give [a < c]. *)
Lemma ord_lt_le a b c : ord a b = Lt -> ord c b <> Lt -> ord a c = Lt.
Proof.
  intros H1 H2. rewrite (ord_antisym b c) in H2. destruct (ord b c) eqn:E; cbn in H2; [|by eapply ord_trans|done].
  apply ord_eq in E as ->. done.
Qed.

Lemma ord_le_lt a b c : ord b a <> Lt -> ord b c = Lt -> ord a c = Lt.
Proof.
  intros H1 H2. rewrite (ord_antisym a b) in H1. destruct (ord a b) eqn:E; cbn in H1; [|by eapply ord_trans|done].
  apply ord_eq in E as ->. done.
Qed.

(** ** The nodes *)

Section Nodes.
(** The string of a node. *)
Variable data : ptr -> list Z.

(** The comparison of the functions [tree->insert]. *)
Definition node_less (node temp : ptr * Z) : bool :=
  if node.2 <? temp.2 then true
  else if node.2 >? temp.2 then false
  else ngx_memn2cmp (data node.1) (data temp.1) <? 0.

(** The comparison of the lookups. *)
Definition node_cmp (hash : Z) (key : list Z) (node : ptr * Z) : comparison :=
  if hash <? node.2 then Lt
  else if hash >? node.2 then Gt
  else
    let rc := ngx_memn2cmp key (data node.1) in
    if rc =? 0 then Eq else if rc <? 0 then Lt else Gt.

Definition at_node (e : ptr * Z) : Z * list Z := (e.2, data e.1).

Lemma node_less_ord e x : node_less e x = true <-> ord (at_node e) (at_node x) = Lt.
Proof.
  unfold node_less, ord, at_node. cbn. rewrite <- memn2cmp_lex. destruct (Z.compare_spec e.2 x.2) as [->|H|H].
  - replace (x.2 <? x.2) with false by lia. replace (x.2 >? x.2) with false by lia. rewrite Z.compare_lt_iff. lia.
  - replace (e.2 <? x.2) with true by lia. done.
  - replace (e.2 <? x.2) with false by lia. replace (e.2 >? x.2) with true by lia. done.
Qed.

Lemma node_cmp_ord hash key e : node_cmp hash key e = ord (hash, key) (at_node e).
Proof.
  unfold node_cmp, ord, at_node. cbn. rewrite <- memn2cmp_lex. destruct (Z.compare_spec hash e.2) as [->|H|H].
  - replace (e.2 <? e.2) with false by lia. replace (e.2 >? e.2) with false by lia.
    destruct (Z.compare_spec (ngx_memn2cmp key (data e.1)) 0) as [->|H|H]; [done|..].
    + replace (_ =? 0) with false by lia. by replace (_ <? 0) with true by lia.
    + replace (_ =? 0) with false by lia. by replace (_ <? 0) with false by lia.
  - by replace (hash <? e.2) with true by lia.
  - replace (hash <? e.2) with false by lia. by replace (hash >? e.2) with true by lia.
Qed.

Lemma node_coherent e L : coherent node_less e L.
Proof.
  assert (forall x y, node_less x y = false <-> ord (at_node x) (at_node y) <> Lt) as Hf.
  { intros x y. rewrite <- node_less_ord. by destruct (node_less x y). }
  intros x _. split.
  - rewrite node_less_ord, Hf. intros H. rewrite ord_antisym, H. done.
  - intros y _. rewrite !node_less_ord, Hf. apply ord_lt_le.
Qed.

Lemma node_monotone hash key L : sorted node_less L -> monotone (node_cmp hash key) L.
Proof.
  assert (forall x y, node_less x y = false <-> ord (at_node x) (at_node y) <> Lt) as Hf.
  { intros x y. rewrite <- node_less_ord. by destruct (node_less x y). }
  intros HS A x B ->. apply sorted_split in HS as [H1 H2]. rewrite Forall_forall in H1, H2.
  split; intros Hx; apply Forall_forall; intros y Hy; rewrite node_cmp_ord in *.
  - eapply ord_lt_le; [exact Hx|]. by apply Hf, H2.
  - rewrite ord_antisym in Hx |- *. assert (ord (at_node x) (hash, key) = Lt) as Hx' by (by destruct (ord (at_node x) (hash, key))).
    rewrite (ord_le_lt (at_node y) (at_node x) (hash, key)); [done|by apply Hf, H1|done].
Qed.

Lemma node_found hash key L r : found (node_cmp hash key) L r ->
  match r with
  | Some n => (n, hash) ∈ L /\ data n = key
  | None => forall n, (n, hash) ∈ L -> data n <> key
  end.
Proof.
  destruct r as [n|]; cbn.
  - intros (k & Hk & He). rewrite node_cmp_ord in He. apply ord_eq in He. unfold at_node in He. cbn in He. simplify_eq. done.
  - intros H n Hn E. apply (H _ Hn). rewrite node_cmp_ord. apply ord_eq. unfold at_node. cbn. by rewrite E.
Qed.

End Nodes.

(** The order does not depend on nodes that are not in the tree. *)
Lemma sorted_data (d d' : ptr -> list Z) L : (forall a, a ∈ L.*1 -> d' a = d a) -> sorted (node_less d) L -> sorted (node_less d') L.
Proof.
  intros Hd. unfold sorted. induction 1 as [|e L HL IH HF]; [constructor|]. constructor.
  - apply IH. intros a Ha. apply Hd. by right.
  - rewrite Forall_forall in *. intros x Hx. specialize (HF x Hx). cbn beta in *. unfold node_less in *.
    rewrite (Hd e.1) by left. rewrite (Hd x.1); [done|]. right. by apply list_elem_of_fmap_2.
Qed.

End KeyTree.
