(* ===== verification/NgxLocks.v ===== *)
(** * Locks in shared memory

    core/ngx_rwlock.c and core/ngx_shmtx.c as processes that take turns: every
    access to a shared word is one step, the atomic operations are one step
    each, and memory is sequentially consistent, which the barriers of the
    atomic operations provide.  A process is where it is
    in the code; [tick] is one step of it.  Pauses and yields are no steps.

    For reader-writer locks: a writer is alone, and the word counts the
    readers.  For mutexes: at most one process holds the lock, also when
    processes die and the master releases what they held; and the wakeups of
    the semaphore are not lost.  sem_post() succeeds, and sem_wait() fails for
    signals only: the code logs its other failures and goes on. *)

From Stdlib Require Import ZArith Lia ZifyBool.
From stdpp Require Import base option tactics list relations.
From S2P Require Import Prelude.

Local Open Scope Z_scope.

(** ** Processes that take turns *)

Section Interleaving.
Context {S P Act : Type} (tick : nat -> Act -> S -> P -> option (S * P)).

(** The shared memory and where the processes are. *)
Definition world : Type := S * list P.

Inductive step : world -> world -> Prop :=
  step_tick s ps i p act s' p' :
    ps !! i = Some p -> tick i act s p = Some (s', p') -> step (s, ps) (s', <[i := p']> ps).

(** The steps of processes at some places only. *)
Inductive step_of (at_ : P -> bool) : world -> world -> Prop :=
  step_of_tick s ps i p act s' p' :
    ps !! i = Some p -> at_ p = true -> tick i act s p = Some (s', p') ->
    step_of at_ (s, ps) (s', <[i := p']> ps).

Lemma step_of_step at_ w w' : step_of at_ w w' -> step w w'.
Proof. intros []. by econstructor. Qed.

Lemma invariant_reach (I : world -> Prop) w w' :
  (forall w1 w2, I w1 -> step w1 w2 -> I w2) -> I w -> rtc step w w' -> I w'.
Proof. intros Hs Hw H. induction H; eauto. Qed.

Lemma step_length w w' : step w w' -> length w.2 = length w'.2.
Proof. intros []. cbn. by rewrite length_insert. Qed.

End Interleaving.

(** How many elements satisfy a test. *)
Fixpoint count {A} (p : A -> bool) (l : list A) : Z :=
  match l with [] => 0 | a :: l => Z.b2z (p a) + count p l end.

Lemma count_insert {A} (p : A -> bool) l i a b : l !! i = Some a ->
  count p (<[i := b]> l) = count p l - Z.b2z (p a) + Z.b2z (p b).
Proof.
  revert i. induction l as [|x l IH]; intros [|i] H; try done.
  - injection H as ->. cbn [count insert list_insert]. lia.
  - change (<[Datatypes.S i := b]> (x :: l)) with (x :: <[i := b]> l). cbn [count].
    rewrite (IH i H). lia.
Qed.

Lemma count_bounds {A} (p : A -> bool) l : 0 <= count p l <= Z.of_nat (length l).
Proof. induction l as [|x l IH]; cbn [count length]; [lia|]. destruct (p x); cbn [Z.b2z]; lia. Qed.

Lemma count_pos {A} (p : A -> bool) l i a : l !! i = Some a -> p a = true -> 0 < count p l.
Proof.
  revert i. induction l as [|x l IH]; intros [|i] H Hp; cbn in *; simplify_eq.
  - rewrite Hp. pose proof (count_bounds p l). cbn. lia.
  - pose proof (IH i H Hp). destruct (p x); cbn; lia.
Qed.

Lemma count_exists {A} (p : A -> bool) l : 0 < count p l -> exists i a, l !! i = Some a /\ p a = true.
Proof.
  induction l as [|x l IH]; cbn; [lia|]. intros H. destruct (p x) eqn:E.
  - by exists O, x.
  - destruct IH as (i & a & Hi & Ha); [cbn in H; lia|]. by exists (Datatypes.S i), a.
Qed.

Lemma count_le {A} (p q : A -> bool) l : (forall a, p a = true -> q a = true) -> count p l <= count q l.
Proof.
  intros H. induction l as [|x l IH]; cbn; [lia|]. specialize (H x). destruct (p x), (q x); cbn; lia.
Qed.

(** Two processes at places that only one of them can be at. *)
Lemma count_unique {A} (p : A -> bool) l i j a b : count p l <= 1 ->
  l !! i = Some a -> l !! j = Some b -> p a = true -> p b = true -> i = j.
Proof.
  intros H Hi Hj Ha Hb. destruct (decide (i = j)) as [|Hne]; [done|]. exfalso.
  revert i j H Hi Hj Hne. induction l as [|x l IH]; intros [|i] [|j] H Hi Hj Hne; cbn in *; simplify_eq.
  - rewrite Ha in H. pose proof (count_pos p l j b Hj Hb). cbn in H. lia.
  - rewrite Hb in H. pose proof (count_pos p l i a Hi Ha). cbn in H. lia.
  - apply (IH i j); try done; [destruct (p x); cbn in H; lia|congruence].
Qed.

(** The spinning of every lock: the tries of the loop over [n], which starts
    after the first one when there is more than one processor; [None] is the
    end of the loop. *)
Inductive stage := First | Spin (n : Z).

Definition next_stage `{Platform} (ncpu spin : Z) (st : stage) : option stage :=
  let n := match st with First => 1 | Spin n => wrapu ptr_size (Z.shiftl n 1) end in
  match st with
  | First => if (ncpu >? 1) && (n <? spin) then Some (Spin n) else None
  | Spin _ => if n <? spin then Some (Spin n) else None
  end.

(** A step of a concrete process. *)
Ltac turn i act := eapply rtc_l; [eapply (step_tick _ _ _ i _ act); [reflexivity|lazy; reflexivity]|lazy [insert list_insert]].

Module Rwlock.

Section Code.
Context `{Platform}.
Variable ngx_ncpu : Z.

Definition NGX_RWLOCK_SPIN : Z := 2048.
Definition NGX_RWLOCK_WLOCK : Z := wrapu ptr_size (-1).

(** What a process may call where it has a choice. *)
Inductive call := Call_wlock | Call_rlock | Call_unlock | Call_downgrade.

(** Where a process is; the processes that hold the lock while they give it
    up remember how ([w]: for writing). *)
Inductive place :=
  | Out
  | Wlock_read (st : stage) | Wlock_cas (st : stage)
  | Rlock_read (st : stage) | Rlock_cas (st : stage) (readers : Z)
  | Reading | Writing
  | Unlock_read (w : bool) | Unlock_cas (w : bool) | Unlock_add (w : bool)
  | Downgrade_read | Downgrade_set.

Definition again (again : stage -> place) (st : stage) : place :=
  again (match next_stage ngx_ncpu NGX_RWLOCK_SPIN st with Some st => st | None => First end).

Definition ngx_rwlock_wlock (lock : Z) (p : place) : option (Z * place) :=
  match p with
  | Wlock_read st => Some (lock, if lock =? 0 then Wlock_cas st else again Wlock_read st)
  | Wlock_cas st =>
      if lock =? 0 then Some (NGX_RWLOCK_WLOCK, Writing) else Some (lock, again Wlock_read st)
  | _ => None
  end.

Definition ngx_rwlock_rlock (lock : Z) (p : place) : option (Z * place) :=
  match p with
  | Rlock_read st =>
      Some (lock, if negb (lock =? NGX_RWLOCK_WLOCK) then Rlock_cas st lock else again Rlock_read st)
  | Rlock_cas st readers =>
      if lock =? readers then Some (wrapu ptr_size (readers + 1), Reading)
      else Some (lock, again Rlock_read st)
  | _ => None
  end.

Definition ngx_rwlock_unlock (lock : Z) (p : place) : option (Z * place) :=
  match p with
  | Unlock_read w => Some (lock, if lock =? NGX_RWLOCK_WLOCK then Unlock_cas w else Unlock_add w)
  | Unlock_cas w => Some (if lock =? NGX_RWLOCK_WLOCK then 0 else lock, Out)
  | Unlock_add w => Some (wrapu ptr_size (lock - 1), Out)
  | _ => None
  end.

Definition ngx_rwlock_downgrade (lock : Z) (p : place) : option (Z * place) :=
  match p with
  | Downgrade_read => Some (lock, if lock =? NGX_RWLOCK_WLOCK then Downgrade_set else Writing)
  | Downgrade_set => Some (1, Reading)
  | _ => None
  end.

(** A process outside calls a lock function, one that holds the lock gives
    it up, or gives up writing. *)
Definition start (c : call) (p : place) : option place :=
  match p, c with
  | Out, Call_wlock => Some (Wlock_read First)
  | Out, Call_rlock => Some (Rlock_read First)
  | Reading, Call_unlock => Some (Unlock_read false)
  | Writing, Call_unlock => Some (Unlock_read true)
  | Writing, Call_downgrade => Some Downgrade_read
  | _, _ => None
  end.

Definition tick (_ : nat) (c : call) (lock : Z) (p : place) : option (Z * place) :=
  match p with
  | Out | Reading | Writing => match start c p with Some p => Some (lock, p) | None => None end
  | Wlock_read _ | Wlock_cas _ => ngx_rwlock_wlock lock p
  | Rlock_read _ | Rlock_cas _ _ => ngx_rwlock_rlock lock p
  | Unlock_read _ | Unlock_cas _ | Unlock_add _ => ngx_rwlock_unlock lock p
  | Downgrade_read | Downgrade_set => ngx_rwlock_downgrade lock p
  end.

Definition init (n : nat) : Z * list place := (0, replicate n Out).

(** Who holds the lock. *)
Definition writes (p : place) : bool :=
  match p with
  | Writing | Unlock_read true | Unlock_cas _ | Downgrade_read | Downgrade_set => true
  | _ => false
  end.

Definition reads (p : place) : bool :=
  match p with Reading | Unlock_read false | Unlock_add _ => true | _ => false end.

(** What the code relies on where a process is. *)
Definition place_ok (p : place) : Prop :=
  match p with
  | Rlock_cas _ r => r <> NGX_RWLOCK_WLOCK
  | _ => True
  end.

Record inv (w : Z * list place) : Prop := {
  inv_word : w.1 = NGX_RWLOCK_WLOCK /\ count writes w.2 = 1 /\ count reads w.2 = 0 \/
             w.1 = count reads w.2 /\ count writes w.2 = 0;
  inv_places : Forall place_ok w.2;
  inv_small : Z.of_nat (length w.2) < NGX_RWLOCK_WLOCK
}.

Lemma wlock_top : 4294967295 <= NGX_RWLOCK_WLOCK < 2 ^ bits ptr_size.
Proof.
  unfold NGX_RWLOCK_WLOCK, wrapu. by destruct ptr_size; vm_compute.
Qed.

Lemma init_inv n : Z.of_nat n < NGX_RWLOCK_WLOCK -> inv (init n).
Proof.
  intros Hn. pose proof wlock_top. split; cbn [fst snd init].
  - right. assert (forall p, p Out = false -> count p (replicate n Out) = 0) as Hc.
    { intros p Hp. induction n as [|n IH]; cbn; [done|]. rewrite Hp. apply IH. lia. }
    by rewrite !Hc.
  - apply Forall_replicate. done.
  - by rewrite length_replicate.
Qed.

(** Every step keeps the invariant: the two counts follow the word. *)
Lemma system_step_inv w w' : inv w -> step tick w w' -> inv w'.
Proof.
  intros [HW HP HS] Hstep. pose proof wlock_top as Ht.
  destruct Hstep as [lock ps i p c lock' p' Hi Htick]. cbn [fst snd] in *.
  pose proof (count_bounds reads ps) as HR. pose proof (count_bounds writes ps) as HWr.
  pose proof (count_insert writes ps i p p' Hi) as Ew. pose proof (count_insert reads ps i p p' Hi) as Er.
  pose proof (count_pos writes ps i p Hi) as Pw. pose proof (count_pos reads ps i p Hi) as Pr.
  assert (place_ok p) as Hp by (rewrite Forall_forall in HP; eapply HP, list_elem_of_lookup_2; eauto).
  split; cbn [fst snd]; [|apply Forall_insert; [done|]|by rewrite length_insert].
  - rewrite Ew, Er. clear Ew Er HP Hi. unfold tick, ngx_rwlock_wlock, ngx_rwlock_rlock, ngx_rwlock_unlock,
      ngx_rwlock_downgrade, start in Htick. unfold place_ok in Hp.
    generalize dependent NGX_RWLOCK_WLOCK. intros W **.
    destruct p; try destruct c; simplify_eq; repeat case_match; simplify_eq;
      cbn [writes reads place_ok Z.b2z again] in *; try lia.
    all: try destruct w; cbn [Z.b2z] in *; try lia; rewrite wrapu_small by lia; lia.
  - destruct p, c; cbn in Htick; simplify_eq; cbn; try done; repeat case_match; simplify_eq; cbn; try done; lia.
Qed.

Lemma reachable_inv n w : Z.of_nat n < NGX_RWLOCK_WLOCK -> rtc (step tick) (init n) w -> inv w.
Proof.
  intros Hn Hw. eapply invariant_reach; [|by apply init_inv|exact Hw]. intros. by eapply system_step_inv.
Qed.

End Code.

(** Reader-writer locks: however the processes interleave, a process that
    writes is the only one that holds the lock, the word is the number of
    readers when nobody writes, and it is free exactly when nobody holds it;
    the lock function of a process that runs alone then returns after two
    steps, for writing when nobody holds the lock and for reading when nobody
    writes. *)
Theorem rwlock_excludes `{Platform} ncpu n lock ps :
  Z.of_nat n < NGX_RWLOCK_WLOCK -> rtc (step (tick ncpu)) (init n) (lock, ps) ->
  (forall i j p q, ps !! i = Some p -> ps !! j = Some q -> writes p = true ->
     writes q || reads q = true -> i = j) /\
  (count writes ps = 0 -> lock = count reads ps) /\
  (lock = 0 <-> count writes ps = 0 /\ count reads ps = 0) /\
  (forall i st c, lock = 0 -> ps !! i = Some (Wlock_read st) ->
     exists p, tick ncpu i c lock (Wlock_read st) = Some (lock, p) /\
       tick ncpu i c lock p = Some (NGX_RWLOCK_WLOCK, Writing)) /\
  (forall i st c, count writes ps = 0 -> ps !! i = Some (Rlock_read st) ->
     exists p, tick ncpu i c lock (Rlock_read st) = Some (lock, p) /\
       tick ncpu i c lock p = Some (lock + 1, Reading)).
Proof.
  intros Hn Hr. destruct (reachable_inv ncpu n _ Hn Hr) as [HW HP HS]. cbn [fst snd] in *.
  pose proof wlock_top as Ht. pose proof (count_bounds reads ps) as HR.
  split_and!.
  - intros i j p q Hi Hj Hp Hq. pose proof (count_pos writes ps i p Hi Hp).
    apply (count_unique writes ps i j p q); try done; [lia|]. destruct (writes q); [done|].
    pose proof (count_pos reads ps j q Hj Hq). lia.
  - lia.
  - lia.
  - intros i st c -> Hi. exists (Wlock_cas st). by split.
  - intros i st c H0 Hi. exists (Rlock_cas st lock). cbn.
    rewrite (proj2 (Z.eqb_neq lock NGX_RWLOCK_WLOCK)), Z.eqb_refl, wrapu_small by lia. done.
Qed.

Lemma rwlock_excludes_witness :
  rtc (step (tick (H := lp64) 2)) (init 3) (2, [Reading; Wlock_read First; Reading]) /\
  (count writes [Reading; Wlock_read First; Reading] = 0 ->
   2 = count reads [Reading; Wlock_read First; Reading]).
Proof.
  assert (rtc (step (tick (H := lp64) 2)) (init 3) (2, [Reading; Wlock_read First; Reading])) as Hr.
  { turn 0%nat Call_rlock. turn 0%nat Call_rlock. turn 0%nat Call_rlock. turn 1%nat Call_wlock.
    turn 2%nat Call_rlock. turn 2%nat Call_rlock. turn 2%nat Call_rlock. reflexivity. }
  split; [exact Hr|].
  assert (Z.of_nat 3 < NGX_RWLOCK_WLOCK (H := lp64)) as Hn by by vm_compute.
  exact (proj1 (proj2 (rwlock_excludes 2 3 _ _ Hn Hr))).
Defined.

End Rwlock.

Module Shmtx.

(** [ngx_shmtx_sh_t] and the semaphore; [reaped] are the processes that died
    and that the master knows of. *)
Record shared := mk_shared { lock : Z; wait : Z; sem : Z; reaped : list nat }.

(** [mtx->spin] and [mtx->semaphore], which was 0: a mutex that is only tried
    needs no semaphore; [sem_ok] is whether sem_init() succeeds. *)
Definition ngx_shmtx_create `{Platform} (spin : Z) (sem_ok : bool) : Z * bool :=
  if spin =? wrapu ptr_size (-1) then (spin, false) else (2048, sem_ok).

Section Code.
Context `{Platform}.
(** The process identifiers. *)
Variable pid : nat -> Z.
(** [mtx->spin] and [mtx->semaphore] after ngx_shmtx_create(). *)
Variables (ngx_ncpu spin : Z) (semaphore : bool).
(** Whether processes may die. *)
Variable mortal : bool.

(** What a process calls where it has a choice, and what may happen to it:
    a signal that interrupts sem_wait(), and its death. *)
Inductive event := Call_lock | Call_trylock | Call_unlock | Call_force (k : nat) | Interrupted | Die.

#[export] Instance event_eq_dec : EqDecision event.
Proof. solve_decision. Defined.

Inductive place :=
  | Out
  | Try_read | Try_cas
  | Lock_read (st : stage) | Lock_cas (st : stage)
  | Wait_add | Wait_read | Wait_cas | Wait_sub | Sem_wait
  | Held
  | Unlock_cas (held : bool) | Force_cas (k : nat)
  | Wake_read | Wake_cas (w : Z) | Sem_post
  | Dead.

#[export] Instance stage_eq_dec : EqDecision stage.
Proof. solve_decision. Defined.
#[export] Instance place_eq_dec : EqDecision place.
Proof. solve_decision. Defined.

Definition set_lock (v : Z) (s : shared) : shared := mk_shared v (wait s) (sem s) (reaped s).
Definition set_wait (v : Z) (s : shared) : shared := mk_shared (lock s) v (sem s) (reaped s).
Definition set_sem (v : Z) (s : shared) : shared := mk_shared (lock s) (wait s) v (reaped s).

Definition ngx_shmtx_trylock (i : nat) (s : shared) (p : place) : option (shared * place) :=
  match p with
  | Try_read => Some (s, if lock s =? 0 then Try_cas else Out)
  | Try_cas => if lock s =? 0 then Some (set_lock (pid i) s, Held) else Some (s, Out)
  | _ => None
  end.

(** After a try that failed. *)
Definition failed (st : stage) : place :=
  match next_stage ngx_ncpu spin st with
  | Some st => Lock_read st
  | None => if semaphore then Wait_add else Lock_read First
  end.

Definition ngx_shmtx_lock (i : nat) (e : event) (s : shared) (p : place) : option (shared * place) :=
  match p with
  | Lock_read st => Some (s, if lock s =? 0 then Lock_cas st else failed st)
  | Lock_cas st =>
      if lock s =? 0 then Some (set_lock (pid i) s, Held) else Some (s, failed st)
  | Wait_add => Some (set_wait (wrapu ptr_size (wait s + 1)) s, Wait_read)
  | Wait_read => Some (s, if lock s =? 0 then Wait_cas else Sem_wait)
  | Wait_cas =>
      if lock s =? 0 then Some (set_lock (pid i) s, Wait_sub) else Some (s, Sem_wait)
  | Wait_sub => Some (set_wait (wrapu ptr_size (wait s - 1)) s, Held)
  | Sem_wait =>
      if decide (e = Interrupted) then Some (s, Sem_wait)
      else if sem s >? 0 then Some (set_sem (sem s - 1) s, Lock_read First) else None
  | _ => None
  end.

Definition ngx_shmtx_wakeup (s : shared) (p : place) : option (shared * place) :=
  match p with
  | Wake_read =>
      Some (s, if negb semaphore then Out
               else if to_signed ptr_size (wait s) <=? 0 then Out else Wake_cas (wait s))
  | Wake_cas w =>
      if wait s =? w then Some (set_wait (wrapu ptr_size (w - 1)) s, Sem_post) else Some (s, Wake_read)
  | Sem_post => Some (set_sem (sem s + 1) s, Out)
  | _ => None
  end.

Definition ngx_shmtx_unlock (i : nat) (s : shared) : shared * place :=
  if lock s =? pid i then (set_lock 0 s, Wake_read) else (s, Out).

Definition ngx_shmtx_force_unlock (k : nat) (s : shared) : shared * place :=
  if lock s =? pid k then (set_lock 0 s, Wake_read) else (s, Out).

(** A call from outside, or of the holder. *)
Definition call (e : event) (s : shared) : option place :=
  match e with
  | Call_lock => Some (Lock_read First)
  | Call_trylock => Some Try_read
  | Call_unlock => Some (Unlock_cas false)
  | Call_force k => if bool_decide (k ∈ reaped s) then Some (Force_cas k) else None
  | _ => None
  end.

Definition run (i : nat) (e : event) (s : shared) (p : place) : option (shared * place) :=
  match p with
  | Out => match call e s with Some p => Some (s, p) | None => None end
  | Held => match e with Call_unlock => Some (s, Unlock_cas true) | _ => None end
  | Try_read | Try_cas => ngx_shmtx_trylock i s p
  | Lock_read _ | Lock_cas _ | Wait_add | Wait_read | Wait_cas | Wait_sub | Sem_wait => ngx_shmtx_lock i e s p
  | Unlock_cas _ => Some (ngx_shmtx_unlock i s)
  | Force_cas k => Some (ngx_shmtx_force_unlock k s)
  | Wake_read | Wake_cas _ | Sem_post => ngx_shmtx_wakeup s p
  | Dead => None
  end.

Definition die (i : nat) (s : shared) (p : place) : option (shared * place) :=
  match p with
  | Dead => None
  | _ => if mortal then Some (mk_shared (lock s) (wait s) (sem s) (i :: reaped s), Dead) else None
  end.

Definition tick (i : nat) (e : event) (s : shared) (p : place) : option (shared * place) :=
  if decide (e = Die) then die i s p else run i e s p.

Definition init (n : nat) : shared * list place := (mk_shared 0 0 0 [], replicate n Out).

(** The processes that hold the lock. *)
Definition holds (p : place) : bool :=
  match p with Held | Wait_sub | Unlock_cas true => true | _ => false end.

(** The processes that are inside one of the functions: their next step is
    not a call. *)
Definition inside (p : place) : bool :=
  match p with Out | Held | Dead => false | _ => true end.

End Code.

(** All the steps. *)
Ltac ticks p e Ht :=
  unfold Shmtx.tick, die, run, call, ngx_shmtx_trylock, ngx_shmtx_lock, ngx_shmtx_wakeup, ngx_shmtx_unlock,
    ngx_shmtx_force_unlock, failed in Ht;
  destruct p; repeat case_match; simplify_eq; cbn -[Z.add Z.sub] in *; try done.

(** ** Mutual exclusion *)

Section Exclusion.
Context `{Platform}.
Variable pid : nat -> Z.
Variables (ngx_ncpu spin : Z) (semaphore mortal : bool).
Hypothesis pid_inj : forall i j, pid i = pid j -> i = j.
Hypothesis pid_pos : forall i, 0 < pid i.

Local Abbreviation tick := (tick pid ngx_ncpu spin semaphore mortal).

Record safe (w : shared * list place) : Prop := {
  safe_holds : forall i p, w.2 !! i = Some p -> holds p = true -> lock w.1 = pid i;
  safe_reaped : forall k, k ∈ reaped w.1 -> w.2 !! k = Some Dead;
  safe_force : forall i k, w.2 !! i = Some (Force_cas k) -> k ∈ reaped w.1
}.

Lemma init_safe n : safe (init n).
Proof.
  split; cbn.
  - intros i p Hi Hp. apply lookup_replicate in Hi as [-> _]. done.
  - by intros k ?%elem_of_nil.
  - intros i k Hi. apply lookup_replicate in Hi as [? _]. done.
Qed.

(** What a step does to the lock and to the processes that died. *)
Lemma tick_effect i e s p s' p' : tick i e s p = Some (s', p') ->
  p <> Dead /\
  (lock s' = lock s /\ (holds p' = true -> holds p = true) \/
   lock s = 0 /\ lock s' = pid i \/
   lock s = pid i /\ lock s' = 0 /\ holds p' = false \/
   exists k, p = Force_cas k /\ lock s = pid k /\ lock s' = 0 /\ holds p' = false) /\
  (reaped s' = reaped s \/ p' = Dead /\ reaped s' = i :: reaped s) /\
  (forall k, p' = Force_cas k -> k ∈ reaped s').
Proof.
  intros Ht. split; [intros ->; unfold Shmtx.tick in Ht; by case_match|]. ticks p e Ht;
    try (split_and!; [by left|by left|done]).
  all: split_and!; try done; try (by left); try (by right; split); rewrite ?Z.eqb_eq, ?bool_decide_eq_true in *.
  all: try (by right; left).
  all: try (by right; right; left).
  all: try (right; right; right; eexists; by split_and!).
  all: intros ? [= ->]; done.
Qed.

Lemma step_safe w w' : safe w -> step tick w w' -> safe w'.
Proof.
  intros [H1 H2 H3] Hstep. destruct Hstep as [s ps i p e s' p' Hi Ht]. cbn [fst snd] in *.
  destruct (tick_effect _ _ _ _ _ _ Ht) as (Hnd & Hl & Hr & Hf).
  assert (forall k, k ∈ reaped s -> k <> i) as Hki by (intros k Hk ->; apply H2 in Hk; congruence).
  split; cbn [fst snd].
  - intros j q Hj Hq. destruct (decide (i = j)) as [<-|Hne].
    + rewrite list_lookup_insert_eq in Hj by (by eapply lookup_lt_Some). simplify_eq.
      destruct Hl as [[-> Hh]|[[_ E]|[(_ & _ & ?)|(k & _ & _ & _ & ?)]]]; [|done|congruence..].
      apply (H1 i p); auto.
    + rewrite list_lookup_insert_ne in Hj by done. pose proof (H1 j q Hj Hq) as E. pose proof (pid_pos j).
      destruct Hl as [[-> _]|[[E' _]|[(E' & _ & _)|(k & -> & E' & _ & _)]]]; [done|lia| |].
      * rewrite E' in E. by apply pid_inj in E.
      * rewrite E' in E. apply pid_inj in E as ->. pose proof (H2 j (H3 i j Hi)). by simplify_eq.
  - intros k Hk. destruct Hr as [Hr|[-> Hr]]; rewrite Hr in Hk; [|apply elem_of_cons in Hk as [->|Hk]].
    + rewrite list_lookup_insert_ne; [auto|]. apply Hki in Hk. congruence.
    + apply list_lookup_insert_eq. by eapply lookup_lt_Some.
    + rewrite list_lookup_insert_ne; [auto|]. apply Hki in Hk. congruence.
  - intros j k Hj. destruct (decide (i = j)) as [<-|Hne].
    + rewrite list_lookup_insert_eq in Hj by (by eapply lookup_lt_Some). simplify_eq. by apply Hf.
    + rewrite list_lookup_insert_ne in Hj by done. apply H3 in Hj.
      destruct Hr as [->|[_ ->]]; [done|]. by apply elem_of_cons; right.
Qed.

End Exclusion.

(** ** Wakeups *)

Section Wakeups.
Context `{Platform}.
Variable pid : nat -> Z.
Variables (ngx_ncpu spin : Z) (semaphore : bool).
Hypothesis pid_inj : forall i j, pid i = pid j -> i = j.
Hypothesis pid_pos : forall i, 0 < pid i.

Local Abbreviation tick := (tick pid ngx_ncpu spin semaphore false).

(** The processes that count in [wait], that sleep, that wake others, that
    try to get the lock. *)
Definition waits (p : place) : bool :=
  match p with Wait_read | Wait_cas | Wait_sub | Sem_wait => true | _ => false end.
Definition sleeps (p : place) : bool := match p with Sem_wait => true | _ => false end.
Definition posts (p : place) : bool := match p with Sem_post => true | _ => false end.
Definition wakes (p : place) : bool :=
  match p with Wake_read | Wake_cas _ | Sem_post => true | _ => false end.
Definition competes (p : place) : bool :=
  match p with Lock_read _ | Lock_cas _ | Wait_add | Wait_read | Wait_cas => true | _ => false end.

Definition place_ok (p : place) : Prop :=
  match p with
  | Wake_cas w => 0 < to_signed ptr_size w
  | Wait_add | Wait_read | Wait_cas | Wait_sub | Sem_wait => semaphore = true
  | Dead | Force_cas _ => False
  | _ => True
  end.

(** [wait] is what is owed to the processes that wait: those that count in it
    less the posts made or about to be made; it may be negative. *)
Record awake (w : shared * list place) : Prop := {
  awake_wait : wait w.1 = wrapu ptr_size (count waits w.2 - count posts w.2 - sem w.1);
  awake_sem : 0 <= sem w.1 /\ count posts w.2 + sem w.1 <= Z.of_nat (length w.2);
  awake_places : Forall place_ok w.2;
  awake_small : Z.of_nat (length w.2) <= max_value ptr_size;
  awake_reaped : reaped w.1 = [];
  awake_held : lock w.1 = 0 \/ exists i p, w.2 !! i = Some p /\ holds p = true /\ lock w.1 = pid i;
  awake_chain : lock w.1 = 0 -> 0 < count sleeps w.2 ->
    0 < count wakes w.2 \/ 0 < sem w.1 \/ 0 < count competes w.2
}.

Lemma count_init p n : p Out = false -> count p (replicate n Out) = 0.
Proof. intros Hp. induction n as [|n IH]; cbn; [done|]. by rewrite Hp. Qed.

Lemma init_awake n : Z.of_nat n <= max_value ptr_size -> awake (init n).
Proof.
  intros Hn. split; cbn; rewrite ?length_replicate, ?count_init; try done; try lia.
  by apply Forall_replicate.
Qed.

Lemma signed_owed x : - max_value ptr_size - 1 <= x <= max_value ptr_size ->
  to_signed ptr_size (wrapu ptr_size x) = x.
Proof.
  intros Hx. unfold to_signed, wrapu. rewrite Z.mod_mod by (destruct ptr_size; done).
  rewrite max_value_bits in *. assert (2 ^ bits ptr_size = 2 * 2 ^ (bits ptr_size - 1)) as E by by destruct ptr_size.
  rewrite E in *. destruct (Z.leb_spec 0 x).
  - rewrite Z.mod_small by lia. rewrite (proj2 (Z.leb_le _ _)) by lia. done.
  - assert (x mod (2 * 2 ^ (bits ptr_size - 1)) = x + 2 * 2 ^ (bits ptr_size - 1)) as ->.
    { symmetry. apply (Z.mod_unique _ _ (-1)); lia. }
    rewrite (proj2 (Z.leb_gt _ _)) by lia. lia.
Qed.

Lemma wrapu_add a b : wrapu ptr_size (wrapu ptr_size a + b) = wrapu ptr_size (a + b).
Proof. unfold wrapu. apply Zplus_mod_idemp_l. Qed.

Lemma tick_places i e s p s' p' : place_ok p -> reaped s = [] -> tick i e s p = Some (s', p') ->
  place_ok p' /\ reaped s' = [].
Proof.
  intros Hp Hr Ht. ticks p e Ht; rewrite ?Hr in *; try done.
  all: split; [lia|done].
Qed.

(** What a step does to [wait] and the semaphore, and to what is owed. *)
Lemma tick_owed i e s p s' p' : place_ok p -> tick i e s p = Some (s', p') ->
  let d := Z.b2z (waits p') - Z.b2z (waits p) - (Z.b2z (posts p') - Z.b2z (posts p)) - (sem s' - sem s) in
  wait s' = wait s /\ d = 0 \/ wait s' = wrapu ptr_size (wait s + d).
Proof.
  intros Hp Ht. ticks p e Ht; try (left; split; [done|lia]).
  all: right; f_equal; lia.
Qed.

Lemma tick_sem i e s p s' p' : place_ok p -> tick i e s p = Some (s', p') -> 0 <= sem s ->
  0 <= sem s' /\ (Z.b2z (posts p') - Z.b2z (posts p) + (sem s' - sem s) <= 0 \/
    0 < to_signed ptr_size (wait s) /\ Z.b2z (posts p') - Z.b2z (posts p) + (sem s' - sem s) = 1 /\ waits p' = waits p).
Proof.
  intros Hp Ht Hs. ticks p e Ht; try lia.
  all: split; [lia|]; right; split_and!; [|lia|done]; by match goal with E : (wait _ =? _) = true |- _ =>
    apply Z.eqb_eq in E; rewrite E end.
Qed.

(** A process that stops trying leaves the lock taken; one that stops waking
    owes nothing or has posted. *)
Lemma tick_chain i e s p s' p' : place_ok p -> tick i e s p = Some (s', p') -> lock s' = 0 -> 0 <= sem s ->
  (competes p = true -> competes p' = true) /\
  (sleeps p' = true -> sleeps p = true) /\
  (sem s' < sem s -> competes p' = true) /\
  (lock s <> 0 -> wakes p' = true) /\
  (wakes p = true -> wakes p' = true \/ 0 < sem s' \/ semaphore = false \/
    to_signed ptr_size (wait s) <= 0 /\ posts p = false /\ sem s' = sem s).
Proof.
  intros Hp Ht Hl Hs. pose proof (pid_pos i) as Hi.
  ticks p e Ht;
    split_and!; intros; try done; try lia; auto.
  all: right; right; destruct semaphore; [right; split_and!; [lia|done..]|by left].
Qed.

Lemma tick_held i e s p s' p' : place_ok p -> tick i e s p = Some (s', p') ->
  lock s' = 0 \/ (lock s' = pid i /\ holds p' = true) \/
  (lock s' = lock s /\ (holds p = true -> lock s = pid i -> holds p' = true)).
Proof.
  intros Hp Ht. ticks p e Ht; auto.
  all: right; right; split; [done|]; lia.
Qed.

Lemma sleeps_waits ps : count sleeps ps <= count waits ps.
Proof. apply count_le. by intros []. Qed.

Lemma posts_wakes ps : count posts ps <= count wakes ps.
Proof. apply count_le. by intros []. Qed.

Lemma step_chain s ps i e p s' p' : ps !! i = Some p -> Forall place_ok ps -> tick i e s p = Some (s', p') ->
  0 <= sem s -> to_signed ptr_size (wait s) = count waits ps - count posts ps - sem s ->
  (lock s = 0 -> 0 < count sleeps ps -> 0 < count wakes ps \/ 0 < sem s \/ 0 < count competes ps) ->
  lock s' = 0 -> 0 < count sleeps (<[i := p']> ps) ->
  0 < count wakes (<[i := p']> ps) \/ 0 < sem s' \/ 0 < count competes (<[i := p']> ps).
Proof.
  intros Hi HP Ht Hs Hsg HC Hl Hsl. pose proof HP as HP'. rewrite Forall_forall in HP'.
  assert (place_ok p) as Hp by (eapply HP', list_elem_of_lookup_2; eauto).
  destruct (tick_chain _ _ _ _ _ _ Hp Ht Hl Hs) as (C1 & C2 & C3 & C5 & C6).
  pose proof (fun P => count_insert P ps i p p' Hi) as Hc.
  pose proof (sleeps_waits ps) as Hsw. pose proof (posts_wakes (<[i := p']> ps)) as Hpw.
  pose proof (count_bounds wakes ps) as Bk. pose proof (count_bounds competes ps) as Bc.
  pose proof (count_pos wakes ps i p Hi) as Pk. pose proof (count_pos competes ps i p Hi) as Pc.
  rewrite !Hc in *.
  assert (0 < count sleeps ps) as Hsl0 by (destruct (sleeps p'); cbn in Hsl; [rewrite C2 in Hsl by done; cbn in Hsl|]; lia).
  destruct (decide (lock s = 0)) as [E0|E0].
  2: { left. rewrite C5 by done. destruct (wakes p); cbn; [specialize (Pk eq_refl)|]; lia. }
  destruct (HC E0 Hsl0) as [Hk|[Hk|Hk]].
  - destruct (wakes p) eqn:Ew; [|left; destruct (wakes p'); cbn; lia].
    destruct C6 as [C6|[C6|[C6|(C6 & Cp & Cs)]]]; [done|left; rewrite C6; cbn; lia|by right; left| |].
    + exfalso. destruct (count_exists sleeps ps Hsl0) as (j & q & Hj & Hq).
      pose proof (HP' q (list_elem_of_lookup_2 _ _ _ Hj)) as Hqq. destruct q; try done. cbn in Hqq. congruence.
    + rewrite Cp in Hpw. destruct (posts p'); cbn in Hpw; lia.
  - destruct (Z.ltb_spec (sem s') (sem s)) as [Hlt|Hge]; [|lia]. right; right. rewrite C3 by done.
    destruct (competes p); cbn; [specialize (Pc eq_refl)|]; lia.
  - right; right. destruct (competes p); [rewrite C1 by done|]; cbn; [lia|]. destruct (competes p'); cbn; lia.
Qed.

Lemma step_awake w w' : awake w -> step tick w w' -> awake w'.
Proof.
  intros [H1 [H2 H2'] H3 H4 H5 H6 H7] Hstep. destruct Hstep as [s ps i p e s' p' Hi Ht]. cbn [fst snd] in *.
  assert (place_ok p) as Hp by (rewrite Forall_forall in H3; eapply H3, list_elem_of_lookup_2; eauto).
  destruct (tick_places _ _ _ _ _ _ Hp H5 Ht) as [Hp' Hr]. pose proof (tick_owed _ _ _ _ _ _ Hp Ht) as Ho.
  destruct (tick_sem _ _ _ _ _ _ Hp Ht H2) as [Hs Hs'].
  pose proof (fun P => count_insert P ps i p p' Hi) as Hc.
  pose proof (count_bounds waits ps) as Bw. pose proof (count_bounds posts ps) as Bp.
  assert (to_signed ptr_size (wait s) = count waits ps - count posts ps - sem s) as Hsg.
  { rewrite H1. apply signed_owed. lia. }
  split; cbn [fst snd]; rewrite ?length_insert; [| |by apply Forall_insert|done|done| |].
  - rewrite !Hc. destruct Ho as [[-> Hd]| ->]; rewrite H1, ?wrapu_add; f_equal; lia.
  - rewrite !Hc. split; [done|]. lia.
  - assert (<[i := p']> ps !! i = Some p') as Hi' by (apply list_lookup_insert_eq; by eapply lookup_lt_Some).
    destruct (tick_held _ _ _ _ _ _ Hp Ht) as [E|[[E Hh]|[E Hh]]]; [by left|right; by exists i, p'|].
    destruct H6 as [H6|(j & q & Hj & Hq & Hl)]; [left; congruence|right].
    destruct (decide (i = j)) as [<-|Hne].
    + simplify_eq. exists i, p'. split_and!; [done|auto|congruence].
    + exists j, q. rewrite list_lookup_insert_ne by done. split_and!; [done..|congruence].
  - intros Hl. eapply step_chain; eauto.
Qed.

(** *** A process that runs alone *)

Lemma tick_run i e s p : e <> Die -> tick i e s p = run pid ngx_ncpu spin semaphore i e s p.
Proof. intros He. unfold Shmtx.tick. by rewrite decide_False. Qed.

Lemma alone s ps i e p s' p' : (i < length ps)%nat -> inside p = true -> tick i e s p = Some (s', p') ->
  step_of tick inside (s, <[i := p]> ps) (s', <[i := p']> ps).
Proof.
  intros Hi Hp Ht. rewrite <-(list_insert_insert_eq ps i p' p). apply (step_of_tick _ _ _ _ _ p e); [|done..].
  by apply list_lookup_insert_eq.
Qed.

Lemma compete_gets s ps i p : lock s = 0 -> ps !! i = Some p -> competes p = true ->
  exists s' p', rtc (step_of tick inside) (s, ps) (s', <[i := p']> ps) /\ lock s' = pid i /\ holds p' = true.
Proof.
  intros Hl Hi Hp. pose proof (lookup_lt_Some _ _ _ Hi) as Hlt. replace (s, ps) with (s, <[i := p]> ps) by by rewrite list_insert_id.
  assert (forall s p, lock s = 0 -> (exists st, p = Lock_cas st) \/ p = Wait_cas ->
    exists s' p', rtc (step_of tick inside) (s, <[i := p]> ps) (s', <[i := p']> ps) /\ lock s' = pid i /\ holds p' = true) as Hcas.
  { intros s0 p0 E Hp0. exists (set_lock (pid i) s0), (if decide (p0 = Wait_cas) then Wait_sub else Held).
    destruct Hp0 as [[st ->]| ->]; (split; [|done]); apply rtc_once, (alone _ _ _ Call_lock); try done;
      rewrite tick_run by done; cbn; by rewrite E. }
  assert (forall s p p', lock s = 0 -> (p = Wait_read /\ p' = Wait_cas \/ exists st, p = Lock_read st /\ p' = Lock_cas st) ->
    step_of tick inside (s, <[i := p]> ps) (s, <[i := p']> ps)) as Hread.
  { intros s0 p0 p0' E [[-> ->]|(st & -> & ->)]; apply (alone _ _ _ Call_lock); try done; rewrite tick_run by done; cbn; by rewrite E. }
  destruct p; try done.
  - destruct (Hcas s (Lock_cas st) Hl) as (s' & p' & Hr & HH); [eauto|]. exists s', p'. split; [|done].
    eapply rtc_l; [|exact Hr]. apply Hread; [done|]. eauto.
  - eauto.
  - set (s1 := set_wait (wrapu ptr_size (wait s + 1)) s).
    destruct (Hcas s1 Wait_cas Hl) as (s' & p' & Hr & HH); [eauto|]. exists s', p'. split; [|done].
    eapply rtc_l; [apply (alone _ _ _ Call_lock); [done|done|by rewrite tick_run]|].
    eapply rtc_l; [|exact Hr]. apply Hread; [done|]. auto.
  - destruct (Hcas s Wait_cas Hl) as (s' & p' & Hr & HH); [eauto|]. exists s', p'. split; [|done].
    eapply rtc_l; [|exact Hr]. apply Hread; [done|]. auto.
  - eauto.
Qed.

Lemma waker_runs s ps i p : ps !! i = Some p -> wakes p = true -> 0 <= sem s ->
  exists s', rtc (step_of tick inside) (s, ps) (s', <[i := Out]> ps) /\ lock s' = lock s.
Proof.
  intros Hi Hp Hs. pose proof (lookup_lt_Some _ _ _ Hi) as Hlt. replace (s, ps) with (s, <[i := p]> ps) by by rewrite list_insert_id.
  assert (forall s, exists s', rtc (step_of tick inside) (s, <[i := Sem_post]> ps) (s', <[i := Out]> ps) /\ lock s' = lock s) as Hpost.
  { intros s0. eexists. split; [apply rtc_once, (alone _ _ _ Call_lock); [done|done|by rewrite tick_run]|done]. }
  assert (forall s, exists s', rtc (step_of tick inside) (s, <[i := Wake_read]> ps) (s', <[i := Out]> ps) /\ lock s' = lock s) as Hread.
  { intros s0. destruct (negb semaphore || (to_signed ptr_size (wait s0) <=? 0)) eqn:E.
    - exists s0. split; [|done]. apply rtc_once, (alone _ _ _ Call_lock); [done|done|].
      rewrite tick_run by done. cbn. do 2 f_equal. by destruct semaphore, (to_signed ptr_size (wait s0) <=? 0).
    - apply orb_false_iff in E as [E1 E2].
      destruct (Hpost (set_wait (wrapu ptr_size (wait s0 - 1)) s0)) as (s' & Hr & HH). exists s'. split; [|done].
      eapply rtc_l; [apply (alone s0 _ _ Call_lock Wake_read s0 (Wake_cas (wait s0))); [done|done|]|].
      { rewrite tick_run by done. cbn. by rewrite E1, E2. }
      eapply rtc_l; [|exact Hr]. apply (alone _ _ _ Call_lock); [done|done|]. rewrite tick_run by done. cbn. by rewrite Z.eqb_refl. }
  destruct p; try done; auto.
  destruct (wait s =? w) eqn:E.
  - destruct (Hpost (set_wait (wrapu ptr_size (w - 1)) s)) as (s' & Hr & HH). exists s'. split; [|done].
    eapply rtc_l; [|exact Hr]. apply (alone _ _ _ Call_lock); [done|done|]. rewrite tick_run by done. cbn. by rewrite E.
  - destruct (Hread s) as (s' & Hr & HH). exists s'. split; [|done].
    eapply rtc_l; [|exact Hr]. apply (alone _ _ _ Call_lock); [done|done|]. rewrite tick_run by done. cbn. by rewrite E.
Qed.

Lemma inside_awake w w' : awake w -> rtc (step_of tick inside) w w' -> awake w'.
Proof. intros Hw Hr. induction Hr; eauto using step_awake, step_of_step. Qed.

(** Somebody who waits gets a free lock, by the steps of processes that are
    already inside the functions. *)
Lemma free_taken s ps : awake (s, ps) -> lock s = 0 -> 0 < count sleeps ps + count competes ps ->
  exists s' ps' i p p', rtc (step_of tick inside) (s, ps) (s', ps') /\
    ps !! i = Some p /\ sleeps p || competes p = true /\ ps' !! i = Some p' /\ holds p' = true.
Proof.
  remember (Z.to_nat (count wakes ps)) as n eqn:Hn. revert s ps Hn.
  induction n as [n IH] using lt_wf_ind. intros s ps Hn HA Hl Hc.
  destruct (decide (0 < count competes ps)) as [Hcp|Hcp].
  { destruct (count_exists _ _ Hcp) as (i & p & Hi & Hp).
    destruct (compete_gets s ps i p Hl Hi Hp) as (s' & p' & Hr & _ & Hh).
    exists s', (<[i := p']> ps), i, p, p'. rewrite list_lookup_insert_eq by by eapply lookup_lt_Some.
    split_and!; try done. by rewrite Hp, orb_true_r. }
  pose proof (count_bounds competes ps) as Bc. assert (0 < count sleeps ps) as Hsl by lia.
  pose proof (awake_sem _ HA) as [Hs0 _]. cbn in Hs0.
  destruct (awake_chain _ HA Hl Hsl) as [Hk|[Hk|Hk]]; cbn [fst snd] in Hk; [| |done].
  - destruct (count_exists _ _ Hk) as (j & q & Hj & Hq).
    destruct (waker_runs s ps j q Hj Hq Hs0) as (s1 & Hr & Hl1).
    assert (awake (s1, <[j := Out]> ps)) as HA1 by (eapply inside_awake; eassumption).
    pose proof (fun P => count_insert P ps j q Out Hj) as Hci. pose proof (count_bounds wakes ps) as Bk.
    assert (sleeps q = false /\ competes q = false) as [Hq1 Hq2] by by destruct q.
    destruct (IH (Z.to_nat (count wakes (<[j := Out]> ps))) ltac:(rewrite Hci, Hq; cbn; lia) s1 (<[j := Out]> ps) eq_refl HA1)
      as (s' & ps' & i & p & p' & Hr' & Hi & Hp & HH); [congruence|rewrite !Hci, Hq1, Hq2; cbn; lia|].
    exists s', ps', i, p, p'. split; [by etrans|]. split; [|done].
    destruct (decide (j = i)) as [<-|Hne]; [|by rewrite list_lookup_insert_ne in Hi].
    rewrite list_lookup_insert_eq in Hi by by eapply lookup_lt_Some. by simplify_eq.
  - destruct (count_exists _ _ Hsl) as (i & p & Hi & Hp). destruct p; try done. cbn in Hk.
    pose proof (lookup_lt_Some _ _ _ Hi) as Hlt.
    destruct (compete_gets (set_sem (sem s - 1) s) (<[i := Lock_read First]> ps) i (Lock_read First))
      as (s' & p' & Hr & _ & Hh); [done|by apply list_lookup_insert_eq|done|].
    rewrite list_insert_insert_eq in Hr. exists s', (<[i := p']> ps), i, Sem_wait, p'.
    rewrite list_lookup_insert_eq by done. split_and!; try done. eapply rtc_l; [|exact Hr].
    apply (step_of_tick _ _ _ _ _ Sem_wait Call_lock); [done|done|]. rewrite tick_run by done. cbn.
    by rewrite decide_False, (proj2 (Z.gtb_lt _ _)) by (done || lia).
Qed.

End Wakeups.

(** C38: Mutexes in shared memory exclude: however the processes interleave,
    whatever calls they make, also when processes die anywhere and the master
    releases the locks of dead processes with ngx_shmtx_force_unlock(), at
    most one process holds the lock, and the word is its identifier. *)
Theorem shmtx_excludes `{Platform} pid ncpu spin semaphore n s ps :
  (forall i j, pid i = pid j -> i = j) -> (forall i, 0 < pid i) ->
  rtc (step (tick pid ncpu spin semaphore true)) (init n) (s, ps) ->
  forall i j p q, ps !! i = Some p -> ps !! j = Some q -> holds p = true -> holds q = true ->
    i = j /\ lock s = pid i.
Proof.
  intros Hinj Hpos Hr.
  assert (safe pid (s, ps)) as [H1 _ _].
  { eapply invariant_reach; [|apply (init_safe pid n)|exact Hr]. intros. by eapply step_safe. }
  intros i j p q Hi Hj Hp Hq. pose proof (H1 i p Hi Hp) as Ei. pose proof (H1 j q Hj Hq) as Ej. cbn in Ei, Ej.
  split; [|done]. apply Hinj. congruence.
Qed.

(** C37: Wakeups are not lost: in every state that living processes can reach,
    if the lock is free and a process sleeps on the semaphore or tries to get
    the lock, then some such process gets it by steps of processes that are
    inside the functions only ([step_of ... inside]): no process outside, and
    none that got the lock, makes a call on the way.  A lock that is not free
    is held by a process. *)
Theorem shmtx_wakes `{Platform} pid ncpu spin semaphore n s ps :
  (forall i j, pid i = pid j -> i = j) -> (forall i, 0 < pid i) -> Z.of_nat n <= max_value ptr_size ->
  rtc (step (tick pid ncpu spin semaphore false)) (init n) (s, ps) ->
  (lock s = 0 -> 0 < count sleeps ps + count competes ps ->
     exists s' ps' i p p', rtc (step_of (tick pid ncpu spin semaphore false) inside) (s, ps) (s', ps') /\
       ps !! i = Some p /\ sleeps p || competes p = true /\ ps' !! i = Some p' /\ holds p' = true) /\
  (lock s <> 0 -> exists i p, ps !! i = Some p /\ holds p = true /\ lock s = pid i).
Proof.
  intros Hinj Hpos Hn Hr.
  assert (awake pid semaphore (s, ps)) as HA.
  { eapply invariant_reach; [|apply (init_awake pid semaphore n Hn)|exact Hr]. intros. by eapply step_awake. }
  split; [by apply free_taken|]. intros Hl. by destruct (awake_held _ _ _ HA).
Qed.

(** Two processes, one processor: the second one sleeps while the first one
    holds the lock, which is then released. *)
Definition sample_pid (i : nat) : Z := Z.of_nat i + 1.
Local Abbreviation sample_tick := (tick (H := lp64) sample_pid 1 2048 true).

Lemma sample_inj i j : sample_pid i = sample_pid j -> i = j.
Proof. unfold sample_pid. lia. Defined.

Lemma sample_pos i : 0 < sample_pid i.
Proof. unfold sample_pid. lia. Defined.

Lemma shmtx_excludes_witness :
  exists s ps, rtc (step (sample_tick true)) (init 2) (s, ps) /\ ps !! 0%nat = Some Held /\
    ps !! 1%nat = Some Sem_wait /\ lock s = sample_pid 0.
Proof.
  assert (rtc (step (sample_tick true)) (init 2) (mk_shared 1 1 0 [], [Held; Sem_wait])) as Hr.
  { turn 0%nat Call_lock. turn 0%nat Call_lock. turn 0%nat Call_lock. turn 1%nat Call_lock.
    turn 1%nat Call_lock. turn 1%nat Call_lock. turn 1%nat Call_lock. reflexivity. }
  eexists _, _. split; [exact Hr|]. split; [reflexivity|]. split; [reflexivity|].
  exact (proj2 (shmtx_excludes sample_pid 1 2048 true 2 _ _ sample_inj sample_pos Hr 0 0 Held Held
    eq_refl eq_refl eq_refl eq_refl)).
Defined.

Lemma shmtx_wakes_witness :
  exists s' ps' i p p', rtc (step_of (sample_tick false) inside) (mk_shared 0 1 0 [], [Wake_read; Sem_wait]) (s', ps') /\
    [Wake_read; Sem_wait] !! i = Some p /\ sleeps p || competes p = true /\ ps' !! i = Some p' /\ holds p' = true.
Proof.
  assert (rtc (step (sample_tick false)) (init 2) (mk_shared 0 1 0 [], [Wake_read; Sem_wait])) as Hr.
  { turn 0%nat Call_lock. turn 0%nat Call_lock. turn 0%nat Call_lock. turn 1%nat Call_lock.
    turn 1%nat Call_lock. turn 1%nat Call_lock. turn 1%nat Call_lock.
    turn 0%nat Call_unlock. turn 0%nat Call_unlock. reflexivity. }
  assert (Z.of_nat 2 <= max_value (@ptr_size lp64)) as Hn by by vm_compute.
  apply (shmtx_wakes sample_pid 1 2048 true 2 _ _ sample_inj sample_pos Hn Hr); [reflexivity|by vm_compute].
Defined.

End Shmtx.
