(* ===== verification/NgxQuicTransport.v ===== *)
(** * Frames of QUIC

    The integers of variable length of
    [src/event/quic/ngx_event_quic_transport.c], the frames that it parses and
    creates, and the truncated packet numbers, which are written by
    ngx_quic_set_packet_number() of [ngx_event_quic_output.c] and read by
    ngx_quic_parse_pn() of [ngx_event_quic_protection.c].  A frame is created
    twice, for its length and for its bytes; the chain of buffers with its
    data is the list of their bytes. *)

From Stdlib Require Import ZArith Lia ZifyBool.
From stdpp Require Import base option tactics list.
From S2P Require Import Prelude.

Local Open Scope Z_scope.

Module QuicTransport.

(** [uint64_t] *)
Definition u64 (x : Z) : Z := x mod 2 ^ 64.
Definition u8 (x : Z) : Z := x mod 2 ^ 8.

(** ** Integers of variable length *)

Fixpoint int_loop (n : nat) (value : Z) (p : list Z) : option (Z * list Z) :=
  match n with
  | O => Some (value, p)
  | S n => match p with [] => None | b :: p => int_loop n (u64 (Z.shiftl value 8) + b) p end
  end.

Definition ngx_quic_parse_int (p : list Z) : option (Z * list Z) :=
  match p with
  | [] => None
  | b :: p =>
      let len := Z.shiftl 1 (Z.shiftr b 6) in
      if zlen p <? len - 1 then None else int_loop (Z.to_nat (len - 1)) (Z.land b 0x3f) p
  end.

Definition ngx_quic_varint_len (value : Z) : Z :=
  if value <? Z.shiftl 1 6 then 1
  else if value <? Z.shiftl 1 14 then 2
  else if value <? Z.shiftl 1 30 then 4
  else 8.

Definition ngx_quic_build_int_set (value len bits : Z) : Z :=
  u8 (Z.lor (Z.land (Z.shiftr value (len * 8)) 0xff) (Z.shiftl bits 6)).

Definition ngx_quic_build_int (value : Z) : list Z :=
  if value <? Z.shiftl 1 6 then [ngx_quic_build_int_set value 0 0]
  else if value <? Z.shiftl 1 14 then [ngx_quic_build_int_set value 1 1; ngx_quic_build_int_set value 0 0]
  else if value <? Z.shiftl 1 30 then
    [ngx_quic_build_int_set value 3 2; ngx_quic_build_int_set value 2 0;
     ngx_quic_build_int_set value 1 0; ngx_quic_build_int_set value 0 0]
  else
    [ngx_quic_build_int_set value 7 3; ngx_quic_build_int_set value 6 0;
     ngx_quic_build_int_set value 5 0; ngx_quic_build_int_set value 4 0;
     ngx_quic_build_int_set value 3 0; ngx_quic_build_int_set value 2 0;
     ngx_quic_build_int_set value 1 0; ngx_quic_build_int_set value 0 0].

Definition ngx_quic_read_uint8 (p : list Z) : option (Z * list Z) :=
  match p with [] => None | b :: p => Some (b, p) end.

Definition ngx_quic_read_bytes (p : list Z) (len : Z) : option (list Z * list Z) :=
  if zlen p <? len then None else Some (take (Z.to_nat len) p, drop (Z.to_nat len) p).

Definition ngx_quic_copy_bytes (p : list Z) (len : Z) : option (list Z * list Z) :=
  if zlen p <? len then None else Some (take (Z.to_nat len) p, drop (Z.to_nat len) p).

(** ** Frames *)

Definition NGX_QUIC_FT_PADDING : Z := 0x00.
Definition NGX_QUIC_FT_PING : Z := 0x01.
Definition NGX_QUIC_FT_ACK : Z := 0x02.
Definition NGX_QUIC_FT_ACK_ECN : Z := 0x03.
Definition NGX_QUIC_FT_RESET_STREAM : Z := 0x04.
Definition NGX_QUIC_FT_STOP_SENDING : Z := 0x05.
Definition NGX_QUIC_FT_CRYPTO : Z := 0x06.
Definition NGX_QUIC_FT_NEW_TOKEN : Z := 0x07.
Definition NGX_QUIC_FT_STREAM : Z := 0x08.
Definition NGX_QUIC_FT_STREAM7 : Z := 0x0f.
Definition NGX_QUIC_FT_MAX_DATA : Z := 0x10.
Definition NGX_QUIC_FT_MAX_STREAM_DATA : Z := 0x11.
Definition NGX_QUIC_FT_MAX_STREAMS : Z := 0x12.
Definition NGX_QUIC_FT_MAX_STREAMS2 : Z := 0x13.
Definition NGX_QUIC_FT_DATA_BLOCKED : Z := 0x14.
Definition NGX_QUIC_FT_STREAM_DATA_BLOCKED : Z := 0x15.
Definition NGX_QUIC_FT_STREAMS_BLOCKED : Z := 0x16.
Definition NGX_QUIC_FT_STREAMS_BLOCKED2 : Z := 0x17.
Definition NGX_QUIC_FT_NEW_CONNECTION_ID : Z := 0x18.
Definition NGX_QUIC_FT_RETIRE_CONNECTION_ID : Z := 0x19.
Definition NGX_QUIC_FT_PATH_CHALLENGE : Z := 0x1a.
Definition NGX_QUIC_FT_PATH_RESPONSE : Z := 0x1b.
Definition NGX_QUIC_FT_CONNECTION_CLOSE : Z := 0x1c.
Definition NGX_QUIC_FT_CONNECTION_CLOSE_APP : Z := 0x1d.
Definition NGX_QUIC_FT_HANDSHAKE_DONE : Z := 0x1e.
Definition NGX_QUIC_FT_LAST : Z := NGX_QUIC_FT_HANDSHAKE_DONE.

Definition NGX_QUIC_STREAM_FRAME_FIN : Z := 0x01.
Definition NGX_QUIC_STREAM_FRAME_LEN : Z := 0x02.
Definition NGX_QUIC_STREAM_FRAME_OFF : Z := 0x04.

Definition NGX_QUIC_ERR_FRAME_ENCODING_ERROR : Z := 0x07.
Definition NGX_QUIC_ERR_PROTOCOL_VIOLATION : Z := 0x0a.

Definition NGX_QUIC_CID_LEN_MAX : Z := 20.
Definition NGX_QUIC_SR_TOKEN_LEN : Z := 16.

Record ack_frame := mk_ack {
  largest : Z; delay : Z; range_count : Z; first_range : Z;
  ect0 : Z; ect1 : Z; ce : Z; ranges_length : Z
}.

(** The union [u] of [ngx_quic_frame_s]; [U_none] is one that is not used. *)
Inductive frame_u :=
  | U_none
  | U_ack (a : ack_frame)
  | U_crypto (offset length : Z)
  | U_ncid (seqnum retire len : Z) (cid srt : list Z)
  | U_token (length : Z)
  | U_stream (stream_id offset length : Z) (off len fin : bool)
  | U_max_data (max_data : Z)
  | U_close (error_code frame_type : Z) (reason : list Z)
  | U_reset_stream (id error_code final_size : Z)
  | U_stop_sending (id error_code : Z)
  | U_streams_blocked (limit : Z) (bidi : bool)
  | U_max_streams (limit : Z) (bidi : bool)
  | U_max_stream_data (id limit : Z)
  | U_data_blocked (limit : Z)
  | U_stream_data_blocked (id limit : Z)
  | U_retire_cid (sequence_number : Z)
  | U_path_challenge (data : list Z)
  | U_path_response (data : list Z).

Record frame := mk_frame { type : Z; u : frame_u; data : list Z }.

(** ** The frames of a packet *)

Definition NGX_QUIC_PKT_LONG : Z := 0x80.
Definition NGX_QUIC_PKT_TYPE : Z := 0x30.
Definition NGX_QUIC_PKT_INITIAL : Z := 0x00.
Definition NGX_QUIC_PKT_HANDSHAKE : Z := 0x20.

Definition ngx_quic_frame_masks : list Z :=
  [0xf; 0xf; 0xd; 0xd; 0x3; 0x3; 0xd; 0x0;
   0x3; 0x3; 0x3; 0x3; 0x3; 0x3; 0x3; 0x3;
   0x3; 0x3; 0x3; 0x3; 0x3; 0x3; 0x3; 0x3;
   0x3; 0x3; 0x3; 0x1; 0xf; 0x3; 0x0].

(** [flags] is the first byte of the packet. *)
Definition ngx_quic_frame_allowed (flags frame_type : Z) : Z :=
  let ptype :=
    if negb (Z.land flags NGX_QUIC_PKT_LONG =? 0) then
      if Z.land flags NGX_QUIC_PKT_TYPE =? NGX_QUIC_PKT_INITIAL then 8
      else if Z.land flags NGX_QUIC_PKT_TYPE =? NGX_QUIC_PKT_HANDSHAKE then 4
      else 2
    else 1 in
  if negb (Z.land ptype (nth (Z.to_nat frame_type) ngx_quic_frame_masks 0) =? 0) then NGX_OK else NGX_DECLINED.

(** ** Parsing

    What ngx_quic_parse_frame() returns: the length and the frame, or
    NGX_ERROR, with [pkt->error] when it is set. *)
Inductive parsed :=
  | Frame (len : Z) (f : frame)
  | Frame_error (err : option Z).

(** The body of the switch: [goto error], the default case, or the frame and
    what is left of the packet. *)
Inductive fields := Encoding_error | Unknown_type | Fields (f : frame) (p : list Z).

Notation "'let*' ( x , p ) := e 'in' k" :=
  (match e with None => Encoding_error | Some (x, p) => k end)
  (at level 10, x name, p name, e at level 200, k at level 200).

(** The ranges of an ACK frame, whose values are ignored; each takes two
    bytes at least, so that the length of the packet bounds the iterations. *)
Fixpoint skip_ranges (fuel : nat) (count : Z) (p : list Z) : option (list Z) :=
  if count =? 0 then Some p
  else
    match fuel with
    | O => None
    | S fuel =>
        match ngx_quic_parse_int p with
        | None => None
        | Some (_, p) =>
            match ngx_quic_parse_int p with
            | None => None
            | Some (_, p) => skip_ranges fuel (count - 1) p
            end
        end
    end.

Fixpoint skip_padding (p : list Z) : list Z :=
  match p with b :: q => if b =? NGX_QUIC_FT_PADDING then skip_padding q else p | [] => [] end.

(** The fields of a frame that was zeroed. *)
Definition parse_fields (t : Z) (p : list Z) : fields :=
  if t =? NGX_QUIC_FT_CRYPTO then
    let* (offset, p) := ngx_quic_parse_int p in
    let* (len, p) := ngx_quic_parse_int p in
    let* (d, p) := ngx_quic_read_bytes p len in
    Fields (mk_frame t (U_crypto offset len) d) p
  else if t =? NGX_QUIC_FT_PADDING then Fields (mk_frame t U_none []) (skip_padding p)
  else if (t =? NGX_QUIC_FT_ACK) || (t =? NGX_QUIC_FT_ACK_ECN) then
    let* (lg, p) := ngx_quic_parse_int p in
    let* (dl, p) := ngx_quic_parse_int p in
    let* (rc, p) := ngx_quic_parse_int p in
    let* (fr, p) := ngx_quic_parse_int p in
    match skip_ranges (length p) rc p with
    | None => Encoding_error
    | Some q =>
        let rl := zlen p - zlen q in
        let d := take (Z.to_nat rl) p in
        if t =? NGX_QUIC_FT_ACK_ECN then
          let* (e0, q) := ngx_quic_parse_int q in
          let* (e1, q) := ngx_quic_parse_int q in
          let* (c, q) := ngx_quic_parse_int q in
          Fields (mk_frame t (U_ack (mk_ack lg dl rc fr e0 e1 c rl)) d) q
        else Fields (mk_frame t (U_ack (mk_ack lg dl rc fr 0 0 0 rl)) d) q
    end
  else if t =? NGX_QUIC_FT_PING then Fields (mk_frame t U_none []) p
  else if t =? NGX_QUIC_FT_NEW_CONNECTION_ID then
    let* (seqnum, p) := ngx_quic_parse_int p in
    let* (retire, p) := ngx_quic_parse_int p in
    if retire >? seqnum then Encoding_error
    else
      let* (len, p) := ngx_quic_read_uint8 p in
      if (len <? 1) || (len >? NGX_QUIC_CID_LEN_MAX) then Encoding_error
      else
        let* (cid, p) := ngx_quic_copy_bytes p len in
        let* (srt, p) := ngx_quic_copy_bytes p NGX_QUIC_SR_TOKEN_LEN in
        Fields (mk_frame t (U_ncid seqnum retire len cid srt) []) p
  else if t =? NGX_QUIC_FT_RETIRE_CONNECTION_ID then
    let* (sn, p) := ngx_quic_parse_int p in
    Fields (mk_frame t (U_retire_cid sn) []) p
  else if (t =? NGX_QUIC_FT_CONNECTION_CLOSE) || (t =? NGX_QUIC_FT_CONNECTION_CLOSE_APP) then
    let* (ec, p) := ngx_quic_parse_int p in
    let* (ft, p) := (if t =? NGX_QUIC_FT_CONNECTION_CLOSE then ngx_quic_parse_int p else Some (0, p)) in
    let* (len, p) := ngx_quic_parse_int p in
    let* (reason, p) := ngx_quic_read_bytes p len in
    Fields (mk_frame t (U_close ec ft reason) []) p
  else if (t >=? NGX_QUIC_FT_STREAM) && (t <=? NGX_QUIC_FT_STREAM7) then
    let fin := negb (Z.land t NGX_QUIC_STREAM_FRAME_FIN =? 0) in
    let off := negb (Z.land t NGX_QUIC_STREAM_FRAME_OFF =? 0) in
    let has_len := negb (Z.land t NGX_QUIC_STREAM_FRAME_LEN =? 0) in
    let* (id, p) := ngx_quic_parse_int p in
    let* (offset, p) := (if off then ngx_quic_parse_int p else Some (0, p)) in
    let* (len, p) := (if has_len then ngx_quic_parse_int p else Some (zlen p, p)) in
    let* (d, p) := ngx_quic_read_bytes p len in
    Fields (mk_frame NGX_QUIC_FT_STREAM (U_stream id offset len off has_len fin) d) p
  else if t =? NGX_QUIC_FT_MAX_DATA then
    let* (v, p) := ngx_quic_parse_int p in
    Fields (mk_frame t (U_max_data v) []) p
  else if t =? NGX_QUIC_FT_RESET_STREAM then
    let* (id, p) := ngx_quic_parse_int p in
    let* (ec, p) := ngx_quic_parse_int p in
    let* (fs, p) := ngx_quic_parse_int p in
    Fields (mk_frame t (U_reset_stream id ec fs) []) p
  else if t =? NGX_QUIC_FT_STOP_SENDING then
    let* (id, p) := ngx_quic_parse_int p in
    let* (ec, p) := ngx_quic_parse_int p in
    Fields (mk_frame t (U_stop_sending id ec) []) p
  else if (t =? NGX_QUIC_FT_STREAMS_BLOCKED) || (t =? NGX_QUIC_FT_STREAMS_BLOCKED2) then
    let* (limit, p) := ngx_quic_parse_int p in
    if limit >? 0x1000000000000000 then Encoding_error
    else Fields (mk_frame t (U_streams_blocked limit (t =? NGX_QUIC_FT_STREAMS_BLOCKED)) []) p
  else if (t =? NGX_QUIC_FT_MAX_STREAMS) || (t =? NGX_QUIC_FT_MAX_STREAMS2) then
    let* (limit, p) := ngx_quic_parse_int p in
    if limit >? 0x1000000000000000 then Encoding_error
    else Fields (mk_frame t (U_max_streams limit (t =? NGX_QUIC_FT_MAX_STREAMS)) []) p
  else if t =? NGX_QUIC_FT_MAX_STREAM_DATA then
    let* (id, p) := ngx_quic_parse_int p in
    let* (limit, p) := ngx_quic_parse_int p in
    Fields (mk_frame t (U_max_stream_data id limit) []) p
  else if t =? NGX_QUIC_FT_DATA_BLOCKED then
    let* (limit, p) := ngx_quic_parse_int p in
    Fields (mk_frame t (U_data_blocked limit) []) p
  else if t =? NGX_QUIC_FT_STREAM_DATA_BLOCKED then
    let* (id, p) := ngx_quic_parse_int p in
    let* (limit, p) := ngx_quic_parse_int p in
    Fields (mk_frame t (U_stream_data_blocked id limit) []) p
  else if t =? NGX_QUIC_FT_PATH_CHALLENGE then
    let* (d, p) := ngx_quic_copy_bytes p 8 in
    Fields (mk_frame t (U_path_challenge d) []) p
  else if t =? NGX_QUIC_FT_PATH_RESPONSE then
    let* (d, p) := ngx_quic_copy_bytes p 8 in
    Fields (mk_frame t (U_path_response d) []) p
  else Unknown_type.

Definition ngx_quic_parse_frame (flags : Z) (start : list Z) : parsed :=
  match ngx_quic_parse_int start with
  | None => Frame_error (Some NGX_QUIC_ERR_FRAME_ENCODING_ERROR)
  | Some (varint, p) =>
      if varint >? NGX_QUIC_FT_LAST then Frame_error (Some NGX_QUIC_ERR_FRAME_ENCODING_ERROR)
      else if negb (ngx_quic_frame_allowed flags varint =? NGX_OK) then Frame_error (Some NGX_QUIC_ERR_PROTOCOL_VIOLATION)
      else
        match parse_fields varint p with
        | Encoding_error => Frame_error (Some NGX_QUIC_ERR_FRAME_ENCODING_ERROR)
        | Unknown_type => Frame_error None
        | Fields f p => Frame (zlen start - zlen p) f
        end
  end.

Definition ngx_quic_parse_ack_range (start : list Z) : option (Z * Z * list Z) :=
  match ngx_quic_parse_int start with
  | None => None
  | Some (gap, p) => match ngx_quic_parse_int p with None => None | Some (range, p) => Some (gap, range, p) end
  end.

(** ** Creation

    With [p == NULL] a function gives the length, else the bytes. *)

Definition ngx_quic_create_ack_range_len (gap range : Z) : Z := ngx_quic_varint_len gap + ngx_quic_varint_len range.
Definition ngx_quic_create_ack_range (gap range : Z) : list Z := ngx_quic_build_int gap ++ ngx_quic_build_int range.

Definition ngx_quic_create_ping_len : Z := ngx_quic_varint_len NGX_QUIC_FT_PING.
Definition ngx_quic_create_ping : list Z := ngx_quic_build_int NGX_QUIC_FT_PING.

Definition ngx_quic_create_ack_len (a : ack_frame) : Z :=
  ngx_quic_varint_len NGX_QUIC_FT_ACK + ngx_quic_varint_len (largest a) + ngx_quic_varint_len (delay a)
    + ngx_quic_varint_len (range_count a) + ngx_quic_varint_len (first_range a) + ranges_length a.
Definition ngx_quic_create_ack (a : ack_frame) (ranges : list Z) : list Z :=
  ngx_quic_build_int NGX_QUIC_FT_ACK ++ ngx_quic_build_int (largest a) ++ ngx_quic_build_int (delay a)
    ++ ngx_quic_build_int (range_count a) ++ ngx_quic_build_int (first_range a) ++ ranges.

Definition ngx_quic_create_reset_stream_len (id ec fs : Z) : Z :=
  ngx_quic_varint_len NGX_QUIC_FT_RESET_STREAM + ngx_quic_varint_len id + ngx_quic_varint_len ec + ngx_quic_varint_len fs.
Definition ngx_quic_create_reset_stream (id ec fs : Z) : list Z :=
  ngx_quic_build_int NGX_QUIC_FT_RESET_STREAM ++ ngx_quic_build_int id ++ ngx_quic_build_int ec ++ ngx_quic_build_int fs.

Definition ngx_quic_create_stop_sending_len (id ec : Z) : Z :=
  ngx_quic_varint_len NGX_QUIC_FT_STOP_SENDING + ngx_quic_varint_len id + ngx_quic_varint_len ec.
Definition ngx_quic_create_stop_sending (id ec : Z) : list Z :=
  ngx_quic_build_int NGX_QUIC_FT_STOP_SENDING ++ ngx_quic_build_int id ++ ngx_quic_build_int ec.

Definition ngx_quic_create_crypto_len (offset len : Z) : Z :=
  ngx_quic_varint_len NGX_QUIC_FT_CRYPTO + ngx_quic_varint_len offset + ngx_quic_varint_len len + len.
Definition ngx_quic_create_crypto (offset len : Z) (d : list Z) : list Z :=
  ngx_quic_build_int NGX_QUIC_FT_CRYPTO ++ ngx_quic_build_int offset ++ ngx_quic_build_int len ++ d.

Definition ngx_quic_create_hs_done_len : Z := ngx_quic_varint_len NGX_QUIC_FT_HANDSHAKE_DONE.
Definition ngx_quic_create_hs_done : list Z := ngx_quic_build_int NGX_QUIC_FT_HANDSHAKE_DONE.

Definition ngx_quic_create_new_token_len (len : Z) : Z := ngx_quic_varint_len NGX_QUIC_FT_NEW_TOKEN + ngx_quic_varint_len len + len.
Definition ngx_quic_create_new_token (len : Z) (d : list Z) : list Z :=
  ngx_quic_build_int NGX_QUIC_FT_NEW_TOKEN ++ ngx_quic_build_int len ++ d.

Definition stream_type (off len fin : bool) : Z :=
  let t := NGX_QUIC_FT_STREAM in
  let t := if off then Z.lor t NGX_QUIC_STREAM_FRAME_OFF else t in
  let t := if len then Z.lor t NGX_QUIC_STREAM_FRAME_LEN else t in
  if fin then Z.lor t NGX_QUIC_STREAM_FRAME_FIN else t.

Definition ngx_quic_create_stream_len (id offset len : Z) (off has_len fin : bool) : Z :=
  ngx_quic_varint_len (stream_type off has_len fin) + ngx_quic_varint_len id
    + (if off then ngx_quic_varint_len offset else 0) + (if has_len then ngx_quic_varint_len len else 0) + len.
Definition ngx_quic_create_stream (id offset len : Z) (off has_len fin : bool) (d : list Z) : list Z :=
  ngx_quic_build_int (stream_type off has_len fin) ++ ngx_quic_build_int id
    ++ (if off then ngx_quic_build_int offset else []) ++ (if has_len then ngx_quic_build_int len else []) ++ d.

Definition max_streams_type (bidi : bool) : Z := if bidi then NGX_QUIC_FT_MAX_STREAMS else NGX_QUIC_FT_MAX_STREAMS2.
Definition ngx_quic_create_max_streams_len (limit : Z) (bidi : bool) : Z :=
  ngx_quic_varint_len (max_streams_type bidi) + ngx_quic_varint_len limit.
Definition ngx_quic_create_max_streams (limit : Z) (bidi : bool) : list Z :=
  ngx_quic_build_int (max_streams_type bidi) ++ ngx_quic_build_int limit.

Definition ngx_quic_create_max_stream_data_len (id limit : Z) : Z :=
  ngx_quic_varint_len NGX_QUIC_FT_MAX_STREAM_DATA + ngx_quic_varint_len id + ngx_quic_varint_len limit.
Definition ngx_quic_create_max_stream_data (id limit : Z) : list Z :=
  ngx_quic_build_int NGX_QUIC_FT_MAX_STREAM_DATA ++ ngx_quic_build_int id ++ ngx_quic_build_int limit.

Definition ngx_quic_create_max_data_len (v : Z) : Z := ngx_quic_varint_len NGX_QUIC_FT_MAX_DATA + ngx_quic_varint_len v.
Definition ngx_quic_create_max_data (v : Z) : list Z := ngx_quic_build_int NGX_QUIC_FT_MAX_DATA ++ ngx_quic_build_int v.

(** [sizeof(pc->data)] is 8. *)
Definition ngx_quic_create_path_challenge_len : Z := ngx_quic_varint_len NGX_QUIC_FT_PATH_CHALLENGE + 8.
Definition ngx_quic_create_path_challenge (d : list Z) : list Z := ngx_quic_build_int NGX_QUIC_FT_PATH_CHALLENGE ++ d.

Definition ngx_quic_create_path_response_len : Z := ngx_quic_varint_len NGX_QUIC_FT_PATH_RESPONSE + 8.
Definition ngx_quic_create_path_response (d : list Z) : list Z := ngx_quic_build_int NGX_QUIC_FT_PATH_RESPONSE ++ d.

(** [cid] and [srt] are the bytes that are copied of the two arrays. *)
Definition ngx_quic_create_new_connection_id_len (seqnum retire len : Z) : Z :=
  ngx_quic_varint_len NGX_QUIC_FT_NEW_CONNECTION_ID + ngx_quic_varint_len seqnum + ngx_quic_varint_len retire
    + 1 + len + NGX_QUIC_SR_TOKEN_LEN.
Definition ngx_quic_create_new_connection_id (seqnum retire len : Z) (cid srt : list Z) : list Z :=
  ngx_quic_build_int NGX_QUIC_FT_NEW_CONNECTION_ID ++ ngx_quic_build_int seqnum ++ ngx_quic_build_int retire
    ++ [len] ++ take (Z.to_nat len) cid ++ take (Z.to_nat NGX_QUIC_SR_TOKEN_LEN) srt.

Definition ngx_quic_create_retire_connection_id_len (sn : Z) : Z :=
  ngx_quic_varint_len NGX_QUIC_FT_RETIRE_CONNECTION_ID + ngx_quic_varint_len sn.
Definition ngx_quic_create_retire_connection_id (sn : Z) : list Z :=
  ngx_quic_build_int NGX_QUIC_FT_RETIRE_CONNECTION_ID ++ ngx_quic_build_int sn.

Definition ngx_quic_create_close_len (t ec ft : Z) (reason : list Z) : Z :=
  ngx_quic_varint_len t + ngx_quic_varint_len ec
    + (if negb (t =? NGX_QUIC_FT_CONNECTION_CLOSE_APP) then ngx_quic_varint_len ft else 0)
    + ngx_quic_varint_len (zlen reason) + zlen reason.
Definition ngx_quic_create_close (t ec ft : Z) (reason : list Z) : list Z :=
  ngx_quic_build_int t ++ ngx_quic_build_int ec
    ++ (if negb (t =? NGX_QUIC_FT_CONNECTION_CLOSE_APP) then ngx_quic_build_int ft else [])
    ++ ngx_quic_build_int (zlen reason) ++ reason.

(** The switch of ngx_quic_create_frame() with the length and the bytes of
    each case; [None] is its NGX_ERROR, and also a union that was not set for
    the type. *)
Definition create (f : frame) : option (Z * list Z) :=
  let t := type f in
  if t =? NGX_QUIC_FT_PING then Some (ngx_quic_create_ping_len, ngx_quic_create_ping)
  else if t =? NGX_QUIC_FT_ACK then
    match u f with U_ack a => Some (ngx_quic_create_ack_len a, ngx_quic_create_ack a (data f)) | _ => None end
  else if t =? NGX_QUIC_FT_RESET_STREAM then
    match u f with U_reset_stream id ec fs => Some (ngx_quic_create_reset_stream_len id ec fs, ngx_quic_create_reset_stream id ec fs) | _ => None end
  else if t =? NGX_QUIC_FT_STOP_SENDING then
    match u f with U_stop_sending id ec => Some (ngx_quic_create_stop_sending_len id ec, ngx_quic_create_stop_sending id ec) | _ => None end
  else if t =? NGX_QUIC_FT_CRYPTO then
    match u f with U_crypto offset len => Some (ngx_quic_create_crypto_len offset len, ngx_quic_create_crypto offset len (data f)) | _ => None end
  else if t =? NGX_QUIC_FT_HANDSHAKE_DONE then Some (ngx_quic_create_hs_done_len, ngx_quic_create_hs_done)
  else if t =? NGX_QUIC_FT_NEW_TOKEN then
    match u f with U_token len => Some (ngx_quic_create_new_token_len len, ngx_quic_create_new_token len (data f)) | _ => None end
  else if t =? NGX_QUIC_FT_STREAM then
    match u f with U_stream id offset len off has_len fin => Some (ngx_quic_create_stream_len id offset len off has_len fin, ngx_quic_create_stream id offset len off has_len fin (data f)) | _ => None end
  else if (t =? NGX_QUIC_FT_CONNECTION_CLOSE) || (t =? NGX_QUIC_FT_CONNECTION_CLOSE_APP) then
    match u f with U_close ec ft reason => Some (ngx_quic_create_close_len t ec ft reason, ngx_quic_create_close t ec ft reason) | _ => None end
  else if t =? NGX_QUIC_FT_MAX_STREAMS then
    match u f with U_max_streams limit bidi => Some (ngx_quic_create_max_streams_len limit bidi, ngx_quic_create_max_streams limit bidi) | _ => None end
  else if t =? NGX_QUIC_FT_MAX_STREAM_DATA then
    match u f with U_max_stream_data id limit => Some (ngx_quic_create_max_stream_data_len id limit, ngx_quic_create_max_stream_data id limit) | _ => None end
  else if t =? NGX_QUIC_FT_MAX_DATA then
    match u f with U_max_data v => Some (ngx_quic_create_max_data_len v, ngx_quic_create_max_data v) | _ => None end
  else if t =? NGX_QUIC_FT_PATH_CHALLENGE then
    match u f with U_path_challenge d => Some (ngx_quic_create_path_challenge_len, ngx_quic_create_path_challenge d) | _ => None end
  else if t =? NGX_QUIC_FT_PATH_RESPONSE then
    match u f with U_path_response d => Some (ngx_quic_create_path_response_len, ngx_quic_create_path_response d) | _ => None end
  else if t =? NGX_QUIC_FT_NEW_CONNECTION_ID then
    match u f with U_ncid seqnum retire len cid srt => Some (ngx_quic_create_new_connection_id_len seqnum retire len, ngx_quic_create_new_connection_id seqnum retire len cid srt) | _ => None end
  else if t =? NGX_QUIC_FT_RETIRE_CONNECTION_ID then
    match u f with U_retire_cid sn => Some (ngx_quic_create_retire_connection_id_len sn, ngx_quic_create_retire_connection_id sn) | _ => None end
  else None.

Definition ngx_quic_create_frame_len (f : frame) : option Z := option_map fst (create f).
Definition ngx_quic_create_frame (f : frame) : option (list Z) := option_map snd (create f).

(** [f->need_ack] as ngx_quic_create_frame() sets it. *)
Definition need_ack (f : frame) : bool :=
  negb ((type f =? NGX_QUIC_FT_ACK) || (type f =? NGX_QUIC_FT_CONNECTION_CLOSE) || (type f =? NGX_QUIC_FT_CONNECTION_CLOSE_APP)).

(** ** Packet numbers *)

(** [num_len] and [trunc]. *)
Definition ngx_quic_set_packet_number (pnum largest_ack : Z) : Z * Z :=
  let delta := u64 (pnum - largest_ack) in
  if delta <=? 0x7f then (1, Z.land pnum 0xff)
  else if delta <=? 0x7fff then (2, Z.land pnum 0xffff)
  else if delta <=? 0x7fffff then (3, Z.land pnum 0xffffff)
  else (4, Z.land pnum 0xffffffff).

(** [int64_t] *)
Definition i64 (x : Z) : Z := if x <? 2 ^ 63 then x else x - 2 ^ 64.

Fixpoint pn_loop (p mask : list Z) (truncated : Z) : Z :=
  match p, mask with
  | b :: p, m :: mask => pn_loop p mask (u64 (u64 (Z.shiftl truncated 8) + Z.lxor b m))
  | _, _ => truncated
  end.

(** [len] bytes at [p], masked; the number and the new [*largest_pn]. *)
Definition ngx_quic_parse_pn (p mask : list Z) (largest_pn : Z) : Z * Z :=
  let pn_nbits := Z.min (zlen p * 8) 62 in
  let truncated_pn := pn_loop p mask 0 in
  let expected_pn := u64 (largest_pn + 1) in
  let pn_win := Z.shiftl 1 pn_nbits in
  let pn_hwin := pn_win / 2 in
  let pn_mask := pn_win - 1 in
  let candidate_pn := Z.lor (Z.land expected_pn (2 ^ 64 - 1 - pn_mask)) truncated_pn in
  let candidate_pn :=
    if (i64 candidate_pn <=? i64 (u64 (expected_pn - pn_hwin))) && (candidate_pn <? Z.shiftl 1 62 - pn_win)
    then u64 (candidate_pn + pn_win)
    else if (candidate_pn >? u64 (expected_pn + pn_hwin)) && (candidate_pn >=? pn_win)
    then candidate_pn - pn_win
    else candidate_pn in
  (candidate_pn, u64 (Z.max (i64 largest_pn) (i64 candidate_pn))).

(** The bytes of [trunc], with the protection of the header. *)
Definition write_pn (num_len trunc : Z) : list Z :=
  if num_len =? 1 then [u8 trunc]
  else if num_len =? 2 then [u8 (Z.shiftr trunc 8); u8 trunc]
  else if num_len =? 3 then [u8 (Z.shiftr trunc 16); u8 (Z.shiftr trunc 8); u8 trunc]
  else if num_len =? 4 then [u8 (Z.shiftr trunc 24); u8 (Z.shiftr trunc 16); u8 (Z.shiftr trunc 8); u8 trunc]
  else [].

(** [pnp[i] ^= mask[i + 1]] *)
Fixpoint protect (p mask : list Z) : list Z :=
  match p, mask with b :: p, m :: mask => Z.lxor b m :: protect p mask | _, _ => p end.

(** ** Headers of packets *)

Definition NGX_QUIC_PKT_FIXED_BIT : Z := 0x40.
Definition NGX_QUIC_PKT_ZRTT : Z := 0x10.
Definition NGX_QUIC_SERVER_CID_LEN : Z := 20.
Definition NGX_QUIC_MIN_INITIAL_SIZE : Z := 1200.
Definition ngx_quic_versions : list Z := [0x00000001].

Inductive level := Initial | Early_data | Handshake | Application.

(** The fields of [ngx_quic_header_t] that a header has; [len] is the length
    of the packet from its first byte. *)
Record header := mk_header { flags : Z; version : Z; dcid : list Z; scid : list Z; token : list Z; lvl : level; len : Z }.

(** NGX_OK with the header and the rest of the datagram, NGX_ABORT with the
    header of a version that is not supported, or another code. *)
Inductive header_result := Header (h : header) (p : list Z) | Header_abort (h : header) | Header_code (rc : Z).

Definition ngx_quic_write_uint32 (x : Z) : list Z := [u8 (Z.shiftr x 24); u8 (Z.shiftr x 16); u8 (Z.shiftr x 8); u8 x].

Definition ngx_quic_read_uint32 (p : list Z) : option (Z * list Z) :=
  match p with
  | a :: b :: c :: d :: p => Some (Z.lor (Z.lor (Z.shiftl a 24) (Z.shiftl b 16)) (Z.lor (Z.shiftl c 8) d), p)
  | _ => None
  end.

Definition ngx_quic_long_pkt (fl : Z) : bool := negb (Z.land fl NGX_QUIC_PKT_LONG =? 0).
Definition fixed_bit (fl : Z) : bool := negb (Z.land fl NGX_QUIC_PKT_FIXED_BIT =? 0).
Definition pkt_type (fl t : Z) : bool := Z.land fl NGX_QUIC_PKT_TYPE =? t.

Definition ngx_quic_parse_short_header (fl n : Z) (p : list Z) : header_result :=
  if negb (fixed_bit fl) then Header_code NGX_ERROR
  else
    match ngx_quic_read_bytes p NGX_QUIC_SERVER_CID_LEN with
    | None => Header_code NGX_ERROR
    | Some (d, p) => Header (mk_header fl 0 d [] [] Application n) p
    end.

(** The fields up to the source connection id. *)
Definition ngx_quic_parse_long_header (fl n : Z) (p : list Z) : header_result :=
  match ngx_quic_read_uint32 p with
  | None => Header_code NGX_ERROR
  | Some (ver, p) =>
      if negb (fixed_bit fl) then Header_code NGX_ERROR
      else
        match ngx_quic_read_uint8 p with
        | None => Header_code NGX_ERROR
        | Some (idlen, p) =>
            if idlen >? NGX_QUIC_CID_LEN_MAX then Header_code NGX_ERROR
            else
              match ngx_quic_read_bytes p idlen with
              | None => Header_code NGX_ERROR
              | Some (d, p) =>
                  match ngx_quic_read_uint8 p with
                  | None => Header_code NGX_ERROR
                  | Some (idlen, p) =>
                      if idlen >? NGX_QUIC_CID_LEN_MAX then Header_code NGX_ERROR
                      else
                        match ngx_quic_read_bytes p idlen with
                        | None => Header_code NGX_ERROR
                        | Some (sc, p) => Header (mk_header fl ver d sc [] Application n) p
                        end
                  end
              end
        end
  end.

Definition ngx_quic_supported_version (ver : Z) : bool := existsb (fun v => v =? ver) ngx_quic_versions.

(** [pkt->len] is the length of the datagram from the packet on before, and
    [size] the offset of [p] from [pkt->data]. *)
Definition parse_length (h : header) (tok : list Z) (lv : level) (n : Z) (p : list Z) : header_result :=
  match ngx_quic_parse_int p with
  | None => Header_code NGX_ERROR
  | Some (varint, p) =>
      let rest := zlen p in
      if varint >? rest then Header_code NGX_ERROR
      else Header (mk_header (flags h) (version h) (dcid h) (scid h) tok lv (n - rest + varint)) p
  end.

Definition ngx_quic_parse_long_header_v1 (h : header) (p : list Z) : header_result :=
  let fl := flags h in
  let n := len h in
  if pkt_type fl NGX_QUIC_PKT_INITIAL then
    if n <? NGX_QUIC_MIN_INITIAL_SIZE then Header_code NGX_DECLINED
    else
      match ngx_quic_parse_int p with
      | None => Header_code NGX_ERROR
      | Some (varint, p) =>
          match ngx_quic_read_bytes p varint with
          | None => Header_code NGX_ERROR
          | Some (tok, p) => parse_length h tok Initial n p
          end
      end
  else if pkt_type fl NGX_QUIC_PKT_ZRTT then parse_length h [] Early_data n p
  else if pkt_type fl NGX_QUIC_PKT_HANDSHAKE then parse_length h [] Handshake n p
  else Header_code NGX_DECLINED.

(** [p] are the bytes after the first one, [fl]. *)
Definition ngx_quic_parse_packet (fl : Z) (p : list Z) : header_result :=
  let n := 1 + zlen p in
  if negb (ngx_quic_long_pkt fl) then ngx_quic_parse_short_header fl n p
  else
    match ngx_quic_parse_long_header fl n p with
    | Header h p =>
        if negb (ngx_quic_supported_version (version h)) then Header_abort h
        else match ngx_quic_parse_long_header_v1 h p with Header h p => Header h p | _ => Header_code NGX_ERROR end
    | _ => Header_code NGX_ERROR
    end.

Section Create_header.
Variable tag_len : Z.    (* EVP_GCM_TLS_TAG_LEN *)

(** [num_len], [trunc] and the length of the payload belong to the packet. *)
Definition ngx_quic_create_long_header_len (h : header) (num_len payload : Z) : Z :=
  5 + 2 + zlen (dcid h) + zlen (scid h) + ngx_quic_varint_len (num_len + payload + tag_len) + num_len
    + (match lvl h with Initial => 1 | _ => 0 end).

Definition ngx_quic_create_long_header (h : header) (num_len trunc payload : Z) : list Z :=
  [u8 (flags h)] ++ ngx_quic_write_uint32 (version h) ++ [u8 (zlen (dcid h))] ++ dcid h ++ [u8 (zlen (scid h))] ++ scid h
    ++ (match lvl h with Initial => ngx_quic_build_int 0 | _ => [] end)
    ++ ngx_quic_build_int (num_len + payload + tag_len) ++ write_pn num_len trunc.

Definition ngx_quic_create_short_header_len (h : header) (num_len : Z) : Z := 1 + zlen (dcid h) + num_len.

Definition ngx_quic_create_short_header (h : header) (num_len trunc : Z) : list Z :=
  [u8 (flags h)] ++ dcid h ++ write_pn num_len trunc.

(** The payload that a packet of [pkt_len] bytes has room for. *)
Definition ngx_quic_payload_size (h : header) (num_len pkt_len : Z) : Z :=
  if negb (ngx_quic_long_pkt (flags h)) then
    let n := 1 + zlen (dcid h) + num_len + tag_len in
    if n >? pkt_len then 0 else pkt_len - n
  else
    let n := 5 + 2 + zlen (dcid h) + zlen (scid h) + (match lvl h with Initial => 1 | _ => 0 end) in
    if n >? pkt_len then 0
    else
      let n := n + ngx_quic_varint_len (pkt_len - n) + num_len + tag_len in
      if n >? pkt_len then 0 else pkt_len - n.

End Create_header.

(** ** The frames of a payload

    The loop of ngx_quic_handle_frames() of [ngx_event_quic.c]; what the
    handler of a frame does with the connection is a parameter. *)

Section Payload.
Variable conn : Type.
Variable handle : conn -> frame -> option conn.

(** [pkt->need_ack], [do_close] and [nonprobing] when all the frames were
    handled, or NGX_ERROR with the error that the parser found. *)
Inductive payload := Payload (c : conn) (need_ack do_close nonprobing : bool) | Payload_error (err : option Z).

(** The cases of the switches that handle a frame. *)
Definition has_handler (t : Z) : bool :=
  (t =? NGX_QUIC_FT_CRYPTO) || (t =? NGX_QUIC_FT_PING) || (t =? NGX_QUIC_FT_STREAM) || (t =? NGX_QUIC_FT_MAX_DATA)
  || (t =? NGX_QUIC_FT_STREAMS_BLOCKED) || (t =? NGX_QUIC_FT_STREAMS_BLOCKED2) || (t =? NGX_QUIC_FT_DATA_BLOCKED)
  || (t =? NGX_QUIC_FT_STREAM_DATA_BLOCKED) || (t =? NGX_QUIC_FT_MAX_STREAM_DATA) || (t =? NGX_QUIC_FT_RESET_STREAM)
  || (t =? NGX_QUIC_FT_STOP_SENDING) || (t =? NGX_QUIC_FT_MAX_STREAMS) || (t =? NGX_QUIC_FT_MAX_STREAMS2)
  || (t =? NGX_QUIC_FT_PATH_CHALLENGE) || (t =? NGX_QUIC_FT_PATH_RESPONSE) || (t =? NGX_QUIC_FT_NEW_CONNECTION_ID)
  || (t =? NGX_QUIC_FT_RETIRE_CONNECTION_ID).

Definition probing (t : Z) : bool :=
  (t =? NGX_QUIC_FT_PADDING) || (t =? NGX_QUIC_FT_PATH_CHALLENGE) || (t =? NGX_QUIC_FT_PATH_RESPONSE)
  || (t =? NGX_QUIC_FT_NEW_CONNECTION_ID).

(** The switches on the type of a frame; [None] is NGX_ERROR. *)
Definition dispatch (f : frame) (st : conn * bool * bool * bool) : option (conn * bool * bool * bool) :=
  let '(c, ack, close, nonprobing) := st in
  let nonprobing := nonprobing || negb (probing (type f)) in
  if type f =? NGX_QUIC_FT_ACK then
    match handle c f with None => None | Some c => Some (c, ack, close, nonprobing) end
  else if type f =? NGX_QUIC_FT_PADDING then Some (c, ack, close, nonprobing)
  else if (type f =? NGX_QUIC_FT_CONNECTION_CLOSE) || (type f =? NGX_QUIC_FT_CONNECTION_CLOSE_APP) then
    Some (c, ack, true, nonprobing)
  else if has_handler (type f) then
    match handle c f with None => None | Some c => Some (c, true, close, nonprobing) end
  else None.

Fixpoint frames_loop (fuel : nat) (flags : Z) (p : list Z) (st : conn * bool * bool * bool) : option payload :=
  match p with
  | [] => let '(c, ack, close, nonprobing) := st in Some (Payload c ack close nonprobing)
  | _ =>
      match fuel with
      | O => None
      | S fuel =>
          match ngx_quic_parse_frame flags p with
          | Frame_error err => Some (Payload_error err)
          | Frame n f =>
              match dispatch f st with
              | None => Some (Payload_error None)
              | Some st => frames_loop fuel flags (drop (Z.to_nat n) p) st
              end
          end
      end
  end.

(** Every frame has a byte at least. *)
Definition payload_frames (flags : Z) (p : list Z) (c : conn) : option payload :=
  frames_loop (length p) flags p (c, false, false, false).

End Payload.

(** ** Integers *)

(** The [n] low bytes of a number, the highest first. *)
Fixpoint be (n : nat) (v : Z) : list Z :=
  match n with O => [] | S n => (v / 256 ^ Z.of_nat n) mod 256 :: be n v end.

Lemma zlen_be n v : zlen (be n v) = Z.of_nat n.
Proof. unfold zlen. induction n as [|n IH]; cbn [be length]; lia. Qed.

Lemma int_loop_be n v rest : 0 <= v < 2 ^ 64 -> int_loop n (v / 256 ^ Z.of_nat n) (be n v ++ rest) = Some (v, rest).
Proof.
  intros Hv. induction n as [|n IH]; [cbn; rewrite Z.div_1_r; reflexivity|]. cbn [int_loop be app].
  assert (0 < 256 ^ Z.of_nat n) by (apply Z.pow_pos_nonneg; lia).
  replace (u64 _ + _) with (v / 256 ^ Z.of_nat n); [exact IH|].
  rewrite Nat2Z.inj_succ, Z.pow_succ_r by lia. rewrite (Z.mul_comm 256), <-Z.div_div by lia. rewrite Z.shiftl_mul_pow2 by lia. unfold u64.
  assert (0 <= v / 256 ^ Z.of_nat n <= v) by (split; [apply Z.div_pos; lia|apply Z.div_le_upper_bound; nia]).
  set (w := v / 256 ^ Z.of_nat n) in *. clearbody w. rewrite Z.mod_small by div_lia. div_lia.
Qed.

Lemma set_low v k : 0 <= v -> 0 <= k -> ngx_quic_build_int_set v k 0 = (v / 256 ^ k) mod 256.
Proof.
  intros Hv Hk. unfold ngx_quic_build_int_set, u8. rewrite Z.shiftl_0_l, Z.lor_0_r, Z.shiftr_div_pow2 by lia.
  change 0xff with (Z.ones 8). rewrite Z.land_ones by lia. rewrite (Z.mul_comm k), Z.pow_mul_r by lia. change (2 ^ 8) with 256.
  apply Z.mod_mod. lia.
Qed.

Lemma set_top v k bits : 0 <= v -> 0 <= k -> v / 256 ^ k < 64 -> 0 <= bits < 4 -> ngx_quic_build_int_set v k bits = v / 256 ^ k + bits * 64.
Proof.
  intros Hv Hk Hs Hb. unfold ngx_quic_build_int_set, u8. rewrite Z.shiftr_div_pow2 by lia. rewrite (Z.mul_comm k), Z.pow_mul_r by lia.
  change (2 ^ 8) with 256. assert (0 <= v / 256 ^ k) by (apply Z.div_pos; [lia|apply Z.pow_pos_nonneg; lia]).
  set (w := v / 256 ^ k) in *. clearbody w. change 0xff with (Z.ones 8). rewrite Z.land_ones by lia. rewrite (Z.mod_small w) by lia.
  rewrite Z.shiftl_mul_pow2 by lia. rewrite Z.lor_comm, lor_disjoint by lia. change (2 ^ 6) with 64. rewrite Z.mod_small by lia. lia.
Qed.

(** The values of integers of variable length. *)
Definition var (v : Z) : Prop := 0 <= v < 2 ^ 62.

(** A number with the length of its encoding in the two high bits. *)
Lemma build_int_be v : var v ->
  exists k, 0 <= k < 4 /\ ngx_quic_varint_len v = 2 ^ k /\ v < 64 * 256 ^ (2 ^ k - 1) /\
    ngx_quic_build_int v = v / 256 ^ (2 ^ k - 1) + k * 64 :: be (Z.to_nat (2 ^ k - 1)) v.
Proof.
  unfold var. intros Hv. unfold ngx_quic_build_int, ngx_quic_varint_len.
  change (Z.shiftl 1 6) with 64. change (Z.shiftl 1 14) with (64 * 256). change (Z.shiftl 1 30) with (64 * 256 ^ 3).
  assert (forall n, v < 64 * 256 ^ n -> 0 <= n -> v / 256 ^ n < 64) as Hd
    by (intros n H Hn; apply Z.div_lt_upper_bound; [apply Z.pow_pos_nonneg; lia|lia]).
  destruct (v <? 64) eqn:E1; [exists 0|destruct (v <? 64 * 256) eqn:E2; [exists 1|destruct (v <? 64 * 256 ^ 3) eqn:E3; [exists 2|exists 3]]].
  all: (split; [lia|]); (split; [reflexivity|]); (split; [lia|]).
  all: rewrite !set_low by lia; try (rewrite set_top; [reflexivity|lia|lia| |lia]; apply Hd; lia).
  change (2 ^ 0 - 1) with 0. change (256 ^ 0) with 1. rewrite Z.div_1_r, Z.mod_small by lia. cbn [Z.to_nat be]. f_equal. lia.
Qed.

(** A value below [2^62] is written in its length and read back. *)
Lemma parse_build_int v rest : var v -> ngx_quic_parse_int (ngx_quic_build_int v ++ rest) = Some (v, rest).
Proof.
  intros Hv. destruct (build_int_be v Hv) as (k & Hk & _ & Hs & ->). cbn [app ngx_quic_parse_int].
  set (n := 2 ^ k - 1) in *. assert (0 <= n) by (unfold n; pose proof (Z.pow_pos_nonneg 2 k); lia).
  assert (0 < 256 ^ n) by (apply Z.pow_pos_nonneg; lia). assert (0 <= v / 256 ^ n < 64) by (split; [apply Z.div_pos; unfold var in Hv; lia|apply Z.div_lt_upper_bound; lia]).
  set (w := v / 256 ^ n) in *.
  rewrite Z.shiftr_div_pow2, Z.shiftl_1_l by lia. change (2 ^ 6) with 64. replace ((w + k * 64) / 64) with k by div_lia. fold n.
  replace (Z.land (w + k * 64) 0x3f) with w by (change 0x3f with (Z.ones 6); rewrite Z.land_ones by lia; change (2 ^ 6) with 64; div_lia).
  rewrite zlen_app, zlen_be. replace (_ <? n) with false by (unfold zlen; lia).
  replace w with (v / 256 ^ Z.of_nat (Z.to_nat n)) by (rewrite Z2Nat.id by lia; reflexivity). apply int_loop_be. unfold var in Hv. lia.
Qed.

Lemma build_int_len v : var v -> zlen (ngx_quic_build_int v) = ngx_quic_varint_len v.
Proof.
  intros Hv. destruct (build_int_be v Hv) as (k & Hk & -> & _ & ->). rewrite zlen_cons, zlen_be.
  assert (0 < 2 ^ k) by (apply Z.pow_pos_nonneg; lia). lia.
Qed.

(** A number is read from the bytes that begin the input. *)
Lemma int_loop_consumes n : forall v p x q, int_loop n v p = Some (x, q) -> exists l, p = l ++ q /\ length l = n.
Proof.
  induction n as [|n IH]; intros v p x q E; [injection E as -> ->; exists []; split; reflexivity|].
  destruct p as [|b p]; [discriminate|]. apply IH in E as (l & -> & <-). exists (b :: l). split; reflexivity.
Qed.

Lemma parse_int_consumes p v q : ngx_quic_parse_int p = Some (v, q) -> exists b l, p = b :: l ++ q.
Proof.
  destruct p as [|b p]; [discriminate|]. cbn [ngx_quic_parse_int]. destruct (_ <? _); [discriminate|]. intros E.
  apply int_loop_consumes in E as (l & -> & _). exists b, l. reflexivity.
Qed.

(** ** Frames that come back *)

(** The ranges of an ACK frame. *)
Definition range_bytes (rs : list (Z * Z)) : list Z := flat_map (fun '(g, r) => ngx_quic_create_ack_range g r) rs.

(** A frame whose fields have the values a frame can have, and whose lengths
    are those of its data; [data] is empty for the frames without any. *)
Definition sendable (f : frame) : Prop :=
  (type f = NGX_QUIC_FT_PING \/ type f = NGX_QUIC_FT_HANDSHAKE_DONE -> u f = U_none) /\
  match u f with
  | U_none => data f = []
  | U_ack a =>
      var (largest a) /\ var (delay a) /\ var (range_count a) /\ var (first_range a) /\ ect0 a = 0 /\ ect1 a = 0 /\ ce a = 0 /\
      ranges_length a = zlen (data f) /\
      exists rs, data f = range_bytes rs /\ range_count a = zlen rs /\ Forall (fun '(g, r) => var g /\ var r) rs
  | U_crypto offset len => var offset /\ var len /\ len = zlen (data f)
  | U_ncid seqnum retire len cid srt =>
      var seqnum /\ var retire /\ retire <= seqnum /\ 1 <= len <= NGX_QUIC_CID_LEN_MAX /\ zlen cid = len /\
      zlen srt = NGX_QUIC_SR_TOKEN_LEN /\ data f = []
  | U_token len => var len /\ len = zlen (data f)
  | U_stream id offset len off has_len fin => var id /\ var offset /\ (off = false -> offset = 0) /\ var len /\ len = zlen (data f)
  | U_close ec ft reason =>
      var ec /\ var ft /\ (type f = NGX_QUIC_FT_CONNECTION_CLOSE_APP -> ft = 0) /\ var (zlen reason) /\ data f = []
  | U_reset_stream id ec fs => var id /\ var ec /\ var fs /\ data f = []
  | U_stop_sending id ec => var id /\ var ec /\ data f = []
  | U_max_streams limit _ => 0 <= limit <= 2 ^ 60 /\ data f = []
  | U_max_stream_data id limit => var id /\ var limit /\ data f = []
  | U_max_data v => var v /\ data f = []
  | U_retire_cid v => var v /\ data f = []
  | U_path_challenge d | U_path_response d => zlen d = 8 /\ data f = []
  | U_streams_blocked limit _ | U_data_blocked limit => False
  | U_stream_data_blocked id limit => False
  end.

(** The type on the wire, and the frame that the other side gets: the types
    of STREAM frames are flags, and the two directions of MAX_STREAMS differ
    by the type. *)
Definition wire_type (f : frame) : Z :=
  match u f with
  | U_stream _ _ _ off has_len fin => stream_type off has_len fin
  | U_max_streams _ bidi => max_streams_type bidi
  | _ => type f
  end.

Definition received (f : frame) : frame :=
  match u f with U_max_streams _ bidi => mk_frame (max_streams_type bidi) (u f) (data f) | _ => f end.

(** A STREAM frame without length is the last one. *)
Definition open_ended (f : frame) : bool := match u f with U_stream _ _ _ _ has_len _ => negb has_len | _ => false end.

Lemma read_bytes_app d rest : ngx_quic_read_bytes (d ++ rest) (zlen d) = Some (d, rest).
Proof.
  unfold ngx_quic_read_bytes. rewrite zlen_app. replace (_ <? _) with false by (unfold zlen; lia).
  unfold zlen. rewrite Nat2Z.id, take_app_length, drop_app_length. reflexivity.
Qed.

Lemma read_bytes_all d : ngx_quic_read_bytes d (zlen d) = Some (d, []).
Proof. pose proof (read_bytes_app d []) as H. rewrite app_nil_r in H. exact H. Qed.

Lemma read_bytes_none p : ngx_quic_read_bytes p 0 = Some ([], p).
Proof. apply (read_bytes_app [] p). Qed.

Lemma copy_bytes_app d rest n : zlen d = n -> ngx_quic_copy_bytes (d ++ rest) n = Some (d, rest).
Proof. intros <-. apply read_bytes_app. Qed.

Lemma range_bytes_cons g r rs : range_bytes ((g, r) :: rs) = ngx_quic_build_int g ++ ngx_quic_build_int r ++ range_bytes rs.
Proof. unfold range_bytes. cbn [flat_map]. unfold ngx_quic_create_ack_range. rewrite <-app_assoc. reflexivity. Qed.

Lemma build_int_cons v : exists b l, ngx_quic_build_int v = b :: l.
Proof. unfold ngx_quic_build_int. destruct (_ <? _); [eauto|]. destruct (_ <? _); [eauto|]. destruct (_ <? _); eauto. Qed.

Lemma range_bytes_length rs : (length rs <= length (range_bytes rs))%nat.
Proof.
  induction rs as [|[g r] rs IH]; [cbn; lia|]. rewrite range_bytes_cons, !length_app. destruct (build_int_cons g) as (b & l & ->). cbn [length]. lia.
Qed.

Lemma skip_ranges_app rs q fuel : Forall (fun '(g, r) => var g /\ var r) rs -> (length rs <= fuel)%nat ->
  skip_ranges fuel (zlen rs) (range_bytes rs ++ q) = Some q.
Proof.
  intros H. revert fuel. induction H as [|[g r] rs [Hg Hr] H IH]; intros fuel Hf; [destruct fuel; reflexivity|].
  destruct fuel as [|fuel]; cbn [length] in Hf; [lia|]. cbn [skip_ranges]. rewrite zlen_cons. replace (1 + zlen rs =? 0) with false by (unfold zlen; lia).
  rewrite range_bytes_cons, <-!app_assoc, !parse_build_int by assumption. replace (1 + zlen rs - 1) with (zlen rs) by lia. apply IH. lia.
Qed.

(** The tests of a type that is known. *)
Ltac known b := let v := eval vm_compute in b in (match v with true => idtac | false => idtac end); change b with v.
Ltac eval_type :=
  repeat match goal with
    | |- context[?a =? ?b] => known (a =? b)
    | |- context[?a >=? ?b] => known (a >=? b)
    | |- context[?a <=? ?b] => known (a <=? b)
  end; cbn [orb andb negb].

Ltac var_lia := first [assumption|unfold var in *; unfold zlen in *; lia|split; [discriminate|reflexivity]].

Ltac read_fields := repeat (rewrite <-?app_assoc; first [rewrite parse_build_int by var_lia|rewrite read_bytes_app|rewrite copy_bytes_app by assumption]; cbv beta iota).

Ltac count_bytes := rewrite ?zlen_app, ?zlen_cons; rewrite ?build_int_len by var_lia.

(** A frame whose fields are read in the order in which they are written. *)
Ltac simple_frame :=
  split;
    [unfold ngx_quic_create_reset_stream, ngx_quic_create_stop_sending, ngx_quic_create_crypto, ngx_quic_create_max_stream_data,
       ngx_quic_create_max_data, ngx_quic_create_path_challenge, ngx_quic_create_path_response, ngx_quic_create_retire_connection_id;
     count_bytes;
     unfold ngx_quic_create_reset_stream_len, ngx_quic_create_stop_sending_len, ngx_quic_create_crypto_len, ngx_quic_create_max_stream_data_len,
       ngx_quic_create_max_data_len, ngx_quic_create_path_challenge_len, ngx_quic_create_path_response_len,
       ngx_quic_create_retire_connection_id_len; lia
    |intros _ _; split; [split; discriminate|]; eexists; split; [reflexivity|];
     unfold parse_fields, wire_type; cbn [u type]; eval_type; read_fields; reflexivity].

Lemma create_fields f n bytes rest : sendable f -> create f = Some (n, bytes) -> (open_ended f = true -> rest = []) ->
  zlen bytes = n /\
  (type f <> NGX_QUIC_FT_HANDSHAKE_DONE -> type f <> NGX_QUIC_FT_NEW_TOKEN ->
   0 <= wire_type f <= NGX_QUIC_FT_LAST /\
   exists p, bytes = ngx_quic_build_int (wire_type f) ++ p /\ parse_fields (wire_type f) (p ++ rest) = Fields (received f) rest).
Proof.
  intros [Hp Hs] Hc Ho. destruct f as [t uu d]. unfold create in Hc. cbn [type u data] in *.
  destruct (t =? NGX_QUIC_FT_PING) eqn:E; [apply Z.eqb_eq in E; subst t|clear E Hp].
  { injection Hc as <- <-. split; [reflexivity|]. intros _ _. rewrite (Hp (or_introl eq_refl)) in *. subst d. split; [split; discriminate|].
    exists []. split; reflexivity. }
  destruct (t =? NGX_QUIC_FT_ACK) eqn:E; [apply Z.eqb_eq in E; subst t|clear E].
  { destruct uu; try discriminate. injection Hc as <- <-. destruct a. cbn in Hs. destruct Hs as (? & ? & ? & ? & -> & -> & -> & -> & rs & Hd & -> & Hr).
    unfold ngx_quic_create_ack_len, ngx_quic_create_ack. split; [cbn [QuicTransport.largest QuicTransport.delay QuicTransport.range_count QuicTransport.first_range QuicTransport.ranges_length]; count_bytes; lia|].
    intros _ _. split; [split; discriminate|]. eexists. split; [reflexivity|]. unfold parse_fields, wire_type. cbn [u type]. eval_type. read_fields.
    cbn [QuicTransport.range_count].
    assert (skip_ranges (length (d ++ rest)) (zlen rs) (d ++ rest) = Some rest) as ->.
    { rewrite Hd. apply skip_ranges_app; [exact Hr|]. rewrite length_app. pose proof (range_bytes_length rs). lia. }
    cbv zeta. rewrite zlen_app. replace (zlen d + zlen rest - zlen rest) with (zlen d) by lia.
    replace (take (Z.to_nat (zlen d)) (d ++ rest)) with d by (unfold zlen; rewrite Nat2Z.id, take_app_length; reflexivity). reflexivity. }
  destruct (t =? NGX_QUIC_FT_RESET_STREAM) eqn:E; [apply Z.eqb_eq in E; subst t|clear E].
  { destruct uu; try discriminate. injection Hc as <- <-. destruct Hs as (? & ? & ? & ->). simple_frame. }
  destruct (t =? NGX_QUIC_FT_STOP_SENDING) eqn:E; [apply Z.eqb_eq in E; subst t|clear E].
  { destruct uu; try discriminate. injection Hc as <- <-. destruct Hs as (? & ? & ->). simple_frame. }
  destruct (t =? NGX_QUIC_FT_CRYPTO) eqn:E; [apply Z.eqb_eq in E; subst t|clear E].
  { destruct uu; try discriminate. injection Hc as <- <-. destruct Hs as (? & ? & ->). simple_frame. }
  destruct (t =? NGX_QUIC_FT_HANDSHAKE_DONE) eqn:E; [apply Z.eqb_eq in E; subst t|clear E].
  { injection Hc as <- <-. split; [reflexivity|]. congruence. }
  destruct (t =? NGX_QUIC_FT_NEW_TOKEN) eqn:E; [apply Z.eqb_eq in E; subst t|clear E].
  { destruct uu; try discriminate. injection Hc as <- <-. destruct Hs as [? ->]. split; [unfold ngx_quic_create_new_token; count_bytes; unfold ngx_quic_create_new_token_len; lia|]. congruence. }
  destruct (t =? NGX_QUIC_FT_STREAM) eqn:E; [apply Z.eqb_eq in E; subst t|clear E].
  { destruct uu as [| | | | |id offset len off has_len fin| | | | | | | | | | | |]; try discriminate. injection Hc as <- <-. destruct Hs as (? & ? & Hz & ? & ->).
    destruct off, has_len, fin; cbn [open_ended u negb] in Ho;
      try (rewrite (Ho eq_refl) in *; clear Ho); try (rewrite (Hz eq_refl) in *; clear Hz);
      (split;
        [unfold ngx_quic_create_stream, ngx_quic_create_stream_len, stream_type; cbv beta iota zeta; cbn [app]; count_bytes; lia
        |intros _ _; (split; [split; discriminate|]); eexists; (split; [reflexivity|]);
         unfold parse_fields, wire_type, stream_type; cbn [u type]; eval_type; cbn [app]; read_fields;
         rewrite ?app_nil_r, ?read_bytes_all; reflexivity]). }
  destruct ((t =? NGX_QUIC_FT_CONNECTION_CLOSE) || (t =? NGX_QUIC_FT_CONNECTION_CLOSE_APP)) eqn:E.
  { destruct uu; try discriminate. injection Hc as <- <-. destruct Hs as (? & ? & Hz & ? & ->). unfold ngx_quic_create_close, ngx_quic_create_close_len.
    apply orb_true_iff in E as [E|E]; apply Z.eqb_eq in E; subst t; eval_type; [clear Hz|rewrite (Hz eq_refl) in *; clear Hz];
      (split; [cbn [app]; count_bytes; lia|]); intros _ _; (split; [split; discriminate|]); eexists; (split; [reflexivity|]);
      unfold parse_fields, wire_type; cbn [u type]; eval_type; cbn [app]; read_fields; reflexivity. }
  clear E. destruct (t =? NGX_QUIC_FT_MAX_STREAMS) eqn:E; [apply Z.eqb_eq in E; subst t|clear E].
  { destruct uu as [| | | | | | | | | | |limit bidi| | | | | |]; try discriminate. injection Hc as <- <-. destruct Hs as [? ->].
    unfold ngx_quic_create_max_streams, ngx_quic_create_max_streams_len.
    destruct bidi; (split; [count_bytes; cbn; lia|]); intros _ _; (split; [split; discriminate|]); eexists; (split; [reflexivity|]);
      unfold parse_fields, wire_type; cbn [u type max_streams_type]; eval_type; read_fields;
      (replace (limit >? 0x1000000000000000) with false by lia); reflexivity. }
  destruct (t =? NGX_QUIC_FT_MAX_STREAM_DATA) eqn:E; [apply Z.eqb_eq in E; subst t|clear E].
  { destruct uu; try discriminate. injection Hc as <- <-. destruct Hs as (? & ? & ->). simple_frame. }
  destruct (t =? NGX_QUIC_FT_MAX_DATA) eqn:E; [apply Z.eqb_eq in E; subst t|clear E].
  { destruct uu; try discriminate. injection Hc as <- <-. destruct Hs as (? & ->). simple_frame. }
  destruct (t =? NGX_QUIC_FT_PATH_CHALLENGE) eqn:E; [apply Z.eqb_eq in E; subst t|clear E].
  { destruct uu; try discriminate. injection Hc as <- <-. destruct Hs as (? & ->). simple_frame. }
  destruct (t =? NGX_QUIC_FT_PATH_RESPONSE) eqn:E; [apply Z.eqb_eq in E; subst t|clear E].
  { destruct uu; try discriminate. injection Hc as <- <-. destruct Hs as (? & ->). simple_frame. }
  destruct (t =? NGX_QUIC_FT_NEW_CONNECTION_ID) eqn:E; [apply Z.eqb_eq in E; subst t|clear E].
  { destruct uu as [| | |sn rt len cid srt| | | | | | | | | | | | | |]; try discriminate. injection Hc as <- <-.
    destruct Hs as (? & ? & ? & Hl & Hc & Hr & ->). unfold ngx_quic_create_new_connection_id, ngx_quic_create_new_connection_id_len.
    rewrite !take_ge by (unfold zlen in *; lia).
    split; [count_bytes; rewrite Hc, Hr; change (zlen []) with 0; lia|]. intros _ _. split; [split; discriminate|]. eexists. split; [reflexivity|].
    unfold parse_fields, wire_type. cbn [u type]. eval_type. read_fields. replace (rt >? sn) with false by lia. cbn [app ngx_quic_read_uint8].
    replace ((len <? 1) || (len >? NGX_QUIC_CID_LEN_MAX)) with false by lia. read_fields. reflexivity. }
  destruct (t =? NGX_QUIC_FT_RETIRE_CONNECTION_ID) eqn:E; [apply Z.eqb_eq in E; subst t|discriminate].
  destruct uu; try discriminate. injection Hc as <- <-. destruct Hs as (? & ->). simple_frame.
Qed.

(** The two frames that only a server sends. *)
Lemma not_allowed flags t : t = NGX_QUIC_FT_NEW_TOKEN \/ t = NGX_QUIC_FT_HANDSHAKE_DONE -> ngx_quic_frame_allowed flags t <> NGX_OK.
Proof.
  intros H. unfold ngx_quic_frame_allowed. replace (nth (Z.to_nat t) ngx_quic_frame_masks 0) with 0 by (destruct H as [->| ->]; reflexivity).
  rewrite Z.land_0_r. discriminate.
Qed.

(** A frame that is created takes the length announced for it and is read back. *)
Lemma create_parse flags f bytes rest :
  sendable f -> ngx_quic_create_frame f = Some bytes -> ngx_quic_frame_allowed flags (wire_type f) = NGX_OK ->
  (open_ended f = true -> rest = []) ->
  ngx_quic_create_frame_len f = Some (zlen bytes) /\ ngx_quic_parse_frame flags (bytes ++ rest) = Frame (zlen bytes) (received f).
Proof.
  intros Hs Hc Ha Ho. unfold ngx_quic_create_frame, ngx_quic_create_frame_len in *. destruct (create f) as [[n b]|] eqn:E; [|discriminate].
  injection Hc as ->. destruct (create_fields f n bytes rest Hs E Ho) as [<- Hp]. split; [reflexivity|].
  assert (type f <> NGX_QUIC_FT_HANDSHAKE_DONE) as H1.
  { intros Ht. destruct Hs as [Hu _]. specialize (Hu (or_intror Ht)). unfold wire_type in Ha. rewrite Hu, Ht in Ha. revert Ha. apply not_allowed. right. reflexivity. }
  assert (type f <> NGX_QUIC_FT_NEW_TOKEN) as H2.
  { intros Ht. unfold create in E. rewrite Ht in E. destruct (u f) eqn:Eu; try discriminate E. unfold wire_type in Ha. rewrite Eu, Ht in Ha.
    revert Ha. apply not_allowed. left. reflexivity. }
  destruct (Hp H1 H2) as (Hw & p & -> & Ep). unfold ngx_quic_parse_frame. rewrite <-app_assoc, parse_build_int by (unfold var, NGX_QUIC_FT_LAST, NGX_QUIC_FT_HANDSHAKE_DONE in *; lia).
  replace (wire_type f >? NGX_QUIC_FT_LAST) with false by lia. rewrite Ha, Ep. cbn [Z.eqb NGX_OK negb]. f_equal. rewrite !zlen_app. lia.
Qed.

(** ** What is read lies in the packet *)

(** The rest of what was read. *)
Lemma suffix_split {A} (q p : list A) : q `suffix_of` p -> zlen q <= zlen p.
Proof. intros (l & ->). rewrite zlen_app. unfold zlen. lia. Qed.

Lemma parse_int_suffix p v q : ngx_quic_parse_int p = Some (v, q) -> q `suffix_of` p.
Proof. intros H. apply parse_int_consumes in H as (b & l & ->). exists (b :: l). reflexivity. Qed.

Lemma read_bytes_suffix p n d q : ngx_quic_read_bytes p n = Some (d, q) -> q `suffix_of` p.
Proof. unfold ngx_quic_read_bytes. destruct (_ <? _); [discriminate|]. intros [= _ <-]. exists (take (Z.to_nat n) p). symmetry. apply take_drop. Qed.

Lemma copy_bytes_suffix p n d q : ngx_quic_copy_bytes p n = Some (d, q) -> q `suffix_of` p.
Proof. apply read_bytes_suffix. Qed.

Lemma read_uint8_suffix p v q : ngx_quic_read_uint8 p = Some (v, q) -> q `suffix_of` p.
Proof. destruct p as [|b p]; [discriminate|]. intros [= _ <-]. exists [b]. reflexivity. Qed.

Lemma skip_ranges_suffix fuel : forall n p q, skip_ranges fuel n p = Some q -> q `suffix_of` p.
Proof.
  induction fuel as [|fuel IH]; intros n p q E; cbn [skip_ranges] in E; (destruct (n =? 0); [injection E as <-; reflexivity|]); [discriminate|].
  destruct (ngx_quic_parse_int p) as [[? p1]|] eqn:E1; [|discriminate]. destruct (ngx_quic_parse_int p1) as [[? p2]|] eqn:E2; [|discriminate].
  apply IH in E. apply parse_int_suffix in E1, E2. etransitivity; [exact E|]. etransitivity; eassumption.
Qed.

Lemma skip_padding_suffix p : skip_padding p `suffix_of` p.
Proof. induction p as [|b p IH]; cbn; [reflexivity|]. destruct (b =? _); [apply suffix_cons_r, IH|reflexivity]. Qed.

(** One read of a frame. *)
Ltac read_step E :=
  match type of E with
  | match ?x with Some _ => _ | None => _ end = _ => let E1 := fresh in destruct x as [[? ?]|] eqn:E1; [|discriminate E]
  | match ?x with Some _ => _ | None => _ end = _ => let E1 := fresh in destruct x as [?|] eqn:E1; [|discriminate E]
  | (if ?b then _ else _) = _ => destruct b
  end.

Lemma parse_fields_suffix t p f q : parse_fields t p = Fields f q -> q `suffix_of` p.
Proof.
  unfold parse_fields. intros E. cbv zeta in E. repeat read_step E; try discriminate E; injection E as _ <-;
    repeat match goal with
      | H : (if ?b then _ else _) = Some _ |- _ => destruct b; [|injection H as _ <-]
      | H : _ = Some (_, _) |- _ => first [apply parse_int_suffix in H|apply read_bytes_suffix in H|apply copy_bytes_suffix in H|apply read_uint8_suffix in H]
      | H : _ = Some _ |- _ => apply skip_ranges_suffix in H
    end; try apply skip_padding_suffix; repeat (etransitivity; [eassumption|]); try reflexivity.
Qed.

Lemma parse_fields_unknown t p : 0 <= t <= NGX_QUIC_FT_LAST -> parse_fields t p = Unknown_type -> t = NGX_QUIC_FT_NEW_TOKEN \/ t = NGX_QUIC_FT_HANDSHAKE_DONE.
Proof.
  unfold parse_fields. intros Ht E. cbv zeta in E.
  repeat match type of E with
    | (if ?b then _ else _) = _ => let Eb := fresh in destruct b eqn:Eb;
        [exfalso; clear -E;
         repeat match type of E with
           | match ?x with Some _ => _ | None => _ end = _ => destruct x as [[? ?]|]; [|discriminate E]
           | match ?x with Some _ => _ | None => _ end = _ => destruct x as [?|]; [|discriminate E]
           | (if ?b then _ else _) = _ => destruct b
         end; discriminate E|]
  end.
  clear E. unfold NGX_QUIC_FT_LAST, NGX_QUIC_FT_CRYPTO, NGX_QUIC_FT_PADDING, NGX_QUIC_FT_ACK, NGX_QUIC_FT_ACK_ECN, NGX_QUIC_FT_PING, NGX_QUIC_FT_NEW_CONNECTION_ID,
    NGX_QUIC_FT_RETIRE_CONNECTION_ID, NGX_QUIC_FT_CONNECTION_CLOSE, NGX_QUIC_FT_CONNECTION_CLOSE_APP, NGX_QUIC_FT_STREAM, NGX_QUIC_FT_STREAM7,
    NGX_QUIC_FT_MAX_DATA, NGX_QUIC_FT_RESET_STREAM, NGX_QUIC_FT_STOP_SENDING, NGX_QUIC_FT_STREAMS_BLOCKED, NGX_QUIC_FT_STREAMS_BLOCKED2,
    NGX_QUIC_FT_MAX_STREAMS, NGX_QUIC_FT_MAX_STREAMS2, NGX_QUIC_FT_MAX_STREAM_DATA, NGX_QUIC_FT_DATA_BLOCKED, NGX_QUIC_FT_STREAM_DATA_BLOCKED,
    NGX_QUIC_FT_PATH_CHALLENGE, NGX_QUIC_FT_PATH_RESPONSE, NGX_QUIC_FT_NEW_TOKEN, NGX_QUIC_FT_HANDSHAKE_DONE in *. lia.
Qed.

Lemma parse_int_nonneg p v q : bytes p -> ngx_quic_parse_int p = Some (v, q) -> 0 <= v.
Proof.
  destruct p as [|b p]; [discriminate|]. intros Hb E. cbn [ngx_quic_parse_int] in E. destruct (_ <? _); [discriminate|].
  apply Forall_cons in Hb as [Hb Hp]. revert E. generalize (Z.to_nat (Z.shiftl 1 (Z.shiftr b 6) - 1)) as n.
  assert (0 <= Z.land b 0x3f) as H0 by (apply Z.land_nonneg; lia). revert H0. generalize (Z.land b 0x3f) as w. intros w Hw n. revert w Hw.
  induction Hp as [|x p Hx Hp IH] in n |- *; intros w Hw E; (destruct n; [injection E as -> _; exact Hw|]); [discriminate|].
  cbn [int_loop] in E. apply IH in E; [exact E|]. unfold u64, is_byte in *. pose proof (Z.mod_pos_bound (Z.shiftl w 8) (2 ^ 64)). lia.
Qed.

(** A frame takes a byte at least and ends in the packet; the default case of
    the switch is not reached. *)
Lemma parse_frame_outcome flags p : bytes p ->
  match ngx_quic_parse_frame flags p with
  | Frame n f => 0 < n <= zlen p
  | Frame_error err => err <> None
  end.
Proof.
  intros Hp. unfold ngx_quic_parse_frame. destruct (ngx_quic_parse_int p) as [[t q]|] eqn:E; [|discriminate].
  pose proof (parse_int_nonneg _ _ _ Hp E) as Ht. apply parse_int_consumes in E as (b & l & ->).
  destruct (t >? NGX_QUIC_FT_LAST) eqn:El; [discriminate|]. destruct (ngx_quic_frame_allowed flags t =? NGX_OK) eqn:Ea; [|discriminate]. cbn [negb].
  destruct (parse_fields t q) as [| |f r] eqn:Ef; [discriminate| |].
  - apply parse_fields_unknown in Ef; [|lia]. apply Z.eqb_eq in Ea. destruct (not_allowed flags t Ef Ea).
  - apply parse_fields_suffix, suffix_split in Ef. rewrite zlen_cons, zlen_app. unfold zlen in *. lia.
Qed.

Lemma create_nonempty f b : sendable f -> ngx_quic_create_frame f = Some b -> exists x l, b = x :: l.
Proof.
  intros Hs E. unfold ngx_quic_create_frame, create in E.
  repeat match type of E with
    | option_map _ (if ?c then _ else _) = _ => destruct c
    | option_map _ (match ?x with _ => _ end) = _ => destruct x; try discriminate E
  end; try discriminate E; injection E as <-;
  match goal with |- exists x l, ?b = _ => idtac end;
  unfold ngx_quic_create_ping, ngx_quic_create_ack, ngx_quic_create_reset_stream, ngx_quic_create_stop_sending, ngx_quic_create_crypto,
    ngx_quic_create_hs_done, ngx_quic_create_new_token, ngx_quic_create_stream, ngx_quic_create_close, ngx_quic_create_max_streams,
    ngx_quic_create_max_stream_data, ngx_quic_create_max_data, ngx_quic_create_path_challenge, ngx_quic_create_path_response,
    ngx_quic_create_new_connection_id, ngx_quic_create_retire_connection_id;
  match goal with |- context[ngx_quic_build_int ?v] => destruct (build_int_cons v) as (x & l & ->) end; cbn [app]; eauto.
Qed.

Section Payload.
Context {conn : Type} (handle : conn -> frame -> option conn).

Lemma frames_loop_total flags f : forall p st, bytes p -> (length p <= f)%nat -> exists r, frames_loop conn handle f flags p st = Some r.
Proof.
  induction f as [|f IH]; intros p st Hp Hf.
  - destruct p; [|cbn in Hf; lia]. destruct st as [[[c a] cl] np]. eexists. reflexivity.
  - destruct p as [|b p]; [destruct st as [[[c a] cl] np]; eexists; reflexivity|]. cbn [frames_loop]. pose proof (parse_frame_outcome flags (b :: p) Hp) as Ho.
    destruct (ngx_quic_parse_frame flags (b :: p)) as [n fr|err]; [|eexists; reflexivity]. destruct (dispatch _ _ fr st); [|eexists; reflexivity].
    apply IH; [apply Forall_drop, Hp|]. rewrite length_drop. unfold zlen in Ho. lia.
Qed.

(** The frames one after the other. *)
Fixpoint handle_all (fs : list frame) (st : conn * bool * bool * bool) : payload conn :=
  match fs with
  | [] => let '(c, ack, close, nonprobing) := st in Payload conn c ack close nonprobing
  | f :: fs => match dispatch conn handle f st with None => Payload_error conn None | Some st => handle_all fs st end
  end.

(** Frames that a packet may have, with the bytes they are created as; only
    the last one may be a STREAM frame without length. *)
Inductive created (flags : Z) : list frame -> list Z -> Prop :=
  | created_nil : created flags [] []
  | created_cons f b fs p : sendable f -> ngx_quic_create_frame f = Some b -> ngx_quic_frame_allowed flags (wire_type f) = NGX_OK ->
      (open_ended f = true -> fs = []) -> created flags fs p -> created flags (f :: fs) (b ++ p).

Lemma created_loop flags fs p : created flags fs p -> forall n st, (length p <= n)%nat ->
  frames_loop conn handle n flags p st = Some (handle_all (map received fs) st).
Proof.
  intros H. induction H as [|f b fs p Hs Hc Ha Ho H IH]; intros n st Hn; [destruct n; destruct st as [[[c a] cl] np]; reflexivity|].
  assert (open_ended f = true -> p = []) as Hp by (intros Hf; specialize (Ho Hf); subst fs; inversion H; reflexivity).
  destruct (create_parse flags f b p Hs Hc Ha Hp) as [_ E]. destruct (create_nonempty f b Hs Hc) as (x & b' & ->).
  destruct n as [|n]; [cbn in Hn; lia|]. cbn [map handle_all app frames_loop]. change (x :: b' ++ p) with ((x :: b') ++ p). rewrite E.
  destruct (dispatch conn handle (received f) st) as [st'|]; [|reflexivity].
  replace (drop (Z.to_nat (zlen (x :: b'))) ((x :: b') ++ p)) with p by (unfold zlen; rewrite Nat2Z.id, drop_app_length; reflexivity).
  apply IH. cbn [length app] in Hn. rewrite length_app in Hn. lia.
Qed.

End Payload.

(** C24: The frames of a packet come back: what is created for a list of
    frames, one after the other, takes the lengths announced for them, and
    ngx_quic_handle_frames() reads from it the same frames, with their ranges,
    data and reasons, and handles them in that order; a STREAM frame without
    length may be the last one. *)
Theorem frames_roundtrip {conn : Type} (handle : conn -> frame -> option conn) flags fs p c :
  created flags fs p ->
  Forall (fun f => ngx_quic_create_frame_len f = option_map zlen (ngx_quic_create_frame f)) fs /\
  payload_frames conn handle flags p c = Some (handle_all handle (map received fs) (c, false, false, false)).
Proof.
  intros H. split; [|apply created_loop; [exact H|lia]].
  induction H as [|f b fs p Hs Hc Ha Ho H IH]; constructor; [|exact IH]. rewrite Hc.
  apply (create_parse flags f b []); auto.
Qed.

(** C25: The loop over the frames of a packet ends for every input: a frame
    takes at least a byte and at most what is left, and what cannot be parsed
    has an error code, since the default case of the parser is never
    reached. *)
Theorem frames_read {conn : Type} (handle : conn -> frame -> option conn) flags p c : bytes p ->
  (exists r, payload_frames conn handle flags p c = Some r) /\
  match ngx_quic_parse_frame flags p with
  | Frame n _ => 0 < n <= zlen p
  | Frame_error err => err <> None
  end.
Proof. intros Hp. split; [apply frames_loop_total; [exact Hp|lia]|apply parse_frame_outcome, Hp]. Qed.

(** ** Packet numbers *)

Lemma write_pn_be n v : 1 <= n <= 4 -> 0 <= v -> write_pn n v = be (Z.to_nat n) v.
Proof.
  intros Hn Hv. unfold write_pn, u8. assert (n = 1 \/ n = 2 \/ n = 3 \/ n = 4) as Hc by lia. change (2 ^ 8) with 256.
  assert (forall k, 0 <= k -> Z.shiftr v (k * 8) = v / 256 ^ k) as Hs
    by (intros k Hk; rewrite Z.shiftr_div_pow2 by lia; rewrite (Z.mul_comm k), Z.pow_mul_r by lia; reflexivity).
  pose proof (Hs 1 ltac:(lia)) as H1. pose proof (Hs 2 ltac:(lia)) as H2. pose proof (Hs 3 ltac:(lia)) as H3.
  change (1 * 8) with 8 in H1. change (2 * 8) with 16 in H2. change (3 * 8) with 24 in H3.
  assert (v mod 256 = (v / 256 ^ 0) mod 256) as H0 by (change (256 ^ 0) with 1; rewrite Z.div_1_r; reflexivity).
  destruct Hc as [->|[->|[->| ->]]]; cbn [Z.eqb Pos.eqb]; rewrite ?H1, ?H2, ?H3, H0; reflexivity.
Qed.

(** Protection and its removal. *)
Lemma pn_loop_protect p : forall mask v, (length p <= length mask)%nat -> pn_loop (protect p mask) mask v = pn_loop p (map (fun _ => 0) p) v.
Proof.
  induction p as [|b p IH]; intros [|m mask] v Hl; cbn in Hl; try reflexivity; [lia|]. cbn [protect pn_loop map].
  rewrite IH by lia. rewrite Z.lxor_0_r, Z.lxor_assoc, Z.lxor_nilpotent, Z.lxor_0_r. reflexivity.
Qed.

Lemma pn_loop_be n v : 0 <= v < 2 ^ 64 -> pn_loop (be n v) (map (fun _ => 0) (be n v)) (v / 256 ^ Z.of_nat n) = v.
Proof.
  intros Hv. induction n as [|n IH]; [cbn; apply Z.div_1_r|]. cbn [be map pn_loop]. rewrite Z.lxor_0_r.
  replace (u64 (u64 _ + _)) with (v / 256 ^ Z.of_nat n); [exact IH|].
  assert (0 < 256 ^ Z.of_nat n) by (apply Z.pow_pos_nonneg; lia).
  rewrite Nat2Z.inj_succ, Z.pow_succ_r by lia. rewrite (Z.mul_comm 256), <-Z.div_div by lia. rewrite Z.shiftl_mul_pow2 by lia. unfold u64.
  assert (0 <= v / 256 ^ Z.of_nat n <= v) by (split; [apply Z.div_pos; lia|apply Z.div_le_upper_bound; nia]).
  set (w := v / 256 ^ Z.of_nat n) in *. clearbody w. rewrite (Z.mod_small (_ * _)) by div_lia. rewrite Z.mod_small by div_lia. div_lia.
Qed.

Lemma length_protect p mask : length (protect p mask) = length p.
Proof. revert mask. induction p as [|b p IH]; intros [|m mask]; cbn; auto. Qed.

Lemma i64_u64 x : - 2 ^ 63 <= x < 2 ^ 63 -> i64 (u64 x) = x.
Proof. intros H. unfold i64, u64. destruct (_ <? _) eqn:E; div_lia. Qed.

Lemma u64_small x : 0 <= x < 2 ^ 64 -> u64 x = x.
Proof. apply Z.mod_small. Qed.

(** The high bits of a number. *)
Lemma land_high x k : 0 <= k <= 64 -> 0 <= x < 2 ^ 64 -> Z.land x (2 ^ 64 - 1 - (2 ^ k - 1)) = x / 2 ^ k * 2 ^ k.
Proof.
  intros Hk Hx. assert (forall n, 0 <= n -> Z.ones n = 2 ^ n - 1) as Ho by (intros n Hn; rewrite Z.ones_equiv; lia).
  rewrite <-!Ho by lia. rewrite Z.sub_nocarry_ldiff.
  - rewrite Z.ldiff_land, Z.land_assoc, Z.land_ones, Z.mod_small by lia. rewrite <-Z.ldiff_land, Z.ldiff_ones_r, Z.shiftl_mul_pow2, Z.shiftr_div_pow2 by lia.
    reflexivity.
  - rewrite Z.ldiff_ones_r, Z.shiftr_div_pow2, Ho by lia. pose proof (Z.pow_pos_nonneg 2 k). pose proof (Z.pow_le_mono_r 2 k 64).
    rewrite Z.div_small by lia. reflexivity.
Qed.

(** The low bytes of a number are read back. *)
Lemma truncated_back n v mask : 1 <= n <= 4 -> 0 <= v < 256 ^ n -> n <= zlen mask ->
  zlen (protect (write_pn n v) mask) = n /\ pn_loop (protect (write_pn n v) mask) mask 0 = v.
Proof.
  intros Hn Hv Hm. assert (256 ^ n <= 256 ^ 4) by (apply Z.pow_le_mono_r; lia). rewrite write_pn_be by lia.
  split; [unfold zlen; rewrite length_protect; fold (zlen (be (Z.to_nat n) v)); rewrite zlen_be; lia|].
  rewrite pn_loop_protect by (pose proof (zlen_be (Z.to_nat n) v); unfold zlen in *; lia).
  rewrite <-(pn_loop_be (Z.to_nat n) v) at 3 by lia. rewrite Z2Nat.id by lia. rewrite Z.div_small by lia. reflexivity.
Qed.

(** The decoding of RFC 9000, A.3: any number in the window around the next
    one is recovered from its low bytes. *)
Lemma parse_pn_window (n L pnum : Z) mask : 1 <= n <= 4 -> -1 <= L < 2 ^ 62 -> 0 <= pnum < 2 ^ 62 -> n <= zlen mask ->
  L + 1 - 2 ^ (8 * n - 1) < pnum <= L + 1 + 2 ^ (8 * n - 1) ->
  ngx_quic_parse_pn (protect (write_pn n (pnum mod 2 ^ (8 * n))) mask) mask (u64 L) = (pnum, u64 (Z.max L pnum)).
Proof.
  intros Hn HL Hp Hm Hw. assert (2 ^ (8 * n) = 2 * 2 ^ (8 * n - 1)) as EW by (rewrite <-Z.pow_succ_r by lia; f_equal; lia).
  assert (1 <= 2 ^ (8 * n - 1) <= 2 ^ 31) as HH by (split; [apply (Z.pow_le_mono_r 2 0); lia|apply Z.pow_le_mono_r; lia]).
  assert (2 ^ (8 * n) = 256 ^ n) as E256 by (rewrite Z.pow_mul_r by lia; reflexivity).
  set (t := pnum mod 2 ^ (8 * n)). assert (0 <= t < 2 ^ (8 * n)) as Ht by (apply Z.mod_pos_bound; lia).
  destruct (truncated_back n t mask Hn ltac:(lia) Hm) as [Hz Hl]. unfold ngx_quic_parse_pn. rewrite Hz, Hl.
  replace (Z.min (n * 8) 62) with (8 * n) by lia. rewrite Z.shiftl_1_l.
  replace (u64 (u64 L + 1)) with (L + 1) by (unfold u64; rewrite Zplus_mod_idemp_l, Z.mod_small; lia).
  rewrite land_high, lor_disjoint by lia. set (H := 2 ^ (8 * n - 1)) in *. set (W := 2 ^ (8 * n)) in *.
  replace (W / 2) with H by (rewrite EW, Z.mul_comm, Z.div_mul; lia).
  pose proof (Z.div_mod (L + 1) W ltac:(lia)) as Eq. pose proof (Z.mod_pos_bound (L + 1) W ltac:(lia)) as He.
  pose proof (Z.div_mod pnum W ltac:(lia)) as Ep. fold t in Ep.
  set (q := (L + 1) / W) in *. set (q' := pnum / W) in *. set (e := (L + 1) mod W) in *.
  assert (q' = q - 1 \/ q' = q \/ q' = q + 1) as Hq by nia.
  assert (W * q' = q * W + (q' - q) * W) as EA by ring. set (A := q * W) in *.
  assert (W * q = A) as EA' by (unfold A; ring). rewrite EA' in Eq. rewrite EA in Ep. clearbody A. clear EA EA'.
  change (Z.shiftl 1 62) with (2 ^ 62). rewrite i64_u64 by lia. rewrite (u64_small (L + 1 + H)) by lia.
  assert (i64 (A + t) = A + t) as -> by (unfold i64; replace (_ <? _) with true by lia; reflexivity).
  replace (i64 (u64 L)) with L by (rewrite i64_u64; lia).
  set (c := if _ && _ then _ else _). assert (c = pnum) as ->.
  { unfold c. destruct Hq as [->|[->| ->]].
    - replace (_ && (A + t <? 2 ^ 62 - W)) with false by lia. replace (_ && _) with true by lia. lia.
    - replace (_ && (A + t <? 2 ^ 62 - W)) with false by lia. replace (_ && _) with false by lia. lia.
    - replace (_ && (A + t <? 2 ^ 62 - W)) with true by lia. rewrite u64_small; lia. }
  f_equal. unfold i64. replace (pnum <? 2 ^ 63) with true by lia. reflexivity.
Qed.

(** C28: A packet number survives its truncation: from the one to four bytes
    that ngx_quic_set_packet_number() chooses, written and protected with any
    mask, ngx_quic_parse_pn() finds the number and the new largest one, for
    every receiver that has got what it has acknowledged and is not half a
    window ahead, also when packets come out of order. [-1] is the unset
    number. *)
Theorem packet_number_recovered pnum la L mask :
  0 <= pnum < 2 ^ 62 -> -1 <= la <= L -> L < 2 ^ 62 -> 0 <= pnum - la <= 0x7fffffff -> 4 <= zlen mask ->
  let '(n, trunc) := ngx_quic_set_packet_number pnum (u64 la) in
  L + 1 - 2 ^ (8 * n - 1) < pnum ->
  ngx_quic_parse_pn (protect (write_pn n trunc) mask) mask (u64 L) = (pnum, u64 (Z.max L pnum)).
Proof.
  intros Hp Hla HL Hd Hm. unfold ngx_quic_set_packet_number.
  replace (u64 (pnum - u64 la)) with (pnum - la) by (unfold u64; rewrite Zminus_mod_idemp_r, Z.mod_small; lia).
  assert (forall k, 0 <= k -> Z.land pnum (2 ^ k - 1) = pnum mod 2 ^ k) as Hk
    by (intros k ?; rewrite <-Z.land_ones by lia; f_equal; rewrite Z.ones_equiv; lia).
  pose proof (Hk 8 ltac:(lia)) as H1. pose proof (Hk 16 ltac:(lia)) as H2. pose proof (Hk 24 ltac:(lia)) as H3. pose proof (Hk 32 ltac:(lia)) as H4.
  change (2 ^ 8 - 1) with 0xff in H1. change (2 ^ 16 - 1) with 0xffff in H2. change (2 ^ 24 - 1) with 0xffffff in H3. change (2 ^ 32 - 1) with 0xffffffff in H4.
  repeat destruct (_ <=? _) eqn:? in |- *; intros Hw; rewrite ?H1, ?H2, ?H3, ?H4.
  - apply (parse_pn_window 1); try lia; change (2 ^ (8 * 1 - 1)) with 128 in *; lia.
  - apply (parse_pn_window 2); try lia; change (2 ^ (8 * 2 - 1)) with 32768 in *; lia.
  - apply (parse_pn_window 3); try lia; change (2 ^ (8 * 3 - 1)) with 8388608 in *; lia.
  - apply (parse_pn_window 4); try lia; change (2 ^ (8 * 4 - 1)) with 2147483648 in *; lia.
Qed.

(** ** Headers *)

Lemma uint32_back x rest : 0 <= x < 2 ^ 32 -> ngx_quic_read_uint32 (ngx_quic_write_uint32 x ++ rest) = Some (x, rest).
Proof.
  intros Hx. unfold ngx_quic_write_uint32. cbn [app ngx_quic_read_uint32]. do 2 f_equal.
  unfold u8. rewrite !Z.shiftr_div_pow2 by lia. rewrite !Z.shiftl_mul_pow2 by lia.
  rewrite (lor_disjoint _ (_ mod _) 8) by (try apply Z.mod_pos_bound; lia). rewrite (lor_disjoint _ (_ * 2 ^ 16) 24) by div_lia.
  replace (_ * 2 ^ 24 + _ * 2 ^ 16) with (((x / 2 ^ 24) mod 2 ^ 8 * 2 ^ 8 + (x / 2 ^ 16) mod 2 ^ 8) * 2 ^ 16) by lia.
  rewrite lor_disjoint by div_lia. div_lia.
Qed.

(** A header that is created, of a packet with [num_len] bytes of its number
    and a payload of [payload] bytes and the tag. *)
Record creatable (h : header) : Prop := {
  cr_version : version h = 1;
  cr_dcid : zlen (dcid h) <= NGX_QUIC_CID_LEN_MAX;
  cr_scid : zlen (scid h) <= NGX_QUIC_CID_LEN_MAX;
  cr_long : ngx_quic_long_pkt (flags h) = true;
  cr_fixed : fixed_bit (flags h) = true;
  cr_type : (pkt_type (flags h) NGX_QUIC_PKT_INITIAL = true /\ lvl h = Initial) \/
            (pkt_type (flags h) NGX_QUIC_PKT_HANDSHAKE = true /\ lvl h = Handshake)
}.

Lemma read_id (d : list Z) : zlen d <= NGX_QUIC_CID_LEN_MAX ->
  u8 (zlen d) = zlen d /\ (zlen d >? NGX_QUIC_CID_LEN_MAX) = false.
Proof. unfold u8, NGX_QUIC_CID_LEN_MAX, zlen. intros H. rewrite Z.mod_small by lia. lia. Qed.

(** The bits of the first byte that are not protected. *)
Lemma flags_high fl fl' m : Z.land m 0xf0 = m -> Z.land fl 0xf0 = Z.land fl' 0xf0 -> Z.land fl m = Z.land fl' m.
Proof. intros Hm H. rewrite <-Hm, !(Z.land_comm m), !Z.land_assoc, H. reflexivity. Qed.

Lemma write_pn_len n v : 1 <= n <= 4 -> zlen (write_pn n v) = n.
Proof. intros Hn. assert (n = 1 \/ n = 2 \/ n = 3 \/ n = 4) as Hc by lia. destruct Hc as [->|[->|[->| ->]]]; reflexivity. Qed.

Section Headers.
Variable tag_len : Z.
Hypothesis Htag : 0 <= tag_len.

Lemma long_header_back h n trunc payload fl rest : creatable h -> 1 <= n <= 4 -> 0 <= payload -> payload + tag_len <= zlen rest -> zlen rest < 2 ^ 32 ->
  let b := ngx_quic_create_long_header tag_len h n trunc payload in
  Z.land fl 0xf0 = Z.land (flags h) 0xf0 -> (lvl h = Initial -> NGX_QUIC_MIN_INITIAL_SIZE <= zlen b + zlen rest) ->
  ngx_quic_parse_packet fl (tl b ++ rest) =
    Header (mk_header fl 1 (dcid h) (scid h) [] (lvl h) (zlen b + payload + tag_len)) (write_pn n trunc ++ rest).
Proof.
  intros [V D S Hl Hf Ht] Hn Hp Hr Hr2 b Hfl Hi.
  assert (forall m, Z.land m 0xf0 = m -> Z.land fl m = Z.land (flags h) m) as Hm by (intros m E; apply flags_high; assumption).
  unfold ngx_quic_parse_packet, ngx_quic_long_pkt. rewrite Hm by reflexivity. fold (ngx_quic_long_pkt (flags h)). rewrite Hl. cbn [negb].
  destruct (read_id (dcid h) D) as [Ed1 Ed2]. destruct (read_id (scid h) S) as [Es1 Es2].
  unfold ngx_quic_parse_long_header, fixed_bit. rewrite Hm by reflexivity. fold (fixed_bit (flags h)). rewrite Hf.
  set (N := 1 + zlen (tl b ++ rest)).
  assert (N = zlen b + zlen rest) as EN by (unfold N; rewrite zlen_app; unfold b, ngx_quic_create_long_header; cbn [app tl]; rewrite zlen_cons; lia).
  remember (zlen b) as B eqn:EB. clear EB. unfold b, ngx_quic_create_long_header. rewrite V, Ed1, Es1. cbn [app tl]. rewrite <-!app_assoc, uint32_back by lia. cbn [negb app ngx_quic_read_uint8].
  rewrite Ed2, <-!app_assoc, read_bytes_app. cbn [app ngx_quic_read_uint8]. rewrite Es2, <-!app_assoc, read_bytes_app. cbn [version].
  change (ngx_quic_supported_version 1) with true. cbn [negb]. unfold ngx_quic_parse_long_header_v1, pkt_type. cbn [flags len].
  rewrite !Hm by reflexivity. fold (pkt_type (flags h) NGX_QUIC_PKT_INITIAL) (pkt_type (flags h) NGX_QUIC_PKT_ZRTT) (pkt_type (flags h) NGX_QUIC_PKT_HANDSHAKE).
  assert (var (n + payload + tag_len)) as Hv by (unfold var; lia). pose proof (write_pn_len n trunc Hn) as Hw.
  assert (forall h' lv, parse_length h' [] lv N (ngx_quic_build_int (n + payload + tag_len) ++ write_pn n trunc ++ rest) =
    Header (mk_header (flags h') (version h') (dcid h') (scid h') [] lv (B + payload + tag_len)) (write_pn n trunc ++ rest)) as Hpl.
  { intros h' lv. unfold parse_length. rewrite parse_build_int by exact Hv. rewrite zlen_app, Hw. replace (_ >? _) with false by lia. do 2 f_equal. lia. }
  destruct Ht as [[Ht El]|[Ht El]]; rewrite El.
  - rewrite Ht. replace (N <? NGX_QUIC_MIN_INITIAL_SIZE) with false by (specialize (Hi El); lia).
    rewrite parse_build_int by (unfold var; lia). rewrite read_bytes_none, Hpl. reflexivity.
  - rewrite Ht. replace (pkt_type (flags h) NGX_QUIC_PKT_INITIAL) with false by (unfold pkt_type, NGX_QUIC_PKT_HANDSHAKE, NGX_QUIC_PKT_INITIAL in *; lia).
    replace (pkt_type (flags h) NGX_QUIC_PKT_ZRTT) with false by (unfold pkt_type, NGX_QUIC_PKT_HANDSHAKE, NGX_QUIC_PKT_ZRTT in *; lia).
    cbn [app]. rewrite Hpl. reflexivity.
Qed.


Lemma short_header_back h n trunc fl rest : zlen (dcid h) = NGX_QUIC_SERVER_CID_LEN -> ngx_quic_long_pkt fl = false -> fixed_bit fl = true ->
  let b := ngx_quic_create_short_header h n trunc in
  ngx_quic_parse_packet fl (tl b ++ rest) = Header (mk_header fl 0 (dcid h) [] [] Application (zlen b + zlen rest)) (write_pn n trunc ++ rest).
Proof.
  intros D Hl Hf b. unfold ngx_quic_parse_packet, ngx_quic_parse_short_header. rewrite Hl, Hf. unfold b, ngx_quic_create_short_header.
  cbn [app tl negb]. rewrite <-app_assoc, <-D, read_bytes_app. f_equal. f_equal. rewrite zlen_cons, !zlen_app. lia.
Qed.

Lemma varint_len_mono v w : v <= w -> 1 <= ngx_quic_varint_len v <= ngx_quic_varint_len w.
Proof.
  intros H. unfold ngx_quic_varint_len. change (Z.shiftl 1 6) with 64. change (Z.shiftl 1 14) with 16384. change (Z.shiftl 1 30) with 1073741824.
  destruct (v <? 64) eqn:?, (w <? 64) eqn:?, (v <? 16384) eqn:?, (w <? 16384) eqn:?, (v <? 1073741824) eqn:?, (w <? 1073741824) eqn:?; lia.
Qed.

(** A payload of the size computed for a packet fits it, with its header and
    the tag. *)
Lemma payload_fits h n pkt_len : 0 < n -> let size := ngx_quic_payload_size tag_len h n pkt_len in
  0 < size -> (if ngx_quic_long_pkt (flags h) then ngx_quic_create_long_header_len tag_len h n size else ngx_quic_create_short_header_len h n) + size + tag_len <= pkt_len.
Proof.
  intros Hn. unfold ngx_quic_payload_size, ngx_quic_create_long_header_len, ngx_quic_create_short_header_len.
  destruct (ngx_quic_long_pkt (flags h)); cbn [negb]; cbv zeta; [|destruct (_ >? _) eqn:?; lia].
  set (k := 5 + 2 + zlen (dcid h) + zlen (scid h) + _). set (v := ngx_quic_varint_len (pkt_len - k)).
  destruct (k >? pkt_len) eqn:E1; [lia|]. destruct (k + v + n + tag_len >? pkt_len) eqn:E2; [lia|]. intros Hs.
  assert (1 <= v) by (apply (varint_len_mono (pkt_len - k) (pkt_len - k)); lia).
  pose proof (varint_len_mono (n + (pkt_len - (k + v + n + tag_len)) + tag_len) (pkt_len - k) ltac:(lia)) as Hv.
  change (ngx_quic_varint_len (pkt_len - k)) with v in Hv. lia.
Qed.

End Headers.

(** C29: The header of a packet comes back: what is created for an Initial, a
    Handshake or a short packet is parsed as the same header, for every value
    of the protected bits of its first byte, with the length of the packet in
    its datagram and the packet number next; and a payload of the size that
    ngx_quic_payload_size() gives fits the packet with its header and its
    tag. *)
Theorem header_roundtrip tag_len h n trunc payload fl rest :
  0 <= tag_len -> 1 <= n <= 4 -> 0 <= payload -> payload + tag_len <= zlen rest < 2 ^ 32 -> Z.land fl 0xf0 = Z.land (flags h) 0xf0 ->
  (creatable h ->
   let b := ngx_quic_create_long_header tag_len h n trunc payload in
   (lvl h = Initial -> NGX_QUIC_MIN_INITIAL_SIZE <= zlen b + zlen rest) ->
   zlen b = ngx_quic_create_long_header_len tag_len h n payload /\
   ngx_quic_parse_packet fl (tl b ++ rest) =
     Header (mk_header fl 1 (dcid h) (scid h) [] (lvl h) (zlen b + payload + tag_len)) (write_pn n trunc ++ rest)) /\
  (zlen (dcid h) = NGX_QUIC_SERVER_CID_LEN -> ngx_quic_long_pkt (flags h) = false -> fixed_bit (flags h) = true ->
   let b := ngx_quic_create_short_header h n trunc in
   zlen b = ngx_quic_create_short_header_len h n /\
   ngx_quic_parse_packet fl (tl b ++ rest) =
     Header (mk_header fl 0 (dcid h) [] [] Application (zlen b + zlen rest)) (write_pn n trunc ++ rest)) /\
  (forall pkt_len, payload = ngx_quic_payload_size tag_len h n pkt_len -> 0 < payload ->
   (if ngx_quic_long_pkt (flags h) then ngx_quic_create_long_header_len tag_len h n payload else ngx_quic_create_short_header_len h n)
     + payload + tag_len <= pkt_len).
Proof.
  intros Ht Hn Hp Hr Hfl. split; [|split].
  - intros Hc b Hi. split; [|apply long_header_back; auto; lia]. unfold b, ngx_quic_create_long_header, ngx_quic_create_long_header_len, ngx_quic_write_uint32.
    rewrite !zlen_app. rewrite write_pn_len by exact Hn. rewrite (build_int_len (n + payload + tag_len)) by (unfold var; lia).
    change (ngx_quic_build_int 0) with [0]. destruct (lvl h); rewrite ?zlen_cons; change (zlen (@nil Z)) with 0; lia.
  - intros D Hl Hf b. split; [unfold b, ngx_quic_create_short_header, ngx_quic_create_short_header_len; rewrite !zlen_app, write_pn_len by exact Hn; rewrite zlen_cons; change (zlen (@nil Z)) with 0; lia|].
    assert (forall m, Z.land m 0xf0 = m -> Z.land fl m = Z.land (flags h) m) as Hm by (intros m E; apply flags_high; assumption).
    apply short_header_back; [exact D| |]; [unfold ngx_quic_long_pkt|unfold fixed_bit]; rewrite Hm by reflexivity; assumption.
  - intros pkt_len -> Hs. apply payload_fits; [lia|exact Hs].
Qed.

(** ** Examples *)

(** A.1 of RFC 9000. *)
Example varints :
  ngx_quic_parse_int [0xc2; 0x19; 0x7c; 0x5e; 0xff; 0x14; 0xe8; 0x8c] = Some (151288809941952652, []) /\
  ngx_quic_parse_int [0x9d; 0x7f; 0x3e; 0x7d] = Some (494878333, []) /\
  ngx_quic_parse_int [0x7b; 0xbd] = Some (15293, []) /\ ngx_quic_parse_int [0x40; 0x25] = Some (37, []) /\
  ngx_quic_parse_int [0x25] = Some (37, []).
Proof. repeat split; reflexivity. Qed.

(** A.3 of RFC 9000. *)
Example packet_number_ex : ngx_quic_parse_pn [0x9b; 0x32] [0; 0] 0xa82f30ea = (0xa82f9b32, 0xa82f9b32).
Proof. reflexivity. Qed.

(** An ACK frame with ECN counts is parsed, and has no handler. *)
Example ack_ecn_refused :
  let p := [0x03; 0x0a; 0x00; 0x00; 0x00; 0x00; 0x00; 0x00] in
  ngx_quic_frame_allowed 0x40 NGX_QUIC_FT_ACK_ECN = NGX_OK /\
  ngx_quic_parse_frame 0x40 p = Frame 8 (mk_frame NGX_QUIC_FT_ACK_ECN (U_ack (mk_ack 10 0 0 0 0 0 0 0)) []) /\
  payload_frames unit (fun c _ => Some c) 0x40 p tt = Some (Payload_error unit None).
Proof. repeat split; reflexivity. Qed.

Definition sample_frames : list frame :=
  [mk_frame NGX_QUIC_FT_ACK (U_ack (mk_ack 1000 25 2 3 0 0 0 5)) [0x01; 0x02; 0x40; 0x64; 0x00];
   mk_frame NGX_QUIC_FT_MAX_STREAMS (U_max_streams 128 false) [];
   mk_frame NGX_QUIC_FT_STREAM (U_stream 4 70000 3 true false true) [0x61; 0x62; 0x63]].

Definition sample_payload : list Z :=
  [0x02; 0x43; 0xe8; 0x19; 0x02; 0x03; 0x01; 0x02; 0x40; 0x64; 0x00; 0x13; 0x40; 0x80; 0x0d; 0x04; 0x80; 0x01; 0x11; 0x70; 0x61; 0x62; 0x63].

Lemma sample_created : created 0x40 sample_frames sample_payload.
Proof.
  apply (created_cons 0x40 _ [0x02; 0x43; 0xe8; 0x19; 0x02; 0x03; 0x01; 0x02; 0x40; 0x64; 0x00]); [|reflexivity|reflexivity|discriminate|].
  { split; [intros [H|H]; discriminate H|]. cbn [u data]. unfold var. cbn [largest delay range_count first_range ect0 ect1 ce ranges_length].
    do 4 (split; [lia|]). do 4 (split; [reflexivity|]). exists [(1, 2); (100, 0)]. split; [reflexivity|]. split; [reflexivity|]. repeat constructor; discriminate. }
  apply (created_cons 0x40 _ [0x13; 0x40; 0x80]); [|reflexivity|reflexivity|discriminate|].
  { split; [intros [H|H]; discriminate H|]. cbn [u data]. split; [lia|reflexivity]. }
  apply (created_cons 0x40 _ [0x0d; 0x04; 0x80; 0x01; 0x11; 0x70; 0x61; 0x62; 0x63] [] []); [|reflexivity|reflexivity|reflexivity|constructor].
  split; [intros [H|H]; discriminate H|]. cbn [u data]. unfold var. do 2 (split; [lia|]). split; [discriminate|]. split; [lia|reflexivity].
Qed.

Lemma frames_roundtrip_witness :
  payload_frames (list frame) (fun c f => Some (c ++ [f])) 0x40 sample_payload [] =
    Some (Payload (list frame) (map received sample_frames) true false true).
Proof. rewrite (proj2 (frames_roundtrip (fun c f => Some (c ++ [f])) 0x40 sample_frames sample_payload [] sample_created)). reflexivity. Defined.

Lemma frames_read_witness :
  (exists r, payload_frames nat (fun c _ => Some (S c)) 0x40 sample_payload 0%nat = Some r) /\
  match ngx_quic_parse_frame 0x40 sample_payload with Frame n _ => 0 < n <= zlen sample_payload | Frame_error err => err <> None end.
Proof.
  apply (frames_read (fun c _ => Some (S c)) 0x40 sample_payload 0%nat). unfold sample_payload. repeat constructor; discriminate.
Defined.

(** The 301st packet, with 300 acknowledged, reaches a receiver that has got
    350 of them. *)
Lemma packet_number_recovered_witness :
  ngx_quic_parse_pn (protect (write_pn 1 0x2d) [0xaa; 0xbb; 0xcc; 0xdd]) [0xaa; 0xbb; 0xcc; 0xdd] 350 = (301, 350).
Proof. apply (packet_number_recovered 301 300 350 [0xaa; 0xbb; 0xcc; 0xdd]); vm_compute; intuition discriminate. Defined.

Definition sample_header : header := mk_header 0xe1 1 [1; 2; 3; 4; 5; 6; 7; 8] [9; 9; 9] [] Handshake 0.

(** The low bits of the first byte are protected. *)
Lemma header_roundtrip_witness :
  let b := ngx_quic_create_long_header 16 sample_header 2 300 4 in
  ngx_quic_parse_packet 0xee (tl b ++ repeat 0 30) = Header (mk_header 0xee 1 [1; 2; 3; 4; 5; 6; 7; 8] [9; 9; 9] [] Handshake 41) (write_pn 2 300 ++ repeat 0 30).
Proof.
  assert (creatable sample_header) as Hc by (constructor; try reflexivity; try discriminate; right; split; reflexivity).
  destruct (header_roundtrip 16 sample_header 2 300 4 0xee (repeat 0 30)) as [H _]; [lia|lia|lia|vm_compute; intuition discriminate|reflexivity|].
  apply (H Hc). discriminate.
Defined.

End QuicTransport.
