(* ===== verification/NgxQuicAck.v ===== *)
(** * Acknowledgements of QUIC

    The packet numbers that were received and are reported in ACK frames, the
    creation of the frames, and the handling of those that are received:
    [src/event/quic/ngx_event_quic_ack.c], with ngx_quic_send_ack() of
    [ngx_event_quic_output.c].  A context keeps the largest number, the length
    of the range that ends there and at most ten ranges below it, each by the
    gap before it and its own length.  Loss detection, the congestion window
    and the round trip time, which the handler of ACK frames calls, are not
    modelled.  The numbers that ngx_quic_drop_ack_ranges() keeps in variables
    of type [ngx_uint_t] are 64-bit ones here, as they are on 64-bit
    platforms. *)

From Stdlib Require Import ZArith Lia ZifyBool.
From stdpp Require Import base option tactics list sorting.
From S2P Require Import Prelude NgxQuicTransport.
Import QuicTransport(u64, u64_small, frame, mk_frame, U_ack, mk_ack, ack_frame, range_bytes, var, NGX_QUIC_FT_ACK, NGX_QUIC_FT_ACK_ECN,
  NGX_QUIC_FT_STREAM, NGX_QUIC_FT_RESET_STREAM, NGX_QUIC_ERR_FRAME_ENCODING_ERROR, NGX_QUIC_ERR_PROTOCOL_VIOLATION, ngx_quic_parse_ack_range).

Local Open Scope Z_scope.

Module QuicAck.

Definition NGX_QUIC_UNSET_PN : Z := 2 ^ 64 - 1.
Definition NGX_QUIC_MAX_RANGES : nat := 10.
Definition NGX_QUIC_MAX_ACK_GAP : Z := 2.

(** ** The packets received

    The fields of [ngx_quic_send_ctx_t] for them; [ranges] are the first
    [nranges] pairs of a gap and a range, [frames] the frames to send. *)
Record ctx := mk_ctx {
  largest_range : Z; first_range : Z; ranges : list (Z * Z);
  largest_received : Z; pending_ack : Z; send_ack : Z; ack_delay_start : Z;
  frames : list frame
}.

Definition set_base (lg fr rcv : Z) (c : ctx) : ctx :=
  mk_ctx lg fr (ranges c) rcv (pending_ack c) (send_ack c) (ack_delay_start c) (frames c).
Definition set_first (fr : Z) (c : ctx) : ctx := set_base (largest_range c) fr (largest_received c) c.
Definition set_ranges (l : list (Z * Z)) (c : ctx) : ctx :=
  mk_ctx (largest_range c) (first_range c) l (largest_received c) (pending_ack c) (send_ack c) (ack_delay_start c) (frames c).
Definition set_pending (p : Z) (c : ctx) : ctx :=
  mk_ctx (largest_range c) (first_range c) (ranges c) (largest_received c) p (send_ack c) (ack_delay_start c) (frames c).
Definition set_send (n start : Z) (c : ctx) : ctx :=
  mk_ctx (largest_range c) (first_range c) (ranges c) (largest_received c) (pending_ack c) n start (frames c).
Definition queue_frame (f : frame) (c : ctx) : ctx :=
  mk_ctx (largest_range c) (first_range c) (ranges c) (largest_received c) (pending_ack c) (send_ack c) (ack_delay_start c) (frames c ++ [f]).

(** [pkt->pn], [pkt->need_ack] and [pkt->received] *)
Record packet := mk_packet { pn : Z; need_ack : bool; received : Z }.

Section Received.
Variable now : Z.                  (* ngx_current_msec *)
Variable ack_delay_exponent : Z.
Variable alloc : ctx -> bool.      (* the memory for a frame and its ranges *)

Definition ngx_quic_send_ack (c : ctx) : option ctx :=
  let ack_delay := Z.shiftr (u64 (u64 (now - largest_received c) * 1000)) ack_delay_exponent in
  if negb (alloc c) then None
  else
    let d := range_bytes (ranges c) in
    Some (queue_frame (mk_frame NGX_QUIC_FT_ACK
      (U_ack (mk_ack (largest_range c) ack_delay (zlen (ranges c)) (first_range c) 0 0 0 (zlen d))) d) c).

Definition ngx_quic_send_ack_range (smallest largest : Z) (c : ctx) : option ctx :=
  if negb (alloc c) then None
  else Some (queue_frame (mk_frame NGX_QUIC_FT_ACK (U_ack (mk_ack largest 0 0 (u64 (largest - smallest)) 0 0 0 0)) []) c).

(** [ctx->first_range += n] for the first range, else
    [ctx->ranges[i - 1].range += n]. *)
Definition grow (i : nat) (n : Z) (c : ctx) : ctx :=
  match i with
  | O => set_first (u64 (first_range c + n)) c
  | S i => set_ranges (alter (fun '(g, r) => (g, u64 (r + n))) i (ranges c)) c
  end.

(** The label [insert]: a last range that does not fit is lost. *)
Definition insert_range (i : nat) (gap range : Z) (c : ctx) : ctx :=
  set_ranges (take NGX_QUIC_MAX_RANGES (take i (ranges c) ++ (gap, range) :: drop i (ranges c))) c.

Definition full (c : ctx) : bool := Nat.eqb (length (ranges c)) NGX_QUIC_MAX_RANGES.

(** The ranges are sent before one of them is lost. *)
Definition make_room (prev_pending : Z) (p : packet) (c : ctx) : option ctx :=
  if full c then
    match (if negb (prev_pending =? NGX_QUIC_UNSET_PN) then ngx_quic_send_ack c else Some c) with
    | None => None
    | Some c =>
        Some (if (prev_pending =? pending_ack c) || negb (need_ack p) then set_pending NGX_QUIC_UNSET_PN c else c)
    end
  else Some c.

(** A packet in the gap [gs, ge] before the range [i]. *)
Definition in_gap (prev_pending : Z) (p : packet) (i : nat) (gap range gs ge : Z) (c : ctx) : option ctx :=
  if gs =? ge then
    let c := grow i (u64 (range + 2)) c in
    Some (set_ranges (take i (ranges c) ++ drop (S i) (ranges c)) c)
  else if pn p =? gs then Some (set_ranges (<[i := (u64 (gap - 1), u64 (range + 1))]> (ranges c)) c)
  else if pn p =? ge then Some (grow i 1 (set_ranges (<[i := (u64 (gap - 1), range)]> (ranges c)) c))
  else
    match make_room prev_pending p c with
    | None => None
    | Some c =>
        Some (insert_range i (u64 (ge - pn p - 1)) 0 (set_ranges (<[i := (u64 (pn p - gs - 1), range)]> (ranges c)) c))
    end.

(** The lookup in the ranges, of which [l] are those from [i] on, and what
    comes after it. *)
Fixpoint lookup_loop (prev_pending : Z) (p : packet) (i : nat) (smallest : Z) (l : list (Z * Z)) (c : ctx) : option ctx :=
  match l with
  | (gap, range) :: l =>
      let ge := u64 (smallest - 1) in
      let gs := u64 (ge - gap) in
      if (pn p >=? gs) && (pn p <=? ge) then in_gap prev_pending p i gap range gs ge c
      else
        let largest := u64 (smallest - gap - 2) in
        let smallest := u64 (largest - range) in
        if (pn p >=? smallest) && (pn p <=? largest) then Some c
        else lookup_loop prev_pending p (S i) smallest l c
  | [] =>
      if pn p =? u64 (smallest - 1) then Some (grow i 1 c)
      else if full c then if need_ack p then ngx_quic_send_ack_range (pn p) (pn p) c else Some c
      else Some (insert_range i (u64 (smallest - 2 - pn p)) 0 c)
  end.

(** [None] is NGX_ERROR. *)
Definition ngx_quic_ack_packet (p : packet) (c : ctx) : option ctx :=
  let prev_pending := pending_ack c in
  let c :=
    if need_ack p then
      let c := set_send (send_ack c + 1) (if send_ack c =? 0 then now else ack_delay_start c) c in
      if (pending_ack c =? NGX_QUIC_UNSET_PN) || (pending_ack c <? pn p) then set_pending (pn p) c else c
    else c in
  let base := largest_range c in
  if base =? NGX_QUIC_UNSET_PN then Some (set_base (pn p) (first_range c) (received p) c)
  else if base =? pn p then Some c
  else
    let out_of_order c := if need_ack p then set_send NGX_QUIC_MAX_ACK_GAP (ack_delay_start c) c else c in
    let smallest := u64 (base - first_range c) in
    if pn p >? base then
      if u64 (pn p - base) =? 1 then Some (set_base (pn p) (u64 (first_range c + 1)) (received p) c)
      else
        match make_room prev_pending p c with
        | None => None
        | Some c =>
            let gap := u64 (pn p - base - 2) in
            let range := first_range c in
            Some (insert_range 0 gap range (out_of_order (set_base (pn p) 0 (received p) c)))
        end
    else
      let c := out_of_order c in
      if (pn p >=? smallest) && (pn p <=? base) then Some c
      else lookup_loop prev_pending p 0 smallest (ranges c) c.

(** The loop of [ngx_quic_drop_ack_ranges]: the ranges that are left. *)
Fixpoint drop_loop (number smallest : Z) (l : list (Z * Z)) : list (Z * Z) :=
  match l with
  | [] => []
  | (gap, range) :: l =>
      let largest := u64 (smallest - gap - 2) in
      let smallest := u64 (largest - range) in
      if number >=? largest then []
      else if number >=? smallest then [(gap, u64 (largest - number - 1))]
      else (gap, range) :: drop_loop number smallest l
  end.

Definition ngx_quic_drop_ack_ranges (number : Z) (c : ctx) : ctx :=
  let base := largest_range c in
  if base =? NGX_QUIC_UNSET_PN then c
  else
    let c :=
      if negb (pending_ack c =? NGX_QUIC_UNSET_PN) && (number >=? pending_ack c) then set_pending NGX_QUIC_UNSET_PN c else c in
    let largest := base in
    let smallest := u64 (largest - first_range c) in
    if number >=? largest then set_ranges [] (set_base NGX_QUIC_UNSET_PN 0 (largest_received c) c)
    else if number >=? smallest then set_ranges [] (set_first (u64 (largest - number - 1)) c)
    else set_ranges (drop_loop number smallest (ranges c)) c.

(** The context after it, and the delay of the timer that is set; [None] is
    NGX_ERROR. *)
Definition ngx_quic_generate_ack (application timer_set closing : bool) (max_ack_delay : Z) (c : ctx) : option (ctx * option Z) :=
  if send_ack c =? 0 then Some (c, None)
  else
    let delay := u64 (now - ack_delay_start c) in
    if application && (send_ack c <? NGX_QUIC_MAX_ACK_GAP) && (delay <? max_ack_delay) then
      Some (c, if negb timer_set && negb closing then Some (max_ack_delay - delay) else None)
    else
      match ngx_quic_send_ack c with
      | None => None
      | Some c => Some (set_send 0 (ack_delay_start c) c, None)
      end.

End Received.
(** ** The packets sent

    A frame in [ctx->sent]: its packet, the time it was sent, its type, and
    the largest number of an ACK frame. *)
Record sent_frame := mk_sent { pnum : Z; last : Z; ftype : Z; ack_largest : Z }.

(** The context of the packets sent, with that of the packets received, and
    the frames that were acknowledged, in the order in which
    ngx_quic_congestion_ack() and ngx_quic_handle_stream_ack() get them. *)
Record sender := mk_sender { sent : list sent_frame; next_pnum : Z; largest_ack : Z; rcvd : ctx; acked : list sent_frame }.

(** [ngx_quic_ack_stat_t]; [None] is NGX_TIMER_INFINITE. *)
Record ack_stat := mk_stat { max_pn : option Z; oldest : option Z; newest : option Z }.

Definition earliest (x : option Z) (t : Z) : option Z :=
  match x with Some y => if t <? y then Some t else x | None => Some t end.
Definition latest (x : option Z) (t : Z) : option Z :=
  match x with Some y => if t >? y then Some t else x | None => Some t end.

(** The effects of an acknowledged frame. *)
Definition ack_sent (max : Z) (f : sent_frame) (c : ctx) (st : ack_stat) : ctx * ack_stat :=
  ((if (ftype f =? NGX_QUIC_FT_ACK) || (ftype f =? NGX_QUIC_FT_ACK_ECN) then ngx_quic_drop_ack_ranges (ack_largest f) c else c),
   mk_stat (if pnum f =? max then Some (last f) else max_pn st) (earliest (oldest st) (last f)) (latest (newest st) (last f))).

(** The loop over the queue: the frames that stay and those that do not. *)
Fixpoint sent_loop (min max : Z) (l : list sent_frame) (c : ctx) (st : ack_stat) : list sent_frame * list sent_frame * ctx * ack_stat :=
  match l with
  | [] => ([], [], c, st)
  | f :: l =>
      if pnum f >? max then (f :: l, [], c, st)
      else if pnum f >=? min then
        let '(c, st) := ack_sent max f c st in
        let '(keep, gone, c, st) := sent_loop min max l c st in
        (keep, f :: gone, c, st)
      else
        let '(keep, gone, c, st) := sent_loop min max l c st in
        (f :: keep, gone, c, st)
  end.

(** [inr] is NGX_ERROR with [qc->error]. *)
Definition ngx_quic_handle_ack_frame_range (min max : Z) (s : sender) (st : ack_stat) : (sender * ack_stat) + Z :=
  let st := mk_stat None (oldest st) (newest st) in
  let '(keep, gone, c, st) := sent_loop min max (sent s) (rcvd s) st in
  match gone with
  | [] => if max <? next_pnum s then inl (s, st) else inr NGX_QUIC_ERR_PROTOCOL_VIOLATION
  | _ => inl (mk_sender keep (next_pnum s) (largest_ack s) c (acked s ++ gone), st)
  end.

(** The ranges after the first one, from the data of the frame; a frame whose
    ranges cannot be parsed has [qc->error] as it was. *)
Fixpoint ranges_loop (count : nat) (min : Z) (p : list Z) (s : sender) (st : ack_stat) : (sender * ack_stat) + option Z :=
  match count with
  | O => inl (s, st)
  | S count =>
      match ngx_quic_parse_ack_range p with
      | None => inr None
      | Some (gap, range, p) =>
          if u64 (gap + 2) >? min then inr (Some NGX_QUIC_ERR_FRAME_ENCODING_ERROR)
          else
            let max := u64 (min - gap - 2) in
            if range >? max then inr (Some NGX_QUIC_ERR_FRAME_ENCODING_ERROR)
            else
              let min := u64 (max - range) in
              match ngx_quic_handle_ack_frame_range min max s st with
              | inr e => inr (Some e)
              | inl (s, st) => ranges_loop count min p s st
              end
      end
  end.

(** The context after the ranges, the statistics for the detection of losses,
    and whether the round trip time is sampled. *)
Definition ngx_quic_handle_ack_frame (a : ack_frame) (data : list Z) (s : sender) : (sender * ack_stat * option Z) + option Z :=
  let largest := QuicTransport.largest a in
  let first := QuicTransport.first_range a in
  if first >? largest then inr (Some NGX_QUIC_ERR_FRAME_ENCODING_ERROR)
  else
    let min := u64 (largest - first) in
    let max := largest in
    match ngx_quic_handle_ack_frame_range min max s (mk_stat None None None) with
    | inr e => inr (Some e)
    | inl (s, st) =>
        let newer := (largest_ack s <? max) || (largest_ack s =? NGX_QUIC_UNSET_PN) in
        let s := if newer then mk_sender (sent s) (next_pnum s) max (rcvd s) (acked s) else s in
        let rtt_sample := if newer then max_pn st else None in
        match ranges_loop (Z.to_nat (QuicTransport.range_count a)) min data s st with
        | inr e => inr e
        | inl (s, st) => inl (s, st, rtt_sample)
        end
    end.

(** ** Sets of packet numbers *)

(** The numbers of ranges below [s]: a range [(g, r)] leaves out [g + 1]
    numbers and has [r + 1]. The first range is the one without gap below
    [largest_range + 2]. *)
Fixpoint below (s : Z) (l : list (Z * Z)) (n : Z) : Prop :=
  match l with
  | [] => False
  | (g, r) :: l => s - g - 2 - r <= n <= s - g - 2 \/ below (s - g - 2 - r) l n
  end.

Fixpoint bottom (s : Z) (l : list (Z * Z)) : Z :=
  match l with [] => s | (g, r) :: l => bottom (s - g - 2 - r) l end.

Fixpoint fits (s : Z) (l : list (Z * Z)) : Prop :=
  match l with
  | [] => True
  | (g, r) :: l => 0 <= g /\ 0 <= r /\ 0 <= s - g - 2 - r /\ fits (s - g - 2 - r) l
  end.

Definition blocks (c : ctx) : list (Z * Z) := (0, first_range c) :: ranges c.
Definition top (c : ctx) : Z := largest_range c + 2.

Definition covers (c : ctx) (n : Z) : Prop := largest_range c <> NGX_QUIC_UNSET_PN /\ below (top c) (blocks c) n.

Definition wf (c : ctx) : Prop :=
  (length (ranges c) <= NGX_QUIC_MAX_RANGES)%nat /\
  ((largest_range c = NGX_QUIC_UNSET_PN /\ first_range c = 0 /\ ranges c = []) \/
   (var (largest_range c) /\ fits (top c) (blocks c))).

Lemma below_app s l1 l2 n : below s (l1 ++ l2) n <-> below s l1 n \/ below (bottom s l1) l2 n.
Proof. revert s. induction l1 as [|[g r] l1 IH]; intros s; cbn [below bottom app]; [tauto|]. rewrite IH. tauto. Qed.

Lemma bottom_app s l1 l2 : bottom s (l1 ++ l2) = bottom (bottom s l1) l2.
Proof. revert s. induction l1 as [|[g r] l1 IH]; intros s; cbn [bottom app]; [reflexivity|]. apply IH. Qed.

Lemma fits_app s l1 l2 : fits s (l1 ++ l2) <-> fits s l1 /\ fits (bottom s l1) l2.
Proof. revert s. induction l1 as [|[g r] l1 IH]; intros s; cbn [fits bottom app]; [tauto|]. rewrite IH. tauto. Qed.

Lemma bottom_le s l : fits s l -> bottom s l <= s.
Proof. revert s. induction l as [|[g r] l IH]; intros s; cbn [fits bottom]; [lia|]. intros (? & ? & ? & H). apply IH in H. lia. Qed.

Lemma below_bounds s l n : fits s l -> below s l n -> bottom s l <= n <= s - 2.
Proof.
  revert s. induction l as [|[g r] l IH]; intros s; cbn [fits below bottom]; [tauto|]. intros (? & ? & ? & H) [Hn|Hn].
  - apply bottom_le in H. lia.
  - apply IH in Hn; [lia|exact H].
Qed.

(** The context [c'] has the numbers of [c] and [n]; when there is no place
    for all the ranges, what is lost is below all that is kept; nothing is
    lost unless [lossy]. *)
Definition adds (lossy : Prop) (n : Z) (c c' : ctx) : Prop :=
  wf c' /\ (forall m, covers c' m -> covers c m \/ m = n) /\
  (forall m, covers c m \/ m = n -> covers c' m \/ (lossy /\ full c = true /\ forall k, covers c' k -> m < k)).

(** All the blocks before the last one may be lost. *)
Lemma adds_intro (lossy : Prop) n c c' L : largest_range c' <> NGX_QUIC_UNSET_PN -> var (largest_range c') -> fits (top c') L ->
  blocks c' = take (S NGX_QUIC_MAX_RANGES) L -> ((length L <= S NGX_QUIC_MAX_RANGES)%nat \/ (lossy /\ full c = true)) ->
  (forall m, below (top c') L m <-> covers c m \/ m = n) -> adds lossy n c c'.
Proof.
  intros Hu Hv Hf HL Hlen Hb. rewrite <-(take_drop (S NGX_QUIC_MAX_RANGES) L) in Hf, Hb. rewrite <-HL in Hf, Hb. apply fits_app in Hf as [Hf1 Hf2].
  assert (forall m, covers c' m <-> below (top c') (blocks c') m) as Hc by (unfold covers; tauto).
  assert (forall m, covers c m \/ m = n <-> covers c' m \/ below (bottom (top c') (blocks c')) (drop (S NGX_QUIC_MAX_RANGES) L) m) as Hin
    by (intros m; rewrite <-Hb, below_app, Hc; tauto).
  split; [|split].
  - split; [|right; split; assumption]. assert (length (blocks c') = length (take (S NGX_QUIC_MAX_RANGES) L)) as E by congruence.
    cbn [blocks length] in E. rewrite length_take in E. lia.
  - intros m Hm. apply Hin. left. exact Hm.
  - intros m Hm. apply Hin in Hm as [Hm|Hm]; [left; exact Hm|]. right. split.
    + destruct Hlen as [Hlen|[Hlen _]]; [|exact Hlen]. rewrite drop_ge in Hm by lia. destruct Hm.
    + split; [destruct Hlen as [Hlen|[_ Hlen]]; [|exact Hlen]; rewrite drop_ge in Hm by lia; destruct Hm|]. intros k Hk. apply Hc in Hk. apply below_bounds in Hm; [|exact Hf2]. apply below_bounds in Hk; [|exact Hf1]. lia.
Qed.

Lemma full_spec c : full c = true <-> length (ranges c) = NGX_QUIC_MAX_RANGES.
Proof. unfold full. apply Nat.eqb_eq. Qed.

Lemma wf_open c : wf c -> largest_range c <> NGX_QUIC_UNSET_PN -> var (largest_range c) /\ fits (top c) (blocks c) /\
  (length (ranges c) <= NGX_QUIC_MAX_RANGES)%nat /\ forall m, covers c m <-> below (top c) (blocks c) m.
Proof.
  intros [Hl [[H _]|[Hv Hf]]] Hu; [contradiction|]. split; [exact Hv|]. split; [exact Hf|]. split; [exact Hl|]. intros m. unfold covers. tauto.
Qed.

(** ** Changes of one block *)

Ltac small := rewrite ?u64_small by lia.

(** The block before the range [i], which is the last one of [l1]. *)
Lemma blocks_grow c l1 g r l2 n : blocks c = l1 ++ (g, r) :: l2 -> blocks (grow (length l1) n c) = l1 ++ (g, u64 (r + n)) :: l2.
Proof.
  intros E. destruct l1 as [|x l1]; cbn [length grow]; unfold blocks in *; cbn [app] in *.
  - injection E as <- <- El. cbn. rewrite El. reflexivity.
  - injection E as <- El. cbn. rewrite El. f_equal. replace (length l1) with (length l1 + 0)%nat by lia. rewrite alter_app_r. reflexivity.
Qed.

Lemma blocks_set c l1 x y l2 z : blocks c = l1 ++ x :: y :: l2 -> blocks (set_ranges (<[length l1 := z]> (ranges c)) c) = l1 ++ x :: z :: l2.
Proof.
  intros E. change (blocks (set_ranges ?l c)) with ((0, first_range c) :: l).
  change ((0, first_range c) :: <[length l1:=z]> (ranges c)) with (<[S (length l1) := z]> (blocks c)). rewrite E.
  replace (S (length l1)) with (length l1 + 1)%nat by lia. rewrite insert_app_r. reflexivity.
Qed.

Lemma blocks_delete c l1 x y l2 : blocks c = l1 ++ x :: y :: l2 ->
  blocks (set_ranges (take (length l1) (ranges c) ++ drop (S (length l1)) (ranges c)) c) = l1 ++ x :: l2.
Proof.
  intros E. change (blocks (set_ranges ?l c)) with ((0, first_range c) :: l).
  change ((0, first_range c) :: take (length l1) (ranges c) ++ drop (S (length l1)) (ranges c))
    with (take (S (length l1)) (blocks c) ++ drop (S (S (length l1))) (blocks c)). rewrite E.
  replace (S (length l1)) with (length l1 + 1)%nat by lia. rewrite take_app_add. replace (S (length l1 + 1)) with (length l1 + 2)%nat by lia.
  rewrite drop_app_add. cbn. rewrite ?take_0, ?drop_0, <-app_assoc. reflexivity.
Qed.

Lemma blocks_insert c l1 x l2 g r : blocks c = l1 ++ x :: l2 ->
  blocks (insert_range (length l1) g r c) = take (S NGX_QUIC_MAX_RANGES) (l1 ++ x :: (g, r) :: l2).
Proof.
  intros E. unfold insert_range. change (blocks (set_ranges ?l c)) with ((0, first_range c) :: l).
  change ((0, first_range c) :: take NGX_QUIC_MAX_RANGES (take (length l1) (ranges c) ++ (g, r) :: drop (length l1) (ranges c)))
    with (take (S NGX_QUIC_MAX_RANGES) (take (S (length l1)) (blocks c) ++ (g, r) :: drop (S (length l1)) (blocks c))). rewrite E.
  replace (S (length l1)) with (length l1 + 1)%nat by lia. rewrite take_app_add, drop_app_add. cbn [take drop]. rewrite ?take_0, ?drop_0, <-app_assoc. reflexivity.
Qed.

(** The numbers that are received do not change. *)
Definition same_ranges (c c' : ctx) : Prop := largest_range c' = largest_range c /\ first_range c' = first_range c /\ ranges c' = ranges c.

Lemma same_blocks c c' : same_ranges c c' -> blocks c' = blocks c /\ top c' = top c.
Proof. unfold blocks, top. intros (-> & -> & ->). split; reflexivity. Qed.

Lemma same_covers c c' : same_ranges c c' -> (forall m, covers c' m <-> covers c m) /\ (wf c -> wf c').
Proof. intros H. pose proof (same_blocks c c' H) as [E1 E2]. unfold covers, wf. rewrite E1, E2. destruct H as (-> & -> & ->). tauto. Qed.

Lemma largest_grow i n c : largest_range (grow i n c) = largest_range c.
Proof. destruct i; reflexivity. Qed.

Lemma adds_step (lossy : Prop) n c c' L : wf c -> largest_range c <> NGX_QUIC_UNSET_PN -> largest_range c' = largest_range c -> fits (largest_range c + 2) L ->
  blocks c' = take (S NGX_QUIC_MAX_RANGES) L -> ((length L <= S NGX_QUIC_MAX_RANGES)%nat \/ (lossy /\ full c = true)) ->
  (forall m, below (largest_range c + 2) L m <-> covers c m \/ m = n) -> adds lossy n c c'.
Proof.
  intros Hw Hu El Hf HL Hlen Hb. destruct (wf_open c Hw Hu) as (Hv & _). apply (adds_intro lossy n c c' L); unfold top; rewrite ?El; assumption.
Qed.

Fixpoint belowb (s : Z) (l : list (Z * Z)) (n : Z) : bool :=
  match l with
  | [] => false
  | (g, r) :: l => ((s - g - 2 - r <=? n) && (n <=? s - g - 2)) || belowb (s - g - 2 - r) l n
  end.

Lemma belowb_spec s l n : below s l n <-> belowb s l n = true.
Proof. revert s. induction l as [|[g r] l IH]; intros s; cbn [below belowb]; [split; [tauto|discriminate]|]. rewrite IH. lia. Qed.

Lemma below_bool s l n : exists b : bool, below s l n <-> b = true.
Proof. eexists. apply belowb_spec. Qed.

(** Blocks whose bottoms are the same numbers. *)
Ltac same_bottom := first [exact I | eassumption | match goal with H : fits ?x ?l |- fits ?y ?l => replace y with x by lia; exact H end].
Ltac fits_blocks Hf1 Ebot := apply fits_app; split; [exact Hf1|]; cbn [fits]; rewrite Ebot; repeat (split; [lia|]); same_bottom.
Ltac below_blocks Hcov Ebot :=
  let m := fresh "m" in intros m; rewrite Hcov, below_app; cbn [below]; rewrite ?Ebot;
  repeat match goal with
    | H : fits ?x ?l |- context[below ?y ?l m] => lazymatch y with x => fail | _ => replace y with x by lia end
  end;
  repeat match goal with |- context[below ?y ?l m] => let b := fresh in let Hb := fresh in destruct (below_bool y l m) as [b Hb]; rewrite Hb; clear Hb end;
  lia.

Section Steps.
Variable now exponent : Z.
Variable alloc : ctx -> bool.

Lemma send_ack_same c c' : ngx_quic_send_ack now exponent alloc c = Some c' -> same_ranges c c'.
Proof. unfold ngx_quic_send_ack. destruct (negb _); [discriminate|]. intros [= <-]. repeat split. Qed.

Lemma make_room_same prev p c c' : make_room now exponent alloc prev p c = Some c' -> same_ranges c c'.
Proof.
  unfold make_room. destruct (full c); [|intros [= <-]; repeat split]. destruct (negb (prev =? _)).
  - destruct (ngx_quic_send_ack _ _ _ c) as [c1|] eqn:E; [|discriminate]. apply send_ack_same in E. intros [= <-]. destruct (_ || _); exact E.
  - intros [= <-]. destruct (_ || _); repeat split.
Qed.

(** An ACK frame that reports the numbers [Q]. *)
Definition reports (f : frame) (Q : Z -> Prop) : Prop :=
  QuicTransport.type f = NGX_QUIC_FT_ACK /\ exists lg dl fr rs,
    QuicTransport.u f = U_ack (mk_ack lg dl (zlen rs) fr 0 0 0 (zlen (QuicTransport.data f))) /\
    QuicTransport.data f = range_bytes rs /\ forall n, Q n <-> below (lg + 2) ((0, fr) :: rs) n.

(** A number that is lost was reported in a frame, unless there was nothing
    to report, or it is that of a packet that needs no acknowledgement. *)
Definition noted (prev : Z) (p : packet) (c : ctx) (fs : list frame) (m : Z) : Prop :=
  (exists f Q, In f fs /\ reports f Q /\ Q m) \/ (covers c m /\ prev = NGX_QUIC_UNSET_PN) \/ (m = pn p /\ need_ack p = false).

Definition acks (prev : Z) (p : packet) (c c' : ctx) : Prop :=
  adds True (pn p) c c' /\ exists fs, frames c' = frames c ++ fs /\
    forall m, covers c m \/ m = pn p -> covers c' m \/ noted prev p c fs m.

Lemma acks_whole prev p c c' : adds False (pn p) c c' -> frames c' = frames c -> acks prev p c c'.
Proof.
  intros (Hw & H1 & H2) Hf. split; [split; [exact Hw|split; [exact H1|]]|exists []; split; [rewrite app_nil_r; exact Hf|]];
    intros m Hm; destruct (H2 m Hm) as [H|[[] _]]; left; exact H.
Qed.

Lemma send_ack_reports c c' : wf c -> largest_range c <> NGX_QUIC_UNSET_PN -> ngx_quic_send_ack now exponent alloc c = Some c' ->
  exists f, frames c' = frames c ++ [f] /\ reports f (covers c).
Proof.
  intros Hw Hu E. destruct (wf_open c Hw Hu) as (_ & _ & _ & Hc). unfold ngx_quic_send_ack in E. destruct (negb _); [discriminate|]. injection E as <-.
  eexists. split; [reflexivity|]. split; [reflexivity|]. do 4 eexists. split; [reflexivity|]. split; [reflexivity|]. exact Hc.
Qed.

Lemma make_room_frames prev p c c1 : wf c -> largest_range c <> NGX_QUIC_UNSET_PN -> make_room now exponent alloc prev p c = Some c1 ->
  exists fs, frames c1 = frames c ++ fs /\ (full c = true -> prev <> NGX_QUIC_UNSET_PN -> exists f, In f fs /\ reports f (covers c)).
Proof.
  intros Hw Hu E. unfold make_room in E. destruct (full c); [|injection E as <-; exists []; rewrite app_nil_r; split; [reflexivity|discriminate]].
  destruct (prev =? NGX_QUIC_UNSET_PN) eqn:Ep; cbn [negb] in E.
  - injection E as <-. exists []. rewrite app_nil_r. split; [destruct (_ || _); reflexivity|lia].
  - destruct (ngx_quic_send_ack _ _ _ c) as [c2|] eqn:E2; [|discriminate]. destruct (send_ack_reports c c2 Hw Hu E2) as (f & Ef & Hf).
    injection E as <-. exists [f]. split; [destruct (_ || _); exact Ef|]. intros _ _. exists f. split; [left; reflexivity|exact Hf].
Qed.

Lemma acks_room prev p c c1 c' : wf c -> largest_range c <> NGX_QUIC_UNSET_PN -> make_room now exponent alloc prev p c = Some c1 ->
  frames c' = frames c1 -> adds True (pn p) c c' -> covers c' (pn p) -> acks prev p c c'.
Proof.
  intros Hw Hu E Ef Ha Hp. split; [exact Ha|]. destruct (make_room_frames prev p c c1 Hw Hu E) as (fs & Efs & Hr). exists fs. split; [congruence|].
  intros m Hm. destruct Ha as (_ & _ & H2). destruct (H2 m Hm) as [H|(_ & Hf & _)]; [left; exact H|]. destruct Hm as [Hm| ->]; [|left; exact Hp]. right.
  destruct (decide (prev = NGX_QUIC_UNSET_PN)) as [Hu'|Hu']; [right; left; auto|]. left. destruct (Hr Hf Hu') as (f & Hf1 & Hf2). exists f, (covers c). auto.
Qed.

(** The first blocks are kept. *)
Lemma covers_kept c l1 l2 g r n : largest_range c <> NGX_QUIC_UNSET_PN -> blocks c = take (S NGX_QUIC_MAX_RANGES) (l1 ++ (g, r) :: l2) ->
  (length l1 <= NGX_QUIC_MAX_RANGES)%nat -> let b := bottom (top c) l1 in b - g - 2 - r <= n <= b - g - 2 -> covers c n.
Proof.
  intros Hu Eb Hl b Hn. split; [exact Hu|]. rewrite Eb, take_app_ge by lia. apply below_app. right.
  replace (S NGX_QUIC_MAX_RANGES - length l1)%nat with (S (NGX_QUIC_MAX_RANGES - length l1)) by lia. cbn [take below]. left. exact Hn.
Qed.

(** One block more. *)
Lemma grown (lossy : Prop) c (L : list (Z * Z)) : lossy -> (length (ranges c) <= NGX_QUIC_MAX_RANGES)%nat -> length L = S (length (blocks c)) ->
  ((length L <= S NGX_QUIC_MAX_RANGES)%nat \/ (lossy /\ full c = true)).
Proof. intros Hl H E. rewrite full_spec, E. cbn [blocks length]. destruct (decide (length (ranges c) = NGX_QUIC_MAX_RANGES)); [right; auto|left; lia]. Qed.

(** No block is lost. *)
Ltac count := left; rewrite length_app; cbn [length]; lia.
Ltac whole := rewrite take_ge; [reflexivity|rewrite length_app; cbn [length]; lia].

(** A packet in the gap between two ranges. *)
Lemma in_gap_adds prev p c l1 g0 r0 g r l2 c' : wf c -> largest_range c <> NGX_QUIC_UNSET_PN -> blocks c = l1 ++ (g0, r0) :: (g, r) :: l2 ->
  let ge := bottom (top c) (l1 ++ [(g0, r0)]) - 1 in
  ge - g <= pn p <= ge -> in_gap now exponent alloc prev p (length l1) g r (ge - g) ge c = Some c' -> acks prev p c c'.
Proof.
  intros Hw Hu Eb ge Hp E. pose proof (f_equal length Eb) as Hn. destruct (wf_open c Hw Hu) as (Hv & Hf & Hlen & Hc). pose proof (below_bounds (top c) (blocks c)) as _.
  assert (length (blocks c) <= S NGX_QUIC_MAX_RANGES)%nat as Hl by (cbn [blocks length]; lia).
  unfold ge in *. clear ge. rewrite bottom_app in Hp, E. cbn [bottom] in Hp, E.
  rewrite Eb in Hf, Hl. apply fits_app in Hf as [Hf1 Hf2]. pose proof (bottom_le _ _ Hf1) as Hb. cbn [fits] in Hf2. destruct Hf2 as (? & ? & ? & ? & ? & ? & Hf2).
  unfold var, top in *. remember (bottom (largest_range c + 2) l1) as b eqn:Ebot. symmetry in Ebot.
  assert (forall m, covers c m <-> below (largest_range c + 2) l1 m \/ b - g0 - 2 - r0 <= m <= b - g0 - 2 \/
    b - g0 - 2 - r0 - g - 2 - r <= m <= b - g0 - 2 - r0 - g - 2 \/ below (b - g0 - 2 - r0 - g - 2 - r) l2 m) as Hcov
    by (intros m; rewrite Hc, Eb, below_app, Ebot; reflexivity).
  unfold in_gap in E. destruct (_ =? _) eqn:E1 in E; [|destruct (pn p =? _) eqn:E2 in E; [|destruct (pn p =? _) eqn:E3 in E]].
  - injection E as <-. pose proof (blocks_delete _ l1 _ _ l2 (blocks_grow c l1 g0 r0 ((g, r) :: l2) (u64 (r + 2)) Eb)) as Eb'.
    revert Eb'. small. intros Eb'. rewrite length_app in Hl. cbn [length] in Hl.
    apply acks_whole; [|destruct (length l1); reflexivity].
    apply (adds_step False _ c _ (l1 ++ (g0, r0 + (r + 2)) :: l2)); [exact Hw|exact Hu|apply largest_grow|fits_blocks Hf1 Ebot| | |below_blocks Hcov Ebot].
    + rewrite Eb'. whole.
    + count.
  - injection E as <-. small. pose proof (blocks_set c l1 _ _ l2 (g - 1, r + 1) Eb) as Eb'. rewrite length_app in Hl. cbn [length] in Hl.
    apply acks_whole; [|reflexivity].
    apply (adds_step False _ c _ (l1 ++ (g0, r0) :: (g - 1, r + 1) :: l2)); [exact Hw|exact Hu|reflexivity|fits_blocks Hf1 Ebot| | |below_blocks Hcov Ebot].
    + rewrite Eb'. whole.
    + count.
  - injection E as <-. small. pose proof (blocks_grow _ l1 _ _ _ 1 (blocks_set c l1 _ _ l2 (g - 1, r) Eb)) as Eb'.
    revert Eb'. small. intros Eb'. rewrite length_app in Hl. cbn [length] in Hl.
    apply acks_whole; [|destruct (length l1); reflexivity].
    apply (adds_step False _ c _ (l1 ++ (g0, r0 + 1) :: (g - 1, r) :: l2)); [exact Hw|exact Hu|rewrite largest_grow; reflexivity|fits_blocks Hf1 Ebot| | |below_blocks Hcov Ebot].
    + rewrite Eb'. whole.
    + count.
  - destruct (make_room now exponent alloc prev p c) as [c1|] eqn:E4; [|discriminate]. injection E as <-. pose proof (make_room_same _ _ _ _ E4) as E4'. destruct (same_blocks _ _ E4') as [Eb1 _].
    small. rewrite <-Eb1 in Eb. pose proof (blocks_insert _ l1 _ _ (b - g0 - 2 - r0 - 1 - pn p - 1) 0 (blocks_set c1 l1 _ _ l2 (pn p - (b - g0 - 2 - r0 - 1 - g) - 1, r) Eb)) as Eb'.
    rewrite length_app in Hl. cbn [length] in Hl. destruct E4' as [E4' _].
    set (c2 := insert_range _ _ _ _) in *. assert (largest_range c2 = largest_range c) as El by exact E4'.
    apply (acks_room prev p c c1); [exact Hw|exact Hu|exact E4|reflexivity| |].
    + apply (adds_step True _ c _ (l1 ++ (g0, r0) :: (b - g0 - 2 - r0 - 1 - pn p - 1, 0) :: (pn p - (b - g0 - 2 - r0 - 1 - g) - 1, r) :: l2));
        [exact Hw|exact Hu|exact El|fits_blocks Hf1 Ebot|exact Eb'| |below_blocks Hcov Ebot].
      apply grown; [exact I|exact Hlen|]. rewrite Hn, !length_app. cbn [length]. lia.
    + apply (covers_kept c2 (l1 ++ [(g0, r0)]) ((pn p - (b - g0 - 2 - r0 - 1 - g) - 1, r) :: l2) (b - g0 - 2 - r0 - 1 - pn p - 1) 0).
      * rewrite El. exact Hu.
      * rewrite <-app_assoc. exact Eb'.
      * rewrite length_app. cbn [length]. lia.
      * unfold top. rewrite El, bottom_app. cbn [bottom]. rewrite Ebot. lia.
Qed.

(** The number is there, or it is below all the ranges that have room. *)
Lemma acks_known prev p c c' : wf c -> same_ranges c c' -> frames c' = frames c -> covers c (pn p) -> acks prev p c c'.
Proof.
  intros Hw Hs Hf Hn. destruct (same_covers c c' Hs) as [Hc Hw']. apply acks_whole; [|exact Hf]. split; [apply Hw', Hw|].
  split; intros m; rewrite Hc; [tauto|]. intros [Hm| ->]; left; assumption.
Qed.

Lemma acks_lost prev p c c' : wf c -> full c = true -> (forall m, covers c m -> pn p < m) -> 0 <= pn p ->
  (if need_ack p then ngx_quic_send_ack_range alloc (pn p) (pn p) c else Some c) = Some c' -> acks prev p c c'.
Proof.
  intros Hw Hf Hn H0 E. assert (same_ranges c c') as Hs.
  { destruct (need_ack p); [|injection E as <-; repeat split]. unfold ngx_quic_send_ack_range in E. destruct (negb _); [discriminate|]. injection E as <-. repeat split. }
  destruct (same_covers c c' Hs) as [Hc Hw']. split.
  - split; [apply Hw', Hw|]. split; intros m; rewrite Hc; [tauto|]. intros [Hm| ->]; [left; assumption|]. right. split; [exact I|]. split; [exact Hf|].
    intros k Hk. apply Hn, Hc, Hk.
  - destruct (need_ack p) eqn:En.
    + unfold ngx_quic_send_ack_range in E. destruct (negb _); [discriminate|]. injection E as <-. eexists. split; [reflexivity|].
      intros m [Hm| ->]; [left; apply Hc, Hm|]. right. left. do 2 eexists. split; [left; reflexivity|]. split; [|exact eq_refl].
      split; [reflexivity|]. rewrite Z.sub_diag. exists (pn p), 0, 0, []. split; [reflexivity|]. split; [reflexivity|]. intros n. cbn [below]. lia.
    + injection E as <-. exists []. rewrite app_nil_r. split; [reflexivity|]. intros m [Hm| ->]; [left; exact Hm|]. right. right. right. auto.
Qed.

Lemma lookup_adds prev p l : forall c l1 g0 r0 c', wf c -> largest_range c <> NGX_QUIC_UNSET_PN -> blocks c = l1 ++ (g0, r0) :: l ->
  let smallest := bottom (top c) (l1 ++ [(g0, r0)]) in
  0 <= pn p < smallest -> lookup_loop now exponent alloc prev p (length l1) smallest l c = Some c' -> acks prev p c c'.
Proof.
  induction l as [|[g r] l IH]; intros c l1 g0 r0 c' Hw Hu Eb smallest Hp E.
  - destruct (wf_open c Hw Hu) as (Hv & Hf & Hlen & Hc). pose proof (f_equal length Eb) as Hn. cbn [lookup_loop] in E.
    assert (forall m, covers c m -> smallest <= m) as Hlow.
    { intros m Hm. apply Hc in Hm. rewrite Eb in Hm, Hf. apply below_bounds in Hm; [|exact Hf]. unfold smallest. lia. }
    unfold smallest in *. clear smallest. rewrite bottom_app in Hp, E, Hlow. cbn [bottom] in Hp, E, Hlow. rewrite Eb in Hf. apply fits_app in Hf as [Hf1 Hf2].
    pose proof (bottom_le _ _ Hf1) as Hb. cbn [fits] in Hf2. destruct Hf2 as (? & ? & ? & _). unfold var, top in *. remember (bottom (largest_range c + 2) l1) as b eqn:Ebot. symmetry in Ebot.
    assert (forall m, covers c m <-> below (largest_range c + 2) l1 m \/ b - g0 - 2 - r0 <= m <= b - g0 - 2 \/ False) as Hcov
      by (intros m; rewrite Hc, Eb, below_app, Ebot; reflexivity).
    revert E. small. intros E. destruct (pn p =? _) eqn:E1 in E.
    + injection E as <-. pose proof (blocks_grow c l1 g0 r0 [] 1 Eb) as Eb'. revert Eb'. small. intros Eb'. rewrite length_app in Hn. cbn [length] in Hn.
      assert (length (blocks c) <= S NGX_QUIC_MAX_RANGES)%nat as Hl by (cbn [blocks length]; lia).
      apply acks_whole; [|destruct (length l1); reflexivity].
      apply (adds_step False _ c _ (l1 ++ [(g0, r0 + 1)])); [exact Hw|exact Hu|apply largest_grow|fits_blocks Hf1 Ebot| | |below_blocks Hcov Ebot].
      * rewrite Eb'. whole.
      * count.
    + destruct (full c) eqn:Ef.
      * apply (acks_lost prev p c c' Hw Ef); [intros m Hm; apply Hlow in Hm; lia|lia|exact E].
      * revert E. small. intros [= <-]. pose proof (blocks_insert c l1 (g0, r0) [] (b - g0 - 2 - r0 - 2 - pn p) 0 Eb) as Eb'.
        assert (length (l1 ++ [(g0, r0); ((b - g0 - 2 - r0 - 2 - pn p)%Z, 0%Z)]) <= S NGX_QUIC_MAX_RANGES)%nat as Hk.
        { assert (length (ranges c) <> NGX_QUIC_MAX_RANGES) as Hne by (intros Hx; apply full_spec in Hx; congruence).
          rewrite length_app in *. cbn [blocks length] in *. lia. }
        apply acks_whole; [|reflexivity].
        apply (adds_step False _ c _ (l1 ++ [(g0, r0); (b - g0 - 2 - r0 - 2 - pn p, 0)])); [exact Hw|exact Hu|reflexivity|fits_blocks Hf1 Ebot|exact Eb'| |below_blocks Hcov Ebot].
        left. exact Hk.
  - destruct (wf_open c Hw Hu) as (Hv & Hf & Hlen & Hc).
    assert (smallest = bottom (top c) l1 - g0 - 2 - r0) as Es by (unfold smallest; rewrite bottom_app; reflexivity).
    pose proof Hf as Hf'. rewrite Eb in Hf'. apply fits_app in Hf' as [Hf1 Hf2]. pose proof (bottom_le _ _ Hf1) as Hb. cbn [fits] in Hf2.
    destruct Hf2 as (? & ? & ? & ? & ? & ? & Hf2). unfold var, top in *. cbn [lookup_loop] in E.
    rewrite (u64_small (smallest - 1)), (u64_small (smallest - g - 2)) in E by lia. rewrite (u64_small (smallest - 1 - g)), (u64_small (smallest - g - 2 - r)) in E by lia.
    destruct ((pn p >=? smallest - 1 - g) && (pn p <=? smallest - 1)) eqn:E1.
    + apply (in_gap_adds prev p c l1 g0 r0 g r l); [exact Hw|exact Hu|exact Eb| |exact E]. change (smallest - 1 - g <= pn p <= smallest - 1). lia.
    + destruct ((pn p >=? smallest - g - 2 - r) && (pn p <=? smallest - g - 2)) eqn:E2.
      * injection E as <-. apply acks_known; [exact Hw|repeat split|reflexivity|]. apply Hc. rewrite Eb, below_app. right. cbn [below]. right. left. lia.
      * assert (blocks c = (l1 ++ [(g0, r0)]) ++ (g, r) :: l) as Eb' by (rewrite <-app_assoc; exact Eb).
        apply (IH c (l1 ++ [(g0, r0)]) g r c' Hw Hu Eb').
        -- rewrite bottom_app. fold smallest. cbn [bottom]. lia.
        -- rewrite bottom_app. fold smallest. cbn [bottom]. rewrite length_app. replace (length l1 + length [(g0, r0)])%nat with (S (length l1)) by (cbn; lia). exact E.
Qed.

(** The fields of the timers and of what is pending. *)
Lemma acks_same prev p c c0 c' : same_ranges c c0 -> frames c0 = frames c -> acks prev p c0 c' -> acks prev p c c'.
Proof.
  intros Hs Ef [(Hw & H1 & H2) (fs & Efs & H3)]. destruct (same_covers c c0 Hs) as [Hc _].
  assert (full c0 = full c) as Eu by (unfold full; destruct Hs as (_ & _ & ->); reflexivity). split.
  - split; [exact Hw|]. split; [intros m Hm; rewrite <-Hc; apply H1, Hm|]. intros m Hm. rewrite <-Hc in Hm. rewrite <-Eu. apply H2, Hm.
  - exists fs. split; [congruence|]. intros m Hm. rewrite <-Hc in Hm. destruct (H3 m Hm) as [H|[H|[[H H']|H]]]; [left; exact H| | |].
    + right. left. exact H.
    + right. right. left. split; [apply Hc, H|exact H'].
    + right. right. right. exact H.
Qed.

(** A number above all others. *)
Lemma new_largest prev p c c' rcv : wf c -> largest_range c <> NGX_QUIC_UNSET_PN -> var (pn p) -> largest_range c < pn p ->
  (if u64 (pn p - largest_range c) =? 1 then Some (set_base (pn p) (u64 (first_range c + 1)) rcv c)
   else match make_room now exponent alloc prev p c with
        | None => None
        | Some c1 => Some (insert_range 0 (u64 (pn p - largest_range c - 2)) (first_range c1)
            (if need_ack p then set_send NGX_QUIC_MAX_ACK_GAP (ack_delay_start (set_base (pn p) 0 rcv c1)) (set_base (pn p) 0 rcv c1) else set_base (pn p) 0 rcv c1))
        end) = Some c' -> acks prev p c c'.
Proof.
  intros Hw Hu Hp Hlt E. destruct (wf_open c Hw Hu) as (Hv & Hf & Hlen & Hc). pose proof Hf as Hf0. cbn [blocks fits] in Hf. destruct Hf as (_ & ? & ? & Hf).
  unfold var, top in *.
  assert (forall m, covers c m <-> largest_range c + 2 - 0 - 2 - first_range c <= m <= largest_range c + 2 - 0 - 2 \/
    below (largest_range c + 2 - 0 - 2 - first_range c) (ranges c) m) as Hcov by (intros m; rewrite Hc; reflexivity).
  assert (forall c2, largest_range c2 = pn p -> largest_range c2 <> NGX_QUIC_UNSET_PN) as Hu2 by (intros c2 ->; unfold NGX_QUIC_UNSET_PN; lia).
  revert E. small. intros E. destruct (_ =? 1) eqn:E1.
  - injection E as <-. apply acks_whole; [|reflexivity].
    apply (adds_intro False (pn p) c _ ((0, first_range c + 1) :: ranges c)); [apply Hu2; reflexivity|exact Hp| | | |].
    + cbn [fits top]. unfold top. cbn [largest_range set_base]. repeat (split; [lia|]). same_bottom.
    + rewrite take_ge by (cbn [length]; lia). unfold blocks. cbn [first_range ranges set_base]. small. reflexivity.
    + left. cbn [length]. lia.
    + unfold top. cbn [largest_range set_base]. intros m. rewrite Hcov. cbn [below].
      replace (pn p + 2 - 0 - 2 - (first_range c + 1)) with (largest_range c + 2 - 0 - 2 - first_range c) by lia.
      destruct (below_bool (largest_range c + 2 - 0 - 2 - first_range c) (ranges c) m) as [b Hb]. rewrite Hb. lia.
  - destruct (make_room now exponent alloc prev p c) as [c1|] eqn:E4; [|discriminate]. injection E as <-. pose proof (make_room_same _ _ _ _ E4) as (S1 & S2 & S3).
    set (c2 := insert_range _ _ _ _).
    assert (blocks c2 = take (S NGX_QUIC_MAX_RANGES) ((0, 0) :: (pn p - largest_range c - 2, first_range c) :: ranges c)) as Eb
      by (unfold c2, blocks, insert_range; rewrite S2; small; destruct (need_ack p); cbn [first_range ranges set_ranges set_send set_base]; rewrite S3, take_0, drop_0; reflexivity).
    assert (largest_range c2 = pn p) as El by (unfold c2; destruct (need_ack p); reflexivity).
    apply (acks_room prev p c c1); [exact Hw|exact Hu|exact E4|unfold c2; destruct (need_ack p); reflexivity| |].
    + apply (adds_intro True (pn p) c c2 ((0, 0) :: (pn p - largest_range c - 2, first_range c) :: ranges c)); [apply Hu2, El|rewrite El; exact Hp| |exact Eb| |].
      * unfold top. rewrite El. cbn [fits]. repeat (split; [lia|]). same_bottom.
      * apply grown; [exact I|exact Hlen|reflexivity].
      * unfold top. rewrite El. intros m. rewrite Hcov. cbn [below].
        replace (pn p + 2 - 0 - 2 - 0 - (pn p - largest_range c - 2) - 2 - first_range c) with (largest_range c + 2 - 0 - 2 - first_range c) by lia.
        destruct (below_bool (largest_range c + 2 - 0 - 2 - first_range c) (ranges c) m) as [b Hb]. rewrite Hb. lia.
    + apply (covers_kept c2 [] ((pn p - largest_range c - 2, first_range c) :: ranges c) 0 0 (pn p)); [apply Hu2, El|exact Eb|cbn; lia|].
      unfold top. rewrite El. cbn [bottom]. lia.
Qed.

Lemma ack_packet_acks p c c' : wf c -> var (pn p) -> ngx_quic_ack_packet now exponent alloc p c = Some c' -> acks (pending_ack c) p c c'.
Proof.
  intros Hw Hp E. unfold ngx_quic_ack_packet in E.
  set (c0 := if need_ack p then _ else c) in E. assert (same_ranges c c0 /\ frames c0 = frames c) as [Hs Ef].
  { unfold c0. destruct (need_ack p); [|repeat split]. destruct (_ || _); repeat split. }
  clearbody c0. apply (acks_same _ p c c0 c' Hs Ef). destruct (same_covers c c0 Hs) as [_ Hw0]. specialize (Hw0 Hw). clear Hs Ef Hw. cbv zeta in E.
  destruct (largest_range c0 =? NGX_QUIC_UNSET_PN) eqn:Eu.
  - injection E as <-. apply acks_whole; [|reflexivity]. destruct Hw0 as [Hl [(Hu & Hf & Hr)|[Hv _]]]; [|unfold var, NGX_QUIC_UNSET_PN in *; lia].
    apply (adds_intro False (pn p) c0 _ [(0, 0)]); cbn [largest_range set_base].
    + unfold var, NGX_QUIC_UNSET_PN in *. lia.
    + exact Hp.
    + unfold top, var in *. cbn. lia.
    + unfold blocks. cbn [first_range ranges set_base]. rewrite Hf, Hr. reflexivity.
    + left. cbn. unfold NGX_QUIC_MAX_RANGES. lia.
    + intros m. unfold top, covers. cbn [largest_range set_base below]. rewrite Hu. split; [intros [Hm|[]]; right; lia|intros [[[] _]|Hm]; [reflexivity|left; lia]].
  - assert (largest_range c0 <> NGX_QUIC_UNSET_PN) as Hu by lia. destruct (wf_open c0 Hw0 Hu) as (Hv & Hf & Hlen & Hc).
    pose proof Hf as Hf'. cbn [blocks fits] in Hf'. destruct Hf' as (_ & ? & ? & _). unfold var, top in *.
    assert (u64 (largest_range c0 - first_range c0) = largest_range c0 - first_range c0) as Es by (apply u64_small; lia). rewrite Es in E.
    destruct (largest_range c0 =? pn p) eqn:E0.
    + injection E as <-. apply acks_known; [exact Hw0|repeat split|reflexivity|]. apply Hc. cbn [blocks below]. left. lia.
    + destruct (pn p >? largest_range c0) eqn:E1.
      * eapply (new_largest (pending_ack c) p c0 c' (received p)); [exact Hw0|exact Hu|exact Hp|lia|]. exact E.
      * set (c1 := if need_ack p then _ else c0) in E. assert (same_ranges c0 c1 /\ frames c1 = frames c0) as [Hs Ef] by (unfold c1; destruct (need_ack p); repeat split).
        destruct (same_covers c0 c1 Hs) as [_ Hw1]. specialize (Hw1 Hw0). destruct (same_blocks c0 c1 Hs) as [Eb Et].
        destruct (_ && _) eqn:E2 in E.
        -- injection E as <-. apply acks_known; [exact Hw0|exact Hs|exact Ef|]. apply Hc. cbn [blocks below]. left. lia.
        -- apply (acks_same _ p c0 c1 c' Hs Ef). apply (lookup_adds (pending_ack c) p (ranges c1) c1 [] 0 (first_range c1) c' Hw1);
             [destruct Hs as (-> & _); exact Hu|reflexivity| |].
           ++ unfold top. cbn [app bottom]. destruct Hs as (-> & -> & _). lia.
           ++ unfold top. cbn [app bottom length]. destruct Hs as (Hs1 & Hs2 & Hs3). rewrite Hs1, Hs2. rewrite <-E. f_equal. lia.
Qed.

(** The memory is the only reason for an error. *)
Lemma lookup_total prev p l : (forall c, alloc c = true) -> forall i smallest c, lookup_loop now exponent alloc prev p i smallest l c <> None.
Proof.
  intros Ha. assert (forall c, make_room now exponent alloc prev p c <> None) as Hm.
  { intros c. unfold make_room, ngx_quic_send_ack. rewrite Ha. destruct (full c); [destruct (negb _)|]; discriminate. }
  induction l as [|[g r] l IH]; intros i smallest c; cbn [lookup_loop].
  - unfold ngx_quic_send_ack_range. rewrite Ha. destruct (_ =? _); [discriminate|]. destruct (full c); [destruct (need_ack p); discriminate|discriminate].
  - destruct (_ && _); [|destruct (_ && _); [discriminate|apply IH]]. unfold in_gap. destruct (_ =? _); [discriminate|]. destruct (_ =? _); [discriminate|].
    destruct (_ =? _); [discriminate|]. specialize (Hm c). destruct (make_room _ _ _ _ _ c); [discriminate|contradiction].
Qed.

Lemma ack_packet_total p c : (forall c, alloc c = true) -> exists c', ngx_quic_ack_packet now exponent alloc p c = Some c'.
Proof.
  intros Ha. assert (forall (x : option ctx), x <> None -> exists y, x = Some y) as Hx by (intros [y|]; [eauto|contradiction]). apply Hx.
  unfold ngx_quic_ack_packet. set (c0 := if need_ack p then _ else c). clearbody c0. cbv zeta.
  destruct (largest_range c0 =? NGX_QUIC_UNSET_PN); [discriminate|]. destruct (largest_range c0 =? pn p); [discriminate|].
  destruct (pn p >? largest_range c0).
  - destruct (_ =? 1); [discriminate|]. unfold make_room, ngx_quic_send_ack. rewrite Ha. destruct (full c0); [destruct (negb _)|]; discriminate.
  - destruct (_ && _); [discriminate|]. apply lookup_total, Ha.
Qed.

End Steps.

(** ** Numbers that need not be reported any more *)

Lemma drop_loop_spec n l : forall s, fits s l -> s < 2 ^ 63 -> 0 <= n < s ->
  fits s (drop_loop n s l) /\ (length (drop_loop n s l) <= length l)%nat /\ forall m, below s (drop_loop n s l) m <-> below s l m /\ n < m.
Proof.
  induction l as [|[g r] l IH]; intros s Hf Hs Hn; [cbn; split; [exact I|]; split; [lia|]; tauto|]. cbn [fits] in Hf. destruct Hf as (? & ? & ? & Hf).
  cbn [drop_loop]. rewrite (u64_small (s - g - 2)), (u64_small (s - g - 2 - r)) by lia.
  assert (forall m, below (s - g - 2 - r) l m -> m <= s - g - 2 - r - 2) as Hlow by (intros m Hm; apply below_bounds in Hm; [lia|exact Hf]).
  destruct (n >=? s - g - 2) eqn:E1; [|destruct (n >=? s - g - 2 - r) eqn:E2].
  - cbn [fits below length]. split; [exact I|]. split; [lia|]. intros m. specialize (Hlow m). split; [tauto|]. intros [[Hm|Hm] Hk]; [lia|apply Hlow in Hm; lia].
  - rewrite u64_small by lia. cbn [fits below length]. split; [repeat split; lia|]. split; [lia|]. intros m. specialize (Hlow m).
    destruct (below_bool (s - g - 2 - r) l m) as [b Hb]. rewrite Hb in *. lia.
  - destruct (IH (s - g - 2 - r) Hf) as (D1 & D2 & D3); [lia|lia|]. cbn [fits below length]. split; [repeat split; try lia; exact D1|]. split; [lia|].
    intros m. rewrite D3. destruct (below_bool (s - g - 2 - r) l m) as [b Hb]. rewrite Hb. lia.
Qed.

Lemma drop_acks n c : wf c -> 0 <= n -> wf (ngx_quic_drop_ack_ranges n c) /\
  frames (ngx_quic_drop_ack_ranges n c) = frames c /\ forall m, covers (ngx_quic_drop_ack_ranges n c) m <-> covers c m /\ n < m.
Proof.
  intros Hw Hn. unfold ngx_quic_drop_ack_ranges. destruct (largest_range c =? NGX_QUIC_UNSET_PN) eqn:Eu.
  { split; [exact Hw|]. split; [reflexivity|]. intros m. apply Z.eqb_eq in Eu. split; [intros [Hx _]|intros [[Hx _] _]]; destruct (Hx Eu). }
  assert (largest_range c <> NGX_QUIC_UNSET_PN) as Hu by lia. cbv zeta. set (c0 := if negb _ && _ then _ else c).
  assert (same_ranges c c0 /\ frames c0 = frames c) as [Hs Ef] by (unfold c0; destruct (negb (pending_ack c =? _) && _); repeat split).
  destruct (same_covers c c0 Hs) as [Hc0 Hw0]. specialize (Hw0 Hw). clearbody c0. destruct Hs as (S1 & S2 & S3). rewrite <-S1 in *. 
  assert (forall m, covers c m <-> covers c0 m) as Hcc by (intros m; symmetry; apply Hc0). rewrite <-Ef. setoid_rewrite Hcc. clear Hcc Hc0 Ef Hw S1 S2 S3 c.
  destruct (wf_open c0 Hw0 Hu) as (Hv & Hf & Hlen & Hc). pose proof Hf as Hf'. cbn [blocks fits] in Hf'. destruct Hf' as (_ & ? & ? & Hf'). unfold var, top in *.
  rewrite (u64_small (_ - first_range c0)) by lia.
  assert (forall m, covers c0 m <-> largest_range c0 - first_range c0 <= m <= largest_range c0 \/ below (largest_range c0 - first_range c0) (ranges c0) m) as Hcov.
  { intros m. rewrite Hc. cbn [blocks below]. replace (largest_range c0 + 2 - 0 - 2) with (largest_range c0) by lia. reflexivity. }
  replace (largest_range c0 + 2 - 0 - 2 - first_range c0) with (largest_range c0 - first_range c0) in Hf' by lia.
  assert (forall m, below (largest_range c0 - first_range c0) (ranges c0) m -> m <= largest_range c0 - first_range c0 - 2) as Hlow
    by (intros m Hm; apply below_bounds in Hm; [lia|exact Hf']).
  destruct (n >=? largest_range c0) eqn:E1; [|destruct (n >=? largest_range c0 - first_range c0) eqn:E2].
  - split; [split; [cbn; lia|left; repeat split]|]. split; [reflexivity|]. intros m. rewrite Hcov. split; [intros [Hx _]; destruct Hx; reflexivity|].
    intros [[Hm|Hm] Hk]; [lia|apply Hlow in Hm; lia].
  - rewrite u64_small by lia. split; [split; [cbn; lia|right; split; [exact Hv|unfold top, blocks; cbn; repeat split; lia]]|]. split; [reflexivity|].
    intros m. rewrite Hcov. specialize (Hlow m). unfold covers. cbn [largest_range set_ranges set_first set_base]. unfold top, blocks. cbn [largest_range first_range ranges set_ranges set_first set_base below].
    destruct (below_bool (largest_range c0 - first_range c0) (ranges c0) m) as [b Hb]. rewrite Hb in *. lia.
  - destruct (drop_loop_spec n (ranges c0) (largest_range c0 - first_range c0) Hf') as (D1 & D2 & D3); [lia|lia|].
    split; [split; [cbn [ranges set_ranges]; lia|right; split; [exact Hv|]]|].
    { unfold top, blocks. cbn [largest_range first_range ranges set_ranges fits]. repeat (split; [lia|]).
      replace (largest_range c0 + 2 - 0 - 2 - first_range c0) with (largest_range c0 - first_range c0) by lia. exact D1. }
    split; [reflexivity|]. intros m. rewrite Hcov. unfold covers, top, blocks. cbn [largest_range first_range ranges set_ranges below].
    replace (largest_range c0 + 2 - 0 - 2 - first_range c0) with (largest_range c0 - first_range c0) by lia. rewrite D3.
    destruct (below_bool (largest_range c0 - first_range c0) (ranges c0) m) as [b Hb]. rewrite Hb. lia.
Qed.

(** ** ACK frames that are received *)

Definition in_range (min max : Z) (f : sent_frame) : bool := (min <=? pnum f) && (pnum f <=? max).

(** The frames are sent in the order of their packets. *)
Definition in_order (l : list sent_frame) : Prop := StronglySorted (fun f g => pnum f <= pnum g) l.

(** What the acknowledgement of ACK frames does with the ranges. *)
Definition forget (c : ctx) (f : sent_frame) : ctx :=
  if (ftype f =? NGX_QUIC_FT_ACK) || (ftype f =? NGX_QUIC_FT_ACK_ECN) then ngx_quic_drop_ack_ranges (ack_largest f) c else c.

Lemma filter_none {A} (q : A -> bool) l : Forall (fun x => q x = false) l -> List.filter q l = [] /\ List.filter (fun x => negb (q x)) l = l.
Proof. induction 1 as [|x l Hx H [IH1 IH2]]; [split; reflexivity|]. cbn. rewrite Hx, IH1, IH2. split; reflexivity. Qed.

Lemma sent_loop_spec min max l : in_order l -> forall c st,
  let '(keep, gone, c', _) := sent_loop min max l c st in
  keep = List.filter (fun f => negb (in_range min max f)) l /\ gone = List.filter (in_range min max) l /\ c' = fold_left forget gone c.
Proof.
  intros H. induction H as [|f l H IH Hf]; intros c st; [repeat split|]. cbn [sent_loop]. destruct (pnum f >? max) eqn:E1.
  - destruct (filter_none (in_range min max) (f :: l)) as [-> ->]; [|repeat split]. constructor; [unfold in_range; lia|].
    eapply Forall_impl; [exact Hf|]. intros g Hg. cbn in Hg. unfold in_range. lia.
  - cbn [List.filter]. destruct (pnum f >=? min) eqn:E2.
    + assert (in_range min max f = true) as Er by (unfold in_range; lia). rewrite Er. destruct (ack_sent max f c st) as [c1 st1] eqn:Es.
      assert (c1 = forget c f) as -> by (unfold ack_sent in Es; injection Es as <- _; reflexivity).
      specialize (IH (forget c f) st1). destruct (sent_loop min max l (forget c f) st1) as [[[keep gone] c2] st2]. destruct IH as (-> & -> & ->). repeat split.
    + assert (in_range min max f = false) as Er by (unfold in_range; lia). rewrite Er. specialize (IH c st).
      destruct (sent_loop min max l c st) as [[[keep gone] c2] st2]. destruct IH as (-> & -> & ->). repeat split.
Qed.

Lemma in_order_filter q l : in_order l -> in_order (List.filter q l).
Proof.
  intros H. induction H as [|f l H IH Hf]; [constructor|]. cbn. destruct (q f); [|exact IH]. constructor; [exact IH|].
  apply List.Forall_forall. intros g Hg. apply List.filter_In in Hg as [Hg _]. revert g Hg. apply List.Forall_forall, Hf.
Qed.

(** The frames that leave the queue and those that stay. *)
Record acknowledged (q : sent_frame -> bool) (s s' : sender) : Prop := {
  ack_sent_eq : sent s' = List.filter (fun f => negb (q f)) (sent s);
  ack_acked : acked s' ≡ₚ acked s ++ List.filter q (sent s);
  ack_next : next_pnum s' = next_pnum s
}.

Lemma acknowledged_ext q q' s s' : (forall f, In f (sent s) -> q f = q' f) -> acknowledged q s s' -> acknowledged q' s s'.
Proof.
  intros H [H1 H2 H3]. constructor; [rewrite H1; apply List.filter_ext_in; intros f Hf; rewrite (H f Hf); reflexivity| |exact H3].
  rewrite H2. rewrite (List.filter_ext_in _ _ _ H). reflexivity.
Qed.

Lemma filter_or {A} (q q' : A -> bool) l :
  List.filter (fun x => negb (q x || q' x)) l = List.filter (fun x => negb (q' x)) (List.filter (fun x => negb (q x)) l) /\
  List.filter (fun x => q x || q' x) l ≡ₚ List.filter q l ++ List.filter q' (List.filter (fun x => negb (q x)) l).
Proof.
  induction l as [|x l [IH1 IH2]]; [split; reflexivity|]. cbn. destruct (q x); cbn; [split; [exact IH1|rewrite IH2; reflexivity]|].
  destruct (q' x); cbn; [|split; [rewrite IH1; reflexivity|exact IH2]]. split; [exact IH1|]. rewrite IH2. apply Permutation_middle.
Qed.

Lemma acknowledged_trans q q' s s1 s2 : acknowledged q s s1 -> acknowledged q' s1 s2 -> acknowledged (fun f => q f || q' f) s s2.
Proof.
  intros [A1 A2 A3] [B1 B2 B3]. destruct (filter_or q q' (sent s)) as [F1 F2]. constructor; [rewrite B1, A1, F1; reflexivity| |congruence].
  rewrite B2, A2, A1, F2, app_assoc. reflexivity.
Qed.

Lemma handle_range_spec min max s st : in_order (sent s) ->
  match ngx_quic_handle_ack_frame_range min max s st with
  | inl (s', _) => acknowledged (in_range min max) s s' /\ in_order (sent s') /\ largest_ack s' = largest_ack s
  | inr _ => next_pnum s <= max
  end.
Proof.
  intros H. unfold ngx_quic_handle_ack_frame_range. pose proof (sent_loop_spec min max (sent s) H (rcvd s) (mk_stat None (oldest st) (newest st))) as Hl.
  destruct (sent_loop min max (sent s) (rcvd s) _) as [[[keep gone] c'] st']. destruct Hl as (-> & Hg & Hc). destruct gone as [|f gone].
  - destruct (max <? next_pnum s) eqn:E; [|lia]. split; [|split; [exact H|reflexivity]]. constructor; [|rewrite <-Hg, app_nil_r; reflexivity|reflexivity].
    symmetry. apply filter_none. apply List.Forall_forall. intros x Hx. destruct (in_range min max x) eqn:Ex; [|reflexivity].
    assert (In x []) as [] by (rewrite Hg; apply List.filter_In; auto).
  - split; [|split; [apply in_order_filter, H|reflexivity]]. constructor; cbn [sent acked next_pnum]; [reflexivity|rewrite Hg; reflexivity|reflexivity].
Qed.

Lemma parse_range_back g r rs : var g -> var r -> ngx_quic_parse_ack_range (range_bytes ((g, r) :: rs)) = Some (g, r, range_bytes rs).
Proof.
  intros Hg Hr. rewrite QuicTransport.range_bytes_cons. unfold ngx_quic_parse_ack_range. rewrite !QuicTransport.parse_build_int by assumption. reflexivity.
Qed.

Lemma ranges_loop_spec rs : Forall (fun '(g, r) => var g /\ var r) rs -> forall min s st, in_order (sent s) -> 0 <= min < 2 ^ 62 ->
  match ranges_loop (length rs) min (range_bytes rs) s st with
  | inl (s', _) => fits min rs /\ acknowledged (fun f => belowb min rs (pnum f)) s s'
  | inr _ => ~ (fits min rs /\ forall n, below min rs n -> n < next_pnum s)
  end.
Proof.
  intros H. induction H as [|[g r] rs [Hg Hr] H IH]; intros min s st Hs Hm.
  - cbn [length ranges_loop]. split; [exact I|]. destruct (filter_none (fun f => belowb min [] (pnum f)) (sent s)) as [F1 F2]; [apply List.Forall_forall; reflexivity|].
    constructor; [rewrite F2; reflexivity|rewrite F1, app_nil_r; reflexivity|reflexivity].
  - cbn [length ranges_loop]. rewrite parse_range_back by assumption. unfold var in *. rewrite u64_small by lia. cbn [fits below].
    destruct (g + 2 >? min) eqn:E1; [lia|]. rewrite (u64_small (min - g - 2)) by lia. destruct (r >? min - g - 2) eqn:E2; [lia|]. rewrite u64_small by lia.
    pose proof (handle_range_spec (min - g - 2 - r) (min - g - 2) s st Hs) as Hh. destruct (ngx_quic_handle_ack_frame_range _ _ s st) as [[s1 st1]|e].
    + destruct Hh as (A1 & Hs1 & _). specialize (IH (min - g - 2 - r) s1 st1 Hs1 ltac:(lia)).
      destruct (ranges_loop _ _ _ s1 st1) as [[s2 st2]|e].
      * destruct IH as [Hf A2]. split; [repeat split; try lia; exact Hf|]. eapply acknowledged_ext; [|exact (acknowledged_trans _ _ _ _ _ A1 A2)].
        intros f _. cbn [belowb]. reflexivity.
      * intros [(_ & _ & _ & Hf) Hn]. apply IH. split; [exact Hf|]. intros n Hb. rewrite (ack_next _ _ _ A1). apply Hn. right. exact Hb.
    + intros [_ Hn]. specialize (Hn (min - g - 2)). lia.
Qed.

Lemma handle_ack_spec a rs s : QuicTransport.range_count a = zlen rs -> var (QuicTransport.largest a) -> var (QuicTransport.first_range a) ->
  Forall (fun '(g, r) => var g /\ var r) rs -> in_order (sent s) ->
  let blocks := (0, QuicTransport.first_range a) :: rs in let top := QuicTransport.largest a + 2 in
  match ngx_quic_handle_ack_frame a (range_bytes rs) s with
  | inl (s', _, _) => fits top blocks /\ acknowledged (fun f => belowb top blocks (pnum f)) s s'
  | inr _ => ~ (fits top blocks /\ forall n, below top blocks n -> n < next_pnum s)
  end.
Proof.
  intros Hn Hl Hf Hr Hs blocks top. unfold ngx_quic_handle_ack_frame. set (lg := QuicTransport.largest a) in *. set (fr := QuicTransport.first_range a) in *.
  unfold blocks, top, var in *. cbn [fits below]. replace (lg + 2 - 0 - 2) with lg by lia. destruct (fr >? lg) eqn:E1; [lia|]. rewrite u64_small by lia.
  pose proof (handle_range_spec (lg - fr) lg s (mk_stat None None None) Hs) as Hh. destruct (ngx_quic_handle_ack_frame_range _ _ s _) as [[s1 st1]|e].
  - destruct Hh as (A1 & Hs1 & _). cbv zeta. set (s1' := if _ || _ then _ else s1).
    assert (acknowledged (in_range (lg - fr) lg) s s1' /\ in_order (sent s1')) as [A1' Hs1'].
    { unfold s1'. destruct (_ || _); [|split; assumption]. split; [|exact Hs1]. destruct A1. constructor; assumption. }
    clearbody s1'. clear A1 Hs1. rewrite Hn. unfold zlen. rewrite Nat2Z.id.
    pose proof (ranges_loop_spec rs Hr (lg - fr) s1' st1 Hs1' ltac:(lia)) as IH. destruct (ranges_loop _ _ _ s1' st1) as [[s2 st2]|e].
    + destruct IH as [Hfr A2]. split; [repeat split; try lia; exact Hfr|]. eapply acknowledged_ext; [|exact (acknowledged_trans _ _ _ _ _ A1' A2)].
      intros f _. cbn [belowb]. replace (lg + 2 - 0 - 2) with lg by lia. reflexivity.
    + intros [(_ & _ & _ & Hfr) Hb]. apply IH. split; [exact Hfr|]. intros n Hbn. rewrite (ack_next _ _ _ A1'). apply Hb. right. exact Hbn.
  - intros [_ Hb]. specialize (Hb lg). lia.
Qed.

(** ** The frame that is sent *)

Lemma fits_var l : forall s, fits s l -> s < 2 ^ 62 -> Forall (fun '(g, r) => var g /\ var r) l.
Proof.
  induction l as [|[g r] l IH]; intros s Hf Hs; constructor; cbn [fits] in Hf; destruct Hf as (? & ? & ? & Hf).
  - unfold var. lia.
  - apply (IH (s - g - 2 - r)); [exact Hf|lia].
Qed.

Lemma delay_var x exponent : 2 <= exponent -> var (Z.shiftr (u64 x) exponent).
Proof.
  intros He. unfold var, u64. rewrite Z.shiftr_div_pow2 by lia. pose proof (Z.mod_pos_bound x (2 ^ 64) ltac:(lia)) as Hx.
  assert (2 ^ 2 <= 2 ^ exponent) as Hp by (apply Z.pow_le_mono_r; lia). set (y := x mod 2 ^ 64) in *. set (q := 2 ^ exponent) in *. split.
  - apply Z.div_pos; lia.
  - apply Z.div_lt_upper_bound; nia.
Qed.

Lemma send_ack_frame now exponent alloc c : wf c -> largest_range c <> NGX_QUIC_UNSET_PN -> 2 <= exponent -> alloc c = true ->
  exists c' f a, ngx_quic_send_ack now exponent alloc c = Some c' /\ frames c' = frames c ++ [f] /\ QuicTransport.sendable f /\
    QuicTransport.type f = NGX_QUIC_FT_ACK /\ QuicTransport.u f = U_ack a /\ QuicTransport.data f = range_bytes (ranges c) /\
    QuicTransport.largest a = largest_range c /\ QuicTransport.first_range a = first_range c /\ QuicTransport.range_count a = zlen (ranges c) /\
    Forall (fun '(g, r) => var g /\ var r) (ranges c).
Proof.
  intros Hw Hu He Ha. destruct (wf_open c Hw Hu) as (Hv & Hf & Hlen & _). unfold ngx_quic_send_ack. rewrite Ha. cbn [negb].
  cbn [blocks fits] in Hf. destruct Hf as (_ & ? & ? & Hf). unfold top, var in *.
  pose proof (fits_var _ _ Hf ltac:(lia)) as Hr. do 3 eexists. split; [reflexivity|]. split; [reflexivity|].
  split; [|repeat split; exact Hr]. split; [intros [H'|H']; discriminate H'|]. cbn [QuicTransport.u QuicTransport.largest QuicTransport.delay
    QuicTransport.range_count QuicTransport.first_range QuicTransport.ect0 QuicTransport.ect1 QuicTransport.ce QuicTransport.ranges_length].
  split; [exact Hv|]. split; [apply delay_var, He|]. split; [unfold var, zlen; unfold NGX_QUIC_MAX_RANGES in Hlen; lia|]. split; [unfold var; lia|].
  repeat (split; [reflexivity|]). exists (ranges c). split; [reflexivity|]. split; [reflexivity|]. exact Hr.
Qed.

(** ** Properties *)

(** C26: The packet numbers that were received refine a set: the ranges stay
    well formed, a number that is received joins the set and nothing else
    does, and no number leaves it unless ten ranges are full.  Then what is
    lost is below all that is kept, and a frame that the same call queues
    reports it, with two exceptions: a number of the set is lost without a
    report when no acknowledgement was pending before the call ([pending_ack]
    was not set), and so is the number of the packet itself when it is too old
    to be kept and the packet needs no acknowledgement.  With memory for the
    frames the function never fails. *)
Theorem ack_packet_refines now exponent alloc p c : wf c -> var (pn p) ->
  ((forall c, alloc c = true) -> ngx_quic_ack_packet now exponent alloc p c <> None) /\
  forall c', ngx_quic_ack_packet now exponent alloc p c = Some c' ->
    wf c' /\ (forall m, covers c' m -> covers c m \/ m = pn p) /\
    exists fs, frames c' = frames c ++ fs /\
      forall m, covers c m \/ m = pn p ->
        covers c' m \/ (full c = true /\ (forall k, covers c' k -> m < k) /\ noted (pending_ack c) p c fs m).
Proof.
  intros Hw Hp. split; [intros Ha; destruct (ack_packet_total now exponent alloc p c Ha) as [c' ->]; discriminate|].
  intros c' E. destruct (ack_packet_acks now exponent alloc p c c' Hw Hp E) as ((Hw' & H1 & H2) & fs & Hf & H3).
  split; [exact Hw'|]. split; [exact H1|]. exists fs. split; [exact Hf|].
  intros m Hm. destruct (H2 m Hm) as [H|(_ & Hfull & Hlow)]; [left; exact H|]. destruct (H3 m Hm) as [H|Hn]; [left; exact H|right; auto].
Qed.

Definition no_packets : ctx := mk_ctx NGX_QUIC_UNSET_PN 0 [] 0 NGX_QUIC_UNSET_PN 0 0 [].

(** Numbers 9, 7, 6 and 2 were received. *)
Definition some_packets : ctx := mk_ctx 9 0 [(0, 1); (2, 0)] 100 9 2 90 [].

Lemma some_packets_wf : wf some_packets.
Proof. split; [cbn; unfold NGX_QUIC_MAX_RANGES; lia|]. right. split; [unfold var; cbn; lia|]. unfold top, blocks. cbn. lia. Qed.

Lemma ack_packet_refines_witness :
  let step n c := ngx_quic_ack_packet 100 3 (fun _ => true) (mk_packet n true 100) c in
  wf some_packets /\ var 8 /\ step 8 some_packets <> None /\
  (c1 ← step 2 no_packets; c2 ← step 6 c1; c3 ← step 7 c2; step 9 c3) =
    Some (mk_ctx 9 0 [(0, 1); (2, 0)] 100 9 2 100 []).
Proof.
  split; [exact some_packets_wf|]. split; [unfold var; lia|]. split; [|vm_compute; reflexivity].
  apply (ack_packet_refines 100 3 (fun _ => true) (mk_packet 8 true 100) some_packets); [exact some_packets_wf|cbn; unfold var; lia|reflexivity].
Defined.

(** C27: Acknowledgements reach the sender: the ACK frame that
    ngx_quic_send_ack() queues for the packets received takes the length
    announced for it, ngx_quic_parse_frame() reads it back, and
    ngx_quic_handle_ack_frame() of the other side, which sent these packets,
    succeeds, with exactly the frames of the packets received taken from the
    queue of those sent, in place of all the others, and acknowledged once. *)
Theorem ack_exchange now exponent alloc c flags rest s :
  wf c -> largest_range c <> NGX_QUIC_UNSET_PN -> 2 <= exponent -> alloc c = true ->
  QuicTransport.ngx_quic_frame_allowed flags NGX_QUIC_FT_ACK = NGX_OK ->
  in_order (sent s) -> (forall n, covers c n -> n < next_pnum s) ->
  exists c' f bytes a s' st rtt q,
    ngx_quic_send_ack now exponent alloc c = Some c' /\ frames c' = frames c ++ [f] /\
    QuicTransport.ngx_quic_create_frame f = Some bytes /\ QuicTransport.ngx_quic_create_frame_len f = Some (zlen bytes) /\
    QuicTransport.ngx_quic_parse_frame flags (bytes ++ rest) = QuicTransport.Frame (zlen bytes) f /\
    QuicTransport.u f = U_ack a /\ ngx_quic_handle_ack_frame a (QuicTransport.data f) s = inl (s', st, rtt) /\
    (forall g, q g = true <-> covers c (pnum g)) /\ acknowledged q s s'.
Proof.
  intros Hw Hu He Ha Hal Hs Hn. destruct (wf_open c Hw Hu) as (Hv & Hf & _ & Hc).
  destruct (send_ack_frame now exponent alloc c Hw Hu He Ha) as (c' & f & a & Esend & Efr & Hsend & Et & Eu & Ed & El & Ef & En & Hr).
  assert (exists bytes, QuicTransport.ngx_quic_create_frame f = Some bytes) as [bytes Eb].
  { unfold QuicTransport.ngx_quic_create_frame, QuicTransport.create. rewrite Et, Eu. eexists. reflexivity. }
  assert (QuicTransport.wire_type f = NGX_QUIC_FT_ACK) as Ew by (unfold QuicTransport.wire_type; rewrite Eu; exact Et).
  destruct (QuicTransport.create_parse flags f bytes rest Hsend Eb) as [Elen Ep]; [rewrite Ew; exact Hal|unfold QuicTransport.open_ended; rewrite Eu; discriminate|].
  assert (QuicTransport.received f = f) as Erec by (unfold QuicTransport.received; rewrite Eu; reflexivity). rewrite Erec in Ep.
  unfold blocks, top in *. pose proof Hf as Hf'. cbn [fits] in Hf'. 
  pose proof (handle_ack_spec a (ranges c) s En) as H. cbv zeta in H. rewrite El, Ef in H. rewrite <-Ed in H.
  specialize (H Hv ltac:(unfold var in *; lia) Hr Hs). destruct (ngx_quic_handle_ack_frame a (QuicTransport.data f) s) as [[[s' st] rtt]|e] eqn:Eh.
  - destruct H as [_ H]. exists c', f, bytes, a, s', st, rtt. eexists. repeat (split; [eassumption|]). split; [|exact H].
    intros g. cbn beta. rewrite <-belowb_spec. symmetry. apply Hc.
  - destruct H. split; [exact Hf|]. intros n Hb. apply Hn, Hc, Hb.
Qed.

Lemma ack_exchange_witness :
  let s := mk_sender (map (fun n => mk_sent n 50 8 0) [0; 2; 2; 5; 6; 9]) 10 NGX_QUIC_UNSET_PN no_packets [] in
  wf some_packets /\ in_order (sent s) /\
  exists c' f bytes a s' st rtt q,
    ngx_quic_send_ack 100 3 (fun _ => true) some_packets = Some c' /\ frames c' = frames some_packets ++ [f] /\
    QuicTransport.ngx_quic_create_frame f = Some bytes /\ QuicTransport.ngx_quic_create_frame_len f = Some (zlen bytes) /\
    QuicTransport.ngx_quic_parse_frame 0x8 (bytes ++ [1]) = QuicTransport.Frame (zlen bytes) f /\
    QuicTransport.u f = U_ack a /\ ngx_quic_handle_ack_frame a (QuicTransport.data f) s = inl (s', st, rtt) /\
    (forall g, q g = true <-> covers some_packets (pnum g)) /\ acknowledged q s s'.
Proof.
  assert (in_order (map (fun n => mk_sent n 50 8 0) [0; 2; 2; 5; 6; 9])) as Ho.
  { repeat first [apply List.Forall_nil | apply SSorted_nil | apply SSorted_cons | apply List.Forall_cons]; cbn; lia. }
  split; [exact some_packets_wf|]. split; [exact Ho|]. apply (ack_exchange 100 3 (fun _ => true) some_packets 0x8 [1]).
  - exact some_packets_wf.
  - discriminate.
  - lia.
  - reflexivity.
  - vm_compute. reflexivity.
  - exact Ho.
  - intros n [_ Hn]. apply below_bounds in Hn; [change (bottom (top some_packets) (blocks some_packets)) with 2 in Hn; unfold top in Hn; cbn [largest_range some_packets next_pnum] in *; lia|]. destruct some_packets_wf as [_ [[Hx _]|[_ Hf]]]; [discriminate Hx|exact Hf].
Defined.

(** The frames of the packets that were acknowledged leave the queue. *)
Example acknowledged_frames :
  let s := mk_sender (map (fun n => mk_sent n 50 8 0) [0; 2; 2; 5; 6; 9]) 10 NGX_QUIC_UNSET_PN no_packets [] in
  match ngx_quic_handle_ack_frame (mk_ack 9 0 2 0 0 0 0 4) (range_bytes [(0, 1); (2, 0)]) s with
  | inl (s', _, _) => map pnum (sent s') = [0; 5] /\ map pnum (acked s') = [9; 6; 2; 2]
  | inr _ => False
  end.
Proof. vm_compute. split; reflexivity. Qed.

End QuicAck.
