(* ===== verification/NgxQuicBuffer.v ===== *)
(** * Reassembly buffers of QUIC

    The buffer of a stream, in which data is written at any offset and read
    in order: ngx_quic_write_buffer(), ngx_quic_read_buffer(),
    ngx_quic_skip_buffer() and ngx_quic_copy_buffer() of
    [src/event/quic/ngx_event_quic_frames.c].  A buffer is a chain of links,
    each with data or a hole ([b->sync]), and a pointer to the link where the
    last write ended.  Links have names, so that this pointer is one that may
    dangle; the bytes of a hole are what the memory happens to hold.  The
    lists of free buffers and their counters are not modelled: the memory of a
    link is there or not, as a parameter says. *)

From Stdlib Require Import ZArith Lia ZifyBool.
From stdpp Require Import base option tactics list.
From S2P Require Import Prelude NgxQuicTransport.
Import QuicTransport(u64, u64_small).

Local Open Scope Z_scope.

Module QuicBuffer.

Definition NGX_QUIC_BUFFER_SIZE : Z := 4096.

(** A link of a chain with the bytes from [b->pos] to [b->last]. *)
Record cell := mk_cell { id : nat; sync : bool; bytes : list Z }.

(** [ngx_quic_buffer_t], with the name of the next link. *)
Record buffer := mk_buffer { size : Z; offset : Z; last_offset : Z; chain : list cell; last_chain : option nat; fresh : nat }.

Definition ztake {A} (n : Z) (l : list A) : list A := take (Z.to_nat n) l.
Definition zdrop {A} (n : Z) (l : list A) : list A := drop (Z.to_nat n) l.

Section Memory.
Variable alloc : nat -> bool.         (* whether the memory for a link is there *)
Variable garbage : nat -> list Z.     (* what is in it *)

Definition ngx_quic_alloc_chain (fr : nat) : option cell :=
  if alloc fr then Some (mk_cell fr true (garbage fr)) else None.

(** The link and its new tail, whose buffer is a clone. *)
Definition ngx_quic_split_chain (cl : cell) (k : Z) (fr : nat) : option (cell * cell) :=
  if alloc fr then Some (mk_cell (id cl) (sync cl) (ztake k (bytes cl)), mk_cell fr (sync cl) (zdrop k (bytes cl))) else None.

(** ** Writing

    The variables of ngx_quic_write_buffer(): the links before [*chain] and
    those from it on, [base], [offset], [limit], what is left of [in], by the
    bytes of its buffers, [qb->size] and the name of the next link.  A buffer
    that is not in memory has no bytes. *)
Record wstate := mk_w {
  prev : list cell; rest : list cell; base : Z; off : Z; lim : Z; inp : list (list Z); sz : Z; fr : nat
}.

(** The inner loop: [room] is what is left up to [b->last]; the bytes that it
    takes and what is left of [in]. *)
Fixpoint fill (room limit : Z) (l : list (list Z)) : list Z * list (list Z) :=
  match l with
  | [] => ([], [])
  | b :: bs =>
      if zlen b =? 0 then fill room limit bs
      else if (room =? 0) || (limit =? 0) then ([], b :: bs)
      else
        let n := Z.min (Z.min room (zlen b)) limit in
        if n =? zlen b then let '(w, l) := fill (room - n) (limit - n) bs in (b ++ w, l)
        else (ztake n b, zdrop n b :: bs)
  end.

(** An iteration of the outer loop. *)
Inductive outcome := Again (s : wstate) | Done | No_memory.

Definition write_cell (cl : cell) (tl : list cell) (s : wstate) : outcome :=
  let n := zlen (bytes cl) in
  if u64 (base s + n) <=? off s then
    Again (mk_w (prev s ++ [cl]) tl (u64 (base s + n)) (off s) (lim s) (inp s) (sz s) (fr s))
  else if sync cl && (off s >? base s) then
    match ngx_quic_split_chain cl (off s - base s) (fr s) with
    | None => No_memory
    | Some (a, b) => Again (mk_w (prev s) (a :: b :: tl) (base s) (off s) (lim s) (inp s) (sz s) (S (fr s)))
    end
  else
    let p := off s - base s in
    let '(w, l) := fill (n - p) (lim s) (inp s) in
    let again rest sz fr := Again (mk_w (prev s) rest (base s) (u64 (off s + zlen w)) (lim s - zlen w) l sz fr) in
    if sync cl then
      let cl := mk_cell (id cl) true (ztake p (bytes cl) ++ w ++ zdrop (p + zlen w) (bytes cl)) in
      let sz := u64 (sz s + zlen w) in
      let p := p + zlen w in
      if p =? n then again (mk_cell (id cl) false (bytes cl) :: tl) sz (fr s)
      else if negb (p =? 0) then
        match ngx_quic_split_chain cl p (fr s) with
        | None => No_memory
        | Some (a, b) => again (mk_cell (id a) false (bytes a) :: b :: tl) sz (S (fr s))
        end
      else again (cl :: tl) sz (fr s)
    else again (cl :: tl) (sz s) (fr s).

Definition write_step (s : wstate) : outcome :=
  match inp s with
  | [] => Done
  | b :: bs =>
      if lim s =? 0 then Done
      else if off s <? base s then
        let n := Z.min (zlen b) (Z.min (base s - off s) (lim s)) in
        Again (mk_w (prev s) (rest s) (base s) (u64 (off s + n)) (lim s - n)
          (if n =? zlen b then bs else zdrop n b :: bs) (sz s) (fr s))
      else
        match rest s with
        | cl :: tl => write_cell cl tl s
        | [] =>
            match ngx_quic_alloc_chain (fr s) with
            | None => No_memory
            | Some cl => write_cell cl [] (mk_w (prev s) [] (base s) (off s) (lim s) (inp s) (sz s) (S (fr s)))
            end
        end
  end.

(** [None] stands for a lack of fuel, [Some None] for NGX_CHAIN_ERROR. *)
Fixpoint write_loop (fuel : nat) (s : wstate) : option (option wstate) :=
  match fuel with
  | O => None
  | S fuel =>
      match write_step s with
      | Again s => write_loop fuel s
      | Done => Some (Some s)
      | No_memory => Some None
      end
  end.

(** The links before the one with a name, and those from it on. *)
Fixpoint at_link (a : nat) (l : list cell) : option (list cell * list cell) :=
  match l with
  | [] => None
  | c :: l' => if Nat.eqb (id c) a then Some ([], l) else option_map (fun '(p, r) => (c :: p, r)) (at_link a l')
  end.

(** The bytes of [in] that are in reach of [limit]. *)
Definition amount (limit : Z) (l : list (list Z)) : Z := Z.min limit (zlen (concat l)).

Definition write_fuel (qb : buffer) (l : list (list Z)) (limit off : Z) : nat :=
  Z.to_nat (3 * Z.max 0 (off + amount limit l - offset qb) + amount limit l + zlen l + 2).

(** The buffer and what is left of [in]; [None] stands for an access to a link
    that is not in the chain. *)
Definition ngx_quic_write_buffer (qb : buffer) (l : list (list Z)) (limit off : Z) : option (option (buffer * list (list Z))) :=
  let start :=
    match last_chain qb with
    | Some a =>
        if off >=? last_offset qb then option_map (fun '(p, r) => (p, r, last_offset qb)) (at_link a (chain qb))
        else Some ([], chain qb, offset qb)
    | None => Some ([], chain qb, offset qb)
    end in
  match start with
  | None => None
  | Some (p, r, b) =>
      match write_loop (write_fuel qb l limit off) (mk_w p r b off limit l (size qb) (fresh qb)) with
      | None => None
      | Some None => Some None
      | Some (Some s) =>
          Some (Some (mk_buffer (sz s) (offset qb) (base s) (prev s ++ rest s) (option_map id (head (rest s))) (fr s), inp s))
      end
  end.

(** ** Reading *)

(** The links that are read, those that stay, and the bytes read. *)
Fixpoint read_loop (limit : Z) (l : list cell) (fr : nat) : option (list cell * list cell * Z * nat) :=
  match l with
  | [] => Some ([], [], 0, fr)
  | c :: l =>
      if sync c || (limit =? 0) then Some ([], c :: l, 0, fr)
      else
        let n := zlen (bytes c) in
        if n >? limit then
          match ngx_quic_split_chain c limit fr with
          | None => None
          | Some (a, b) => Some ([a], b :: l, limit, S fr)
          end
        else
          match read_loop (limit - n) l fr with
          | None => None
          | Some (out, r, m, fr) => Some (c :: out, r, n + m, fr)
          end
  end.

Definition reset_last (o last : Z) (p : option nat) : option nat := if o >=? last then None else p.

(** [None] is NGX_CHAIN_ERROR. *)
Definition ngx_quic_read_buffer (qb : buffer) (limit : Z) : option (list cell * buffer) :=
  match read_loop limit (chain qb) (fresh qb) with
  | None => None
  | Some (out, r, n, fr) =>
      let o := u64 (offset qb + n) in
      Some (out, mk_buffer (size qb) o (last_offset qb) r (reset_last o (last_offset qb) (last_chain qb)) fr)
  end.

(** The links that stay and [qb->offset]. *)
Fixpoint skip_loop (target o : Z) (l : list cell) : list cell * Z :=
  match l with
  | [] => ([], target)
  | c :: l =>
      if o >=? target then (c :: l, o)
      else
        let n := zlen (bytes c) in
        if u64 (o + n) >? target then (mk_cell (id c) (sync c) (zdrop (target - o) (bytes c)) :: l, target)
        else skip_loop target (u64 (o + n)) l
  end.

Definition ngx_quic_skip_buffer (qb : buffer) (target : Z) : buffer :=
  let '(r, o) := skip_loop target (offset qb) (chain qb) in
  mk_buffer (size qb) o (last_offset qb) r (reset_last o (last_offset qb) (last_chain qb)) (fresh qb).

Definition empty_buffer : buffer := mk_buffer 0 0 0 [] None 0.

(** The bytes of a chain. *)
Definition chain_bytes (l : list cell) : list Z := concat (map bytes l).

(** [None] is NGX_CHAIN_ERROR. *)
Definition ngx_quic_copy_buffer (data : list Z) : option (option (list cell)) :=
  match ngx_quic_write_buffer empty_buffer [data] (zlen data) 0 with
  | None => None
  | Some None => Some None
  | Some (Some (qb, _)) => Some (option_map fst (ngx_quic_read_buffer qb (zlen data)))
  end.

End Memory.

(** ** What a buffer holds

    The bytes of a chain, with [None] for each byte of a hole, and the byte at
    a position when the chain begins at [b]. *)

Definition cell_flat (c : cell) : list (option Z) :=
  if sync c then replicate (length (bytes c)) None else Some <$> bytes c.
Definition flat (l : list cell) : list (option Z) := concat (map cell_flat l).
Definition val (b : Z) (f : list (option Z)) (x : Z) : option Z := if x <? b then None else nth (Z.to_nat (x - b)) f None.

(** The number of bytes that are there. *)
Definition count (f : list (option Z)) : Z := zlen (omap (fun x => x) f).

(** The bytes [w] from [o] on, where nothing is below [fl] and what is there
    stays. *)
Definition put (fl : Z) (f : Z -> option Z) (o : Z) (w : list Z) (x : Z) : option Z :=
  match f x with
  | Some v => Some v
  | None => if (fl <=? x) && (o <=? x) && (x <? o + zlen w) then Some (nth (Z.to_nat (x - o)) w 0) else None
  end.

Lemma zlen_nonneg {A} (l : list A) : 0 <= zlen l.
Proof. unfold zlen. lia. Qed.

Lemma zlen_nil {A} (l : list A) : zlen l = 0 -> l = [].
Proof. destruct l; [reflexivity|]. rewrite zlen_cons. pose proof (zlen_nonneg l). lia. Qed.

Lemma ztake_zdrop {A} n (l : list A) : ztake n l ++ zdrop n l = l.
Proof. apply take_drop. Qed.

Lemma zlen_ztake {A} n (l : list A) : 0 <= n <= zlen l -> zlen (ztake n l) = n.
Proof. unfold zlen, ztake. rewrite length_take. lia. Qed.

Lemma zlen_zdrop {A} n (l : list A) : 0 <= n <= zlen l -> zlen (zdrop n l) = zlen l - n.
Proof. unfold zlen, zdrop. rewrite length_drop. lia. Qed.

Lemma zlen_map {A B} (f : A -> B) l : zlen (f <$> l) = zlen l.
Proof. unfold zlen. rewrite length_fmap. reflexivity. Qed.

Lemma zlen_replicate {A} n (x : A) : zlen (replicate n x) = Z.of_nat n.
Proof. unfold zlen. rewrite length_replicate. reflexivity. Qed.

Lemma val_joined b f g x : val b (f ++ g) x = if x <? b + zlen f then val b f x else val (b + zlen f) g x.
Proof.
  unfold val, zlen. destruct (x <? b) eqn:E1; [replace (x <? b + Z.of_nat (length f)) with true by lia; reflexivity|].
  destruct (x <? b + Z.of_nat (length f)) eqn:E2; [apply app_nth1; lia|]. rewrite app_nth2 by lia. f_equal. lia.
Qed.

Lemma val_none b n x : val b (replicate n None) x = None.
Proof.
  unfold val. destruct (x <? b); [reflexivity|]. revert n. induction (Z.to_nat (x - b)) as [|k IH]; intros [|n]; cbn; try reflexivity. apply IH.
Qed.

Lemma val_some b w x : val b (Some <$> w) x = if (b <=? x) && (x <? b + zlen w) then Some (nth (Z.to_nat (x - b)) w 0) else None.
Proof.
  unfold val, zlen. destruct (x <? b) eqn:E1; [replace (b <=? x) with false by lia; reflexivity|]. replace (b <=? x) with true by lia. cbn [andb].
  destruct (x <? b + Z.of_nat (length w)) eqn:E2.
  - rewrite (nth_indep _ None (Some 0)) by (rewrite length_fmap; lia). apply map_nth.
  - apply nth_overflow. rewrite length_fmap. lia.
Qed.

Lemma put_app fl f o w1 w2 x : put fl (put fl f o w1) (o + zlen w1) w2 x = put fl f o (w1 ++ w2) x.
Proof.
  unfold put. pose proof (zlen_nonneg w1). pose proof (zlen_nonneg w2). destruct (f x); [reflexivity|]. rewrite zlen_app.
  destruct (fl <=? x) eqn:E0; [|reflexivity]. cbn [andb]. destruct ((o <=? x) && (x <? o + zlen w1)) eqn:E1.
  - replace ((o <=? x) && (x <? o + (zlen w1 + zlen w2))) with true by lia. f_equal. symmetry. apply app_nth1. unfold zlen in *. lia.
  - destruct ((o + zlen w1 <=? x) && (x <? o + zlen w1 + zlen w2)) eqn:E2.
    + replace ((o <=? x) && (x <? o + (zlen w1 + zlen w2))) with true by lia. f_equal. rewrite app_nth2 by (unfold zlen in *; lia). f_equal. unfold zlen in *. lia.
    + replace ((o <=? x) && (x <? o + (zlen w1 + zlen w2))) with false by lia. reflexivity.
Qed.

Lemma put_nil fl f o x : put fl f o [] x = f x.
Proof. unfold put. destruct (f x); [reflexivity|]. replace (x <? o + zlen []) with (x <? o) by (f_equal; unfold zlen; cbn; lia). destruct (o <=? x) eqn:E; [replace (x <? o) with false by lia|]; rewrite ?andb_false_r; reflexivity. Qed.

Lemma put_ext fl f g o w x : f x = g x -> put fl f o w x = put fl g o w x.
Proof. unfold put. intros ->. reflexivity. Qed.

Lemma zlen_cell_flat c : zlen (cell_flat c) = zlen (bytes c).
Proof. unfold cell_flat. destruct (sync c); [apply zlen_replicate|apply zlen_map]. Qed.

Lemma flat_app l1 l2 : flat (l1 ++ l2) = flat l1 ++ flat l2.
Proof. unfold flat. rewrite map_app. apply concat_app. Qed.

Lemma flat_cons c l : flat (c :: l) = cell_flat c ++ flat l.
Proof. reflexivity. Qed.

Lemma count_app f g : count (f ++ g) = count f + count g.
Proof. unfold count. rewrite omap_app. apply zlen_app. Qed.

Lemma count_some w : count (Some <$> w) = zlen w.
Proof. unfold count. induction w as [|x w IH]; [reflexivity|]. cbn. rewrite !zlen_cons, <-IH. reflexivity. Qed.

Lemma count_none n : count (replicate n None) = 0.
Proof. unfold count. induction n as [|n IH]; [reflexivity|]. exact IH. Qed.

Lemma count_at_most f : 0 <= count f <= zlen f.
Proof.
  induction f as [|x f IH]; [vm_compute; split; discriminate|]. change (x :: f) with ([x] ++ f). rewrite count_app, zlen_app. change (zlen [x]) with 1.
  destruct x as [v|]; [change (count [Some v]) with 1|change (count [None]) with 0]; lia.
Qed.

(** ** Links *)

Definition ok_links (fr : nat) (l : list cell) : Prop :=
  NoDup (map id l) /\ Forall (fun c => (id c < fr)%nat /\ bytes c <> []) l.

Lemma links_app fr l1 l2 : ok_links fr (l1 ++ l2) <->
  ok_links fr l1 /\ ok_links fr l2 /\ forall c d, c ∈ l1 -> d ∈ l2 -> id c <> id d.
Proof.
  unfold ok_links. rewrite map_app, NoDup_app, Forall_app. split.
  - intros [(H1 & H2 & H3) [H4 H5]]. repeat split; try assumption. intros c d Hc Hd E. apply (H2 (id c)); [apply list_elem_of_fmap; eauto|]. rewrite E. apply list_elem_of_fmap; eauto.
  - intros ([H1 H2] & [H3 H4] & H5). split; [|auto]. split; [exact H1|]. split; [|exact H3]. intros n Hn Hn'.
    apply list_elem_of_fmap in Hn as (c & -> & Hc). apply list_elem_of_fmap in Hn' as (d & E & Hd). exact (H5 c d Hc Hd E).
Qed.

Lemma links_cons fr c l : ok_links fr (c :: l) <-> (id c < fr)%nat /\ bytes c <> [] /\ ok_links fr l /\ forall d, d ∈ l -> id c <> id d.
Proof.
  unfold ok_links. cbn [map]. rewrite NoDup_cons, Forall_cons. split.
  - intros [[H1 H2] [[H3 H4] H5]]. repeat split; try assumption. intros d Hd E. apply H1. rewrite E. apply list_elem_of_fmap; eauto.
  - intros (H1 & H2 & [H3 H4] & H5). repeat split; try assumption. intros Hc. apply list_elem_of_fmap in Hc as (d & E & Hd). exact (H5 d Hd E).
Qed.

Lemma links_fresh fr l c : ok_links fr l -> c ∈ l -> (id c < fr)%nat.
Proof. intros [_ H] Hc. rewrite Forall_forall in H. apply H, Hc. Qed.

Lemma links_mono fr fr' l : (fr <= fr')%nat -> ok_links fr l -> ok_links fr' l.
Proof. intros Hle [H1 H2]. split; [exact H1|]. eapply Forall_impl; [exact H2|]. intros c [H3 H4]. split; [lia|exact H4]. Qed.

Lemma links_replace fr p c c' t : ok_links fr (p ++ c :: t) -> id c' = id c -> bytes c' <> [] -> ok_links fr (p ++ c' :: t).
Proof.
  rewrite !links_app, !links_cons. intros (H1 & (H2 & H3 & H4 & H5) & H6) Ei Hb. rewrite Ei. repeat split; try assumption; try apply H4; try apply H1.
  intros a d Ha [->|Hd]%elem_of_cons; [rewrite Ei; apply (H6 a c); [exact Ha|left]|apply H6; [exact Ha|right; exact Hd]].
Qed.

Lemma links_split fr p c a b t : ok_links fr (p ++ c :: t) -> id a = id c -> id b = fr -> bytes a <> [] -> bytes b <> [] -> ok_links (S fr) (p ++ a :: b :: t).
Proof.
  intros H Ea Eb Ha Hb. apply (links_replace fr p c a t) in H; [|assumption..]. pose proof (fun d => links_fresh fr _ d H) as Hf. cbn in Hf.
  rewrite links_app, links_cons in H. destruct H as (H1 & (H2 & _ & H3 & H4) & H5). rewrite links_app, !links_cons.
  split; [apply (links_mono fr); [lia|exact H1]|]. split.
  - split; [lia|]. split; [exact Ha|]. split; [split; [lia|]|].
    + split; [exact Hb|]. split; [apply (links_mono fr); [lia|exact H3]|]. intros d Hd E. specialize (Hf d). rewrite <-E, Eb in Hf.
      enough (fr < fr)%nat by lia. apply Hf. apply elem_of_app. right. right. exact Hd.
    + intros d [->|Hd]%elem_of_cons; [lia|apply H4, Hd].
  - intros x d Hx [->|[->|Hd]%elem_of_cons]%elem_of_cons.
    + apply H5; [exact Hx|left].
    + specialize (Hf x). enough (id x < fr)%nat by lia. apply Hf. apply elem_of_app. left. exact Hx.
    + apply H5; [exact Hx|right; exact Hd].
Qed.

Lemma links_snoc fr p c : ok_links fr p -> id c = fr -> bytes c <> [] -> ok_links (S fr) (p ++ [c]).
Proof.
  intros H Ec Hb. rewrite links_app, links_cons. split; [apply (links_mono fr); [lia|exact H]|]. split.
  - split; [lia|]. split; [exact Hb|]. split; [split; constructor|]. intros d Hd. inversion Hd.
  - intros x d Hx [->|Hd]%elem_of_cons; [|inversion Hd]. pose proof (links_fresh _ _ _ H Hx). lia.
Qed.

(** ** An iteration of the loop *)

Lemma fill_spec l : forall room limit, 0 <= room -> 0 <= limit ->
  let '(w, l') := fill room limit l in
  concat l = w ++ concat l' /\ zlen w <= room /\ zlen w <= limit /\ zlen l' <= zlen l /\ (w = [] -> 0 < room -> 0 < limit -> l' = []).
Proof.
  induction l as [|b bs IH]; intros room limit Hr Hl; cbn [fill].
  { repeat split; try (unfold zlen; cbn; lia). }
  pose proof (zlen_nonneg b) as Hb. rewrite zlen_cons. destruct (zlen b =? 0) eqn:E1.
  - specialize (IH room limit Hr Hl). destruct (fill room limit bs) as [w l']. destruct IH as (H1 & H2 & H3 & H4 & H5).
    rewrite (zlen_nil b) by lia. cbn [concat app]. repeat split; try assumption. lia.
  - destruct ((room =? 0) || (limit =? 0)) eqn:E2.
    + cbn [concat app]. rewrite zlen_cons. repeat split; try (unfold zlen; cbn; lia).
    + set (n := Z.min (Z.min room (zlen b)) limit). destruct (n =? zlen b) eqn:E3.
      * specialize (IH (room - n) (limit - n) ltac:(lia) ltac:(lia)). destruct (fill (room - n) (limit - n) bs) as [w l'].
        destruct IH as (H1 & H2 & H3 & H4 & H5). cbn [concat]. rewrite H1, app_assoc, zlen_app. repeat split; try lia.
        intros Hw. destruct b; [discriminate E1|discriminate Hw].
      * cbn [concat]. rewrite app_assoc, ztake_zdrop, zlen_ztake, zlen_cons by lia. repeat split; try lia.
        intros Hw. assert (zlen (ztake n b) = 0) as H0 by (rewrite Hw; reflexivity). rewrite zlen_ztake in H0 by lia. lia.
Qed.

(** The state of the loop; nothing is below [fl]. *)
Record ok (fl : Z) (s : wstate) : Prop := {
  ok_cells : ok_links (fr s) (prev s ++ rest s);
  ok_base : base s = fl + zlen (flat (prev s));
  ok_off : base s <= off s \/ prev s = [];
  ok_end : base s + zlen (flat (rest s)) <= 2 ^ 62 + NGX_QUIC_BUFFER_SIZE;
  ok_low : 0 <= fl /\ 0 <= off s /\ 0 <= lim s;
  ok_in : off s + zlen (concat (inp s)) <= 2 ^ 62;
  ok_size : 0 <= sz s <= fl + count (flat (prev s ++ rest s))
}.

Definition holds (fl : Z) (s : wstate) : Z -> option Z := val fl (flat (prev s ++ rest s)).

(** What an iteration takes from the input, and where it puts it. *)
Definition takes (fl : Z) (s s' : wstate) (w : list Z) : Prop :=
  concat (inp s) = w ++ concat (inp s') /\ off s' = off s + zlen w /\ lim s' = lim s - zlen w /\
  (forall x, holds fl s' x = put fl (holds fl s) (off s) w x) /\
  sz s' - sz s = count (flat (prev s' ++ rest s')) - count (flat (prev s ++ rest s)).

(** A hole that will be split. *)
Definition to_split (s : wstate) : Z :=
  match rest s with
  | [] => if base s <? off s then 1 else 0
  | c :: _ => if sync c && (base s <? off s) && (off s <? base s + zlen (bytes c)) then 1 else 0
  end.

Definition measure (s : wstate) : Z :=
  3 * Z.max 0 (off s + amount (lim s) (inp s) - base s) + amount (lim s) (inp s) + zlen (inp s) + to_split s.

Lemma amount_take w l l' lim : concat l = w ++ concat l' -> amount (lim - zlen w) l' = amount lim l - zlen w.
Proof. unfold amount. intros ->. rewrite zlen_app. lia. Qed.

Lemma bytes_pos (c : cell) : bytes c <> [] -> 0 < zlen (bytes c).
Proof. destruct (bytes c); [contradiction|]. rewrite zlen_cons. pose proof (zlen_nonneg l). lia. Qed.

Lemma nonempty_pos {A} (l : list A) : 0 < zlen l -> l <> [].
Proof. intros H ->. revert H. unfold zlen. cbn. lia. Qed.

(** The same bytes in other links. *)
Lemma takes_nothing fl s s' : flat (prev s' ++ rest s') = flat (prev s ++ rest s) -> inp s' = inp s -> off s' = off s -> lim s' = lim s -> sz s' = sz s ->
  takes fl s s' [].
Proof.
  intros Ef Ei Eo El Es. unfold takes, holds. rewrite Ei, Eo, El, Es, Ef. cbn [app]. change (zlen []) with 0. repeat split; try lia.
  intros x. rewrite put_nil. reflexivity.
Qed.

(** A hole that is filled from its start. *)
Lemma put_hole fl f1 n f2 w x : let o := fl + zlen f1 in (0 <= zlen w <= Z.of_nat n) ->
  val fl (f1 ++ (Some <$> w) ++ replicate (n - length w) None ++ f2) x = put fl (val fl (f1 ++ replicate n None ++ f2)) o w x.
Proof.
  intros o Hw. unfold put. rewrite !val_joined, !zlen_map, !zlen_replicate, !val_none. fold o.
  pose proof (zlen_nonneg f1) as Hf1. destruct (x <? o) eqn:E1.
  - replace (o <=? x) with false by lia. rewrite andb_false_r. cbn [andb]. destruct (val fl f1 x); reflexivity.
  - replace (o <=? x) with true by lia. replace (fl <=? x) with true by lia. cbn [andb]. destruct (x <? o + zlen w) eqn:E2.
    + replace (x <? o + Z.of_nat n) with true by lia. rewrite val_some. replace ((o <=? x) && (x <? o + zlen w)) with true by lia. reflexivity.
    + unfold zlen in *. destruct (x <? o + Z.of_nat n) eqn:E3.
      * replace (x <? o + Z.of_nat (length w) + Z.of_nat (n - length w)) with true by lia. reflexivity.
      * replace (x <? o + Z.of_nat (length w) + Z.of_nat (n - length w)) with false by lia.
        replace (o + Z.of_nat (length w) + Z.of_nat (n - length w)) with (o + Z.of_nat n) by lia. destruct (val _ _ _); reflexivity.
Qed.

(** Data that is there. *)
Lemma put_data fl f1 b f2 o w x : let e := fl + zlen f1 in e <= o -> o + zlen w <= e + zlen b ->
  put fl (val fl (f1 ++ (Some <$> b) ++ f2)) o w x = val fl (f1 ++ (Some <$> b) ++ f2) x.
Proof.
  intros e H1 H2. unfold put. rewrite !val_joined, !zlen_map. fold e. destruct (x <? e) eqn:E1.
  - destruct (val fl f1 x); [reflexivity|]. replace (o <=? x) with false by lia. rewrite andb_false_r. reflexivity.
  - destruct (x <? e + zlen b) eqn:E2.
    + rewrite val_some. replace ((e <=? x) && (x <? e + zlen b)) with true by lia. reflexivity.
    + destruct (val _ _ _); [reflexivity|]. replace (x <? o + zlen w) with false by lia. rewrite andb_false_r. reflexivity.
Qed.

Lemma cell_flat_hole i b : cell_flat (mk_cell i true b) = replicate (length b) None.
Proof. reflexivity. Qed.
Lemma cell_flat_data i b : cell_flat (mk_cell i false b) = Some <$> b.
Proof. reflexivity. Qed.

(** What an iteration that goes on leaves. *)
Definition goes_on (fl : Z) (s : wstate) (r : outcome) : Prop :=
  match r with Again s' => ok fl s' /\ (exists w, takes fl s s' w) /\ measure s' < measure s | Done => False | No_memory => True end.

Section Steps.
Variable alloc : nat -> bool.
Variable garbage : nat -> list Z.
Hypothesis garbage_len : forall n, zlen (garbage n) = NGX_QUIC_BUFFER_SIZE.
Variable fl : Z.

(** The facts on a state whose next link is [cl]. *)
Lemma ok_next s cl tl : ok fl s -> rest s = cl :: tl -> let n := zlen (bytes cl) in
  0 < n /\ 0 <= base s /\ base s + n + zlen (flat tl) <= 2 ^ 62 + 4096 /\ 0 <= lim s /\ 0 <= fl /\ off s + zlen (concat (inp s)) <= 2 ^ 62 /\ 0 <= zlen (concat (inp s)) /\ 0 <= zlen (flat tl).
Proof.
  intros [H1 H2 H3 H4 H5 H6 H7] E n. rewrite E in *. rewrite flat_cons, zlen_app, zlen_cell_flat in H4. fold n in H4. unfold NGX_QUIC_BUFFER_SIZE in H4.
  apply links_app in H1 as (_ & H1 & _). apply links_cons in H1 as (_ & H1 & _). apply bytes_pos in H1. fold n in H1.
  pose proof (zlen_nonneg (flat (prev s))). pose proof (zlen_nonneg (concat (inp s))). pose proof (zlen_nonneg (flat tl)). lia.
Qed.

Lemma write_cell_pass s cl tl : ok fl s -> rest s = cl :: tl -> base s <= off s -> base s + zlen (bytes cl) <= off s -> 0 <= amount (lim s) (inp s) ->
  goes_on fl s (Again (mk_w (prev s ++ [cl]) tl (base s + zlen (bytes cl)) (off s) (lim s) (inp s) (sz s) (fr s))).
Proof.
  intros Hok E Hb Hn Ha. destruct (ok_next s cl tl Hok E) as (? & ? & ? & ? & ? & ? & ? & ?). destruct Hok as [K1 K2 K3 K4 K5 K6 K7].
  assert (flat ((prev s ++ [cl]) ++ tl) = flat (prev s ++ rest s)) as Ef by (rewrite E, <-app_assoc; reflexivity). split; [|split].
  - split; cbn [prev rest base off lim inp sz fr]; try assumption.
    + rewrite <-app_assoc. cbn [app]. rewrite <-E. exact K1.
    + rewrite flat_app, zlen_app. change (flat [cl]) with (cell_flat cl ++ []). rewrite app_nil_r, zlen_cell_flat. lia.
    + left. exact Hn.
    + rewrite Ef. exact K7.
  - exists []. apply takes_nothing; try reflexivity. exact Ef.
  - unfold measure, to_split. cbn [prev rest base off lim inp sz fr]. rewrite E.
    assert (forall c l, match l with [] => if base s + zlen (bytes cl) <? off s then 1 else 0
      | c0 :: _ => if sync c0 && (base s + zlen (bytes cl) <? off s) && (off s <? base s + zlen (bytes cl) + zlen (bytes c)) then 1 else 0 end <= 1) as Hs.
    { intros c l. destruct l; [destruct (_ <? _); lia|destruct (_ && _); lia]. }
    assert (match tl with [] => if base s + zlen (bytes cl) <? off s then 1 else 0
      | c0 :: _ => if sync c0 && (base s + zlen (bytes cl) <? off s) && (off s <? base s + zlen (bytes cl) + zlen (bytes c0)) then 1 else 0 end <= 1) as Ht
      by (destruct tl; [destruct (_ <? _); lia|destruct (_ && _); lia]).
    replace (sync cl && (base s <? off s) && (off s <? base s + zlen (bytes cl))) with false by (destruct (sync cl); cbn; lia). lia.
Qed.

Lemma write_cell_split s cl tl a b : ok fl s -> rest s = cl :: tl -> sync cl = true -> base s < off s < base s + zlen (bytes cl) ->
  ngx_quic_split_chain alloc cl (off s - base s) (fr s) = Some (a, b) ->
  goes_on fl s (Again (mk_w (prev s) (a :: b :: tl) (base s) (off s) (lim s) (inp s) (sz s) (S (fr s)))).
Proof.
  intros Hok E Es Hb Ec. destruct (ok_next s cl tl Hok E) as (? & ? & ? & ? & ? & ? & ? & ?). destruct Hok as [K1 K2 K3 K4 K5 K6 K7].
  unfold ngx_quic_split_chain in Ec. destruct (alloc (fr s)); [|discriminate]. injection Ec as <- <-. set (k := off s - base s) in *.
  assert (flat (prev s ++ mk_cell (id cl) (sync cl) (ztake k (bytes cl)) :: mk_cell (fr s) (sync cl) (zdrop k (bytes cl)) :: tl) = flat (prev s ++ rest s)) as Ef.
  { rewrite E, !flat_app, !flat_cons. f_equal. rewrite Es, !cell_flat_hole, app_assoc. f_equal. unfold cell_flat. rewrite Es, <-replicate_add. f_equal.
    rewrite <-length_app, ztake_zdrop. reflexivity. }
  assert (zlen (ztake k (bytes cl)) = k) as Ek by (apply zlen_ztake; lia). split; [|split].
  - split; cbn [prev rest base off lim inp sz fr]; try assumption.
    + rewrite E in K1. apply (links_split (fr s) (prev s) cl); try exact K1; try reflexivity; apply nonempty_pos; cbn [bytes]; [lia|rewrite zlen_zdrop; lia].
    + rewrite flat_app in Ef. rewrite flat_app in Ef. apply app_inv_head in Ef. rewrite Ef. exact K4.
    + rewrite Ef. exact K7.
  - exists []. apply takes_nothing; try reflexivity. exact Ef.
  - unfold measure, to_split. cbn [prev rest base off lim inp sz fr bytes sync]. rewrite E, Ek. unfold k. rewrite Es.
    replace (true && (base s <? off s) && (off s <? base s + zlen (bytes cl))) with true by lia.
    replace (true && (base s <? off s) && (off s <? base s + (off s - base s))) with false by lia. lia.
Qed.

(** The link is filled: [cl'] and [tl'] are what becomes of it, with [w] put
    there. *)
Lemma write_cell_fill s cl tl w l r z f : ok fl s -> rest s = cl :: tl -> base s <= off s < base s + zlen (bytes cl) ->
  fill (base s + zlen (bytes cl) - off s) (lim s) (inp s) = (w, l) -> 0 < lim s -> inp s <> [] ->
  ok_links f (prev s ++ r) -> zlen (flat r) = zlen (flat (rest s)) ->
  (forall x, val fl (flat (prev s ++ r)) x = put fl (holds fl s) (off s) w x) ->
  z - sz s = count (flat r) - count (flat (rest s)) -> 0 <= z - sz s ->
  to_split (mk_w (prev s) r (base s) (u64 (off s + zlen w)) (lim s - zlen w) l z f) <= to_split s ->
  goes_on fl s (Again (mk_w (prev s) r (base s) (u64 (off s + zlen w)) (lim s - zlen w) l z f)).
Proof.
  intros Hok E Hb Ef Hlim Hin Hl Hz Hv Hc Hc0 Ht. destruct (ok_next s cl tl Hok E) as (? & ? & ? & ? & ? & ? & ? & ?). destruct Hok as [K1 K2 K3 K4 K5 K6 K7].
  pose proof (fill_spec (inp s) (base s + zlen (bytes cl) - off s) (lim s) ltac:(lia) ltac:(lia)) as F. rewrite Ef in F. destruct F as (F1 & F2 & F3 & F4 & F5).
  pose proof (zlen_nonneg w) as Hw. rewrite F1, zlen_app in *. pose proof (zlen_nonneg (concat l)). rewrite (u64_small (off s + zlen w)) in * by lia. split; [|split].
  - split; cbn [prev rest base off lim inp sz fr]; try assumption; try lia.
    rewrite flat_app, count_app in K7 |- *. lia.
  - exists w. unfold takes, holds. cbn [prev rest base off lim inp sz fr]. repeat split; try assumption; try lia. rewrite !flat_app, !count_app. lia.
  - unfold measure in *. cbn [prev rest base off lim inp sz fr] in *. rewrite (amount_take w (inp s) l (lim s) F1).
    assert (zlen w = 0 -> zlen l < zlen (inp s)).
    { intros Hw0. rewrite F5; [|apply zlen_nil, Hw0|lia|lia]. destruct (inp s); [contradiction|]. rewrite zlen_cons. pose proof (zlen_nonneg l1). unfold zlen at 1. cbn. lia. }
    lia.
Qed.

(** The same for a hole, of which the beginning becomes data. *)
Lemma write_cell_hole s cl tl w l r f : ok fl s -> rest s = cl :: tl -> sync cl = true -> base s = off s ->
  fill (zlen (bytes cl)) (lim s) (inp s) = (w, l) -> 0 < lim s -> inp s <> [] -> ok_links f (prev s ++ r) ->
  flat r = (Some <$> w) ++ replicate (length (bytes cl) - length w) None ++ flat tl ->
  to_split (mk_w (prev s) r (base s) (u64 (off s + zlen w)) (lim s - zlen w) l (u64 (sz s + zlen w)) f) = 0 ->
  goes_on fl s (Again (mk_w (prev s) r (base s) (u64 (off s + zlen w)) (lim s - zlen w) l (u64 (sz s + zlen w)) f)).
Proof.
  intros Hok E Es Eb Ef Hlim Hin Hl Er Ht. pose proof (ok_next s cl tl Hok E) as Hn. cbn zeta in Hn.
  pose proof (fill_spec (inp s) (zlen (bytes cl)) (lim s) ltac:(lia) ltac:(lia)) as F. rewrite Ef in F. destruct F as (F1 & F2 & F3 & F4 & F5).
  pose proof (zlen_nonneg w) as Hw. pose proof (ok_base fl s Hok) as Kb. pose proof (ok_size fl s Hok) as Ks.
  assert (flat (rest s) = replicate (length (bytes cl)) None ++ flat tl) as E0 by (rewrite E, flat_cons; unfold cell_flat; rewrite Es; reflexivity).
  pose proof (count_at_most (flat (prev s ++ rest s))) as Hc. pose proof (ok_end fl s Hok) as Ke. unfold NGX_QUIC_BUFFER_SIZE in Ke. rewrite flat_app, zlen_app in Hc. rewrite flat_app in Ks.
  assert (u64 (sz s + zlen w) = sz s + zlen w) as Ez by (apply u64_small; lia).
  apply (write_cell_fill s cl tl); try assumption; try lia.
  - rewrite Eb. replace (off s + zlen (bytes cl) - off s) with (zlen (bytes cl)) by lia. exact Ef.
  - rewrite Er, E0, !zlen_app, zlen_map, !zlen_replicate. unfold zlen in *. lia.
  - intros x. unfold holds. rewrite !flat_app, Er, E0. replace (off s) with (fl + zlen (flat (prev s))) by lia. apply put_hole. unfold zlen in *. lia.
  - rewrite Ez, Er, E0, !count_app, count_some, !count_none. lia.
  - rewrite Ht. unfold to_split. destruct (rest s) as [|c t]; [destruct (_ <? _); lia|destruct (_ && _); lia].
Qed.

Lemma write_cell_ok s cl tl : ok fl s -> rest s = cl :: tl -> base s <= off s -> 0 < lim s -> inp s <> [] ->
  goes_on fl s (write_cell alloc cl tl s).
Proof.
  intros Hok E Hb Hlim Hin. pose proof (ok_next s cl tl Hok E) as Hn. cbn zeta in Hn. unfold write_cell. rewrite (u64_small (base s + zlen (bytes cl))) by lia.
  destruct (base s + zlen (bytes cl) <=? off s) eqn:E1; [apply write_cell_pass; try assumption; unfold amount; lia|].
  destruct (sync cl && (off s >? base s)) eqn:E2.
  { destruct (ngx_quic_split_chain alloc cl (off s - base s) (fr s)) as [[a b]|] eqn:Ec; [|exact I].
    apply (write_cell_split s cl tl a b Hok E); [destruct (sync cl); [reflexivity|discriminate E2]|lia|exact Ec]. }
  pose proof (ok_cells fl s Hok) as Hl. rewrite E in Hl.
  destruct (fill (zlen (bytes cl) - (off s - base s)) (lim s) (inp s)) as [w l] eqn:Ef.
  pose proof (fill_spec (inp s) (zlen (bytes cl) - (off s - base s)) (lim s) ltac:(lia) ltac:(lia)) as F. rewrite Ef in F. destruct F as (F1 & F2 & F3 & F4 & F5).
  pose proof (zlen_nonneg w) as Hw. destruct (sync cl) eqn:Es.
  - assert (off s = base s) as Eo by lia. replace (off s - base s) with 0 in * by lia. rewrite Z.sub_0_r in Ef. cbn [id bytes].
    replace (ztake 0 (bytes cl)) with (@nil Z) by reflexivity. cbn [app]. rewrite Z.add_0_l.
    assert (zlen (w ++ zdrop (zlen w) (bytes cl)) = zlen (bytes cl)) as En by (rewrite zlen_app, zlen_zdrop; lia).
    assert (length (w ++ zdrop (zlen w) (bytes cl)) = length (bytes cl)) as En' by (apply Nat2Z.inj, En).
    assert (ztake (zlen w) (w ++ zdrop (zlen w) (bytes cl)) = w) as Et by (unfold ztake, zlen; rewrite Nat2Z.id; apply take_app_length).
    assert (zdrop (zlen w) (w ++ zdrop (zlen w) (bytes cl)) = zdrop (zlen w) (bytes cl)) as Ed by (unfold zdrop at 1, zlen at 1; rewrite Nat2Z.id; apply drop_app_length).
    destruct (zlen w =? zlen (bytes cl)) eqn:E3; [|destruct (zlen w =? 0) eqn:E4; cbn [negb]].
    + apply (write_cell_hole s cl tl); try assumption; try lia; [apply (links_replace _ _ cl); [exact Hl|reflexivity|apply nonempty_pos; cbn [bytes]; lia]| |].
      * rewrite flat_cons, cell_flat_data. replace (zdrop (zlen w) (bytes cl)) with (@nil Z) by (symmetry; apply zlen_nil; rewrite zlen_zdrop; lia).
        rewrite app_nil_r. replace (length (bytes cl) - length w)%nat with 0%nat by (unfold zlen in *; lia). reflexivity.
      * unfold to_split. cbn [rest sync andb]. reflexivity.
    + apply (write_cell_hole s cl tl); try assumption; try lia; [apply (links_replace _ _ cl); [exact Hl|reflexivity|apply nonempty_pos; cbn [bytes]; lia]| |].
      * rewrite flat_cons, cell_flat_hole, En', (zlen_nil w) by lia. cbn [length fmap list_fmap app]. rewrite Nat.sub_0_r. reflexivity.
      * unfold to_split. cbn [rest sync andb base off]. rewrite (zlen_nil w) by lia. change (zlen []) with 0. rewrite Z.add_0_r, u64_small by lia.
        replace (base s <? off s) with false by lia. reflexivity.
    + unfold ngx_quic_split_chain. destruct (alloc (fr s)); [|exact I]. cbn [id sync bytes]. rewrite Et, Ed.
      apply (write_cell_hole s cl tl); try assumption; try lia.
      * apply (links_split (fr s) (prev s) cl); try reflexivity; [exact Hl|apply nonempty_pos; cbn [bytes]; lia|apply nonempty_pos; cbn [bytes]; rewrite zlen_zdrop; lia].
      * rewrite !flat_cons, cell_flat_data, cell_flat_hole. do 3 f_equal. unfold zdrop, zlen. rewrite length_drop. lia.
      * reflexivity.
  - apply (write_cell_fill s cl tl); try assumption; try lia.
    + replace (base s + zlen (bytes cl) - off s) with (zlen (bytes cl) - (off s - base s)) by lia. exact Ef.
    + rewrite E. reflexivity.
    + intros x. unfold holds. rewrite E, flat_app, flat_cons. unfold cell_flat. rewrite Es. symmetry. pose proof (ok_base fl s Hok). apply put_data; lia.
    + rewrite E. lia.
    + unfold to_split. cbn [rest]. rewrite Es. rewrite E. cbn [andb]. rewrite Es. reflexivity.
Qed.

Lemma goes_on_ext s s2 r : (forall x, holds fl s2 x = holds fl s x) -> count (flat (prev s2 ++ rest s2)) = count (flat (prev s ++ rest s)) ->
  inp s2 = inp s -> off s2 = off s -> lim s2 = lim s -> sz s2 = sz s -> measure s2 <= measure s -> goes_on fl s2 r -> goes_on fl s r.
Proof.
  intros Hh Hc Hi Ho Hl Hs Hm. destruct r as [s'| |]; [|tauto..]. cbn. intros (H1 & (w & T1 & T2 & T3 & T4 & T5) & H2).
  split; [exact H1|]. split; [|lia]. exists w. unfold takes. rewrite <-Hi, <-Ho, <-Hl, <-Hs, <-Hc. repeat split; try assumption.
  intros x. rewrite T4. apply put_ext, Hh.
Qed.

Lemma write_step_trim s b bs : ok fl s -> inp s = b :: bs -> 0 < lim s -> off s < base s ->
  let n := Z.min (zlen b) (Z.min (base s - off s) (lim s)) in
  goes_on fl s (Again (mk_w (prev s) (rest s) (base s) (u64 (off s + n)) (lim s - n) (if n =? zlen b then bs else zdrop n b :: bs) (sz s) (fr s))).
Proof.
  intros [K1 K2 K3 K4 K5 K6 K7] Ei Hl Ho n. rewrite Ei in *. cbn [concat] in K6. rewrite zlen_app in K6. pose proof (zlen_nonneg b). pose proof (zlen_nonneg (concat bs)).
  assert (prev s = []) as Ep by (destruct K3; [lia|assumption]). assert (base s = fl) as Eb by (rewrite K2, Ep; unfold zlen; cbn; lia).
  rewrite u64_small by lia. set (l' := if n =? zlen b then bs else zdrop n b :: bs).
  assert (concat (b :: bs) = ztake n b ++ concat l') as Ec.
  { unfold l'. destruct (n =? zlen b) eqn:E; cbn [concat]; [|rewrite app_assoc, ztake_zdrop; reflexivity].
    f_equal. unfold ztake, zlen in *. rewrite take_ge by lia. reflexivity. }
  assert (zlen (ztake n b) = n) as En by (apply zlen_ztake; lia).
  assert (zlen (b :: bs) = zlen l' + (if n =? zlen b then 1 else 0)) as Ez by (unfold l'; destruct (n =? zlen b); rewrite ?zlen_cons; lia).
  split; [|split].
  - split; cbn [prev rest base off lim inp sz fr]; try assumption; try lia; [right; exact Ep|]. replace (concat l') with (zdrop n (concat (b :: bs))); [rewrite zlen_zdrop; cbn [concat]; rewrite ?zlen_app; lia|].
    rewrite Ec. unfold zdrop. rewrite drop_app_le by (unfold zlen in En; lia). rewrite drop_ge by (unfold zlen in En; lia). reflexivity.
  - exists (ztake n b). unfold takes, holds. cbn [prev rest base off lim inp sz fr]. rewrite Ei, En. repeat split; try lia; [exact Ec|].
    intros x. unfold put. rewrite En. destruct (val _ _ x); [reflexivity|]. destruct (fl <=? x) eqn:E; [|reflexivity]. replace (x <? off s + n) with false by lia. rewrite andb_false_r. reflexivity.
  - unfold measure, to_split. cbn [prev rest base off lim inp sz fr]. rewrite Ei. rewrite <-En at 2 3. rewrite (amount_take (ztake n b) (b :: bs) l' (lim s) Ec), En.
    assert (forall c, sync c && (base s <? off s + n) && (off s + n <? base s + zlen (bytes c)) = false) as H1 by (intros c; replace (base s <? off s + n) with false by lia; rewrite andb_false_r; reflexivity).
    assert (forall c, sync c && (base s <? off s) && (off s <? base s + zlen (bytes c)) = false) as H2 by (intros c; replace (base s <? off s) with false by lia; rewrite andb_false_r; reflexivity).
    destruct (rest s) as [|c t]; [replace (base s <? off s + n) with false by lia; replace (base s <? off s) with false by lia|rewrite H1, H2];
      destruct (n =? zlen b) eqn:E; lia.
Qed.

Lemma write_step_ok s : ok fl s ->
  match write_step alloc garbage s with Done => inp s = [] \/ lim s = 0 | r => goes_on fl s r end.
Proof.
  intros Hok. unfold write_step. destruct (inp s) as [|b bs] eqn:Ei; [left; reflexivity|]. destruct (lim s =? 0) eqn:El; [right; lia|].
  pose proof (ok_low fl s Hok) as Hlow. destruct (off s <? base s) eqn:Eo; [apply write_step_trim; try assumption; lia|].
  assert (forall cl tl s2, ok fl s2 -> rest s2 = cl :: tl -> base s2 <= off s2 -> 0 < lim s2 -> inp s2 <> [] ->
    match write_cell alloc cl tl s2 with Done => b :: bs = [] \/ lim s = 0 | r => goes_on fl s2 r end) as Hcell.
  { intros cl tl s2 H1 H2 H3 H4 H5. pose proof (write_cell_ok s2 cl tl H1 H2 H3 H4 H5) as H. destruct (write_cell alloc cl tl s2); [exact H|destruct H|exact H]. }
  destruct (rest s) as [|cl tl] eqn:Er; [|apply Hcell; try assumption; try lia; rewrite Ei; discriminate].
  unfold ngx_quic_alloc_chain. destruct (alloc (fr s)); [|exact I]. set (cl := mk_cell (fr s) true (garbage (fr s))).
  set (s2 := mk_w (prev s) [cl] (base s) (off s) (lim s) (inp s) (sz s) (S (fr s))).
  assert (zlen (bytes cl) = 4096) as Ecl by apply garbage_len. assert (flat (rest s) = []) as E0 by (rewrite Er; reflexivity).
  assert (flat [cl] = replicate (length (garbage (fr s))) None) as Ef by (unfold flat; cbn [map concat cell_flat sync bytes]; apply app_nil_r).
  pose proof (zlen_nonneg (concat (inp s))).
  assert (ok fl s2) as Hok2.
  { destruct Hok as [K1 K2 K3 K4 K5 K6 K7]. split; cbn [prev rest base off lim inp sz fr s2]; try assumption.
    - rewrite Er, app_nil_r in K1. apply links_snoc; [exact K1|reflexivity|apply nonempty_pos; lia].
    - rewrite flat_cons, app_nil_r, zlen_cell_flat, Ecl. unfold NGX_QUIC_BUFFER_SIZE. lia.
    - rewrite !flat_app, !count_app in *. rewrite E0 in K7. rewrite Ef, count_none. change (count []) with 0 in K7. lia. }
  assert (goes_on fl s2 (write_cell alloc cl [] s2)) as H2 by (apply write_cell_ok; try reflexivity; try assumption; cbn [base off lim inp s2]; try lia; rewrite Ei; discriminate).
  rewrite <-Ei. change (write_cell alloc cl [] (mk_w (prev s) [] (base s) (off s) (lim s) (inp s) (sz s) (S (fr s)))) with (write_cell alloc cl [] s2).
  apply (goes_on_ext s s2) in H2; try reflexivity.
  - destruct (write_cell alloc cl [] s2); [exact H2|destruct H2|exact H2].
  - intros x. unfold holds. cbn [prev rest s2]. rewrite !flat_app, Ef, E0, app_nil_r, val_joined. destruct (x <? fl + zlen (flat (prev s))) eqn:Ex; [reflexivity|].
    rewrite val_none. unfold val. destruct (x <? fl); [reflexivity|]. symmetry. apply nth_overflow. unfold zlen in Ex. lia.
  - cbn [prev rest s2]. rewrite !flat_app, !count_app, Ef, E0, count_none. reflexivity.
  - unfold measure, to_split. rewrite Er. cbn [prev rest base off lim inp s2 sync cl]. destruct (base s <? off s); cbn [andb]; [|reflexivity].
    destruct (off s <? base s + zlen (bytes cl)); lia.
Qed.

Lemma takes_refl s : takes fl s s [].
Proof. apply takes_nothing; reflexivity. Qed.

Lemma takes_trans s s1 s2 w1 w2 : takes fl s s1 w1 -> takes fl s1 s2 w2 -> takes fl s s2 (w1 ++ w2).
Proof.
  intros (A1 & A2 & A3 & A4 & A5) (B1 & B2 & B3 & B4 & B5). unfold takes. rewrite zlen_app. repeat split; try lia.
  - rewrite A1, B1, app_assoc. reflexivity.
  - intros x. rewrite B4, A2, <-put_app. apply put_ext, A4.
Qed.

Lemma write_loop_ok fuel : forall s, ok fl s -> measure s < Z.of_nat fuel ->
  match write_loop alloc garbage fuel s with
  | None => False
  | Some None => True
  | Some (Some s') => ok fl s' /\ (exists w, takes fl s s' w) /\ (inp s' = [] \/ lim s' = 0)
  end.
Proof.
  induction fuel as [|fuel IH]; intros s Hok Hm.
  - unfold measure, amount, to_split in Hm. pose proof (ok_low fl s Hok). pose proof (zlen_nonneg (concat (inp s))). pose proof (zlen_nonneg (inp s)).
    destruct (rest s); [destruct (_ <? _) in Hm; lia|destruct (_ && _) in Hm; lia].
  - cbn [write_loop]. pose proof (write_step_ok s Hok) as Hs. destruct (write_step alloc garbage s) as [s1| |]; [|split; [exact Hok|split; [exists []; apply takes_refl|exact Hs]]|exact I].
    destruct Hs as (Hok1 & (w1 & Hw1) & Hm1). specialize (IH s1 Hok1 ltac:(lia)). destruct (write_loop alloc garbage fuel s1) as [[s2|]|]; [|exact I|exact IH].
    destruct IH as (H1 & (w2 & Hw2) & H3). split; [exact H1|]. split; [|exact H3]. exists (w1 ++ w2). eapply takes_trans; eassumption.
Qed.

(** An error is a lack of memory. *)
Lemma split_memory cl k f : ngx_quic_split_chain alloc cl k f = None -> exists n, alloc n = false.
Proof. unfold ngx_quic_split_chain. destruct (alloc f) eqn:E; [discriminate|]. exists f. exact E. Qed.

Lemma write_cell_memory cl tl s : write_cell alloc cl tl s = No_memory -> exists n, alloc n = false.
Proof.
  unfold write_cell. destruct (_ <=? _); [discriminate|]. destruct (_ && _).
  - destruct (ngx_quic_split_chain _ _ _ _) as [[a b]|] eqn:E; [discriminate|]. intros _. apply split_memory in E. exact E.
  - destruct (fill _ _ _) as [w l]. destruct (sync cl); [|discriminate]. destruct (_ =? _); [discriminate|]. destruct (negb _); [|discriminate].
    destruct (ngx_quic_split_chain _ _ _ _) as [[a b]|] eqn:E; [discriminate|]. intros _. apply split_memory in E. exact E.
Qed.

Lemma write_loop_memory fuel : forall s, write_loop alloc garbage fuel s = Some None -> exists n, alloc n = false.
Proof.
  induction fuel as [|fuel IH]; intros s; cbn [write_loop]; [discriminate|]. destruct (write_step alloc garbage s) as [s1| |] eqn:E; [apply IH|discriminate|].
  intros _. unfold write_step, ngx_quic_alloc_chain in E. destruct (inp s); [discriminate|]. destruct (_ =? _); [discriminate|]. destruct (_ <? _); [discriminate|].
  destruct (rest s); [|apply write_cell_memory in E; exact E]. destruct (alloc (fr s)) eqn:Ea; [apply write_cell_memory in E; exact E|]. exists (fr s). exact Ea.
Qed.

End Steps.

(** ** Buffers *)

(** The byte at a position of the stream. *)
Definition contents (qb : buffer) : Z -> option Z := val (offset qb) (flat (chain qb)).

Record wf (qb : buffer) : Prop := {
  wf_links : ok_links (fresh qb) (chain qb);
  wf_low : 0 <= offset qb;
  wf_end : offset qb + zlen (flat (chain qb)) <= 2 ^ 62 + NGX_QUIC_BUFFER_SIZE;
  wf_size : 0 <= size qb <= offset qb + count (flat (chain qb));
  wf_last : match last_chain qb with
            | Some a => exists p c r, chain qb = p ++ c :: r /\ id c = a /\ last_offset qb = offset qb + zlen (flat p)
            | None => True
            end
}.

Lemma at_link_spec fr p c r : ok_links fr (p ++ c :: r) -> at_link (id c) (p ++ c :: r) = Some (p, c :: r).
Proof.
  induction p as [|x p IH]; intros H; cbn [app at_link].
  - rewrite Nat.eqb_refl. reflexivity.
  - cbn [app] in H. apply links_cons in H as (_ & _ & H & Hx). destruct (Nat.eqb (id x) (id c)) eqn:E.
    + apply Nat.eqb_eq in E. destruct (Hx c); [apply elem_of_app; right; left|exact E].
    + rewrite (IH H). reflexivity.
Qed.

Lemma write_spec alloc garbage qb l limit o :
  (forall n, zlen (garbage n) = NGX_QUIC_BUFFER_SIZE) -> wf qb -> 0 <= limit -> 0 <= o -> o + zlen (concat l) <= 2 ^ 62 ->
  match ngx_quic_write_buffer alloc garbage qb l limit o with
  | None => False
  | Some None => exists n, alloc n = false
  | Some (Some (qb', l')) =>
      wf qb' /\ offset qb' = offset qb /\
      exists w, concat l = w ++ concat l' /\ zlen w = amount limit l /\
        (forall x, contents qb' x = put (offset qb) (contents qb) o w x) /\
        size qb' - size qb = count (flat (chain qb')) - count (flat (chain qb))
  end.
Proof.
  intros Hg [W1 W2 W3 W4 W5] Hl Ho Hi. unfold ngx_quic_write_buffer. pose proof (zlen_nonneg (concat l)) as Hz. pose proof (zlen_nonneg l) as Hz'.
  assert (forall p r b, chain qb = p ++ r -> b = offset qb + zlen (flat p) -> b <= o \/ p = [] ->
    ok (offset qb) (mk_w p r b o limit l (size qb) (fresh qb)) /\
    measure (mk_w p r b o limit l (size qb) (fresh qb)) < Z.of_nat (write_fuel qb l limit o)) as Hstart.
  { intros p r b E Eb Hb. rewrite E in *. pose proof (zlen_nonneg (flat p)). rewrite flat_app, zlen_app in W3. split.
    - split; cbn [prev rest base off lim inp sz fr]; try assumption; lia.
    - unfold measure, write_fuel, to_split. cbn [prev rest base off lim inp sz fr].
      assert (match r with [] => if b <? o then 1 else 0 | c :: _ => if sync c && (b <? o) && (o <? b + zlen (bytes c)) then 1 else 0 end <= 1)
        by (destruct r; [destruct (b <? o); lia|destruct (sync c && (b <? o) && (o <? b + zlen (bytes c))); lia]).
      unfold amount in *. lia. }
  match goal with |- match match ?st with _ => _ end with _ => _ end =>
    assert (exists p r b, st = Some (p, r, b) /\ chain qb = p ++ r /\ b = offset qb + zlen (flat p) /\ (b <= o \/ p = [])) as (p & r & b & Es & Ec & Eb & Hb) end.
  { assert (exists p r b, Some ([], chain qb, offset qb) = Some (p, r, b) /\ chain qb = p ++ r /\ b = offset qb + zlen (flat p) /\ (b <= o \/ p = [])) as Hhead.
    { exists [], (chain qb), (offset qb). split; [reflexivity|]. split; [reflexivity|]. split; [unfold zlen; cbn; lia|]. right. reflexivity. }
    destruct (last_chain qb) as [a|]; [|exact Hhead]. destruct (o >=? last_offset qb) eqn:E; [|exact Hhead]. destruct W5 as (p & c & r & Ec & <- & El).
    exists p, (c :: r), (last_offset qb). rewrite Ec in *. rewrite (at_link_spec (fresh qb) p c r W1). split; [reflexivity|]. split; [reflexivity|]. split; [exact El|]. left. lia. }
  rewrite Es. destruct (Hstart p r b Ec Eb Hb) as [Hok Hm]. set (s := mk_w p r b o limit l (size qb) (fresh qb)) in *.
  pose proof (write_loop_ok alloc garbage Hg (offset qb) _ s Hok Hm) as H. pose proof (write_loop_memory alloc garbage (write_fuel qb l limit o)) as Hmem.
  destruct (write_loop alloc garbage (write_fuel qb l limit o) s) as [[s'|]|] eqn:E.
  - destruct H as ([K1 K2 K3 K4 K5 K6 K7] & (w & T1 & T2 & T3 & T4 & T5) & Hend). split; [|split; [reflexivity|]].
    + split; cbn [size offset last_offset chain last_chain fresh]; try assumption.
      * rewrite flat_app, zlen_app. lia.
      * destruct (rest s') as [|c t] eqn:Er; [exact I|]. exists (prev s'), c, t. split; [reflexivity|]. split; [reflexivity|exact K2].
    + exists w. split; [exact T1|]. split; [|split].
      * pose proof (amount_take w l (inp s') limit T1) as Ha. cbn [lim s] in T3. unfold amount in *. cbn [inp s] in T1. rewrite T1, zlen_app in *. pose proof (zlen_nonneg (concat (inp s'))).
        destruct Hend as [Hend|Hend]; [rewrite Hend in *; cbn [concat] in *; change (zlen []) with 0 in *|]; lia.
      * intros x. unfold contents. cbn [offset chain]. rewrite Ec. apply T4.
      * cbn [size chain]. rewrite Ec. exact T5.
  - exact (Hmem s E).
  - exact H.
Qed.

(** ** What is read and skipped *)

Lemma links_tail fr c l : ok_links fr (c :: l) -> ok_links fr l /\ 0 < zlen (bytes c).
Proof. intros H. apply links_cons in H as (_ & H1 & H2 & _). split; [exact H2|apply bytes_pos, H1]. Qed.

Lemma flat_head b c l : sync c = true -> bytes c <> [] -> val b (flat (c :: l)) b = None.
Proof.
  intros Hs Hb. rewrite flat_cons. unfold cell_flat. rewrite Hs. rewrite val_joined, zlen_replicate, val_none. destruct (bytes c); [contradiction|].
  replace (b <? b + _) with true by (cbn [length]; lia). reflexivity.
Qed.

Lemma read_loop_spec alloc l : forall limit fr, ok_links fr l -> 0 <= limit ->
  match read_loop alloc limit l fr with
  | None => exists n, alloc n = false
  | Some (out, r, n, fr') =>
      flat l = (Some <$> chain_bytes out) ++ flat r /\ zlen (chain_bytes out) = n /\ 0 <= n <= limit /\ ok_links fr' r /\
      (n = limit \/ forall b, val b (flat r) b = None) /\
      (forall p c t, l = p ++ c :: t -> n < zlen (flat p) -> exists p', r = p' ++ c :: t /\ zlen (flat p') = zlen (flat p) - n)
  end.
Proof.
  induction l as [|c l IH]; intros limit fr Hl Hlim; cbn [read_loop].
  { repeat split; try lia; [|exact (proj2 Hl)|right; intros b; unfold val; destruct (b <? b); [reflexivity|]; destruct (Z.to_nat _); reflexivity|].
    - exact (proj1 Hl).
    - intros [|x p] c t E; discriminate E. }
  destruct (links_tail fr c l Hl) as [Hl' Hc]. destruct (sync c || (limit =? 0)) eqn:E1.
  { repeat split; try lia; [exact (proj1 Hl)|exact (proj2 Hl)| |].
    - destruct (limit =? 0) eqn:E; [left; lia|right]. intros b. apply flat_head; [destruct (sync c); [reflexivity|discriminate E1]|apply nonempty_pos, Hc].
    - intros p d t E Hn. exists p. split; [exact E|]. lia. }
  assert (sync c = false) as Es by (destruct (sync c); [discriminate E1|reflexivity]). assert (cell_flat c = Some <$> bytes c) as Ef by (unfold cell_flat; rewrite Es; reflexivity).
  destruct (zlen (bytes c) >? limit) eqn:E2.
  - unfold ngx_quic_split_chain. destruct (alloc fr) eqn:Ea; [|exists fr; exact Ea].
    assert (zlen (ztake limit (bytes c)) = limit) as Et by (apply zlen_ztake; lia). assert (zlen (zdrop limit (bytes c)) = zlen (bytes c) - limit) as Ed by (apply zlen_zdrop; lia).
    assert (chain_bytes [mk_cell (id c) (sync c) (ztake limit (bytes c))] = ztake limit (bytes c)) as -> by apply app_nil_r.
    split; [|split; [exact Et|split; [lia|split; [|split; [left; reflexivity|]]]]].
    + rewrite !flat_cons, Ef, app_assoc. f_equal. unfold cell_flat. cbn [sync bytes]. rewrite Es, <-fmap_app, ztake_zdrop. reflexivity.
    + apply (links_split fr [] c (mk_cell (id c) (sync c) (ztake limit (bytes c))) (mk_cell fr (sync c) (zdrop limit (bytes c)))) in Hl; try reflexivity; [|apply nonempty_pos; cbn [bytes]; lia|apply nonempty_pos; cbn [bytes]; lia].
      apply (links_tail _ _ _ Hl).
    + intros [|x p] d t E Hn; [unfold zlen in Hn; cbn in Hn; lia|]. injection E as <- ->. rewrite flat_cons, zlen_app, zlen_cell_flat in Hn |- *.
      exists (mk_cell fr (sync c) (zdrop limit (bytes c)) :: p). split; [reflexivity|]. rewrite flat_cons, zlen_app, zlen_cell_flat. cbn [bytes]. lia.
  - specialize (IH (limit - zlen (bytes c)) fr Hl' ltac:(lia)). destruct (read_loop alloc (limit - zlen (bytes c)) l fr) as [[[[out r] m] fr']|]; [|exact IH].
    destruct IH as (H1 & H2 & H3 & H4 & H5 & H6). unfold chain_bytes in *. cbn [map concat]. rewrite fmap_app, zlen_app, flat_cons, Ef, H1, <-app_assoc.
    split; [reflexivity|]. split; [lia|]. split; [lia|]. split; [exact H4|]. split; [destruct H5 as [H5|H5]; [left; lia|right; exact H5]|].
    intros [|x p] d t E Hn; [unfold zlen in Hn; cbn in Hn; lia|]. injection E as <- ->. rewrite flat_cons, zlen_app, zlen_cell_flat in Hn |- *.
    destruct (H6 p d t eq_refl ltac:(lia)) as (p' & E' & E''). exists p'. split; [exact E'|]. lia.
Qed.

Lemma val_drop b f g x : val (b + zlen f) g x = if x <? b + zlen f then None else val b (f ++ g) x.
Proof. rewrite val_joined. destruct (x <? b + zlen f) eqn:E; [|reflexivity]. unfold val. rewrite E. reflexivity. Qed.

(** The pointer to the last link after the first ones are gone. *)
Lemma last_kept (c : list cell) (o last : Z) (p : option nat) (r : list cell) (o' : Z) :
  match p with Some a => exists q d t, c = q ++ d :: t /\ id d = a /\ last = o + zlen (flat q) | None => True end ->
  (forall q d t, c = q ++ d :: t -> o' - o < zlen (flat q) -> exists q', r = q' ++ d :: t /\ zlen (flat q') = zlen (flat q) - (o' - o)) ->
  match reset_last o' last p with Some a => exists q d t, r = q ++ d :: t /\ id d = a /\ last = o' + zlen (flat q) | None => True end.
Proof.
  intros Hp Hr. unfold reset_last. destruct (o' >=? last) eqn:E; [exact I|]. destruct p as [a|]; [|exact I]. destruct Hp as (q & d & t & Ec & Ei & El).
  destruct (Hr q d t Ec ltac:(lia)) as (q' & E1 & E2). exists q', d, t. split; [exact E1|]. split; [exact Ei|]. lia.
Qed.

Lemma read_spec alloc qb limit : wf qb -> 0 <= limit ->
  match ngx_quic_read_buffer alloc qb limit with
  | None => exists n, alloc n = false
  | Some (out, qb') =>
      let n := zlen (chain_bytes out) in
      wf qb' /\ offset qb' = offset qb + n /\ n <= limit /\ size qb' = size qb /\
      flat (chain qb) = (Some <$> chain_bytes out) ++ flat (chain qb') /\
      (forall x, contents qb' x = if x <? offset qb' then None else contents qb x) /\
      (n = limit \/ contents qb' (offset qb') = None)
  end.
Proof.
  intros [W1 W2 W3 W4 W5] Hl. unfold ngx_quic_read_buffer. pose proof (read_loop_spec alloc (chain qb) limit (fresh qb) W1 Hl) as H.
  destruct (read_loop alloc limit (chain qb) (fresh qb)) as [[[[out r] n] f]|]; [|exact H]. destruct H as (H1 & H2 & H3 & H4 & H5 & H6). cbn zeta. rewrite H2.
  rewrite H1, zlen_app, zlen_map, H2 in W3. rewrite H1, count_app, count_some, H2 in W4. pose proof (zlen_nonneg (flat r)). unfold NGX_QUIC_BUFFER_SIZE in *.
  rewrite u64_small by lia. split; [|split; [reflexivity|split; [lia|split; [reflexivity|split; [exact H1|split]]]]].
  - split; cbn [size offset last_offset chain last_chain fresh]; try assumption; try lia; [unfold NGX_QUIC_BUFFER_SIZE; lia|].
    apply (last_kept (chain qb) (offset qb)); [exact W5|]. replace (offset qb + n - offset qb) with n by lia. exact H6.
  - intros x. unfold contents. cbn [offset chain]. rewrite H1, <-H2, <-(zlen_map Some (chain_bytes out)). apply val_drop.
  - destruct H5 as [H5|H5]; [left; exact H5|right; apply H5].
Qed.

Lemma skip_loop_spec fr target l : forall o, ok_links fr l -> 0 <= o <= target -> o + zlen (flat l) < 2 ^ 64 ->
  let '(r, o') := skip_loop target o l in
  o' = target /\ ok_links fr r /\ flat r = zdrop (target - o) (flat l) /\
  (forall p c t, l = p ++ c :: t -> target - o < zlen (flat p) -> exists p', r = p' ++ c :: t /\ zlen (flat p') = zlen (flat p) - (target - o)).
Proof.
  induction l as [|c l IH]; intros o Hl Ho He; cbn [skip_loop].
  { split; [reflexivity|]. split; [exact Hl|]. split; [unfold zdrop; destruct (Z.to_nat (target - o)); reflexivity|]. intros [|x p] c t E; discriminate E. }
  rewrite flat_cons, zlen_app, zlen_cell_flat in He. destruct (links_tail fr c l Hl) as [Hl' Hc]. pose proof (zlen_nonneg (flat l)). destruct (o >=? target) eqn:E1.
  { split; [lia|]. split; [exact Hl|]. split; [replace (target - o) with 0 by lia; reflexivity|]. intros p d t E Hn. exists p. split; [exact E|lia]. }
  rewrite u64_small by lia. destruct (o + zlen (bytes c) >? target) eqn:E2.
  - assert (zlen (zdrop (target - o) (bytes c)) = zlen (bytes c) - (target - o)) as Ed by (apply zlen_zdrop; lia). split; [reflexivity|]. split; [|split].
    + apply (links_replace fr [] c); [exact Hl|reflexivity|apply nonempty_pos; cbn [bytes]; lia].
    + rewrite !flat_cons. unfold zdrop. rewrite drop_app_le by (pose proof (zlen_cell_flat c); unfold zlen in *; lia). f_equal.
      unfold cell_flat. cbn [sync bytes]. unfold zdrop. destruct (sync c); [rewrite length_drop, drop_replicate; reflexivity|apply fmap_drop].
    + intros [|x p] d t E Hn; [unfold zlen in Hn; cbn in Hn; lia|]. injection E as <- ->. rewrite flat_cons, zlen_app, zlen_cell_flat in Hn |- *.
      exists (mk_cell (id c) (sync c) (zdrop (target - o) (bytes c)) :: p). split; [reflexivity|]. rewrite flat_cons, zlen_app, zlen_cell_flat. cbn [bytes]. lia.
  - specialize (IH (o + zlen (bytes c)) Hl' ltac:(lia) ltac:(lia)). destruct (skip_loop target (o + zlen (bytes c)) l) as [r o']. destruct IH as (H1 & H2 & H3 & H4).
    split; [exact H1|]. split; [exact H2|]. split.
    + rewrite H3, flat_cons. unfold zdrop. rewrite drop_app_ge by (pose proof (zlen_cell_flat c); unfold zlen in *; lia). f_equal. pose proof (zlen_cell_flat c). unfold zlen in *. lia.
    + intros [|x p] d t E Hn; [unfold zlen in Hn; cbn in Hn; lia|]. injection E as <- ->. rewrite flat_cons, zlen_app, zlen_cell_flat in Hn |- *.
      destruct (H4 p d t eq_refl ltac:(lia)) as (p' & E' & E''). exists p'. split; [exact E'|]. lia.
Qed.

Lemma skip_spec qb target : wf qb -> offset qb <= target <= 2 ^ 62 ->
  let qb' := ngx_quic_skip_buffer qb target in
  wf qb' /\ offset qb' = target /\ size qb' = size qb /\ forall x, contents qb' x = if x <? target then None else contents qb x.
Proof.
  intros [W1 W2 W3 W4 W5] Ht. unfold ngx_quic_skip_buffer. unfold NGX_QUIC_BUFFER_SIZE in *.
  pose proof (skip_loop_spec (fresh qb) target (chain qb) (offset qb) W1 ltac:(lia) ltac:(lia)) as H.
  destruct (skip_loop target (offset qb) (chain qb)) as [r o']. destruct H as (-> & H2 & H3 & H4). set (k := target - offset qb) in *.
  assert (flat (chain qb) = ztake k (flat (chain qb)) ++ flat r) as Ec by (rewrite H3, ztake_zdrop; reflexivity).
  assert (zlen (ztake k (flat (chain qb))) <= k) as Hk by (unfold ztake, zlen; rewrite length_take; lia).
  assert (zlen (flat r) = 0 \/ zlen (ztake k (flat (chain qb))) = k) as Hk'.
  { destruct (Z_le_gt_dec k (zlen (flat (chain qb)))); [right; apply zlen_ztake; lia|left]. rewrite H3. unfold zdrop, zlen in *. rewrite length_drop. lia. }
  rewrite Ec, zlen_app in W3. rewrite Ec, count_app in W4. pose proof (count_at_most (ztake k (flat (chain qb)))). pose proof (count_at_most (flat r)). pose proof (zlen_nonneg (flat r)).
  cbn zeta. split; [|split; [reflexivity|split; [reflexivity|]]].
  - split; cbn [size offset last_offset chain last_chain fresh]; try assumption; try lia; [unfold NGX_QUIC_BUFFER_SIZE; lia|].
    apply (last_kept (chain qb) (offset qb)); [exact W5|]. exact H4.
  - intros x. unfold contents. cbn [offset chain]. destruct (x <? target) eqn:E; [unfold val; rewrite E; reflexivity|].
    destruct Hk' as [Hk'|Hk'].
    + rewrite (zlen_nil (flat r) Hk') in *. rewrite app_nil_r in Ec. unfold val. rewrite E. replace (x <? offset qb) with false by lia. rewrite !nth_overflow; [reflexivity| |cbn; lia].
      rewrite Ec. unfold zlen in Hk. lia.
    + rewrite Ec. replace target with (offset qb + zlen (ztake k (flat (chain qb)))) by lia. rewrite val_drop. replace (x <? offset qb + zlen (ztake k (flat (chain qb)))) with false by lia. reflexivity.
Qed.

Lemma empty_wf : wf empty_buffer.
Proof. split; cbn; try lia; [split; [apply NoDup_nil_2|apply Forall_nil_2]|vm_compute; discriminate|vm_compute; split; discriminate]. Qed.

(** The copy of a string has its bytes. *)
Lemma copy_spec alloc garbage data : (forall n, zlen (garbage n) = NGX_QUIC_BUFFER_SIZE) -> zlen data <= 2 ^ 62 ->
  match ngx_quic_copy_buffer alloc garbage data with
  | Some (Some out) => chain_bytes out = data
  | Some None => exists n, alloc n = false
  | None => False
  end.
Proof.
  intros Hg Hd. unfold ngx_quic_copy_buffer. pose proof (zlen_nonneg data) as Hz.
  assert (concat [data] = data) as Ec by apply app_nil_r. pose proof (write_spec alloc garbage empty_buffer [data] (zlen data) 0 Hg empty_wf Hz ltac:(lia)) as H.
  rewrite Ec in H. specialize (H ltac:(lia)).
  destruct (ngx_quic_write_buffer _ _ _ _ _ _) as [[[qb l]|]|]; [|exact H|exact H]. destruct H as (Hw & Ho & w & E & En & Hc & _).
  unfold amount in En. rewrite Ec, Z.min_id in En. assert (w = data) as ->.
  { rewrite E, zlen_app in En. rewrite E, (zlen_nil (concat l)) by lia. symmetry. apply app_nil_r. }
  pose proof (read_spec alloc qb (zlen data) Hw Hz) as H. destruct (ngx_quic_read_buffer alloc qb (zlen data)) as [[out qb']|]; [|exact H]. cbn [option_map fst].
  destruct H as (_ & Ho' & Hn & _ & Hf & Hc' & Hend). pose proof (zlen_nonneg (chain_bytes out)) as Hz'. cbn [offset empty_buffer] in Ho. rewrite Ho in Ho'. rewrite Z.add_0_l in Ho'.
  assert (forall x, contents empty_buffer x = None) as He by (intros x; unfold contents, val; destruct (x <? _); [reflexivity|]; destruct (Z.to_nat _); reflexivity).
  assert (forall x, 0 <= x < zlen data -> contents qb x = Some (nth (Z.to_nat x) data 0)) as Hd'.
  { intros x Hx. rewrite Hc. unfold put. rewrite He. cbn [offset empty_buffer]. replace ((0 <=? x) && (0 <=? x) && (x <? 0 + zlen data)) with true by lia. rewrite Z.sub_0_r. reflexivity. }
  assert (zlen (chain_bytes out) = zlen data) as El.
  { destruct Hend as [Hend|Hend]; [exact Hend|]. destruct (Z.eq_dec (zlen (chain_bytes out)) (zlen data)) as [|Hne]; [assumption|].
    rewrite Hc', Ho', Z.ltb_irrefl, Hd' in Hend by lia. discriminate Hend. }
  apply (nth_ext _ _ 0 0); [unfold zlen in El; lia|]. intros k Hk. assert (contents qb (Z.of_nat k) = Some (nth k data 0)) as E1.
  { rewrite Hd' by (unfold zlen in *; lia). rewrite Nat2Z.id. reflexivity. }
  unfold contents in E1. rewrite Hf, Ho, val_joined, zlen_map in E1. replace (Z.of_nat k <? 0 + zlen (chain_bytes out)) with true in E1 by (unfold zlen; lia).
  rewrite val_some in E1. replace ((0 <=? Z.of_nat k) && (Z.of_nat k <? 0 + zlen (chain_bytes out))) with true in E1 by (unfold zlen; lia).
  rewrite Z.sub_0_r, Nat2Z.id in E1. injection E1 as E1. exact E1.
Qed.

(** ** Properties *)

(** C32: A reassembly buffer implements a partial function from the positions
    of a stream to bytes.  ngx_quic_write_buffer() ends, takes from its input
    what the limit allows, and adds it from its offset on, below nothing that
    was read and without changing a byte that is there; [size] grows by the
    number of bytes added.  ngx_quic_read_buffer() gives the bytes from the
    offset on and stops at its limit or at the first one missing.
    ngx_quic_skip_buffer() forgets what is below its offset.  The pointer to
    the last link is never one of a link that has left the chain, and the
    only error is a lack of memory. *)
Theorem buffer_refines alloc garbage qb : (forall n, zlen (garbage n) = NGX_QUIC_BUFFER_SIZE) -> wf qb ->
  (forall l limit o, 0 <= limit -> 0 <= o -> o + zlen (concat l) <= 2 ^ 62 ->
    match ngx_quic_write_buffer alloc garbage qb l limit o with
    | None => False
    | Some None => exists n, alloc n = false
    | Some (Some (qb', l')) =>
        wf qb' /\ offset qb' = offset qb /\
        exists w, concat l = w ++ concat l' /\ zlen w = Z.min limit (zlen (concat l)) /\
          (forall x, contents qb' x = put (offset qb) (contents qb) o w x) /\
          size qb' - size qb = count (flat (chain qb')) - count (flat (chain qb))
    end) /\
  (forall limit, 0 <= limit ->
    match ngx_quic_read_buffer alloc qb limit with
    | None => exists n, alloc n = false
    | Some (out, qb') =>
        let n := zlen (chain_bytes out) in
        wf qb' /\ offset qb' = offset qb + n /\ n <= limit /\ (n = limit \/ contents qb' (offset qb') = None) /\
        (forall x, contents qb x = if x <? offset qb then None else if x <? offset qb' then Some (nth (Z.to_nat (x - offset qb)) (chain_bytes out) 0) else contents qb' x)
    end) /\
  (forall target, offset qb <= target <= 2 ^ 62 ->
    let qb' := ngx_quic_skip_buffer qb target in
    wf qb' /\ offset qb' = target /\ forall x, contents qb' x = if x <? target then None else contents qb x).
Proof.
  intros Hg Hw. split; [|split].
  - intros l limit o H1 H2 H3. exact (write_spec alloc garbage qb l limit o Hg Hw H1 H2 H3).
  - intros limit Hl. pose proof (read_spec alloc qb limit Hw Hl) as H. destruct (ngx_quic_read_buffer alloc qb limit) as [[out qb']|]; [|exact H].
    destruct H as (H1 & H2 & H3 & _ & H4 & H5 & H6). cbn zeta. repeat (split; [assumption|]). intros x. unfold contents. rewrite H4, H2, val_joined, zlen_map.
    destruct (x <? offset qb) eqn:E1; [unfold val; rewrite E1; pose proof (zlen_nonneg (chain_bytes out)); replace (x <? offset qb + zlen (chain_bytes out)) with true by lia; reflexivity|].
    destruct (x <? offset qb + zlen (chain_bytes out)) eqn:E2; [|reflexivity]. rewrite val_some. replace ((offset qb <=? x) && (x <? offset qb + zlen (chain_bytes out))) with true by lia. reflexivity.
  - intros target Ht. destruct (skip_spec qb target Hw Ht) as (H1 & H2 & _ & H3). auto.
Qed.

(** Bytes 3 and 4 come first, then 0 to 3, of which the last one is there. *)
Definition sample_buffer : buffer :=
  mk_buffer 2 0 3 [mk_cell 0 true (repeat 0 3); mk_cell 1 false [14; 15]; mk_cell 2 true (repeat 0 4091)] (Some 1%nat) 3.

Lemma sample_wf : wf sample_buffer.
Proof.
  split.
  - split; cbn [sample_buffer chain map id]; [apply (bool_decide_unpack _); vm_compute; exact I|].
    repeat (apply Forall_cons; split; [split; cbn [id fresh sample_buffer bytes repeat]; [lia|discriminate]|]). apply Forall_nil_2.
  - cbn. lia.
  - vm_compute. discriminate.
  - vm_compute. split; discriminate.
  - exists [mk_cell 0 true (repeat 0 3)], (mk_cell 1 false [14; 15]), [mk_cell 2 true (repeat 0 4091)]. repeat split; reflexivity.
Qed.

Lemma buffer_refines_witness :
  let garbage := fun _ : nat => repeat 7 (Z.to_nat 4096) in
  match ngx_quic_write_buffer (fun _ => true) garbage empty_buffer [[14]; []; [15; 16]] 2 3 with
  | Some (Some (qb, l)) => size qb = 2 /\ l = [[16]] /\ contents qb 3 = Some 14 /\ contents qb 4 = Some 15 /\ contents qb 5 = None
  | _ => False
  end /\
  match ngx_quic_write_buffer (fun _ => true) garbage sample_buffer [[11; 12]; [13; 99]] 4 0 with
  | Some (Some (qb, l)) =>
      l = [] /\ size qb = 5 /\ wf qb /\ option_map (fun '(out, _) => chain_bytes out) (ngx_quic_read_buffer (fun _ => true) qb 10) = Some [11; 12; 13; 14; 15]
  | _ => False
  end.
Proof.
  intros garbage. split; [vm_compute; repeat split; reflexivity|].
  pose proof (proj1 (buffer_refines (fun _ => true) garbage sample_buffer (fun _ => eq_refl) sample_wf) [[11; 12]; [13; 99]] 4 0 ltac:(lia) ltac:(lia) ltac:(vm_compute; discriminate)) as H.
  destruct (ngx_quic_write_buffer (fun _ => true) garbage sample_buffer [[11; 12]; [13; 99]] 4 0) as [[[qb l]|]|] eqn:E; [|destruct H as [n H]; discriminate H|exact H].
  destruct H as [Hw _]. vm_compute in E. injection E as <- <-. split; [reflexivity|]. split; [reflexivity|]. split; [exact Hw|]. vm_compute. reflexivity.
Defined.

End QuicBuffer.
