(* ===== verification/NgxQuicStream.v ===== *)
(** * Streams of QUIC

    The two halves of a stream: the frames that are received, with flow
    control, the final size and the reads of the application, and what the
    application sends, cut into frames within the limits of the other side
    ([src/event/quic/ngx_event_quic_streams.c]); and CRYPTO frames
    ([ngx_event_quic_ssl.c]).  The buffers are those of NgxQuicBuffer.  The
    lookup and the creation of streams, the events that are posted and the
    closing of a stream are not modelled. *)

From Stdlib Require Import ZArith Lia ZifyBool.
From stdpp Require Import base decidable option tactics list.
From S2P Require Import Prelude NgxQuicTransport NgxQuicBuffer.
Import QuicTransport(u64, u64_small, frame, mk_frame, U_stream, U_max_stream_data, U_max_data, U_reset_stream, NGX_QUIC_FT_STREAM, NGX_QUIC_FT_MAX_STREAM_DATA,
  NGX_QUIC_FT_MAX_DATA, NGX_QUIC_FT_RESET_STREAM, U_stop_sending, NGX_QUIC_FT_STOP_SENDING).
Import QuicBuffer.

Local Open Scope Z_scope.

Module QuicStream.

Definition NGX_QUIC_ERR_FLOW_CONTROL_ERROR : Z := 0x03.
Definition NGX_QUIC_ERR_FINAL_SIZE_ERROR : Z := 0x06.
Definition NGX_QUIC_ERR_CRYPTO_BUFFER_EXCEEDED : Z := 0x0d.
Definition NGX_QUIC_MAX_BUFFERED : Z := 65535.

(** [(uint64_t) -1] *)
Definition UNSET : Z := 2 ^ 64 - 1.

Inductive send_state_e :=
  | NGX_QUIC_STREAM_SEND_READY | NGX_QUIC_STREAM_SEND_SEND | NGX_QUIC_STREAM_SEND_DATA_SENT
  | NGX_QUIC_STREAM_SEND_DATA_RECVD | NGX_QUIC_STREAM_SEND_RESET_SENT | NGX_QUIC_STREAM_SEND_RESET_RECVD.

Inductive recv_state_e :=
  | NGX_QUIC_STREAM_RECV_RECV | NGX_QUIC_STREAM_RECV_SIZE_KNOWN | NGX_QUIC_STREAM_RECV_DATA_RECVD
  | NGX_QUIC_STREAM_RECV_DATA_READ | NGX_QUIC_STREAM_RECV_RESET_RECVD | NGX_QUIC_STREAM_RECV_RESET_READ.

#[export] Instance send_state_eq_dec : EqDecision send_state_e.
Proof. solve_decision. Defined.
#[export] Instance recv_state_eq_dec : EqDecision recv_state_e.
Proof. solve_decision. Defined.

(** [ngx_quic_streams_t] and the frames that are queued. *)
Record streams := mk_streams {
  qc_recv_last : Z; qc_recv_max_data : Z; qc_recv_offset : Z; qc_recv_window : Z;
  qc_sent : Z; qc_send_offset : Z; qc_send_max_data : Z; queued : list frame
}.

Definition set_qc_recv_last (x : Z) (c : streams) : streams :=
  mk_streams x (qc_recv_max_data c) (qc_recv_offset c) (qc_recv_window c) (qc_sent c) (qc_send_offset c) (qc_send_max_data c) (queued c).
Definition set_qc_recv_max_data (x : Z) (c : streams) : streams :=
  mk_streams (qc_recv_last c) x (qc_recv_offset c) (qc_recv_window c) (qc_sent c) (qc_send_offset c) (qc_send_max_data c) (queued c).
Definition set_qc_recv_offset (x : Z) (c : streams) : streams :=
  mk_streams (qc_recv_last c) (qc_recv_max_data c) x (qc_recv_window c) (qc_sent c) (qc_send_offset c) (qc_send_max_data c) (queued c).
Definition set_qc_sent (x : Z) (c : streams) : streams :=
  mk_streams (qc_recv_last c) (qc_recv_max_data c) (qc_recv_offset c) (qc_recv_window c) x (qc_send_offset c) (qc_send_max_data c) (queued c).
Definition set_qc_send_offset (x : Z) (c : streams) : streams :=
  mk_streams (qc_recv_last c) (qc_recv_max_data c) (qc_recv_offset c) (qc_recv_window c) (qc_sent c) x (qc_send_max_data c) (queued c).
Definition set_qc_send_max_data (x : Z) (c : streams) : streams :=
  mk_streams (qc_recv_last c) (qc_recv_max_data c) (qc_recv_offset c) (qc_recv_window c) (qc_sent c) (qc_send_offset c) x (queued c).
Definition ngx_quic_queue_frame (f : frame) (c : streams) : streams :=
  mk_streams (qc_recv_last c) (qc_recv_max_data c) (qc_recv_offset c) (qc_recv_window c) (qc_sent c) (qc_send_offset c) (qc_send_max_data c) (queued c ++ [f]).

(** The fields of [ngx_quic_stream_t] for what is received. *)
Record receiver := mk_receiver {
  recv_state : recv_state_e; recv_max_data : Z; recv_offset : Z; recv_window : Z; recv_last : Z; recv_final_size : Z; recv : buffer
}.

Definition set_recv_state (x : recv_state_e) (r : receiver) : receiver :=
  mk_receiver x (recv_max_data r) (recv_offset r) (recv_window r) (recv_last r) (recv_final_size r) (recv r).
Definition set_recv_max_data (x : Z) (r : receiver) : receiver :=
  mk_receiver (recv_state r) x (recv_offset r) (recv_window r) (recv_last r) (recv_final_size r) (recv r).
Definition set_recv_offset (x : Z) (r : receiver) : receiver :=
  mk_receiver (recv_state r) (recv_max_data r) x (recv_window r) (recv_last r) (recv_final_size r) (recv r).
Definition set_recv_last (x : Z) (r : receiver) : receiver :=
  mk_receiver (recv_state r) (recv_max_data r) (recv_offset r) (recv_window r) x (recv_final_size r) (recv r).
Definition set_recv_final_size (x : Z) (r : receiver) : receiver :=
  mk_receiver (recv_state r) (recv_max_data r) (recv_offset r) (recv_window r) (recv_last r) x (recv r).
Definition set_recv (x : buffer) (r : receiver) : receiver :=
  mk_receiver (recv_state r) (recv_max_data r) (recv_offset r) (recv_window r) (recv_last r) (recv_final_size r) x.

(** The fields for what is sent; [conn_sent] is [c->sent]. *)
Record sender := mk_sender {
  send_state : send_state_e; sent : Z; conn_sent : Z; acked : Z; send_max_data : Z; send_offset : Z; send_final_size : Z; fin_acked : bool; send : buffer
}.

Definition set_send_state (x : send_state_e) (q : sender) : sender :=
  mk_sender x (sent q) (conn_sent q) (acked q) (send_max_data q) (send_offset q) (send_final_size q) (fin_acked q) (send q).
Definition add_sent (n : Z) (q : sender) : sender :=
  mk_sender (send_state q) (u64 (sent q + n)) (u64 (conn_sent q + n)) (acked q) (send_max_data q) (send_offset q) (send_final_size q) (fin_acked q) (send q).
Definition set_acked (x : Z) (fin : bool) (q : sender) : sender :=
  mk_sender (send_state q) (sent q) (conn_sent q) x (send_max_data q) (send_offset q) (send_final_size q) fin (send q).
Definition set_send_max_data (x : Z) (q : sender) : sender :=
  mk_sender (send_state q) (sent q) (conn_sent q) (acked q) x (send_offset q) (send_final_size q) (fin_acked q) (send q).
Definition set_send_offset (x : Z) (q : sender) : sender :=
  mk_sender (send_state q) (sent q) (conn_sent q) (acked q) (send_max_data q) x (send_final_size q) (fin_acked q) (send q).
Definition set_send_final_size (x : Z) (q : sender) : sender :=
  mk_sender (send_state q) (sent q) (conn_sent q) (acked q) (send_max_data q) (send_offset q) x (fin_acked q) (send q).
Definition set_send (x : buffer) (q : sender) : sender :=
  mk_sender (send_state q) (sent q) (conn_sent q) (acked q) (send_max_data q) (send_offset q) (send_final_size q) (fin_acked q) x.

Section Stream.
Variable alloc : nat -> bool.                 (* the memory for a link *)
Variable garbage : nat -> list Z.             (* what is in it *)
Variable alloc_frame : list frame -> bool.    (* the memory for a frame *)
Variable id : Z.                              (* qs->id *)

(** ** Flow control *)

(** [inr] is NGX_ERROR with [qc->error] when it is set. *)
Definition ngx_quic_control_flow (last : Z) (r : receiver) (c : streams) : (receiver * streams) + option Z :=
  if last <=? recv_last r then inl (r, c)
  else
    let len := u64 (last - recv_last r) in
    let r := set_recv_last (u64 (recv_last r + len)) r in
    if bool_decide (recv_state r = NGX_QUIC_STREAM_RECV_RECV) && (recv_last r >? recv_max_data r) then
      inr (Some NGX_QUIC_ERR_FLOW_CONTROL_ERROR)
    else
      let c := set_qc_recv_last (u64 (qc_recv_last c + len)) c in
      if qc_recv_last c >? qc_recv_max_data c then inr (Some NGX_QUIC_ERR_FLOW_CONTROL_ERROR) else inl (r, c).

(** [None] is NGX_ERROR. *)
Definition ngx_quic_update_max_stream_data (r : receiver) (c : streams) : option (receiver * streams) :=
  if negb (bool_decide (recv_state r = NGX_QUIC_STREAM_RECV_RECV)) then Some (r, c)
  else
    let max := u64 (recv_offset r + recv_window r) in
    if recv_max_data r =? max then Some (r, c)
    else
      let r := set_recv_max_data max r in
      if alloc_frame (queued c) then Some (r, ngx_quic_queue_frame (mk_frame NGX_QUIC_FT_MAX_STREAM_DATA (U_max_stream_data id max) []) c) else None.

Definition ngx_quic_update_max_data (c : streams) : option streams :=
  let max := u64 (qc_recv_offset c + qc_recv_window c) in
  if qc_recv_max_data c =? max then Some c
  else
    let c := set_qc_recv_max_data max c in
    if alloc_frame (queued c) then Some (ngx_quic_queue_frame (mk_frame NGX_QUIC_FT_MAX_DATA (U_max_data max) []) c) else None.

Definition ngx_quic_update_flow (last : Z) (r : receiver) (c : streams) : option (receiver * streams) :=
  if last <=? recv_offset r then Some (r, c)
  else
    let len := u64 (last - recv_offset r) in
    let r := set_recv_offset (u64 (recv_offset r + len)) r in
    match (if recv_max_data r <=? u64 (recv_offset r + recv_window r / 2) then ngx_quic_update_max_stream_data r c else Some (r, c)) with
    | None => None
    | Some (r, c) =>
        let c := set_qc_recv_offset (u64 (qc_recv_offset c + len)) c in
        if qc_recv_max_data c <=? u64 (qc_recv_offset c + qc_recv_window c / 2) then
          match ngx_quic_update_max_data c with None => None | Some c => Some (r, c) end
        else Some (r, c)
    end.

(** ** Receiving *)

(** From the state of the stream on, which was found; the last boolean says
    that the event for reading is set. *)
Definition ngx_quic_handle_stream_frame (offset length : Z) (fin : bool) (data : list (list Z)) (r : receiver) (c : streams)
    : (receiver * streams * bool) + option Z :=
  let last := u64 (offset + length) in
  if negb (bool_decide (recv_state r = NGX_QUIC_STREAM_RECV_RECV)) && negb (bool_decide (recv_state r = NGX_QUIC_STREAM_RECV_SIZE_KNOWN)) then
    inl (r, c, false)
  else
    match ngx_quic_control_flow last r c with
    | inr e => inr e
    | inl (r, c) =>
        if negb (recv_final_size r =? UNSET) && (last >? recv_final_size r) then inr (Some NGX_QUIC_ERR_FINAL_SIZE_ERROR)
        else if last <? recv_offset r then inl (r, c, false)
        else if fin && ((negb (recv_final_size r =? UNSET) && negb (recv_final_size r =? last)) || (recv_last r >? last)) then
          inr (Some NGX_QUIC_ERR_FINAL_SIZE_ERROR)
        else
          let r := if fin then set_recv_state NGX_QUIC_STREAM_RECV_SIZE_KNOWN (set_recv_final_size last r) else r in
          match ngx_quic_write_buffer alloc garbage (recv r) data length offset with
          | None | Some None => inr None
          | Some (Some (qb, _)) =>
              let r := set_recv qb r in
              let r :=
                if bool_decide (recv_state r = NGX_QUIC_STREAM_RECV_SIZE_KNOWN) && (size (recv r) =? recv_final_size r)
                then set_recv_state NGX_QUIC_STREAM_RECV_DATA_RECVD r else r in
              inl (r, c, offset <=? recv_offset r)
          end
    end.

(** What ngx_quic_stream_recv() returns: the length with the bytes in [buf],
    0 at the end of the stream, NGX_AGAIN or NGX_ERROR. *)
Inductive received := Bytes (buf : list Z) | Eof | Again | Error.

(** [None] is NGX_ERROR as well. *)
Definition ngx_quic_stream_recv (n : Z) (r : receiver) (c : streams) : option (receiver * streams * received) :=
  if bool_decide (recv_state r = NGX_QUIC_STREAM_RECV_RESET_RECVD) || bool_decide (recv_state r = NGX_QUIC_STREAM_RECV_RESET_READ) then
    Some (set_recv_state NGX_QUIC_STREAM_RECV_RESET_READ r, c, Error)
  else if n =? 0 then Some (r, c, Bytes [])
  else
    match ngx_quic_read_buffer alloc (recv r) n with
    | None => None
    | Some (out, qb) =>
        let r := set_recv qb r in
        let buf := chain_bytes out in
        let len := zlen buf in
        if len =? 0 then
          let r :=
            if bool_decide (recv_state r = NGX_QUIC_STREAM_RECV_DATA_RECVD) && (recv_offset r =? recv_final_size r)
            then set_recv_state NGX_QUIC_STREAM_RECV_DATA_READ r else r in
          if bool_decide (recv_state r = NGX_QUIC_STREAM_RECV_DATA_READ) then Some (r, c, Eof) else Some (r, c, Again)
        else
          match ngx_quic_update_flow (u64 (recv_offset r + len)) r c with
          | None => None
          | Some (r, c) => Some (r, c, Bytes buf)
          end
    end.

(** As for STREAM frames, the stream was found. *)
Definition ngx_quic_handle_reset_stream_frame (final_size : Z) (r : receiver) (c : streams) : (receiver * streams) + option Z :=
  if bool_decide (recv_state r = NGX_QUIC_STREAM_RECV_RESET_RECVD) || bool_decide (recv_state r = NGX_QUIC_STREAM_RECV_RESET_READ) then inl (r, c)
  else
    let r := set_recv_state NGX_QUIC_STREAM_RECV_RESET_RECVD r in
    match ngx_quic_control_flow final_size r c with
    | inr e => inr e
    | inl (r, c) =>
        if negb (recv_final_size r =? UNSET) && negb (recv_final_size r =? final_size) then inr (Some NGX_QUIC_ERR_FINAL_SIZE_ERROR)
        else if recv_last r >? final_size then inr (Some NGX_QUIC_ERR_FINAL_SIZE_ERROR)
        else
          let r := set_recv_final_size final_size r in
          match ngx_quic_update_flow (recv_final_size r) r c with None => inr None | Some x => inl x end
    end.

(** ** Sending *)

Variable initial_max_data : Z.       (* qc->ctp.initial_max_data *)
Variable stream_buffer_size : Z.     (* qc->conf->stream_buffer_size *)

(** [None] is NGX_ERROR; the closing of a stream without connection is left
    out. *)
Definition ngx_quic_stream_flush (q : sender) (c : streams) : option (sender * streams) :=
  if negb (bool_decide (send_state q = NGX_QUIC_STREAM_SEND_SEND)) then Some (q, c)
  else
    let c := if qc_send_max_data c =? 0 then set_qc_send_max_data initial_max_data c else c in
    let limit := Z.min (u64 (qc_send_max_data c - qc_send_offset c)) (u64 (send_max_data q - send_offset q)) in
    let len := offset (send q) in
    match ngx_quic_read_buffer alloc (send q) limit with
    | None => None
    | Some (out, qb) =>
        let q := set_send qb q in
        let len := u64 (offset (send q) - len) in
        let last := negb (send_final_size q =? UNSET) && (send_final_size q =? offset (send q)) in
        let q := if last then set_send_state NGX_QUIC_STREAM_SEND_DATA_SENT q else q in
        if (len =? 0) && negb last then Some (q, c)
        else if negb (alloc_frame (queued c)) then None
        else
          let c := ngx_quic_queue_frame (mk_frame NGX_QUIC_FT_STREAM (U_stream id (send_offset q) len true true last) (chain_bytes out)) c in
          Some (set_send_offset (u64 (send_offset q + len)) q, set_qc_send_offset (u64 (qc_send_offset c + len)) c)
    end.

(** What is left of [in]; [None] is NGX_CHAIN_ERROR. *)
Definition ngx_quic_stream_send_chain (l : list (list Z)) (limit : Z) (q : sender) (c : streams) : option (sender * streams * list (list Z)) :=
  if negb (bool_decide (send_state q = NGX_QUIC_STREAM_SEND_READY)) && negb (bool_decide (send_state q = NGX_QUIC_STREAM_SEND_SEND)) then None
  else
    let q := set_send_state NGX_QUIC_STREAM_SEND_SEND q in
    let flow := u64 (acked q + stream_buffer_size - sent q) in
    if flow =? 0 then Some (q, c, l)
    else
      let limit := if (limit =? 0) || (limit >? to_signed size8 flow) then flow else limit in
      let n := size (send q) in
      match ngx_quic_write_buffer alloc garbage (send q) l limit (sent q) with
      | None | Some None => None
      | Some (Some (qb, l)) =>
          let q := set_send qb q in
          let n := u64 (size (send q) - n) in
          let q := add_sent n q in
          let c := set_qc_sent (u64 (qc_sent c + n)) c in
          match ngx_quic_stream_flush q c with None => None | Some (q, c) => Some (q, c, l) end
      end.

(** With the value that is returned; [b.pos == buf] when nothing was taken. *)
Definition ngx_quic_stream_send (buf : list Z) (q : sender) (c : streams) : option (sender * streams * Z) :=
  match ngx_quic_stream_send_chain [buf] 0 q c with
  | None => None
  | Some (q, c, l) =>
      let n := zlen buf - zlen (concat l) in
      Some (q, c, if n =? 0 then NGX_AGAIN else n)
  end.

Definition ngx_quic_shutdown_stream_send (q : sender) (c : streams) : option (sender * streams) :=
  if negb (bool_decide (send_state q = NGX_QUIC_STREAM_SEND_READY)) && negb (bool_decide (send_state q = NGX_QUIC_STREAM_SEND_SEND)) then Some (q, c)
  else
    let q := set_send_state NGX_QUIC_STREAM_SEND_SEND q in
    let q := set_send_final_size (conn_sent q) q in
    ngx_quic_stream_flush q c.

(** From the limits of the stream on, which was found. *)
Definition ngx_quic_handle_max_stream_data_frame (limit : Z) (q : sender) (c : streams) : option (sender * streams) :=
  if limit <=? send_max_data q then Some (q, c)
  else if send_offset q <? send_max_data q then Some (set_send_max_data limit q, c)
  else ngx_quic_stream_flush (set_send_max_data limit q) c.

Definition ngx_quic_do_reset_stream (err : Z) (q : sender) (c : streams) : option (sender * streams) :=
  if bool_decide (send_state q = NGX_QUIC_STREAM_SEND_DATA_RECVD) || bool_decide (send_state q = NGX_QUIC_STREAM_SEND_RESET_SENT)
     || bool_decide (send_state q = NGX_QUIC_STREAM_SEND_RESET_RECVD)
  then Some (q, c)
  else
    let q := set_send_state NGX_QUIC_STREAM_SEND_RESET_SENT q in
    let q := set_send_final_size (send_offset q) q in
    if negb (alloc_frame (queued c)) then None
    else
      let c := ngx_quic_queue_frame (mk_frame NGX_QUIC_FT_RESET_STREAM (U_reset_stream id err (send_offset q)) []) c in
      let b := send q in
      Some (set_send (mk_buffer (size b) (offset b) (last_offset b) [] (last_chain b) (fresh b)) q, c).

(** [stream_close_code] is that of the configuration. *)
Definition ngx_quic_shutdown_stream_recv (stream_close_code : Z) (r : receiver) (c : streams) : option streams :=
  if negb (bool_decide (recv_state r = NGX_QUIC_STREAM_RECV_RECV)) && negb (bool_decide (recv_state r = NGX_QUIC_STREAM_RECV_SIZE_KNOWN)) then Some c
  else if stream_close_code =? 0 then Some c
  else if negb (alloc_frame (queued c)) then None
  else Some (ngx_quic_queue_frame (mk_frame NGX_QUIC_FT_STOP_SENDING (U_stop_sending id stream_close_code) []) c).

(** The case of STREAM frames, with their length and flag. *)
Definition ngx_quic_handle_stream_ack (length : Z) (fin : bool) (q : sender) : sender :=
  let q := set_acked (u64 (acked q + length)) (fin_acked q || fin) q in
  if bool_decide (send_state q = NGX_QUIC_STREAM_SEND_DATA_SENT) && (acked q =? sent q) && fin_acked q
  then set_send_state NGX_QUIC_STREAM_SEND_DATA_RECVD q else q.

End Stream.

(** ** CRYPTO frames *)

Section Crypto.
Variable alloc : nat -> bool.
Variable garbage : nat -> list Z.
Variable tls : Type.
Variable ngx_quic_crypto_input : tls -> list (list Z) -> option tls.    (* the TLS library *)

(** [qb] is [ctx->crypto]; the frames that are sent again when the data is old
    are left out. *)
Definition ngx_quic_handle_crypto_frame (off length : Z) (data : list (list Z)) (qb : buffer) (t : tls) : (buffer * tls) + option Z :=
  let last := u64 (off + length) in
  if last >? u64 (offset qb + NGX_QUIC_MAX_BUFFERED) then inr (Some NGX_QUIC_ERR_CRYPTO_BUFFER_EXCEEDED)
  else if last <=? offset qb then inl (qb, t)
  else
    let written :=
      if off =? offset qb then
        match ngx_quic_crypto_input t data with None => None | Some t => Some (ngx_quic_skip_buffer qb last, t) end
      else
        match ngx_quic_write_buffer alloc garbage qb data length off with
        | Some (Some (qb, _)) => Some (qb, t)
        | _ => None
        end in
    match written with
    | None => inr None
    | Some (qb, t) =>
        match ngx_quic_read_buffer alloc qb (2 ^ 64 - 1) with
        | None => inr None
        | Some ([], qb) => inl (qb, t)
        | Some (out, qb) => match ngx_quic_crypto_input t (map bytes out) with None => inr None | Some t => inl (qb, t) end
        end
    end.

End Crypto.

(** ** A byte stream and its segments *)

(** A STREAM frame: its offset, the buffers of its data and its last flag. *)
Record segment := mk_segment { seg_off : Z; seg_data : list (list Z); seg_fin : bool }.

Definition seg_len (f : segment) : Z := zlen (concat (seg_data f)).

(** A segment of the bytes [s]; the last flag is only on one that ends them. *)
Definition honest (s : list Z) (f : segment) : Prop :=
  0 <= seg_off f /\ seg_off f + seg_len f <= zlen s /\ concat (seg_data f) = ztake (seg_len f) (zdrop (seg_off f) s) /\
  (seg_fin f = true -> seg_off f + seg_len f = zlen s).

Definition covered (fs : list segment) (x : Z) : bool := existsb (fun f => (seg_off f <=? x) && (x <? seg_off f + seg_len f)) fs.
Definition fin_seen (fs : list segment) : bool := existsb seg_fin fs.

(** The bytes that came and were not read. *)
Definition pending (s : list Z) (fs : list segment) (o x : Z) : option Z :=
  if (o <=? x) && covered fs x then Some (nth (Z.to_nat x) s 0) else None.

Lemma nth_part (s : list Z) o n x : 0 <= o -> o <= x < o + n -> o + n <= zlen s ->
  nth (Z.to_nat (x - o)) (ztake n (zdrop o s)) 0 = nth (Z.to_nat x) s 0.
Proof.
  intros Ho Hx Hn. unfold ztake, zdrop. rewrite nth_firstn. replace (Nat.ltb (Z.to_nat (x - o)) (Z.to_nat n)) with true by (symmetry; apply Nat.ltb_lt; lia).
  rewrite nth_skipn. f_equal. lia.
Qed.

Lemma put_honest s fs f o g x : honest s f -> (forall y, g y = pending s fs o y) ->
  put o g (seg_off f) (concat (seg_data f)) x = pending s (f :: fs) o x.
Proof.
  intros (H1 & H2 & H3 & _) Hg. unfold put, pending. rewrite Hg. unfold pending. cbn [covered existsb]. fold (covered fs x). fold (seg_len f).
  destruct (o <=? x) eqn:Eo; [cbn [andb]|reflexivity]. destruct (covered fs x) eqn:Ec; [rewrite orb_true_r; reflexivity|]. rewrite orb_false_r.
  destruct ((seg_off f <=? x) && (x <? seg_off f + seg_len f)) eqn:Ex; [|reflexivity]. rewrite H3. f_equal. apply nth_part; lia.
Qed.

Lemma covered_more f fs n : (forall x, 0 <= x < n -> covered fs x = true) -> forall x, 0 <= x < n -> covered (f :: fs) x = true.
Proof. intros H x Hx. cbn [covered existsb]. fold (covered fs x). rewrite H by exact Hx. apply orb_true_r. Qed.

Lemma covered_below s fs x : Forall (honest s) fs -> covered fs x = true -> 0 <= x < zlen s.
Proof.
  intros H. induction H as [|f fs (H1 & H2 & _ & _) _ IH]; [discriminate|]. cbn [covered existsb]. fold (covered fs x).
  destruct (covered fs x); [intros _; apply IH; reflexivity|]. rewrite orb_false_r. lia.
Qed.

(** ** The number of bytes that are there *)

Lemma nth_none k : nth k (@nil (option Z)) None = None.
Proof. destruct k; reflexivity. Qed.

Lemma count_cons x f : count (x :: f) = (match x with Some _ => 1 | None => 0 end) + count f.
Proof. change (x :: f) with ([x] ++ f). rewrite count_app. destruct x; reflexivity. Qed.

Lemma count_bound f : forall n, (forall k, (n <= k)%nat -> nth k f None = None) -> count f <= Z.of_nat n.
Proof.
  induction f as [|x f IH]; intros n H; [change (count []) with 0; lia|]. rewrite count_cons. destruct n as [|n].
  - pose proof (H 0%nat ltac:(lia)) as H0. cbn in H0. subst x. specialize (IH 0%nat (fun k _ => H (S k) ltac:(lia))). lia.
  - specialize (IH n (fun k Hk => H (S k) ltac:(lia))). destruct x; lia.
Qed.

Lemma count_full f : forall n, (forall k, (n <= k)%nat -> nth k f None = None) -> count f = Z.of_nat n -> forall k, (k < n)%nat -> nth k f None <> None.
Proof.
  induction f as [|x f IH]; intros n H Hc k Hk; [change (count []) with 0 in Hc; lia|]. rewrite count_cons in Hc. destruct n as [|n]; [lia|].
  assert (forall k, (n <= k)%nat -> nth k f None = None) as H' by (intros j Hj; apply (H (S j)); lia). pose proof (count_bound f n H') as Hb.
  destruct x as [v|]; [|lia]. destruct k as [|k]; [discriminate|]. apply (IH n H'); lia.
Qed.

(** ** A stream that is received *)

(** The state after the frames [fs] of the bytes [s]. *)
Record delivers (s : list Z) (fs : list segment) (r : receiver) : Prop := {
  d_wf : wf (recv r);
  d_offset : offset (recv r) = recv_offset r;
  d_contents : forall x, contents (recv r) x = pending s fs (recv_offset r) x;
  d_size : size (recv r) = recv_offset r + count (flat (chain (recv r)));
  d_state : match recv_state r with
            | NGX_QUIC_STREAM_RECV_RECV => fin_seen fs = false /\ recv_final_size r = UNSET
            | NGX_QUIC_STREAM_RECV_SIZE_KNOWN => fin_seen fs = true /\ recv_final_size r = zlen s /\ size (recv r) <> zlen s
            | NGX_QUIC_STREAM_RECV_DATA_RECVD | NGX_QUIC_STREAM_RECV_DATA_READ => fin_seen fs = true /\ recv_final_size r = zlen s /\ size (recv r) = zlen s
            | _ => False
            end;
  d_eof : recv_state r = NGX_QUIC_STREAM_RECV_DATA_READ -> recv_offset r = zlen s;
  d_read : recv_offset r <= zlen s;
  d_last : 0 <= recv_last r <= zlen s;
  d_got : forall x, 0 <= x < recv_offset r -> covered fs x = true
}.

(** The other side has credit for the whole stream: [total] is what the
    connection will have received then, [windows] what its window begins at. *)
Record credit (s : list Z) (total : Z) (r : receiver) (c : streams) : Prop := {
  k_stream : zlen s <= recv_max_data r /\ zlen s <= recv_window r <= 2 ^ 62;
  k_total : qc_recv_last c + (zlen s - recv_last r) = total /\ 0 <= qc_recv_last c;
  k_max : total <= qc_recv_max_data c /\ total <= qc_recv_offset c + qc_recv_window c /\ total <= 2 ^ 62;
  k_window : 0 <= qc_recv_offset c /\ qc_recv_offset c + (zlen s - recv_offset r) <= 2 ^ 62 /\ 0 <= qc_recv_window c <= 2 ^ 62
}.

Lemma contents_nth qb k : contents qb (offset qb + Z.of_nat k) = nth k (flat (chain qb)) None.
Proof. unfold contents, val. replace (offset qb + Z.of_nat k <? offset qb) with false by lia. f_equal. lia. Qed.

(** The size is at most that of the stream, and all has come when it is. *)
Lemma size_spec s fs qb : Forall (honest s) fs -> (forall x, contents qb x = pending s fs (offset qb) x) -> 0 <= offset qb <= zlen s ->
  count (flat (chain qb)) <= zlen s - offset qb /\
  (count (flat (chain qb)) = zlen s - offset qb -> forall x, offset qb <= x < zlen s -> covered fs x = true).
Proof.
  intros Hf Hc Ho. assert (forall k, (Z.to_nat (zlen s - offset qb) <= k)%nat -> nth k (flat (chain qb)) None = None) as Hn.
  { intros k Hk. rewrite <-contents_nth, Hc. unfold pending. destruct (covered fs (offset qb + Z.of_nat k)) eqn:E; [|rewrite andb_false_r; reflexivity].
    apply (covered_below s) in E; [lia|exact Hf]. }
  split; [pose proof (count_bound _ _ Hn); lia|]. intros Hs x Hx. pose proof (count_full _ _ Hn ltac:(lia) (Z.to_nat (x - offset qb)) ltac:(lia)) as H.
  rewrite <-contents_nth, Hc in H. replace (offset qb + Z.of_nat (Z.to_nat (x - offset qb))) with x in H by lia. unfold pending in H.
  destruct (covered fs x); [reflexivity|]. rewrite andb_false_r in H. contradiction.
Qed.

(** What is read of the bytes that came. *)
Lemma read_pending alloc s fs qb n : Forall (honest s) fs -> wf qb -> (forall x, contents qb x = pending s fs (offset qb) x) -> offset qb <= zlen s -> 0 <= n ->
  match ngx_quic_read_buffer alloc qb n with
  | None => exists k, alloc k = false
  | Some (out, qb') =>
      let b := chain_bytes out in
      wf qb' /\ offset qb' = offset qb + zlen b /\ zlen b <= n /\ size qb' = size qb /\ flat (chain qb) = (Some <$> b) ++ flat (chain qb') /\
      (forall x, contents qb' x = pending s fs (offset qb') x) /\ offset qb + zlen b <= zlen s /\
      b = ztake (zlen b) (zdrop (offset qb) s) /\ (forall x, offset qb <= x < offset qb' -> covered fs x = true) /\
      (zlen b = n \/ covered fs (offset qb') = false)
  end.
Proof.
  intros Hfs D1 D3 Ho Hn. pose proof (wf_low _ D1) as Hlow. pose proof (read_spec alloc qb n D1 Hn) as H.
  destruct (ngx_quic_read_buffer alloc qb n) as [[out qb']|]; [|exact H].
  destruct H as (R1 & R2 & R3 & R4 & R5 & R6 & R7). set (b := chain_bytes out) in *. pose proof (zlen_nonneg b) as Hb. cbn zeta.
  assert (forall x, contents qb' x = pending s fs (offset qb') x) as Hc.
  { intros x. rewrite R6, D3. unfold pending. destruct (x <? offset qb') eqn:E.
    - replace (offset qb' <=? x) with false by lia. reflexivity.
    - replace (offset qb' <=? x) with true by lia. replace (offset qb <=? x) with true by lia. reflexivity. }
  assert (forall k, (k < length b)%nat -> covered fs (offset qb + Z.of_nat k) = true /\ nth k b 0 = nth (Z.to_nat (offset qb + Z.of_nat k)) s 0) as Hbyte.
  { intros k Hk'. assert (contents qb (offset qb + Z.of_nat k) = Some (nth k b 0)) as E.
    { rewrite contents_nth, R5, app_nth1 by (rewrite length_fmap; lia). rewrite (nth_indep _ None (Some 0)) by (rewrite length_fmap; lia). apply map_nth. }
    rewrite D3 in E. unfold pending in E. destruct (covered fs _); [|rewrite andb_false_r in E; discriminate E].
    replace (offset qb <=? offset qb + Z.of_nat k) with true in E by lia. injection E as E. split; [reflexivity|congruence]. }
  assert (forall x, offset qb <= x < offset qb' -> covered fs x = true) as Hcov.
  { intros x Hx. replace x with (offset qb + Z.of_nat (Z.to_nat (x - offset qb))) by lia. apply Hbyte. unfold zlen in *. lia. }
  assert (offset qb + zlen b <= zlen s) as Hle.
  { destruct (Z.eq_dec (zlen b) 0) as [->|Hne]; [lia|]. pose proof (covered_below s fs _ Hfs (Hcov (offset qb' - 1) ltac:(lia))). lia. }
  split; [exact R1|]. split; [exact R2|]. split; [exact R3|]. split; [exact R4|]. split; [exact R5|]. split; [exact Hc|]. split; [exact Hle|]. split; [|split; [exact Hcov|]].
  - apply (nth_ext _ _ 0 0).
    + assert (zlen (ztake (zlen b) (zdrop (offset qb) s)) = zlen b) as E by (apply zlen_ztake; rewrite zlen_zdrop; lia). unfold zlen in E at 1 3. lia.
    + intros k Hk'. rewrite (proj2 (Hbyte k Hk')). symmetry. rewrite <-(nth_part s (offset qb) (zlen b)) by (unfold zlen in *; lia). f_equal. lia.
  - destruct R7 as [R7|R7]; [left; exact R7|right]. rewrite Hc in R7. unfold pending in R7. destruct (covered fs _); [|reflexivity].
    rewrite Z.leb_refl in R7. discriminate R7.
Qed.

(** With a limit of all the bytes, all are written. *)
Lemma written_all d (w : list Z) l : concat d = w ++ concat l -> zlen w = amount (zlen (concat d)) d -> w = concat d.
Proof. intros H1 H2. unfold amount in H2. rewrite Z.min_id, H1, zlen_app in H2. rewrite H1, (zlen_nil (concat l)) by lia. symmetry. apply app_nil_r. Qed.

Section Receiving.
Variable alloc : nat -> bool.
Variable garbage : nat -> list Z.
Variable alloc_frame : list frame -> bool.
Variable id : Z.
Hypothesis memory : forall n, alloc n = true.
Hypothesis garbage_len : forall n, zlen (garbage n) = NGX_QUIC_BUFFER_SIZE.
Hypothesis frames_memory : forall l, alloc_frame l = true.

Lemma control_flow_ok s total last r c : credit s total r c -> 0 <= recv_last r <= zlen s -> 0 <= last <= zlen s ->
  exists c', ngx_quic_control_flow last r c = inl (set_recv_last (Z.max last (recv_last r)) r, c') /\
    credit s total (set_recv_last (Z.max last (recv_last r)) r) c' /\ queued c' = queued c.
Proof.
  intros [K1 [K2 K2'] K3 K4] Hl Hlast. unfold ngx_quic_control_flow. destruct (last <=? recv_last r) eqn:E.
  - exists c. replace (Z.max last (recv_last r)) with (recv_last r) by lia.
    replace (set_recv_last (recv_last r) r) with r by (destruct r; reflexivity). split; [reflexivity|]. split; [split; auto|reflexivity].
  - cbn zeta. rewrite (u64_small (last - recv_last r)) by lia. replace (recv_last r + (last - recv_last r)) with last by lia. rewrite (u64_small last) by lia.
    replace (Z.max last (recv_last r)) with last by lia. cbn [recv_last set_recv_last recv_max_data].
    replace (last >? recv_max_data r) with false by lia. rewrite andb_false_r. rewrite u64_small by lia.
    cbn [qc_recv_last set_qc_recv_last qc_recv_max_data]. replace (_ >? qc_recv_max_data c) with false by lia.
    eexists. split; [reflexivity|]. split; [|reflexivity]. split; cbn [recv_max_data recv_window recv_last recv_offset set_recv_last qc_recv_last qc_recv_max_data qc_recv_offset qc_recv_window set_qc_recv_last]; lia.
Qed.

Lemma frame_delivers s fs total r c f : zlen s <= 2 ^ 62 -> Forall (honest s) fs -> honest s f -> delivers s fs r -> credit s total r c ->
  exists r' c' ev, ngx_quic_handle_stream_frame alloc garbage (seg_off f) (seg_len f) (seg_fin f) (seg_data f) r c = inl (r', c', ev) /\
    delivers s (f :: fs) r' /\ credit s total r' c' /\ recv_offset r' = recv_offset r.
Proof.
  intros HL Hfs Hf Hd Hk. pose proof Hf as (F1 & F2 & F3 & F4). pose proof Hd as [D1 D2 D3 D4 D5 D6 D7 D8 D9]. pose proof (wf_low _ D1) as Hlow. pose proof (zlen_nonneg (concat (seg_data f))) as Hlen. fold (seg_len f) in Hlen.
  unfold ngx_quic_handle_stream_frame. rewrite u64_small by lia. cbn zeta.
  destruct (size_spec s fs (recv r) Hfs ltac:(intros x; rewrite D2; apply D3) ltac:(lia)) as [Hcnt Hfull].
  (* every byte has come *)
  assert (recv_state r <> NGX_QUIC_STREAM_RECV_RECV -> recv_state r <> NGX_QUIC_STREAM_RECV_SIZE_KNOWN -> delivers s (f :: fs) r) as Hdone.
  { intros H1 H2. assert (fin_seen fs = true /\ recv_final_size r = zlen s /\ size (recv r) = zlen s) as (G1 & G2 & G3) by (destruct (recv_state r); try contradiction; exact D5).
    split; try assumption.
    - intros x. rewrite D3. unfold pending. cbn [covered existsb]. fold (covered fs x). destruct (recv_offset r <=? x) eqn:E; [cbn [andb]|reflexivity].
      destruct ((seg_off f <=? x) && (x <? seg_off f + seg_len f)) eqn:E2; [|reflexivity]. rewrite Hfull by lia. reflexivity.
    - destruct (recv_state r); try contradiction; cbn [fin_seen existsb]; fold (fin_seen fs); rewrite G1, orb_true_r; auto.
    - apply covered_more, D9. }
  destruct (negb (bool_decide (recv_state r = NGX_QUIC_STREAM_RECV_RECV)) && negb (bool_decide (recv_state r = NGX_QUIC_STREAM_RECV_SIZE_KNOWN))) eqn:Est.
  { exists r, c, false. split; [reflexivity|]. split; [|split; [exact Hk|reflexivity]]. apply Hdone; intros Hx; rewrite Hx in Est; rewrite ?bool_decide_eq_true_2, ?andb_false_r in Est by reflexivity; discriminate Est. }
  assert (recv_state r = NGX_QUIC_STREAM_RECV_RECV \/ recv_state r = NGX_QUIC_STREAM_RECV_SIZE_KNOWN) as Hst.
  { destruct (recv_state r); rewrite ?bool_decide_eq_false_2 in Est by discriminate; try discriminate Est; auto. }
  clear Hdone Est. destruct (control_flow_ok s total (seg_off f + seg_len f) r c Hk ltac:(lia) ltac:(lia)) as (c1 & -> & Hk1 & _).
  set (r1 := set_recv_last (Z.max (seg_off f + seg_len f) (recv_last r)) r) in *.
  assert (recv_final_size r = UNSET \/ recv_final_size r = zlen s) as Hfin by (destruct Hst as [Hst|Hst]; rewrite Hst in D5; tauto).
  change (recv_final_size r1) with (recv_final_size r). change (recv_offset r1) with (recv_offset r).
  replace (negb (recv_final_size r =? UNSET) && (seg_off f + seg_len f >? recv_final_size r)) with false by (unfold UNSET in *; lia).
  destruct (seg_off f + seg_len f <? recv_offset r) eqn:Eold.
  { exists r1, c1, false. split; [reflexivity|]. split; [|split; [exact Hk1|reflexivity]]. assert (seg_fin f = false) as Ef by (destruct (seg_fin f); [specialize (F4 eq_refl); lia|reflexivity]).
    split; try assumption; cbn [r1 set_recv_last recv_last recv recv_offset recv_state recv_final_size].
    - intros x. rewrite D3. unfold pending. cbn [covered existsb]. fold (covered fs x). destruct (recv_offset r <=? x) eqn:E; [cbn [andb]|reflexivity].
      replace ((seg_off f <=? x) && (x <? seg_off f + seg_len f)) with false by lia. reflexivity.
    - cbn [fin_seen existsb]. rewrite Ef. exact D5.
    - lia.
    - apply covered_more, D9. }
  replace (seg_fin f && _) with false.
  2:{ destruct (seg_fin f); [|reflexivity]. specialize (F4 eq_refl). cbn [andb r1 set_recv_last recv_last]. unfold UNSET in *. lia. }
  set (r2 := if seg_fin f then _ else r1). change (recv r2) with (recv (if seg_fin f then set_recv_state NGX_QUIC_STREAM_RECV_SIZE_KNOWN (set_recv_final_size (seg_off f + seg_len f) r1) else r1)).
  assert (recv r2 = recv r) as Er2 by (unfold r2; destruct (seg_fin f); reflexivity). fold r2. rewrite Er2.
  pose proof (write_spec alloc garbage (recv r) (seg_data f) (seg_len f) (seg_off f) garbage_len D1 Hlen F1 ltac:(fold (seg_len f); lia)) as Hw.
  destruct (ngx_quic_write_buffer alloc garbage (recv r) (seg_data f) (seg_len f) (seg_off f)) as [[[qb l]|]|]; [|destruct Hw as [n Hw]; rewrite memory in Hw; discriminate Hw|destruct Hw].
  destruct Hw as (W1 & W2 & w & W3 & W4 & W5 & W6).
  rewrite (written_all _ _ _ W3 W4) in W5.
  assert (forall x, contents qb x = pending s (f :: fs) (recv_offset r) x) as Hc.
  { intros x. rewrite W5, D2. apply (put_honest s fs); assumption. }
  assert (Forall (honest s) (f :: fs)) as Hfs' by (constructor; assumption).
  destruct (size_spec s (f :: fs) qb Hfs' ltac:(intros x; rewrite W2, D2; apply Hc) ltac:(lia)) as [Hcnt' _].
  assert (recv_offset r2 = recv_offset r /\ recv_last r2 = recv_last r1) as [Eo El] by (unfold r2; destruct (seg_fin f); split; reflexivity).
  assert (credit s total r2 c1) as Hk2 by (unfold r2; destruct (seg_fin f); [destruct Hk1; split; assumption|exact Hk1]).
  assert ((recv_state r2 = NGX_QUIC_STREAM_RECV_SIZE_KNOWN /\ fin_seen (f :: fs) = true /\ recv_final_size r2 = zlen s) \/
    (recv_state r2 = NGX_QUIC_STREAM_RECV_RECV /\ fin_seen (f :: fs) = false /\ recv_final_size r2 = UNSET)) as Hs2.
  { unfold r2. cbn [fin_seen existsb]. fold (fin_seen fs). destruct (seg_fin f) eqn:Ef.
    - left. split; [reflexivity|]. split; [reflexivity|]. cbn. apply F4. reflexivity.
    - cbn [orb]. destruct Hst as [Hst|Hst]; rewrite Hst in D5; [right|left]; (split; [exact Hst|]); tauto. }
  clearbody r2. change (size (recv (set_recv qb r2))) with (size qb). change (recv_final_size (set_recv qb r2)) with (recv_final_size r2).
  change (recv_state (set_recv qb r2)) with (recv_state r2).
  assert (forall st, (st <> NGX_QUIC_STREAM_RECV_DATA_READ) ->
    match st with
    | NGX_QUIC_STREAM_RECV_RECV => fin_seen (f :: fs) = false /\ recv_final_size r2 = UNSET
    | NGX_QUIC_STREAM_RECV_SIZE_KNOWN => fin_seen (f :: fs) = true /\ recv_final_size r2 = zlen s /\ size qb <> zlen s
    | NGX_QUIC_STREAM_RECV_DATA_RECVD | NGX_QUIC_STREAM_RECV_DATA_READ => fin_seen (f :: fs) = true /\ recv_final_size r2 = zlen s /\ size qb = zlen s
    | _ => False
    end -> delivers s (f :: fs) (set_recv_state st (set_recv qb r2))) as Hfinal.
  { intros st Hne Hstate. split; cbn [set_recv_state set_recv recv recv_offset recv_last recv_state recv_final_size]; rewrite ?Eo, ?El; try assumption.
    - lia.
    - lia.
    - contradiction.
    - unfold r1. cbn [set_recv_last recv_last]. lia.
    - apply covered_more, D9. }
  destruct (bool_decide (recv_state r2 = NGX_QUIC_STREAM_RECV_SIZE_KNOWN) && (size qb =? recv_final_size r2)) eqn:Eb.
  - do 3 eexists. split; [reflexivity|]. split; [|split; [destruct Hk2; split; assumption|exact Eo]]. apply Hfinal; [discriminate|].
    destruct Hs2 as [(H1 & H2 & H3)|(H1 & _)]; [split; [exact H2|split; [exact H3|lia]]|]. rewrite H1, bool_decide_eq_false_2 in Eb by discriminate. discriminate Eb.
  - do 3 eexists. split; [reflexivity|]. split; [|split; [destruct Hk2; split; assumption|exact Eo]].
    destruct Hs2 as [(H1 & H2 & H3)|(H1 & H2 & H3)].
    + specialize (Hfinal NGX_QUIC_STREAM_RECV_SIZE_KNOWN). rewrite <-H1 in Hfinal. replace (set_recv_state (recv_state r2) (set_recv qb r2)) with (set_recv qb r2) in Hfinal by (destruct r2; reflexivity).
      apply Hfinal; [rewrite H1; discriminate|]. rewrite H1 in Eb |- *. rewrite bool_decide_eq_true_2 in Eb by reflexivity. cbn [andb] in Eb. split; [exact H2|]. split; [exact H3|]. lia.
    + specialize (Hfinal NGX_QUIC_STREAM_RECV_RECV). rewrite <-H1 in Hfinal. replace (set_recv_state (recv_state r2) (set_recv qb r2)) with (set_recv qb r2) in Hfinal by (destruct r2; reflexivity).
      apply Hfinal; [rewrite H1; discriminate|]. rewrite H1. split; assumption.
Qed.

(** The window moves on; the limit of the stream may move with it. *)
Definition moved (n : Z) (r r' : receiver) : Prop :=
  recv_state r' = recv_state r /\ recv_offset r' = recv_offset r + n /\ recv_window r' = recv_window r /\ recv_last r' = recv_last r /\
  recv_final_size r' = recv_final_size r /\ recv r' = recv r.

Lemma update_flow_ok s total n r c : credit s total r c -> 0 < n -> 0 <= recv_offset r -> recv_offset r + n <= zlen s -> zlen s <= 2 ^ 62 ->
  exists r' c', ngx_quic_update_flow alloc_frame id (u64 (recv_offset r + n)) r c = Some (r', c') /\ moved n r r' /\ credit s total r' c'.
Proof.
  intros [K1 [K2 K2'] K3 K4] Hn Ho Hle HL. unfold ngx_quic_update_flow. rewrite (u64_small (recv_offset r + n)) by lia.
  replace (recv_offset r + n <=? recv_offset r) with false by lia. cbn zeta. replace (recv_offset r + n - recv_offset r) with n by lia. rewrite (u64_small n) by lia.
  rewrite (u64_small (recv_offset r + n)) by lia. set (r1 := set_recv_offset (recv_offset r + n) r).
  assert (exists r2 c2, (if recv_max_data r1 <=? u64 (recv_offset r1 + recv_window r1 / 2) then ngx_quic_update_max_stream_data alloc_frame id r1 c else Some (r1, c)) = Some (r2, c2) /\
    moved n r r2 /\ zlen s <= recv_max_data r2 /\ qc_recv_last c2 = qc_recv_last c /\ qc_recv_max_data c2 = qc_recv_max_data c /\
    qc_recv_offset c2 = qc_recv_offset c /\ qc_recv_window c2 = qc_recv_window c) as (r2 & c2 & -> & Hm & H1 & H2 & H3 & H4 & H5).
  { assert (moved n r r1) as Hm1 by (repeat split).
    assert (exists r2 c2, Some (r1, c) = Some (r2, c2) /\ moved n r r2 /\ zlen s <= recv_max_data r2 /\ qc_recv_last c2 = qc_recv_last c /\ qc_recv_max_data c2 = qc_recv_max_data c /\
      qc_recv_offset c2 = qc_recv_offset c /\ qc_recv_window c2 = qc_recv_window c) as Hsame.
    { exists r1, c. split; [reflexivity|]. split; [exact Hm1|]. split; [cbn; lia|]. auto. }
    destruct (_ <=? _); [|exact Hsame]. unfold ngx_quic_update_max_stream_data. destruct (negb _); [exact Hsame|].
    destruct (recv_max_data r1 =? _); [exact Hsame|]. rewrite frames_memory. do 2 eexists. split; [reflexivity|]. split; [exact Hm1|]. split; [|auto].
    cbn [set_recv_max_data recv_max_data r1 set_recv_offset recv_offset recv_window]. rewrite u64_small by lia. lia. }
  destruct Hm as (M1 & M2 & M3 & M4 & M5 & M6). cbn [qc_recv_offset set_qc_recv_offset qc_recv_max_data qc_recv_window]. rewrite H3, H4, H5.
  rewrite (u64_small (qc_recv_offset c + n)) by lia.
  assert (moved n r r2) as Hm by (repeat split; assumption).
  destruct (qc_recv_max_data c <=? u64 (qc_recv_offset c + n + qc_recv_window c / 2)).
  - unfold ngx_quic_update_max_data. cbn [qc_recv_offset set_qc_recv_offset qc_recv_max_data qc_recv_window queued]. rewrite H3, H5.
    rewrite (u64_small (qc_recv_offset c + n + qc_recv_window c)) by lia. destruct (qc_recv_max_data c =? _).
    + do 2 eexists. split; [reflexivity|]. split; [exact Hm|]. split; cbn [qc_recv_last qc_recv_max_data qc_recv_offset qc_recv_window set_qc_recv_offset]; rewrite ?M2, ?M3, ?M4, ?H2, ?H3, ?H5; lia.
    + rewrite frames_memory. do 2 eexists. split; [reflexivity|]. split; [exact Hm|].
      split; cbn [qc_recv_last qc_recv_max_data qc_recv_offset qc_recv_window set_qc_recv_offset set_qc_recv_max_data ngx_quic_queue_frame]; rewrite ?M2, ?M3, ?M4, ?H2, ?H3, ?H5; lia.
  - do 2 eexists. split; [reflexivity|]. split; [exact Hm|]. split; cbn [qc_recv_last qc_recv_max_data qc_recv_offset qc_recv_window set_qc_recv_offset]; rewrite ?M2, ?M3, ?M4, ?H2, ?H3, ?H5; lia.
Qed.

(** What a read of at most [n] bytes gives. *)
Definition read_result (s : list Z) (fs : list segment) (n : Z) (r r' : receiver) (res : received) : Prop :=
  match res with
  | Bytes b =>
      0 < zlen b <= n /\ recv_offset r' = recv_offset r + zlen b /\ b = ztake (zlen b) (zdrop (recv_offset r) s) /\
      (zlen b = n \/ covered fs (recv_offset r') = false)
  | Eof => recv_offset r = zlen s /\ recv_offset r' = recv_offset r /\ fin_seen fs = true
  | Again => covered fs (recv_offset r) = false /\ recv_offset r' = recv_offset r /\ (recv_offset r = zlen s -> fin_seen fs = false)
  | Error => False
  end.

Lemma recv_delivers s fs total r c n : zlen s <= 2 ^ 62 -> Forall (honest s) fs -> 0 < n -> delivers s fs r -> credit s total r c ->
  exists r' c' res, ngx_quic_stream_recv alloc alloc_frame id n r c = Some (r', c', res) /\
    delivers s fs r' /\ credit s total r' c' /\ read_result s fs n r r' res.
Proof.
  intros HL Hfs Hn Hd Hk. pose proof Hd as [D1 D2 D3 D4 D5 D6 D7 D8 D9]. pose proof (wf_low _ D1) as Hlow. unfold ngx_quic_stream_recv.
  replace (bool_decide (recv_state r = NGX_QUIC_STREAM_RECV_RESET_RECVD) || bool_decide (recv_state r = NGX_QUIC_STREAM_RECV_RESET_READ)) with false by (destruct (recv_state r); try contradiction; reflexivity).
  replace (n =? 0) with false by lia.
  pose proof (read_pending alloc s fs (recv r) n Hfs D1 ltac:(intros x; rewrite D2; apply D3) ltac:(lia) ltac:(lia)) as H.
  destruct (ngx_quic_read_buffer alloc (recv r) n) as [[out qb]|]; [|destruct H as [k H]; rewrite memory in H; discriminate H].
  destruct H as (R1 & R2 & R3 & R4 & R5 & Hc & Hle & Eb & Hcov & Hend). set (b := chain_bytes out) in *. pose proof (zlen_nonneg b) as Hb. cbn zeta. rewrite D2 in *. rewrite R2 in Hc, Hend, Hcov.
  assert (size qb = recv_offset r + zlen b + count (flat (chain qb))) as Hsize by (rewrite R4, D4, R5, count_app, count_some; lia).
  clearbody b. destruct (zlen b =? 0) eqn:E0.
  - assert (zlen b = 0) as Eb0 by lia. rewrite Eb0, Z.add_0_r in *. destruct Hend as [Hend|Hend]; [lia|].
    change (recv_state (set_recv qb r)) with (recv_state r). change (recv_offset (set_recv qb r)) with (recv_offset r). change (recv_final_size (set_recv qb r)) with (recv_final_size r).
    assert (forall st, match st with
      | NGX_QUIC_STREAM_RECV_RECV => fin_seen fs = false /\ recv_final_size r = UNSET
      | NGX_QUIC_STREAM_RECV_SIZE_KNOWN => fin_seen fs = true /\ recv_final_size r = zlen s /\ size qb <> zlen s
      | NGX_QUIC_STREAM_RECV_DATA_RECVD | NGX_QUIC_STREAM_RECV_DATA_READ => fin_seen fs = true /\ recv_final_size r = zlen s /\ size qb = zlen s
      | _ => False end -> (st = NGX_QUIC_STREAM_RECV_DATA_READ -> recv_offset r = zlen s) -> delivers s fs (set_recv_state st (set_recv qb r))) as Hdel.
    { intros st Hst Heof. split; cbn [set_recv_state set_recv recv recv_offset recv_last recv_state recv_final_size]; try assumption. }
    destruct (bool_decide (recv_state r = NGX_QUIC_STREAM_RECV_DATA_RECVD) && (recv_offset r =? recv_final_size r)) eqn:E1.
    + apply andb_prop in E1 as [E1 E2]. apply bool_decide_eq_true in E1. rewrite E1 in D5. rewrite <-R4 in D5. cbn [recv_state set_recv_state].
      rewrite bool_decide_eq_true_2 by reflexivity. do 3 eexists. split; [reflexivity|]. split; [apply Hdel; [exact D5|intros _; lia]|].
      split; [destruct Hk; split; assumption|]. cbn [read_result set_recv_state set_recv recv_offset]. repeat split; lia.
    + replace (set_recv qb r) with (set_recv_state (recv_state r) (set_recv qb r)) by (destruct r; reflexivity). cbn [recv_state set_recv_state].
      assert (delivers s fs (set_recv_state (recv_state r) (set_recv qb r))) as Hd' by (apply Hdel; [rewrite R4; exact D5|exact D6]).
      assert (credit s total (set_recv_state (recv_state r) (set_recv qb r)) c) as Hk' by (destruct Hk; split; assumption).
      destruct (bool_decide (recv_state r = NGX_QUIC_STREAM_RECV_DATA_READ)) eqn:E2; do 3 eexists; (split; [reflexivity|]); (split; [exact Hd'|]); (split; [exact Hk'|]).
      * apply bool_decide_eq_true in E2. cbn [read_result set_recv_state set_recv recv_offset]. rewrite E2 in D5. repeat split; [apply D6, E2|apply D5].
      * cbn [read_result set_recv_state set_recv recv_offset]. split; [exact Hend|]. split; [reflexivity|]. intros Eo.
        assert (count (flat (chain qb)) = 0) as Ecnt.
        { destruct (size_spec s fs qb Hfs ltac:(intros x; rewrite R2; apply Hc) ltac:(lia)) as [Hcnt _]. pose proof (count_at_most (flat (chain qb))). lia. }
        destruct (recv_state r) eqn:Est; try contradiction; [apply D5|exfalso; lia| |].
        -- rewrite bool_decide_eq_true_2 in E1 by reflexivity. destruct D5 as (_ & D5 & _). cbn [andb] in E1. lia.
        -- rewrite bool_decide_eq_true_2 in E2 by reflexivity. discriminate E2.
  - change (recv_offset (set_recv qb r)) with (recv_offset r).
    destruct (update_flow_ok s total (zlen b) (set_recv qb r) c) as (r' & c' & E & (M1 & M2 & M3 & M4 & M5 & M6) & Hk'); try assumption; try (cbn; lia); [destruct Hk; split; assumption|].
    cbn [set_recv recv_state recv_offset recv_window recv_last recv_final_size recv] in E, M1, M2, M3, M4, M5, M6. unfold set_recv in *. cbn [recv_offset] in *.
    rewrite E. do 3 eexists. split; [reflexivity|]. split; [|split; [exact Hk'|]].
    + split; rewrite ?M1, ?M2, ?M4, ?M5, ?M6; try assumption; try lia.
      * rewrite R4. exact D5.
      * intros Hst. specialize (D6 Hst). lia.
      * intros x Hx. destruct (Z_lt_ge_dec x (recv_offset r)) as [Hlt|Hge]; [apply D9; lia|apply Hcov; lia].
    + cbn [read_result]. rewrite M2. split; [lia|]. split; [lia|]. split; [exact Eb|exact Hend].
Qed.

(** Frames and reads, in any order. *)
Inductive event := Frame_in (f : segment) | Recv (n : Z).

Definition bytes_of (res : received) : list Z := match res with Bytes b => b | _ => [] end.

(** The bytes that the application got. *)
Fixpoint receive (es : list event) (r : receiver) (c : streams) : (receiver * streams * list Z) + option Z :=
  match es with
  | [] => inl (r, c, [])
  | Frame_in f :: es =>
      match ngx_quic_handle_stream_frame alloc garbage (seg_off f) (seg_len f) (seg_fin f) (seg_data f) r c with
      | inr e => inr e
      | inl (r, c, _) => receive es r c
      end
  | Recv n :: es =>
      match ngx_quic_stream_recv alloc alloc_frame id n r c with
      | None => inr None
      | Some (r, c, res) => match receive es r c with inr e => inr e | inl (r, c, out) => inl (r, c, bytes_of res ++ out) end
      end
  end.

Definition honest_event (s : list Z) (e : event) : Prop := match e with Frame_in f => honest s f | Recv n => 0 < n end.

Definition segments (es : list event) : list segment := omap (fun e => match e with Frame_in f => Some f | Recv _ => None end) es.

Lemma ztake_add {A} a n (l : list A) : 0 <= a -> 0 <= n -> ztake (a + n) l = ztake a l ++ ztake n (zdrop a l).
Proof. intros Ha Hn. unfold ztake, zdrop. rewrite Z2Nat.inj_add by lia. symmetry. apply take_take_drop. Qed.

Lemma receive_delivers s total es : zlen s <= 2 ^ 62 -> Forall (honest_event s) es -> forall fs r c, Forall (honest s) fs -> delivers s fs r -> credit s total r c ->
  exists r' c' out, receive es r c = inl (r', c', out) /\ delivers s (rev (segments es) ++ fs) r' /\ credit s total r' c' /\
    ztake (recv_offset r) s ++ out = ztake (recv_offset r') s /\ Forall (honest s) (rev (segments es) ++ fs).
Proof.
  intros HL H. induction H as [|[f|n] es He H IH]; intros fs r c Hfs Hd Hk; cbn [receive].
  - exists r, c, []. rewrite app_nil_r. repeat split; try assumption; try apply Hd; try apply Hk.
  - destruct (frame_delivers s fs total r c f HL Hfs He Hd Hk) as (r1 & c1 & ev & -> & Hd1 & Hk1 & Eo).
    destruct (IH (f :: fs) r1 c1) as (r' & c' & out & H1 & H2 & H3 & H4 & H5); [constructor; assumption|exact Hd1|exact Hk1|].
    change (segments (Frame_in f :: es)) with (f :: segments es). cbn [rev]. rewrite <-app_assoc. rewrite Eo in H4. eauto 8.
  - cbn [honest_event] in He. destruct (recv_delivers s fs total r c n HL Hfs He Hd Hk) as (r1 & c1 & res & -> & Hd1 & Hk1 & Hr).
    destruct (IH fs r1 c1 Hfs Hd1 Hk1) as (r' & c' & out & -> & H2 & H3 & H4 & H5). exists r', c', (bytes_of res ++ out). split; [reflexivity|].
    change (segments (Recv n :: es)) with (segments es). split; [exact H2|]. split; [exact H3|]. split; [|exact H5]. rewrite <-H4, app_assoc. f_equal.
    pose proof (d_offset _ _ _ Hd) as Ho. pose proof (wf_low _ (d_wf _ _ _ Hd)) as Hlow.
    destruct res as [b| | |]; cbn [read_result bytes_of] in *; [|destruct Hr as (_ & -> & _); apply app_nil_r|destruct Hr as (_ & -> & _); apply app_nil_r|destruct Hr].
    destruct Hr as (Hb & -> & Eb & _). rewrite ztake_add by lia. f_equal. exact Eb.
Qed.

Definition new_receiver (window : Z) : receiver := mk_receiver NGX_QUIC_STREAM_RECV_RECV window 0 window 0 UNSET empty_buffer.

Lemma new_delivers s window : delivers s [] (new_receiver window).
Proof.
  split; cbn [new_receiver recv recv_offset recv_last recv_state recv_final_size]; try reflexivity; try lia.
  - apply empty_wf.
  - intros x. unfold pending. rewrite andb_false_r. unfold contents, val. destruct (x <? _); [reflexivity|]. apply nth_none.
  - split; reflexivity.
  - discriminate.
  - apply zlen_nonneg.
  - pose proof (zlen_nonneg s). lia.
Qed.

Lemma existsb_rev {A} (p : A -> bool) l : existsb p (rev l) = existsb p l.
Proof. induction l as [|x l IH]; [reflexivity|]. cbn [rev existsb]. rewrite existsb_app, IH. cbn [existsb]. rewrite orb_false_r. apply orb_comm. Qed.

Lemma read_result_ext s fs fs' n r r' res : (forall x, covered fs x = covered fs' x) -> fin_seen fs = fin_seen fs' -> read_result s fs n r r' res -> read_result s fs' n r r' res.
Proof. intros Hc Hf. destruct res; cbn [read_result]; rewrite <-?Hc, <-?Hf; tauto. Qed.

End Receiving.

(** ** A stream that is sent *)

(** The STREAM frames of the stream [id] in a queue. *)
Definition stream_segments (id : Z) (l : list frame) : list segment :=
  omap (fun f => match QuicTransport.u f with
                 | U_stream i o _ _ _ fin => if i =? id then Some (mk_segment o [QuicTransport.data f] fin) else None
                 | _ => None
                 end) l.

(** Frames that cut the bytes from [o] on to the end [n], one after the other;
    the last flag is on the last one, at the end of the stream. *)
Fixpoint cuts (s : list Z) (o : Z) (fs : list segment) (n : Z) : Prop :=
  match fs with
  | [] => o = n
  | f :: fs => seg_off f = o /\ concat (seg_data f) = ztake (seg_len f) (zdrop o s) /\ o + seg_len f <= zlen s /\
      (seg_fin f = true -> fs = [] /\ o + seg_len f = zlen s) /\ cuts s (o + seg_len f) fs n
  end.

(** [limit] is the credit of the stream, [total] that of the connection. *)
Record sends (s : list Z) (fs : list segment) (q : sender) (c : streams) : Prop := {
  e_wf : wf (send q);
  e_offset : offset (send q) = send_offset q;
  e_contents : forall x, contents (send q) x = if (send_offset q <=? x) && (x <? zlen s) then Some (nth (Z.to_nat x) s 0) else None;
  e_size : size (send q) = zlen s;
  e_sent : sent q = zlen s /\ conn_sent q = zlen s /\ zlen s <= 2 ^ 61;
  e_range : 0 <= send_offset q <= zlen s;
  e_acked : 0 <= acked q <= zlen s;
  e_cuts : cuts s 0 fs (send_offset q);
  e_limit : send_offset q <= send_max_data q < 2 ^ 62;
  e_total : 0 <= qc_send_offset c <= qc_send_max_data c /\ qc_send_max_data c < 2 ^ 62 /\ 0 <= qc_sent c
}.

(** Everything within the limits is sent. *)
Definition flushed (s : list Z) (q : sender) (c : streams) : Prop :=
  send_offset q = zlen s \/ send_offset q = send_max_data q \/ qc_send_offset c = qc_send_max_data c.

Lemma cuts_snoc s fs : forall o n f, cuts s o fs n -> fin_seen fs = false -> 0 <= o -> cuts s n [f] (n + seg_len f) -> cuts s o (fs ++ [f]) (n + seg_len f).
Proof.
  induction fs as [|g fs IH]; intros o n f H Hf Ho Hg; cbn [app cuts] in *.
  - subst n. exact Hg.
  - destruct H as (H1 & H2 & H3 & H4 & H5). cbn [fin_seen existsb] in Hf. destruct (seg_fin g) eqn:Eg; [discriminate Hf|]. repeat split; try assumption; try discriminate.
    apply (IH _ n); try assumption. pose proof (zlen_nonneg (concat (seg_data g))). unfold seg_len. lia.
Qed.

Lemma ztake_app_le {A} n (l1 l2 : list A) : n <= zlen l1 -> ztake n (l1 ++ l2) = ztake n l1.
Proof. intros H. unfold ztake. apply take_app_le. unfold zlen in H. lia. Qed.

Lemma zdrop_app_le {A} n (l1 l2 : list A) : n <= zlen l1 -> zdrop n (l1 ++ l2) = zdrop n l1 ++ l2.
Proof. intros H. unfold zdrop. apply drop_app_le. unfold zlen in H. lia. Qed.

Lemma off_t_id x : 0 <= x < 2 ^ 63 -> to_signed size8 x = x.
Proof. intros H. unfold to_signed. rewrite wrapu_uint64 by lia. cbn [max_value]. replace (x <=? _) with true by lia. reflexivity. Qed.

(** More bytes do not change the frames that are out. *)
Lemma cuts_more s more fs : forall o n, cuts s o fs n -> fin_seen fs = false -> 0 <= o -> cuts (s ++ more) o fs n.
Proof.
  induction fs as [|f fs IH]; intros o n H Hf Ho; cbn [cuts] in *; [exact H|]. destruct H as (H1 & H2 & H3 & H4 & H5).
  cbn [fin_seen existsb] in Hf. destruct (seg_fin f) eqn:Ef; [discriminate Hf|]. pose proof (zlen_nonneg (concat (seg_data f))) as Hl. fold (seg_len f) in Hl. pose proof (zlen_nonneg more).
  repeat split; try discriminate; [exact H1| |rewrite zlen_app; lia|apply IH; [exact H5|exact Hf|lia]].
  rewrite H2 at 1. rewrite zdrop_app_le, ztake_app_le; [reflexivity| |lia]. rewrite zlen_zdrop by lia. lia.
Qed.

Lemma cuts_honest s fs : forall o n, 0 <= o -> cuts s o fs n -> Forall (honest s) fs.
Proof.
  induction fs as [|f fs IH]; intros o n Ho H; constructor; cbn [cuts] in H; destruct H as (H1 & H2 & H3 & H4 & H5);
    pose proof (zlen_nonneg (concat (seg_data f))) as Hl; fold (seg_len f) in Hl.
  - unfold honest. rewrite H1. repeat split; try assumption; try lia.
  - apply (IH (o + seg_len f) n); [lia|exact H5].
Qed.

Lemma cuts_bytes s fs : forall o n, 0 <= o <= zlen s -> cuts s o fs n -> o <= n <= zlen s /\ concat (concat (map seg_data fs)) = ztake (n - o) (zdrop o s).
Proof.
  induction fs as [|f fs IH]; intros o n Ho H; cbn [cuts map concat] in *.
  - subst n. rewrite Z.sub_diag. split; [lia|reflexivity].
  - destruct H as (H1 & H2 & H3 & H4 & H5). pose proof (zlen_nonneg (concat (seg_data f))) as Hl. fold (seg_len f) in Hl.
    destruct (IH (o + seg_len f) n ltac:(lia) H5) as [H6 H7]. split; [lia|]. rewrite concat_app, H7, H2.
    replace (n - o) with (seg_len f + (n - (o + seg_len f))) by lia. rewrite (ztake_add (seg_len f)) by lia. f_equal. f_equal.
    unfold zdrop. rewrite drop_drop. f_equal. lia.
Qed.

Lemma cuts_covered s fs : forall o n x, 0 <= o -> cuts s o fs n -> covered fs x = (o <=? x) && (x <? n).
Proof.
  induction fs as [|f fs IH]; intros o n x Ho H; cbn [cuts] in H; [subst n; cbn; destruct (o <=? x) eqn:E; [replace (x <? o) with false by lia|]; reflexivity|].
  destruct H as (H1 & H2 & H3 & H4 & H5). pose proof (zlen_nonneg (concat (seg_data f))) as Hl. fold (seg_len f) in Hl. cbn [covered existsb]. fold (covered fs x).
  assert (o + seg_len f <= n) as Hn.
  { clear - H5 Hl Ho. revert H5. generalize (o + seg_len f) as m. intros m. revert m. induction fs as [|g fs IH]; intros m H; cbn [cuts] in H; [lia|].
    destruct H as (_ & _ & _ & _ & H). apply IH in H. pose proof (zlen_nonneg (concat (seg_data g))). unfold seg_len in H. lia. }
  rewrite (IH (o + seg_len f) n x ltac:(lia) H5), H1. lia.
Qed.

Lemma count_exact f : forall n, (forall k, (k < n)%nat -> nth k f None <> None) -> (forall k, (n <= k)%nat -> nth k f None = None) -> count f = Z.of_nat n.
Proof.
  induction f as [|x f IH]; intros n H1 H2.
  - destruct n as [|n]; [reflexivity|]. destruct (H1 0%nat ltac:(lia)). reflexivity.
  - rewrite count_cons. destruct n as [|n].
    + pose proof (H2 0%nat ltac:(lia)) as H0. cbn in H0. subst x. rewrite (IH 0%nat); [lia|intros k Hk; lia|intros k _; apply (H2 (S k)); lia].
    + destruct x as [v|]; [|destruct (H1 0%nat ltac:(lia)); reflexivity]. rewrite (IH n); [lia|intros k Hk; apply (H1 (S k)); lia|intros k Hk; apply (H2 (S k)); lia].
Qed.

(** A buffer whose bytes are those from its offset up to an end. *)
Lemma count_run qb (g : Z -> Z) e : offset qb <= e -> (forall x, contents qb x = if (offset qb <=? x) && (x <? e) then Some (g x) else None) ->
  count (flat (chain qb)) = e - offset qb.
Proof.
  intros He Hc. rewrite (count_exact _ (Z.to_nat (e - offset qb))); [lia| |]; intros k Hk; rewrite <-contents_nth, Hc.
  - replace ((offset qb <=? offset qb + Z.of_nat k) && (offset qb + Z.of_nat k <? e)) with true by lia. discriminate.
  - replace (offset qb + Z.of_nat k <? e) with false by lia. rewrite andb_false_r. reflexivity.
Qed.

Section Sending.
Variable alloc : nat -> bool.
Variable garbage : nat -> list Z.
Variable alloc_frame : list frame -> bool.
Variable id : Z.
Variable initial_max_data stream_buffer_size : Z.
Hypothesis memory : forall n, alloc n = true.
Hypothesis garbage_len : forall n, zlen (garbage n) = NGX_QUIC_BUFFER_SIZE.
Hypothesis frames_memory : forall l, alloc_frame l = true.
Hypothesis initial_range : 0 <= initial_max_data < 2 ^ 62.
Hypothesis buffer_range : 0 <= stream_buffer_size < 2 ^ 61.

Abbreviation flush := (ngx_quic_stream_flush alloc alloc_frame id initial_max_data).

(** The state of the sender, when no more data comes ([closing]) or may. *)
Definition sending (s : list Z) (closing : bool) (q : sender) (c : streams) : Prop :=
  let fs := stream_segments id (queued c) in
  sends s fs q c /\ sent q <= acked q + stream_buffer_size /\
  match send_state q with
  | NGX_QUIC_STREAM_SEND_READY => closing = false /\ send_final_size q = UNSET /\ fin_seen fs = false /\ zlen s = 0
  | NGX_QUIC_STREAM_SEND_SEND => send_final_size q = (if closing then zlen s else UNSET) /\ fin_seen fs = false
  | NGX_QUIC_STREAM_SEND_DATA_SENT | NGX_QUIC_STREAM_SEND_DATA_RECVD =>
      closing = true /\ send_final_size q = zlen s /\ fin_seen fs = true /\ send_offset q = zlen s
  | _ => False
  end.

(** A stream that was shut down has sent its last frame with its last byte. *)
Definition settled (s : list Z) (closing : bool) (q : sender) : Prop :=
  send_state q = NGX_QUIC_STREAM_SEND_SEND -> closing = true -> send_offset q <> zlen s.

Lemma segments_snoc l f o n fin d : stream_segments id (l ++ [mk_frame f (U_stream id o n true true fin) d]) = stream_segments id l ++ [mk_segment o [d] fin].
Proof. unfold stream_segments. rewrite omap_app. cbn. rewrite Z.eqb_refl. reflexivity. Qed.

Lemma flush_ok s closing q c : sending s closing q c -> send_state q = NGX_QUIC_STREAM_SEND_SEND ->
  exists q' c', flush q c = Some (q', c') /\ sending s closing q' c' /\ flushed s q' c' /\ sent q' = sent q /\
    settled s closing q' /\
    (send_state q' = NGX_QUIC_STREAM_SEND_SEND \/ send_state q' = NGX_QUIC_STREAM_SEND_DATA_SENT).
Proof.
  intros (Hs & Hbuf & Hst) Est. rewrite Est in Hst. destruct Hst as [Hfin Hseen]. unfold ngx_quic_stream_flush. rewrite Est, bool_decide_eq_true_2 by reflexivity. cbn [negb].
  set (c1 := if qc_send_max_data c =? 0 then set_qc_send_max_data initial_max_data c else c).
  assert (sends s (stream_segments id (queued c1)) q c1 /\ queued c1 = queued c) as [Hs1 Eq].
  { unfold c1. destruct (qc_send_max_data c =? 0) eqn:E; [|split; [exact Hs|reflexivity]]. split; [|reflexivity]. destruct Hs as [E1 E2 E3 E4 E5 E6 E7 E8 E9 E10]. split; try assumption. cbn. lia. }
  rewrite <-Eq in Hseen. clear Hs Eq. clearbody c1. clear c. rename c1 into c. set (fs := stream_segments id (queued c)) in *. destruct Hs1 as [E1 E2 E3 E4 (E5 & E5' & E5'') E6 E7 E8 E9 (E10 & E10' & E10'')].
  cbn zeta. rewrite (u64_small (qc_send_max_data c - qc_send_offset c)) by lia. rewrite (u64_small (send_max_data q - send_offset q)) by lia.
  set (limit := Z.min (qc_send_max_data c - qc_send_offset c) (send_max_data q - send_offset q)).
  pose proof (read_spec alloc (send q) limit E1 ltac:(lia)) as H.
  destruct (ngx_quic_read_buffer alloc (send q) limit) as [[out qb]|]; [|destruct H as [k H]; rewrite memory in H; discriminate H].
  destruct H as (R1 & R2 & R3 & R4 & R5 & R6 & R7). set (b := chain_bytes out) in *. pose proof (zlen_nonneg b) as Hb. cbn zeta in R2, R3, R7. rewrite E2 in *.
  cbn [send set_send]. rewrite R2. replace (send_offset q + zlen b - send_offset q) with (zlen b) by lia.
  assert (forall k, (k < length b)%nat -> send_offset q + Z.of_nat k < zlen s /\ nth k b 0 = nth (Z.to_nat (send_offset q + Z.of_nat k)) s 0) as Hbyte.
  { intros k Hk'. assert (contents (send q) (send_offset q + Z.of_nat k) = Some (nth k b 0)) as E.
    { rewrite <-E2, contents_nth, R5, app_nth1 by (rewrite length_fmap; lia). rewrite (nth_indep _ None (Some 0)) by (rewrite length_fmap; lia). apply map_nth. }
    rewrite E3 in E. destruct (send_offset q + Z.of_nat k <? zlen s) eqn:E0; [|rewrite andb_false_r in E; discriminate E].
    replace (send_offset q <=? send_offset q + Z.of_nat k) with true in E by lia. injection E as E. split; [lia|congruence]. }
  assert (send_offset q + zlen b <= zlen s) as Hle.
  { destruct (Z.eq_dec (zlen b) 0) as [->|Hne]; [lia|]. destruct (Hbyte (Z.to_nat (zlen b - 1)) ltac:(unfold zlen in *; lia)) as [Hcov _]. lia. }
  assert (b = ztake (zlen b) (zdrop (send_offset q) s)) as Eb.
  { apply (nth_ext _ _ 0 0).
    - assert (zlen (ztake (zlen b) (zdrop (send_offset q) s)) = zlen b) as E by (apply zlen_ztake; rewrite zlen_zdrop; lia). unfold zlen in E at 1 3. lia.
    - intros k Hk'. rewrite (proj2 (Hbyte k Hk')). symmetry. rewrite <-(nth_part s (send_offset q) (zlen b)) by (unfold zlen in *; lia). f_equal. lia. }
  assert (zlen b = limit \/ send_offset q + zlen b = zlen s) as Hend.
  { destruct R7 as [R7|R7]; [left; exact R7|right]. rewrite R6, R2, Z.ltb_irrefl, E3 in R7. replace (send_offset q <=? send_offset q + zlen b) with true in R7 by lia. cbn [andb] in R7.
    destruct (send_offset q + zlen b <? zlen s) eqn:E; [discriminate R7|lia]. }
  assert (forall x, contents qb x = if (send_offset q + zlen b <=? x) && (x <? zlen s) then Some (nth (Z.to_nat x) s 0) else None) as Hc.
  { intros x. rewrite R6, R2, E3. destruct (x <? send_offset q + zlen b) eqn:E.
    - replace (send_offset q + zlen b <=? x) with false by lia. reflexivity.
    - replace (send_offset q + zlen b <=? x) with true by lia. replace (send_offset q <=? x) with true by lia. reflexivity. }
  clearbody b. rewrite (u64_small (zlen b)) by lia. cbn [send_final_size set_send].
  set (last := negb (send_final_size q =? UNSET) && (send_final_size q =? send_offset q + zlen b)).
  assert (last = closing && (send_offset q + zlen b =? zlen s)) as Elast.
  { unfold last. rewrite Hfin. destruct closing; [unfold UNSET; replace (zlen s =? 2 ^ 64 - 1) with false by lia; cbn [negb andb]; lia|reflexivity]. }
  clearbody last. set (q1 := if last then set_send_state NGX_QUIC_STREAM_SEND_DATA_SENT (set_send qb q) else set_send qb q).
  assert (sent q1 = sent q /\ conn_sent q1 = conn_sent q /\ acked q1 = acked q /\ send_max_data q1 = send_max_data q /\ send_offset q1 = send_offset q /\
    send_final_size q1 = send_final_size q /\ send q1 = qb /\ send_state q1 = if last then NGX_QUIC_STREAM_SEND_DATA_SENT else NGX_QUIC_STREAM_SEND_SEND)
    as (Q1 & Q2 & Q3 & Q4 & Q5 & Q6 & Q7 & Q8) by (unfold q1; destruct last; repeat split; try reflexivity; exact Est).
  clearbody q1. assert (flushed s q c \/ True) as _ by (right; exact I). destruct ((zlen b =? 0) && negb last) eqn:E0.
  - assert (zlen b = 0) as Eb0 by lia. assert (last = false) as El by (destruct last; [rewrite andb_false_r in E0; discriminate E0|reflexivity]).
    rewrite Eb0, El, Z.add_0_r in *. do 2 eexists. split; [reflexivity|]. split; [|split; [|split; [exact Q1|split; [|left; exact Q8]]]].
    + split; [|split; [lia|rewrite Q8, Q6; split; [exact Hfin|exact Hseen]]]. split; rewrite ?Q1, ?Q2, ?Q3, ?Q4, ?Q5, ?Q7; try assumption; try lia.
    + unfold flushed. rewrite Q4, Q5. lia.
    + unfold settled. intros _ Hcl. rewrite Q5. rewrite Hcl in Elast. cbn [andb] in Elast. lia.
  - rewrite frames_memory. cbn [negb]. rewrite Q5. rewrite (u64_small (send_offset q + zlen b)) by lia. rewrite (u64_small (qc_send_offset _ + zlen b)) by (cbn [qc_send_offset ngx_quic_queue_frame]; lia).
    assert (cuts s (send_offset q) [mk_segment (send_offset q) [b] last] (send_offset q + zlen b)) as Hcut.
    { assert (seg_len (mk_segment (send_offset q) [b] last) = zlen b) as El by (unfold seg_len; cbn [seg_data concat]; rewrite app_nil_r; reflexivity).
      cbn [cuts]. rewrite El. cbn [seg_off seg_data seg_fin concat]. rewrite app_nil_r. repeat split; try assumption; try lia; destruct last; try discriminate; lia. }
    do 2 eexists. split; [reflexivity|].
    assert (sends s (fs ++ [mk_segment (send_offset q) [b] last]) (set_send_offset (send_offset q + zlen b) q1)
      (set_qc_send_offset (qc_send_offset c + zlen b) (ngx_quic_queue_frame (mk_frame NGX_QUIC_FT_STREAM (U_stream id (send_offset q) (zlen b) true true last) b) c))) as Hsend.
    { split; cbn [set_send_offset send send_offset sent conn_sent acked send_max_data qc_send_offset qc_send_max_data qc_sent set_qc_send_offset ngx_quic_queue_frame]; rewrite ?Q1, ?Q2, ?Q3, ?Q4, ?Q7; try assumption; try lia.
      assert (seg_len (mk_segment (send_offset q) [b] last) = zlen b) as El by (unfold seg_len; cbn [seg_data concat]; rewrite app_nil_r; reflexivity).
      rewrite <-El. apply cuts_snoc; try assumption; [lia|]. rewrite El. exact Hcut. }
    split; [|split; [|split; [exact Q1|split]]].
    + split; [|split].
      * cbn [queued set_qc_send_offset ngx_quic_queue_frame]. rewrite segments_snoc. exact Hsend.
      * cbn [set_send_offset sent acked]. lia.
      * cbn [queued set_qc_send_offset ngx_quic_queue_frame]. rewrite segments_snoc. cbn [set_send_offset send_state send_final_size send_offset]. rewrite Q8, Q6. unfold fin_seen. rewrite existsb_app. fold fs. fold (fin_seen fs). rewrite Hseen. cbn [existsb seg_fin orb].
        destruct last; [|split; [exact Hfin|reflexivity]]. symmetry in Elast. apply andb_prop in Elast as [Ecl Elast]. rewrite Ecl in *. split; [reflexivity|]. split; [exact Hfin|]. split; [reflexivity|]. lia.
    + unfold flushed. cbn [set_send_offset send_offset send_max_data qc_send_offset qc_send_max_data set_qc_send_offset ngx_quic_queue_frame]. rewrite Q4. lia.
    + unfold settled. cbn [set_send_offset send_state send_offset]. rewrite Q8. intros Hl Hcl. destruct last; [discriminate Hl|]. rewrite Hcl in Elast. cbn [andb] in Elast. lia.
    + cbn [set_send_offset send_state]. rewrite Q8. destruct last; auto.
Qed.

(** The states before the flush, with more bytes in the buffer. *)
Lemma accept_ok s q c l limit : sending s false q c ->
  send_state q = NGX_QUIC_STREAM_SEND_READY \/ send_state q = NGX_QUIC_STREAM_SEND_SEND -> 0 <= limit -> zlen s + zlen (concat l) <= 2 ^ 61 ->
  exists q' c' l' w, ngx_quic_stream_send_chain alloc garbage alloc_frame id initial_max_data stream_buffer_size l limit q c = Some (q', c', l') /\
    concat l = w ++ concat l' /\ sending (s ++ w) false q' c' /\
    (let room := acked q + stream_buffer_size - zlen s in zlen w = Z.min (if limit =? 0 then room else Z.min limit room) (zlen (concat l))) /\
    (flushed s q c -> flushed (s ++ w) q' c').
Proof.
  intros (Hs & Hbuf & Hst) Hst' Hlim Hlen. unfold ngx_quic_stream_send_chain.
  assert (send_final_size q = UNSET /\ fin_seen (stream_segments id (queued c)) = false) as [Hfin Hseen] by (destruct Hst' as [E|E]; rewrite E in Hst; tauto).
  replace (negb (bool_decide (send_state q = NGX_QUIC_STREAM_SEND_READY)) && negb (bool_decide (send_state q = NGX_QUIC_STREAM_SEND_SEND))) with false by (destruct Hst' as [-> | ->]; reflexivity).
  cbn zeta. pose proof (zlen_nonneg (concat l)) as Hz. pose proof Hs as [E1 E2 E3 E4 (E5 & E5' & E5'') E6 E7 E8 E9 E10].
  cbn [acked sent set_send_state]. rewrite E5. rewrite (u64_small (acked q + stream_buffer_size - zlen s)) by lia.
  assert (sends s (stream_segments id (queued c)) (set_send_state NGX_QUIC_STREAM_SEND_SEND q) c) as Hs1 by (split; try assumption; auto).
  destruct (acked q + stream_buffer_size - zlen s =? 0) eqn:E0.
  { do 2 eexists. exists l, []. split; [reflexivity|]. rewrite app_nil_r. split; [reflexivity|]. split; [split; [exact Hs1|split; [exact Hbuf|split; assumption]]|].
    split; [|tauto]. change (zlen []) with 0. destruct (limit =? 0); lia. }
  replace (to_signed size8 (acked q + stream_buffer_size - zlen s)) with (acked q + stream_buffer_size - zlen s) by (symmetry; apply off_t_id; lia).
  set (lim := if (limit =? 0) || (limit >? acked q + stream_buffer_size - zlen s) then acked q + stream_buffer_size - zlen s else limit).
  assert (lim = if limit =? 0 then acked q + stream_buffer_size - zlen s else Z.min limit (acked q + stream_buffer_size - zlen s)) as Elim by (unfold lim; destruct (limit =? 0) eqn:E; cbn [orb]; [reflexivity|destruct (limit >? _) eqn:E'; lia]).
  rewrite <-Elim. assert (0 <= lim <= acked q + stream_buffer_size - zlen s) as [Hlim' Hroom] by (rewrite Elim; destruct (limit =? 0); lia). clearbody lim. clear Elim.
  pose proof (write_spec alloc garbage (send q) l lim (zlen s) garbage_len E1 Hlim' ltac:(lia) ltac:(lia)) as H. change (send (set_send_state NGX_QUIC_STREAM_SEND_SEND q)) with (send q).
  destruct (ngx_quic_write_buffer alloc garbage (send q) l lim (zlen s)) as [[[qb l']|]|]; [|destruct H as [k H]; rewrite memory in H; discriminate H|destruct H].
  destruct H as (W1 & W2 & w & W3 & W4 & W5 & W6). pose proof (zlen_nonneg w) as Hw. unfold amount in W4. cbn [size send set_send].
  assert (forall x, contents qb x = if (send_offset q <=? x) && (x <? zlen (s ++ w)) then Some (nth (Z.to_nat x) (s ++ w) 0) else None) as Hc.
  { intros x. rewrite W5. unfold put. rewrite E2, E3, zlen_app. destruct (send_offset q <=? x) eqn:Ex; [cbn [andb]|reflexivity]. destruct (x <? zlen s) eqn:Ex2.
    - replace (x <? zlen s + zlen w) with true by lia. rewrite app_nth1 by (unfold zlen in *; lia). reflexivity.
    - replace (zlen s <=? x) with true by lia. cbn [andb]. destruct (x <? zlen s + zlen w) eqn:Ex3; [|reflexivity]. rewrite app_nth2 by (unfold zlen in *; lia). do 2 f_equal. unfold zlen. lia. }
  assert (count (flat (chain qb)) = zlen (s ++ w) - send_offset q) as Hn.
  { rewrite <-E2, <-W2. apply (count_run qb (fun x => nth (Z.to_nat x) (s ++ w) 0)); [rewrite zlen_app; lia|]. rewrite W2, E2. exact Hc. }
  assert (count (flat (chain (send q))) = zlen s - send_offset q) as Hn0.
  { rewrite <-E2. apply (count_run (send q) (fun x => nth (Z.to_nat x) s 0)); [lia|]. rewrite E2. exact E3. }
  rewrite zlen_app in Hn. assert (size qb = zlen s + zlen w) as Esz by lia. rewrite Esz, E4. replace (zlen s + zlen w - zlen s) with (zlen w) by lia. rewrite (u64_small (zlen w)) by lia.
  set (q2 := add_sent (zlen w) (set_send qb (set_send_state NGX_QUIC_STREAM_SEND_SEND q))). set (c2 := set_qc_sent (u64 (qc_sent c + zlen w)) c).
  assert (sending (s ++ w) false q2 c2) as Hs2.
  { assert (sent q2 = zlen s + zlen w /\ conn_sent q2 = zlen s + zlen w) as [S1 S2] by (unfold q2; cbn; rewrite ?E5, ?E5', !u64_small by lia; lia).
    split; [|split; [rewrite S1; cbn; lia|split; assumption]].
    split; rewrite ?S1, ?S2, ?zlen_app; cbn [q2 add_sent set_send set_send_state send send_offset acked send_max_data c2 set_qc_sent qc_send_offset qc_send_max_data qc_sent queued]; try assumption; try lia.
    - intros x. rewrite Hc, zlen_app. reflexivity.
    - apply cuts_more; [exact E8|exact Hseen|lia].
    - unfold u64. pose proof (Z.mod_pos_bound (qc_sent c + zlen w) (2 ^ 64) ltac:(lia)). lia. }
  destruct (flush_ok (s ++ w) false q2 c2 Hs2 eq_refl) as (q' & c' & -> & H1 & H2 & _). exists q', c', l', w. split; [reflexivity|]. split; [exact W3|]. split; [exact H1|].
  split; [exact W4|]. intros _. exact H2.
Qed.

Lemma max_stream_data_ok s closing q c m : sending s closing q c -> m < 2 ^ 62 ->
  exists q' c', ngx_quic_handle_max_stream_data_frame alloc alloc_frame id initial_max_data m q c = Some (q', c') /\ sending s closing q' c' /\
    (settled s closing q -> settled s closing q') /\ (flushed s q c -> flushed s q' c').
Proof.
  intros Hsend Hm. pose proof Hsend as (Hs & Hbuf & Hst). unfold ngx_quic_handle_max_stream_data_frame.
  destruct (m <=? send_max_data q) eqn:E1; [do 2 eexists; split; [reflexivity|tauto]|].
  assert (sending s closing (set_send_max_data m q) c) as Hs' by (split; [destruct Hs; split; try assumption; cbn; lia|split; [exact Hbuf|exact Hst]]).
  destruct (send_offset q <? send_max_data q) eqn:E2.
  { do 2 eexists. split; [reflexivity|]. split; [exact Hs'|]. split; [tauto|]. unfold flushed. cbn [set_send_max_data send_offset send_max_data]. lia. }
  destruct (decide (send_state (set_send_max_data m q) = NGX_QUIC_STREAM_SEND_SEND)) as [Hq|Hq].
  - destruct (flush_ok s closing _ c Hs' Hq) as (q' & c' & H & H1 & H2 & _ & H3 & _). eauto 8.
  - unfold ngx_quic_stream_flush. rewrite bool_decide_eq_false_2 by exact Hq. do 2 eexists. split; [reflexivity|]. split; [exact Hs'|].
    split; [tauto|]. intros Hfl. destruct Hs' as (_ & _ & Hst'). unfold flushed in *. cbn [set_send_max_data send_offset send_max_data send_state] in *.
    destruct (send_state q); try contradiction; [|left; tauto|left; tauto].
    left. pose proof (e_range _ _ _ _ Hs). lia.
Qed.

Lemma shutdown_ok s q c : sending s false q c ->
  send_state q = NGX_QUIC_STREAM_SEND_READY \/ send_state q = NGX_QUIC_STREAM_SEND_SEND ->
  exists q' c', ngx_quic_shutdown_stream_send alloc alloc_frame id initial_max_data q c = Some (q', c') /\ sending s true q' c' /\ settled s true q' /\ flushed s q' c'.
Proof.
  intros (Hs & Hbuf & Hst) Hst'. unfold ngx_quic_shutdown_stream_send.
  replace (negb (bool_decide (send_state q = NGX_QUIC_STREAM_SEND_READY)) && negb (bool_decide (send_state q = NGX_QUIC_STREAM_SEND_SEND))) with false by (destruct Hst' as [-> | ->]; reflexivity).
  cbn zeta. assert (fin_seen (stream_segments id (queued c)) = false) as Hseen by (destruct Hst' as [E|E]; rewrite E in Hst; tauto).
  set (q1 := set_send_final_size _ _). assert (sending s true q1 c) as Hs1.
  { split; [destruct Hs; split; assumption|]. split; [exact Hbuf|]. cbn [q1 set_send_final_size set_send_state send_state send_final_size conn_sent]. split; [apply (e_sent _ _ _ _ Hs)|exact Hseen]. }
  destruct (flush_ok s true q1 c Hs1 eq_refl) as (q' & c' & H & H1 & H2 & _ & H3 & _). eauto 8.
Qed.

Lemma ack_ok s closing q c n fin : sending s closing q c -> 0 <= n -> acked q + n <= sent q ->
  sending s closing (ngx_quic_handle_stream_ack n fin q) c.
Proof.
  intros (Hs & Hbuf & Hst) Hn Ha. unfold ngx_quic_handle_stream_ack. pose proof Hs as [E1 E2 E3 E4 (E5 & E5' & E5'') E6 E7 E8 E9 E10]. rewrite u64_small by lia.
  assert (sending s closing (set_acked (acked q + n) (fin_acked q || fin) q) c) as Hs1.
  { split; [split; try assumption; cbn; lia|]. split; [cbn; lia|]. exact Hst. }
  destruct (bool_decide _ && _ && _) eqn:E; [|exact Hs1]. destruct Hs1 as (H1 & H2 & H3). apply andb_prop in E as [E _]. apply andb_prop in E as [E _]. apply bool_decide_eq_true in E.
  rewrite E in H3. split; [destruct H1; split; assumption|]. split; [exact H2|]. exact H3.
Qed.

(** What happens to a stream that is sent: the bytes that were taken, whether
    the stream was shut down, and the state. *)
Inductive send_step : list Z * bool * sender * streams -> list Z * bool * sender * streams -> Prop :=
  | Step_send s q c l limit q' c' l' w :
      send_state q = NGX_QUIC_STREAM_SEND_READY \/ send_state q = NGX_QUIC_STREAM_SEND_SEND -> 0 <= limit -> zlen s + zlen (concat l) <= 2 ^ 61 ->
      ngx_quic_stream_send_chain alloc garbage alloc_frame id initial_max_data stream_buffer_size l limit q c = Some (q', c', l') -> concat l = w ++ concat l' ->
      send_step (s, false, q, c) (s ++ w, false, q', c')
  | Step_limit s closing q c m q' c' :
      m < 2 ^ 62 -> ngx_quic_handle_max_stream_data_frame alloc alloc_frame id initial_max_data m q c = Some (q', c') ->
      send_step (s, closing, q, c) (s, closing, q', c')
  | Step_ack s closing q c n fin :
      0 <= n -> acked q + n <= sent q -> send_step (s, closing, q, c) (s, closing, ngx_quic_handle_stream_ack n fin q, c)
  | Step_shutdown s q c q' c' :
      send_state q = NGX_QUIC_STREAM_SEND_READY \/ send_state q = NGX_QUIC_STREAM_SEND_SEND ->
      ngx_quic_shutdown_stream_send alloc alloc_frame id initial_max_data q c = Some (q', c') -> send_step (s, false, q, c) (s, true, q', c').

(** A new stream with the limit that the other side gave, on a connection
    that has sent nothing on a stream of this number. *)
Definition new_sender (limit : Z) : sender := mk_sender NGX_QUIC_STREAM_SEND_READY 0 0 0 limit 0 UNSET false empty_buffer.

Inductive sent_to (limit : Z) (c0 : streams) : list Z * bool * sender * streams -> Prop :=
  | Sent_start : sent_to limit c0 ([], false, new_sender limit, c0)
  | Sent_step x y : sent_to limit c0 x -> send_step x y -> sent_to limit c0 y.

Definition fair (limit : Z) (c0 : streams) : Prop :=
  0 <= limit < 2 ^ 62 /\ 0 <= qc_send_offset c0 <= qc_send_max_data c0 /\ qc_send_max_data c0 < 2 ^ 62 /\ 0 <= qc_sent c0 /\ stream_segments id (queued c0) = [].

Lemma sent_to_sending limit c0 s closing q c : fair limit c0 -> sent_to limit c0 (s, closing, q, c) ->
  sending s closing q c /\ settled s closing q /\ flushed s q c.
Proof.
  intros (F1 & F2 & F3 & F4 & F5) H. remember (s, closing, q, c) as x eqn:Ex. revert s closing q c Ex. induction H as [|x y H IH Hstep]; intros s closing q c Ex.
  - injection Ex as <- <- <- <-. split; [|split; [intros Hx; discriminate Hx|left; reflexivity]]. split; [|split; [cbn; lia|cbn; rewrite F5; repeat split]]. rewrite F5.
    split; cbn [new_sender send send_offset sent conn_sent acked send_max_data]; change (zlen (@nil Z)) with 0; try lia; try reflexivity; [apply empty_wf|].
    intros x. replace ((0 <=? x) && (x <? 0)) with false by lia. unfold contents, val. destruct (x <? _); [reflexivity|]. apply nth_none.
  - subst y. inversion Hstep as [s0 q0 c1 l lim q' c' l' w S1 S2 S3 S4 S5|s0 cl q0 c1 m q' c' S1 S2|s0 cl q0 c1 n fin S1 S2|s0 q0 c1 q' c' S1 S2]; subst;
      destruct (IH _ _ _ _ eq_refl) as (I1 & I2 & I3).
    + destruct (accept_ok s0 q0 c1 l lim I1 S1 S2 S3) as (q1 & c2 & l1 & w1 & E & Ew & Hs & _ & Hfl). rewrite E in S4. injection S4 as -> -> ->.
      rewrite Ew in S5. apply app_inv_tail in S5. subst w1. split; [exact Hs|]. split; [intros _ Hx; discriminate Hx|apply Hfl, I3].
    + destruct (max_stream_data_ok s closing q0 c1 m I1 S1) as (q1 & c2 & E & Hs & H1 & H2). rewrite E in S2. injection S2 as -> ->. auto.
    + split; [apply ack_ok; assumption|]. unfold ngx_quic_handle_stream_ack, settled, flushed. destruct (_ && _ && _); [split; [intros Hx; discriminate Hx|exact I3]|split; [exact I2|exact I3]].
    + destruct (shutdown_ok s q0 c1 I1 S1) as (q1 & c2 & E & Hs). rewrite E in S2. injection S2 as -> ->. exact Hs.
Qed.

End Sending.

(** ** CRYPTO frames in order *)

Section CryptoOrder.
Variable alloc : nat -> bool.
Variable garbage : nat -> list Z.
Variable tls : Type.
Variable ngx_quic_crypto_input : tls -> list (list Z) -> option tls.
Hypothesis memory : forall n, alloc n = true.
Hypothesis garbage_len : forall n, zlen (garbage n) = NGX_QUIC_BUFFER_SIZE.

(** The library takes a stream of bytes. *)
Variable feed : tls -> list Z -> tls.
Hypothesis input_feeds : forall t l, ngx_quic_crypto_input t l = Some (feed t (concat l)).
Hypothesis feed_nil : forall t, feed t [] = t.
Hypothesis feed_app : forall t a b, feed (feed t a) b = feed t (a ++ b).

Abbreviation handle_crypto := (ngx_quic_handle_crypto_frame alloc garbage tls ngx_quic_crypto_input).

Fixpoint crypto_frames (fs : list segment) (qb : buffer) (t : tls) : (buffer * tls) + option Z :=
  match fs with
  | [] => inl (qb, t)
  | f :: fs =>
      match handle_crypto (seg_off f) (seg_len f) (seg_data f) qb t with
      | inr e => inr e
      | inl (qb, t) => crypto_frames fs qb t
      end
  end.

(** The first byte that has not come. *)
Definition front (fs : list segment) (x : Z) : Prop :=
  0 <= x /\ (forall y, 0 <= y < x -> covered fs y = true) /\ covered fs x = false.

Lemma front_unique fs x y : front fs x -> front fs y -> x = y.
Proof.
  intros (X0 & X1 & X2) (Y0 & Y1 & Y2). destruct (Z.lt_trichotomy x y) as [H|[H|H]]; [|exact H|].
  - rewrite Y1 in X2 by lia. discriminate.
  - rewrite X1 in Y2 by lia. discriminate.
Qed.

(** The library has all the bytes of [s] up to the offset. *)
Definition fed (s : list Z) (fs : list segment) (t0 : tls) (qb : buffer) (t : tls) : Prop :=
  wf qb /\ (forall x, contents qb x = pending s fs (offset qb) x) /\ offset qb <= zlen s /\
  (forall x, 0 <= x < offset qb -> covered fs x = true) /\ t = feed t0 (ztake (offset qb) s).

Lemma read_fed s fs t0 qb t : zlen s <= 2 ^ 62 -> Forall (honest s) fs -> fed s fs t0 qb t ->
  exists qb' t', match ngx_quic_read_buffer alloc qb (2 ^ 64 - 1) with
    | None => inr None
    | Some ([], qb) => inl (qb, t)
    | Some (out, qb) => match ngx_quic_crypto_input t (map bytes out) with None => inr None | Some t => inl (qb, t) end
    end = @inl _ (option Z) (qb', t') /\ fed s fs t0 qb' t' /\ covered fs (offset qb') = false.
Proof.
  intros HL Hfs (Hw & Hc & Ho & Hcov & ->). pose proof (wf_low _ Hw) as Hlow. pose proof (read_pending alloc s fs qb (2 ^ 64 - 1) Hfs Hw Hc Ho ltac:(lia)) as H.
  destruct (ngx_quic_read_buffer alloc qb (2 ^ 64 - 1)) as [[out qb']|]; [|destruct H as [k H]; rewrite memory in H; discriminate H].
  destruct H as (R1 & R2 & R3 & _ & _ & R4 & R5 & R6 & R7 & R8). pose proof (zlen_nonneg (chain_bytes out)) as Hz.
  assert (fed s fs t0 qb' (feed (feed t0 (ztake (offset qb) s)) (chain_bytes out))) as Hf.
  { split; [exact R1|]. split; [exact R4|]. split; [lia|]. split.
    - intros x Hx. destruct (Z_lt_ge_dec x (offset qb)); [apply Hcov; lia|apply R7; lia].
    - rewrite feed_app, R2, ztake_add by lia. rewrite R6 at 1. reflexivity. }
  assert (covered fs (offset qb') = false) as Hend by (destruct R8 as [R8|R8]; [lia|exact R8]).
  destruct out as [|c out].
  - exists qb', (feed t0 (ztake (offset qb) s)). split; [reflexivity|]. split; [|exact Hend]. change (chain_bytes []) with (@nil Z) in Hf. rewrite feed_nil in Hf. exact Hf.
  - rewrite input_feeds. do 2 eexists. split; [reflexivity|]. split; [exact Hf|exact Hend].
Qed.

Lemma crypto_step s fs t0 qb t f : zlen s <= 2 ^ 61 -> Forall (honest s) fs -> honest s f -> fed s fs t0 qb t -> covered fs (offset qb) = false ->
  match handle_crypto (seg_off f) (seg_len f) (seg_data f) qb t with
  | inl (qb', t') => (fed s (f :: fs) t0 qb' t' /\ covered (f :: fs) (offset qb') = false) /\ seg_off f + seg_len f <= offset qb + NGX_QUIC_MAX_BUFFERED
  | inr e => e = Some NGX_QUIC_ERR_CRYPTO_BUFFER_EXCEEDED /\ seg_off f + seg_len f > offset qb + NGX_QUIC_MAX_BUFFERED
  end.
Proof.
  intros HL Hfs Hf Hfed Hout. pose proof Hfed as (Hw & Hc & Ho & Hcov & Ht). pose proof Hf as (F1 & F2 & F3 & _). pose proof (wf_low _ Hw) as Hlow.
  pose proof (zlen_nonneg (concat (seg_data f))) as Hlen. fold (seg_len f) in Hlen. unfold ngx_quic_handle_crypto_frame. rewrite (u64_small (seg_off f + seg_len f)) by lia. cbn zeta.
  rewrite u64_small by (unfold NGX_QUIC_MAX_BUFFERED; lia).
  destruct (seg_off f + seg_len f >? offset qb + NGX_QUIC_MAX_BUFFERED) eqn:E1; [split; [reflexivity|lia]|].
  assert (Forall (honest s) (f :: fs)) as Hfs' by (constructor; assumption).
  destruct (seg_off f + seg_len f <=? offset qb) eqn:E2.
  { assert (forall x, offset qb <= x -> covered (f :: fs) x = covered fs x) as Hsame.
    { intros x Hx. cbn [covered existsb]. fold (covered fs x). replace ((seg_off f <=? x) && (x <? seg_off f + seg_len f)) with false by lia. reflexivity. }
    split; [|lia]. split; [|rewrite Hsame by lia; exact Hout]. split; [exact Hw|]. split; [|split; [exact Ho|split; [apply covered_more, Hcov|exact Ht]]].
    intros x. rewrite Hc. unfold pending. destruct (offset qb <=? x) eqn:E; [cbn [andb]; rewrite Hsame by lia; reflexivity|reflexivity]. }
  assert (exists qb1 t1, match (if seg_off f =? offset qb
      then match ngx_quic_crypto_input t (seg_data f) with None => None | Some t => Some (ngx_quic_skip_buffer qb (seg_off f + seg_len f), t) end
      else match ngx_quic_write_buffer alloc garbage qb (seg_data f) (seg_len f) (seg_off f) with Some (Some (qb, _)) => Some (qb, t) | _ => None end)
      with None => False | Some (qb2, t2) => qb2 = qb1 /\ t2 = t1 end /\ fed s (f :: fs) t0 qb1 t1) as (qb1 & t1 & H1 & H2).
  { destruct (seg_off f =? offset qb) eqn:E3.
    - rewrite input_feeds. do 2 eexists. split; [split; reflexivity|]. destruct (skip_spec qb (seg_off f + seg_len f) Hw ltac:(lia)) as (S1 & S2 & _ & S3).
      assert (seg_off f = offset qb) as Eo by lia. split; [exact S1|]. rewrite S2. split; [|split; [lia|split]].
      + intros x. rewrite S3, Hc. unfold pending. cbn [covered existsb]. fold (covered fs x). destruct (x <? seg_off f + seg_len f) eqn:E; [replace (seg_off f + seg_len f <=? x) with false by lia; reflexivity|].
        replace (seg_off f + seg_len f <=? x) with true by lia. replace (offset qb <=? x) with true by lia. rewrite andb_false_r. reflexivity.
      + intros x Hx. cbn [covered existsb]. fold (covered fs x). destruct (Z_lt_ge_dec x (offset qb)); [rewrite Hcov by lia; apply orb_true_r|].
        replace ((seg_off f <=? x) && (x <? seg_off f + seg_len f)) with true by lia. reflexivity.
      + rewrite Ht, feed_app, F3, Eo, ztake_add by lia. reflexivity.
    - pose proof (write_spec alloc garbage qb (seg_data f) (seg_len f) (seg_off f) garbage_len Hw Hlen F1 ltac:(fold (seg_len f); lia)) as H.
      destruct (ngx_quic_write_buffer alloc garbage qb (seg_data f) (seg_len f) (seg_off f)) as [[[qb' l]|]|]; [|destruct H as [n H]; rewrite memory in H; discriminate H|destruct H].
      destruct H as (W1 & W2 & w & W3 & W4 & W5 & _). do 2 eexists. split; [split; reflexivity|]. rewrite (written_all _ _ _ W3 W4) in W5.
      split; [exact W1|]. rewrite W2. split; [|split; [exact Ho|split; [apply covered_more, Hcov|exact Ht]]].
      intros x. rewrite W5. apply put_honest; assumption. }
  destruct (if seg_off f =? offset qb then _ else _) as [[qb2 t2]|]; [|destruct H1]. destruct H1 as [-> ->].
  destruct (read_fed s (f :: fs) t0 qb1 t1 ltac:(lia) Hfs' H2) as (qb' & t' & -> & H3 & H4). split; [split; assumption|lia].
Qed.

End CryptoOrder.

(** ** Properties *)

(** C31: A stream is delivered as it was sent: from frames with any segments of
    its bytes, in any order, split, repeated and overlapping, between reads of
    any sizes, the application gets the bytes from the first one on, without
    a gap and each once.  A read gives bytes as long as the next one has come,
    the end of the stream exactly when all were read and the last frame has
    come, and NGX_AGAIN otherwise.  With credit for the stream and with memory
    no handler fails. *)
Theorem stream_delivers alloc garbage alloc_frame id s window c es :
  (forall n, alloc n = true) -> (forall n, zlen (garbage n) = NGX_QUIC_BUFFER_SIZE) -> (forall l, alloc_frame l = true) ->
  zlen s <= 2 ^ 62 -> credit s (qc_recv_last c + zlen s) (new_receiver window) c -> Forall (honest_event s) es ->
  exists r c' out,
    receive alloc garbage alloc_frame id es (new_receiver window) c = inl (r, c', out) /\ out = ztake (recv_offset r) s /\
    forall n, 0 < n -> exists r' c'' res, ngx_quic_stream_recv alloc alloc_frame id n r c' = Some (r', c'', res) /\ read_result s (segments es) n r r' res.
Proof.
  intros Hm Hg Hf HL Hk He.
  destruct (receive_delivers alloc garbage alloc_frame id Hm Hg Hf s (qc_recv_last c + zlen s) es HL He [] (new_receiver window) c) as (r & c' & out & E & Hd & Hk' & Eo & Hfs);
    [apply Forall_nil_2|apply new_delivers|exact Hk|]. exists r, c', out. split; [exact E|]. split; [exact Eo|]. intros n Hn.
  destruct (recv_delivers alloc alloc_frame id Hm Hf s (rev (segments es) ++ []) (qc_recv_last c + zlen s) r c' n HL Hfs Hn Hd Hk') as (r' & c'' & res & E' & _ & _ & Hr). exists r', c'', res. split; [exact E'|].
  rewrite app_nil_r in Hr. eapply read_result_ext; [| |exact Hr]; [intros x; apply existsb_rev|apply existsb_rev].
Qed.

Lemma existsb_same {A} (p : A -> bool) l1 l2 : (forall x, x ∈ l1 <-> x ∈ l2) -> existsb p l1 = existsb p l2.
Proof.
  intros H. apply eq_true_iff_eq. rewrite !existsb_exists. setoid_rewrite <-list_elem_of_In. split; intros (x & Hx & Hp); exists x; (split; [apply H, Hx|exact Hp]).
Qed.

Lemma segments_in es f : f ∈ segments es <-> Frame_in f ∈ es.
Proof.
  unfold segments. rewrite list_elem_of_omap. split; [intros ([g|n] & Hx & E); [injection E as ->; exact Hx|discriminate E]|]. intros H. exists (Frame_in f). auto.
Qed.

(** C30: The two ends of a stream: whatever an application writes, in pieces
    that are taken as the buffer allows, while limits are raised and frames
    are acknowledged, is cut into consecutive frames within the limits of the
    stream and of the connection, as far as these allow, with the last flag on
    the last byte once the stream was shut down and not before.  And whatever
    happens to these frames on their way, lost, repeated or reordered, the
    application of the other side gets what was written from the first byte
    on; when all of them have come it gets everything, and then the end of
    the stream if it was shut down. *)
Theorem stream_end_to_end alloc garbage alloc_frame id initial_max_data stream_buffer_size limit c0 s closing q c :
  (forall n, alloc n = true) -> (forall n, zlen (garbage n) = NGX_QUIC_BUFFER_SIZE) -> (forall l, alloc_frame l = true) ->
  0 <= initial_max_data < 2 ^ 62 -> 0 <= stream_buffer_size < 2 ^ 61 -> fair id limit c0 ->
  sent_to alloc garbage alloc_frame id initial_max_data stream_buffer_size limit c0 (s, closing, q, c) ->
  let fs := stream_segments id (queued c) in
  concat (concat (map seg_data fs)) = ztake (send_offset q) s /\
  send_offset q <= send_max_data q /\ qc_send_offset c <= qc_send_max_data c /\
  (send_offset q = zlen s \/ send_offset q = send_max_data q \/ qc_send_offset c = qc_send_max_data c) /\
  (fin_seen fs = true <-> closing = true /\ send_offset q = zlen s) /\
  forall window c1 es, credit s (qc_recv_last c1 + zlen s) (new_receiver window) c1 ->
    Forall (fun e => match e with Frame_in f => f ∈ fs | Recv n => 0 < n end) es ->
    exists r c2 out, receive alloc garbage alloc_frame id es (new_receiver window) c1 = inl (r, c2, out) /\ out = ztake (recv_offset r) s /\
      ((forall f, f ∈ fs -> f ∈ segments es) -> forall n, 0 < n ->
       exists r' c3 res, ngx_quic_stream_recv alloc alloc_frame id n r c2 = Some (r', c3, res) /\
         let left := send_offset q - recv_offset r in
         res = if 0 <? left then Bytes (ztake (Z.min n left) (zdrop (recv_offset r) s)) else if fin_seen fs then Eof else Again).
Proof.
  intros Hm Hg Hf Hi Hbs Hfair H fs.
  destruct (sent_to_sending alloc garbage alloc_frame id initial_max_data stream_buffer_size Hm Hg Hf Hi Hbs limit c0 s closing q c Hfair H) as ((Hs & _ & Hst) & Hset & Hfl).
  fold fs in Hs, Hst. pose proof Hs as [E1 E2 E3 E4 (E5 & E5' & E5'') E6 E7 E8 E9 (E10 & E10' & E10'')].
  split; [destruct (cuts_bytes s fs 0 _ ltac:(lia) E8) as [_ Hb]; rewrite Hb, Z.sub_0_r; reflexivity|]. split; [lia|]. split; [lia|]. split; [exact Hfl|].
  assert (fin_seen fs = true <-> closing = true /\ send_offset q = zlen s) as Hfin.
  { unfold settled in Hset. destruct (send_state q); try contradiction.
    - destruct Hst as (-> & _ & -> & _). split; [discriminate|intros [? _]; discriminate].
    - destruct Hst as (_ & ->). split; [discriminate|]. intros [Hc Ho]. destruct (Hset eq_refl Hc Ho).
    - tauto.
    - tauto. }
  split; [exact Hfin|]. intros window c1 es Hk He. pose proof (cuts_honest s fs 0 _ (Z.le_refl 0) E8) as Hhon. rewrite Forall_forall in Hhon.
  assert (Forall (honest_event s) es) as He'.
  { eapply Forall_impl; [exact He|]. intros [f|n] Hx; [apply Hhon, Hx|exact Hx]. }
  destruct (receive_delivers alloc garbage alloc_frame id Hm Hg Hf s (qc_recv_last c1 + zlen s) es ltac:(lia) He' [] (new_receiver window) c1) as (r & c2 & out & E & Hd & Hk' & Eo & Hfs);
    [apply Forall_nil_2|apply new_delivers|exact Hk|]. exists r, c2, out. split; [exact E|]. split; [exact Eo|]. intros Hall n Hn.
  destruct (recv_delivers alloc alloc_frame id Hm Hf s (rev (segments es) ++ []) (qc_recv_last c1 + zlen s) r c2 n ltac:(lia) Hfs Hn Hd Hk') as (r' & c3 & res & E' & Hd' & _ & Hr).
  exists r', c3, res. split; [exact E'|]. cbv zeta. rewrite app_nil_r in *.
  assert (forall p, existsb p (rev (segments es)) = existsb p fs) as Hsame.
  { intros p. rewrite existsb_rev. apply existsb_same. intros f. split; [|apply Hall]. intros Hx. apply segments_in in Hx. rewrite Forall_forall in He. apply (He _ Hx). }
  assert (forall x, 0 <= x -> covered (rev (segments es)) x = (x <? send_offset q)) as Hcov.
  { intros x Hx. unfold covered. rewrite Hsame. fold (covered fs x). rewrite (cuts_covered s fs 0 _ x ltac:(lia) E8). lia. }
  assert (fin_seen (rev (segments es)) = fin_seen fs) as Hfin' by apply Hsame. pose proof (wf_low _ (d_wf _ _ _ Hd)) as Hlow. rewrite (d_offset _ _ _ Hd) in Hlow.
  assert (recv_offset r <= send_offset q) as Hle.
  { destruct (Z_le_gt_dec (recv_offset r) (send_offset q)) as [|Hgt]; [assumption|exfalso]. pose proof (d_got _ _ _ Hd (send_offset q) ltac:(lia)) as Hgot. rewrite Hcov in Hgot by lia. lia. }
  destruct res as [b| | |]; cbn [read_result] in Hr; rewrite ?Hfin' in Hr; [| | |destruct Hr].
  - destruct Hr as (Hb & Eoff & Eb & Hend). rewrite Eoff in Hend. rewrite Hcov in Hend by lia.
    assert (recv_offset r + zlen b <= send_offset q) as Hb'.
    { destruct (Z_le_gt_dec (recv_offset r + zlen b) (send_offset q)) as [|Hgt]; [assumption|exfalso]. pose proof (d_got _ _ _ Hd' (send_offset q) ltac:(lia)) as Hgot. rewrite Hcov in Hgot by lia. lia. }
    replace (0 <? send_offset q - recv_offset r) with true by lia. rewrite Eb. repeat f_equal. lia.
  - destruct Hr as (Eoff & _ & Efin). pose proof (proj1 Hfin Efin) as [_ Eall]. rewrite Efin. replace (0 <? send_offset q - recv_offset r) with false by lia. reflexivity.
  - destruct Hr as (Hc & _ & Hne). rewrite Hcov in Hc by lia. replace (0 <? send_offset q - recv_offset r) with false by lia.
    destruct (fin_seen fs) eqn:Ef; [|reflexivity]. destruct (proj1 Hfin eq_refl) as [_ Eall]. specialize (Hne ltac:(lia)). discriminate.
Qed.

Lemma fed_front tls (feed : tls -> list Z -> tls) s fs t0 qb t :
  fed tls feed s fs t0 qb t -> covered fs (offset qb) = false -> front fs (offset qb).
Proof. intros (Hw & _ & _ & Hc & _) Hf. pose proof (wf_low _ Hw). split; [lia|]. split; [exact Hc|exact Hf]. Qed.

Lemma crypto_frames_fed alloc garbage tls input (feed : tls -> list Z -> tls) s t0 :
  (forall n, alloc n = true) -> (forall n, zlen (garbage n) = NGX_QUIC_BUFFER_SIZE) -> (forall t l, input t l = Some (feed t (concat l))) ->
  (forall t, feed t [] = t) -> (forall t a b, feed (feed t a) b = feed t (a ++ b)) -> zlen s <= 2 ^ 61 ->
  forall fs seen qb t, Forall (honest s) fs -> Forall (honest s) seen -> fed tls feed s seen t0 qb t -> covered seen (offset qb) = false ->
  match crypto_frames alloc garbage tls input fs qb t with
  | inl (qb', t') => (fed tls feed s (rev fs ++ seen) t0 qb' t' /\ covered (rev fs ++ seen) (offset qb') = false) /\
      forall fs1 f fs2 x, fs = fs1 ++ f :: fs2 -> front (rev fs1 ++ seen) x -> seg_off f + seg_len f <= x + NGX_QUIC_MAX_BUFFERED
  | inr e => e = Some NGX_QUIC_ERR_CRYPTO_BUFFER_EXCEEDED /\
      exists fs1 f fs2 x, fs = fs1 ++ f :: fs2 /\ front (rev fs1 ++ seen) x /\ seg_off f + seg_len f > x + NGX_QUIC_MAX_BUFFERED
  end.
Proof.
  intros Hm Hg Hi Hn Ha HL fs. induction fs as [|f fs IH]; intros seen qb t Hfs Hseen Hfed Hout; cbn [crypto_frames].
  { split; [split; assumption|]. intros [|? ?] ? ? ? H; discriminate H. }
  apply Forall_cons in Hfs as [Hf Hfs]. pose proof (crypto_step alloc garbage tls input Hm Hg feed Hi Hn Ha s seen t0 qb t f HL Hseen Hf Hfed Hout) as H.
  pose proof (fed_front _ _ _ _ _ _ _ Hfed Hout) as Hfront.
  destruct (ngx_quic_handle_crypto_frame _ _ _ _ _ _ _ _ _) as [[qb' t']|e].
  - destruct H as [[H1 H2] H3]. specialize (IH (f :: seen) qb' t' Hfs ltac:(constructor; assumption) H1 H2). cbn [rev]. rewrite <-app_assoc.
    destruct (crypto_frames _ _ _ _ fs qb' t') as [[qb'' t'']|e].
    + destruct IH as [I1 I2]. split; [exact I1|]. intros [|f0 fs1] f1 fs2 x [= <- E] Hx.
      * rewrite <-(front_unique _ _ _ Hfront Hx). exact H3.
      * apply (I2 fs1 f1 fs2 x E). cbn [rev] in Hx. rewrite <-app_assoc in Hx. exact Hx.
    + destruct IH as (-> & fs1 & g & fs2 & x & -> & Hx & Hl). split; [reflexivity|]. exists (f :: fs1), g, fs2, x.
      split; [reflexivity|]. split; [|exact Hl]. cbn [rev]. rewrite <-app_assoc. exact Hx.
  - destruct H as [-> H]. split; [reflexivity|]. exists [], f, fs, (offset qb). split; [reflexivity|]. split; [exact Hfront|exact H].
Qed.

Lemma front_rev fs x : front (rev fs ++ []) x <-> front fs x.
Proof.
  rewrite app_nil_r. assert (forall x, covered (rev fs) x = covered fs x) as Hr by (intros y; apply existsb_rev).
  unfold front. setoid_rewrite Hr. reflexivity.
Qed.

(** C33: CRYPTO frames with any segments of the handshake's bytes, in any
    order, split, repeated and overlapping, are given to the TLS library as
    the bytes themselves: from the first one on, in order, without a gap and
    each once, exactly as far as they have come without a gap.  With memory,
    the handler fails exactly at the first frame that ends more than
    NGX_QUIC_MAX_BUFFERED bytes after the first byte that had not come when
    the frame came, and then with CRYPTO_BUFFER_EXCEEDED. *)
Theorem crypto_in_order alloc garbage tls input (feed : tls -> list Z -> tls) s fs t0 :
  (forall n, alloc n = true) -> (forall n, zlen (garbage n) = NGX_QUIC_BUFFER_SIZE) -> (forall t l, input t l = Some (feed t (concat l))) ->
  (forall t, feed t [] = t) -> (forall t a b, feed (feed t a) b = feed t (a ++ b)) -> zlen s <= 2 ^ 61 -> Forall (honest s) fs ->
  match crypto_frames alloc garbage tls input fs empty_buffer t0 with
  | inl (qb, t) => t = feed t0 (ztake (offset qb) s) /\ front fs (offset qb) /\
      forall fs1 f fs2 x, fs = fs1 ++ f :: fs2 -> front fs1 x -> seg_off f + seg_len f <= x + NGX_QUIC_MAX_BUFFERED
  | inr e => e = Some NGX_QUIC_ERR_CRYPTO_BUFFER_EXCEEDED /\
      exists fs1 f fs2 x, fs = fs1 ++ f :: fs2 /\ front fs1 x /\ seg_off f + seg_len f > x + NGX_QUIC_MAX_BUFFERED
  end.
Proof.
  intros Hm Hg Hi Hn Ha HL Hfs. assert (fed tls feed s [] t0 empty_buffer t0) as H0.
  { pose proof (new_delivers s 0) as [D1 D2 D3 _ _ _ D7 _ _]. split; [exact D1|]. split; [exact D3|]. split; [exact D7|]. split; [cbn; lia|]. symmetry. apply Hn. }
  pose proof (crypto_frames_fed alloc garbage tls input feed s t0 Hm Hg Hi Hn Ha HL fs [] empty_buffer t0 Hfs ltac:(constructor) H0 eq_refl) as H.
  destruct (crypto_frames _ _ _ _ _ _ _) as [[qb t]|e].
  - destruct H as [[Hfed Hout] H]. split; [apply Hfed|]. split; [apply front_rev; eapply fed_front; eassumption|].
    intros fs1 f fs2 x E Hx. apply (H fs1 f fs2 x E), front_rev, Hx.
  - destruct H as (-> & fs1 & f & fs2 & x & E & Hx & Hl). split; [reflexivity|]. exists fs1, f, fs2, x. split; [exact E|]. split; [apply front_rev, Hx|exact Hl].
Qed.

(** ** Concrete streams *)

Definition sample_stream : list Z := [11; 12; 13; 14; 15].
Definition sample_garbage : nat -> list Z := fun _ => repeat 7 (Z.to_nat NGX_QUIC_BUFFER_SIZE).
Definition sample_streams : streams := mk_streams 0 1000 0 1000 0 0 1000 [].

(** The end comes first, and a read in between. *)
Definition sample_events : list event :=
  [Frame_in (mk_segment 3 [[14]; [15]] true); Recv 10; Frame_in (mk_segment 0 [[11; 12]] false); Recv 1; Frame_in (mk_segment 1 [[12]; [13; 14]] false)].

Lemma sample_honest : Forall (honest_event sample_stream) sample_events.
Proof.
  repeat (apply Forall_cons; split; [cbn [honest_event]; try (vm_compute; reflexivity); repeat split; vm_compute; try reflexivity; try discriminate|]). apply Forall_nil_2.
Qed.

Lemma sample_garbage_len n : zlen (sample_garbage n) = NGX_QUIC_BUFFER_SIZE.
Proof. vm_compute. reflexivity. Qed.

Lemma sample_credit : credit sample_stream (qc_recv_last sample_streams + zlen sample_stream) (new_receiver 100) sample_streams.
Proof. repeat split; vm_compute; try reflexivity; discriminate. Qed.

Lemma crypto_in_order_witness :
  option_map snd (match crypto_frames (fun _ => true) sample_garbage (list Z) (fun t l => Some (t ++ concat l)) (segments sample_events) empty_buffer [] with inl x => Some x | inr _ => None end) = Some sample_stream /\
  match crypto_frames (fun _ => true) sample_garbage (list Z) (fun t l => Some (t ++ concat l)) [mk_segment 3 [[14]; [15]] true; mk_segment 0 [[11; 12]] false] empty_buffer [] with
  | inl (qb, t) => offset qb = 2 /\ t = [11; 12]
  | inr _ => False
  end.
Proof.
  split; [vm_compute; reflexivity|].
  pose proof (crypto_in_order (fun _ => true) sample_garbage (list Z) (fun t l => Some (t ++ concat l)) (fun t l => t ++ l) sample_stream
    [mk_segment 3 [[14]; [15]] true; mk_segment 0 [[11; 12]] false] [] (fun _ => eq_refl) sample_garbage_len (fun _ _ => eq_refl) (fun t => app_nil_r t)
    (fun t a b => eq_sym (app_assoc t a b)) ltac:(vm_compute; discriminate)
    ltac:(repeat (apply Forall_cons; split; [repeat split; vm_compute; try reflexivity; discriminate|]); apply Forall_nil_2)) as H.
  assert (match crypto_frames (fun _ => true) sample_garbage (list Z) (fun t l => Some (t ++ concat l)) [mk_segment 3 [[14]; [15]] true; mk_segment 0 [[11; 12]] false] empty_buffer [] with
    inl (qb, _) => offset qb = 2 | inr _ => False end) as E by (vm_compute; reflexivity).
  destruct (crypto_frames _ _ _ _ _ _ _) as [[qb t]|e]; [|exact E]. destruct H as [-> _]. rewrite E. split; reflexivity.
Defined.

Lemma stream_delivers_witness :
  match receive (fun _ => true) sample_garbage (fun _ => true) 4 sample_events (new_receiver 100) sample_streams with
  | inl (r, c, out) =>
      out = [11] /\ option_map snd (ngx_quic_stream_recv (fun _ => true) (fun _ => true) 4 10 r c) = Some (Bytes [12; 13; 14; 15]) /\
      exists r' c' res, ngx_quic_stream_recv (fun _ => true) (fun _ => true) 4 10 r c = Some (r', c', res) /\ read_result sample_stream (segments sample_events) 10 r r' res
  | inr _ => False
  end.
Proof.
  destruct (stream_delivers (fun _ => true) sample_garbage (fun _ => true) 4 sample_stream 100 sample_streams sample_events (fun _ => eq_refl) sample_garbage_len (fun _ => eq_refl)
    ltac:(vm_compute; discriminate) sample_credit sample_honest) as (r & c & out & E & Eo & H).
  assert (match receive (fun _ => true) sample_garbage (fun _ => true) 4 sample_events (new_receiver 100) sample_streams with
    inl (r, c, _) => recv_offset r = 1 /\ option_map snd (ngx_quic_stream_recv (fun _ => true) (fun _ => true) 4 10 r c) = Some (Bytes [12; 13; 14; 15]) | inr _ => False end) as Hr
    by (vm_compute; split; reflexivity).
  rewrite E in Hr |- *. destruct Hr as [Hr Hb]. split; [rewrite Eo, Hr; reflexivity|]. split; [exact Hb|]. apply H. lia.
Defined.

(** The stream is written in two pieces within a limit of 4, that is raised. *)
Lemma sample_sent : exists q c,
  sent_to (fun _ => true) sample_garbage (fun _ => true) 4 0 100 4 sample_streams (sample_stream, true, q, c) /\
  stream_segments 4 (queued c) = [mk_segment 0 [[11; 12; 13]] false; mk_segment 3 [[14]] false; mk_segment 4 [[15]] false; mk_segment 5 [[]] true] /\
  send_offset q = 5.
Proof.
  assert (match ngx_quic_stream_send_chain (fun _ => true) sample_garbage (fun _ => true) 4 0 100 [[11]; [12; 13]] 0 (new_sender 4) sample_streams with
    | Some (q1, c1, []) => send_state q1 = NGX_QUIC_STREAM_SEND_SEND /\
        match ngx_quic_stream_send_chain (fun _ => true) sample_garbage (fun _ => true) 4 0 100 [[14; 15]] 0 q1 c1 with
        | Some (q2, c2, []) =>
            match ngx_quic_handle_max_stream_data_frame (fun _ => true) (fun _ => true) 4 0 10 q2 c2 with
            | Some (q3, c3) => send_state q3 = NGX_QUIC_STREAM_SEND_SEND /\
                match ngx_quic_shutdown_stream_send (fun _ => true) (fun _ => true) 4 0 q3 c3 with
                | Some (q, c) =>
                    stream_segments 4 (queued c) = [mk_segment 0 [[11; 12; 13]] false; mk_segment 3 [[14]] false; mk_segment 4 [[15]] false; mk_segment 5 [[]] true] /\
                    send_offset q = 5
                | None => False
                end
            | None => False
            end
        | _ => False
        end
    | _ => False
    end) as H by (vm_compute; repeat split).
  destruct (ngx_quic_stream_send_chain _ _ _ _ _ _ [[11]; [12; 13]] _ _ _) as [[[q1 c1] [|]]|] eqn:E1; [|destruct H|destruct H]. destruct H as [S1 H].
  destruct (ngx_quic_stream_send_chain _ _ _ _ _ _ [[14; 15]] _ _ _) as [[[q2 c2] [|]]|] eqn:E2; [|destruct H|destruct H].
  destruct (ngx_quic_handle_max_stream_data_frame _ _ _ _ _ _) as [[q3 c3]|] eqn:E3; [|destruct H]. destruct H as [S3 H].
  destruct (ngx_quic_shutdown_stream_send _ _ _ _ _ _) as [[q c]|] eqn:E4; [|destruct H]. exists q, c. split; [|exact H].
  eapply Sent_step; [eapply Sent_step; [eapply Sent_step; [eapply Sent_step; [apply Sent_start|]|]|]|].
  - eapply (Step_send _ _ _ _ _ _ [] _ _ [[11]; [12; 13]] 0 _ _ _ [11; 12; 13]); [left; reflexivity|lia|vm_compute; discriminate|exact E1|reflexivity].
  - eapply (Step_send _ _ _ _ _ _ [11; 12; 13] _ _ [[14; 15]] 0 _ _ _ [14; 15]); [right; exact S1|lia|vm_compute; discriminate|exact E2|reflexivity].
  - eapply (Step_limit _ _ _ _ _ _ _ _ _ _ 10); [lia|exact E3].
  - apply Step_shutdown; [right; exact S3|exact E4].
Qed.

Lemma stream_end_to_end_witness : exists q c,
  stream_segments 4 (queued c) = [mk_segment 0 [[11; 12; 13]] false; mk_segment 3 [[14]] false; mk_segment 4 [[15]] false; mk_segment 5 [[]] true] /\
  fin_seen (stream_segments 4 (queued c)) = true /\ concat (concat (map seg_data (stream_segments 4 (queued c)))) = ztake (send_offset q) sample_stream.
Proof.
  destruct sample_sent as (q & c & Hsent & H & Ho). exists q, c. split; [exact H|].
  pose proof (stream_end_to_end (fun _ => true) sample_garbage (fun _ => true) 4 0 100 4 sample_streams sample_stream true q c (fun _ => eq_refl) sample_garbage_len (fun _ => eq_refl)
    ltac:(lia) ltac:(lia) ltac:(repeat split; vm_compute; try reflexivity; discriminate) Hsent) as (Hb & _ & _ & _ & Hfin & _).
  split; [apply Hfin; split; [reflexivity|exact Ho]|exact Hb].
Defined.

(** The final size of a RESET_STREAM frame is checked against the limit of the
    connection only: the state is set before ngx_quic_control_flow(). *)
Example reset_beyond_limit :
  match ngx_quic_handle_reset_stream_frame (fun _ => true) 4 500 (new_receiver 100) sample_streams with
  | inl (r, _) => recv_last r = 500 /\ recv_max_data r = 100
  | inr _ => False
  end /\
  ngx_quic_handle_stream_frame (fun _ => true) sample_garbage 500 0 true [] (new_receiver 100) sample_streams = inr (Some NGX_QUIC_ERR_FLOW_CONTROL_ERROR).
Proof. split; [vm_compute; split; reflexivity|vm_compute; reflexivity]. Qed.

End QuicStream.
