(* ===== verification/HttpRequest.v ===== *)
(** * HTTP request: the fields the request line parser sets

    The part of [ngx_http_request_t] ([src/http/ngx_http_request.h]) that
    ngx_http_parse_request_line() and ngx_http_parse_uri() read and write,
    and a setter per field.  Pointers are offsets into the client header
    buffer. *)

From Stdlib Require Import String Ascii ZArith Bool Lia ZifyBool List.
From S2P Require Import Prelude.
Import ListNotations.
Local Open Scope Z_scope.

(** ** Methods and parser return codes *)

Definition NGX_HTTP_UNKNOWN : Z := 0x1.
Definition NGX_HTTP_GET : Z := 0x2.
Definition NGX_HTTP_HEAD : Z := 0x4.
Definition NGX_HTTP_POST : Z := 0x8.
Definition NGX_HTTP_PUT : Z := 0x10.
Definition NGX_HTTP_DELETE : Z := 0x20.
Definition NGX_HTTP_MKCOL : Z := 0x40.
Definition NGX_HTTP_COPY : Z := 0x80.
Definition NGX_HTTP_MOVE : Z := 0x100.
Definition NGX_HTTP_OPTIONS : Z := 0x200.
Definition NGX_HTTP_PROPFIND : Z := 0x400.
Definition NGX_HTTP_PROPPATCH : Z := 0x800.
Definition NGX_HTTP_LOCK : Z := 0x1000.
Definition NGX_HTTP_UNLOCK : Z := 0x2000.
Definition NGX_HTTP_PATCH : Z := 0x4000.
Definition NGX_HTTP_TRACE : Z := 0x8000.
Definition NGX_HTTP_CONNECT : Z := 0x10000.

Definition NGX_HTTP_PARSE_HEADER_DONE : Z := 1.
Definition NGX_HTTP_PARSE_INVALID_METHOD : Z := 10.
Definition NGX_HTTP_PARSE_INVALID_REQUEST : Z := 11.
Definition NGX_HTTP_PARSE_INVALID_VERSION : Z := 12.
Definition NGX_HTTP_PARSE_INVALID_09_METHOD : Z := 13.
Definition NGX_HTTP_PARSE_INVALID_HEADER : Z := 14.

(** ** The request *)

Record request := mk_request {
  request_start : option nat;
  request_end : option nat;
  method_end : option nat;
  schema_start : option nat;
  schema_end : option nat;
  host_start : option nat;
  host_end : option nat;
  port_end : option nat;
  uri_start : option nat;
  uri_end : option nat;
  uri_ext : option nat;
  args_start : option nat;
  http_protocol : option nat;
  method : Z;
  http_major : Z;
  http_minor : Z;
  http_version : Z;
  complex_uri : bool;
  quoted_uri : bool;
  plus_in_uri : bool;
  empty_path_in_uri : bool
}.

Definition set_request_start (v : option nat) (r : request) : request :=
  mk_request v (request_end r) (method_end r) (schema_start r) (schema_end r)
    (host_start r) (host_end r) (port_end r) (uri_start r) (uri_end r)
    (uri_ext r) (args_start r) (http_protocol r) (method r)
    (http_major r) (http_minor r) (http_version r) (complex_uri r)
    (quoted_uri r) (plus_in_uri r) (empty_path_in_uri r).

Definition set_request_end (v : option nat) (r : request) : request :=
  mk_request (request_start r) v (method_end r) (schema_start r) (schema_end r)
    (host_start r) (host_end r) (port_end r) (uri_start r) (uri_end r)
    (uri_ext r) (args_start r) (http_protocol r) (method r)
    (http_major r) (http_minor r) (http_version r) (complex_uri r)
    (quoted_uri r) (plus_in_uri r) (empty_path_in_uri r).

Definition set_method_end (v : option nat) (r : request) : request :=
  mk_request (request_start r) (request_end r) v (schema_start r) (schema_end
    r) (host_start r) (host_end r) (port_end r) (uri_start r) (uri_end
    r) (uri_ext r) (args_start r) (http_protocol r) (method r)
    (http_major r) (http_minor r) (http_version r) (complex_uri r)
    (quoted_uri r) (plus_in_uri r) (empty_path_in_uri r).

Definition set_schema_start (v : option nat) (r : request) : request :=
  mk_request (request_start r) (request_end r) (method_end r) v (schema_end r)
    (host_start r) (host_end r) (port_end r) (uri_start r) (uri_end r)
    (uri_ext r) (args_start r) (http_protocol r) (method r)
    (http_major r) (http_minor r) (http_version r) (complex_uri r)
    (quoted_uri r) (plus_in_uri r) (empty_path_in_uri r).

Definition set_schema_end (v : option nat) (r : request) : request :=
  mk_request (request_start r) (request_end r) (method_end r) (schema_start r)
    v (host_start r) (host_end r) (port_end r) (uri_start r) (uri_end
    r) (uri_ext r) (args_start r) (http_protocol r) (method r)
    (http_major r) (http_minor r) (http_version r) (complex_uri r)
    (quoted_uri r) (plus_in_uri r) (empty_path_in_uri r).

Definition set_host_start (v : option nat) (r : request) : request :=
  mk_request (request_start r) (request_end r) (method_end r) (schema_start r)
    (schema_end r) v (host_end r) (port_end r) (uri_start r) (uri_end
    r) (uri_ext r) (args_start r) (http_protocol r) (method r)
    (http_major r) (http_minor r) (http_version r) (complex_uri r)
    (quoted_uri r) (plus_in_uri r) (empty_path_in_uri r).

Definition set_host_end (v : option nat) (r : request) : request :=
  mk_request (request_start r) (request_end r) (method_end r) (schema_start r)
    (schema_end r) (host_start r) v (port_end r) (uri_start r)
    (uri_end r) (uri_ext r) (args_start r) (http_protocol r) (method
    r) (http_major r) (http_minor r) (http_version r) (complex_uri r)
    (quoted_uri r) (plus_in_uri r) (empty_path_in_uri r).

Definition set_port_end (v : option nat) (r : request) : request :=
  mk_request (request_start r) (request_end r) (method_end r) (schema_start r)
    (schema_end r) (host_start r) (host_end r) v (uri_start r)
    (uri_end r) (uri_ext r) (args_start r) (http_protocol r) (method
    r) (http_major r) (http_minor r) (http_version r) (complex_uri r)
    (quoted_uri r) (plus_in_uri r) (empty_path_in_uri r).

Definition set_uri_start (v : option nat) (r : request) : request :=
  mk_request (request_start r) (request_end r) (method_end r) (schema_start r)
    (schema_end r) (host_start r) (host_end r) (port_end r) v (uri_end
    r) (uri_ext r) (args_start r) (http_protocol r) (method r)
    (http_major r) (http_minor r) (http_version r) (complex_uri r)
    (quoted_uri r) (plus_in_uri r) (empty_path_in_uri r).

Definition set_uri_end (v : option nat) (r : request) : request :=
  mk_request (request_start r) (request_end r) (method_end r) (schema_start r)
    (schema_end r) (host_start r) (host_end r) (port_end r) (uri_start
    r) v (uri_ext r) (args_start r) (http_protocol r) (method r)
    (http_major r) (http_minor r) (http_version r) (complex_uri r)
    (quoted_uri r) (plus_in_uri r) (empty_path_in_uri r).

Definition set_uri_ext (v : option nat) (r : request) : request :=
  mk_request (request_start r) (request_end r) (method_end r) (schema_start r)
    (schema_end r) (host_start r) (host_end r) (port_end r) (uri_start
    r) (uri_end r) v (args_start r) (http_protocol r) (method r)
    (http_major r) (http_minor r) (http_version r) (complex_uri r)
    (quoted_uri r) (plus_in_uri r) (empty_path_in_uri r).

Definition set_args_start (v : option nat) (r : request) : request :=
  mk_request (request_start r) (request_end r) (method_end r) (schema_start r)
    (schema_end r) (host_start r) (host_end r) (port_end r) (uri_start
    r) (uri_end r) (uri_ext r) v (http_protocol r) (method r)
    (http_major r) (http_minor r) (http_version r) (complex_uri r)
    (quoted_uri r) (plus_in_uri r) (empty_path_in_uri r).

Definition set_http_protocol (v : option nat) (r : request) : request :=
  mk_request (request_start r) (request_end r) (method_end r) (schema_start r)
    (schema_end r) (host_start r) (host_end r) (port_end r) (uri_start
    r) (uri_end r) (uri_ext r) (args_start r) v (method r) (http_major
    r) (http_minor r) (http_version r) (complex_uri r) (quoted_uri r)
    (plus_in_uri r) (empty_path_in_uri r).

Definition set_method (v : Z) (r : request) : request :=
  mk_request (request_start r) (request_end r) (method_end r) (schema_start r)
    (schema_end r) (host_start r) (host_end r) (port_end r) (uri_start
    r) (uri_end r) (uri_ext r) (args_start r) (http_protocol r) v
    (http_major r) (http_minor r) (http_version r) (complex_uri r)
    (quoted_uri r) (plus_in_uri r) (empty_path_in_uri r).

Definition set_http_major (v : Z) (r : request) : request :=
  mk_request (request_start r) (request_end r) (method_end r) (schema_start r)
    (schema_end r) (host_start r) (host_end r) (port_end r) (uri_start
    r) (uri_end r) (uri_ext r) (args_start r) (http_protocol r)
    (method r) v (http_minor r) (http_version r) (complex_uri r)
    (quoted_uri r) (plus_in_uri r) (empty_path_in_uri r).

Definition set_http_minor (v : Z) (r : request) : request :=
  mk_request (request_start r) (request_end r) (method_end r) (schema_start r)
    (schema_end r) (host_start r) (host_end r) (port_end r) (uri_start
    r) (uri_end r) (uri_ext r) (args_start r) (http_protocol r)
    (method r) (http_major r) v (http_version r) (complex_uri r)
    (quoted_uri r) (plus_in_uri r) (empty_path_in_uri r).

Definition set_http_version (v : Z) (r : request) : request :=
  mk_request (request_start r) (request_end r) (method_end r) (schema_start r)
    (schema_end r) (host_start r) (host_end r) (port_end r) (uri_start
    r) (uri_end r) (uri_ext r) (args_start r) (http_protocol r)
    (method r) (http_major r) (http_minor r) v (complex_uri r)
    (quoted_uri r) (plus_in_uri r) (empty_path_in_uri r).

Definition set_complex_uri (v : bool) (r : request) : request :=
  mk_request (request_start r) (request_end r) (method_end r) (schema_start r)
    (schema_end r) (host_start r) (host_end r) (port_end r) (uri_start
    r) (uri_end r) (uri_ext r) (args_start r) (http_protocol r)
    (method r) (http_major r) (http_minor r) (http_version r) v
    (quoted_uri r) (plus_in_uri r) (empty_path_in_uri r).

Definition set_quoted_uri (v : bool) (r : request) : request :=
  mk_request (request_start r) (request_end r) (method_end r) (schema_start r)
    (schema_end r) (host_start r) (host_end r) (port_end r) (uri_start
    r) (uri_end r) (uri_ext r) (args_start r) (http_protocol r)
    (method r) (http_major r) (http_minor r) (http_version r)
    (complex_uri r) v (plus_in_uri r) (empty_path_in_uri r).

Definition set_plus_in_uri (v : bool) (r : request) : request :=
  mk_request (request_start r) (request_end r) (method_end r) (schema_start r)
    (schema_end r) (host_start r) (host_end r) (port_end r) (uri_start
    r) (uri_end r) (uri_ext r) (args_start r) (http_protocol r)
    (method r) (http_major r) (http_minor r) (http_version r)
    (complex_uri r) (quoted_uri r) v (empty_path_in_uri r).

Definition set_empty_path_in_uri (v : bool) (r : request) : request :=
  mk_request (request_start r) (request_end r) (method_end r) (schema_start r)
    (schema_end r) (host_start r) (host_end r) (port_end r) (uri_start
    r) (uri_end r) (uri_ext r) (args_start r) (http_protocol r)
    (method r) (http_major r) (http_minor r) (http_version r)
    (complex_uri r) (quoted_uri r) (plus_in_uri r) v.

(** The request of ngx_http_alloc_request(): zeroed memory with [method] and
    [http_version] set. *)
Definition new_request : request :=
  mk_request None None None None None None None None None None None None None
    NGX_HTTP_UNKNOWN 0 0 1000 false false false false.

(** ** The bitmap of the bytes that need no attention in a URI *)

Definition usual : list Z :=
  [0x00000000; 0x7fff37d6; 0xffffffff; 0x7fffffff;
   0xffffffff; 0xffffffff; 0xffffffff; 0xffffffff].

Definition is_usual (c : Z) : bool := in_bitmap usual c.

(** Every byte above the space but "#", "%", "+", ".", "/", "?" and DEL. *)
Lemma is_usual_spec c : is_byte c ->
  is_usual c =
  (c >? 32) && negb (c =? 35) && negb (c =? 37) && negb (c =? 43)
  && negb (c =? 46) && negb (c =? 47) && negb (c =? 63) && negb (c =? 127).
Proof.
  intros Hc. apply eqb_prop.
  apply (byte_forall (fun c => Bool.eqb (is_usual c)
    ((c >? 32) && negb (c =? 35) && negb (c =? 37) && negb (c =? 43)
     && negb (c =? 46) && negb (c =? 47) && negb (c =? 63) && negb (c =? 127))));
    [vm_compute; reflexivity|assumption].
Qed.

(** A byte that may appear in the URI of a parsed request line. *)
Definition uri_byte (c : Z) : bool := (c >? 32) && negb (c =? 127).
