(* ===== verification/HttpRequestLine.v ===== *)
(** * The request line: ngx_http_parse_request_line()

    Model of the state machine of [src/http/ngx_http_parse.c] that reads
    "METHOD [scheme://host[:port]]/uri[ HTTP/major.minor]CRLF", a byte at a
    time, resuming where the buffer ended. *)

From Stdlib Require Import String Ascii ZArith Bool Lia ZifyBool List.
From S2P Require Import Prelude HttpRequest.
Import ListNotations.
Local Open Scope Z_scope.

Module RequestLine.

Inductive sw :=
  | sw_start | sw_method | sw_spaces_before_uri | sw_schema | sw_schema_slash
  | sw_schema_slash_slash | sw_host_start | sw_host | sw_host_end
  | sw_host_ip_literal | sw_port | sw_after_slash_in_uri | sw_check_uri
  | sw_uri | sw_http_09 | sw_http_H | sw_http_HT | sw_http_HTT | sw_http_HTTP
  | sw_first_major_digit | sw_major_digit | sw_first_minor_digit
  | sw_minor_digit | sw_spaces_after_digit | sw_almost_done.

(** How an iteration leaves the loop: [return rc], or [goto done]. *)
Inductive exit := Return (rc : Z) | Goto_done.

(** An iteration: the state and the request, or the request and the exit
    with the position it was taken at. *)
Definition outcome : Type := ((sw * request) + (request * nat * exit))%type.

Definition next (s : sw) (r : request) : outcome := inl (s, r).
Definition return_ (rc : Z) (r : request) (p : nat) : outcome :=
  inr (r, p, Return rc).
Definition goto_done (r : request) (p : nat) : outcome := inr (r, p, Goto_done).
Definition invalid (r : request) (p : nat) : outcome :=
  return_ NGX_HTTP_PARSE_INVALID_REQUEST r p.

(** ** Method names *)

(** The comparison macros: ngx_str<n>cmp (m, c0, ...).  The build chooses
    between two forms of them, the instances below. *)
Class StrCmp := {
  ngx_str3_cmp : list Z -> nat -> Z -> Z -> Z -> Z -> bool;
  ngx_str3Ocmp : list Z -> nat -> Z -> Z -> Z -> Z -> bool;
  ngx_str4cmp : list Z -> nat -> Z -> Z -> Z -> Z -> bool;
  ngx_str5cmp : list Z -> nat -> Z -> Z -> Z -> Z -> Z -> bool;
  ngx_str6cmp : list Z -> nat -> Z -> Z -> Z -> Z -> Z -> Z -> bool;
  ngx_str7_cmp : list Z -> nat -> Z -> Z -> Z -> Z -> Z -> Z -> Z -> Z -> bool;
  ngx_str8cmp : list Z -> nat -> Z -> Z -> Z -> Z -> Z -> Z -> Z -> Z -> bool;
  ngx_str9cmp :
    list Z -> nat -> Z -> Z -> Z -> Z -> Z -> Z -> Z -> Z -> Z -> bool
}.

(** [m[i] == c] *)
Definition eq_at (mem : list Z) (m i : nat) (c : Z) : bool :=
  byte_at mem (m + i) =? c.

(** The portable form: byte by byte. *)
Definition strcmp_bytes : StrCmp := {|
  ngx_str3_cmp mem m c0 c1 c2 c3 :=
    eq_at mem m 0 c0 && eq_at mem m 1 c1 && eq_at mem m 2 c2;
  ngx_str3Ocmp mem m c0 c1 c2 c3 :=
    eq_at mem m 0 c0 && eq_at mem m 2 c2 && eq_at mem m 3 c3;
  ngx_str4cmp mem m c0 c1 c2 c3 :=
    eq_at mem m 0 c0 && eq_at mem m 1 c1 && eq_at mem m 2 c2
    && eq_at mem m 3 c3;
  ngx_str5cmp mem m c0 c1 c2 c3 c4 :=
    eq_at mem m 0 c0 && eq_at mem m 1 c1 && eq_at mem m 2 c2
    && eq_at mem m 3 c3 && eq_at mem m 4 c4;
  ngx_str6cmp mem m c0 c1 c2 c3 c4 c5 :=
    eq_at mem m 0 c0 && eq_at mem m 1 c1 && eq_at mem m 2 c2
    && eq_at mem m 3 c3 && eq_at mem m 4 c4 && eq_at mem m 5 c5;
  ngx_str7_cmp mem m c0 c1 c2 c3 c4 c5 c6 c7 :=
    eq_at mem m 0 c0 && eq_at mem m 1 c1 && eq_at mem m 2 c2
    && eq_at mem m 3 c3 && eq_at mem m 4 c4 && eq_at mem m 5 c5
    && eq_at mem m 6 c6;
  ngx_str8cmp mem m c0 c1 c2 c3 c4 c5 c6 c7 :=
    eq_at mem m 0 c0 && eq_at mem m 1 c1 && eq_at mem m 2 c2
    && eq_at mem m 3 c3 && eq_at mem m 4 c4 && eq_at mem m 5 c5
    && eq_at mem m 6 c6 && eq_at mem m 7 c7;
  ngx_str9cmp mem m c0 c1 c2 c3 c4 c5 c6 c7 c8 :=
    eq_at mem m 0 c0 && eq_at mem m 1 c1 && eq_at mem m 2 c2
    && eq_at mem m 3 c3 && eq_at mem m 4 c4 && eq_at mem m 5 c5
    && eq_at mem m 6 c6 && eq_at mem m 7 c7 && eq_at mem m 8 c8
|}.

(** [*(uint32_t * ) m] on a little-endian machine. *)
Definition load32 (mem : list Z) (m : nat) : Z :=
  byte_at mem m + 2 ^ 8 * byte_at mem (m + 1) + 2 ^ 16 * byte_at mem (m + 2)
  + 2 ^ 24 * byte_at mem (m + 3).

(** [(c3 << 24) | (c2 << 16) | (c1 << 8) | c0] *)
Definition word (c0 c1 c2 c3 : Z) : Z :=
  Z.lor (Z.lor (Z.lor (Z.shiftl c3 24) (Z.shiftl c2 16)) (Z.shiftl c1 8)) c0.

(** The form for little-endian machines that read unaligned words. *)
Definition strcmp_words : StrCmp := {|
  ngx_str3_cmp mem m c0 c1 c2 c3 := load32 mem m =? word c0 c1 c2 c3;
  ngx_str3Ocmp mem m c0 c1 c2 c3 := load32 mem m =? word c0 c1 c2 c3;
  ngx_str4cmp mem m c0 c1 c2 c3 := load32 mem m =? word c0 c1 c2 c3;
  ngx_str5cmp mem m c0 c1 c2 c3 c4 :=
    (load32 mem m =? word c0 c1 c2 c3) && eq_at mem m 4 c4;
  ngx_str6cmp mem m c0 c1 c2 c3 c4 c5 :=
    (load32 mem m =? word c0 c1 c2 c3)
    && (Z.land (load32 mem (m + 4)) 0xffff =? Z.lor (Z.shiftl c5 8) c4);
  ngx_str7_cmp mem m c0 c1 c2 c3 c4 c5 c6 c7 :=
    (load32 mem m =? word c0 c1 c2 c3)
    && (load32 mem (m + 4) =? word c4 c5 c6 c7);
  ngx_str8cmp mem m c0 c1 c2 c3 c4 c5 c6 c7 :=
    (load32 mem m =? word c0 c1 c2 c3)
    && (load32 mem (m + 4) =? word c4 c5 c6 c7);
  ngx_str9cmp mem m c0 c1 c2 c3 c4 c5 c6 c7 c8 :=
    (load32 mem m =? word c0 c1 c2 c3)
    && (load32 mem (m + 4) =? word c4 c5 c6 c7) && eq_at mem m 8 c8
|}.

(** [switch (p - m)] of the state [sw_method]; [None] when no case sets
    [r->method]. *)
Definition recognize_method `{StrCmp} (mem : list Z) (m p : nat) : option Z :=
  match (p - m)%nat with
  | 3%nat =>
      if ngx_str3_cmp mem m (chr "G") (chr "E") (chr "T") (chr " ")
      then Some NGX_HTTP_GET
      else if ngx_str3_cmp mem m (chr "P") (chr "U") (chr "T") (chr " ")
      then Some NGX_HTTP_PUT
      else None
  | 4%nat =>
      if byte_at mem (m + 1) =? chr "O" then
        if ngx_str3Ocmp mem m (chr "P") (chr "O") (chr "S") (chr "T")
        then Some NGX_HTTP_POST
        else if ngx_str3Ocmp mem m (chr "C") (chr "O") (chr "P") (chr "Y")
        then Some NGX_HTTP_COPY
        else if ngx_str3Ocmp mem m (chr "M") (chr "O") (chr "V") (chr "E")
        then Some NGX_HTTP_MOVE
        else if ngx_str3Ocmp mem m (chr "L") (chr "O") (chr "C") (chr "K")
        then Some NGX_HTTP_LOCK
        else None
      else if ngx_str4cmp mem m (chr "H") (chr "E") (chr "A") (chr "D")
      then Some NGX_HTTP_HEAD
      else None
  | 5%nat =>
      if ngx_str5cmp mem m (chr "M") (chr "K") (chr "C") (chr "O") (chr "L")
      then Some NGX_HTTP_MKCOL
      else if ngx_str5cmp mem m (chr "P") (chr "A") (chr "T") (chr "C") (chr "H")
      then Some NGX_HTTP_PATCH
      else if ngx_str5cmp mem m (chr "T") (chr "R") (chr "A") (chr "C") (chr "E")
      then Some NGX_HTTP_TRACE
      else None
  | 6%nat =>
      if ngx_str6cmp mem m (chr "D") (chr "E") (chr "L") (chr "E") (chr "T")
           (chr "E")
      then Some NGX_HTTP_DELETE
      else if ngx_str6cmp mem m (chr "U") (chr "N") (chr "L") (chr "O") (chr "C")
                (chr "K")
      then Some NGX_HTTP_UNLOCK
      else None
  | 7%nat =>
      if ngx_str7_cmp mem m (chr "C") (chr "O") (chr "N") (chr "N") (chr "E")
           (chr "C") (chr "T") (chr " ")
      then Some NGX_HTTP_CONNECT
      else if ngx_str7_cmp mem m (chr "O") (chr "P") (chr "T") (chr "I")
                (chr "O") (chr "N") (chr "S") (chr " ")
      then Some NGX_HTTP_OPTIONS
      else None
  | 8%nat =>
      if ngx_str8cmp mem m (chr "P") (chr "R") (chr "O") (chr "P") (chr "F")
           (chr "I") (chr "N") (chr "D")
      then Some NGX_HTTP_PROPFIND
      else None
  | 9%nat =>
      if ngx_str9cmp mem m (chr "P") (chr "R") (chr "O") (chr "P") (chr "P")
           (chr "A") (chr "T") (chr "C") (chr "H")
      then Some NGX_HTTP_PROPPATCH
      else None
  | _ => None
  end.

#[local] Existing Instance strcmp_bytes.

Definition ptr (o : option nat) : nat := match o with Some p => p | None => O end.

(** ** One iteration, by groups of states *)

Definition method_char (ch : Z) : bool :=
  negb (((ch <? chr "A") || (ch >? chr "Z"))
        && negb (ch =? chr "_") && negb (ch =? chr "-")).

(** [sw_start], [sw_method] *)
Definition step_method (mem : list Z) (s : sw) (r : request) (p : nat) (ch : Z)
    : outcome :=
  match s with
  | sw_start =>
      let r := set_request_start (Some p) r in
      if (ch =? CR) || (ch =? LF) then next sw_start r
      else if negb (method_char ch) then
        return_ NGX_HTTP_PARSE_INVALID_METHOD r p
      else next sw_method r
  | _ (* sw_method *) =>
      if ch =? chr " " then
        let r := set_method_end (Some (p - 1)%nat) r in
        let m := ptr (request_start r) in
        let r :=
          match recognize_method mem m p with
          | Some v => set_method v r
          | None => r
          end in
        next sw_spaces_before_uri r
      else if negb (method_char ch) then
        return_ NGX_HTTP_PARSE_INVALID_METHOD r p
      else next sw_method r
  end.

(** ["?" and " "] after the host or the port *)
Definition empty_path_args (r : request) (p : nat) : outcome :=
  next sw_uri
    (set_empty_path_in_uri true
       (set_args_start (Some (S p)) (set_uri_start (Some p) r))).

Definition empty_path (r : request) : outcome :=
  let se := ptr (schema_end r) in
  next sw_http_09
    (set_uri_end (Some (se + 2)%nat) (set_uri_start (Some (se + 1)%nat) r)).

(** The fall-through target [sw_host_end]. *)
Definition step_host_end (r : request) (p : nat) (ch : Z) : outcome :=
  let r := set_host_end (Some p) r in
  if ch =? chr ":" then next sw_port r
  else if ch =? chr "/" then
    next sw_after_slash_in_uri (set_uri_start (Some p) r)
  else if ch =? chr "?" then empty_path_args r p
  else if ch =? chr " " then empty_path r
  else invalid r p.

Definition lower_alpha (ch : Z) : bool :=
  let c := Z.lor ch 0x20 in (c >=? chr "a") && (c <=? chr "z").

Definition step_host_char (r : request) (p : nat) (ch : Z) : outcome :=
  if lower_alpha ch then next sw_host r
  else if is_digit ch || (ch =? chr ".") || (ch =? chr "-") then next sw_host r
  else step_host_end r p ch.

(** The unreserved characters and sub-delims of an IP literal. *)
Definition ip_literal_char (ch : Z) : bool :=
  existsb (Z.eqb ch) (bs "-._~!$&'()*+,;=").

(** [sw_spaces_before_uri] to [sw_schema_slash_slash] *)
Definition step_schema (s : sw) (r : request) (p : nat) (ch : Z) : outcome :=
  match s with
  | sw_spaces_before_uri =>
      if ch =? chr "/" then
        next sw_after_slash_in_uri (set_uri_start (Some p) r)
      else if lower_alpha ch then next sw_schema (set_schema_start (Some p) r)
      else if ch =? chr " " then next sw_spaces_before_uri r
      else invalid r p
  | sw_schema =>
      if lower_alpha ch then next sw_schema r
      else if is_digit ch || (ch =? chr "+") || (ch =? chr "-") || (ch =? chr ".")
      then next sw_schema r
      else if ch =? chr ":" then next sw_schema_slash (set_schema_end (Some p) r)
      else invalid r p
  | sw_schema_slash =>
      if ch =? chr "/" then next sw_schema_slash_slash r else invalid r p
  | _ (* sw_schema_slash_slash *) =>
      if ch =? chr "/" then next sw_host_start r else invalid r p
  end.

(** [sw_host_start] to [sw_port] *)
Definition step_host (s : sw) (r : request) (p : nat) (ch : Z) : outcome :=
  match s with
  | sw_host_start =>
      let r := set_host_start (Some p) r in
      if ch =? chr "[" then next sw_host_ip_literal r
      else step_host_char r p ch
  | sw_host => step_host_char r p ch
  | sw_host_end => step_host_end r p ch
  | sw_host_ip_literal =>
      if is_digit ch then next sw_host_ip_literal r
      else if lower_alpha ch then next sw_host_ip_literal r
      else if ch =? chr ":" then next sw_host_ip_literal r
      else if ch =? chr "]" then next sw_host_end r
      else if ip_literal_char ch then next sw_host_ip_literal r
      else invalid r p
  | _ (* sw_port *) =>
      if is_digit ch then next sw_port r
      else if ch =? chr "/" then
        next sw_after_slash_in_uri
          (set_uri_start (Some p) (set_port_end (Some p) r))
      else if ch =? chr "?" then empty_path_args (set_port_end (Some p) r) p
      else if ch =? chr " " then empty_path (set_port_end (Some p) r)
      else invalid r p
  end.

(** The ends of the URI: a space, CR and LF, in the three URI states. *)
Definition uri_space (r : request) (p : nat) : outcome :=
  next sw_http_09 (set_uri_end (Some p) r).
Definition uri_cr (r : request) (p : nat) : outcome :=
  next sw_almost_done (set_http_minor 9 (set_uri_end (Some p) r)).
Definition uri_lf (r : request) (p : nat) : outcome :=
  goto_done (set_http_minor 9 (set_uri_end (Some p) r)) p.
Definition control (ch : Z) : bool := (ch <? 0x20) || (ch =? 0x7f).

(** [sw_after_slash_in_uri], [sw_check_uri] and [sw_uri] *)
Definition step_uri (s : sw) (r : request) (p : nat) (ch : Z) : outcome :=
  match s with
  | sw_after_slash_in_uri =>
      if is_usual ch then next sw_check_uri r
      else if ch =? chr " " then uri_space r p
      else if ch =? CR then uri_cr r p
      else if ch =? LF then uri_lf r p
      else if ch =? chr "." then next sw_uri (set_complex_uri true r)
      else if ch =? chr "%" then next sw_uri (set_quoted_uri true r)
      else if ch =? chr "/" then next sw_uri (set_complex_uri true r)
      else if ch =? chr "?" then next sw_uri (set_args_start (Some (S p)) r)
      else if ch =? chr "#" then next sw_uri (set_complex_uri true r)
      else if ch =? chr "+" then
        next sw_after_slash_in_uri (set_plus_in_uri true r)
      else if control ch then invalid r p
      else next sw_check_uri r
  | sw_check_uri =>
      if is_usual ch then next sw_check_uri r
      else if ch =? chr "/" then
        next sw_after_slash_in_uri (set_uri_ext None r)
      else if ch =? chr "." then next sw_check_uri (set_uri_ext (Some (S p)) r)
      else if ch =? chr " " then uri_space r p
      else if ch =? CR then uri_cr r p
      else if ch =? LF then uri_lf r p
      else if ch =? chr "%" then next sw_uri (set_quoted_uri true r)
      else if ch =? chr "?" then next sw_uri (set_args_start (Some (S p)) r)
      else if ch =? chr "#" then next sw_uri (set_complex_uri true r)
      else if ch =? chr "+" then next sw_check_uri (set_plus_in_uri true r)
      else if control ch then invalid r p
      else next sw_check_uri r
  | _ (* sw_uri *) =>
      if is_usual ch then next sw_uri r
      else if ch =? chr " " then uri_space r p
      else if ch =? CR then uri_cr r p
      else if ch =? LF then uri_lf r p
      else if ch =? chr "#" then next sw_uri (set_complex_uri true r)
      else if control ch then invalid r p
      else next sw_uri r
  end.

Definition expect (c : Z) (s : sw) (r : request) (p : nat) (ch : Z) : outcome :=
  if ch =? c then next s r else invalid r p.

(** [sw_http_09] to [sw_almost_done] *)
Definition step_version (s : sw) (r : request) (p : nat) (ch : Z) : outcome :=
  match s with
  | sw_http_09 =>
      if ch =? chr " " then next sw_http_09 r
      else if ch =? CR then next sw_almost_done (set_http_minor 9 r)
      else if ch =? LF then goto_done (set_http_minor 9 r) p
      else if ch =? chr "H" then next sw_http_H (set_http_protocol (Some p) r)
      else invalid r p
  | sw_http_H => expect (chr "T") sw_http_HT r p ch
  | sw_http_HT => expect (chr "T") sw_http_HTT r p ch
  | sw_http_HTT => expect (chr "P") sw_http_HTTP r p ch
  | sw_http_HTTP => expect (chr "/") sw_first_major_digit r p ch
  | sw_first_major_digit =>
      if (ch <? chr "1") || (ch >? chr "9") then invalid r p
      else
        let r := set_http_major (ch - chr "0") r in
        if http_major r >? 1 then return_ NGX_HTTP_PARSE_INVALID_VERSION r p
        else next sw_major_digit r
  | sw_major_digit =>
      if ch =? chr "." then next sw_first_minor_digit r
      else if (ch <? chr "0") || (ch >? chr "9") then invalid r p
      else
        let r := set_http_major (http_major r * 10 + (ch - chr "0")) r in
        if http_major r >? 1 then return_ NGX_HTTP_PARSE_INVALID_VERSION r p
        else next sw_major_digit r
  | sw_first_minor_digit =>
      if (ch <? chr "0") || (ch >? chr "9") then invalid r p
      else next sw_minor_digit (set_http_minor (ch - chr "0") r)
  | sw_minor_digit =>
      if ch =? CR then next sw_almost_done r
      else if ch =? LF then goto_done r p
      else if ch =? chr " " then next sw_spaces_after_digit r
      else if (ch <? chr "0") || (ch >? chr "9") then invalid r p
      else if http_minor r >? 99 then invalid r p
      else next sw_minor_digit
             (set_http_minor (http_minor r * 10 + (ch - chr "0")) r)
  | sw_spaces_after_digit =>
      if ch =? chr " " then next sw_spaces_after_digit r
      else if ch =? CR then next sw_almost_done r
      else if ch =? LF then goto_done r p
      else invalid r p
  | _ (* sw_almost_done *) =>
      let r := set_request_end (Some (p - 1)%nat) r in
      if ch =? LF then goto_done r p else invalid r p
  end.

Definition step (mem : list Z) (sr : sw * request) (p : nat) (ch : Z) : outcome :=
  let '(s, r) := sr in
  match s with
  | sw_start | sw_method => step_method mem s r p ch
  | sw_spaces_before_uri | sw_schema | sw_schema_slash | sw_schema_slash_slash =>
      step_schema s r p ch
  | sw_host_start | sw_host | sw_host_end | sw_host_ip_literal | sw_port =>
      step_host s r p ch
  | sw_after_slash_in_uri | sw_check_uri | sw_uri => step_uri s r p ch
  | _ => step_version s r p ch
  end.

(** ** The function *)

(** What the call leaves: the return code, [r->state], the request and
    [b->pos]. *)
Record result := mk_result {
  res_rc : Z; res_state : sw; res_r : request; res_pos : nat
}.

(** The label [done]. *)
Definition finish (r : request) (p : nat) : result :=
  let r := match request_end r with
           | None => set_request_end (Some p) r
           | Some _ => r
           end in
  let r := set_http_version (http_major r * 1000 + http_minor r) r in
  if (http_version r =? 9) && negb (method r =? NGX_HTTP_GET)
  then mk_result NGX_HTTP_PARSE_INVALID_09_METHOD sw_start r (S p)
  else mk_result NGX_OK sw_start r (S p).

(** What follows the loop: out of input, [done], or a [return] that leaves
    [r->state] and [b->pos] as they were. *)
Definition conclude (state : sw) (pos : nat)
    (e : (sw * request * nat) + (request * nat * exit)) : result :=
  match e with
  | inl (s, r', p) => mk_result NGX_AGAIN s r' p
  | inr (r', p, Goto_done) => finish r' p
  | inr (r', p, Return rc) => mk_result rc state r' pos
  end.

Definition ngx_http_parse_request_line (mem : list Z) (state : sw) (r : request)
    (pos last : nat) : result :=
  conclude state pos (scan (step mem) (state, r) pos (slice mem pos last)).

Definition parse_all (l : list Z) : result :=
  ngx_http_parse_request_line l sw_start new_request 0 (length l).

Definition crlf : list Z := [13; 10].

Example parse_ex1 :
  let t := parse_all (bs "GET /a/b.html?x=1 HTTP/1.1" ++ crlf) in
  (res_rc t, res_pos t, method (res_r t), uri_start (res_r t),
   uri_end (res_r t), args_start (res_r t), uri_ext (res_r t),
   http_version (res_r t), request_end (res_r t))
  = (NGX_OK, 28%nat, NGX_HTTP_GET, Some 4%nat, Some 17%nat, Some 14%nat,
     Some 9%nat, 1001, Some 26%nat).
Proof. vm_compute. reflexivity. Qed.

Example parse_ex2 :
  let t := parse_all (bs "GET http://h:80 HTTP/1.0" ++ crlf) in
  (res_rc t, uri_start (res_r t), uri_end (res_r t), host_start (res_r t),
   host_end (res_r t), port_end (res_r t))
  = (NGX_OK, Some 9%nat, Some 10%nat, Some 11%nat, Some 12%nat, Some 15%nat).
Proof. vm_compute. reflexivity. Qed.

Example parse_ex3 : res_rc (parse_all (bs "POST /" ++ crlf)) = NGX_HTTP_PARSE_INVALID_09_METHOD.
Proof. vm_compute. reflexivity. Qed.

(** ** Resuming *)

(** The codes the loop returns. *)
Lemma step_return mem sr p ch r' p' rc :
  step mem sr p ch = inr (r', p', Return rc) ->
  rc = NGX_HTTP_PARSE_INVALID_METHOD \/ rc = NGX_HTTP_PARSE_INVALID_REQUEST
  \/ rc = NGX_HTTP_PARSE_INVALID_VERSION.
Proof.
  destruct sr as [s r]. intros H.
  destruct s; cbn [step step_method step_schema step_host step_uri step_version] in H;
    unfold step_host_char, step_host_end, expect, uri_space, uri_cr, uri_lf,
      empty_path, empty_path_args, invalid, return_, goto_done, next in H;
    cbv zeta in H; split_ifs_in H; inversion H; auto.
Qed.

Lemma scan_return mem sr p l r' p' rc :
  scan (step mem) sr p l = inr (r', p', Return rc) ->
  rc = NGX_HTTP_PARSE_INVALID_METHOD \/ rc = NGX_HTTP_PARSE_INVALID_REQUEST
  \/ rc = NGX_HTTP_PARSE_INVALID_VERSION.
Proof.
  revert sr p; induction l as [|c l IH]; intros sr p; cbn [scan]; [discriminate|].
  destruct (step mem sr p c) as [sr'|[[r2 p2] e]] eqn:E; [apply IH|].
  intros [= -> -> ->]. eapply step_return, E.
Qed.

(** ** The invariant of the machine *)

(** The first byte of the URI: "/", or "?" after a host without a path. *)
Definition uri_first (mem : list Z) (r : request) (us : nat) : Prop :=
  byte_at mem us = chr "/"
  \/ (byte_at mem us = chr "?" /\ empty_path_in_uri r = true).

(** The URI read so far. *)
Definition uri_open (mem : list Z) (r : request) (p : nat) : Prop :=
  exists us, uri_start r = Some us /\ (us < p)%nat /\ uri_first mem r us
    /\ forallb uri_byte (slice mem us p) = true.

(** The URI when its end is known. *)
Definition uri_closed (mem : list Z) (r : request) (p : nat) : Prop :=
  exists us ue, uri_start r = Some us /\ uri_end r = Some ue
    /\ (us < ue <= p)%nat /\ uri_first mem r us
    /\ forallb uri_byte (slice mem us ue) = true.

Definition version_ok (r : request) : Prop :=
  0 <= http_major r <= 1 /\ 0 <= http_minor r <= 999.

Definition schema_ok (mem : list Z) (r : request) (p : nat) : Prop :=
  exists se, schema_end r = Some se /\ (se + 2 <= p)%nat
    /\ nth_error mem (se + 1) = Some (chr "/").

Definition state_ok (mem : list Z) (s : sw) (r : request) (p : nat) : Prop :=
  match s with
  | sw_start | sw_method | sw_spaces_before_uri | sw_schema => True
  | sw_schema_slash => exists se, schema_end r = Some se /\ (se + 1 = p)%nat
  | sw_schema_slash_slash | sw_host_start | sw_host | sw_host_end
  | sw_host_ip_literal | sw_port => schema_ok mem r p
  | sw_after_slash_in_uri | sw_check_uri | sw_uri => uri_open mem r p
  | _ => uri_closed mem r p
  end.

Definition inv (mem : list Z) (p : nat) (sr : sw * request) : Prop :=
  state_ok mem (fst sr) (snd sr) p /\ version_ok (snd sr).

(** What holds when the loop is left for the label [done]. *)
Definition exit_ok (mem : list Z) (last : nat) (e : request * nat * exit) : Prop :=
  match e with
  | (r, p, Goto_done) =>
      uri_closed mem r p /\ version_ok r /\ nth_error mem p = Some LF
      /\ (p < last)%nat
  | (_, _, Return _) => True
  end.

Lemma uri_open_start mem r p ch :
  nth_error mem p = Some ch -> uri_byte ch = true ->
  uri_start r = Some p -> uri_first mem r p -> uri_open mem r (S p).
Proof.
  intros Hc Hu Hs Hf. exists p. repeat split; auto.
  apply slice_forallb_one with (c := ch); assumption.
Qed.

Lemma uri_open_next mem r r' p ch :
  uri_open mem r p -> nth_error mem p = Some ch -> uri_byte ch = true ->
  uri_start r' = uri_start r -> empty_path_in_uri r' = empty_path_in_uri r ->
  uri_open mem r' (S p).
Proof.
  intros (us & Hs & Hlt & Hf & Hb) Hc Hu E1 E2. exists us.
  rewrite E1. unfold uri_first in *. rewrite E2.
  split; [assumption|]. split; [lia|]. split; [assumption|].
  apply slice_forallb_snoc with (c := ch); assumption || lia.
Qed.

Lemma uri_open_close mem r r' p q :
  uri_open mem r p -> (p <= q)%nat -> uri_start r' = uri_start r ->
  empty_path_in_uri r' = empty_path_in_uri r -> uri_end r' = Some p ->
  uri_closed mem r' q.
Proof.
  intros (us & Hs & Hlt & Hf & Hb) Hq E1 E2 E3. exists us, p.
  rewrite E1. unfold uri_first in *. rewrite E2. repeat split; auto; lia.
Qed.

Lemma uri_closed_mono mem r r' p q :
  uri_closed mem r p -> (p <= q)%nat -> uri_start r' = uri_start r ->
  empty_path_in_uri r' = empty_path_in_uri r -> uri_end r' = uri_end r ->
  uri_closed mem r' q.
Proof.
  intros (us & ue & Hs & He & Hlt & Hf & Hb) Hq E1 E2 E3. exists us, ue.
  rewrite E1, E3. unfold uri_first in *. rewrite E2. repeat split; auto; lia.
Qed.

Lemma schema_ok_mono mem r r' p q :
  schema_ok mem r p -> (p <= q)%nat -> schema_end r' = schema_end r ->
  schema_ok mem r' q.
Proof. intros (se & H1 & H2 & H3) Hq E. exists se. rewrite E. repeat split; auto; lia. Qed.

(** The URI of a request line without a path: the slash of "://". *)
Lemma empty_path_closed mem r r' p q :
  schema_ok mem r p -> (p <= q)%nat ->
  uri_start r' = Some (ptr (schema_end r) + 1)%nat ->
  uri_end r' = Some (ptr (schema_end r) + 2)%nat ->
  uri_closed mem r' q.
Proof.
  intros (se & H1 & H2 & H3) Hq E1 E2. rewrite H1 in *. cbn [ptr] in *.
  exists (se + 1)%nat, (se + 2)%nat. repeat split; auto; try lia.
  - left. apply byte_at_nth, H3.
  - replace (se + 2)%nat with (S (se + 1)) by lia.
    apply slice_forallb_one with (c := 47); [assumption|reflexivity].
Qed.

Ltac unfold_step H :=
  cbn [step step_method step_schema step_host step_uri step_version] in H;
  unfold step_host_char, step_host_end, expect, uri_space, uri_cr, uri_lf,
    empty_path, empty_path_args, invalid, return_, goto_done, next in H;
  cbv zeta in H.

(** Closes the goals of the invariant from the lemmas above. *)
Ltac inv_solve :=
  cbn [fst snd state_ok] in *;
  first
    [ exact I
    | eapply uri_open_next; [eassumption|eassumption|unfold uri_byte, control in *; lia|reflexivity|reflexivity]
    | eapply uri_open_close; [eassumption|lia|reflexivity|reflexivity|reflexivity]
    | eapply uri_closed_mono; [eassumption|lia|reflexivity|reflexivity|reflexivity]
    | eapply schema_ok_mono; [eassumption|lia|reflexivity]
    | eapply empty_path_closed; [eassumption|lia|reflexivity|reflexivity] ].

Lemma step_inv mem p s r ch s' r' :
  bytes mem -> inv mem p (s, r) -> nth_error mem p = Some ch ->
  step mem (s, r) p ch = inl (s', r') -> inv mem (S p) (s', r').
Proof.
  intros Hm [Hs Hv] Hc H.
  pose proof (is_usual_spec ch (bytes_nth _ _ _ Hm Hc)) as Hus.
  pose proof (byte_at_nth _ _ _ Hc) as Hat.
  cbn [fst snd] in Hs, Hv.
  assert (Hslash : ch = 47 -> uri_start r' = Some p -> uri_open mem r' (S p)).
  { intros -> E. eapply uri_open_start; [eassumption|reflexivity|assumption|left; assumption]. }
  assert (Hq : ch = 63 -> uri_start r' = Some p -> empty_path_in_uri r' = true ->
               uri_open mem r' (S p)).
  { intros -> E1 E2. eapply uri_open_start; [eassumption|reflexivity|assumption|right; auto]. }
  destruct s; unfold_step H; split_ifs_in H; injection H as <- <-;
    (split; [|unfold version_ok in *; cbn [snd http_major http_minor] in *;
              try (destruct (recognize_method _ _ _)); cbn in *; lia]);
    try inv_solve; cbn [fst snd state_ok] in *;
    try (apply Hslash; [lia|reflexivity]);
    try (apply Hq; [lia|reflexivity|reflexivity]).
  - exists p. split; [reflexivity|lia].
  - destruct Hs as (se & E & <-). exists se. repeat split; auto; try lia.
    rewrite Hc. f_equal. lia.
Qed.

Lemma step_exit mem last p s r ch e :
  bytes mem -> inv mem p (s, r) -> nth_error mem p = Some ch -> (p < last)%nat ->
  step mem (s, r) p ch = inr e -> exit_ok mem last e.
Proof.
  intros Hm [Hs Hv] Hc Hl H.
  destruct s; unfold_step H; split_ifs_in H; injection H as <-;
    cbn [exit_ok]; try exact I;
    (split; [|split; [unfold version_ok in *; cbn in *; lia
                     |split; [rewrite Hc; f_equal; lia|assumption]]]);
    inv_solve.
Qed.

Lemma scan_inv mem s r pos last :
  bytes mem -> (pos <= last <= length mem)%nat -> inv mem pos (s, r) ->
  match scan (step mem) (s, r) pos (slice mem pos last) with
  | inl (sr, p) => inv mem p sr /\ p = last
  | inr e => exit_ok mem last e
  end.
Proof.
  intros Hm Hp Hi.
  apply (scan_slice_ind (step mem) mem last (inv mem) (exit_ok mem last)); try assumption.
  - intros [s1 r1] p ch [s2 r2] H1 H2 _ H3. eapply step_inv; eassumption.
  - intros [s1 r1] p ch e H1 H2 H3 H4. eapply step_exit; eassumption.
Qed.

Lemma inv_new mem p : inv mem p (sw_start, new_request).
Proof. split; [exact I|split; cbn; lia]. Qed.

Lemma finish_rc r p : res_rc (finish r p) <> NGX_AGAIN.
Proof. unfold finish. cbv zeta. split_ifs; discriminate. Qed.

(** ** The two forms of the comparison macros *)

Lemma word_sum c0 c1 c2 c3 :
  is_byte c0 -> is_byte c1 -> is_byte c2 ->
  word c0 c1 c2 c3 = c0 + 2 ^ 8 * c1 + 2 ^ 16 * c2 + 2 ^ 24 * c3.
Proof.
  intros [? ?] [? ?] [? ?]. unfold word. rewrite !Z.shiftl_mul_pow2 by lia.
  replace (c3 * 2 ^ 24) with ((c3 * 2 ^ 8) * 2 ^ 16) by ring.
  replace (Z.lor (c3 * 2 ^ 8 * 2 ^ 16) (c2 * 2 ^ 16)) with ((c3 * 2 ^ 8 + c2) * 2 ^ 16).
  2: { rewrite <- lor_disjoint by lia. rewrite <- !Z.shiftl_mul_pow2 by lia.
       apply Z.shiftl_lor. }
  replace ((c3 * 2 ^ 8 + c2) * 2 ^ 16) with ((c3 * 2 ^ 8 + c2) * 2 ^ 8 * 2 ^ 8) by ring.
  replace (Z.lor ((c3 * 2 ^ 8 + c2) * 2 ^ 8 * 2 ^ 8) (c1 * 2 ^ 8))
    with (((c3 * 2 ^ 8 + c2) * 2 ^ 8 + c1) * 2 ^ 8).
  2: { rewrite <- (lor_disjoint (c3 * 2 ^ 8 + c2) c1 8) by lia.
       rewrite <- !Z.shiftl_mul_pow2 by lia. apply Z.shiftl_lor. }
  rewrite lor_disjoint by lia. ring.
Qed.

(** A word comparison is the comparison of its four bytes. *)
Lemma load32_eqb mem m c0 c1 c2 c3 :
  bytes mem -> is_byte c0 -> is_byte c1 -> is_byte c2 -> is_byte c3 ->
  (load32 mem m =? word c0 c1 c2 c3) =
  eq_at mem m 0 c0 && eq_at mem m 1 c1 && eq_at mem m 2 c2 && eq_at mem m 3 c3.
Proof.
  intros Hm H0 H1 H2 H3. rewrite word_sum by assumption. unfold load32, eq_at.
  rewrite Nat.add_0_r.
  pose proof (byte_at_byte mem m Hm) as [? ?].
  pose proof (byte_at_byte mem (m + 1) Hm) as [? ?].
  pose proof (byte_at_byte mem (m + 2) Hm) as [? ?].
  pose proof (byte_at_byte mem (m + 3) Hm) as [? ?].
  unfold is_byte in *. lia.
Qed.

Lemma load16_eqb mem m c0 c1 :
  bytes mem -> is_byte c0 -> is_byte c1 ->
  (Z.land (load32 mem m) 0xffff =? Z.lor (Z.shiftl c1 8) c0) =
  eq_at mem m 0 c0 && eq_at mem m 1 c1.
Proof.
  intros Hm [? ?] [? ?]. rewrite (land_ones_mod _ 0xffff 16) by (reflexivity || lia).
  rewrite Z.shiftl_mul_pow2, lor_disjoint by lia. unfold load32, eq_at.
  rewrite Nat.add_0_r.
  pose proof (byte_at_byte mem m Hm) as [? ?].
  pose proof (byte_at_byte mem (m + 1) Hm) as [? ?].
  replace (byte_at mem m + 2 ^ 8 * byte_at mem (m + 1)
           + 2 ^ 16 * byte_at mem (m + 2) + 2 ^ 24 * byte_at mem (m + 3))
    with (byte_at mem m + 2 ^ 8 * byte_at mem (m + 1)
          + (byte_at mem (m + 2) + 2 ^ 8 * byte_at mem (m + 3)) * 2 ^ 16) by ring.
  rewrite Z.mod_add, Z.mod_small by lia. lia.
Qed.

Lemma eq_at_shift mem m i c : eq_at mem (m + 4) i c = eq_at mem m (4 + i) c.
Proof. unfold eq_at. rewrite Nat.add_assoc. reflexivity. Qed.

(** ** Complete request lines *)

Definition methods : list (list Z * Z) :=
  [(bs "GET", NGX_HTTP_GET); (bs "HEAD", NGX_HTTP_HEAD);
   (bs "POST", NGX_HTTP_POST); (bs "PUT", NGX_HTTP_PUT);
   (bs "DELETE", NGX_HTTP_DELETE); (bs "MKCOL", NGX_HTTP_MKCOL);
   (bs "COPY", NGX_HTTP_COPY); (bs "MOVE", NGX_HTTP_MOVE);
   (bs "OPTIONS", NGX_HTTP_OPTIONS); (bs "PROPFIND", NGX_HTTP_PROPFIND);
   (bs "PROPPATCH", NGX_HTTP_PROPPATCH); (bs "LOCK", NGX_HTTP_LOCK);
   (bs "UNLOCK", NGX_HTTP_UNLOCK); (bs "PATCH", NGX_HTTP_PATCH);
   (bs "TRACE", NGX_HTTP_TRACE); (bs "CONNECT", NGX_HTTP_CONNECT)].

(** The request when the "/" that starts the URI has been read. *)
Definition after_method (n : nat) (v : Z) : request :=
  set_uri_start (Some (n + 1)%nat)
    (set_method v (set_method_end (Some (n - 1)%nat)
       (set_request_start (Some O) new_request))).

Lemma scan_method name v rest :
  In (name, v) methods ->
  scan (step (name ++ bs " /" ++ rest)) (sw_start, new_request) 0 (name ++ bs " /")
  = inl (sw_after_slash_in_uri, after_method (length name) v, (length name + 2)%nat).
Proof.
  intros H. unfold methods in H. cbn [In] in H.
  repeat (destruct H as [H|H]; [injection H as <- <-; reflexivity|]). destruct H.
Qed.

Lemma scan_path mem path s r p :
  s = sw_after_slash_in_uri \/ s = sw_check_uri ->
  forallb is_usual path = true ->
  scan (step mem) (s, r) p path =
  inl (match path with [] => s | _ => sw_check_uri end, r, (p + length path)%nat).
Proof.
  revert s p; induction path as [|c path IH]; intros s p Hs Hu; cbn [scan length].
  - rewrite Nat.add_0_r. reflexivity.
  - cbn [forallb] in Hu. apply andb_prop in Hu as [Hc Hu].
    assert (E : step mem (s, r) p c = inl (sw_check_uri, r))
      by (destruct Hs as [-> | ->]; cbn [step step_uri]; rewrite Hc; reflexivity).
    rewrite E, IH by auto. destruct path; cbn [length]; do 2 f_equal; lia.
Qed.

Definition version_text (d : Z) : list Z := bs " HTTP/1." ++ [d] ++ crlf.

(** The request at the end of the line, the URI ending at [e]. *)
Definition after_line (r : request) (e : nat) (d : Z) : request :=
  set_request_end (Some (e + 9)%nat)
    (set_http_minor (d - 48) (set_http_major 1
       (set_http_protocol (Some (e + 1)%nat) (set_uri_end (Some e) r)))).

Lemma scan_version mem s r e d :
  s = sw_after_slash_in_uri \/ s = sw_check_uri -> is_digit d = true ->
  scan (step mem) (s, r) e (version_text d)
  = inr (after_line r e d, (e + 10)%nat, Goto_done).
Proof.
  intros Hs Hd. unfold is_digit in Hd.
  assert (Hc : d = 48 \/ d = 49 \/ d = 50 \/ d = 51 \/ d = 52 \/ d = 53 \/ d = 54
               \/ d = 55 \/ d = 56 \/ d = 57) by lia.
  unfold after_line. rewrite (Nat.add_comm e 9), (Nat.add_comm e 1), (Nat.add_comm e 10).
  destruct Hs as [-> | ->];
    repeat (destruct Hc as [-> | Hc]; [reflexivity|]); subst d; reflexivity.
Qed.

(** ** Properties *)

(** C9: reading a request line in pieces changes nothing: when a call runs
    out of input (NGX_AGAIN), the call that resumes from its state, request
    and position returns what one call over the whole input returns, with
    the same request; and a call that did not run out of input is not
    affected by what follows in the buffer. *)
Theorem request_line_resume (mem : list Z) (s : sw) (r : request)
    (pos mid last : nat) :
  (pos <= mid <= last)%nat -> (last <= length mem)%nat ->
  let t1 := ngx_http_parse_request_line mem s r pos mid in
  let t := ngx_http_parse_request_line mem s r pos last in
  if res_rc t1 =? NGX_AGAIN then
    let t2 := ngx_http_parse_request_line mem (res_state t1) (res_r t1)
                (res_pos t1) last in
    res_rc t2 = res_rc t /\ res_r t2 = res_r t
    /\ (res_rc t = NGX_OK \/ res_rc t = NGX_AGAIN -> t2 = t)
  else t = t1.
Proof.
  intros Hp Hl t1 t.
  assert (Ht : t = conclude s pos (scan (step mem) (s, r) pos (slice mem pos last)))
    by reflexivity.
  assert (Ht1 : t1 = conclude s pos (scan (step mem) (s, r) pos (slice mem pos mid)))
    by reflexivity.
  rewrite (scan_slice_split (step mem) mem (s, r) pos mid last Hp) in Ht.
  clearbody t t1.
  destruct (scan (step mem) (s, r) pos (slice mem pos mid))
    as [[[s1 r1] p1]|[[r1 p1] [rc|]]] eqn:E; cbn [conclude] in Ht1; subst t1.
  - apply scan_pos in E. rewrite slice_length in E by lia.
    replace p1 with mid in * by lia. cbn [res_rc res_state res_r res_pos].
    change (NGX_AGAIN =? NGX_AGAIN) with true. cbv iota zeta. subst t.
    unfold ngx_http_parse_request_line.
    destruct (scan (step mem) (s1, r1) mid (slice mem mid last))
      as [[[s2 r2] p2]|[[r2 p2] [rc|]]] eqn:E2; cbn [conclude res_rc res_r];
      (split; [reflexivity|split; [reflexivity|]]); try (intros _; reflexivity).
    apply scan_return in E2.
    intros [->| ->]; exfalso; destruct E2 as [E2|[E2|E2]]; discriminate E2.
  - cbn [res_rc]. apply scan_return in E.
    replace (rc =? NGX_AGAIN) with false; [exact Ht|].
    destruct E as [->|[->| ->]]; reflexivity.
  - pose proof (finish_rc r1 p1). replace (_ =? _) with false by lia. exact Ht.
Qed.

Lemma request_line_resume_witness :
  let mem := bs "GET /index.html HTTP/1.1" ++ crlf in
  let t1 := ngx_http_parse_request_line mem sw_start new_request 0 9 in
  let t := ngx_http_parse_request_line mem sw_start new_request 0 26 in
  (0 <= 9 <= 26)%nat /\ (26 <= length mem)%nat
  /\ res_rc t = NGX_OK
  /\ ngx_http_parse_request_line mem (res_state t1) (res_r t1) (res_pos t1) 26 = t.
Proof.
  intros mem t1 t.
  assert (H1 : (0 <= 9 <= 26)%nat) by lia.
  assert (H2 : (26 <= length mem)%nat) by (vm_compute; lia).
  assert (H3 : res_rc t = NGX_OK) by (vm_compute; reflexivity).
  split; [exact H1|]. split; [exact H2|]. split; [exact H3|].
  pose proof (request_line_resume mem sw_start new_request 0 9 26 H1 H2) as H.
  cbv zeta in H.
  assert (E : (res_rc t1 =? NGX_AGAIN) = true) by (vm_compute; reflexivity).
  fold t1 t in H. rewrite E in H. destruct H as (_ & _ & H). apply H. left. exact H3.
Defined.

(** the word-at-a-time comparison macros of little-endian builds recognize
    the same method as the byte-at-a-time ones: at a space that follows the
    token, in any buffer, both give the same answer. *)
Theorem method_words_equiv_bytes (mem : list Z) (m p : nat) :
  bytes mem -> (m <= p)%nat -> byte_at mem p = chr " " ->
  @recognize_method strcmp_words mem m p = @recognize_method strcmp_bytes mem m p.
Proof.
  intros Hm Hmp Hsp. unfold recognize_method.
  assert (Hat : forall n, (p - m)%nat = n -> eq_at mem m n (chr " ") = true).
  { intros n <-. unfold eq_at. replace (m + (p - m))%nat with p by lia. lia. }
  remember (p - m)%nat as n eqn:En. symmetry in En. specialize (Hat n eq_refl).
  do 10 (try (destruct n as [|n])); try reflexivity;
    cbn [strcmp_words strcmp_bytes ngx_str3_cmp ngx_str3Ocmp ngx_str4cmp
         ngx_str5cmp ngx_str6cmp ngx_str7_cmp ngx_str8cmp ngx_str9cmp];
    rewrite ?load32_eqb, ?load16_eqb by (assumption || (split; lia));
    rewrite ?eq_at_shift; cbn [Nat.add]; rewrite ?Hat, ?andb_true_r, ?andb_assoc;
    try reflexivity.
  change (byte_at mem (m + 1) =? 79) with (eq_at mem m 1 79).
  destruct (eq_at mem m 1 79); [|reflexivity].
  rewrite !andb_true_r. reflexivity.
Qed.

Lemma method_words_equiv_bytes_witness :
  let mem := bs "PROPFIND / HTTP/1.1" in
  @recognize_method strcmp_words mem 0 8 = Some NGX_HTTP_PROPFIND
  /\ @recognize_method strcmp_words mem 0 8 = @recognize_method strcmp_bytes mem 0 8.
Proof.
  intros mem. split; [vm_compute; reflexivity|].
  apply (method_words_equiv_bytes mem 0 8);
    [repeat constructor; vm_compute; congruence|lia|vm_compute; reflexivity].
Defined.

(** C8: a request line that is accepted has a URI: it is not empty, lies in
    the buffer before the end of the line, begins with "/" (or with "?" when
    the path after the host is empty) and has no space, control byte or DEL
    in it, so it cannot smuggle a line break, a NUL or a second token; the
    line ends with LF, and the version is at most 1.999. *)
Theorem request_line_uri_safe (mem : list Z) (pos last : nat) :
  bytes mem -> (pos <= last <= length mem)%nat ->
  let t := ngx_http_parse_request_line mem sw_start new_request pos last in
  res_rc t = NGX_OK ->
  exists us ue,
    uri_start (res_r t) = Some us /\ uri_end (res_r t) = Some ue
    /\ (us < ue < res_pos t)%nat /\ (res_pos t <= last)%nat
    /\ uri_first mem (res_r t) us
    /\ forallb uri_byte (slice mem us ue) = true
    /\ byte_at mem (res_pos t - 1) = LF
    /\ 0 <= http_version (res_r t) <= 1999.
Proof.
  intros Hm Hp t Hrc.
  pose proof (scan_inv mem sw_start new_request pos last Hm Hp (inv_new mem pos)) as H.
  unfold t, ngx_http_parse_request_line in *.
  destruct (scan (step mem) (sw_start, new_request) pos (slice mem pos last))
    as [[[s1 r1] p1]|[[r1 p1] [rc|]]] eqn:E; cbn [conclude] in *; [discriminate| |].
  { apply scan_return in E. cbn in Hrc. destruct E as [->|[->| ->]]; discriminate. }
  destruct H as ((us & ue & H1 & H2 & H3 & H4 & H5) & (Hmaj & Hmin) & Hlf & Hlt).
  assert (Hr : uri_start (res_r (finish r1 p1)) = uri_start r1
    /\ uri_end (res_r (finish r1 p1)) = uri_end r1
    /\ empty_path_in_uri (res_r (finish r1 p1)) = empty_path_in_uri r1
    /\ res_pos (finish r1 p1) = S p1
    /\ http_version (res_r (finish r1 p1)) = http_major r1 * 1000 + http_minor r1).
  { unfold finish. destruct (request_end r1); cbv zeta; split_if; repeat split. }
  destruct Hr as (E1 & E2 & E3 & E4 & E5).
  exists us, ue. rewrite E1, E2, E4, E5. unfold uri_first in *. rewrite E3.
  replace (S p1 - 1)%nat with p1 by lia.
  repeat split; auto; try lia. apply byte_at_nth, Hlf.
Qed.

Lemma request_line_uri_safe_witness :
  let mem := bs "GET http://h?x HTTP/1.1" ++ crlf in
  let t := ngx_http_parse_request_line mem sw_start new_request 0 25 in
  exists us ue,
    uri_start (res_r t) = Some us /\ uri_end (res_r t) = Some ue
    /\ (us < ue < res_pos t)%nat /\ (res_pos t <= 25)%nat
    /\ uri_first mem (res_r t) us
    /\ forallb uri_byte (slice mem us ue) = true
    /\ byte_at mem (res_pos t - 1) = LF
    /\ 0 <= http_version (res_r t) <= 1999.
Proof.
  intros mem t.
  apply (request_line_uri_safe mem 0 25).
  - repeat constructor; vm_compute; congruence.
  - vm_compute. lia.
  - vm_compute. reflexivity.
Defined.

(** every request line "METHOD SP / path SP HTTP/1.d CRLF" whose method is
    one of the sixteen nginx knows and whose path has only usual bytes is
    accepted in one call: the method code, the bounds of the URI, of the
    protocol and of the line, and the version are those of the text, the
    whole line is consumed and the parser is ready for the next one. *)
Theorem request_line_parses (name : list Z) (v : Z) (path : list Z) (d : Z) :
  In (name, v) methods -> forallb is_usual path = true -> is_digit d = true ->
  let line := name ++ bs " /" ++ path ++ version_text d in
  let n := length name in
  let e := (n + 2 + length path)%nat in
  parse_all line =
  mk_result NGX_OK sw_start
    (set_http_version (1000 + (d - 48)) (after_line (after_method n v) e d))
    (length line)
  /\ slice line (n + 1) e = chr "/" :: path.
Proof.
  intros Hin Hu Hd line n e. split.
  - unfold parse_all, ngx_http_parse_request_line, slice.
    rewrite Nat.sub_0_r, firstn_all. cbn [skipn].
    replace (scan (step line) (sw_start, new_request) 0 line)
      with (scan (step line) (sw_start, new_request) 0
              ((name ++ bs " /") ++ path ++ version_text d))
      by (rewrite <- app_assoc; reflexivity).
    assert (E : scan (step line) (sw_start, new_request) 0 (name ++ bs " /")
                = inl (sw_after_slash_in_uri, after_method n v, (n + 2)%nat))
      by (apply scan_method, Hin).
    rewrite scan_app, E, scan_app, scan_path by auto. fold e.
    rewrite scan_version; [|destruct path; auto|assumption].
    unfold conclude, finish. cbn [request_end after_line set_request_end].
    unfold is_digit in Hd.
    change (http_major (after_line (after_method n v) e d) * 1000
            + http_minor (after_line (after_method n v) e d)) with (1000 + (d - 48)).
    change (http_version (set_http_version ?x ?r)) with x.
    if_false. f_equal.
    unfold line, version_text. rewrite !length_app. unfold e, n. cbn [length bs map list_ascii_of_string crlf]. lia.
  - pose proof (slice_app (name ++ bs " ") (bs "/" ++ path) (version_text d)) as H.
    rewrite !length_app in H. cbn [length bs map list_ascii_of_string] in H.
    unfold line, e, n. rewrite <- !app_assoc in H.
    replace (length name + 2 + length path)%nat
      with (length name + 1 + (1 + length path))%nat by lia.
    exact H.
Qed.

Lemma request_line_parses_witness :
  res_rc (parse_all (bs "GET" ++ bs " /" ++ bs "index" ++ version_text (chr "1")))
  = NGX_OK.
Proof.
  assert (Hu : forallb is_usual (bs "index") = true) by (vm_compute; reflexivity).
  rewrite (proj1 (request_line_parses (bs "GET") NGX_HTTP_GET (bs "index") (chr "1")
                    (or_introl eq_refl) Hu eq_refl)).
  reflexivity.
Defined.

End RequestLine.
