(* ===== verification/HttpHeaderLine.v ===== *)
(** * Header lines: ngx_http_parse_header_line()

    Model of the state machine of [src/http/ngx_http_parse.c] that reads one
    "name: value" line, computing the hash and the lowercase copy of the name
    on the way, and of the hash function of [src/core/ngx_hash.c] the headers
    are looked up with. *)

From Stdlib Require Import String Ascii ZArith Bool Lia ZifyBool List.
From S2P Require Import Prelude HttpRequest.
Import ListNotations.
Local Open Scope Z_scope.

(** ** ngx_hash.c: the hash of a name *)

Section Hash.
Context `{Platform}.

(** [#define ngx_hash(key, c)   ((ngx_uint_t) key * 31 + c)] *)
Definition ngx_hash (key c : Z) : Z := wrapu ptr_size (key * 31 + c).

Definition ngx_tolower (c : Z) : Z :=
  if (c >=? chr "A") && (c <=? chr "Z") then Z.lor c 0x20 else c.

Fixpoint hash_lc_loop (key : Z) (data : list Z) : Z :=
  match data with
  | [] => key
  | c :: data' => hash_lc_loop (ngx_hash key (ngx_tolower c)) data'
  end.

Definition ngx_hash_key_lc (data : list Z) : Z := hash_lc_loop 0 data.

End Hash.

Module HeaderLine.

Inductive sw :=
  | sw_start | sw_name | sw_space_before_value | sw_value
  | sw_space_after_value | sw_ignore_line | sw_almost_done
  | sw_header_almost_done.

Definition NGX_HTTP_LC_HEADER_LEN : nat := 32.

(** The fields of the request the function reads and writes; [upstream] tells
    whether [r->upstream] is set. *)
Record hreq := mk_hreq {
  header_name_start : option nat;
  header_name_end : option nat;
  header_start : option nat;
  header_end : option nat;
  invalid_header : bool;
  header_hash : Z;
  lowcase_index : nat;
  lowcase_header : list Z;
  upstream : bool
}.

Definition set_name_start (v : option nat) (r : hreq) : hreq :=
  mk_hreq v (header_name_end r) (header_start r) (header_end r)
    (invalid_header r) (header_hash r) (lowcase_index r) (lowcase_header r)
    (upstream r).
Definition set_name_end (v : option nat) (r : hreq) : hreq :=
  mk_hreq (header_name_start r) v (header_start r) (header_end r)
    (invalid_header r) (header_hash r) (lowcase_index r) (lowcase_header r)
    (upstream r).
Definition set_start (v : option nat) (r : hreq) : hreq :=
  mk_hreq (header_name_start r) (header_name_end r) v (header_end r)
    (invalid_header r) (header_hash r) (lowcase_index r) (lowcase_header r)
    (upstream r).
Definition set_end (v : option nat) (r : hreq) : hreq :=
  mk_hreq (header_name_start r) (header_name_end r) (header_start r) v
    (invalid_header r) (header_hash r) (lowcase_index r) (lowcase_header r)
    (upstream r).
Definition set_invalid (v : bool) (r : hreq) : hreq :=
  mk_hreq (header_name_start r) (header_name_end r) (header_start r)
    (header_end r) v (header_hash r) (lowcase_index r) (lowcase_header r)
    (upstream r).
Definition set_lowcase (v : list Z) (r : hreq) : hreq :=
  mk_hreq (header_name_start r) (header_name_end r) (header_start r)
    (header_end r) (invalid_header r) (header_hash r) (lowcase_index r) v
    (upstream r).
Definition save (hash : Z) (i : nat) (r : hreq) : hreq :=
  mk_hreq (header_name_start r) (header_name_end r) (header_start r)
    (header_end r) (invalid_header r) hash i (lowcase_header r) (upstream r).

(** [a[i] = c] *)
Fixpoint store (i : nat) (c : Z) (a : list Z) : list Z :=
  match a, i with
  | [], _ => []
  | _ :: a', O => c :: a'
  | x :: a', S i' => x :: store i' c a'
  end.

(** The table [lowcase]: letters and digits in lower case and "-"; 0 for a
    byte that is not part of a plain header name. *)
Definition lowcase : list Z :=
  repeat 0 32 ++ repeat 0 13 ++ bs "-" ++ repeat 0 2 ++ bs "0123456789"
  ++ repeat 0 6 ++ [0] ++ bs "abcdefghijklmnopqrstuvwxyz" ++ repeat 0 5
  ++ [0] ++ bs "abcdefghijklmnopqrstuvwxyz" ++ repeat 0 5 ++ repeat 0 128.

Definition lc (ch : Z) : Z := nth (Z.to_nat ch) lowcase 0.

(** The locals of the loop: [state], [hash], [i], and the request. *)
Record loc := mk_loc { l_state : sw; l_hash : Z; l_i : nat; l_r : hreq }.

Inductive exit := Return (rc : Z) | Goto_done | Goto_header_done.

Definition outcome : Type := (loc + (loc * nat * exit))%type.

Section Parser.
Context `{P : Platform}.

Definition go (s : sw) (r : hreq) (l : loc) : outcome :=
  inl (mk_loc s (l_hash l) (l_i l) r).
Definition leave (e : exit) (r : hreq) (l : loc) (p : nat) : outcome :=
  inr (mk_loc (l_state l) (l_hash l) (l_i l) r, p, e).
Definition invalid (r : hreq) (l : loc) (p : nat) : outcome :=
  leave (Return NGX_HTTP_PARSE_INVALID_HEADER) r l p.

(** [hash = ngx_hash(0, c); r->lowcase_header[0] = c; i = 1;] *)
Definition first_char (c : Z) (r : hreq) : outcome :=
  inl (mk_loc sw_name (ngx_hash 0 c) 1
         (set_lowcase (store 0 c (lowcase_header r)) r)).

(** [sw_start] *)
Definition step_start (allow_underscores : bool) (l : loc) (p : nat) (ch : Z)
    : outcome :=
  let r := set_invalid false (set_name_start (Some p) (l_r l)) in
  if ch =? CR then go sw_header_almost_done (set_end (Some p) r) l
  else if ch =? LF then leave Goto_header_done (set_end (Some p) r) l p
  else
    let c := lc ch in
    if negb (c =? 0) then first_char c r
    else if ch =? chr "_" then
      if allow_underscores then first_char ch r
      else inl (mk_loc sw_name 0 0 (set_invalid true r))
    else if (ch <=? 0x20) || (ch =? 0x7f) || (ch =? chr ":") then
      invalid (set_end (Some p) r) (mk_loc sw_name (l_hash l) (l_i l) r) p
    else inl (mk_loc sw_name 0 0 (set_invalid true r)).

(** [hash = ngx_hash(hash, c); r->lowcase_header[i++] = c;
    i &= (NGX_HTTP_LC_HEADER_LEN - 1);] *)
Definition next_char (c : Z) (l : loc) : outcome :=
  inl (mk_loc sw_name (ngx_hash (l_hash l) c)
         (Nat.land (S (l_i l)) (NGX_HTTP_LC_HEADER_LEN - 1))
         (set_lowcase (store (l_i l) c (lowcase_header (l_r l))) (l_r l))).

Definition ptr (o : option nat) : nat := match o with Some p => p | None => O end.

Fixpoint eq_list (a b : list Z) : bool :=
  match a, b with
  | [], [] => true
  | x :: a', y :: b' => (x =? y) && eq_list a' b'
  | _, _ => false
  end.

(** [sw_name] *)
Definition step_name (mem : list Z) (allow_underscores : bool) (l : loc)
    (p : nat) (ch : Z) : outcome :=
  let r := l_r l in
  let c := lc ch in
  let ns := ptr (header_name_start r) in
  if negb (c =? 0) then next_char c l
  else if ch =? chr "_" then
    if allow_underscores then next_char ch l
    else go sw_name (set_invalid true r) l
  else if ch =? chr ":" then
    go sw_space_before_value (set_name_end (Some p) r) l
  else if ch =? CR then
    go sw_almost_done
      (set_end (Some p) (set_start (Some p) (set_name_end (Some p) r))) l
  else if ch =? LF then
    leave Goto_done
      (set_end (Some p) (set_start (Some p) (set_name_end (Some p) r))) l p
  else if (ch =? chr "/") && upstream r && Nat.eqb (p - ns) 4
          && eq_list (slice mem ns (ns + 4)) (bs "HTTP")
  then go sw_ignore_line r l
  else if (ch <=? 0x20) || (ch =? 0x7f) then invalid (set_end (Some p) r) l p
  else go sw_name (set_invalid true r) l.

(** [sw_space_before_value], [sw_value], [sw_space_after_value] *)
Definition step_value (l : loc) (p : nat) (ch : Z) : outcome :=
  let r := l_r l in
  match l_state l with
  | sw_space_before_value =>
      if ch =? chr " " then go sw_space_before_value r l
      else if ch =? CR then
        go sw_almost_done (set_end (Some p) (set_start (Some p) r)) l
      else if ch =? LF then
        leave Goto_done (set_end (Some p) (set_start (Some p) r)) l p
      else if ch =? 0 then invalid (set_end (Some p) r) l p
      else go sw_value (set_start (Some p) r) l
  | sw_value =>
      if ch =? chr " " then go sw_space_after_value (set_end (Some p) r) l
      else if ch =? CR then go sw_almost_done (set_end (Some p) r) l
      else if ch =? LF then leave Goto_done (set_end (Some p) r) l p
      else if ch =? 0 then invalid (set_end (Some p) r) l p
      else go sw_value r l
  | _ (* sw_space_after_value *) =>
      if ch =? chr " " then go sw_space_after_value r l
      else if ch =? CR then go sw_almost_done r l
      else if ch =? LF then leave Goto_done r l p
      else if ch =? 0 then invalid (set_end (Some p) r) l p
      else go sw_value r l
  end.

(** [sw_ignore_line], [sw_almost_done], [sw_header_almost_done] *)
Definition step_end (l : loc) (p : nat) (ch : Z) : outcome :=
  let r := l_r l in
  match l_state l with
  | sw_ignore_line =>
      if ch =? LF then go sw_start r l else go sw_ignore_line r l
  | sw_almost_done =>
      if ch =? LF then leave Goto_done r l p
      else if ch =? CR then go sw_almost_done r l
      else invalid r l p
  | _ (* sw_header_almost_done *) =>
      if ch =? LF then leave Goto_header_done r l p else invalid r l p
  end.

Definition step (mem : list Z) (allow_underscores : bool) (l : loc) (p : nat)
    (ch : Z) : outcome :=
  match l_state l with
  | sw_start => step_start allow_underscores l p ch
  | sw_name => step_name mem allow_underscores l p ch
  | sw_space_before_value | sw_value | sw_space_after_value => step_value l p ch
  | _ => step_end l p ch
  end.

(** ** The function *)

Record result := mk_result {
  res_rc : Z; res_state : sw; res_r : hreq; res_pos : nat
}.

(** Out of input and [done] save the locals in the request; [header_done] and
    the errors do not. *)
Definition conclude (state : sw) (pos : nat)
    (e : (loc * nat) + (loc * nat * exit)) : result :=
  match e with
  | inl (l, p) =>
      mk_result NGX_AGAIN (l_state l) (save (l_hash l) (l_i l) (l_r l)) p
  | inr (l, p, Goto_done) =>
      mk_result NGX_OK sw_start (save (l_hash l) (l_i l) (l_r l)) (S p)
  | inr (l, p, Goto_header_done) =>
      mk_result NGX_HTTP_PARSE_HEADER_DONE sw_start (l_r l) (S p)
  | inr (l, p, Return rc) => mk_result rc state (l_r l) pos
  end.

Definition enter (state : sw) (r : hreq) : loc :=
  mk_loc state (header_hash r) (lowcase_index r) r.

Definition ngx_http_parse_header_line (mem : list Z) (allow_underscores : bool)
    (state : sw) (r : hreq) (pos last : nat) : result :=
  conclude state pos
    (scan (step mem allow_underscores) (enter state r) pos (slice mem pos last)).

End Parser.

Definition new_hreq : hreq :=
  mk_hreq None None None None false 0 0 (repeat 0 32) false.

Definition parse_all (l : list Z) : result :=
  @ngx_http_parse_header_line lp64 l false sw_start new_hreq 0 (length l).

Definition crlf : list Z := [13; 10].

Example header_ex1 :
  let t := parse_all (bs "Host:  a b " ++ crlf) in
  (res_rc t, res_pos t, header_name_start (res_r t), header_name_end (res_r t),
   header_start (res_r t), header_end (res_r t), lowcase_index (res_r t),
   firstn 4 (lowcase_header (res_r t)), header_hash (res_r t))
  = (NGX_OK, 13%nat, Some 0%nat, Some 4%nat, Some 7%nat, Some 10%nat, 4%nat,
     bs "host", @ngx_hash_key_lc lp64 (bs "Host")).
Proof. vm_compute. reflexivity. Qed.

Example header_ex2 : res_rc (parse_all crlf) = NGX_HTTP_PARSE_HEADER_DONE.
Proof. reflexivity. Qed.

(** ** The invariant of the machine *)

(** Bytes of a name and of a value. *)
Definition name_byte (c : Z) : bool :=
  (c >? 0x20) && negb (c =? 0x7f) && negb (c =? chr ":").
Definition value_byte (c : Z) : bool :=
  negb (c =? CR) && negb (c =? LF) && negb (c =? 0).

Definition name_open (mem : list Z) (r : hreq) (p : nat) : Prop :=
  exists ns, header_name_start r = Some ns /\ (ns < p)%nat
    /\ forallb name_byte (slice mem ns p) = true.

Definition name_closed (mem : list Z) (r : hreq) (p : nat) : Prop :=
  exists ns ne, header_name_start r = Some ns /\ header_name_end r = Some ne
    /\ (ns < ne <= p)%nat /\ forallb name_byte (slice mem ns ne) = true.

Definition value_open (mem : list Z) (r : hreq) (p : nat) : Prop :=
  exists hs, header_start r = Some hs /\ (hs < p)%nat
    /\ forallb value_byte (slice mem hs p) = true.

Definition value_closed (mem : list Z) (r : hreq) (p : nat) : Prop :=
  exists hs he, header_start r = Some hs /\ header_end r = Some he
    /\ (hs <= he <= p)%nat /\ forallb value_byte (slice mem hs he) = true.

Definition lowcase_ok (l : loc) : Prop :=
  (l_i l < NGX_HTTP_LC_HEADER_LEN)%nat
  /\ length (lowcase_header (l_r l)) = NGX_HTTP_LC_HEADER_LEN.

Definition inv (mem : list Z) (p : nat) (l : loc) : Prop :=
  lowcase_ok l /\
  match l_state l with
  | sw_start | sw_ignore_line | sw_header_almost_done => True
  | sw_name => name_open mem (l_r l) p
  | sw_space_before_value => name_closed mem (l_r l) p
  | sw_value => name_closed mem (l_r l) p /\ value_open mem (l_r l) p
  | sw_space_after_value =>
      name_closed mem (l_r l) p /\ value_open mem (l_r l) p
      /\ value_closed mem (l_r l) p
  | sw_almost_done => name_closed mem (l_r l) p /\ value_closed mem (l_r l) p
  end.

Definition exit_ok (mem : list Z) (last : nat) (e : loc * nat * exit) : Prop :=
  match e with
  | (l, p, ex) =>
      lowcase_ok l /\ (p < last)%nat /\ nth_error mem p <> None
      /\ match ex with
         | Goto_done =>
             nth_error mem p = Some LF /\ name_closed mem (l_r l) p
             /\ value_closed mem (l_r l) p
         | Goto_header_done => nth_error mem p = Some LF
         | Return rc => rc = NGX_HTTP_PARSE_INVALID_HEADER
         end
  end.

Lemma name_open_start mem r p ch :
  nth_error mem p = Some ch -> name_byte ch = true ->
  header_name_start r = Some p -> name_open mem r (S p).
Proof.
  intros Hc Hb E. exists p. repeat split; auto. eapply slice_forallb_one; eassumption.
Qed.

Lemma name_open_next mem r r' p ch :
  name_open mem r p -> nth_error mem p = Some ch -> name_byte ch = true ->
  header_name_start r' = header_name_start r -> name_open mem r' (S p).
Proof.
  intros (ns & H1 & H2 & H3) Hc Hb E. exists ns. rewrite E.
  split; [assumption|]. split; [lia|]. eapply slice_forallb_snoc; eauto; lia.
Qed.

Lemma name_open_close mem r r' p q :
  name_open mem r p -> (p <= q)%nat ->
  header_name_start r' = header_name_start r -> header_name_end r' = Some p ->
  name_closed mem r' q.
Proof.
  intros (ns & H1 & H2 & H3) Hq E1 E2. exists ns, p. rewrite E1. repeat split; auto; lia.
Qed.

Lemma name_closed_mono mem r r' p q :
  name_closed mem r p -> (p <= q)%nat ->
  header_name_start r' = header_name_start r ->
  header_name_end r' = header_name_end r -> name_closed mem r' q.
Proof.
  intros (ns & ne & H1 & H2 & H3 & H4) Hq E1 E2. exists ns, ne.
  rewrite E1, E2. repeat split; auto; lia.
Qed.

Lemma value_open_start mem r p ch :
  nth_error mem p = Some ch -> value_byte ch = true ->
  header_start r = Some p -> value_open mem r (S p).
Proof.
  intros Hc Hb E. exists p. repeat split; auto. eapply slice_forallb_one; eassumption.
Qed.

Lemma value_open_next mem r r' p ch :
  value_open mem r p -> nth_error mem p = Some ch -> value_byte ch = true ->
  header_start r' = header_start r -> value_open mem r' (S p).
Proof.
  intros (hs & H1 & H2 & H3) Hc Hb E. exists hs. rewrite E.
  split; [assumption|]. split; [lia|]. eapply slice_forallb_snoc; eauto; lia.
Qed.

Lemma value_open_close mem r r' p q :
  value_open mem r p -> (p <= q)%nat ->
  header_start r' = header_start r -> header_end r' = Some p ->
  value_closed mem r' q.
Proof.
  intros (hs & H1 & H2 & H3) Hq E1 E2. exists hs, p. rewrite E1. repeat split; auto; lia.
Qed.

Lemma value_empty mem r p q :
  (p <= q)%nat -> header_start r = Some p -> header_end r = Some p ->
  value_closed mem r q.
Proof.
  intros Hq E1 E2. exists p, p. repeat split; auto. rewrite slice_empty by lia. reflexivity.
Qed.

Lemma value_closed_mono mem r r' p q :
  value_closed mem r p -> (p <= q)%nat ->
  header_start r' = header_start r -> header_end r' = header_end r ->
  value_closed mem r' q.
Proof.
  intros (hs & he & H1 & H2 & H3 & H4) Hq E1 E2. exists hs, he.
  rewrite E1, E2. repeat split; auto; lia.
Qed.

Lemma store_length i c a : length (store i c a) = length a.
Proof. revert i; induction a; destruct i; cbn; auto. Qed.

Lemma land31 i : (Nat.land i (NGX_HTTP_LC_HEADER_LEN - 1) < NGX_HTTP_LC_HEADER_LEN)%nat.
Proof.
  change (NGX_HTTP_LC_HEADER_LEN - 1)%nat with (Nat.ones 5).
  rewrite Nat.land_ones. apply Nat.mod_upper_bound. discriminate.
Qed.

(** The bytes the table [lowcase] accepts are letters, digits and "-". *)
Lemma lc_name c : is_byte c -> lc c <> 0 -> name_byte c = true.
Proof.
  intros Hc Hl.
  assert (H : (lc c =? 0) || name_byte c = true).
  { revert c Hc Hl. intros c Hc _. revert c Hc. apply byte_forall. vm_compute. reflexivity. }
  destruct (name_byte c); [reflexivity|lia].
Qed.

Ltac unfold_step H :=
  unfold step, step_start, step_name, step_value, step_end, first_char, next_char,
    go, invalid, leave in H; cbv zeta in H; cbn [l_state l_hash l_i l_r] in H.

Ltac field := reflexivity.

Ltac inv_solve :=
  first
    [ exact I
    | split; [inv_solve|inv_solve]
    | eapply name_open_start; [eassumption|unfold name_byte; lia|field]
    | eapply name_open_next; [eassumption|eassumption|unfold name_byte; lia|field]
    | eapply name_open_close; [eassumption|lia|field|field]
    | eapply name_closed_mono; [eassumption|lia|field|field]
    | eapply value_open_start; [eassumption|unfold value_byte; lia|field]
    | eapply value_open_next; [eassumption|eassumption|unfold value_byte; lia|field]
    | eapply value_open_close; [eassumption|lia|field|field]
    | eapply value_empty; [|field|field]; lia
    | eapply value_closed_mono; [eassumption|lia|field|field] ].

Section Invariant.
Context `{P : Platform}.

Lemma header_step_inv mem au p l ch l' :
  bytes mem -> inv mem p l -> nth_error mem p = Some ch ->
  step mem au l p ch = inl l' -> inv mem (S p) l'.
Proof.
  intros Hm [[Hi Ha] Hs] Hc H.
  pose proof (lc_name ch (bytes_nth _ _ _ Hm Hc)) as Hlc. unfold name_byte in Hlc.
  destruct l as [s h i r]. cbn [l_state l_hash l_i l_r] in *.
  destruct s; destruct_ands; unfold_step H; split_ifs_in H; injection H as <-;
    (split; [split; cbn [l_i l_r lowcase_header set_lowcase set_invalid set_name_start
                         set_name_end set_start set_end];
             first [assumption | apply land31 | rewrite store_length; assumption
                   | destruct (lowcase_header r); exact Ha
                   | unfold NGX_HTTP_LC_HEADER_LEN; lia]|]);
    cbn [l_state l_r] in *; inv_solve.
Qed.

Lemma header_step_exit mem au last p l ch e :
  inv mem p l -> nth_error mem p = Some ch -> (p < last)%nat ->
  step mem au l p ch = inr e -> exit_ok mem last e.
Proof.
  intros [[Hi Ha] Hs] Hc Hl H.
  destruct l as [s h i r]. cbn [l_state l_hash l_i l_r] in *.
  destruct s; destruct_ands; unfold_step H; split_ifs_in H; injection H as <-;
    (split; [split; assumption|]); (split; [assumption|]); (split; [congruence|]);
    try reflexivity; try (rewrite Hc; f_equal; lia);
    (split; [rewrite Hc; f_equal; lia|]); cbn [l_r]; inv_solve.
Qed.

Lemma header_scan_inv mem au l pos last :
  bytes mem -> (pos <= last <= length mem)%nat -> inv mem pos l ->
  match scan (step mem au) l pos (slice mem pos last) with
  | inl (l', p) => inv mem p l' /\ p = last
  | inr e => exit_ok mem last e
  end.
Proof.
  intros Hm Hp Hi.
  apply (scan_slice_ind (step mem au) mem last (inv mem) (exit_ok mem last)); try assumption.
  - intros l1 p ch l2 H1 H2 _ H3. eapply header_step_inv; eassumption.
  - intros l1 p ch e H1 H2 H3 H4. eapply header_step_exit; eassumption.
Qed.

(** ** Resuming: the saved copies of the locals do not matter in the loop *)

Definition upd (h : Z) (i : nat) (l : loc) : loc :=
  mk_loc (l_state l) (l_hash l) (l_i l) (save h i (l_r l)).

Definition upd_exit (h : Z) (i : nat) (e : loc * nat * exit) : loc * nat * exit :=
  let '(l, p, x) := e in (upd h i l, p, x).

Lemma step_upd mem au h i l p ch :
  step mem au (upd h i l) p ch =
  match step mem au l p ch with
  | inl l' => inl (upd h i l')
  | inr e => inr (upd_exit h i e)
  end.
Proof.
  destruct l as [s h0 i0 r]. unfold upd at 1.
  destruct s; unfold step, step_start, step_name, step_value, step_end, first_char,
    next_char, go, invalid, leave; cbv zeta;
    cbn [l_state l_hash l_i l_r upstream header_name_start save]; split_ifs; reflexivity.
Qed.

Lemma scan_upd mem au h i l p bytes :
  scan (step mem au) (upd h i l) p bytes =
  match scan (step mem au) l p bytes with
  | inl (l', p') => inl (upd h i l', p')
  | inr e => inr (upd_exit h i e)
  end.
Proof.
  revert l p; induction bytes as [|c bytes IH]; intros l p; cbn [scan]; [reflexivity|].
  rewrite step_upd. destruct (step mem au l p c); [apply IH|reflexivity].
Qed.

Lemma header_scan_return mem au l p bytes l' p' rc :
  scan (step mem au) l p bytes = inr (l', p', Return rc) ->
  rc = NGX_HTTP_PARSE_INVALID_HEADER.
Proof.
  revert l p; induction bytes as [|c bytes IH]; intros l p; cbn [scan]; [discriminate|].
  destruct (step mem au l p c) as [l1|e] eqn:Es; [apply IH|].
  intros [= ->]. destruct l as [s0 h0 i0 r0].
  destruct s0; unfold_step Es; split_ifs_in Es; inversion Es; reflexivity.
Qed.

(** Equality of requests up to the two saved locals. *)
Definition same_but_saved (r r' : hreq) : Prop := save 0 0 r = save 0 0 r'.

(** ** Complete header lines *)

Definition header_char (c : Z) : bool := negb (lc c =? 0).

Lemma lc_tolower c : is_byte c -> header_char c = true -> lc c = ngx_tolower c.
Proof.
  intros Hc Hh.
  assert (H : negb (header_char c) || (lc c =? ngx_tolower c) = true).
  { revert c Hc Hh. intros c Hc _. revert c Hc. apply byte_forall. vm_compute. reflexivity. }
  rewrite Hh in H. apply Z.eqb_eq, H.
Qed.

(** What the name loop stores in [lowcase_header]. *)
Fixpoint store_all (i : nat) (name : list Z) (a : list Z) : list Z :=
  match name with
  | [] => a
  | c :: name' =>
      store_all (Nat.land (S i) (NGX_HTTP_LC_HEADER_LEN - 1)) name'
        (store i (lc c) a)
  end.

Fixpoint index_after (i : nat) (name : list Z) : nat :=
  match name with
  | [] => i
  | _ :: name' => index_after (Nat.land (S i) (NGX_HTTP_LC_HEADER_LEN - 1)) name'
  end.

Lemma scan_name mem au name h i r p :
  forallb header_char name = true -> bytes name ->
  scan (step mem au) (mk_loc sw_name h i r) p name =
  inl (mk_loc sw_name (hash_lc_loop h name) (index_after i name)
         (set_lowcase (store_all i name (lowcase_header r)) r), (p + length name)%nat).
Proof.
  revert h i r p; induction name as [|c name IH]; intros h i r p Hn Hb.
  - cbn. rewrite Nat.add_0_r. destruct r. reflexivity.
  - cbn [forallb] in Hn. apply andb_prop in Hn as [Hc Hn]. inv Hb.
    cbn [scan].
    assert (E : step mem au (mk_loc sw_name h i r) p c =
      inl (mk_loc sw_name (ngx_hash h (lc c)) (Nat.land (S i) (NGX_HTTP_LC_HEADER_LEN - 1))
             (set_lowcase (store i (lc c) (lowcase_header r)) r))).
    { unfold step, step_name. cbn [l_state l_r]. cbv zeta.
      unfold header_char in Hc. rewrite Hc. reflexivity. }
    rewrite E, IH by assumption. cbn [hash_lc_loop index_after store_all length].
    rewrite lc_tolower by assumption. do 2 f_equal. lia.
Qed.

Lemma store_firstn i c a :
  (i < length a)%nat -> firstn (S i) (store i c a) = firstn i a ++ [c].
Proof.
  revert a; induction i as [|i IH]; intros [|x a] Hi; cbn [length] in Hi; try lia.
  - reflexivity.
  - change (x :: firstn (S i) (store i c a) = x :: firstn i a ++ [c]).
    rewrite IH by lia. reflexivity.
Qed.

Lemma store_all_firstn name i a :
  length a = NGX_HTTP_LC_HEADER_LEN ->
  (i + length name <= NGX_HTTP_LC_HEADER_LEN)%nat ->
  firstn (i + length name) (store_all i name a) = firstn i a ++ map lc name.
Proof.
  unfold NGX_HTTP_LC_HEADER_LEN.
  revert i a; induction name as [|c name IH]; intros i a Ha Hi; cbn [length store_all map] in *.
  - rewrite Nat.add_0_r, app_nil_r. reflexivity.
  - change (NGX_HTTP_LC_HEADER_LEN - 1)%nat with (Nat.ones 5). rewrite Nat.land_ones.
    change (2 ^ 5)%nat with 32%nat.
    destruct (Nat.eq_dec (S i) 32) as [E|E].
    + rewrite E. change (32 mod 32)%nat with O.
      assert (length name = 0)%nat as En by lia. apply length_zero_iff_nil in En. subst name.
      cbn [store_all length map]. replace (i + 1)%nat with (S i) by lia.
      apply store_firstn. lia.
    + rewrite Nat.mod_small by lia.
      replace (i + S (length name))%nat with (S i + length name)%nat by lia.
      rewrite IH by (rewrite ?store_length; lia).
      rewrite store_firstn, <- app_assoc by lia. reflexivity.
Qed.

Lemma scan_spaces mem au h i r p k :
  scan (step mem au) (mk_loc sw_space_before_value h i r) p (repeat 32 k) =
  inl (mk_loc sw_space_before_value h i r, (p + k)%nat).
Proof.
  revert p; induction k as [|k IH]; intros p; cbn [repeat scan].
  - rewrite Nat.add_0_r. reflexivity.
  - unfold step at 1. cbn [l_state]. unfold step_value. cbn [l_state Z.eqb].
    unfold go. cbn [l_hash l_i l_r]. etransitivity; [apply IH|]. do 2 f_equal. lia.
Qed.

(** A value, with spaces inside: only [header_end] changes. *)
Lemma scan_value mem au v h i r p s :
  (s = sw_value \/ s = sw_space_after_value) -> forallb value_byte v = true ->
  exists he,
  scan (step mem au) (mk_loc s h i r) p v =
  inl (mk_loc (match v with
               | [] => s
               | _ => if last v 0 =? 32 then sw_space_after_value else sw_value
               end) h i (set_end he r), (p + length v)%nat).
Proof.
  revert r p s; induction v as [|c v IH]; intros r p s Hs Hv.
  - exists (header_end r). cbn. rewrite Nat.add_0_r. destruct r. reflexivity.
  - cbn [forallb] in Hv. apply andb_prop in Hv as [Hc Hv]. unfold value_byte in Hc.
    assert (E : exists he, step mem au (mk_loc s h i r) p c =
              inl (mk_loc (if c =? 32 then sw_space_after_value else sw_value) h i
                     (set_end he r))).
    { unfold step, step_value, go. destruct Hs as [-> | ->]; cbn [l_state l_r l_hash l_i]; cbv zeta.
      - destruct (c =? 32); [exists (Some p); reflexivity|].
        repeat if_false. exists (header_end r). destruct r; reflexivity.
      - exists (header_end r). destruct (c =? 32); [destruct r; reflexivity|].
        repeat if_false. destruct r; reflexivity. }
    destruct E as [he E]. cbn [scan]. rewrite E.
    destruct (IH (set_end he r) (S p) (if c =? 32 then sw_space_after_value else sw_value))
      as [he' IH']; [destruct (c =? 32); auto|assumption|].
    exists he'. rewrite IH'. cbn [length]. replace (S p + length v)%nat with (p + S (length v))%nat by lia.
    do 2 f_equal. destruct v as [|c' v]; reflexivity.
Qed.

Definition header_text (name : list Z) (k : nat) (v : list Z) : list Z :=
  name ++ chr ":" :: repeat 32 k ++ v ++ crlf.

(** The request after "name: value" has been read. *)
Definition after_header (r : hreq) (name : list Z) (k : nat) (v : list Z) : hreq :=
  let n := length name in
  save (ngx_hash_key_lc name) (index_after 0 name)
    (set_end (Some (n + 1 + k + length v)%nat)
       (set_start (Some (n + 1 + k)%nat)
          (set_name_end (Some n)
             (set_lowcase (store_all 0 name (lowcase_header r))
                (set_invalid false (set_name_start (Some O) r)))))).

Lemma scan_header mem au name k v r :
  name <> [] -> forallb header_char name = true -> bytes name ->
  v <> [] -> forallb value_byte v = true -> hd 0 v <> 32 -> last v 0 <> 32 ->
  conclude sw_start 0
    (scan (step mem au) (enter sw_start r) 0 (header_text name k v)) =
  mk_result NGX_OK sw_start (after_header r name k v)
    (length (header_text name k v)).
Proof.
  intros Hne Hn Hb Hvne Hv Hhd Hlast.
  destruct name as [|c name]; [congruence|]. clear Hne.
  destruct v as [|c' v]; [congruence|]. clear Hvne. cbn [hd] in Hhd.
  pose proof Hn as Hn'. cbn [forallb] in Hn'. apply andb_prop in Hn' as [Hc Hn'].
  pose proof Hv as Hv'. cbn [forallb] in Hv'. apply andb_prop in Hv' as [Hc' Hv'].
  inversion Hb as [|? ? Hcb Hb']; subst.
  assert (Hcr : lc c <> 0 -> c <> 13 /\ c <> 10).
  { intros Hl. apply lc_name in Hl; [|assumption]. unfold name_byte in Hl. lia. }
  unfold header_text, enter. cbn [app scan].
  unfold step at 1. cbn [l_state]. unfold step_start. cbn [l_r]. cbv zeta.
  unfold header_char in Hc. specialize (Hcr ltac:(lia)).
  do 2 if_false. rewrite Hc. unfold first_char.
  rewrite scan_app, scan_name by assumption.
  cbn [app scan]. unfold step at 1. cbn [l_state]. unfold step_name. cbn [l_r]. cbv zeta.
  change (negb (lc 58 =? 0)) with false. cbn [Z.eqb Pos.eqb]. unfold go. cbn [l_hash l_i].
  rewrite scan_app, scan_spaces. cbn [app scan].
  unfold step at 1. cbn [l_state]. unfold step_value at 1. cbn [l_state l_r]. cbv zeta.
  unfold value_byte in Hc'. do 4 if_false. unfold go. cbn [l_hash l_i].
  rewrite scan_app.
  match goal with |- context [scan (step mem au) (mk_loc sw_value ?h ?i ?r0) ?p0 v] =>
    destruct (scan_value mem au v h i r0 p0 sw_value (or_introl eq_refl) Hv') as [he E] end.
  rewrite E.
  replace (match v with [] => sw_value | _ :: _ => if last v 0 =? 32
             then sw_space_after_value else sw_value end) with sw_value.
  2: { destruct v; [reflexivity|]. cbn [last] in Hlast. cbn [last].
       destruct v; [if_false; reflexivity|]. if_false. reflexivity. }
  cbn [crlf scan]. unfold step, step_value, step_end. cbn [l_state l_r l_hash l_i go leave Z.eqb Pos.eqb].
  unfold conclude. cbn [l_state l_r l_hash l_i].
  unfold after_header, ngx_hash_key_lc. cbn [hash_lc_loop index_after store_all length].
  rewrite lc_tolower by assumption.
  f_equal; [|repeat (rewrite ?length_app, ?repeat_length; cbn [length crlf]); lia].
  unfold save. cbn [header_name_start header_name_end header_start header_end
    invalid_header header_hash lowcase_index lowcase_header upstream set_end set_start
    set_name_end set_lowcase set_invalid set_name_start].
  f_equal; f_equal; lia.
Qed.

End Invariant.

(** ** Properties *)

(** a header line may arrive in pieces: when a call runs out of input, the
    resumed call returns the code of one call over the whole input; an
    accepted line gives the same request, hash and lowercase index included,
    and a refused line or the end of the header gives the same request but
    for the saved copies of the two locals. *)
Theorem header_line_resume (P : Platform) (mem : list Z) (au : bool) (s : sw)
    (r : hreq) (pos mid last : nat) :
  (pos <= mid <= last)%nat -> (last <= length mem)%nat ->
  let t1 := ngx_http_parse_header_line mem au s r pos mid in
  let t := ngx_http_parse_header_line mem au s r pos last in
  res_rc t1 = NGX_AGAIN ->
  let t2 := ngx_http_parse_header_line mem au (res_state t1) (res_r t1)
              (res_pos t1) last in
  res_rc t2 = res_rc t /\ same_but_saved (res_r t2) (res_r t)
  /\ (res_rc t = NGX_OK \/ res_rc t = NGX_AGAIN -> t2 = t).
Proof.
  intros Hp Hl t1 t Hrc.
  assert (Ht : t = conclude s pos (scan (step mem au) (enter s r) pos (slice mem pos last)))
    by reflexivity.
  assert (Ht1 : t1 = conclude s pos (scan (step mem au) (enter s r) pos (slice mem pos mid)))
    by reflexivity.
  rewrite (scan_slice_split (step mem au) mem _ pos mid last Hp) in Ht.
  clearbody t t1.
  destruct (scan (step mem au) (enter s r) pos (slice mem pos mid))
    as [[l1 p1]|[[l1 p1] x]] eqn:E; cbn [conclude] in Ht1; subst t1.
  2: { destruct x as [rc| |]; cbn in Hrc; try discriminate.
       apply header_scan_return in E. subst rc. discriminate. }
  apply scan_pos in E. rewrite slice_length in E by lia.
  replace p1 with mid in * by lia. cbn [res_rc res_state res_r res_pos].
  subst t. unfold ngx_http_parse_header_line.
  change (enter (l_state l1) (save (l_hash l1) (l_i l1) (l_r l1)))
    with (upd (l_hash l1) (l_i l1) l1).
  rewrite scan_upd.
  destruct (scan (step mem au) l1 mid (slice mem mid last))
    as [[l2 p2]|[[l2 p2] [rc| |]]] eqn:E2; cbn [conclude upd_exit res_rc res_r];
    (split; [reflexivity|split; [reflexivity|]]); try (intros _; reflexivity).
  - apply header_scan_return in E2. subst rc. intros [H|H]; discriminate H.
  - intros [H|H]; discriminate H.
Qed.

Lemma header_line_resume_witness :
  let mem := bs "Host: a" ++ crlf in
  let t1 := @ngx_http_parse_header_line lp64 mem false sw_start new_hreq 0 3 in
  let t := @ngx_http_parse_header_line lp64 mem false sw_start new_hreq 0 9 in
  res_rc t = NGX_OK
  /\ @ngx_http_parse_header_line lp64 mem false (res_state t1) (res_r t1)
       (res_pos t1) 9 = t.
Proof.
  intros mem t1 t.
  assert (H0 : (0 <= 3 <= 9)%nat) by lia.
  assert (H1 : (9 <= length mem)%nat) by (vm_compute; lia).
  assert (H2 : res_rc t1 = NGX_AGAIN) by (vm_compute; reflexivity).
  assert (H3 : res_rc t = NGX_OK) by (vm_compute; reflexivity).
  split; [exact H3|].
  apply (header_line_resume lp64 mem false sw_start new_hreq 0 3 9 H0 H1 H2).
  left. exact H3.
Defined.

(** C40: an accepted header line has a name and a value inside the line: the
    name is not empty and has no space, control byte, DEL or colon; the value
    has no CR, LF or NUL; they lie in order before the final LF.  On every
    outcome the index into the 32-byte [lowcase_header] stays inside it. *)
Theorem header_line_safe (P : Platform) (mem : list Z) (au : bool) (r : hreq)
    (pos last : nat) :
  bytes mem -> (pos <= last <= length mem)%nat ->
  (lowcase_index r < NGX_HTTP_LC_HEADER_LEN)%nat ->
  length (lowcase_header r) = NGX_HTTP_LC_HEADER_LEN ->
  let t := ngx_http_parse_header_line mem au sw_start r pos last in
  length (lowcase_header (res_r t)) = NGX_HTTP_LC_HEADER_LEN
  /\ (res_rc t = NGX_AGAIN \/ res_rc t = NGX_OK ->
      (lowcase_index (res_r t) < NGX_HTTP_LC_HEADER_LEN)%nat)
  /\ (res_rc t = NGX_OK ->
      name_closed mem (res_r t) (res_pos t - 1)
      /\ value_closed mem (res_r t) (res_pos t - 1)
      /\ byte_at mem (res_pos t - 1) = LF /\ (res_pos t <= last)%nat).
Proof.
  intros Hm Hp Hi Ha t.
  assert (H0 : inv mem pos (enter sw_start r)) by (split; [split; assumption|exact I]).
  pose proof (header_scan_inv mem au (enter sw_start r) pos last Hm Hp H0) as H.
  unfold t, ngx_http_parse_header_line.
  destruct (scan (step mem au) (enter sw_start r) pos (slice mem pos last))
    as [[l1 p1]|[[l1 p1] [rc| |]]]; cbn [conclude res_rc res_r res_pos].
  - destruct H as [[[H1 H2] _] _]. split; [exact H2|]. split; [intros _; exact H1|].
    intros H; discriminate H.
  - destruct H as ((H1 & H2) & _ & _ & ->). split; [exact H2|].
    split; [intros [H|H]; discriminate H|intros H; discriminate H].
  - destruct H as ((H1 & H2) & H3 & _ & H4 & H5 & H6).
    split; [exact H2|]. split; [intros _; exact H1|]. intros _.
    cbn [Nat.sub]. rewrite Nat.sub_0_r.
    split; [exact H5|]. split; [exact H6|]. split; [apply byte_at_nth, H4|lia].
  - destruct H as ((H1 & H2) & _). split; [exact H2|].
    split; [intros [H|H]; discriminate H|intros H; discriminate H].
Qed.

Lemma header_line_safe_witness :
  let mem := bs "X-A:b c " ++ crlf in
  let t := @ngx_http_parse_header_line lp64 mem false sw_start new_hreq 0 10 in
  name_closed mem (res_r t) 9 /\ value_closed mem (res_r t) 9.
Proof.
  intros mem t.
  assert (Hm : bytes mem) by (repeat constructor; vm_compute; congruence).
  assert (H1 : (0 <= 10 <= length mem)%nat) by (vm_compute; lia).
  assert (H2 : (lowcase_index new_hreq < NGX_HTTP_LC_HEADER_LEN)%nat) by (vm_compute; lia).
  destruct (header_line_safe lp64 mem false new_hreq 0 10 Hm H1 H2 eq_refl) as (_ & _ & H).
  assert (E : res_rc t = NGX_OK) by (vm_compute; reflexivity).
  destruct (H E) as (Hn & Hv & _). split; [exact Hn|exact Hv].
Defined.

(** a well-formed line "name: value CRLF" is read exactly: with a name of
    header characters, any number of spaces after the colon and a value that
    neither starts nor ends with a space, the marks delimit the name and the
    value, the hash is ngx_hash_key_lc() of the name, so that the header is
    found in the hash of known headers, and the lowercase buffer holds the
    lowercased name when it has room for it. *)
Theorem header_line_parses (P : Platform) (au : bool) (r : hreq)
    (name : list Z) (k : nat) (v : list Z) :
  name <> [] -> forallb header_char name = true -> bytes name ->
  v <> [] -> forallb value_byte v = true -> hd 0 v <> chr " " ->
  last v 0 <> chr " " -> length (lowcase_header r) = NGX_HTTP_LC_HEADER_LEN ->
  let line := header_text name k v in
  let n := length name in
  let t := ngx_http_parse_header_line line au sw_start r 0 (length line) in
  res_rc t = NGX_OK /\ res_pos t = length line
  /\ header_name_start (res_r t) = Some O /\ header_name_end (res_r t) = Some n
  /\ slice line 0 n = name
  /\ header_start (res_r t) = Some (n + 1 + k)%nat
  /\ header_end (res_r t) = Some (n + 1 + k + length v)%nat
  /\ slice line (n + 1 + k) (n + 1 + k + length v) = v
  /\ invalid_header (res_r t) = false
  /\ header_hash (res_r t) = ngx_hash_key_lc name
  /\ ((n <= NGX_HTTP_LC_HEADER_LEN)%nat ->
      firstn n (lowcase_header (res_r t)) = map ngx_tolower name).
Proof.
  intros Hne Hn Hb Hvne Hv Hhd Hlast Ha line n t.
  assert (E : t = mk_result NGX_OK sw_start (after_header r name k v) (length line)).
  { unfold t, ngx_http_parse_header_line, slice. rewrite Nat.sub_0_r. cbn [skipn].
    rewrite firstn_all. apply scan_header; assumption. }
  rewrite E. cbn [res_rc res_pos res_r].
  do 4 (split; [reflexivity|]).
  split. { apply (slice_app [] name (chr ":" :: repeat 32 k ++ v ++ crlf)). }
  do 2 (split; [reflexivity|]).
  split.
  { pose proof (slice_app (name ++ chr ":" :: repeat 32 k) v crlf) as H.
    rewrite <- app_assoc, length_app in H. cbn [length app] in H. rewrite repeat_length in H.
    unfold line, header_text, n. replace (length name + 1 + k)%nat with (length name + S k)%nat by lia.
    exact H. }
  do 2 (split; [reflexivity|]).
  intros Hle. cbn [after_header save lowcase_header set_end set_start set_name_end set_lowcase].
  pose proof (store_all_firstn name 0 (lowcase_header r) Ha Hle) as H. cbn [Nat.add firstn app] in H.
  unfold n. unfold after_header. cbn [save lowcase_header set_end set_start set_name_end set_lowcase].
  rewrite H. apply map_ext_in. intros c Hc. apply lc_tolower.
  - eapply Forall_forall; eassumption.
  - rewrite forallb_forall in Hn. apply Hn, Hc.
Qed.

Lemma header_line_parses_witness :
  let line := header_text (bs "Host") 1 (bs "a b") in
  let t := @ngx_http_parse_header_line lp64 line false sw_start new_hreq 0 (length line) in
  res_rc t = NGX_OK /\ header_hash (res_r t) = @ngx_hash_key_lc lp64 (bs "host").
Proof.
  intros line t.
  assert (H1 : forallb header_char (bs "Host") = true) by (vm_compute; reflexivity).
  assert (H2 : bytes (bs "Host")) by (repeat constructor; vm_compute; congruence).
  assert (H3 : forallb value_byte (bs "a b") = true) by (vm_compute; reflexivity).
  destruct (header_line_parses lp64 false new_hreq (bs "Host") 1 (bs "a b")
              ltac:(discriminate) H1 H2 ltac:(discriminate) H3
              ltac:(vm_compute; congruence) ltac:(vm_compute; congruence) eq_refl)
    as (Hrc & _ & _ & _ & _ & _ & _ & _ & _ & Hh & _).
  split; [exact Hrc|]. etransitivity; [exact Hh|]. vm_compute. reflexivity.
Defined.

End HeaderLine.
