(* ===== verification/HttpUri.v ===== *)
(** * The URI of a request

    Models of ngx_http_parse_uri() and ngx_http_parse_complex_uri() of
    [src/http/ngx_http_parse.c] and of ngx_http_process_request_uri() of
    [src/http/ngx_http_request.c] (without the [NGX_WIN32] parts).  The first
    scans a URI and notes whether it needs attention, the second decodes and
    normalizes it, and the third runs the second on the URIs that need it. *)

From Stdlib Require Import String Ascii ZArith Bool Lia ZifyBool List.
From S2P Require Import Prelude HttpRequest.
Import ListNotations.
Local Open Scope Z_scope.

(** ** ngx_http_parse_uri() *)

Module ParseUri.

Inductive sw := sw_start | sw_after_slash_in_uri | sw_check_uri | sw_uri.

Definition control (ch : Z) : bool := (ch <=? 0x20) || (ch =? 0x7f).

(** One iteration on the byte at [p]; [inr] leaves the loop with an error. *)
Definition step (st : sw * request) (p : nat) (ch : Z) : (sw * request) + (Z * request) :=
  let '(s, r) := st in
  match s with
  | sw_start =>
      if negb (ch =? chr "/") then inr (NGX_ERROR, r)
      else inl (sw_after_slash_in_uri, r)
  | sw_after_slash_in_uri =>
      if is_usual ch then inl (sw_check_uri, r)
      else if ch =? chr "." then inl (sw_uri, set_complex_uri true r)
      else if ch =? chr "%" then inl (sw_uri, set_quoted_uri true r)
      else if ch =? chr "/" then inl (sw_uri, set_complex_uri true r)
      else if ch =? chr "?" then inl (sw_uri, set_args_start (Some (S p)) r)
      else if ch =? chr "#" then inl (sw_uri, set_complex_uri true r)
      else if ch =? chr "+" then inl (s, set_plus_in_uri true r)
      else if control ch then inr (NGX_ERROR, r)
      else inl (sw_check_uri, r)
  | sw_check_uri =>
      if is_usual ch then inl (s, r)
      else if ch =? chr "/" then inl (sw_after_slash_in_uri, set_uri_ext None r)
      else if ch =? chr "." then inl (s, set_uri_ext (Some (S p)) r)
      else if ch =? chr "%" then inl (sw_uri, set_quoted_uri true r)
      else if ch =? chr "?" then inl (sw_uri, set_args_start (Some (S p)) r)
      else if ch =? chr "#" then inl (sw_uri, set_complex_uri true r)
      else if ch =? chr "+" then inl (s, set_plus_in_uri true r)
      else if control ch then inr (NGX_ERROR, r)
      else inl (s, r)
  | sw_uri =>
      if is_usual ch then inl (s, r)
      else if ch =? chr "#" then inl (s, set_complex_uri true r)
      else if control ch then inr (NGX_ERROR, r)
      else inl (s, r)
  end.

(** The URI is the memory from [a] to [b], [r->uri_start] to [r->uri_end]. *)
Definition ngx_http_parse_uri (mem : list Z) (a b : nat) (r : request)
    : Z * request :=
  let r := set_uri_end (Some b) (set_uri_start (Some a) r) in
  match scan step (sw_start, r) a (slice mem a b) with
  | inl ((_, r'), _) => (NGX_OK, r')
  | inr e => e
  end.

End ParseUri.

(** ** ngx_http_parse_complex_uri() *)

Module ComplexUri.

Inductive sw :=
  | sw_usual | sw_slash | sw_dot | sw_dot_dot | sw_quoted | sw_quoted_second.

(** The local variables of the loop.  [out] is what is written to
    [r->uri.data] below [u], last byte first. *)
Record st := mk_st {
  state : sw;
  quoted_state : sw;
  decoded : Z;
  out : list Z;
  ext : option nat;           (* r->uri_ext, an offset in the output *)
  plus : bool;                (* r->plus_in_uri *)
  quoted : bool               (* r->quoted_uri *)
}.

Definition goto (s : sw) (x : st) : st :=
  mk_st s (quoted_state x) (decoded x) (out x) (ext x) (plus x) (quoted x).

Definition write (o : list Z) (x : st) : st :=
  mk_st (state x) (quoted_state x) (decoded x) o (ext x) (plus x) (quoted x).

(** [*u++ = ch] *)
Definition put (ch : Z) (x : st) : st := write (ch :: out x) x.

Definition set_ext (e : option nat) (x : st) : st :=
  mk_st (state x) (quoted_state x) (decoded x) (out x) e (plus x) (quoted x).

Definition set_plus (x : st) : st :=
  mk_st (state x) (quoted_state x) (decoded x) (out x) (ext x) true (quoted x).

Definition set_quoted (x : st) : st :=
  mk_st (state x) (quoted_state x) (decoded x) (out x) (ext x) (plus x) true.

Definition set_decoded (d : Z) (x : st) : st :=
  mk_st (state x) (quoted_state x) d (out x) (ext x) (plus x) (quoted x).

(** [quoted_state = state; state = sw_quoted] *)
Definition quote (x : st) : st :=
  mk_st sw_quoted (state x) (decoded x) (out x) (ext x) (plus x) (quoted x).

(** The loop that looks for a slash at [u] or below: [None] when it gets
    below [r->uri.data]. *)
Fixpoint find_slash (o : list Z) : option (list Z) :=
  match o with
  | [] => None
  | c :: o' => if c =? chr "/" then Some o else find_slash o'
  end.

(** [u -= 4] and the loop.  The byte at the new [u] is the one before the
    last three written. *)
Definition pop (o : list Z) : option (list Z) := find_slash (skipn 3 o).

Inductive act :=
  | Next (x : st)                (* ch = *p++; break *)
  | Redo (x : st) (ch : Z)       (* break, with [ch] decoded *)
  | Goto_args (x : st)
  | Goto_done (x : st)
  | Invalid.

(** The [default] of the switches, and the [case '+'] that falls into it. *)
Definition other (ch : Z) (x : st) : act :=
  if ch =? chr "+" then Next (put ch (goto sw_usual (set_plus x)))
  else Next (put ch (goto sw_usual x)).

Definition step_usual (x : st) (ch : Z) : act :=
  if is_usual ch then Next (put ch x)
  else if ch =? chr "/" then Next (put ch (goto sw_slash (set_ext None x)))
  else if ch =? chr "%" then Next (quote x)
  else if ch =? chr "?" then Goto_args x
  else if ch =? chr "#" then Goto_done x
  else if ch =? chr "." then Next (put ch (set_ext (Some (S (length (out x)))) x))
  else other ch x.

Definition step_slash (merge_slashes : bool) (x : st) (ch : Z) : act :=
  if is_usual ch then Next (put ch (goto sw_usual x))
  else if ch =? chr "/" then Next (if merge_slashes then x else put ch x)
  else if ch =? chr "." then Next (put ch (goto sw_dot x))
  else if ch =? chr "%" then Next (quote x)
  else if ch =? chr "?" then Goto_args x
  else if ch =? chr "#" then Goto_done x
  else other ch x.

Definition step_dot (x : st) (ch : Z) : act :=
  let back := write (tl (out x)) x in (* u-- *)
  if is_usual ch then Next (put ch (goto sw_usual x))
  else if ch =? chr "/" then Next (goto sw_slash back)
  else if ch =? chr "." then Next (put ch (goto sw_dot_dot x))
  else if ch =? chr "%" then Next (quote x)
  else if ch =? chr "?" then Goto_args back
  else if ch =? chr "#" then Goto_done back
  else other ch x.

Definition step_dot_dot (x : st) (ch : Z) : act :=
  if is_usual ch then Next (put ch (goto sw_usual x))
  else if (ch =? chr "/") || (ch =? chr "?") || (ch =? chr "#") then
    match pop (out x) with
    | None => Invalid
    | Some o =>
        let x := write o x in
        if ch =? chr "?" then Goto_args x
        else if ch =? chr "#" then Goto_done x
        else Next (goto sw_slash x)
    end
  else if ch =? chr "%" then Next (quote x)
  else other ch x.

Definition step_quoted (x : st) (ch : Z) : act :=
  match c_hex_digit ch with
  | Some d => Next (goto sw_quoted_second (set_decoded d (set_quoted x)))
  | None => Invalid
  end.

Definition step_quoted_second (x : st) (ch : Z) : act :=
  if (ch >=? chr "0") && (ch <=? chr "9") then
    let ch := (Z.shiftl (decoded x) 4 + (ch - chr "0")) mod 256 in
    if (ch =? chr "%") || (ch =? chr "#") then Next (put ch (goto sw_usual x))
    else if ch =? 0 then Invalid
    else Redo (goto (quoted_state x) x) ch
  else
    let c := Z.lor ch 32 in
    if (c >=? chr "a") && (c <=? chr "f") then
      let ch := (Z.shiftl (decoded x) 4 + (c - chr "a") + 10) mod 256 in
      if ch =? chr "?" then Next (put ch (goto sw_usual x))
      else
        let x := if ch =? chr "+" then set_plus x else x in
        Redo (goto (quoted_state x) x) ch
    else Invalid.

Definition step (merge_slashes : bool) (x : st) (ch : Z) : act :=
  match state x with
  | sw_usual => step_usual x ch
  | sw_slash => step_slash merge_slashes x ch
  | sw_dot => step_dot x ch
  | sw_dot_dot => step_dot_dot x ch
  | sw_quoted => step_quoted x ch
  | sw_quoted_second => step_quoted_second x ch
  end.

(** How the loop is left. *)
Inductive exit :=
  | At_end (x : st)
  | At_args (x : st) (p : nat) (l : list Z)
  | At_done (x : st)
  | At_invalid
  | Out_of_fuel.

(** The loop.  The list holds [ch] and the bytes from [p] to [r->uri_end];
    an iteration that decodes [ch] leaves [p] where it is. *)
Fixpoint loop (fuel : nat) (merge_slashes : bool) (x : st) (p : nat) (l : list Z)
    : exit :=
  match fuel with
  | O => Out_of_fuel
  | S fuel' =>
      match l with
      | [] => At_end x
      | ch :: l' =>
          match step merge_slashes x ch with
          | Next x' => loop fuel' merge_slashes x' (S p) l'
          | Redo x' ch' => loop fuel' merge_slashes x' p (ch' :: l')
          | Goto_args x' => At_args x' p l'
          | Goto_done x' => At_done x'
          | Invalid => At_invalid
          end
      end
  end.

(** What the function leaves in the request. *)
Record result := mk_result {
  x_uri : list Z;
  x_exten : option (list Z);
  x_args_start : option nat;
  x_args : option (nat * nat);  (* r->args, from an offset to an offset *)
  x_plus : bool;
  x_quoted : bool
}.

(** The label [done] and the end of [args]. *)
Definition conclude (x : st) (args_start : option nat) (args : option (nat * nat))
    : result :=
  let uri := rev (out x) in
  mk_result uri
    match ext x with Some e => Some (skipn e uri) | None => None end
    args_start args (plus x) (quoted x).

(** The label [args]: the arguments end at a "#". *)
Fixpoint find_hash (p : nat) (l : list Z) : option nat :=
  match l with
  | [] => None
  | c :: l' => if c =? chr "#" then Some p else find_hash (S p) l'
  end.

Definition args (x : st) (p : nat) (l : list Z) : result :=
  match find_hash p l with
  | Some q => conclude x None (Some (p, q))
  | None => conclude x (Some p) None
  end.

(** After the loop. *)
Definition at_end (x : st) : option result :=
  match state x with
  | sw_quoted | sw_quoted_second => None
  | sw_dot => Some (conclude (write (tl (out x)) x) None None)
  | sw_dot_dot =>
      match pop (out x) with
      | None => None
      | Some o => Some (conclude (write o x) None None)
      end
  | _ => Some (conclude x None None)
  end.

Definition init (r : request) : st :=
  mk_st sw_usual sw_usual 0 (if empty_path_in_uri r then [chr "/"] else []) None
    (plus_in_uri r) (quoted_uri r).

(** [None] is NGX_HTTP_PARSE_INVALID_REQUEST.  [a] and [l] are
    [r->uri_start] and the bytes from it to [r->uri_end].  A byte takes two
    iterations at most, so that the fuel is never used up
    ([loop_never_out_of_fuel]). *)
Definition ngx_http_parse_complex_uri (r : request) (merge_slashes : bool)
    (a : nat) (l : list Z) : option result :=
  match loop (S (2 * length l)) merge_slashes (init r) (S a) l with
  | At_end x => at_end x
  | At_args x p l' => Some (args x p l')
  | At_done x => Some (conclude x None None)
  | At_invalid | Out_of_fuel => None
  end.

Definition uri_of (merge : bool) (s : string) : option (list Z) :=
  option_map x_uri (ngx_http_parse_complex_uri new_request merge 0 (bs s)).

Example complex_uri_1 : uri_of true "/a/./b//c/%2e%2E/d%3f?x#y" = Some (bs "/a/b/d?").
Proof. vm_compute. reflexivity. Qed.

Example complex_uri_2 : uri_of false "/a//../b/.." = Some (bs "/a/").
Proof. vm_compute. reflexivity. Qed.

Example complex_uri_3 : uri_of true "/a/../../b" = None.
Proof. vm_compute. reflexivity. Qed.

End ComplexUri.

(** ** ngx_http_process_request_uri() *)

Module RequestUri.
Import ComplexUri.

(** The strings the function sets. *)
Record uri_fields := mk_fields {
  f_uri : list Z;
  f_exten : option (list Z);
  f_args : option (list Z);
  f_unparsed_uri : list Z;
  f_valid_unparsed_uri : bool
}.

(** [r->uri.len] as computed at the start. *)
Definition raw_len (r : request) (a b : nat) : nat :=
  match args_start r with
  | Some s => (s - 1 - a)%nat
  | None => (b - a)%nat
  end.

(** The size of the buffer for a complex URI. *)
Definition alloc_len (r : request) (a b : nat) : nat :=
  if empty_path_in_uri r then S (raw_len r a b) else raw_len r a b.

Definition is_complex (r : request) : bool :=
  complex_uri r || quoted_uri r || empty_path_in_uri r.

(** [if (r->args_start && r->uri_end > r->args_start)] *)
Definition tail_args (mem : list Z) (args_start : option nat) (b : nat)
    : option (list Z) :=
  match args_start with
  | Some s => if (s <? b)%nat then Some (slice mem s b) else None
  | None => None
  end.

(** [None] is NGX_ERROR, the request being finalized with 400. *)
Definition ngx_http_process_request_uri (mem : list Z) (merge_slashes : bool)
    (r : request) (a b : nat) : option uri_fields :=
  let unparsed := slice mem a b in
  let valid := negb (empty_path_in_uri r) in
  if is_complex r then
    match ngx_http_parse_complex_uri r merge_slashes a unparsed with
    | None => None
    | Some x =>
        Some (mk_fields (x_uri x) (x_exten x)
                match tail_args mem (x_args_start x) b with
                | Some t => Some t
                | None =>
                    match x_args x with
                    | Some (i, j) => Some (slice mem i j)
                    | None => None
                    end
                end unparsed valid)
    end
  else
    Some (mk_fields (slice mem a (a + raw_len r a b))
            match uri_ext r with
            | Some e =>
                Some match args_start r with
                     | Some s => slice mem e (s - 1)
                     | None => slice mem e b
                     end
            | None => None
            end
            (tail_args mem (args_start r) b) unparsed valid).

End RequestUri.

(** ** What a normalized path is *)

Module Path.
Import ComplexUri.

(** *** Percent decoding, up to the end of the path *)

Inductive stop := Stop_end | Stop_args (p : nat) (l : list Z) | Stop_hash.

Definition prepend (c : Z) (d : option (list Z * stop)) : option (list Z * stop) :=
  match d with Some (l, e) => Some (c :: l, e) | None => None end.

(** [p] is the position after the first byte of [l]. *)
Fixpoint decode (p : nat) (l : list Z) : option (list Z * stop) :=
  match l with
  | [] => Some ([], Stop_end)
  | c :: l' =>
      if c =? chr "?" then Some ([], Stop_args p l')
      else if c =? chr "#" then Some ([], Stop_hash)
      else if c =? chr "%" then
        match l' with
        | h1 :: h2 :: l'' =>
            match hex_digit h1, hex_digit h2 with
            | Some a, Some b =>
                if a * 16 + b =? 0 then None
                else prepend (a * 16 + b) (decode (S (S (S p))) l'')
            | _, _ => None
            end
        | _ => None
        end
      else prepend c (decode (S p) l')
  end.

(** *** Dot segments *)

(** The segments between the slashes; never empty. *)
Fixpoint split (l : list Z) : list (list Z) :=
  match l with
  | [] => [[]]
  | c :: l' =>
      if c =? chr "/" then [] :: split l'
      else
        match split l' with
        | s :: ss => (c :: s) :: ss
        | [] => [[c]]
        end
  end.

Inductive kind := Empty | Dot | Dot_dot | Name.

Definition classify (s : list Z) : kind :=
  match s with
  | [] => Empty
  | [46] => Dot
  | [46; 46] => Dot_dot
  | _ => Name
  end.

(** The names kept, last first, and whether the path ends in a slash. *)
Fixpoint resolve (merge : bool) (stk : list (list Z)) (segs : list (list Z))
    : option (list (list Z) * bool) :=
  match segs with
  | [] => Some (stk, true)
  | s :: rest =>
      let last := match rest with [] => true | _ => false end in
      match classify s with
      | Empty => resolve merge (if last || merge then stk else [] :: stk) rest
      | Dot => resolve merge stk rest
      | Dot_dot =>
          match stk with
          | [] => None
          | _ :: stk' => resolve merge stk' rest
          end
      | Name => if last then Some (s :: stk, false) else resolve merge (s :: stk) rest
      end
  end.

(** A slash, and a name and a slash for each name: a directory. *)
Definition directory (stk : list (list Z)) : list Z :=
  chr "/" :: concat (map (fun s => s ++ [chr "/"]) (rev stk)).

Definition render (t : list (list Z) * bool) : list Z :=
  match t with
  | (s :: stk, false) => directory stk ++ s
  | (stk, _) => directory stk
  end.

(** The normal form of a path that starts with a slash. *)
Definition normalize (merge : bool) (path : list Z) : option (list Z) :=
  match path with
  | 47 :: rest => option_map render (resolve merge [] (split rest))
  | _ => None
  end.

(** *** The path machine: the four states without the percent sign *)

Definition feed (merge : bool) (s : sw) (o : list Z) (c : Z) : option (sw * list Z) :=
  if c =? chr "/" then
    match s with
    | sw_slash => Some (sw_slash, if merge then o else c :: o)
    | sw_dot => Some (sw_slash, tl o)
    | sw_dot_dot =>
        match pop o with Some o' => Some (sw_slash, o') | None => None end
    | _ => Some (sw_slash, c :: o)
    end
  else
    Some (match s with
          | sw_slash => if c =? chr "." then sw_dot else sw_usual
          | sw_dot => if c =? chr "." then sw_dot_dot else sw_usual
          | _ => sw_usual
          end, c :: o).

Fixpoint feed_all (merge : bool) (s : sw) (o : list Z) (l : list Z)
    : option (sw * list Z) :=
  match l with
  | [] => Some (s, o)
  | c :: l' =>
      match feed merge s o c with
      | Some (s', o') => feed_all merge s' o' l'
      | None => None
      end
  end.

Definition finish (s : sw) (o : list Z) : option (list Z) :=
  match s with
  | sw_dot => Some (tl o)
  | sw_dot_dot => pop o
  | _ => Some o
  end.

Definition run (merge : bool) (s : sw) (o : list Z) (l : list Z) : option (list Z) :=
  match feed_all merge s o l with
  | Some (s', o') => finish s' o'
  | None => None
  end.

Lemma feed_all_app merge l1 l2 : forall s o,
  feed_all merge s o (l1 ++ l2) =
  match feed_all merge s o l1 with
  | Some (s', o') => feed_all merge s' o' l2
  | None => None
  end.
Proof.
  induction l1 as [|c l1 IH]; intros s o; cbn [app feed_all]; [reflexivity|].
  destruct (feed merge s o c) as [[s' o']|]; auto.
Qed.

(** *** The path machine resolves segments *)

Definition no_slash (s : list Z) : Prop := Forall (fun c => c <> 47) s.

Definition seg_state (s : list Z) : sw :=
  match classify s with
  | Empty => sw_slash | Dot => sw_dot | Dot_dot => sw_dot_dot | Name => sw_usual
  end.

Lemma feed_usual merge l : no_slash l -> forall o,
  feed_all merge sw_usual o l = Some (sw_usual, rev l ++ o).
Proof.
  induction 1 as [|c l Hc Hl IH]; intros o; [reflexivity|].
  cbn [feed_all]. unfold feed. replace (c =? 47) with false by lia.
  rewrite IH. cbn [rev]. rewrite <- app_assoc. reflexivity.
Qed.

Lemma classify_name a l : a <> 46 \/ (l <> [] /\ l <> [46]) ->
  classify (a :: l) = Name.
Proof.
  intros H. unfold classify.
  repeat match goal with |- context [match ?x with _ => _ end] => destruct x end;
    try reflexivity; exfalso; destruct H as [H|[H1 H2]]; congruence.
Qed.

Lemma classify_inv s :
  match classify s with
  | Empty => s = []
  | Dot => s = [46]
  | Dot_dot => s = [46; 46]
  | Name => s <> [] /\ s <> [46] /\ s <> [46; 46]
  end.
Proof.
  unfold classify.
  repeat match goal with |- context [match ?x with _ => _ end] => is_var x; destruct x end;
    repeat split; discriminate.
Qed.

Lemma feed_segment merge s o : no_slash s ->
  feed_all merge sw_slash o s = Some (seg_state s, rev s ++ o).
Proof.
  intros Hs. destruct Hs as [|a l Ha Hl]; [reflexivity|].
  cbn [feed_all]. unfold feed at 1. replace (a =? 47) with false by lia.
  destruct (a =? 46) eqn:Ea; [replace a with 46 by lia|].
  2: { rewrite feed_usual by assumption. cbn [rev]. rewrite <- app_assoc.
       unfold seg_state. rewrite classify_name by lia. reflexivity. }
  destruct Hl as [|b l Hb Hl]; [reflexivity|].
  cbn [feed_all]. unfold feed at 1. replace (b =? 47) with false by lia.
  destruct (b =? 46) eqn:Eb; [replace b with 46 by lia|].
  2: { rewrite feed_usual by assumption. cbn [rev]. rewrite <- !app_assoc.
       unfold seg_state. rewrite classify_name by (right; split; congruence || (intros [=]; lia)).
       reflexivity. }
  destruct Hl as [|c l Hc Hl]; [reflexivity|].
  cbn [feed_all]. unfold feed at 1. replace (c =? 47) with false by lia.
  rewrite feed_usual by assumption. cbn [rev]. rewrite <- !app_assoc. reflexivity.
Qed.

Lemma split_segment s : no_slash s -> split s = [s].
Proof.
  induction 1 as [|c s Hc Hs IH]; [reflexivity|].
  cbn [split]. replace (c =? 47) with false by lia. rewrite IH. reflexivity.
Qed.

Lemma split_nonempty l : split l <> [].
Proof.
  destruct l as [|c l]; cbn [split]; [discriminate|].
  split_if; [discriminate|]. destruct (split l); discriminate.
Qed.

Lemma split_app s l : no_slash s -> split (s ++ 47 :: l) = s :: split l.
Proof.
  induction 1 as [|c s Hc Hs IH]; [reflexivity|].
  cbn [app split]. replace (c =? 47) with false by lia. rewrite IH. reflexivity.
Qed.

(** Induction over the segments of a path. *)
Lemma segments_ind (Q : list Z -> Prop) :
  (forall s, no_slash s -> Q s) ->
  (forall s l, no_slash s -> Q l -> Q (s ++ 47 :: l)) -> forall l, Q l.
Proof.
  intros H1 H2 l.
  assert (H : forall s, no_slash s -> Q (s ++ l)); [|apply (H []); constructor].
  induction l as [|c l IH]; intros s Hs; [rewrite app_nil_r; auto|].
  destruct (Z.eq_dec c 47) as [->|Hc].
  - apply H2; [assumption|]. apply (IH []). constructor.
  - change (c :: l) with ([c] ++ l). rewrite app_assoc. apply IH.
    apply Forall_app. split; [assumption|]. repeat constructor. exact Hc.
Qed.

Lemma directory_cons s stk : directory (s :: stk) = directory stk ++ s ++ [47].
Proof.
  unfold directory. cbn [rev]. rewrite map_app, concat_app. cbn [map concat app].
  rewrite app_nil_r. reflexivity.
Qed.

Lemma rev_directory_cons s stk :
  rev (directory (s :: stk)) = 47 :: rev s ++ rev (directory stk).
Proof. rewrite directory_cons, !rev_app_distr. reflexivity. Qed.

Lemma rev_directory stk : exists o, rev (directory stk) = 47 :: o.
Proof.
  destruct stk as [|s stk]; [exists []; reflexivity|].
  rewrite rev_directory_cons. eexists; reflexivity.
Qed.

Lemma find_slash_skip s o : no_slash s -> find_slash (rev s ++ 47 :: o) = Some (47 :: o).
Proof.
  intros Hs. apply Forall_rev in Hs. induction Hs as [|c s' Hc Hs IH]; [reflexivity|].
  cbn [app find_slash]. replace (c =? 47) with false by lia. exact IH.
Qed.

Lemma pop_directory stk :
  Forall no_slash stk ->
  pop (46 :: 46 :: rev (directory stk)) =
  match stk with [] => None | _ :: stk' => Some (rev (directory stk')) end.
Proof.
  destruct 1 as [|s stk Hs Hstk]; [reflexivity|].
  rewrite rev_directory_cons. unfold pop. cbn [skipn].
  destruct (rev_directory stk) as [o ->]. apply find_slash_skip, Hs.
Qed.

(** The segment [s] is finished by a slash. *)
Lemma feed_slash merge s stk l :
  no_slash s -> Forall no_slash stk ->
  feed_all merge sw_slash (rev (directory stk)) (s ++ 47 :: l) =
  match classify s with
  | Empty => feed_all merge sw_slash
               (rev (directory (if merge then stk else [] :: stk))) l
  | Dot => feed_all merge sw_slash (rev (directory stk)) l
  | Dot_dot =>
      match stk with
      | [] => None
      | _ :: stk' => feed_all merge sw_slash (rev (directory stk')) l
      end
  | Name => feed_all merge sw_slash (rev (directory (s :: stk))) l
  end.
Proof.
  intros Hs Hstk. rewrite feed_all_app, feed_segment by assumption.
  cbn [feed_all]. unfold feed, seg_state. cbn [Z.eqb Pos.eqb].
  pose proof (classify_inv s) as HI. destruct (classify s); subst; cbn [rev app].
  - destruct merge; [reflexivity|]. rewrite rev_directory_cons. reflexivity.
  - reflexivity.
  - rewrite pop_directory by assumption. destruct stk; reflexivity.
  - rewrite rev_directory_cons. reflexivity.
Qed.

(** The segment [s] ends the path. *)
Lemma run_last merge s stk :
  no_slash s -> Forall no_slash stk ->
  run merge sw_slash (rev (directory stk)) s =
  match classify s with
  | Empty | Dot => Some (rev (directory stk))
  | Dot_dot =>
      match stk with [] => None | _ :: stk' => Some (rev (directory stk')) end
  | Name => Some (rev (directory stk ++ s))
  end.
Proof.
  intros Hs Hstk. unfold run. rewrite feed_segment by assumption. unfold seg_state.
  pose proof (classify_inv s) as HI. destruct (classify s); subst; cbn [finish rev app tl].
  - reflexivity.
  - reflexivity.
  - apply pop_directory, Hstk.
  - rewrite rev_app_distr. reflexivity.
Qed.

Lemma run_resolves merge l : forall stk,
  Forall no_slash stk ->
  run merge sw_slash (rev (directory stk)) l =
  option_map (fun t => rev (render t)) (resolve merge stk (split l)).
Proof.
  induction l as [s Hs|s l Hs IH] using segments_ind; intros stk Hstk.
  - rewrite run_last, split_segment by assumption. cbn [resolve].
    pose proof (classify_inv s) as HI.
    destruct (classify s); [| |destruct stk as [|t stk]|]; cbn [orb option_map render];
      try destruct stk; reflexivity.
  - rewrite split_app by assumption. unfold run in *. rewrite feed_slash by assumption.
    cbn [resolve]. destruct (split l) as [|s2 ss] eqn:El; [destruct (split_nonempty l El)|].
    pose proof (classify_inv s) as HI.
    destruct (classify s); [|apply IH; assumption| |].
    + cbn [orb]. apply IH. destruct merge; [assumption|]. constructor; [constructor|assumption].
    + destruct stk as [|t stk]; [reflexivity|]. apply IH. inversion Hstk; assumption.
    + apply IH. constructor; assumption.
Qed.

Lemma run_normalizes merge l :
  run merge sw_usual [] (47 :: l) = option_map (@rev Z) (normalize merge (47 :: l)).
Proof.
  unfold normalize. change (run merge sw_usual [] (47 :: l))
    with (run merge sw_slash (rev (directory [])) l).
  rewrite run_resolves by constructor.
  destruct (resolve merge [] (split l)); reflexivity.
Qed.

(** *** The loop decodes and runs the path machine *)

Definition base_state (s : sw) : Prop := s <> sw_quoted /\ s <> sw_quoted_second.

(** The URI and the arguments an exit of the loop leads to. *)
Definition outcome (e : exit) : option (list Z * option nat * option (nat * nat)) :=
  option_map (fun x => (x_uri x, x_args_start x, x_args x))
    match e with
    | At_end x => at_end x
    | At_args x p l' => Some (args x p l')
    | At_done x => Some (conclude x None None)
    | At_invalid | Out_of_fuel => None
    end.

Definition args_of (e : stop) : option nat * option (nat * nat) :=
  match e with
  | Stop_args p l =>
      match find_hash p l with Some q => (None, Some (p, q)) | None => (Some p, None) end
  | _ => (None, None)
  end.

Definition expected (merge : bool) (s : sw) (o : list Z) (d : option (list Z * stop))
    : option (list Z * option nat * option (nat * nat)) :=
  match d with
  | None => None
  | Some (path, e) =>
      match run merge s o path with
      | Some o' => Some (rev o', fst (args_of e), snd (args_of e))
      | None => None
      end
  end.

Lemma expected_prepend merge s o c d :
  expected merge s o (prepend c d) =
  match feed merge s o c with
  | Some (s', o') => expected merge s' o' d
  | None => None
  end.
Proof.
  unfold expected, prepend, run. destruct d as [[l e]|]; cbn [feed_all];
    destruct (feed merge s o c) as [[s' o']|]; reflexivity.
Qed.

Lemma not_usual c : In c [47; 46; 63; 35; 37; 43] -> is_usual c = false.
Proof. intros H. repeat destruct H as [<-|H]; try reflexivity. destruct H. Qed.

(** A byte that does not end the path: in the four states the iteration is
    a move of the path machine. *)
Lemma step_feeds merge x c :
  base_state (state x) -> c <> 37 -> c <> 63 -> c <> 35 -> is_byte c ->
  match step merge x c with
  | Next x' => feed merge (state x) (out x) c = Some (state x', out x')
               /\ base_state (state x')
  | Invalid => feed merge (state x) (out x) c = None
  | _ => False
  end.
Proof.
  intros [H1 H2] Hp Hq Hh Hb. unfold step.
  destruct (is_usual c) eqn:Eu.
  - assert (c <> 47 /\ c <> 46) as [Hs Hd]
      by (split; intros ->; discriminate Eu).
    unfold step_usual, step_slash, step_dot, step_dot_dot, feed. rewrite Eu.
    replace (c =? 47) with false by lia. replace (c =? 46) with false by lia.
    destruct (state x) eqn:Es; try congruence; cbn [state out put write goto];
      rewrite ?Es; repeat split; discriminate.
  - destruct (state x) eqn:Es; try congruence;
      unfold step_usual, step_slash, step_dot, step_dot_dot, feed, other; rewrite Eu;
      replace (c =? 37) with false by lia; replace (c =? 63) with false by lia;
      replace (c =? 35) with false by lia; rewrite ?orb_false_r;
      destruct (c =? 47) eqn:E47; [replace (c =? 46) with false by lia|..];
      destruct (c =? 46) eqn:E46; try lia;
      try (destruct (pop (out x)); [|reflexivity]);
      destruct merge, (c =? 43); cbn [state out put write goto set_plus set_ext]; rewrite ?Es;
      repeat split; discriminate.
Qed.

(** A byte that ends the path. *)
Lemma step_ends merge x c :
  base_state (state x) -> c = 63 \/ c = 35 ->
  step merge x c =
  match finish (state x) (out x) with
  | Some o => if c =? 63 then Goto_args (write o x) else Goto_done (write o x)
  | None => Invalid
  end.
Proof.
  intros [H1 H2] Hc. assert (Hu : is_usual c = false) by (apply not_usual; simpl; lia).
  destruct x as [s qs d o e pl q]. cbn [state out] in *.
  unfold step, step_usual, step_slash, step_dot, step_dot_dot. cbn [state out finish].
  destruct s; try congruence; rewrite Hu; destruct Hc as [->| ->];
    cbn [Z.eqb Pos.eqb orb finish write state out quoted_state decoded ext plus quoted];
    try reflexivity; destruct (pop o); reflexivity.
Qed.

Lemma hex_pair a b : 0 <= a < 16 -> 0 <= b < 16 ->
  (Z.shiftl a 4 + b) mod 256 = a * 16 + b.
Proof. intros. rewrite Z.shiftl_mul_pow2 by lia. rewrite Z.mod_small; lia. Qed.

(** The second digit of an escape. *)
Lemma step_escape x h :
  is_byte h -> 0 <= decoded x < 16 ->
  match hex_digit h with
  | None => step_quoted_second x h = Invalid
  | Some b =>
      let v := decoded x * 16 + b in
      if v =? 0 then step_quoted_second x h = Invalid
      else if (v =? 37) || (v =? 35) || (v =? 63)
      then step_quoted_second x h = Next (put v (goto sw_usual x))
      else exists x', step_quoted_second x h = Redo x' v /\
                      state x' = quoted_state x /\ out x' = out x
  end.
Proof.
  intros Hb Hd. rewrite <- c_hex_digit_spec by assumption.
  unfold c_hex_digit, step_quoted_second.
  destruct ((h >=? 48) && (h <=? 57)) eqn:E1.
  - cbv zeta. rewrite hex_pair by lia. set (v := decoded x * 16 + (h - 48)).
    replace (v =? 63) with false by lia. rewrite orb_false_r.
    destruct ((v =? 37) || (v =? 35)) eqn:E2.
    + replace (v =? 0) with false by lia. reflexivity.
    + destruct (v =? 0); [reflexivity|]. eexists. split; [reflexivity|]. auto.
  - cbv zeta. set (c := Z.lor h 32).
    destruct ((c >=? 97) && (c <=? 102)) eqn:E2; [|reflexivity].
    replace (Z.shiftl (decoded x) 4 + (c - 97) + 10) with
      (Z.shiftl (decoded x) 4 + (c - 97 + 10)) by lia.
    rewrite hex_pair by lia. set (v := decoded x * 16 + (c - 97 + 10)).
    replace (v =? 0) with false by lia. replace (v =? 37) with false by lia.
    replace (v =? 35) with false by lia. cbn [orb].
    destruct (v =? 63); [reflexivity|].
    eexists. split; [reflexivity|]. destruct (v =? 43); auto.
Qed.

(** A decoded byte that stands for itself. *)
Lemma feed_literal merge s o v :
  base_state s -> In v [37; 35; 63] -> feed merge s o v = Some (sw_usual, v :: o).
Proof.
  intros [H1 H2] H. unfold feed.
  repeat destruct H as [<-|H]; try destruct H; destruct s; congruence || reflexivity.
Qed.

Section Loop.
Variable merge : bool.

Definition follows_spec (l : list Z) : Prop := forall fuel x p,
  (2 * length l < fuel)%nat -> base_state (state x) -> bytes l ->
  outcome (loop fuel merge x p l) = expected merge (state x) (out x) (decode p l).

(** One byte that is not an escape, [l] being understood. *)
Lemma loop_feeds l fuel x p p' c :
  follows_spec l -> (2 * length l < fuel)%nat -> base_state (state x) ->
  is_byte c -> bytes l -> c <> 37 -> c <> 63 -> c <> 35 -> S p = p' ->
  outcome (loop (S fuel) merge x p (c :: l)) =
  expected merge (state x) (out x) (prepend c (decode p' l)).
Proof.
  intros IH Hf Hb Hc Hl H1 H2 H3 <-. cbn [loop].
  pose proof (step_feeds merge x c Hb H1 H2 H3 Hc) as HS.
  rewrite expected_prepend.
  destruct (step merge x c) as [x'| | | |]; try contradiction.
  - destruct HS as [-> Hb']. apply IH; assumption.
  - rewrite HS. reflexivity.
Qed.

Lemma step_percent x : base_state (state x) -> step merge x 37 = Next (quote x).
Proof.
  intros [H1 H2]. unfold step, step_usual, step_slash, step_dot, step_dot_dot.
  destruct (state x); try congruence; reflexivity.
Qed.

(** An escape and what follows it. *)
Lemma loop_escape n l fuel x p :
  (forall l', (length l' <= n)%nat -> follows_spec l') ->
  (length l <= n)%nat -> (2 * S (length l) < S fuel)%nat -> base_state (state x) -> bytes l ->
  outcome (loop (S fuel) merge x p (37 :: l)) =
  expected merge (state x) (out x) (decode p (37 :: l)).
Proof.
  intros IH Hn Hf Hb Hl. cbn [loop decode Z.eqb Pos.eqb]. rewrite step_percent by assumption.
  destruct l as [|h1 l]; [destruct fuel; reflexivity|].
  inversion Hl as [|? ? Hh1 Hl1]; subst. cbn [length] in *.
  do 2 (destruct fuel as [|fuel]; [lia|]). cbn [loop step quote state].
  unfold step_quoted. rewrite c_hex_digit_spec by assumption.
  destruct (hex_digit h1) as [a|] eqn:E1; [|destruct l; reflexivity].
  destruct l as [|h2 l]; [reflexivity|]. inversion Hl1 as [|? ? Hh2 Hl2]; subst.
  cbn [length] in *. cbn [step goto state].
  set (x2 := goto sw_quoted_second (set_decoded a (set_quoted (quote x)))).
  pose proof (hex_digit_range _ _ E1) as Ha.
  pose proof (step_escape x2 h2 Hh2 Ha) as HE. change (decoded x2) with a in HE.
  destruct (hex_digit h2) as [b|] eqn:E2; [|rewrite HE; reflexivity].
  pose proof (hex_digit_range _ _ E2) as Hb2. cbv zeta in HE.
  destruct (a * 16 + b =? 0) eqn:E0; [rewrite HE; reflexivity|].
  destruct ((a * 16 + b =? 37) || (a * 16 + b =? 35) || (a * 16 + b =? 63)) eqn:E3.
  - rewrite HE, expected_prepend, feed_literal by (assumption || simpl; lia).
    apply (IH l); [lia|lia|split; discriminate|assumption].
  - destruct HE as (x' & -> & Hs & Ho).
    destruct fuel as [|fuel]; [lia|].
    rewrite (loop_feeds l fuel x' _ (S (S (S p))) (a * 16 + b));
      try assumption; try lia; try (unfold is_byte; lia).
    + rewrite Hs, Ho. reflexivity.
    + apply IH. lia.
    + rewrite Hs. exact Hb.
Qed.

Lemma loop_expected_aux n : forall l, (length l <= n)%nat -> follows_spec l.
Proof.
  induction n as [|n IH]; intros l Hn fuel x p Hf Hb Hl.
  { destruct l; [|simpl in Hn; lia]. destruct fuel as [|fuel]; [lia|].
    cbn [loop decode expected run feed_all]. unfold outcome, at_end. destruct Hb as [H1 H2].
    destruct (state x); try congruence; cbn [finish option_map]; try reflexivity.
    destruct (pop (out x)); reflexivity. }
  destruct l as [|c l]; [apply (IH [] ltac:(simpl; lia)); assumption|].
  destruct fuel as [|fuel]; [lia|]. inversion Hl as [|? ? Hc Hl']; subst.
  cbn [length] in *. destruct (c =? 37) eqn:Ep.
  { replace c with 37 by lia. apply (loop_escape n); auto; lia. }
  cbn [decode]. rewrite Ep.
  destruct (c =? 63) eqn:Eq; [|destruct (c =? 35) eqn:Eh].
  - cbn [loop]. rewrite step_ends by (auto; lia). rewrite Eq.
    unfold expected, run. cbn [feed_all].
    destruct (finish (state x) (out x)); [|reflexivity].
    unfold outcome, args, args_of. destruct (find_hash p l); reflexivity.
  - cbn [loop]. rewrite step_ends by (auto; lia). rewrite Eq.
    unfold expected, run. cbn [feed_all].
    destruct (finish (state x) (out x)); reflexivity.
  - apply loop_feeds; auto; try lia. apply IH. lia.
Qed.

Lemma loop_expected l fuel x p :
  (2 * length l < fuel)%nat -> base_state (state x) -> bytes l ->
  outcome (loop fuel merge x p l) = expected merge (state x) (out x) (decode p l).
Proof. apply (loop_expected_aux (length l)); lia. Qed.
End Loop.

(** *** The loop ends *)

Definition resumable (x : st) : Prop :=
  base_state (state x) \/ base_state (quoted_state x).

Definition extra (x : st) : nat :=
  match state x with sw_quoted_second => 1 | _ => 0 end.

Lemma step_resumable merge x c :
  resumable x ->
  match step merge x c with
  | Next x' => resumable x'
  | Redo x' _ => resumable x' /\ extra x = 1%nat /\ extra x' = O
  | _ => True
  end.
Proof.
  unfold resumable, base_state, extra. intros H. unfold step.
  destruct (state x) eqn:Es;
    unfold step_usual, step_slash, step_dot, step_dot_dot, step_quoted,
      step_quoted_second, other; cbv zeta;
    try destruct (c_hex_digit c); try destruct (pop (out x));
    repeat (split_if; try exact I);
    cbn [state quoted_state put write goto set_ext set_plus set_quoted set_decoded quote];
    rewrite ?Es;
    destruct H as [[H1 H2]|[H1 H2]]; try congruence; intuition congruence || idtac.
  all: repeat split; try (right; split; assumption); try (left; split; assumption);
    destruct (quoted_state x); congruence || reflexivity.
Qed.

Lemma loop_never_out_of_fuel merge fuel : forall x p l,
  resumable x -> (2 * length l + extra x < fuel)%nat ->
  loop fuel merge x p l <> Out_of_fuel.
Proof.
  induction fuel as [|fuel IH]; intros x p l Hx Hf; [lia|]. cbn [loop].
  destruct l as [|c l]; [discriminate|].
  pose proof (step_resumable merge x c Hx) as HS. cbn [length] in Hf.
  destruct (step merge x c) as [x'|x' c'| | |]; try discriminate.
  - apply IH; [assumption|]. unfold extra at 1. destruct (state x'); lia.
  - destruct HS as (Hx' & H1 & H2). apply IH; [assumption|]. cbn [length]. lia.
Qed.

(** *** Normal forms have no dot segments *)

Definition kept (merge : bool) (s : list Z) : Prop :=
  no_slash s /\ Forall (fun c => c <> 0) s /\ s <> [46] /\ s <> [46; 46] /\
  (merge = true -> s <> []).

Lemma kept_empty : kept false [].
Proof. unfold kept, no_slash. repeat split; try constructor; discriminate. Qed.

Lemma split_forall (Q : Z -> Prop) l : Forall Q l -> Forall (Forall Q) (split l).
Proof.
  induction 1 as [|c l Hc Hl IH]; cbn [split]; [repeat constructor|].
  split_if; [constructor; [constructor|assumption]|].
  destruct IH as [|s ss Hs Hss]; repeat constructor; assumption.
Qed.

Lemma split_no_slash l : Forall no_slash (split l).
Proof.
  induction l as [|c l IH]; cbn [split]; [repeat constructor|].
  split_if; [constructor; [constructor|assumption]|].
  destruct IH as [|s ss Hs Hss]; repeat constructor; try assumption; lia.
Qed.

Lemma resolve_kept merge segs : forall stk stk' slash,
  Forall (kept merge) stk -> Forall no_slash segs ->
  Forall (Forall (fun c => c <> 0)) segs ->
  resolve merge stk segs = Some (stk', slash) ->
  Forall (kept merge) stk' /\ (slash = false -> stk' <> []).
Proof.
  induction segs as [|s segs IH]; intros stk stk' slash Hk Hn Hz H; cbn [resolve] in H.
  { injection H as <- <-. split; [assumption|discriminate]. }
  inversion Hn as [|? ? Hns Hn']; inversion Hz as [|? ? Hzs Hz']; subst.
  pose proof (classify_inv s) as HI. destruct (classify s).
  - apply IH in H; auto. destruct merge; rewrite ?orb_true_r; [assumption|].
    destruct segs; cbn [orb]; [assumption|]. constructor; [apply kept_empty|assumption].
  - apply IH in H; auto.
  - destruct stk as [|t stk]; [discriminate H|]. apply IH in H; auto. inversion Hk; assumption.
  - destruct HI as (H1 & H2 & H3).
    assert (Hks : kept merge s) by (repeat split; auto).
    destruct segs as [|s2 segs].
    + injection H as <- <-. split; [constructor; assumption|discriminate].
    + apply IH in H; auto.
Qed.

Lemma split_directory stk l : Forall no_slash stk ->
  split (directory stk ++ l) = [] :: rev stk ++ split l.
Proof.
  revert l. induction stk as [|s stk IH]; intros l H; [reflexivity|].
  inversion H as [|? ? Hs Hstk]; subst.
  rewrite directory_cons, <- !app_assoc, IH by assumption. cbn [app].
  rewrite split_app by assumption. cbn [rev]. rewrite <- app_assoc. reflexivity.
Qed.

(** The segments of a normal form. *)
Lemma render_segments merge stk slash :
  Forall (kept merge) stk -> (slash = false -> stk <> []) ->
  exists names last, split (render (stk, slash)) = [] :: names ++ [last] /\
    Forall (kept merge) names /\ (last = [] \/ kept merge last).
Proof.
  intros Hk Hne.
  assert (Hns : Forall no_slash stk) by (eapply Forall_impl; [|exact Hk]; intros ? []; assumption).
  assert (Hd : split (directory stk) = [] :: rev stk ++ [[]])
    by (rewrite <- (app_nil_r (directory stk)), split_directory by assumption; reflexivity).
  destruct slash.
  - exists (rev stk), []. replace (render (stk, true)) with (directory stk) by (destruct stk; reflexivity).
    split; [exact Hd|]. split; [apply Forall_rev; assumption|auto].
  - destruct stk as [|s stk]; [destruct (Hne eq_refl eq_refl)|]. cbn [render].
    inversion Hk as [|? ? Hs Hstk]; subst. inversion Hns as [|? ? Hs' Hstk']; subst.
    exists (rev stk), s. rewrite split_directory, split_segment by assumption.
    split; [reflexivity|]. split; [apply Forall_rev; assumption|auto].
Qed.

(** Joining the segments again. *)
Lemma split_zero l : Forall (Forall (fun c => c <> 0)) (split l) -> Forall (fun c => c <> 0) l.
Proof.
  induction l as [|c l IH]; [constructor|]. cbn [split].
  destruct (c =? 47) eqn:E; intros H.
  - inversion H; subst. constructor; [lia|auto].
  - destruct (split l) as [|s ss] eqn:El; [destruct (split_nonempty l El)|].
    inversion H as [|? ? Hs Hss]; subst. inversion Hs; subst. constructor; auto.
Qed.

Lemma decode_nonzero l : forall p path e,
  Forall (fun c => c <> 0) l -> decode p l = Some (path, e) -> Forall (fun c => c <> 0) path.
Proof.
  enough (H : forall n l, (length l <= n)%nat -> forall p path e,
    Forall (fun c => c <> 0) l -> decode p l = Some (path, e) -> Forall (fun c => c <> 0) path)
    by (intros; eapply (H (length l)); eauto).
  clear l. induction n as [|n IH]; intros [|c l] Hn p path e Hl H; cbn [length] in Hn; try lia;
    cbn [decode] in H; try (injection H as <- _; constructor).
  inversion Hl as [|? ? Hc Hl']; subst.
  split_ifs_in H; try (injection H as <- _; constructor).
  - destruct l as [|h1 [|h2 l]]; try discriminate H.
    destruct (hex_digit h1) as [a|], (hex_digit h2) as [b|]; try discriminate H.
    split_ifs_in H. destruct (decode _ l) as [[l1 e1]|] eqn:E; [|discriminate H].
    injection H as <- _. cbn [length] in Hn. constructor; [lia|].
    inversion Hl' as [|? ? _ Hl1]; subst; inversion Hl1; subst.
    apply IH in E; [assumption|lia|assumption].
  - destruct (decode _ l) as [[l1 e1]|] eqn:E; [|discriminate H].
    injection H as <- _. constructor; [assumption|]. apply IH in E; [assumption|lia|assumption].
Qed.

(** *** The function as a whole *)

(** A URI starts with a slash, or the path is empty and the arguments
    follow the host at once. *)
Definition well_started (r : request) (l : list Z) : Prop :=
  match l with
  | [] => empty_path_in_uri r = true
  | c :: _ => if empty_path_in_uri r then c = 63 \/ c = 35 else c = 47
  end.

Definition full_path (r : request) (path : list Z) : list Z :=
  if empty_path_in_uri r then 47 :: path else path.

Lemma decode_started r p l path e :
  well_started r l -> decode p l = Some (path, e) ->
  (empty_path_in_uri r = true /\ path = []) \/
  (empty_path_in_uri r = false /\ exists path', path = 47 :: path').
Proof.
  unfold well_started. destruct (empty_path_in_uri r), l as [|c l]; cbn [decode]; intros Hc H.
  - injection H as <- _. auto.
  - split_ifs_in H; try (injection H as <- _; auto); lia.
  - discriminate Hc.
  - subst c. cbn [Z.eqb Pos.eqb] in H.
    destruct (decode (S p) l) as [[l1 e1]|]; [|discriminate H].
    injection H as <- _. right. split; [reflexivity|]. exists l1. reflexivity.
Qed.

Lemma complex_uri_outcome r merge a l :
  bytes l -> well_started r l ->
  option_map (fun x => (x_uri x, x_args_start x, x_args x))
    (ngx_http_parse_complex_uri r merge a l) =
  match decode (S a) l with
  | Some (path, e) =>
      option_map (fun u => (u, fst (args_of e), snd (args_of e)))
        (normalize merge (full_path r path))
  | None => None
  end.
Proof.
  intros Hl Hw.
  pose proof (loop_expected merge l (S (2 * length l)) (init r) (S a) ltac:(lia)
    ltac:(split; discriminate) Hl) as H.
  change (outcome _ = _) with
    (option_map (fun x => (x_uri x, x_args_start x, x_args x))
       (ngx_http_parse_complex_uri r merge a l) =
     expected merge sw_usual (out (init r)) (decode (S a) l)) in H.
  rewrite H. unfold expected. destruct (decode (S a) l) as [[path e]|] eqn:E; [|reflexivity].
  unfold full_path, init. cbn [out].
  destruct (decode_started r _ _ _ _ Hw E) as [[-> ->]|[-> (path' & ->)]]; [reflexivity|].
  rewrite run_normalizes.
  destruct (normalize merge (47 :: path')) as [u|]; [|reflexivity].
  cbn [option_map]. rewrite rev_involutive. reflexivity.
Qed.

(** C1: ngx_http_parse_complex_uri() computes the normal form of the path.
    The path is what precedes the first raw "?" or "#", its escapes decoded;
    the normal form drops "." segments and, with [merge_slashes], empty ones,
    and lets ".." remove the segment before it.  The request is refused
    exactly when an escape is malformed or stands for NUL or when ".." has
    nothing to remove; the arguments run from the "?" to the end or to a
    "#".  The loop always ends. *)
Theorem complex_uri_normalizes r merge a l :
  bytes l -> well_started r l ->
  loop (S (2 * length l)) merge (init r) (S a) l <> Out_of_fuel /\
  match ngx_http_parse_complex_uri r merge a l with
  | Some x =>
      exists path e, decode (S a) l = Some (path, e) /\
        normalize merge (full_path r path) = Some (x_uri x) /\
        args_of e = (x_args_start x, x_args x)
  | None =>
      decode (S a) l = None \/
      exists path e, decode (S a) l = Some (path, e) /\
        normalize merge (full_path r path) = None
  end.
Proof.
  intros Hl Hw. split.
  { apply loop_never_out_of_fuel; [left; split; discriminate|cbn; lia]. }
  pose proof (complex_uri_outcome r merge a l Hl Hw) as H.
  destruct (ngx_http_parse_complex_uri r merge a l) as [x|]; cbn [option_map] in H;
    destruct (decode (S a) l) as [[path e]|]; auto;
    try destruct (normalize merge (full_path r path)) eqn:En; try discriminate H.
  - injection H as -> -> ->. exists path, e. repeat split; try assumption.
    destruct (args_of e); reflexivity.
  - right. exists path, e. auto.
Qed.

(** C2: An accepted URI is safe to append to a document root: it starts with
    a slash, none of its segments is "." or "..", and it holds no NUL byte
    when the request line holds none; with [merge_slashes] no two slashes
    are adjacent. *)
Theorem complex_uri_safe r merge a l x :
  bytes l -> well_started r l -> Forall (fun c => c <> 0) l ->
  ngx_http_parse_complex_uri r merge a l = Some x ->
  exists names last, split (x_uri x) = [] :: names ++ [last] /\
    Forall (fun s => s <> bs "." /\ s <> bs ".." /\ (merge = true -> s <> [])) names /\
    last <> bs "." /\ last <> bs ".." /\
    Forall (fun c => c <> 0) (x_uri x).
Proof.
  intros Hl Hw Hz Hx. pose proof (complex_uri_outcome r merge a l Hl Hw) as H.
  rewrite Hx in H. cbn [option_map] in H.
  destruct (decode (S a) l) as [[path e]|] eqn:E; [|discriminate H].
  pose proof (decode_nonzero _ _ _ _ Hz E) as Hnz.
  assert (exists path', full_path r path = 47 :: path' /\ Forall (fun c => c <> 0) path')
    as (path' & Hp & Hnz').
  { unfold full_path. destruct (decode_started r _ _ _ _ Hw E) as [[-> ->]|[-> (path' & ->)]];
      eexists; (split; [reflexivity|]); [constructor|inversion Hnz; assumption]. }
  rewrite Hp in H. cbn [normalize] in H.
  destruct (resolve merge [] (split path')) as [[stk slash]|] eqn:ER; [|discriminate H].
  cbn [option_map] in H. assert (Hu : x_uri x = render (stk, slash)) by congruence.
  rewrite Hu. clear H Hu. apply resolve_kept in ER as [Hk Hne];
    [|constructor|apply split_no_slash|apply split_forall, Hnz'].
  destruct (render_segments merge stk slash Hk Hne) as (names & last & Hs & Hn & Hlast).
  exists names, last. split; [exact Hs|]. split.
  { eapply Forall_impl; [|exact Hn]. intros s (_ & _ & H1 & H2 & H3). auto. }
  assert (Hl2 : last <> bs "." /\ last <> bs "..")
    by (destruct Hlast as [->|(_ & _ & H1 & H2 & _)]; split; discriminate || assumption).
  split; [apply Hl2|]. split; [apply Hl2|].
  apply split_zero. rewrite Hs. constructor; [constructor|]. apply Forall_app. split.
  - eapply Forall_impl; [|exact Hn]. intros s (_ & H1 & _). exact H1.
  - repeat constructor. destruct Hlast as [->|(_ & H1 & _)]; [constructor|exact H1].
Qed.

End Path.

(** ** The fast path and the buffer of the slow one *)

Module UriProperties.
Import ComplexUri RequestUri.

(** The iterations from the start of the loop on. *)
Inductive reaches (merge : bool) (x0 : st) (p0 : nat) (l0 : list Z)
    : st -> nat -> list Z -> Prop :=
  | reaches_start : reaches merge x0 p0 l0 x0 p0 l0
  | reaches_next x p c l x' :
      reaches merge x0 p0 l0 x p (c :: l) -> step merge x c = Next x' ->
      reaches merge x0 p0 l0 x' (S p) l
  | reaches_redo x p c l x' c' :
      reaches merge x0 p0 l0 x p (c :: l) -> step merge x c = Redo x' c' ->
      reaches merge x0 p0 l0 x' p (c' :: l).

(** A raw "?" is never passed. *)
Lemma step_question merge x :
  match step merge x 63 with Next _ | Redo _ _ => False | _ => True end.
Proof.
  unfold step, step_usual, step_slash, step_dot, step_dot_dot.
  destruct (state x); try exact I.
  change (is_usual 63) with false. cbn [Z.eqb Pos.eqb orb].
  destruct (pop (out x)); exact I.
Qed.

Lemma step_writes merge x c x' :
  step merge x c = Next x' -> (length (out x') <= S (length (out x)))%nat.
Proof.
  assert (Hpop : forall o o', find_slash o = Some o' -> (length o' <= length o)%nat).
  { induction o as [|d o IH]; cbn [find_slash]; intros o' H; [discriminate|].
    split_ifs_in H; [injection H as <-; lia|]. apply IH in H. simpl. lia. }
  assert (Htl : forall o : list Z, (length (tl o) <= length o)%nat) by (destruct o; simpl; lia).
  specialize (Htl (out x)).
  unfold step. destruct (state x);
    unfold step_usual, step_slash, step_dot, step_dot_dot, step_quoted,
      step_quoted_second, other; cbv zeta; intros H;
    try destruct (c_hex_digit c); try (destruct (pop (out x)) as [o|] eqn:Ep);
    split_ifs_in H; try discriminate H; inv H;
    cbn [out put write goto set_ext set_plus set_quoted set_decoded quote length];
    try lia; try (split_if; cbn [out put write length]; lia).
  all: unfold pop in Ep; apply Hpop in Ep; rewrite length_skipn in Ep; lia.
Qed.

Lemma step_redo_out merge x c x' c' : step merge x c = Redo x' c' -> out x' = out x.
Proof.
  unfold step. destruct (state x);
    unfold step_usual, step_slash, step_dot, step_dot_dot, step_quoted,
      step_quoted_second, other; cbv zeta; intros H;
    try destruct (c_hex_digit c); try destruct (pop (out x));
    split_ifs_in H; try discriminate H; inv H; try reflexivity.
Qed.

Definition not_question (c : Z) : Prop := c <> 63.

Lemma reaches_bound merge x0 p0 l0 x p l :
  reaches merge x0 p0 l0 x p l ->
  exists pre, (p = p0 + length pre)%nat /\ Forall not_question pre /\
    (length (out x) <= length (out x0) + length pre)%nat /\
    ((l0 = pre ++ l) \/
     exists c c' t, l = c' :: t /\ l0 = pre ++ c :: t /\ not_question c).
Proof.
  induction 1 as [|x p c l x' HR (pre & -> & Hq & Ho & Hl) HS|x p c l x' c' HR (pre & -> & Hq & Ho & Hl) HS].
  - exists []. repeat split; auto; simpl; lia.
  - assert (Hc : c <> 63) by (intros ->; pose proof (step_question merge x) as H; rewrite HS in H; exact H).
    apply step_writes in HS.
    assert (exists d, l0 = (pre ++ [d]) ++ l /\ not_question d) as (d & Hd & Hqd).
    { destruct Hl as [->|(d & d' & t & [= <- <-] & -> & Hd)]; [exists c|exists d];
        rewrite <- app_assoc; auto. }
    exists (pre ++ [d]). rewrite length_app. cbn [length]. repeat split; auto; try lia.
    apply Forall_app; auto.
  - assert (Hc : c <> 63) by (intros ->; pose proof (step_question merge x) as H; rewrite HS in H; exact H).
    apply step_redo_out in HS. exists pre. rewrite HS. repeat split; auto. right.
    destruct Hl as [->|(d & d' & t & [= <- <-] & -> & Hd)]; [exists c|exists d]; eauto.
Qed.

(** Rule induction over a successful run of ngx_http_parse_uri(). *)
Lemma parse_uri_ind mem a b r0 r (I : nat -> ParseUri.sw -> request -> Prop) :
  (forall s q p ch s' q', I p s q -> nth_error mem p = Some ch -> (p < b)%nat ->
     ParseUri.step (s, q) p ch = inl (s', q') -> I (S p) s' q') ->
  ParseUri.ngx_http_parse_uri mem a b r0 = (NGX_OK, r) -> (a <= b <= length mem)%nat ->
  I a ParseUri.sw_start (set_uri_end (Some b) (set_uri_start (Some a) r0)) ->
  exists s, I b s r.
Proof.
  intros Hstep H Hab H0. unfold ParseUri.ngx_http_parse_uri in H.
  set (r1 := set_uri_end _ _) in *.
  assert (HI : match scan ParseUri.step (ParseUri.sw_start, r1) a (slice mem a b) with
               | inl (sr, p) => I p (fst sr) (snd sr) /\ p = b
               | inr e => fst e <> NGX_OK
               end).
  { apply (scan_slice_ind ParseUri.step mem b (fun p sr => I p (fst sr) (snd sr))
      (fun e => fst e <> NGX_OK)); auto.
    - intros [s q] p ch [s' q'] HI Hn Hlt E. eapply Hstep; eassumption.
    - intros [s q] p ch [rc q'] _ _ _ E.
      unfold ParseUri.step in E. destruct s; split_ifs_in E; inv E; discriminate. }
  destruct (scan ParseUri.step _ a _) as [[[s' r'] p']|[rc r']].
  - injection H as <-. destruct HI as [HI ->]. exists s'. exact HI.
  - cbn [fst] in HI. congruence.
Qed.

(** What ngx_http_parse_uri() records about the arguments. *)
Lemma parse_uri_args mem a b r0 r :
  ParseUri.ngx_http_parse_uri mem a b r0 = (NGX_OK, r) ->
  (a <= b <= length mem)%nat -> args_start r0 = None ->
  match args_start r with
  | Some s => (a < s <= b)%nat /\ nth_error mem (s - 1) = Some 63
  | None => True
  end.
Proof.
  intros H Hab H0.
  destruct (parse_uri_ind mem a b r0 r
    (fun p s q => (a <= p)%nat /\
       match args_start q with
       | Some s => (a < s <= p)%nat /\ nth_error mem (s - 1) = Some 63
       | None => True
       end)) as (s & _ & HA); [|exact H|exact Hab|cbn; rewrite H0; auto|exact HA].
  intros s q p ch s' q' (Hp & HA) Hn Hlt E. unfold ParseUri.step in E.
  destruct s; split_ifs_in E; inv E; cbn [args_start set_complex_uri
    set_quoted_uri set_args_start set_plus_in_uri set_uri_ext];
    (split; [lia|]);
    try (replace (S p - 1)%nat with p by lia; split; [lia|]; rewrite Hn; f_equal; lia);
    match goal with |- match args_start ?z with _ => _ end => destruct (args_start z) end;
    auto; split; lia || tauto.
Qed.

(** C7: The buffer that ngx_http_process_request_uri() allocates for a URI
    that needs normalization is large enough: at every iteration of
    ngx_http_parse_complex_uri() what is written fits it.  The buffer is
    sized by the path, up to the "?" ngx_http_parse_uri() noted, so that
    this relies on the loop never passing a raw "?". *)
Theorem complex_uri_no_overflow mem a b r0 r merge x p l :
  ParseUri.ngx_http_parse_uri mem a b r0 = (NGX_OK, r) ->
  (a <= b <= length mem)%nat -> args_start r0 = None ->
  reaches merge (init r) (S a) (slice mem a b) x p l ->
  (length (out x) <= alloc_len r a b)%nat.
Proof.
  intros Hp Hab H0 HR. pose proof (parse_uri_args _ _ _ _ _ Hp Hab H0) as HA.
  apply reaches_bound in HR as (pre & -> & Hq & Ho & Hl).
  assert (Hpre : exists t, slice mem a b = pre ++ t)
    by (destruct Hl as [->|(c & c' & t & _ & -> & _)]; eauto).
  destruct Hpre as (t & Hpre).
  assert (Hlen : (length pre <= b - a)%nat)
    by (rewrite <- (slice_length mem a b), Hpre, length_app by lia; lia).
  assert (Hraw : (length pre <= raw_len r a b)%nat).
  { unfold raw_len. destruct (args_start r) as [s|]; [|exact Hlen]. destruct HA as [Hs Hn].
    destruct (Nat.le_gt_cases (length pre) (s - 1 - a)) as [|Hgt]; [assumption|exfalso].
    assert (Hn' : nth_error pre (s - 1 - a) = Some 63).
    { rewrite <- (nth_error_app1 pre t) by lia. rewrite <- Hpre, slice_nth by lia.
      rewrite <- Hn. f_equal. lia. }
    apply nth_error_In in Hn'. rewrite Forall_forall in Hq. apply (Hq _ Hn'). reflexivity. }
  unfold alloc_len, init in *. cbn [out] in Ho.
  destruct (empty_path_in_uri r); cbn [length] in Ho; lia.
Qed.

(** *** The fast path *)

Fixpoint advance (merge : bool) (x : st) (l : list Z) : option st :=
  match l with
  | [] => Some x
  | c :: l' =>
      match step merge x c with Next x' => advance merge x' l' | _ => None end
  end.

Lemma advance_app merge l1 l2 : forall x,
  advance merge x (l1 ++ l2) =
  match advance merge x l1 with Some x' => advance merge x' l2 | None => None end.
Proof.
  induction l1 as [|c l1 IH]; intros x; cbn [app advance]; [reflexivity|].
  destruct (step merge x c); auto.
Qed.

Lemma loop_advance merge l1 l2 fuel : forall x p x',
  advance merge x l1 = Some x' ->
  loop (length l1 + fuel) merge x p (l1 ++ l2) = loop fuel merge x' (p + length l1) l2.
Proof.
  induction l1 as [|c l1 IH]; intros x p x' H; cbn [advance app length] in *.
  - injection H as <-. rewrite Nat.add_0_r. reflexivity.
  - cbn [Nat.add loop]. destruct (step merge x c); try discriminate H.
    rewrite (IH _ _ _ H). f_equal. lia.
Qed.

Section Fast.
Variables (mem : list Z) (a b : nat) (merge : bool) (x0 : st).
Hypothesis Hbytes : bytes mem.
Hypothesis Hab : (a <= b <= length mem)%nat.
Hypothesis Hx0 : state x0 = sw_usual /\ out x0 = [] /\ ext x0 = None.

(** Up to [k] the slow path has copied the URI as it is. *)
Definition copied (k : nat) (q : request) (x : st) : Prop :=
  advance merge x0 (slice mem a k) = Some x /\ out x = rev (slice mem a k) /\
  (state x = sw_usual \/ state x = sw_slash) /\
  match uri_ext q with
  | Some e => (a <= e <= k)%nat /\ ext x = Some (e - a)%nat
  | None => ext x = None
  end.

Definition agrees (p : nat) (s : ParseUri.sw) (q : request) : Prop :=
  (a <= p)%nat /\
  (complex_uri q || quoted_uri q = true \/
   match s with
   | ParseUri.sw_start => p = a /\ args_start q = None /\ copied p q x0
   | ParseUri.sw_after_slash_in_uri =>
       args_start q = None /\ exists x, copied p q x
   | ParseUri.sw_check_uri =>
       args_start q = None /\ exists x, copied p q x /\ state x = sw_usual
   | ParseUri.sw_uri =>
       exists k x, args_start q = Some (S k) /\ (a <= k < p)%nat /\
         nth_error mem k = Some 63 /\ copied k q x /\
         Forall (fun c => c <> 35) (slice mem (S k) p)
   end).

Lemma copied_snoc p q x ch x' q' :
  (a <= p)%nat -> nth_error mem p = Some ch -> copied p q x ->
  step merge x ch = Next x' -> out x' = ch :: out x ->
  state x' = sw_usual \/ state x' = sw_slash ->
  match uri_ext q' with
  | Some e => (a <= e <= S p)%nat /\ ext x' = Some (e - a)%nat
  | None => ext x' = None
  end -> copied (S p) q' x'.
Proof.
  intros Hp Hn (HA & HO & _ & _) HS Ho Hst Hex. unfold copied.
  rewrite (slice_snoc mem a p ch) by assumption.
  rewrite advance_app, HA, rev_app_distr, Ho, HO. cbn [advance]. rewrite HS. auto.
Qed.

Lemma step_plain x c :
  state x = sw_usual \/ state x = sw_slash -> is_byte c ->
  c <> 47 -> c <> 46 -> c <> 37 -> c <> 63 -> c <> 35 ->
  exists x', step merge x c = Next x' /\ state x' = sw_usual /\
    out x' = c :: out x /\ ext x' = ext x.
Proof.
  intros Hs Hc H1 H2 H3 H4 H5. unfold step, step_usual, step_slash, other.
  destruct Hs as [Hs|Hs]; rewrite Hs; destruct (is_usual c);
    repeat if_false; try (split_if); eexists; (split; [reflexivity|]);
    cbn [state out ext put write goto set_plus]; auto.
Qed.

(** A byte copied as it is, [q'] having the extension of [q]. *)
Lemma copied_plain p q x ch q' :
  (a <= p)%nat -> nth_error mem p = Some ch -> copied p q x ->
  ch <> 47 -> ch <> 46 -> ch <> 37 -> ch <> 63 -> ch <> 35 -> uri_ext q' = uri_ext q ->
  exists x', copied (S p) q' x' /\ state x' = sw_usual.
Proof.
  intros Hp Hn HC H1 H2 H3 H4 H5 He. pose proof HC as (_ & _ & Hst & Hex).
  destruct (step_plain x ch Hst (bytes_nth mem p ch Hbytes Hn) H1 H2 H3 H4 H5)
    as (x' & HS & Hs' & Ho & Hx').
  exists x'. split; [|assumption].
  eapply copied_snoc; eauto. rewrite He, Hx'.
  destruct (uri_ext q); [|assumption]. split; [lia|tauto].
Qed.

Lemma usual_plain c : is_usual c = true ->
  c <> 47 /\ c <> 46 /\ c <> 37 /\ c <> 63 /\ c <> 35.
Proof. intros H. repeat split; intros ->; discriminate H. Qed.

Lemma copied_slash p q x q' :
  (a <= p)%nat -> nth_error mem p = Some 47 -> copied p q x -> state x = sw_usual ->
  uri_ext q' = None -> exists x', copied (S p) q' x'.
Proof.
  intros Hp Hn HC Hs He.
  exists (put 47 (goto sw_slash (set_ext None x))).
  apply (copied_snoc p q x 47); auto; [|rewrite He; reflexivity].
  unfold step, step_usual. rewrite Hs. reflexivity.
Qed.

Lemma copied_dot p q x q' :
  (a <= p < b)%nat -> nth_error mem p = Some 46 -> copied p q x -> state x = sw_usual ->
  uri_ext q' = Some (S p) -> exists x', copied (S p) q' x' /\ state x' = sw_usual.
Proof.
  intros Hp Hn HC Hs He. pose proof HC as (_ & HO & _).
  exists (put 46 (set_ext (Some (S (length (out x)))) x)). split; [|exact Hs].
  apply (copied_snoc p q x 46); auto; try lia.
  - unfold step, step_usual. rewrite Hs. reflexivity.
  - rewrite He. split; [lia|]. cbn [ext put write set_ext].
    rewrite HO, length_rev, slice_length by lia. f_equal. lia.
Qed.

Lemma copied_ext p q x q' : uri_ext q' = uri_ext q -> copied p q x -> copied p q' x.
Proof. unfold copied. intros ->. auto. Qed.

(** The "?" that ends the path. *)
Lemma agrees_question p q x q' :
  (a <= p)%nat -> nth_error mem p = Some 63 -> copied p q x ->
  uri_ext q' = uri_ext q -> args_start q' = Some (S p) ->
  exists k x, args_start q' = Some (S k) /\ (a <= k < S p)%nat /\
    nth_error mem k = Some 63 /\ copied k q' x /\
    Forall (fun c => c <> 35) (slice mem (S k) (S p)).
Proof.
  intros Hp Hn HC He Ha. exists p, x.
  split; [assumption|]. split; [lia|]. split; [assumption|].
  split; [eapply copied_ext; eassumption|]. rewrite slice_empty by lia. constructor.
Qed.

Lemma agrees_step s q p ch s' q' :
  agrees p s q -> nth_error mem p = Some ch -> (p < b)%nat ->
  ParseUri.step (s, q) p ch = inl (s', q') -> agrees (S p) s' q'.
Proof.
  intros [Hp HI] Hn Hlt E. split; [lia|].
  destruct HI as [Hflag|HI].
  { left. unfold ParseUri.step in E.
    destruct s; split_ifs_in E; inv E; cbn; rewrite ?Hflag, ?orb_true_r; auto;
      destruct (complex_uri _), (quoted_uri _); auto. }
  unfold ParseUri.step, ParseUri.control in E.
  destruct s.
  - destruct HI as (-> & HA & HC). split_ifs_in E. inv E. right. split; [assumption|].
    assert (Hq : uri_ext q' = None).
    { destruct HC as (_ & _ & _ & HX). destruct (uri_ext q'); [|reflexivity].
      destruct HX as [_ HX], Hx0 as (_ & _ & H0). congruence. }
    replace ch with 47 in Hn by lia.
    apply (copied_slash a q' x0); auto. apply Hx0.
  - destruct HI as (HA & x & HC). destruct (is_usual ch) eqn:Eu.
    + inv E. right. split; [assumption|]. apply usual_plain in Eu as (? & ? & ? & ? & ?).
      eapply copied_plain; eauto.
    + split_ifs_in E; inv E; try (left; cbn; rewrite ?orb_true_r; reflexivity); right.
      * replace ch with 63 in Hn by lia. apply (agrees_question p q x); auto.
      * split; [assumption|]. destruct (copied_plain p q x ch (set_plus_in_uri true q))
          as (x' & HC' & _); auto; try lia. eauto.
      * split; [assumption|]. apply (copied_plain p q' x ch); auto; lia.
  - destruct HI as (HA & x & HC & Hs). destruct (is_usual ch) eqn:Eu.
    + inv E. right. split; [assumption|]. apply usual_plain in Eu as (? & ? & ? & ? & ?).
      eapply copied_plain; eauto.
    + split_ifs_in E; inv E; try (left; cbn; rewrite ?orb_true_r; reflexivity); right.
      * split; [assumption|]. replace ch with 47 in Hn by lia. apply (copied_slash p q x); auto.
      * split; [assumption|]. replace ch with 46 in Hn by lia. apply (copied_dot p q x); auto.
      * replace ch with 63 in Hn by lia. apply (agrees_question p q x); auto.
      * split; [assumption|]. apply (copied_plain p q x ch); auto; lia.
      * split; [assumption|]. apply (copied_plain p q' x ch); auto; lia.
  - destruct HI as (k & x & HA & Hk & Hnk & HC & HF).
    assert (Hin : ch <> 35 -> Forall (fun c => c <> 35) (slice mem (S k) (S p))).
    { intros Hc. rewrite (slice_snoc mem (S k) p ch) by (auto; lia).
      apply Forall_app. auto. }
    destruct (is_usual ch) eqn:Eu.
    + inv E. right. apply usual_plain in Eu as (? & ? & ? & ? & ?).
      exists k, x. repeat split; auto; lia || apply HC.
    + split_ifs_in E; inv E; [left; reflexivity|]. right.
      exists k, x. repeat split; auto; try lia; try apply HC. apply Hin. lia.
Qed.
End Fast.

Lemma find_hash_none l : Forall (fun c => c <> 35) l -> forall p, find_hash p l = None.
Proof.
  induction 1 as [|c l Hc Hl IH]; intros p; cbn [find_hash]; [reflexivity|].
  if_false. apply IH.
Qed.

Lemma slice_skipn m i j k : (i <= j)%nat -> skipn (j - i) (slice m i k) = slice m j k.
Proof.
  intros H. unfold slice. rewrite skipn_firstn_comm, skipn_skipn. f_equal; [lia|].
  f_equal. lia.
Qed.

Section Slow.
Variables (mem : list Z) (a b : nat) (merge : bool) (r : request).
Hypothesis Hab : (a <= b <= length mem)%nat.

(** The extension found in what has been copied. *)
Lemma copied_exten k x : (a <= k <= b)%nat -> copied mem a merge (init r) k r x ->
  rev (out x) = slice mem a k /\
  match ext x with Some e => Some (skipn e (rev (out x))) | None => None end =
  match uri_ext r with Some e => Some (slice mem e k) | None => None end.
Proof.
  intros Hk (_ & HO & _ & HX). rewrite HO, rev_involutive. split; [reflexivity|].
  destruct (uri_ext r) as [e|]; [|rewrite HX; reflexivity].
  destruct HX as [He ->]. f_equal. apply slice_skipn. lia.
Qed.

Lemma slow_to_end x : copied mem a merge (init r) b r x ->
  ngx_http_parse_complex_uri r merge a (slice mem a b) = Some (conclude x None None).
Proof.
  intros (HA & _ & Hs & _). unfold ngx_http_parse_complex_uri.
  replace (S (2 * length (slice mem a b))) with
    (length (slice mem a b) + S (length (slice mem a b)))%nat by lia.
  rewrite <- (app_nil_r (slice mem a b)) at 3.
  rewrite (loop_advance _ _ _ _ _ _ _ HA). cbn [loop]. unfold at_end.
  destruct Hs as [-> | ->]; reflexivity.
Qed.

Lemma slow_to_args k x : (a <= k < b)%nat -> nth_error mem k = Some 63 ->
  copied mem a merge (init r) k r x -> Forall (fun c => c <> 35) (slice mem (S k) b) ->
  ngx_http_parse_complex_uri r merge a (slice mem a b) = Some (conclude x (Some (S k)) None).
Proof.
  intros Hk Hn (HA & _ & Hs & _) HF. unfold ngx_http_parse_complex_uri.
  assert (E : slice mem a b = slice mem a k ++ 63 :: slice mem (S k) b).
  { rewrite (slice_split mem a k b), (slice_split mem k (S k) b) by lia.
    rewrite (slice_snoc mem k k 63), (slice_empty mem k k) by auto. reflexivity. }
  rewrite E, length_app. cbn [length].
  replace (S (2 * _)) with (length (slice mem a k) +
    S (S (length (slice mem a k) + 2 * length (slice mem (S k) b)) + 1))%nat by lia.
  rewrite (loop_advance _ _ _ _ _ _ _ HA). cbn [loop].
  replace (step merge x 63) with (Goto_args x)
    by (unfold step; destruct Hs as [-> | ->]; reflexivity).
  rewrite slice_length by lia. replace (S a + (k - a))%nat with (S k) by lia.
  unfold args. rewrite find_hash_none by assumption. reflexivity.
Qed.
End Slow.

(** C4: The fast path is right: when ngx_http_parse_uri() marks a URI as
    neither complex nor quoted, so that ngx_http_process_request_uri() uses
    its bytes as they stand, ngx_http_parse_complex_uri() would have accepted
    it and computed the same URI, the same extension and the same arguments,
    whatever [merge_slashes] is. *)
Theorem fast_path_equiv mem a b r0 r merge :
  ParseUri.ngx_http_parse_uri mem a b r0 = (NGX_OK, r) ->
  bytes mem -> (a <= b <= length mem)%nat ->
  args_start r0 = None -> uri_ext r0 = None -> is_complex r = false ->
  exists x f,
    ngx_http_parse_complex_uri r merge a (slice mem a b) = Some x /\
    ngx_http_process_request_uri mem merge r a b = Some f /\
    f_uri f = x_uri x /\ f_exten f = x_exten x /\
    f_args f = tail_args mem (x_args_start x) b /\ x_args x = None.
Proof.
  intros HP Hb Hab HA HE HC. unfold is_complex in HC.
  assert (Hemp : empty_path_in_uri r = false) by (destruct (empty_path_in_uri r); lia).
  assert (Hfl : complex_uri r || quoted_uri r = false) by lia.
  assert (Hx0 : state (init r) = sw_usual /\ out (init r) = [] /\ ext (init r) = None)
    by (unfold init; rewrite Hemp; auto).
  destruct (parse_uri_ind mem a b r0 r (agrees mem a merge (init r))) as (s & Hge & HI);
    [intros; eapply agrees_step; eassumption|exact HP|exact Hab| |].
  { split; [lia|]. right. split; [reflexivity|]. split; [exact HA|].
    unfold copied. cbn [uri_ext set_uri_end set_uri_start]. rewrite HE, slice_empty by lia.
    destruct Hx0 as (H1 & H2 & H3). auto. }
  destruct HI as [HI|HI]; [rewrite HI in Hfl; discriminate|].
  assert (Hcases : (args_start r = None /\ exists x, copied mem a merge (init r) b r x) \/
    exists k x, args_start r = Some (S k) /\ (a <= k < b)%nat /\ nth_error mem k = Some 63 /\
      copied mem a merge (init r) k r x /\ Forall (fun c => c <> 35) (slice mem (S k) b)).
  { destruct s; [left|left|left|right; exact HI].
    - destruct HI as (_ & H1 & H2). eauto.
    - destruct HI as (H1 & x & H2). eauto.
    - destruct HI as (H1 & x & H2 & _). eauto. }
  unfold ngx_http_process_request_uri, is_complex. rewrite Hfl, Hemp. cbn [orb negb].
  unfold raw_len. destruct Hcases as [(-> & x & Hc)|(k & x & -> & Hk & Hn & Hc & HF)].
  - do 2 eexists. split; [apply slow_to_end; eassumption|]. split; [reflexivity|].
    destruct (copied_exten mem a b merge r Hab b x ltac:(lia) Hc) as [HU HX].
    unfold conclude. cbn [f_uri f_exten f_args x_uri x_exten x_args_start x_args].
    rewrite HX, HU. replace (a + (b - a))%nat with b by lia. auto.
  - do 2 eexists. split; [apply (slow_to_args mem a b merge r Hab k x); assumption|].
    split; [reflexivity|].
    destruct (copied_exten mem a b merge r Hab k x ltac:(lia) Hc) as [HU HX].
    unfold conclude. cbn [f_uri f_exten f_args x_uri x_exten x_args_start x_args].
    rewrite HX, HU. replace (S k - 1)%nat with k by lia.
    replace (a + (k - a))%nat with k by lia. auto.
Qed.

(** *** The properties at work *)

Definition sample_uri : list Z := bs "/a/%2e%2E/b//c?x=1#y".

Lemma sample_uri_bytes : bytes sample_uri.
Proof. apply Forall_forall. intros c Hc. cbn in Hc. unfold is_byte. lia. Qed.

Lemma complex_uri_normalizes_witness :
  bytes sample_uri /\ Path.well_started new_request sample_uri /\
  exists x, ngx_http_parse_complex_uri new_request true 0 sample_uri = Some x /\
    exists path e, Path.decode 1 sample_uri = Some (path, e) /\
      Path.normalize true path = Some (x_uri x) /\ x_uri x = bs "/b/c".
Proof.
  assert (E : exists x, ngx_http_parse_complex_uri new_request true 0 sample_uri = Some x /\
            x_uri x = bs "/b/c") by (eexists; split; vm_compute; reflexivity).
  destruct E as (x & E & Hu).
  split; [exact sample_uri_bytes|]. split; [reflexivity|]. exists x. split; [exact E|].
  pose proof (Path.complex_uri_normalizes new_request true 0 sample_uri
    sample_uri_bytes eq_refl) as [_ H].
  rewrite E in H. destruct H as (path & e & H1 & H2 & _). exists path, e. auto.
Defined.

Lemma complex_uri_safe_witness :
  exists x, ngx_http_parse_complex_uri new_request true 0 sample_uri = Some x /\
    Forall (fun c => c <> 0) (x_uri x).
Proof.
  assert (E : exists x, ngx_http_parse_complex_uri new_request true 0 sample_uri = Some x)
    by (eexists; vm_compute; reflexivity).
  destruct E as (x & E). exists x. split; [exact E|].
  destruct (Path.complex_uri_safe new_request true 0 sample_uri x sample_uri_bytes eq_refl)
    as (names & last & _ & _ & _ & _ & H); [|exact E|exact H].
  apply Forall_forall. intros c Hc. cbn in Hc. lia.
Defined.

Lemma complex_uri_no_overflow_witness :
  exists r x, ParseUri.ngx_http_parse_uri sample_uri 0 20 new_request = (NGX_OK, r) /\
    reaches true (init r) 1 (slice sample_uri 0 20) x 2 (tl (slice sample_uri 0 20)) /\
    (length (out x) <= alloc_len r 0 20)%nat.
Proof.
  assert (E : exists r, ParseUri.ngx_http_parse_uri sample_uri 0 20 new_request = (NGX_OK, r))
    by (eexists; vm_compute; reflexivity).
  destruct E as (r & E).
  assert (HR : exists x, reaches true (init r) 1 (slice sample_uri 0 20) x 2
                           (tl (slice sample_uri 0 20))).
  { eexists. eapply (reaches_next _ _ _ _ (init r) 1 47); [apply reaches_start|reflexivity]. }
  destruct HR as (x & HR). exists r, x. split; [exact E|]. split; [exact HR|].
  eapply (complex_uri_no_overflow sample_uri 0 20 new_request r true); [exact E| | |exact HR].
  - cbn. lia.
  - reflexivity.
Defined.

Lemma fast_path_equiv_witness :
  exists r x f,
    ParseUri.ngx_http_parse_uri (bs "/a/b.html?x") 0 11 new_request = (NGX_OK, r) /\
    ngx_http_parse_complex_uri r true 0 (slice (bs "/a/b.html?x") 0 11) = Some x /\
    ngx_http_process_request_uri (bs "/a/b.html?x") true r 0 11 = Some f /\
    f_uri f = x_uri x /\ f_exten f = x_exten x.
Proof.
  assert (E : exists r, ParseUri.ngx_http_parse_uri (bs "/a/b.html?x") 0 11 new_request
              = (NGX_OK, r) /\ is_complex r = false)
    by (eexists; split; vm_compute; reflexivity).
  destruct E as (r & E & Hc).
  destruct (fast_path_equiv (bs "/a/b.html?x") 0 11 new_request r true E)
    as (x & f & H1 & H2 & H3 & H4 & _).
  - apply Forall_forall. intros c Hin. cbn in Hin. unfold is_byte. lia.
  - cbn. lia.
  - reflexivity.
  - reflexivity.
  - exact Hc.
  - exists r, x, f. auto.
Defined.

End UriProperties.
