(* ===== verification/HttpChunked.v ===== *)
(** * Chunked request bodies

    Models of ngx_http_parse_chunked() of [src/http/ngx_http_parse.c] and of
    its driver for request bodies, ngx_http_request_body_chunked_filter() of
    [src/http/ngx_http_request_body.c], which collects the data of the chunks
    from the buffers a client sends. *)

From Stdlib Require Import String Ascii ZArith Bool Lia ZifyBool List.
From S2P Require Import Prelude.
Import ListNotations.
Local Open Scope Z_scope.

Module Chunked.

Inductive sw :=
  | sw_chunk_start | sw_chunk_size | sw_chunk_extension
  | sw_chunk_extension_almost_done | sw_chunk_data | sw_after_data
  | sw_after_data_almost_done | sw_last_chunk_extension
  | sw_last_chunk_extension_almost_done | sw_trailer | sw_trailer_almost_done
  | sw_trailer_header | sw_trailer_header_almost_done.

(** [ngx_http_chunked_t] *)
Record chunked := mk_chunked { c_state : sw; c_size : Z; c_length : Z }.

(** The zeroed structure of ngx_pcalloc(). *)
Definition new_chunked : chunked := mk_chunked sw_chunk_start 0 0.

(** How an iteration ends: [break] with the state and [ctx->size], or a jump
    to one of the labels. *)
Inductive act :=
  | Break (s : sw) (size : Z)
  | Goto_data
  | Goto_done
  | Goto_invalid.

Section Parser.
Context `{P : Platform}.

(** [sw_chunk_start] and [sw_chunk_size] *)
Definition step_size (s : sw) (size ch : Z) : act :=
  match s with
  | sw_chunk_start =>
      match c_hex_digit ch with
      | Some d => Break sw_chunk_size d
      | None => Goto_invalid
      end
  | _ (* sw_chunk_size *) =>
      if size >? NGX_MAX_OFF_T_VALUE / 16 then Goto_invalid
      else
        match c_hex_digit ch with
        | Some d => Break sw_chunk_size (size * 16 + d)
        | None =>
            if size =? 0 then
              if ch =? CR then Break sw_last_chunk_extension_almost_done size
              else if ch =? LF then Break sw_trailer size
              else if (ch =? chr ";") || (ch =? chr " ") || (ch =? 9)
              then Break sw_last_chunk_extension size
              else Goto_invalid
            else if ch =? CR then Break sw_chunk_extension_almost_done size
            else if ch =? LF then Break sw_chunk_data size
            else if (ch =? chr ";") || (ch =? chr " ") || (ch =? 9)
            then Break sw_chunk_extension size
            else Goto_invalid
        end
  end.

Definition expect_lf (ch : Z) (a : act) : act :=
  if ch =? LF then a else Goto_invalid.

(** The other states. *)
Definition step (s : sw) (size ch : Z) : act :=
  match s with
  | sw_chunk_start | sw_chunk_size => step_size s size ch
  | sw_chunk_extension =>
      if ch =? CR then Break sw_chunk_extension_almost_done size
      else if ch =? LF then Break sw_chunk_data size
      else Break s size
  | sw_chunk_extension_almost_done => expect_lf ch (Break sw_chunk_data size)
  | sw_chunk_data => Goto_data
  | sw_after_data =>
      if ch =? CR then Break sw_after_data_almost_done size
      else if ch =? LF then Break sw_chunk_start size
      else Goto_invalid
  | sw_after_data_almost_done => expect_lf ch (Break sw_chunk_start size)
  | sw_last_chunk_extension =>
      if ch =? CR then Break sw_last_chunk_extension_almost_done size
      else if ch =? LF then Break sw_trailer size
      else Break s size
  | sw_last_chunk_extension_almost_done => expect_lf ch (Break sw_trailer size)
  | sw_trailer =>
      if ch =? CR then Break sw_trailer_almost_done size
      else if ch =? LF then Goto_done
      else Break sw_trailer_header size
  | sw_trailer_almost_done => expect_lf ch Goto_done
  | sw_trailer_header =>
      if ch =? CR then Break sw_trailer_header_almost_done size
      else if ch =? LF then Break sw_trailer size
      else Break s size
  | sw_trailer_header_almost_done => expect_lf ch (Break sw_trailer size)
  end.

(** The loop over the bytes from [b->pos] to [b->last]: the code, the state,
    [ctx->size] and the bytes from the final [pos] on. *)
Fixpoint loop (s : sw) (size : Z) (l : list Z) : Z * sw * Z * list Z :=
  match l with
  | [] => (NGX_AGAIN, s, size, [])
  | ch :: l' =>
      match step s size ch with
      | Break s' size' => loop s' size' l'
      | Goto_data => (NGX_OK, s, size, l)
      | Goto_done => (NGX_DONE, s, size, l')
      | Goto_invalid => (NGX_ERROR, s, size, l)
      end
  end.

(** [ctx->length]: the least number of bytes still to come. *)
Definition min_length (s : sw) (size : Z) : Z :=
  match s with
  | sw_chunk_start => 3
  | sw_chunk_size => 1 + (if negb (size =? 0) then size + 4 else 1)
  | sw_chunk_extension | sw_chunk_extension_almost_done => 1 + size + 4
  | sw_chunk_data => size + 4
  | sw_after_data | sw_after_data_almost_done => 4
  | sw_last_chunk_extension | sw_last_chunk_extension_almost_done => 2
  | sw_trailer | sw_trailer_almost_done => 1
  | sw_trailer_header | sw_trailer_header_almost_done => 2
  end.

(** All the data of a chunk taken: what follows is its line end. *)
Definition settle (s : sw) (size : Z) : sw :=
  match s with
  | sw_chunk_data => if size =? 0 then sw_after_data else sw_chunk_data
  | s => s
  end.

(** The function: the code, the context and the input from [b->pos] on. *)
Definition ngx_http_parse_chunked (ctx : chunked) (l : list Z)
    : Z * chunked * list Z :=
  let state := settle (c_state ctx) (c_size ctx) in
  let '(rc, s, size, rest) := loop state (c_size ctx) l in
  if rc =? NGX_ERROR then
    (NGX_ERROR, mk_chunked (c_state ctx) size (c_length ctx), l)
  else if rc =? NGX_DONE then
    (NGX_DONE, mk_chunked sw_chunk_start size (c_length ctx), rest)
  else if size >? NGX_MAX_OFF_T_VALUE - 5 then
    (NGX_ERROR, mk_chunked s size (c_length ctx), rest)
  else (rc, mk_chunked s size (min_length s size), rest).

(** ** The request body filter *)

Definition NGX_HTTP_BAD_REQUEST : Z := 400.
Definition NGX_HTTP_REQUEST_ENTITY_TOO_LARGE : Z := 413.

(** What the filter keeps between calls: [rb->chunked],
    [r->headers_in.content_length_n] and [rb->rest]. *)
Record body := mk_body { b_ctx : chunked; b_clen : Z; b_rest : Z }.

(** The output buffers of one input buffer, newest first, as intervals of
    its memory; the newest is the buffer [b]. *)
Definition outs : Type := list (nat * nat).

(** [*dst++ = *src++], [n] times *)
Fixpoint copy_bytes (n : nat) (mem : list Z) (dst src : nat) : list Z :=
  match n with
  | O => mem
  | S n' =>
      copy_bytes n'
        (firstn dst mem ++ [byte_at mem src] ++ skipn (S dst) mem)
        (S dst) (S src)
  end.

(** ngx_memmove() *)
Definition memmove (mem : list Z) (dst src n : nat) : list Z :=
  firstn dst mem ++ slice mem src (src + n) ++ skipn (dst + n) mem.

Inductive buf_exit :=
  | Exit_error (rc : Z)
  | Exit_done
  | Exit_again
  | Out_of_fuel.

(** A chunk has been parsed: a small one that is all there is appended to
    the output buffer [b] of the same input buffer, the data of any other
    becomes an output buffer of its own. *)
Definition take (bd : body) (mem : list Z) (pos last : nat) (out : outs)
    : body * list Z * nat * outs :=
  let ctx := b_ctx bd in
  let chunk := c_size ctx in
  let size := (last - pos)%nat in
  let taken (n : Z) :=
    mk_body (mk_chunked (c_state ctx) (chunk - n) (c_length ctx))
      (b_clen bd + n) (b_rest bd) in
  let fresh :=
    if Z.of_nat size >? chunk then
      let pos' := (pos + Z.to_nat chunk)%nat in
      (taken chunk, mem, pos', (pos, pos') :: out)
    else
      (taken (Z.of_nat size), mem, last, (pos, last) :: out) in
  match out with
  | [] => fresh
  | (b_pos, b_last) :: out' =>
      if (chunk <=? 128) && (Z.of_nat (last - pos) >=? chunk) then
        let n := Z.to_nat chunk in
        (taken chunk,
         if chunk <? 8 then copy_bytes n mem b_last pos
         else memmove mem b_last pos n,
         (pos + n)%nat, (b_pos, (b_last + n)%nat) :: out')
      else fresh
  end.

(** The loop [for ( ;; )] on one buffer: memory, [pos] and [last] of
    [cl->buf]. [max_body] is [client_max_body_size], [hdr] is
    [large_client_header_buffers.size]. *)
Fixpoint buf_loop (fuel : nat) (max_body hdr : Z) (bd : body) (mem : list Z)
    (pos last : nat) (out : outs) : buf_exit * body * list Z * nat * outs :=
  match fuel with
  | O => (Out_of_fuel, bd, mem, pos, out)
  | S fuel' =>
      let '(rc, ctx, rest) :=
        ngx_http_parse_chunked (b_ctx bd) (slice mem pos last) in
      let pos := (last - length rest)%nat in
      let bd := mk_body ctx (b_clen bd) (b_rest bd) in
      if rc =? NGX_OK then
        if negb (max_body =? 0) && (max_body - b_clen bd <? c_size ctx) then
          (Exit_error NGX_HTTP_REQUEST_ENTITY_TOO_LARGE, bd, mem, pos, out)
        else
          let '(bd', mem', pos', out') := take bd mem pos last out in
          buf_loop fuel' max_body hdr bd' mem' pos' last out'
      else if rc =? NGX_DONE then
        (Exit_done, mk_body ctx (b_clen bd) 0, mem, pos, out)
      else if rc =? NGX_AGAIN then
        (Exit_again, mk_body ctx (b_clen bd) (Z.max (c_length ctx) hdr),
         mem, pos, out)
      else (Exit_error NGX_HTTP_BAD_REQUEST, bd, mem, pos, out)
  end.

(** The output chain: buffers with data, and the empty [last_buf] the end of
    the body adds. *)
Inductive obuf := Data (l : list Z) | Last_buf.

Definition collect (mem : list Z) (out : outs) : list (list Z) :=
  map (fun '(s, l) => slice mem s l) (rev out).

(** One buffer of the chain, [mem] being its bytes from [pos] to [last]: the
    exit, the body state, what the buffer adds to the output chain, and the
    bytes left unread.  Every iteration but the last one consumes a byte, so
    that the fuel is never used up ([filter_buf_refines]). *)
Definition filter_buf (max_body hdr : Z) (bd : body) (mem : list Z)
    : buf_exit * body * list obuf * list Z :=
  let last := length mem in
  let '(e, bd', mem', pos, out) :=
    buf_loop (S (length mem)) max_body hdr bd mem 0 last [] in
  (e, bd',
   map Data (collect mem' out) ++
     match e with Exit_done => [Last_buf] | _ => [] end,
   slice mem' pos last).

(** The loop over the chain: the code of an error, or what is passed to
    [ngx_http_top_request_body_filter]. *)
Fixpoint filter_chain (max_body hdr : Z) (bd : body) (chain : list (list Z))
    : (Z + list obuf) * body :=
  match chain with
  | [] => (inr [], bd)
  | mem :: chain' =>
      match filter_buf max_body hdr bd mem with
      | (Exit_error rc, bd', _, _) => (inl rc, bd')
      | (_, bd', d, _) =>
          match filter_chain max_body hdr bd' chain' with
          | (inr d', bd2) => (inr (d ++ d'), bd2)
          | r => r
          end
      end
  end.

(** The filter; [rb->rest == -1] marks the first call. *)
Definition ngx_http_request_body_chunked_filter (max_body hdr : Z) (bd : body)
    (chain : list (list Z)) : (Z + list obuf) * body :=
  let bd := if b_rest bd =? -1 then mk_body new_chunked 0 hdr else bd in
  filter_chain max_body hdr bd chain.

End Parser.

Definition crlf : list Z := [13; 10].

Definition new_body : body := mk_body new_chunked (-1) (-1).

Example chunked_ex1 :
  @ngx_http_request_body_chunked_filter lp64 0 1024 new_body
    [bs "3" ++ crlf ++ bs "ab"; bs "c" ++ crlf ++ bs "2"; crlf ++ bs "xy" ++ crlf;
     bs "0" ++ crlf ++ crlf]
  = (inr [Data (bs "ab"); Data (bs "c"); Data (bs "xy"); Last_buf],
     mk_body (mk_chunked sw_chunk_start 0 3) 5 0).
Proof. vm_compute. reflexivity. Qed.

Example chunked_ex2 :
  @ngx_http_request_body_chunked_filter lp64 0 1024 new_body
    [bs "3" ++ crlf ++ bs "abc" ++ crlf ++ bs "2" ++ crlf ++ bs "xy" ++ crlf
     ++ bs "A" ++ crlf ++ bs "0123456789" ++ crlf ++ bs "0" ++ crlf ++ crlf]
  = (inr [Data (bs "abcxy0123456789"); Last_buf],
     mk_body (mk_chunked sw_chunk_start 0 14) 15 0).
Proof. vm_compute. reflexivity. Qed.

(** ** The body, byte by byte

    A specification that knows nothing of buffers: it takes the bytes of the
    body one at a time and says what each of them means. *)

Record position := at_pos { p_state : sw; p_size : Z; p_clen : Z }.

Inductive outcome :=
  | More (st : position) (data : list Z)
  | Complete (clen : Z) (data rest : list Z)
  | Rejected (rc : Z).

Definition emit (d : list Z) (o : outcome) : outcome :=
  match o with
  | More st d' => More st (d ++ d')
  | Complete n d' rest => Complete n (d ++ d') rest
  | Rejected rc => Rejected rc
  end.

Section Spec.
Context `{P : Platform}.
Variable max_body : Z.

Definition too_large (clen size : Z) : bool :=
  negb (max_body =? 0) && (max_body - clen <? size).

Fixpoint decode (s : sw) (size clen : Z) (l : list Z) : outcome :=
  match l with
  | [] => More (at_pos s size clen) []
  | ch :: l' =>
      match step s size ch with
      | Goto_data =>
          if too_large clen size then Rejected NGX_HTTP_REQUEST_ENTITY_TOO_LARGE
          else emit [ch] (decode (settle s (size - 1)) (size - 1) (clen + 1) l')
      | Goto_done => Complete clen [] l'
      | Goto_invalid => Rejected NGX_HTTP_BAD_REQUEST
      | Break s' size' =>
          if size' >? NGX_MAX_OFF_T_VALUE - 5
          then Rejected NGX_HTTP_BAD_REQUEST
          else decode s' size' clen l'
      end
  end.

(** The states in which [size] bytes of data are announced. *)
Definition announced (s : sw) : bool :=
  match s with
  | sw_chunk_size | sw_chunk_extension | sw_chunk_extension_almost_done
  | sw_chunk_data => true
  | _ => false
  end.

(** [size] counts data still to come, and is 0 once there is none. *)
Definition coherent (s : sw) (size : Z) : Prop :=
  0 <= size <= NGX_MAX_OFF_T_VALUE /\
  (announced s = false -> size = 0) /\
  match s with
  | sw_chunk_extension | sw_chunk_extension_almost_done | sw_chunk_data => 0 < size
  | _ => True
  end.

Lemma emit_nil o : emit [] o = o.
Proof. destruct o; reflexivity. Qed.

Lemma emit_app d1 d2 o : emit (d1 ++ d2) o = emit d1 (emit d2 o).
Proof. destruct o; simpl; rewrite ?app_assoc; reflexivity. Qed.

Lemma hex_step_range ch d : c_hex_digit ch = Some d -> 0 <= d < 16.
Proof.
  unfold c_hex_digit. split_ifs; intros [= <-]; lia.
Qed.

Lemma step_coherent s size ch s' size' :
  coherent s size -> step s size ch = Break s' size' -> coherent s' size'.
Proof.
  intros (Hs & Ha & Hp) E.
  pose proof (max_value_16 off_t_size) as H16.
  pose proof (max_value_pos off_t_size) as Hpos.
  unfold coherent in *.
  destruct s; unfold step, step_size, expect_lf, NGX_MAX_OFF_T_VALUE in *; cbn [announced] in *;
    try specialize (Ha eq_refl);
    try (destruct (c_hex_digit ch) eqn:Eh; [apply hex_step_range in Eh|]);
    split_ifs_in E; inv E; cbn [announced]; repeat split; intros; try discriminate; lia.
Qed.

Lemma settle_coherent k :
  0 <= k <= NGX_MAX_OFF_T_VALUE -> coherent (settle sw_chunk_data k) k.
Proof.
  intros Hk. unfold coherent. cbn [settle].
  split_if; cbn [announced]; repeat split; intros; try discriminate; lia.
Qed.

Lemma step_data s size ch : step s size ch = Goto_data -> s = sw_chunk_data.
Proof.
  destruct s; unfold step, step_size, expect_lf; try reflexivity;
    try (destruct (c_hex_digit ch)); split_ifs; discriminate.
Qed.

(** A chunk size over the limit is never undone: it ends in an error. *)
Lemma loop_oversize l : forall s size,
  coherent s size -> size > NGX_MAX_OFF_T_VALUE - 5 ->
  let '(rc, s', size', _) := loop s size l in
  rc = NGX_ERROR \/ ((rc = NGX_OK \/ rc = NGX_AGAIN) /\
                     size' > NGX_MAX_OFF_T_VALUE - 5).
Proof.
  pose proof (max_value_16 off_t_size) as H16.
  pose proof (max_value_pos off_t_size) as Hpos.
  induction l as [|ch l IH]; intros s size Hc Hs; cbn [loop]; [auto|].
  destruct (step s size ch) as [s' size'| | |] eqn:E; auto.
  - apply IH; [eapply step_coherent; eassumption|].
    destruct Hc as (Hr & Ha & Hp).
    destruct s; unfold step, step_size, expect_lf, NGX_MAX_OFF_T_VALUE in *;
      cbn [announced] in *; try specialize (Ha eq_refl);
      try (destruct (c_hex_digit ch) eqn:Eh; [apply hex_step_range in Eh|]);
      split_ifs_in E; inv E; lia.
  - destruct Hc as (Hr & Ha & Hp).
    destruct s; unfold step, step_size, expect_lf, NGX_MAX_OFF_T_VALUE in *;
      cbn [announced] in *; try specialize (Ha eq_refl);
      try (destruct (c_hex_digit ch) eqn:Eh; [apply hex_step_range in Eh|]);
      split_ifs_in E; try discriminate E; lia.
Qed.

Lemma loop_range l : forall s size, coherent s size ->
  let '(_, _, size', _) := loop s size l in 0 <= size' <= NGX_MAX_OFF_T_VALUE.
Proof.
  induction l as [|ch l IH]; intros s size Hc; cbn [loop]; [apply Hc|].
  destruct (step s size ch) eqn:Es; try apply Hc.
  apply IH. eapply step_coherent; eassumption.
Qed.

(** What the parser's loop finds is what the specification goes through. *)
Lemma loop_decodes l : forall s size clen,
  coherent s size -> size <= NGX_MAX_OFF_T_VALUE - 5 ->
  let '(rc, s', size', rest) := loop s size l in
  (rc = NGX_ERROR /\
   decode s size clen l = Rejected NGX_HTTP_BAD_REQUEST) \/
  (rc = NGX_DONE /\ size' = 0 /\ (exists pre, l = pre ++ rest) /\
   decode s size clen l = Complete clen [] rest) \/
  ((rc = NGX_OK \/ rc = NGX_AGAIN) /\ size' > NGX_MAX_OFF_T_VALUE - 5 /\
   decode s size clen l = Rejected NGX_HTTP_BAD_REQUEST) \/
  (rc = NGX_OK /\ 0 < size' <= NGX_MAX_OFF_T_VALUE - 5 /\ s' = sw_chunk_data /\
   rest <> [] /\ (exists pre, l = pre ++ rest) /\
   decode s size clen l = decode s' size' clen rest) \/
  (rc = NGX_AGAIN /\ size' <= NGX_MAX_OFF_T_VALUE - 5 /\ coherent s' size' /\
   rest = [] /\ decode s size clen l = More (at_pos s' size' clen) []).
Proof.
  induction l as [|ch l IH]; intros s size clen Hc Hs; cbn [loop decode].
  { do 4 right. auto. }
  destruct (step s size ch) as [s1 size1| | |] eqn:E.
  - pose proof (step_coherent _ _ _ _ _ Hc E) as Hc1.
    destruct (size1 >? NGX_MAX_OFF_T_VALUE - 5) eqn:Eb.
    + pose proof (loop_oversize l s1 size1 Hc1 ltac:(lia)) as Ho.
      destruct (loop s1 size1 l) as [[[rc s'] size'] rest].
      destruct Ho as [->|[Hrc Hs']]; [left; auto|right; right; left; auto].
    + specialize (IH s1 size1 clen Hc1 ltac:(lia)).
      destruct (loop s1 size1 l) as [[[rc s'] size'] rest].
      destruct IH as [IH|[(-> & Hr & (pre & ->) & Hd)
        |[IH|[(-> & Hr & -> & Hne & (pre & ->) & Hd)|IH]]]]; auto 6;
        [do 1 right|do 3 right]; left; repeat split; try tauto; try lia; try assumption;
        exists (ch :: pre); reflexivity.
  - apply step_data in E as ->. destruct Hc as (Hr & _ & Hp).
    do 3 right. left. repeat split; try tauto; try lia; try discriminate.
    exists []. reflexivity.
  - right. left. repeat split; try tauto; [|exists [ch]; reflexivity].
    destruct Hc as (Hr & Ha & Hp). destruct s; unfold step, step_size, expect_lf in E; cbn [announced] in Ha;
      try (apply Ha; reflexivity);
      try (destruct (c_hex_digit ch)); split_ifs_in E; discriminate E.
  - left. auto.
Qed.

(** Data of a chunk that is not too large is passed on as it is. *)
Lemma decode_data d rest : forall size clen,
  Z.of_nat (length d) <= size -> 0 < size -> too_large clen size = false ->
  decode sw_chunk_data size clen (d ++ rest) =
  emit d (decode (settle sw_chunk_data (size - Z.of_nat (length d)))
                 (size - Z.of_nat (length d)) (clen + Z.of_nat (length d)) rest).
Proof.
  unfold too_large.
  induction d as [|ch d IH]; intros size clen Hl Hs Ht; cbn [app length] in *.
  - rewrite emit_nil. cbn [settle]. if_false. repeat f_equal; lia.
  - cbn [decode step]. unfold too_large. rewrite Ht.
    change (ch :: d) with ([ch] ++ d). rewrite emit_app. f_equal.
    cbn [settle]. destruct (size - 1 =? 0) eqn:E1.
    + destruct d; [|cbn [length] in Hl; lia].
      cbn [app length settle]. rewrite emit_nil. if_true. repeat f_equal; lia.
    + rewrite IH by lia. cbn [settle].
      replace (size - 1 - Z.of_nat (length d)) with (size - Z.of_nat (S (length d))) by lia.
      replace (clen + 1 + Z.of_nat (length d)) with (clen + Z.of_nat (S (length d))) by lia.
      reflexivity.
Qed.

End Spec.

(** ** Moving data down inside a buffer *)

Section Memory.
Variables (mem : list Z) (dst src n : nat).
Hypothesis Hdown : (dst <= src)%nat.
Hypothesis Hfits : (src + n <= length mem)%nat.

Lemma memmove_parts :
  length (firstn dst mem) = dst /\ length (slice mem src (src + n)) = n.
Proof. rewrite length_firstn, slice_length by lia. lia. Qed.

Lemma memmove_length : length (memmove mem dst src n) = length mem.
Proof.
  unfold memmove. destruct memmove_parts as [H1 H2].
  rewrite !length_app, length_skipn, H1, H2. lia.
Qed.

Lemma memmove_skipn k : (dst + n <= k)%nat -> skipn k (memmove mem dst src n) = skipn k mem.
Proof.
  intros Hk. unfold memmove. destruct memmove_parts as [H1 H2].
  rewrite app_assoc, skipn_app, length_app, H1, H2, skipn_all2, skipn_skipn
    by (rewrite length_app; lia).
  cbn [app]. f_equal. lia.
Qed.

Lemma memmove_firstn :
  firstn (dst + n) (memmove mem dst src n) = firstn dst mem ++ slice mem src (src + n).
Proof.
  unfold memmove. destruct memmove_parts as [H1 H2].
  rewrite app_assoc, firstn_app, length_app, H1, H2, Nat.sub_diag, firstn_O, app_nil_r.
  apply firstn_all2. rewrite length_app. lia.
Qed.

Lemma memmove_slice_high i j :
  (dst + n <= i)%nat -> slice (memmove mem dst src n) i j = slice mem i j.
Proof. intros. unfold slice. rewrite memmove_skipn by assumption. reflexivity. Qed.

Lemma slice_firstn m i j k : (j <= k)%nat -> slice m i j = slice (firstn k m) i j.
Proof.
  intros. unfold slice. rewrite skipn_firstn_comm, firstn_firstn. f_equal. lia.
Qed.

Lemma memmove_slice_low i j :
  (j <= dst)%nat -> slice (memmove mem dst src n) i j = slice mem i j.
Proof.
  intros. rewrite (slice_firstn _ i j (dst + n)), memmove_firstn by lia.
  rewrite (slice_firstn _ i j dst), (slice_firstn mem i j dst) by lia.
  rewrite firstn_app, length_firstn, firstn_firstn.
  replace (dst - _)%nat with O by lia. rewrite firstn_O, app_nil_r. do 2 f_equal. lia.
Qed.

Lemma memmove_slice_grown i :
  (i <= dst)%nat ->
  slice (memmove mem dst src n) i (dst + n) = slice mem i dst ++ slice mem src (src + n).
Proof.
  intros Hi. rewrite (slice_split _ i dst) by lia.
  rewrite memmove_slice_low by lia. f_equal.
  rewrite (slice_firstn _ _ _ (dst + n)), memmove_firstn by lia.
  destruct memmove_parts as [H1 H2].
  pose proof (slice_app (firstn dst mem) (slice mem src (src + n)) []) as Hs.
  rewrite H1, H2, app_nil_r in Hs. exact Hs.
Qed.
End Memory.

(** The byte loop for short chunks moves what ngx_memmove() moves. *)
Lemma copy_bytes_memmove n : forall mem dst src,
  (dst <= src)%nat -> (src + n <= length mem)%nat ->
  copy_bytes n mem dst src = memmove mem dst src n.
Proof.
  induction n as [|n IH]; intros mem dst src Hd Hf; cbn [copy_bytes].
  - unfold memmove. rewrite slice_empty, Nat.add_0_r by lia. cbn [app].
    symmetry. apply firstn_skipn.
  - assert (Hb : [byte_at mem src] = slice mem src (src + 1)).
    { destruct (nth_error mem src) as [c|] eqn:E; [|apply nth_error_None in E; lia].
      rewrite (byte_at_nth _ _ _ E), Nat.add_1_r, (slice_snoc _ _ _ c) by auto.
      rewrite slice_empty by lia. reflexivity. }
    rewrite Hb. change (S dst) with (1 + dst)%nat at 1. rewrite (Nat.add_comm 1 dst).
    fold (memmove mem dst src 1).
    rewrite IH by (rewrite ?memmove_length by lia; lia).
    unfold memmove at 1. rewrite <- Nat.add_1_r at 1.
    rewrite memmove_firstn, memmove_slice_high, memmove_skipn by lia.
    unfold memmove. rewrite (slice_split mem src (src + 1) (src + S n)) by lia.
    replace (S src + n)%nat with (src + S n)%nat by lia.
    replace (S dst + n)%nat with (dst + S n)%nat by lia.
    rewrite <- !app_assoc, Nat.add_1_r. reflexivity.
Qed.

(** ** The filter refines the specification *)

Section Refinement.
Context `{P : Platform}.
Variables max_body hdr : Z.

Definition sound (ctx : chunked) : Prop :=
  coherent (settle (c_state ctx) (c_size ctx)) (c_size ctx) /\
  c_size ctx <= NGX_MAX_OFF_T_VALUE - 5.

(** The decoding of [l] from where a body stands. *)
Definition decode_from (bd : body) (l : list Z) : outcome :=
  decode max_body (settle (c_state (b_ctx bd)) (c_size (b_ctx bd)))
    (c_size (b_ctx bd)) (b_clen bd) l.

Lemma parse_chunked_decodes ctx clen rst l :
  sound ctx ->
  let '(rc, ctx', rest) := ngx_http_parse_chunked ctx l in
  let o := decode_from (mk_body ctx clen rst) l in
  (rc = NGX_ERROR /\ o = Rejected NGX_HTTP_BAD_REQUEST) \/
  (rc = NGX_DONE /\ c_state ctx' = sw_chunk_start /\ c_size ctx' = 0 /\
   (exists pre, l = pre ++ rest) /\ o = Complete clen [] rest) \/
  (rc = NGX_OK /\ 0 < c_size ctx' <= NGX_MAX_OFF_T_VALUE - 5 /\
   c_state ctx' = sw_chunk_data /\ rest <> [] /\ (exists pre, l = pre ++ rest) /\
   o = decode_from (mk_body ctx' clen rst) rest) \/
  (rc = NGX_AGAIN /\ c_length ctx' = min_length (c_state ctx') (c_size ctx') /\
   rest = [] /\ o = More (at_pos (c_state ctx') (c_size ctx') clen) []).
Proof.
  intros [Hc Hs]. unfold ngx_http_parse_chunked, decode_from.
  cbn [b_ctx b_clen].
  pose proof (loop_decodes max_body l _ _ clen Hc Hs) as HL.
  destruct (loop _ (c_size ctx) l) as [[[rc s'] size'] rest].
  destruct HL as [(-> & Hd)|[(-> & -> & Hx & Hd)|[([-> | ->] & Hz & Hd)
    |[(-> & Hz & -> & Hne & Hx & Hd)|(-> & Hz & _ & -> & Hd)]]]];
    cbn [Z.eqb NGX_ERROR NGX_DONE NGX_OK NGX_AGAIN Pos.eqb];
    rewrite Hd; cbn [c_state c_size].
  - auto.
  - right. left. auto.
  - if_true. auto.
  - if_true. auto.
  - if_false. right. right. left. cbn [c_state c_size c_length settle].
    replace (size' =? 0) with false by lia. repeat split; auto; lia.
  - if_false. do 3 right. repeat split; auto.
Qed.

(** What a run on one buffer must give for an outcome of the specification. *)
Definition matches (o : outcome) (e : buf_exit) (bd : body) (data rest : list Z)
    : Prop :=
  match o with
  | Rejected rc => e = Exit_error rc
  | More (at_pos s size clen) d =>
      e = Exit_again /\ data = d /\ rest = [] /\
      bd = mk_body (mk_chunked s size (min_length s size)) clen
             (Z.max (min_length s size) hdr)
  | Complete clen d r =>
      e = Exit_done /\ data = d /\ rest = r /\
      (exists len, bd = mk_body (mk_chunked sw_chunk_start 0 len) clen 0)
  end.

(** The output buffers lie below the input still unread, in order. *)
Fixpoint below (out : outs) (pos : nat) : Prop :=
  match out with
  | [] => True
  | (s, l) :: out' => (s <= l <= pos)%nat /\ below out' s
  end.

Definition data_of (mem : list Z) (out : outs) : list Z := concat (collect mem out).

Lemma data_of_cons mem s l out :
  data_of mem ((s, l) :: out) = data_of mem out ++ slice mem s l.
Proof.
  unfold data_of, collect. cbn [rev]. rewrite map_app, concat_app. cbn [map concat].
  rewrite app_nil_r. reflexivity.
Qed.

Lemma below_le out p q : below out p -> (p <= q)%nat -> below out q.
Proof. destruct out as [|[s l] out]; cbn [below]; intuition lia. Qed.

Lemma data_of_moved mem dst src n out : (dst <= src)%nat -> (src + n <= length mem)%nat ->
  forall p, below out p -> (p <= dst)%nat -> data_of (memmove mem dst src n) out = data_of mem out.
Proof.
  intros Hd Hf. induction out as [|[s l] out IH]; intros p Hb Hp; [reflexivity|].
  cbn [below] in Hb. rewrite !data_of_cons, (IH s) by (tauto || lia).
  rewrite memmove_slice_low by lia. reflexivity.
Qed.

Lemma slice_suffix mem i j pre rest :
  (j <= length mem)%nat -> slice mem i j = pre ++ rest ->
  rest = slice mem (j - length rest) j /\ (i + length pre + length rest = j \/ rest = [])%nat.
Proof.
  intros Hj E. pose proof (slice_length mem i j Hj) as HL.
  rewrite E, length_app in HL.
  destruct (Nat.le_gt_cases j i) as [Hji|Hij].
  { rewrite slice_empty in E by assumption. symmetry in E.
    apply app_eq_nil in E as [-> ->]. rewrite slice_empty by (cbn [length]; lia). auto. }
  rewrite (slice_split mem i (j - length rest) j) in E by lia.
  assert (Hl : length (slice mem i (j - length rest)) = length pre)
    by (rewrite slice_length by lia; lia).
  split; [|left; lia].
  apply (f_equal (skipn (length pre))) in E.
  rewrite !skipn_app, Hl, Nat.sub_diag, skipn_all, skipn_all2 in E by lia.
  symmetry. exact E.
Qed.

(** Taking the announced data, all of it or as much as the buffer has. *)
Lemma decode_take ctx clen rst mem p last k :
  0 < c_size ctx -> c_state ctx = sw_chunk_data ->
  too_large max_body clen (c_size ctx) = false ->
  (p <= last <= length mem)%nat -> (k <= last - p)%nat -> Z.of_nat k <= c_size ctx ->
  decode_from (mk_body ctx clen rst) (slice mem p last) =
  emit (slice mem p (p + k))
    (decode_from
       (mk_body (mk_chunked (c_state ctx) (c_size ctx - Z.of_nat k) (c_length ctx))
          (clen + Z.of_nat k) rst) (slice mem (p + k) last)).
Proof.
  intros Hs Hst Ht Hp Hk Hks. unfold decode_from. cbn [b_ctx b_clen c_size c_state].
  rewrite (slice_split mem p (p + k) last), Hst by lia.
  replace (settle sw_chunk_data (c_size ctx)) with sw_chunk_data
    by (cbn [settle]; if_false; reflexivity).
  rewrite decode_data; rewrite ?slice_length by lia; try lia.
  replace (p + k - p)%nat with k by lia. reflexivity.
Qed.

Lemma sound_taken ctx k len :
  0 < c_size ctx <= NGX_MAX_OFF_T_VALUE - 5 -> c_state ctx = sw_chunk_data ->
  0 <= k <= c_size ctx ->
  sound (mk_chunked (c_state ctx) (c_size ctx - k) len).
Proof.
  intros Hs Hst Hk. unfold sound. cbn [c_state c_size]. rewrite Hst.
  split; [apply settle_coherent|]; lia.
Qed.

Lemma take_refines ctx clen rst mem p last out :
  0 < c_size ctx <= NGX_MAX_OFF_T_VALUE - 5 -> c_state ctx = sw_chunk_data ->
  too_large max_body clen (c_size ctx) = false ->
  (p < last <= length mem)%nat -> below out p ->
  let '(bd', mem', pos', out') := take (mk_body ctx clen rst) mem p last out in
  emit (data_of mem out) (decode_from (mk_body ctx clen rst) (slice mem p last)) =
  emit (data_of mem' out') (decode_from bd' (slice mem' pos' last)) /\
  (p < pos' <= last)%nat /\ length mem' = length mem /\ below out' pos' /\
  sound (b_ctx bd').
Proof.
  intros Hz Hst Ht Hp Hb. unfold take. cbn [b_ctx b_clen b_rest].
  pose proof (fun k => decode_take ctx clen rst mem p last k ltac:(lia) Hst Ht ltac:(lia)) as HT.
  set (fresh := if Z.of_nat (last - p) >? c_size ctx then _ else _).
  assert (Hfresh : let '(bd', mem', pos', out') := fresh in
    emit (data_of mem out) (decode_from (mk_body ctx clen rst) (slice mem p last)) =
    emit (data_of mem' out') (decode_from bd' (slice mem' pos' last)) /\
    (p < pos' <= last)%nat /\ length mem' = length mem /\ below out' pos' /\
    sound (b_ctx bd')).
  { unfold fresh. split_if; rewrite data_of_cons, emit_app; cbn [below].
    - rewrite (HT (Z.to_nat (c_size ctx))), Z2Nat.id by lia.
      repeat split; try lia; try assumption; apply sound_taken; auto; lia.
    - rewrite (HT (last - p)%nat) by lia. replace (p + (last - p))%nat with last by lia.
      repeat split; try lia; try assumption; apply sound_taken; auto; lia. }
  destruct out as [|[s l] out]; [exact Hfresh|].
  destruct ((c_size ctx <=? 128) && (Z.of_nat (last - p) >=? c_size ctx)) eqn:E;
    [|exact Hfresh].
  clear fresh Hfresh. cbn [below] in *. set (n := Z.to_nat (c_size ctx)).
  replace (if c_size ctx <? 8 then _ else _) with (memmove mem l p n)
    by (split_if; rewrite ?copy_bytes_memmove by lia; reflexivity).
  rewrite !data_of_cons, (data_of_moved mem l p n out) with (p := s) by (tauto || lia).
  rewrite memmove_slice_grown, memmove_slice_high, memmove_length by lia.
  rewrite (HT n) by lia. rewrite <- emit_app, app_assoc.
  replace (Z.of_nat n) with (c_size ctx) by lia.
  repeat split; try lia; try tauto; apply sound_taken; auto; lia.
Qed.

Lemma buf_loop_refines fuel : forall bd mem pos last out,
  (last - pos < fuel)%nat -> (pos <= last <= length mem)%nat ->
  below out pos -> sound (b_ctx bd) ->
  let '(e, bd', mem', pos', out') := buf_loop fuel max_body hdr bd mem pos last out in
  matches (emit (data_of mem out) (decode_from bd (slice mem pos last)))
    e bd' (data_of mem' out') (slice mem' pos' last).
Proof.
  induction fuel as [|fuel IH]; intros [ctx0 clen rst] mem pos last out Hf Hp Hb Hs;
    [lia|]. cbn [b_ctx] in Hs. cbn [buf_loop].
  pose proof (parse_chunked_decodes ctx0 clen rst (slice mem pos last) Hs) as HD.
  cbn [b_ctx]. destruct (ngx_http_parse_chunked ctx0 _) as [[rc ctx] rest].
  destruct HD as [(-> & ->)|[(-> & E1 & E2 & (pre & Hx) & ->)
    |[(-> & Hz & Hst & Hne & (pre & Hx) & ->)|(-> & HL & -> & ->)]]];
    cbn [Z.eqb NGX_ERROR NGX_DONE NGX_OK NGX_AGAIN Pos.eqb b_ctx b_clen b_rest].
  - reflexivity.
  - destruct (slice_suffix mem pos last pre rest ltac:(lia) Hx) as [Hr _].
    cbn [emit matches]. rewrite app_nil_r. repeat split; [congruence|].
    exists (c_length ctx). destruct ctx; cbn in *; subst; reflexivity.
  - destruct (slice_suffix mem pos last pre rest ltac:(lia) Hx) as [Hr [Hpos|]];
      [|contradiction].
    assert (Hl : (0 < length rest)%nat) by (destruct rest; [contradiction|simpl; lia]).
    fold (too_large max_body clen (c_size ctx)).
    destruct (too_large max_body clen (c_size ctx)) eqn:Et.
    + destruct rest as [|ch rest]; [contradiction|].
      unfold decode_from. cbn [b_ctx b_clen]. rewrite Hst. cbn [settle].
      replace (c_size ctx =? 0) with false by lia.
      cbn [decode step]. rewrite Et. reflexivity.
    + set (p := (last - length rest)%nat) in *.
      replace (decode_from _ rest) with (decode_from (mk_body ctx clen rst) (slice mem p last))
        by (rewrite <- Hr; reflexivity).
      pose proof (take_refines ctx clen rst mem p last out Hz Hst Et ltac:(lia)
        ltac:(eapply below_le; [eassumption|lia])) as HT.
      destruct (take _ mem p last out) as [[[bd' mem'] pos'] out'].
      destruct HT as (-> & Hp' & HL & Hb' & Hs').
      apply IH; [lia|lia|assumption|assumption].
  - cbn [emit matches length]. rewrite app_nil_r, Nat.sub_0_r, slice_empty by lia.
    rewrite <- HL. repeat split. destruct ctx; reflexivity.
Qed.

(** The data and the end marks of an output chain. *)
Fixpoint chain_data (out : list obuf) : list Z :=
  match out with
  | [] => []
  | Data l :: out' => l ++ chain_data out'
  | Last_buf :: out' => chain_data out'
  end.

Definition ends (out : list obuf) : nat :=
  length (filter (fun b => match b with Last_buf => true | Data _ => false end) out).

Lemma chain_data_app o1 o2 : chain_data (o1 ++ o2) = chain_data o1 ++ chain_data o2.
Proof.
  induction o1 as [|[l|] o1 IH]; cbn [chain_data app]; rewrite ?IH, ?app_assoc; reflexivity.
Qed.

Lemma ends_app o1 o2 : ends (o1 ++ o2) = (ends o1 + ends o2)%nat.
Proof. unfold ends. rewrite filter_app, length_app. reflexivity. Qed.

Lemma chain_data_map ls : chain_data (map Data ls) = concat ls.
Proof. induction ls as [|l ls IH]; cbn; rewrite ?IH; reflexivity. Qed.

Lemma ends_map ls : ends (map Data ls) = 0%nat.
Proof. induction ls as [|l ls IH]; [reflexivity|exact IH]. Qed.

Lemma filter_buf_matches bd mem :
  sound (b_ctx bd) ->
  let '(e, bd', out, rest) := filter_buf max_body hdr bd mem in
  matches (decode_from bd mem) e bd' (chain_data out) rest /\
  ends out = match e with Exit_done => 1%nat | _ => O end.
Proof.
  intros Hs. unfold filter_buf.
  pose proof (buf_loop_refines (S (length mem)) bd mem 0 (length mem) []
    ltac:(lia) ltac:(lia) I Hs) as H.
  destruct (buf_loop _ max_body hdr bd mem 0 (length mem) []) as [[[[e bd'] mem'] pos] out].
  change (data_of mem []) with (@nil Z) in H. rewrite emit_nil in H.
  replace (slice mem 0 (length mem)) with mem in H
    by (unfold slice; cbn [skipn]; rewrite Nat.sub_0_r, firstn_all; reflexivity).
  rewrite chain_data_app, chain_data_map, ends_app, ends_map. split; [|destruct e; reflexivity].
  replace (chain_data match e with Exit_done => [Last_buf] | _ => [] end) with (@nil Z)
    by (destruct e; reflexivity).
  rewrite app_nil_r. exact H.
Qed.

(** ** Splitting the input *)

Lemma decode_app l1 l2 : forall s size clen,
  decode max_body s size clen (l1 ++ l2) =
  match decode max_body s size clen l1 with
  | More (at_pos s' size' clen') d => emit d (decode max_body s' size' clen' l2)
  | Complete n d rest => Complete n d (rest ++ l2)
  | Rejected rc => Rejected rc
  end.
Proof.
  induction l1 as [|ch l1 IH]; intros s size clen; cbn [app decode];
    [rewrite emit_nil; reflexivity|].
  destruct (step s size ch); try reflexivity; split_if; try reflexivity; rewrite IH;
    [reflexivity|].
  destruct (decode max_body _ _ _ l1) as [[s' size' clen'] d| |]; try reflexivity.
  change (ch :: d) with ([ch] ++ d). cbn [emit].
  rewrite emit_app. reflexivity.
Qed.

Lemma decode_settled l : forall s size clen s' size' clen' d,
  coherent s size -> size <= NGX_MAX_OFF_T_VALUE - 5 ->
  decode max_body s size clen l = More (at_pos s' size' clen') d ->
  coherent s' size' /\ size' <= NGX_MAX_OFF_T_VALUE - 5 /\ settle s' size' = s'.
Proof.
  induction l as [|ch l IH]; intros s size clen s' size' clen' d Hc Hs H; cbn [decode] in H.
  - injection H as <- <- <- <-. repeat split; try apply Hc; try assumption.
    destruct Hc as (_ & _ & Hp). destruct s; try reflexivity. cbn [settle]. if_false. reflexivity.
  - destruct (step s size ch) as [s1 size1| | |] eqn:E; try discriminate; split_ifs_in H.
    + eapply IH; [|..|exact H]; [eapply step_coherent; eassumption|lia].
    + apply step_data in E as ->. destruct (decode _ _ _ _ l) as [[]| |] eqn:E; try discriminate.
      cbn [emit] in H. injection H as -> -> -> _.
      eapply IH; [| |exact E]; [|lia]. destruct Hc as (Hr & _ & Hp).
      apply settle_coherent. lia.
Qed.

(** Where the split points lie does not matter. *)
Lemma filter_chain_complete chain : forall bd clen data,
  sound (b_ctx bd) -> Forall (fun m => m <> []) chain ->
  decode_from bd (concat chain) = Complete clen data [] ->
  exists out bd', filter_chain max_body hdr bd chain = (inr out, bd') /\
    chain_data out = data /\ ends out = 1%nat /\ b_clen bd' = clen /\ b_rest bd' = 0 /\
    c_state (b_ctx bd') = sw_chunk_start.
Proof.
  induction chain as [|m chain IH]; intros bd clen data Hs Hne H;
    [discriminate H|]. cbn [concat filter_chain] in *.
  inversion Hne as [|? ? Hm Hch]; subst.
  pose proof (filter_buf_matches bd m Hs) as HB.
  destruct (filter_buf max_body hdr bd m) as [[[e bd1] out1] rest1].
  destruct HB as [HB He]. unfold decode_from in H. rewrite decode_app in H.
  fold (decode_from bd m) in H.
  destruct (decode_from bd m) as [[s1 z1 n1] d1|n1 d1 r1|] eqn:E; [| |discriminate H];
    cbn [matches] in HB.
  - destruct HB as (-> & <- & -> & Hbd).
    apply decode_settled in E as (Hc1 & Hz1 & Hse); [|apply Hs|apply Hs].
    destruct (decode max_body s1 z1 n1 (concat chain)) as [|n2 d2 r2|] eqn:E2; try discriminate H.
    cbn [emit] in H. injection H as -> <- ->.
    destruct (IH bd1 clen d2) as (out2 & bd2 & -> & Hd & Hn & Hrest); try assumption.
    + rewrite Hbd. unfold sound. cbn [b_ctx c_state c_size]. rewrite Hse. auto.
    + rewrite Hbd. unfold decode_from. cbn [b_ctx b_clen c_state c_size].
      rewrite Hse. exact E2.
    + exists (out1 ++ out2), bd2. rewrite chain_data_app, ends_app, Hd, Hn, He. auto.
  - destruct HB as (-> & <- & -> & len & Hbd).
    injection H as -> <- H. apply app_eq_nil in H as [-> H].
    destruct chain as [|m2 chain];
      [|apply app_eq_nil in H as [-> _]; inversion Hch; subst; contradiction].
    exists (out1 ++ []), bd1. cbn [filter_chain].
    rewrite app_nil_r. subst bd1. repeat split; assumption.
Qed.

End Refinement.

(** ** The grammar of a chunked body *)

Definition eol (e : list Z) : Prop := e = [10] \/ e = [13; 10].

Definition plain (l : list Z) : Prop := Forall (fun c => c <> 10 /\ c <> 13) l.

(** A chunk extension, the separator included. *)
Definition extension (x : list Z) : Prop :=
  x = [] \/ exists c l, x = c :: l /\ (c = chr ";" \/ c = chr " " \/ c = 9) /\ plain l.

Inductive trailers : list Z -> Prop :=
  | trailers_none : trailers []
  | trailers_line c l e t :
      plain (c :: l) -> eol e -> trailers t -> trailers ((c :: l) ++ e ++ t).

(** [encodes w data]: [w] is a chunked body that carries [data]. *)
Inductive encodes `{P : Platform} : list Z -> list Z -> Prop :=
  | encodes_last h x e t e' :
      h <> [] -> hex_value h = Some 0 -> extension x -> eol e -> trailers t -> eol e' ->
      encodes (h ++ x ++ e ++ t ++ e') []
  | encodes_chunk h x e d e' w data :
      hex_value h = Some (Z.of_nat (length d)) -> d <> [] ->
      Z.of_nat (length d) <= NGX_MAX_OFF_T_VALUE / 16 ->
      extension x -> eol e -> eol e' -> encodes w data ->
      encodes (h ++ x ++ e ++ d ++ e' ++ w) (d ++ data).

Section RoundTrip.
Context `{P : Platform}.
Variables max_body hdr : Z.
Abbreviation decode := (decode max_body).

Lemma off_t_16 : NGX_MAX_OFF_T_VALUE / 16 <= NGX_MAX_OFF_T_VALUE - 5.
Proof.
  unfold NGX_MAX_OFF_T_VALUE. pose proof (max_value_16 off_t_size).
  pose proof (max_value_pos off_t_size). lia.
Qed.

Lemma hex_c_digit c d : hex_digit c = Some d -> c_hex_digit c = Some d.
Proof.
  intros H. rewrite c_hex_digit_spec; [assumption|].
  unfold hex_digit in H. unfold is_byte. split_ifs_in H; lia.
Qed.

Lemma decode_digits h l clen v : forall acc,
  0 <= acc -> hex_from acc h = Some v -> v <= NGX_MAX_OFF_T_VALUE / 16 ->
  decode sw_chunk_size acc clen (h ++ l) = decode sw_chunk_size v clen l.
Proof.
  induction h as [|c h IH]; intros acc Ha Hh Hv; cbn [hex_from app] in *;
    [injection Hh as ->; reflexivity|].
  destruct (hex_digit c) as [d|] eqn:E; [|discriminate].
  pose proof (hex_digit_range _ _ E). pose proof off_t_16.
  pose proof (hex_from_ge (acc * 16 + d) h v ltac:(lia) Hh).
  cbn [Chunked.decode step step_size]. rewrite (hex_c_digit _ _ E).
  if_false. if_false. apply IH; auto; lia.
Qed.

Lemma decode_size h l clen v :
  h <> [] -> hex_value h = Some v -> v <= NGX_MAX_OFF_T_VALUE / 16 ->
  decode sw_chunk_start 0 clen (h ++ l) = decode sw_chunk_size v clen l.
Proof.
  intros Hne Hh Hv. destruct h as [|c h]; [contradiction|].
  unfold hex_value in Hh. cbn [hex_from] in Hh.
  destruct (hex_digit c) as [d|] eqn:E; [|discriminate].
  pose proof (hex_digit_range _ _ E). pose proof off_t_16.
  pose proof (hex_from_ge d h v ltac:(lia) Hh).
  cbn [app Chunked.decode step step_size]. rewrite (hex_c_digit _ _ E).
  if_false. apply decode_digits; auto; lia.
Qed.

(** A state that skips to the end of the line. *)
Lemma decode_skip s size clen x l :
  In s [sw_chunk_extension; sw_last_chunk_extension; sw_trailer_header] ->
  size <= NGX_MAX_OFF_T_VALUE - 5 -> plain x ->
  decode s size clen (x ++ l) = decode s size clen l.
Proof.
  intros Hs Hz Hx. induction Hx as [|c x [H1 H2] Hx IH]; [reflexivity|].
  cbn [app Chunked.decode].
  replace (step s size c) with (Break s size)
    by (destruct Hs as [<-|[<-|[<-|[]]]]; unfold step; do 2 if_false; reflexivity).
  if_false. exact IH.
Qed.

Lemma size_after_hex v c : c = 10 \/ c = 13 \/ c = chr ";" \/ c = chr " " \/ c = 9 ->
  v <= NGX_MAX_OFF_T_VALUE / 16 ->
  step sw_chunk_size v c =
  let data := negb (v =? 0) in
  if c =? CR then
    Break (if data then sw_chunk_extension_almost_done
           else sw_last_chunk_extension_almost_done) v
  else if c =? LF then Break (if data then sw_chunk_data else sw_trailer) v
  else Break (if data then sw_chunk_extension else sw_last_chunk_extension) v.
Proof.
  intros Hc Hv. unfold step, step_size.
  replace (v >? NGX_MAX_OFF_T_VALUE / 16) with false by lia.
  destruct (v =? 0), Hc as [->|[->|[->|[->| ->]]]]; reflexivity.
Qed.

(** The rest of a chunk's first line. *)
Lemma decode_line x e l clen v :
  0 <= v <= NGX_MAX_OFF_T_VALUE / 16 -> extension x -> eol e ->
  decode sw_chunk_size v clen (x ++ e ++ l) =
  decode (if v =? 0 then sw_trailer else sw_chunk_data) v clen l.
Proof.
  intros Hv Hx He. pose proof off_t_16. pose proof max_value_pos off_t_size.
  destruct Hx as [->|(c & x' & -> & Hc & Hx)].
  - destruct He as [->| ->]; cbn [app Chunked.decode];
      rewrite size_after_hex by (auto || lia); cbn [Z.eqb Pos.eqb];
      destruct (v =? 0); cbn [negb step expect_lf Z.eqb Pos.eqb];
      repeat if_false; reflexivity.
  - cbn [app Chunked.decode]. rewrite size_after_hex by (tauto || lia).
    replace (c =? 13) with false by lia. replace (c =? 10) with false by lia.
    cbn [negb]. cbv zeta. if_false.
    rewrite decode_skip by (try assumption; try lia; destruct (v =? 0); simpl; auto).
    destruct He as [->| ->]; cbn [app Chunked.decode];
      destruct (v =? 0); cbn [negb step expect_lf Z.eqb Pos.eqb];
      repeat if_false; reflexivity.
Qed.

Lemma decode_trailers t e clen :
  trailers t -> eol e -> decode sw_trailer 0 clen (t ++ e) = Complete clen [] [].
Proof.
  intros Ht He. pose proof (max_value_pos off_t_size).
  assert (Hb : (0 >? NGX_MAX_OFF_T_VALUE - 5) = false) by (unfold NGX_MAX_OFF_T_VALUE; lia).
  induction Ht as [|c l e1 t Hl He1 Ht IH].
  - destruct He as [->| ->]; cbn; rewrite ?Hb; reflexivity.
  - inversion Hl as [|? ? [H1 H2] Hl']; subst.
    cbn [app Chunked.decode step].
    replace (c =? 13) with false by lia. replace (c =? 10) with false by lia. rewrite Hb.
    rewrite <- !app_assoc, decode_skip by (simpl; auto; lia).
    destruct He1 as [->| ->]; cbn [app Chunked.decode step expect_lf Z.eqb Pos.eqb];
      rewrite ?Hb; exact IH.
Qed.

Lemma decode_encodes w data : encodes w data -> forall clen,
  max_body = 0 \/ clen + Z.of_nat (length data) <= max_body ->
  decode sw_chunk_start 0 clen w = Complete (clen + Z.of_nat (length data)) data [].
Proof.
  pose proof off_t_16. pose proof (max_value_pos off_t_size) as Hpos.
  assert (Hb : (0 >? NGX_MAX_OFF_T_VALUE - 5) = false) by (unfold NGX_MAX_OFF_T_VALUE; lia).
  assert (H16 : 0 <= NGX_MAX_OFF_T_VALUE / 16)
    by (apply Z.div_pos; [unfold NGX_MAX_OFF_T_VALUE|]; lia).
  induction 1 as [h x e t e' Hne Hh Hx He Ht He'|h x e d e' w data Hh Hd Hs Hx He He' Hw IH];
    intros clen Hmax.
  - rewrite (decode_size h _ clen 0), decode_line by (auto; lia).
    cbn [Z.eqb]. rewrite decode_trailers by assumption. repeat f_equal. simpl. lia.
  - rewrite length_app in *.
    assert (Hl : (0 < length d)%nat) by (destruct d; [contradiction|simpl; lia]).
    rewrite (decode_size h _ clen (Z.of_nat (length d))), decode_line by
      (auto; try lia; intros ->; cbn in Hh; injection Hh; lia).
    if_false. rewrite decode_data by (unfold too_large; lia).
    rewrite Z.sub_diag. cbn [settle Z.eqb].
    assert (HI : decode sw_after_data 0 (clen + Z.of_nat (length d)) (e' ++ w) =
                 decode sw_chunk_start 0 (clen + Z.of_nat (length d)) w)
      by (destruct He' as [->| ->];
          cbn [app Chunked.decode step expect_lf Z.eqb Pos.eqb]; rewrite ?Hb; reflexivity).
    rewrite HI, IH by lia. cbn [emit]. f_equal. lia.
Qed.

(** *** The converse: only the grammar is accepted *)

(** What may follow the first line of a chunk of [v] bytes. *)
Definition after_line (v : Z) (w data : list Z) : Prop :=
  (v = 0 /\ data = [] /\ exists t e, w = t ++ e /\ trailers t /\ eol e) \/
  (0 < v /\ exists d e w' data', w = d ++ e ++ w' /\ data = d ++ data' /\
     Z.of_nat (length d) = v /\ eol e /\ encodes w' data').

(** What the rest of a body may be in each of the states. *)
Definition follows (s : sw) (size : Z) (w data : list Z) : Prop :=
  match s with
  | sw_chunk_start => encodes w data
  | sw_chunk_size =>
      exists h x e r v, w = h ++ x ++ e ++ r /\ hex_from size h = Some v /\
        v <= NGX_MAX_OFF_T_VALUE / 16 /\ extension x /\ eol e /\ after_line v r data
  | sw_chunk_extension | sw_last_chunk_extension =>
      exists x e r, w = x ++ e ++ r /\ plain x /\ eol e /\ after_line size r data
  | sw_chunk_extension_almost_done | sw_last_chunk_extension_almost_done =>
      exists r, w = 10 :: r /\ after_line size r data
  | sw_chunk_data | sw_trailer => after_line size w data
  | sw_after_data => exists e r, w = e ++ r /\ eol e /\ encodes r data
  | sw_after_data_almost_done => exists r, w = 10 :: r /\ encodes r data
  | sw_trailer_almost_done => w = [10] /\ data = []
  | sw_trailer_header =>
      exists x e r, w = x ++ e ++ r /\ plain x /\ eol e /\ after_line 0 r data
  | sw_trailer_header_almost_done => exists r, w = 10 :: r /\ after_line 0 r data
  end.

Lemma eol_lf : eol [10]. Proof. left; reflexivity. Qed.
Lemma eol_crlf : eol [13; 10]. Proof. right; reflexivity. Qed.
Lemma plain_nil : plain []. Proof. constructor. Qed.
Lemma extension_nil : extension []. Proof. left; reflexivity. Qed.

Lemma plain_cons c l : c <> 10 -> c <> 13 -> plain l -> plain (c :: l).
Proof. constructor; auto. Qed.

Lemma extension_cons c l : c = chr ";" \/ c = chr " " \/ c = 9 -> plain l -> extension (c :: l).
Proof. intros Hc Hl. right. exists c, l. auto. Qed.

#[local] Hint Resolve eol_lf eol_crlf plain_nil extension_nil plain_cons extension_cons : core.

Lemma start_follows c d w data :
  is_byte c -> c_hex_digit c = Some d ->
  follows sw_chunk_size d w data -> follows sw_chunk_start 0 (c :: w) data.
Proof.
  intros Hb Hc (h & x & e & r & v & -> & Hh & Hv & Hx & He & Hr).
  rewrite c_hex_digit_spec in Hc by assumption.
  assert (Hval : hex_value (c :: h) = Some v)
    by (unfold hex_value; cbn [hex_from]; rewrite Hc; exact Hh).
  destruct Hr as [(-> & -> & t & e' & -> & Ht & He')
    |(Hp & dd & e' & w' & data' & -> & -> & <- & He' & Hw)]; cbn [follows].
  - apply (encodes_last (c :: h) x e t e'); auto. discriminate.
  - apply (encodes_chunk (c :: h) x e dd e' w' data'); auto.
    intros ->. cbn in Hp. lia.
Qed.

Ltac by_line :=
  first
    [ solve [eexists; split; [reflexivity|assumption]]
    | solve [exists [10]; eexists; split; [reflexivity|auto]]
    | solve [exists [13; 10]; eexists; split; [reflexivity|auto]]
    | solve [exists [], [10]; eexists; split; [reflexivity|auto]]
    | solve [exists [], [13; 10]; eexists; split; [reflexivity|auto]]
    | solve [exists [], [], [10]; do 2 eexists; split;
             [reflexivity|repeat split; eauto; lia]]
    | solve [exists [], [], [13; 10]; do 2 eexists; split;
             [reflexivity|repeat split; eauto; lia]] ].

Lemma trailer_follows c x e r data :
  c <> 10 -> c <> 13 -> plain x -> eol e -> after_line 0 r data ->
  after_line 0 (c :: x ++ e ++ r) data.
Proof.
  intros H1 H2 Hx He [(_ & -> & t & e' & -> & Ht & He')|(H & _)]; [|lia].
  left. repeat split. exists ((c :: x) ++ e ++ t), e'. rewrite <- !app_assoc.
  repeat split; auto. apply trailers_line; auto.
Qed.

Lemma step_follows s size ch s' size' w data :
  coherent s size -> is_byte ch -> step s size ch = Break s' size' ->
  follows s' size' w data -> follows s size (ch :: w) data.
Proof.
  intros (_ & Ha & _) Hb E F.
  destruct s; unfold step, step_size, expect_lf in E; cbn [announced] in Ha;
    try specialize (Ha eq_refl); subst;
    try match type of E with
        | context [c_hex_digit ch] => destruct (c_hex_digit ch) as [d|] eqn:Eh
        end;
    split_ifs_in E; inv E;
    try (replace ch with 10 by lia); try (replace ch with 13 by lia);
    try (eapply start_follows; eassumption);
    cbn [follows] in *;
    try (destruct F as (h & x & e & r & v & -> & F)); try (destruct F as (x & e & r & -> & F));
    try (destruct F as (r & -> & F)); try by_line.
  - exists (ch :: h), x, e, r, v. cbn [hex_from]. rewrite <- c_hex_digit_spec, Eh by assumption.
    auto.
  - exists [], (ch :: x), e, r, 0. repeat split; try tauto; try lia.
    + replace size' with 0 by lia. reflexivity.
    + apply extension_cons; [lia|tauto].
    + replace 0 with size' by lia. tauto.
  - exists [], (ch :: x), e, r, size'. repeat split; try tauto; try lia.
    apply extension_cons; [lia|tauto].
  - exists (ch :: x), e, r. repeat split; try tauto. apply plain_cons; [lia|lia|tauto].
  - exists (ch :: x), e, r. repeat split; try tauto. apply plain_cons; [lia|lia|tauto].
  - destruct F as [-> ->]. left. repeat split. exists [], [13; 10]. repeat split; auto. constructor.
  - apply trailer_follows; try tauto; lia.
  - exists (ch :: x), e, r. repeat split; try tauto. apply plain_cons; [lia|lia|tauto].
Qed.

Lemma done_follows s size ch :
  coherent s size -> step s size ch = Goto_done -> follows s size [ch] [].
Proof.
  intros (_ & Ha & _) E.
  destruct s; unfold step, step_size, expect_lf in E; cbn [announced] in Ha;
    try specialize (Ha eq_refl); subst;
    try match type of E with
        | context [c_hex_digit ch] => destruct (c_hex_digit ch) as [d|] eqn:Eh
        end;
    split_ifs_in E; try discriminate E; replace ch with 10 by lia; cbn [follows]; auto.
  left. repeat split. exists [], [10]. repeat split; auto. constructor.
Qed.

(** One byte of data: the chunk it belongs to grows by it. *)
Lemma data_follows size ch w data :
  0 < size -> follows (settle sw_chunk_data (size - 1)) (size - 1) w data ->
  follows sw_chunk_data size (ch :: w) (ch :: data).
Proof.
  intros Hs. cbn [settle]. destruct (size - 1 =? 0) eqn:E; cbn [follows].
  - intros (e & r & -> & He & Hr). right. split; [lia|].
    exists [ch], e, r, data. cbn [app length]. repeat split; auto; lia.
  - intros [(? & _)|(_ & d & e & w' & data' & -> & -> & Hl & He & Hw)]; [lia|].
    right. split; [lia|]. exists (ch :: d), e, w', data'.
    cbn [app length]. repeat split; auto; lia.
Qed.

Lemma decode_follows l : forall s size clen n data,
  coherent s size -> bytes l -> decode s size clen l = Complete n data [] ->
  follows s size l data /\ n = clen + Z.of_nat (length data) /\
  (data = [] \/ max_body = 0 \/ n <= max_body).
Proof.
  induction l as [|ch l IH]; intros s size clen n data Hc Hl H; [discriminate|].
  inversion Hl as [|? ? Hb Hl']; subst. cbn [Chunked.decode] in H.
  destruct (step s size ch) as [s1 size1| | |] eqn:E; try discriminate H.
  - split_ifs_in H. apply IH in H as (Hf & Hn & Hm);
      [|eapply step_coherent; eassumption|assumption].
    split; [eapply step_follows; eassumption|auto].
  - apply step_data in E as ->. destruct (too_large _ _ _) eqn:Et; [discriminate H|].
    destruct (Chunked.decode max_body _ _ _ l) as [|n1 d1 r1|] eqn:ED; try discriminate H.
    cbn [emit app] in H. injection H as -> <- ->. destruct Hc as (Hr & _ & Hp).
    pose proof (settle_coherent (size - 1) ltac:(lia)) as Hc1.
    destruct (IH _ _ _ _ _ Hc1 Hl' ED) as (Hf & Hn & Hm).
    split; [apply data_follows; assumption|]. cbn [length]. split; [lia|].
    unfold too_large in Et. destruct Hm as [->|Hm]; [cbn [length] in Hn; lia|auto].
  - injection H as <- <- ->. split; [apply done_follows; assumption|].
    cbn [length]. split; [lia|auto].
Qed.

End RoundTrip.

(** ** How much is still to come *)

Section Length.
Context `{P : Platform}.
Variable max_body : Z.

Lemma step_min_length s size ch s' size' :
  coherent s size -> step s size ch = Break s' size' ->
  min_length s size <= min_length s' size' + 1.
Proof.
  intros (Hr & Ha & Hp) E.
  destruct s; unfold step, step_size, expect_lf in E; cbn [announced] in Ha;
    try specialize (Ha eq_refl);
    try match type of E with
        | context [c_hex_digit ch] =>
            destruct (c_hex_digit ch) as [d|] eqn:Eh; [apply hex_step_range in Eh|]
        end;
    split_ifs_in E; inv E; cbn [min_length]; repeat (split_if; try lia); lia.
Qed.

Lemma decode_min_length l : forall s size clen n data,
  coherent s size -> decode max_body s size clen l = Complete n data [] ->
  min_length s size <= Z.of_nat (length l).
Proof.
  induction l as [|ch l IH]; intros s size clen n data Hc H; [discriminate|].
  cbn [decode length] in *.
  destruct (step s size ch) as [s1 size1| | |] eqn:E; try discriminate H.
  - split_ifs_in H. pose proof (step_min_length _ _ _ _ _ Hc E).
    apply IH in H; [lia|eapply step_coherent; eassumption].
  - apply step_data in E as ->. split_ifs_in H.
    destruct (decode max_body _ _ _ l) as [|n1 d1 r1|] eqn:ED; try discriminate H.
    cbn [emit app] in H. injection H as _ _ ->.
    destruct Hc as (Hr & _ & Hp). apply IH in ED.
    + cbn [settle] in ED. destruct (size - 1 =? 0) eqn:E1; cbn [min_length] in *; lia.
    + apply settle_coherent. lia.
  - destruct Hc as (Hr & Ha & Hp).
    destruct s; unfold step, step_size, expect_lf in E; cbn [announced] in Ha;
      try specialize (Ha eq_refl);
      try match type of E with context [c_hex_digit ch] => destruct (c_hex_digit ch) end;
      split_ifs_in E; try discriminate E; cbn [min_length]; lia.
Qed.
End Length.

(** A shortest way to finish the body from each state, with [n] bytes of
    data to come. *)
Definition shortest (s : sw) (n : nat) : list Z :=
  let data := repeat 0 n ++ [10; 48; 10; 10] in
  match s with
  | sw_chunk_start => [48; 10; 10]
  | sw_chunk_size => 10 :: match n with O => [10] | _ => data end
  | sw_chunk_extension | sw_chunk_extension_almost_done => 10 :: data
  | sw_chunk_data => data
  | sw_after_data | sw_after_data_almost_done => [10; 48; 10; 10]
  | sw_last_chunk_extension | sw_last_chunk_extension_almost_done => [10; 10]
  | sw_trailer | sw_trailer_almost_done => [10]
  | sw_trailer_header | sw_trailer_header_almost_done => [10; 10]
  end.

Lemma decode_shortest `{P : Platform} s size clen :
  coherent s size -> size <= NGX_MAX_OFF_T_VALUE - 5 ->
  (s = sw_chunk_size -> size <= NGX_MAX_OFF_T_VALUE / 16) ->
  decode 0 s size clen (shortest s (Z.to_nat size)) =
    Complete (clen + size) (repeat 0 (Z.to_nat size)) [] /\
  Z.of_nat (length (shortest s (Z.to_nat size))) = min_length s size.
Proof.
  intros (Hr & Ha & Hp) Hs Hd. pose proof (max_value_pos off_t_size).
  assert (Hb : (0 >? NGX_MAX_OFF_T_VALUE - 5) = false) by (unfold NGX_MAX_OFF_T_VALUE; lia).
  assert (Hb' : (size >? NGX_MAX_OFF_T_VALUE - 5) = false) by lia.
  assert (H0 : (0 >? NGX_MAX_OFF_T_VALUE / 16) = false).
  { pose proof (Z.div_pos NGX_MAX_OFF_T_VALUE 16 ltac:(unfold NGX_MAX_OFF_T_VALUE; lia)). lia. }
  assert (HT : forall c, decode 0 sw_after_data 0 c [10; 48; 10; 10] = Complete c [] [] /\
                         decode 0 sw_chunk_start 0 c [48; 10; 10] = Complete c [] [])
    by (intros c; repeat (cbn; rewrite ?Hb, ?H0); auto).
  assert (HD : 0 < size ->
    decode 0 sw_chunk_data size clen (repeat 0 (Z.to_nat size) ++ [10; 48; 10; 10]) =
    Complete (clen + size) (repeat 0 (Z.to_nat size)) []).
  { intros. rewrite decode_data by (rewrite ?repeat_length; unfold too_large; simpl; lia).
    rewrite repeat_length, Z2Nat.id, Z.sub_diag by lia. cbn [settle Z.eqb].
    rewrite (proj1 (HT _)). cbn [emit]. rewrite app_nil_r. reflexivity. }
  assert (HL : Z.of_nat (length (repeat 0 (Z.to_nat size) ++ [10; 48; 10; 10])) = size + 4)
    by (rewrite length_app, repeat_length; cbn [length]; lia).
  destruct s; cbn [announced] in Ha; try specialize (Ha eq_refl); subst;
    unfold shortest; cbn [min_length]; rewrite ?Z.add_0_r;
    try solve [split; [cbn [decode step expect_lf Z.eqb Pos.eqb]; rewrite ?Hb, ?Hb'|cbn [length]];
               apply HD || apply HT || reflexivity || lia; assumption].
  cbn [decode]. rewrite size_after_hex by (auto; apply Hd; reflexivity). cbn [Z.eqb Pos.eqb].
  destruct (size =? 0) eqn:Ez; cbn [negb]; rewrite Hb'.
  - replace size with 0 by lia. split; [cbn; rewrite Z.add_0_r|]; reflexivity.
  - destruct (Z.to_nat size) eqn:En; [lia|]. rewrite <- En in *.
    split; [apply HD; lia|cbn [length]; lia].
Qed.

(** ** Properties *)

Lemma new_sound `{P : Platform} : sound new_chunked.
Proof.
  pose proof (max_value_pos off_t_size).
  split; cbn; unfold coherent, NGX_MAX_OFF_T_VALUE; cbn; repeat split; lia.
Qed.

Section Properties.
Context `{P : Platform}.

Lemma parse_chunked_sound ctx l rc ctx' rest :
  sound ctx -> ngx_http_parse_chunked ctx l = (rc, ctx', rest) -> rc <> NGX_ERROR ->
  sound ctx' /\
  (rc <> NGX_DONE ->
   c_length ctx' = min_length (c_state ctx') (c_size ctx') /\
   coherent (c_state ctx') (c_size ctx')).
Proof.
  intros [Hc Hs] E Hrc. unfold ngx_http_parse_chunked in E.
  pose proof (loop_decodes 0 l _ _ 0 Hc Hs) as HL.
  destruct (loop _ _ l) as [[[rc0 s'] size'] rest0].
  destruct HL as [(-> & _)|[(-> & -> & _)|[([-> | ->] & Hz & _)
    |[(-> & Hz & -> & _)|(-> & Hz & Hc' & -> & Hd)]]]];
    cbn [Z.eqb NGX_ERROR NGX_DONE NGX_OK NGX_AGAIN Pos.eqb] in E;
    split_ifs_in E; inv E; cbn [c_state c_size c_length]; try lia; try contradiction.
  - split; [apply new_sound|]. intros H; exfalso; apply H; reflexivity.
  - assert (Hco : coherent (settle sw_chunk_data size') size') by (apply settle_coherent; lia).
    split; [split; [exact Hco|cbn [c_size]; lia]|].
    cbn [settle] in Hco. replace (size' =? 0) with false in Hco by lia. auto.
  - apply decode_settled in Hd as (_ & _ & Hse); [|assumption|assumption].
    split; [|auto]. split; cbn [c_state c_size]; rewrite ?Hse; assumption.
Qed.

(** C3: On every buffer, whatever bytes it holds and wherever the previous
    ones stopped in the body, the filter's loop does what a reading of the
    body byte by byte prescribes: same data in the output buffers (although
    small chunks are moved down inside the input buffer over its chunk
    headers), same place reached, same count of data, a [last_buf] exactly at
    the end of the body, the same bytes left unread, 400 and 413 on exactly
    the same inputs.  In particular its [for ( ;; )] always ends. *)
Theorem chunked_filter_refines max_body hdr bd mem :
  sound (b_ctx bd) ->
  let '(e, bd', out, rest) := filter_buf max_body hdr bd mem in
  match decode_from max_body bd mem with
  | Rejected rc => e = Exit_error rc
  | More (at_pos s size clen) d =>
      e = Exit_again /\ chain_data out = d /\ ends out = O /\ rest = [] /\
      bd' = mk_body (mk_chunked s size (min_length s size)) clen
              (Z.max (min_length s size) hdr) /\
      sound (b_ctx bd')
  | Complete clen d r =>
      e = Exit_done /\ chain_data out = d /\ ends out = 1%nat /\ rest = r /\
      b_clen bd' = clen /\ b_rest bd' = 0 /\ c_state (b_ctx bd') = sw_chunk_start
  end.
Proof.
  intros Hs. pose proof (filter_buf_matches max_body hdr bd mem Hs) as H.
  destruct (filter_buf max_body hdr bd mem) as [[[e bd'] out] rest].
  destruct H as [H He].
  destruct (decode_from max_body bd mem) as [[s z n] d|n d r|rc] eqn:E; cbn [matches] in H.
  - destruct H as (-> & -> & -> & ->). repeat split; auto;
      apply decode_settled in E as (Hc & Hz & Hse); try apply Hs;
      cbn [b_ctx c_state c_size]; rewrite ?Hse; assumption || apply Hc.
  - destruct H as (-> & -> & -> & len & ->). auto 8.
  - exact H.
Qed.

Definition sample_body : list Z :=
  bs "4;x=1" ++ crlf ++ bs "Wiki" ++ crlf ++ bs "5" ++ crlf ++ bs "pedia" ++ crlf ++
  bs "0" ++ crlf ++ bs "T: 1" ++ crlf ++ crlf.

(** C5: Every body of the chunked grammar (sizes in hexadecimal, optional
    extensions, a trailer section, LF or CRLF line ends) whose data fits
    [client_max_body_size] is decoded to its data, however the network cuts
    it into buffers: the output chain carries the concatenation of the
    chunks and one [last_buf], and [content_length_n] ends as its length. *)
Theorem chunked_roundtrip max_body hdr w data chain :
  encodes w data -> max_body = 0 \/ Z.of_nat (length data) <= max_body ->
  concat chain = w -> Forall (fun m => m <> []) chain ->
  exists out bd',
    ngx_http_request_body_chunked_filter max_body hdr new_body chain = (inr out, bd') /\
    chain_data out = data /\ ends out = 1%nat /\
    b_clen bd' = Z.of_nat (length data) /\ b_rest bd' = 0.
Proof.
  intros Hw Hm <- Hne.
  destruct (filter_chain_complete max_body hdr chain (mk_body new_chunked 0 hdr)
    (Z.of_nat (length data)) data) as (out & bd' & H1 & H2 & H3 & H4 & H5 & _);
    [apply new_sound|assumption| |exists out, bd'; auto].
  apply (decode_encodes max_body _ _ Hw 0). lia.
Qed.

(** C6: And nothing else is accepted: a buffer of bytes ends the body exactly
    where it ends when it belongs to the grammar of chunked bodies, with the
    data it encodes, and that data fits [client_max_body_size].  (The size of
    a chunk is at most [NGX_MAX_OFF_T_VALUE / 16].) *)
Theorem chunked_accepts_grammar max_body hdr w data :
  bytes w -> 0 <= max_body ->
  (let '(e, _, out, rest) := filter_buf max_body hdr (mk_body new_chunked 0 hdr) w in
   e = Exit_done /\ rest = [] /\ chain_data out = data)
  <-> encodes w data /\ (max_body = 0 \/ Z.of_nat (length data) <= max_body).
Proof.
  intros Hw Hm0.
  pose proof (filter_buf_matches max_body hdr (mk_body new_chunked 0 hdr) w new_sound) as H.
  destruct (filter_buf max_body hdr _ w) as [[[e bd'] out] rest]. destruct H as [H _].
  destruct (decode_from max_body _ w) as [[s z n] d|n d r|rc] eqn:E; cbn [matches] in H;
    match type of E with _ = ?o => change (decode max_body sw_chunk_start 0 0 w = o) in E end;
    split; intros HH.
  - destruct H as [-> _]. destruct HH as [HH _]. discriminate HH.
  - destruct HH as [HE HM]. rewrite (decode_encodes max_body _ _ HE 0 ltac:(lia)) in E.
    discriminate E.
  - destruct H as (-> & <- & -> & _). destruct HH as (_ & -> & <-).
    apply decode_follows in E as (Hf & Hn & Hm); [|apply new_sound|assumption].
    split; [exact Hf|]. destruct Hm as [->|[->|Hm]]; auto; right; cbn [length] in *; lia.
  - destruct HH as [HE HM]. rewrite (decode_encodes max_body _ _ HE 0 ltac:(lia)) in E.
    injection E as <- <- <-. tauto.
  - rewrite H in HH. destruct HH as [HH _]. discriminate HH.
  - destruct HH as [HE HM]. rewrite (decode_encodes max_body _ _ HE 0 ltac:(lia)) in E.
    discriminate E.
Qed.

(** [ctx->length], from which the amount to read next is computed, is
    exactly the least number of bytes that can complete the body: no
    completion is shorter, and some completion has this length. *)
Theorem chunked_length_tight ctx l rc ctx' rest :
  sound ctx -> ngx_http_parse_chunked ctx l = (rc, ctx', rest) ->
  rc = NGX_OK \/ rc = NGX_AGAIN ->
  (c_state ctx' = sw_chunk_size -> c_size ctx' <= NGX_MAX_OFF_T_VALUE / 16) ->
  (forall max_body clen tail n data,
     decode max_body (c_state ctx') (c_size ctx') clen tail = Complete n data [] ->
     c_length ctx' <= Z.of_nat (length tail)) /\
  (exists tail n data,
     decode 0 (c_state ctx') (c_size ctx') 0 tail = Complete n data [] /\
     Z.of_nat (length tail) = c_length ctx').
Proof.
  intros Hs E Hrc Hd.
  destruct (parse_chunked_sound ctx l rc ctx' rest Hs E) as [[_ Hs'] H];
    [destruct Hrc as [-> | ->]; discriminate|].
  destruct H as [-> Hc']; [destruct Hrc as [-> | ->]; discriminate|]. split.
  - intros. eapply decode_min_length; eassumption.
  - destruct (decode_shortest (c_state ctx') (c_size ctx') 0 Hc' Hs' Hd) as [H1 H2].
    do 3 eexists. split; [exact H1|exact H2].
Qed.

(** Overflow: while a buffer is parsed [ctx->size] stays a non-negative
    [off_t] at every byte, and when the parser asks for data or for more
    input the invariant that bounds it by [NGX_MAX_OFF_T_VALUE - 5] holds
    again, so that the sum stored in [ctx->length] does not overflow. *)
Theorem chunked_no_overflow ctx l pre rc ctx' rest :
  sound ctx -> (exists post, l = pre ++ post) ->
  ngx_http_parse_chunked ctx l = (rc, ctx', rest) ->
  (let '(_, _, size, _) := loop (settle (c_state ctx) (c_size ctx)) (c_size ctx) pre in
   0 <= size <= NGX_MAX_OFF_T_VALUE) /\
  (rc <> NGX_ERROR -> sound ctx' /\
     (rc <> NGX_DONE -> 0 <= c_length ctx' <= NGX_MAX_OFF_T_VALUE)).
Proof.
  intros Hs (post & ->) E. split.
  - apply loop_range, Hs.
  - intros Hne. destruct (parse_chunked_sound ctx _ rc ctx' rest Hs E Hne) as [Hs' H].
    split; [exact Hs'|]. intros Hnd. destruct (H Hnd) as [-> (Hr & _ & _)].
    destruct Hs' as [_ Hle].
    assert (5 <= NGX_MAX_OFF_T_VALUE)
      by (pose proof (max_value_pos off_t_size); unfold NGX_MAX_OFF_T_VALUE; lia).
    destruct (c_state ctx'); cbn [min_length]; split_ifs; lia.
Qed.

End Properties.

Lemma sample_encodes : @encodes lp64 sample_body (bs "Wikipedia").
Proof.
  unfold sample_body. change (bs "Wikipedia") with (bs "Wiki" ++ bs "pedia" ++ []).
  change (bs "4;x=1") with (bs "4" ++ bs ";x=1"). rewrite <- app_assoc.
  apply encodes_chunk; try apply eol_crlf; try discriminate; try reflexivity;
    [right; exists (chr ";"), (bs "x=1"); repeat split;
      [auto|repeat constructor; discriminate]|].
  apply (encodes_chunk (bs "5") []); try apply eol_crlf; try discriminate; try reflexivity;
    [left; reflexivity|].
  apply (encodes_last (bs "0") [] crlf (bs "T: 1" ++ crlf) crlf);
    try apply eol_crlf; try discriminate; try reflexivity; [left; reflexivity|].
  apply (trailers_line (chr "T") (bs ": 1") crlf []); try apply eol_crlf;
    [repeat constructor; discriminate|constructor].
Qed.

Lemma chunked_filter_refines_witness :
  decode_from (P := lp64) 0 (mk_body new_chunked 0 1024) (bs "3;" ++ crlf ++ bs "ab")
  = More (at_pos sw_chunk_data 1 2) (bs "ab") /\
  let '(e, _, out, _) :=
    @filter_buf lp64 0 1024 (mk_body new_chunked 0 1024) (bs "3;" ++ crlf ++ bs "ab") in
  e = Exit_again /\ chain_data out = bs "ab".
Proof.
  assert (E : decode_from (P := lp64) 0 (mk_body new_chunked 0 1024)
                (bs "3;" ++ crlf ++ bs "ab")
              = More (at_pos sw_chunk_data 1 2) (bs "ab")) by (vm_compute; reflexivity).
  split; [exact E|].
  pose proof (@chunked_filter_refines lp64 0 1024 (mk_body new_chunked 0 1024)
    (bs "3;" ++ crlf ++ bs "ab") new_sound) as H.
  rewrite E in H. destruct (filter_buf _ _ _ _) as [[[e bd'] out] rest].
  split; apply H.
Defined.

Lemma chunked_roundtrip_witness :
  exists out bd',
    @ngx_http_request_body_chunked_filter lp64 9 1024 new_body
      [firstn 2 sample_body; firstn 8 (skipn 2 sample_body); skipn 10 sample_body]
    = (inr out, bd') /\ chain_data out = bs "Wikipedia" /\ ends out = 1%nat /\
    b_clen bd' = Z.of_nat (length (bs "Wikipedia")) /\ b_rest bd' = 0.
Proof.
  apply (@chunked_roundtrip lp64 9 1024 sample_body (bs "Wikipedia")).
  - exact sample_encodes.
  - right. vm_compute. discriminate.
  - vm_compute. reflexivity.
  - repeat constructor; vm_compute; discriminate.
Defined.

Lemma chunked_accepts_grammar_witness :
  bytes sample_body /\
  (let '(e, _, out, rest) :=
     @filter_buf lp64 9 1024 (mk_body new_chunked 0 1024) sample_body in
   e = Exit_done /\ rest = [] /\ chain_data out = bs "Wikipedia").
Proof.
  assert (Hb : bytes sample_body)
    by (apply Forall_forall; intros c Hc; unfold sample_body in Hc; cbn in Hc;
        unfold is_byte; lia).
  split; [exact Hb|].
  apply (@chunked_accepts_grammar lp64 9 1024 sample_body (bs "Wikipedia") Hb ltac:(lia)).
  split; [exact sample_encodes|right; vm_compute; discriminate].
Defined.

Lemma chunked_length_tight_witness :
  @ngx_http_parse_chunked lp64 new_chunked (bs "1f")
  = (NGX_AGAIN, mk_chunked sw_chunk_size 31 36, []) /\
  exists tail n data,
    @decode lp64 0 sw_chunk_size 31 0 tail = Complete n data [] /\
    Z.of_nat (length tail) = 36.
Proof.
  assert (E : @ngx_http_parse_chunked lp64 new_chunked (bs "1f")
              = (NGX_AGAIN, mk_chunked sw_chunk_size 31 36, [])) by (vm_compute; reflexivity).
  split; [exact E|].
  apply (@chunked_length_tight lp64 new_chunked (bs "1f") NGX_AGAIN
           (mk_chunked sw_chunk_size 31 36) [] new_sound E); [auto|].
  intros _. vm_compute. discriminate.
Defined.

Lemma chunked_no_overflow_witness :
  @ngx_http_parse_chunked lp64 new_chunked (bs "1f")
  = (NGX_AGAIN, mk_chunked sw_chunk_size 31 36, []) /\
  @sound lp64 (mk_chunked sw_chunk_size 31 36).
Proof.
  assert (E : @ngx_http_parse_chunked lp64 new_chunked (bs "1f")
              = (NGX_AGAIN, mk_chunked sw_chunk_size 31 36, [])) by (vm_compute; reflexivity).
  split; [exact E|].
  apply (@chunked_no_overflow lp64 new_chunked (bs "1f") (bs "1") NGX_AGAIN
           (mk_chunked sw_chunk_size 31 36) [] new_sound).
  - exists (bs "f"). reflexivity.
  - exact E.
  - discriminate.
Defined.

End Chunked.
