(* ===== verification/HttpLocation.v ===== *)
(** * Locations

    http/ngx_http.c and http/ngx_http_core_module.c: the locations of a
    server are sorted, joined and turned into a tree when the configuration is
    read, and the tree is searched for every request.  The queues of locations
    are lists here, with the sort of NgxQueue, which shows that the operations
    on linked queues implement those on lists.  The model is that of one
    level: the recursion of the functions into the locations nested in a
    location, and the failures of allocations, are left out.  The theorem [find_location_exact] compares the
    search with the rule that the documentation states, on the configuration
    as it was written. *)

From Stdlib Require Import ZArith Lia ZifyBool Ascii.
From stdpp Require Import base option tactics list sorting sets.
From S2P Require Import Prelude NgxState NgxQueue.
Import Queue(insert_back, list_sort).

Local Open Scope Z_scope.

Module Location.

(** The fields of [ngx_http_core_loc_conf_t] that matter here; [regex] names
    the regular expression. *)
Record attrs := mk_attrs {
  name : list Z; exact_match : bool; regex : option nat; named : bool;
  noname : bool; auto_redirect : bool; noregex : bool
}.

(** [ngx_filename_cmp]: the strings end with a NUL. *)
Fixpoint ngx_filename_cmp (s1 s2 : list Z) (n : nat) : Z :=
  match n with
  | O => 0
  | S n =>
      let c1 := hd 0 s1 in
      let c2 := hd 0 s2 in
      if c1 =? c2 then
        if negb (c1 =? 0) then ngx_filename_cmp (tl s1) (tl s2) n else 0
      else if (c1 =? 0) || (c2 =? 0) then c1 - c2
      else
        let c1 := if c1 =? chr "/" then 0 else c1 in
        let c2 := if c2 =? chr "/" then 0 else c2 in
        c1 - c2
  end.

(** [strcmp] on strings without NUL. *)
Fixpoint ngx_strcmp (s1 s2 : list Z) : Z :=
  match s1, s2 with
  | [], [] => 0
  | [], c2 :: _ => - c2
  | c1 :: _, [] => c1
  | c1 :: s1, c2 :: s2 => if c1 =? c2 then ngx_strcmp s1 s2 else c1 - c2
  end.

Definition has_regex (a : attrs) : bool := match regex a with Some _ => true | None => false end.

(** The longest prefix of [l] without an element that satisfies [f], and the
    rest. *)
Fixpoint split_at {B} (f : B -> bool) (l : list B) : list B * list B :=
  match l with
  | [] => ([], [])
  | q :: l' => if f q then ([], l) else let '(a, b) := split_at f l' in (q :: a, b)
  end.

Section Build.
(** [A] is what a location configures. *)
Context {A : Type}.

Record loc := mk_loc { at_ : attrs; conf : A }.

(** [ngx_http_location_queue_t] *)
#[local] Unset Elimination Schemes.
Inductive lq := LQ (exact inclusive : option loc) (lname : list Z) (sub : list lq).
#[local] Set Elimination Schemes.

Definition exact (q : lq) : option loc := let 'LQ e _ _ _ := q in e.
Definition inclusive (q : lq) : option loc := let 'LQ _ i _ _ := q in i.
Definition lname (q : lq) : list Z := let 'LQ _ _ n _ := q in n.
Definition sub (q : lq) : list lq := let 'LQ _ _ _ s := q in s.

(** [lq->exact ? lq->exact : lq->inclusive] *)
Definition owner (q : lq) : option loc :=
  match exact q with Some l => Some l | None => inclusive q end.

(** [ngx_http_add_location], without the escaped name *)
Definition ngx_http_add_location (l : loc) : lq :=
  if exact_match (at_ l) || has_regex (at_ l) || named (at_ l) || noname (at_ l)
  then LQ (Some l) None (name (at_ l)) []
  else LQ None (Some l) (name (at_ l)) [].

Definition cmp_attrs (first second : attrs) : Z :=
  if noname first && negb (noname second) then 1
  else if negb (noname first) && noname second then -1
  else if noname first || noname second then 0
  else if named first && negb (named second) then 1
  else if negb (named first) && named second then -1
  else if named first && named second then ngx_strcmp (name first) (name second)
  else
    if has_regex first && negb (has_regex second) then 1
    else if negb (has_regex first) && has_regex second then -1
    else if has_regex first || has_regex second then 0
    else
      let rc := ngx_filename_cmp (name first) (name second)
                  (Nat.min (length (name first)) (length (name second)) + 1) in
      if (rc =? 0) && negb (exact_match first) && exact_match second then 1 else rc.

Definition ngx_http_cmp_locations (one two : lq) : Z :=
  match owner one, owner two with
  | Some first, Some second => cmp_attrs (at_ first) (at_ second)
  | _, _ => 0
  end.

Definition flag (f : attrs -> bool) (q : lq) : bool :=
  match owner q with Some l => f (at_ l) | None => false end.

(** The static, regular expression and named locations of a level; those
    without a name are dropped. *)
Definition ngx_http_init_locations (locs : list lq) : list lq * list lq * list lq :=
  let l := list_sort ngx_http_cmp_locations locs in
  let '(l, _) := split_at (flag (fun a => negb (has_regex a) && negb (named a) && noname a)) l in
  let '(l, nm) := split_at (flag (fun a => negb (has_regex a) && named a)) l in
  let '(l, re) := split_at (flag has_regex) l in
  (l, re, nm).

(** [ngx_http_join_exact_locations], [q] being the location before the
    rest; [None] is NGX_ERROR. *)
Fixpoint join_exact (q : lq) (l : list lq) : option (list lq) :=
  match l with
  | [] => Some [q]
  | x :: l' =>
      if (Nat.eqb (length (lname q)) (length (lname x)))
         && (ngx_filename_cmp (lname q) (lname x) (length (lname x)) =? 0)
      then
        match exact q, exact x, inclusive q, inclusive x with
        | Some _, Some _, _, _ => None
        | _, _, Some _, Some _ => None
        | _, _, _, _ => join_exact (LQ (exact q) (inclusive x) (lname q) (sub q)) l'
        end
      else match join_exact x l' with Some r => Some (q :: r) | None => None end
  end.

Definition ngx_http_join_exact_locations (l : list lq) : option (list lq) :=
  match l with [] => Some [] | q :: l' => join_exact q l' end.

(** [len > lx->name->len || ngx_filename_cmp(name, lx->name->data, len)] *)
Definition not_below (q x : lq) : bool :=
  Nat.ltb (length (lname x)) (length (lname q))
  || negb (ngx_filename_cmp (lname q) (lname x) (length (lname q)) =? 0).

(** [ngx_http_create_locations_list]: every inclusive location takes the
    locations below it as its list. *)
Fixpoint ngx_http_create_locations_list (f : nat) (l : list lq) : list lq :=
  match f with
  | O => l
  | S f =>
      match l with
      | [] => []
      | [q] => [q]
      | q :: rest =>
          match inclusive q with
          | None => q :: ngx_http_create_locations_list f rest
          | Some _ =>
              let '(below, rest') := split_at (not_below q) rest in
              match below with
              | [] => q :: ngx_http_create_locations_list f rest
              | _ :: _ =>
                  LQ (exact q) (inclusive q) (lname q)
                    (ngx_http_create_locations_list f (sub q ++ below))
                  :: ngx_http_create_locations_list f rest'
              end
          end
      end
  end.

(** [ngx_http_location_tree_node_t]; [Leaf] is NULL. *)
Inductive ltree :=
  | Leaf
  | Node (lft rgt tree : ltree) (nexact ninclusive : option loc) (len : Z)
      (nredirect : bool) (nname : list Z).

Definition redirects (o : option loc) : bool :=
  match o with Some l => auto_redirect (at_ l) | None => false end.

(** [ngx_http_create_locations_tree] *)
Fixpoint ngx_http_create_locations_tree (f : nat) (l : list lq) (prefix : nat) : ltree :=
  match f with
  | O => Leaf
  | S f =>
      let m := (length l / 2)%nat in
      match l !! m with
      | None => Leaf
      | Some q =>
          let len := (length (lname q) - prefix)%nat in
          let before := take m l in
          let after := drop (S m) l in
          let lft :=
            match before with [] => Leaf | _ => ngx_http_create_locations_tree f before prefix end in
          let rgt :=
            match before, after with
            | [], _ | _, [] => Leaf
            | _, _ => ngx_http_create_locations_tree f after prefix
            end in
          let tree :=
            match sub q with
            | [] => Leaf
            | _ => ngx_http_create_locations_tree f (sub q) (prefix + len)
            end in
          Node lft rgt tree (exact q) (inclusive q) (Z.of_nat len mod 65536)
            (redirects (exact q) || redirects (inclusive q)) (take len (drop prefix (lname q)))
      end
  end.

(** [ngx_http_core_find_static_location]: the return code and the location
    that [r->loc_conf] was set to, if any. *)
Fixpoint find_static (node : ltree) (uri : list Z) (rv : Z) (lc : option loc) : Z * option loc :=
  match node with
  | Leaf => (rv, lc)
  | Node lft rgt tree ex inc len redirect nm =>
      let ulen := Z.of_nat (length uri) in
      let n := Z.to_nat (if ulen <=? len then ulen else len) in
      let rc := ngx_filename_cmp uri nm n in
      if negb (rc =? 0) then find_static (if rc <? 0 then lft else rgt) uri rv lc
      else if ulen >? len then
        match inc with
        | Some l => find_static tree (drop n uri) NGX_AGAIN (Some l)
        | None => find_static rgt uri rv lc
        end
      else if ulen =? len then
        match ex with
        | Some l => (NGX_OK, Some l)
        | None => (NGX_AGAIN, inc)
        end
      else if (ulen + 1 =? len) && redirect then
        find_static lft uri NGX_DONE (match ex with Some l => Some l | None => inc end)
      else find_static lft uri rv lc
  end.

Definition ngx_http_core_find_static_location (node : ltree) (uri : list Z) : Z * option loc :=
  find_static node uri NGX_DECLINED None.

(** [ngx_http_init_static_location_trees] for one level of locations, which
    the code also calls for the locations inside each of them; [None] is
    NGX_ERROR. *)
Definition ngx_http_init_static_location_trees (locations : list lq) : option ltree :=
  match locations with
  | [] => Some Leaf
  | _ =>
      match ngx_http_join_exact_locations locations with
      | None => None
      | Some l =>
          let n := length l in
          Some (ngx_http_create_locations_tree n (ngx_http_create_locations_list n l) 0)
      end
  end.

End Build.

Arguments loc : clear implicits.
Arguments lq : clear implicits.
Arguments ltree : clear implicits.

(** ** The order of names *)

(** The slash is the lowest character. *)
Definition rank (c : Z) : Z := if c =? chr "/" then 0 else c.

Definition clean (s : list Z) : Prop := Forall (fun c => 0 < c) s.

Fixpoint lex (s1 s2 : list Z) : bool :=
  match s1, s2 with
  | _, [] => false
  | [], _ :: _ => true
  | c1 :: s1, c2 :: s2 => if c1 =? c2 then lex s1 s2 else rank c1 <? rank c2
  end.

Lemma rank_inj c1 c2 : 0 < c1 -> 0 < c2 -> rank c1 = rank c2 -> c1 = c2.
Proof. unfold rank. intros H1 H2 H. split_ifs_in H; lia. Qed.

Lemma lex_irrefl s : lex s s = false.
Proof. induction s as [|c s IH]; cbn; [done|]. by rewrite Z.eqb_refl. Qed.

Lemma lex_trans s1 s2 s3 : clean s1 -> clean s2 -> clean s3 ->
  lex s1 s2 = true -> lex s2 s3 = true -> lex s1 s3 = true.
Proof.
  intros H1. revert s2 s3. induction H1 as [|c1 s1 Hc1 H1 IH]; intros [|c2 s2] [|c3 s3] H2 H3; cbn; try done.
  inversion H2; inversion H3; subst.
  destruct (Z.eqb_spec c1 c2), (Z.eqb_spec c2 c3), (Z.eqb_spec c1 c3); subst; try done; eauto; lia.
Qed.

Lemma lex_total s1 s2 : clean s1 -> clean s2 -> lex s1 s2 = false -> s1 <> s2 -> lex s2 s1 = true.
Proof.
  intros H1. revert s2. induction H1 as [|c1 s1 Hc1 H1 IH]; intros [|c2 s2] H2; cbn; try done.
  inversion H2; subst. destruct (Z.eqb_spec c1 c2) as [->|Hne].
  - rewrite Z.eqb_refl. intros ? ?. apply IH; [done..|]. congruence.
  - rewrite (proj2 (Z.eqb_neq c2 c1)) by congruence. intros Hr _.
    assert (rank c1 <> rank c2) by (intros ?; eauto using rank_inj). lia.
Qed.

Lemma lex_asym s1 s2 : clean s1 -> clean s2 -> lex s1 s2 = true -> lex s2 s1 = false.
Proof.
  intros H1 H2 H. destruct (lex s2 s1) eqn:E; [|done].
  pose proof (lex_trans _ _ _ H1 H2 H1 H E) as H'. by rewrite lex_irrefl in H'.
Qed.

(** A name is before those that it is a proper prefix of. *)
Lemma lex_app s t : t <> [] -> lex s (s ++ t) = true.
Proof. intros Ht. induction s as [|c s IH]; cbn; [by destruct t|]. by rewrite Z.eqb_refl. Qed.

(** The names that have [s] for a prefix are together. *)
Lemma lex_prefix s t u : clean s -> clean t -> clean u ->
  lex s t = true -> lex t u = true -> s `prefix_of` u -> s `prefix_of` t.
Proof.
  intros Hs. revert t u. induction Hs as [|c s Hc Hs IH]; intros t u Ht Hu H1 H2 Hp.
  { apply prefix_nil. }
  destruct u as [|c3 u]; [by apply prefix_nil_not in Hp|]. apply prefix_cons_inv_1 in Hp as Heq.
  apply prefix_cons_inv_2 in Hp. subst c3. destruct t as [|c2 t]; [done|]. cbn in H1, H2.
  inversion Ht; inversion Hu; subst.
  destruct (Z.eqb_spec c c2) as [->|Hne].
  - rewrite Z.eqb_refl in H2. apply prefix_cons. by eapply IH.
  - rewrite (proj2 (Z.eqb_neq c2 c)) in H2 by congruence. lia.
Qed.

(** [ngx_filename_cmp] on whole names, with the NUL at the end, and on
    beginnings of the same length. *)
Lemma filename_cmp_names s1 s2 : clean s1 -> clean s2 ->
  let rc := ngx_filename_cmp s1 s2 (Nat.min (length s1) (length s2) + 1) in
  (rc < 0 <-> lex s1 s2 = true) /\ (rc = 0 <-> s1 = s2) /\ (rc > 0 <-> lex s2 s1 = true).
Proof.
  intros H1. revert s2. induction H1 as [|c1 s1 Hc1 H1 IH]; intros [|c2 s2] H2; cbn -[Z.eqb Z.sub].
  - done.
  - inversion H2; subst. rewrite (proj2 (Z.eqb_neq 0 c2)) by lia. cbn. split_and!; split; try done; lia.
  - rewrite (proj2 (Z.eqb_neq c1 0)) by lia. cbn. split_and!; split; try done; lia.
  - inversion H2; subst. destruct (Z.eqb_spec c1 c2) as [->|Hne].
    + rewrite (proj2 (Z.eqb_neq c2 0)), Z.eqb_refl by lia. cbn [negb].
      destruct (IH s2) as (I1 & I2 & I3); [done|]. split_and!; [done| |done].
      rewrite I2. split; [by intros -> | by intros [= ->]].
    + rewrite (proj2 (Z.eqb_neq c1 0)), (proj2 (Z.eqb_neq c2 0)), (proj2 (Z.eqb_neq c2 c1)) by lia.
      cbn [orb]. fold (rank c1) (rank c2).
      assert (rank c1 <> rank c2) by (intros ?; eauto using rank_inj). split_and!; [lia| |lia].
      split; [lia|]. by intros [= -> ->].
Qed.

Lemma filename_cmp_take s1 s2 n : clean s1 -> clean s2 ->
  (n <= length s1)%nat -> (n <= length s2)%nat ->
  let rc := ngx_filename_cmp s1 s2 n in
  (rc < 0 <-> lex (take n s1) (take n s2) = true) /\ (rc = 0 <-> take n s1 = take n s2).
Proof.
  intros H1. revert s2 n. induction H1 as [|c1 s1 Hc1 H1 IH]; intros [|c2 s2] [|n] H2 L1 L2;
    cbn -[Z.eqb Z.sub] in *; try lia; [done..|].
  inversion H2; subst. destruct (Z.eqb_spec c1 c2) as [->|Hne].
  - rewrite (proj2 (Z.eqb_neq c2 0)) by lia. cbn [negb].
    destruct (IH s2 n) as (I1 & I2); [done|lia..|]. split; [done|].
    rewrite I2. split; [intros E'; by f_equal | by intros [= E']].
  - rewrite (proj2 (Z.eqb_neq c1 0)), (proj2 (Z.eqb_neq c2 0)) by lia.
    cbn [orb]. fold (rank c1) (rank c2).
    assert (rank c1 <> rank c2) by (intros ?; eauto using rank_inj). split; [lia|].
    split; [lia|]. by intros [= ? ?].
Qed.

(** ** The rule *)

Section Rule.
Context {A : Type}.
Implicit Types (q : lq A) (E : list (lq A)).

(** The rule for static locations, [ex] and [inc] giving the exact and the
    inclusive location of a name: the exact location of the URI, else the
    inclusive one of that name, else a redirect when the URI with a slash
    added is a location that asks for it, else the longest inclusive location
    that is a prefix of the URI. *)
Fixpoint longest (inc : list Z -> option (loc A)) (uri : list Z) (k : nat) : option (loc A) :=
  match inc (take k uri) with
  | Some l => Some l
  | None => match k with O => None | S k => longest inc uri k end
  end.

Definition rule (ex inc : list Z -> option (loc A)) (uri : list Z) (d : Z * option (loc A))
    : Z * option (loc A) :=
  match ex uri, inc uri with
  | Some l, _ => (NGX_OK, Some l)
  | None, Some l => (NGX_AGAIN, Some l)
  | None, None =>
      let slash := uri ++ [chr "/"] in
      if redirects (ex slash) || redirects (inc slash)
      then (NGX_DONE, match ex slash with Some l => Some l | None => inc slash end)
      else match longest inc uri (length uri) with
           | Some l => (NGX_AGAIN, Some l)
           | None => d
           end
  end.

Lemma longest_ext inc inc' uri k :
  (forall j, (j <= k)%nat -> inc (take j uri) = inc' (take j uri)) ->
  longest inc uri k = longest inc' uri k.
Proof.
  induction k as [|k IH]; intros H; cbn; rewrite H by lia; [done|].
  rewrite IH; [done|]. intros j Hj. apply H. lia.
Qed.

Lemma rule_ext ex ex' inc inc' uri d :
  ex uri = ex' uri -> ex (uri ++ [chr "/"]) = ex' (uri ++ [chr "/"]) ->
  inc (uri ++ [chr "/"]) = inc' (uri ++ [chr "/"]) ->
  (forall n, n `prefix_of` uri -> inc n = inc' n) ->
  rule ex inc uri d = rule ex' inc' uri d.
Proof.
  intros H1 H2 H3 H4. unfold rule. rewrite H1, H2, H3, H4 by done.
  rewrite (longest_ext inc inc'); [done|]. intros j _. apply H4.
  exists (drop j uri). by rewrite take_drop.
Qed.

(** The first location of a name in a list of entries. *)
Fixpoint first (f : lq A -> option (loc A)) E : option (loc A) :=
  match E with
  | [] => None
  | q :: E => match f q with Some l => Some l | None => first f E end
  end.

Definition exact_in E (n : list Z) : option (loc A) :=
  first (fun q => if decide (lname q = n) then exact q else None) E.
Definition incl_in E (n : list Z) : option (loc A) :=
  first (fun q => if decide (lname q = n) then inclusive q else None) E.

Lemma first_app f E1 E2 :
  first f (E1 ++ E2) = match first f E1 with Some l => Some l | None => first f E2 end.
Proof. induction E1 as [|q E1 IH]; cbn; [done|]. by destruct (f q). Qed.

Lemma first_none f E : (forall q, q ∈ E -> f q = None) -> first f E = None.
Proof.
  induction E as [|q E IH]; intros H; cbn; [done|]. rewrite H by set_solver.
  apply IH. set_solver.
Qed.

(** [q] does not matter for [uri]. *)
Definition irrelevant (uri : list Z) q : Prop :=
  lname q <> uri /\ lname q <> uri ++ [chr "/"] /\
  (lname q `prefix_of` uri -> inclusive q = None).

(** Only the entries that matter do. *)
Lemma rule_local E1 E2 E3 uri d :
  (forall q, q ∈ E1 -> irrelevant uri q) -> (forall q, q ∈ E3 -> irrelevant uri q) ->
  rule (exact_in (E1 ++ E2 ++ E3)) (incl_in (E1 ++ E2 ++ E3)) uri d =
  rule (exact_in E2) (incl_in E2) uri d.
Proof.
  intros H1 H3.
  assert (forall f n, (forall q, irrelevant uri q -> (if decide (lname q = n) then f q else None) = None) ->
    first (fun q => if decide (lname q = n) then f q else None) (E1 ++ E2 ++ E3) =
    first (fun q => if decide (lname q = n) then f q else None) E2) as Hf.
  { intros f n Hn. rewrite !first_app. rewrite first_none by (intros; auto).
    destruct (first _ E2); [done|]. apply first_none. intros; auto. }
  apply rule_ext; [..|intros n Hp]; apply Hf; intros q (N1 & N2 & N3); case_decide; subst; tauto.
Qed.

(** ** Levels of the tree *)

(** An entry and everything below it. *)
Fixpoint flat q : list (lq A) := let 'LQ _ _ _ l := q in q :: concat (map flat l).

Definition flats E : list (lq A) := concat (map flat E).

Lemma flat_eq q : flat q = q :: flats (sub q).
Proof. by destruct q. Qed.

Lemma flats_app E1 E2 : flats (E1 ++ E2) = flats E1 ++ flats E2.
Proof. unfold flats. by rewrite map_app, concat_app. Qed.

Lemma elem_of_flats E x : x ∈ flats E <-> exists q, q ∈ E /\ x ∈ flat q.
Proof.
  unfold flats. induction E as [|q E IH]; cbn; [set_solver|]. rewrite elem_of_app, IH. set_solver.
Qed.

(** What one entry looks like on the level of the prefix [P]. *)
Record entry_ok (P : list Z) q : Prop := {
  entry_prefix : P `prefix_of` lname q;
  entry_clean : clean (lname q);
  entry_short : Z.of_nat (length (lname q)) < 65536;
  entry_some : exact q <> None \/ inclusive q <> None;
  entry_sub : sub q <> [] -> inclusive q <> None;
  entry_redirect : redirects (exact q) || redirects (inclusive q) = true ->
    exists n, lname q = n ++ [chr "/"]
}.

(** The order on a level: an inclusive entry is not a prefix of those after
    it, which would be below it. *)
Definition precedes q q' : Prop :=
  lex (lname q) (lname q') = true /\ (inclusive q <> None -> ~ lname q `prefix_of` lname q').

Inductive level : list Z -> list (lq A) -> Prop :=
  level_intro P E :
    (forall q, q ∈ E -> entry_ok P q) -> StronglySorted precedes E ->
    (forall q x, q ∈ E -> x ∈ sub q -> lname x <> lname q) ->
    (forall q, q ∈ E -> level (lname q) (sub q)) -> level P E.

Lemma sublist_elem E' E q : E' `sublist_of` E -> q ∈ E' -> q ∈ E.
Proof. intros Hsub Hq. eapply elem_of_submseteq; [done|]. by apply sublist_submseteq. Qed.

Lemma level_sub P E E' : level P E -> E' `sublist_of` E -> level P E'.
Proof.
  intros H Hsub. inversion H as [? ? H1 H2 H3 H4]; subst.
  pose proof (fun q => sublist_elem E' E q Hsub) as Hin.
  constructor; eauto. clear -H2 Hsub. revert H2.
  induction Hsub as [|q E' E Hsub IH|q E' E Hsub IH]; intros H2; inversion H2 as [|? ? HS HF]; subst.
  - constructor.
  - constructor; [auto|]. rewrite Forall_forall in *. intros x Hx.
    apply HF. by eapply sublist_elem.
  - auto.
Qed.

(** What is below an entry has a longer name, and the entry is inclusive. *)
Lemma flat_below P E q x : level P E -> q ∈ E -> x ∈ flat q ->
  x = q \/ (inclusive q <> None /\ x ∈ flats (sub q) /\
             lname q `prefix_of` lname x /\ lname x <> lname q).
Proof.
  intros H. revert q x. induction H as [P E H1 H2 H3 H4 IH]. intros q x Hq Hx.
  rewrite flat_eq in Hx. apply elem_of_cons in Hx as [->|Hx]; [by left|]. right.
  pose proof Hx as (z & Hz & Hxz)%elem_of_flats.
  assert (inclusive q <> None) as Hinc.
  { apply (entry_sub _ _ (H1 q Hq)). intros E0. rewrite E0 in Hz. by apply elem_of_nil in Hz. }
  split_and!; [done..| |].
  all: pose proof (H4 q Hq) as HL; inversion HL as [? ? S1 _ _ _]; subst;
    pose proof (entry_prefix _ _ (S1 z Hz)) as Hp; destruct (IH q Hq z x Hz Hxz) as [->|(_ & _ & Hp2 & Hne)].
  - done.
  - by etrans.
  - by eapply H3.
  - intros E0. apply Hne. rewrite E0 in *.
    pose proof (prefix_length _ _ Hp). pose proof (prefix_length _ _ Hp2).
    symmetry. apply prefix_length_eq; [done|lia].
Qed.

Lemma level_clean P E x : level P E -> x ∈ flats E -> clean (lname x).
Proof.
  intros H. revert x. induction H as [P E H1 H2 H3 H4 IH]. intros x (q & Hq & Hx)%elem_of_flats.
  rewrite flat_eq in Hx. apply elem_of_cons in Hx as [->|Hx]; [by apply (entry_clean _ _ (H1 q Hq))|eauto].
Qed.

Lemma level_precedes P E1 m E2 : level P (E1 ++ m :: E2) ->
  (forall q, q ∈ E1 -> precedes q m) /\ (forall q, q ∈ E2 -> precedes m q).
Proof.
  intros H. inversion H as [? ? _ H2 _ _]; subst. clear H.
  apply StronglySorted_app in H2 as (H12 & _ & H2). apply StronglySorted_cons in H2 as [H2 _].
  rewrite Forall_forall in H2. split; [|done]. intros q Hq. apply H12; [done|set_solver].
Qed.

(** Two names that differ before either ends. *)
Definition apart (s1 s2 : list Z) : Prop :=
  exists g c1 c2 t1 t2, s1 = g ++ c1 :: t1 /\ s2 = g ++ c2 :: t2 /\ c1 <> c2.

Lemma lex_app_same g s1 s2 : lex (g ++ s1) (g ++ s2) = lex s1 s2.
Proof. induction g as [|c g IH]; cbn; [done|]. by rewrite Z.eqb_refl. Qed.

Lemma lex_le_app s t : lex s (s ++ t) = true \/ s ++ t = s.
Proof. destruct t as [|c t]; [right; by rewrite app_nil_r|left; by apply lex_app]. Qed.

Lemma lex_apart s1 s2 : lex s1 s2 = true -> ~ s1 `prefix_of` s2 -> apart s1 s2.
Proof.
  revert s2. induction s1 as [|c1 s1 IH]; intros [|c2 s2] H Hp; cbn in H; try done.
  { destruct Hp. apply prefix_nil. }
  destruct (Z.eqb_spec c1 c2) as [->|Hne].
  - destruct (IH s2 H) as (g & d1 & d2 & t1 & t2 & -> & -> & Hd).
    { intros Hp'. apply Hp. by apply prefix_cons. }
    exists (c2 :: g), d1, d2, t1, t2. by split_and!.
  - exists [], c1, c2, s1, s2. by split_and!.
Qed.

Lemma apart_lex s1 s2 t1 t2 : apart s1 s2 -> lex s1 s2 = lex (s1 ++ t1) (s2 ++ t2).
Proof.
  intros (g & c1 & c2 & r1 & r2 & -> & -> & Hne). rewrite <-!app_assoc, !lex_app_same. cbn.
  by rewrite (proj2 (Z.eqb_neq c1 c2)).
Qed.

Lemma apart_not_prefix s1 s2 : apart s1 s2 -> ~ s1 `prefix_of` s2.
Proof.
  intros (g & c1 & c2 & r1 & r2 & -> & -> & Hne) Hp. apply prefix_app_inv, prefix_cons_inv_1 in Hp. done.
Qed.

Lemma lex_prefix_l s1 s2 t : s1 `prefix_of` t -> lex s1 s2 = true -> ~ s1 `prefix_of` s2 -> lex t s2 = true.
Proof.
  intros [r ->] H Hp. pose proof (lex_apart _ _ H Hp) as Ha.
  rewrite (apart_lex _ _ r [] Ha), app_nil_r in H. done.
Qed.

Lemma lex_prefix_r s1 s2 t : clean s1 -> clean t -> s2 `prefix_of` t -> lex s1 s2 = true -> lex s1 t = true.
Proof.
  intros H1 Ht [r ->] H. destruct (lex_le_app s2 r) as [E|E]; [|by rewrite E].
  pose proof (proj1 (proj1 (Forall_app _ _ _) Ht)) as H2. by apply (lex_trans s1 s2).
Qed.

(** Where the entries before and after an entry of a level are. *)
Lemma flats_before P E1 m E2 x : level P (E1 ++ m :: E2) -> x ∈ flats E1 ->
  lex (lname x) (lname m) = true /\ (inclusive x <> None -> ~ lname x `prefix_of` lname m).
Proof.
  intros H (q & Hq & Hx)%elem_of_flats. destruct (proj1 (level_precedes _ _ _ _ H) q Hq) as [Hl Hp].
  destruct (flat_below P (E1 ++ m :: E2) q x H) as [->|(Hi & _ & Hq2 & _)]; [set_solver|done|by split|].
  split; [by eapply lex_prefix_l; eauto|]. intros _ Hx'. apply Hp; [done|by etrans].
Qed.

Lemma flats_after P E1 m E2 x : level P (E1 ++ m :: E2) -> x ∈ flats E2 ->
  lex (lname m) (lname x) = true /\ (inclusive m <> None -> ~ lname m `prefix_of` lname x).
Proof.
  intros H Hxe. pose proof Hxe as (q & Hq & Hx)%elem_of_flats.
  destruct (proj2 (level_precedes _ _ _ _ H) q Hq) as [Hl Hp].
  assert (clean (lname m) /\ clean (lname q) /\ clean (lname x)) as (Cm & Cq & Cx).
  { split_and!; eapply (level_clean _ _ _ H); rewrite flats_app; unfold flats at 2; cbn; rewrite flat_eq.
    - set_solver.
    - apply elem_of_app. right. apply elem_of_app. right. apply elem_of_flats. exists q.
      rewrite flat_eq. set_solver.
    - fold (flats E2). set_solver. }
  destruct (flat_below P (E1 ++ m :: E2) q x H) as [->|(Hi & _ & Hq2 & Hne)]; [set_solver|done|by split|].
  split; [by eapply lex_prefix_r; eauto|]. intros Hm Hx'. apply Hp; [done|].
  destruct Hq2 as [r Hr]. destruct (lex_le_app (lname q) r) as [E|E]; [|congruence].
  rewrite <-Hr in E. by apply (lex_prefix _ _ _ Cm Cq Cx Hl E).
Qed.

(** *** The rule at an entry of a level *)

Lemma irrelevant_above U x : clean U -> clean (lname x) ->
  lex U (lname x) = true -> lname x <> U ++ [chr "/"] -> irrelevant U x.
Proof.
  intros HU Hx H Hs. split_and!; [|done|].
  - intros E. by rewrite E, lex_irrefl in H.
  - intros [t Ht]. destruct (lex_le_app (lname x) t) as [E|E]; rewrite <-Ht in E.
    + apply lex_asym in H; [|done..]. congruence.
    + by rewrite E, lex_irrefl in H.
Qed.

Lemma irrelevant_below U x : clean U -> clean (lname x) ->
  lex (lname x) U = true -> (inclusive x <> None -> ~ lname x `prefix_of` U) -> irrelevant U x.
Proof.
  intros HU Hx H Hp. split_and!.
  - intros E. by rewrite E, lex_irrefl in H.
  - intros E. rewrite E in H. apply lex_asym in H; [|by rewrite <-E|done].
    by rewrite lex_app in H.
  - intros Hx'. destruct (inclusive x); [|done]. by destruct Hp.
Qed.

Lemma exact_in_ne m E n : lname m <> n -> exact_in (m :: E) n = exact_in E n.
Proof. intros H. unfold exact_in. cbn. by rewrite decide_False. Qed.

Lemma incl_in_ne m E n : lname m <> n -> incl_in (m :: E) n = incl_in E n.
Proof. intros H. unfold incl_in. cbn. by rewrite decide_False. Qed.

Lemma exact_in_snoc m E n : exact_in (E ++ [m]) n =
  match exact_in E n with Some l => Some l | None => if decide (lname m = n) then exact m else None end.
Proof. unfold exact_in. rewrite first_app. cbn. by case_decide; destruct (exact m). Qed.

Lemma incl_in_snoc m E n : incl_in (E ++ [m]) n =
  match incl_in E n with Some l => Some l | None => if decide (lname m = n) then inclusive m else None end.
Proof. unfold incl_in. rewrite first_app. cbn. by case_decide; destruct (inclusive m). Qed.

Lemma exact_in_none E n : (forall x, x ∈ E -> lname x <> n) -> exact_in E n = None.
Proof. intros H. apply first_none. intros q Hq. rewrite decide_False; auto. Qed.

Lemma incl_in_none E n : (forall x, x ∈ E -> inclusive x <> None -> lname x <> n) -> incl_in E n = None.
Proof.
  intros H. apply first_none. intros q Hq. case_decide as Hn; [|done].
  destruct (inclusive q) eqn:E1; [|done]. destruct (H q Hq); [by rewrite E1|done].
Qed.

Lemma longest_none E U k :
  (forall x, x ∈ E -> inclusive x <> None -> lname x `prefix_of` U -> k < length (lname x))%nat ->
  longest (incl_in E) U k = None.
Proof.
  induction k as [|k IH]; intros H; cbn [longest];
    (rewrite incl_in_none;
      [|intros x Hx Hi E0; assert (lname x `prefix_of` U) as Hp by (rewrite E0; apply prefix_take);
        specialize (H x Hx Hi Hp); rewrite E0, length_take in H; lia]); [done|].
  apply IH. intros x Hx Hi Hp. specialize (H x Hx Hi Hp). lia.
Qed.

Lemma longest_cons m E U k : lname m `prefix_of` U -> inclusive m <> None ->
  (forall x, x ∈ E -> length (lname m) < length (lname x))%nat ->
  (length (lname m) <= k <= length U)%nat ->
  longest (incl_in (m :: E)) U k =
  match longest (incl_in E) U k with Some l => Some l | None => inclusive m end.
Proof.
  intros Hp Hi HE.
  assert (lname m = take (length (lname m)) U) as Ht by (destruct Hp as [t ->]; by rewrite take_app_length).
  assert (forall k, k = length (lname m) -> longest (incl_in (m :: E)) U k = inclusive m) as Hbase.
  { intros j ->. destruct (length (lname m)); cbn [longest]; rewrite <-Ht;
      unfold incl_in; cbn; rewrite decide_True by done; by destruct (inclusive m). }
  induction k as [|k IH]; intros Hk.
  - rewrite Hbase, longest_none by (lia || (intros x Hx _ _; apply HE in Hx; lia)). done.
  - destruct (decide (S k = length (lname m))) as [Hl|Hl].
    { rewrite Hbase, longest_none by (done || (intros x Hx _ _; apply HE in Hx; lia)). done. }
    cbn [longest]. rewrite incl_in_ne, IH; [by destruct (incl_in E _)|lia|].
    intros E0; apply (f_equal length) in E0. rewrite length_take in E0. lia.
Qed.

Lemma rule_enter m E U d : lname m `prefix_of` U -> lname m <> U -> inclusive m <> None ->
  (forall x, x ∈ E -> length (lname m) < length (lname x))%nat ->
  rule (exact_in (m :: E)) (incl_in (m :: E)) U d = rule (exact_in E) (incl_in E) U (NGX_AGAIN, inclusive m).
Proof.
  intros Hp Hne Hi HE. pose proof (prefix_length _ _ Hp) as Hl.
  assert (lname m <> U ++ [chr "/"]) as Hs.
  { intros E0. rewrite E0, length_app in Hl. cbn in Hl. lia. }
  unfold rule. rewrite !exact_in_ne, !incl_in_ne by done. rewrite longest_cons by (done || lia).
  destruct (longest _ _ _); [done|]. by destruct (inclusive m).
Qed.

Section At.
Context (P : list Z) (E1 : list (lq A)) (m : lq A) (E2 : list (lq A)) (U : list Z).
Context (HL : level P (E1 ++ m :: E2)) (HU : clean U).

Lemma flats_at : flats (E1 ++ m :: E2) = flats E1 ++ (m :: flats (sub m)) ++ flats E2.
Proof. rewrite flats_app. unfold flats at 2. cbn. by rewrite flat_eq. Qed.

Lemma in_level x : x ∈ flats E1 \/ x ∈ m :: flats (sub m) \/ x ∈ flats E2 -> clean (lname x).
Proof. intros Hx. apply (level_clean _ _ _ HL). rewrite flats_at, !elem_of_app. tauto. Qed.

Lemma clean_m : clean (lname m).
Proof. apply in_level. set_solver. Qed.

Lemma flats_here x : x ∈ flats (sub m) ->
  inclusive m <> None /\ lname m `prefix_of` lname x /\ (length (lname m) < length (lname x))%nat.
Proof.
  intros Hx. destruct (flat_below P (E1 ++ m :: E2) m x HL) as [->|(Hi & _ & Hp & Hne)].
  - set_solver.
  - rewrite flat_eq. set_solver.
  - exfalso. clear -HL Hx. pose proof HL as HL'. inversion HL' as [? ? _ _ H3 H4]; subst.
    apply elem_of_flats in Hx as (z & Hz & Hx). assert (m ∈ E1 ++ m :: E2) as Hm by set_solver.
    pose proof (H4 m Hm) as Hs. inversion Hs as [? ? S1 _ _ _]; subst.
    destruct (flat_below _ _ z m Hs Hz Hx) as [->|(_ & _ & Hp & Hne)]; [by eapply H3|].
    pose proof (entry_prefix _ _ (S1 z Hz)) as Hp2. apply Hne.
    pose proof (prefix_length _ _ Hp). pose proof (prefix_length _ _ Hp2).
    symmetry. apply prefix_length_eq; [done|lia].
  - split_and!; [done..|]. pose proof (prefix_length _ _ Hp).
    destruct (decide (length (lname m) = length (lname x))); [|lia].
    destruct Hne. symmetry. apply prefix_length_eq; [done|lia].
Qed.

(** From the entry on, and up to it. *)
Lemma flats_from x : x ∈ (m :: flats (sub m)) ++ flats E2 ->
  clean (lname x) /\ (lname m = lname x \/ lex (lname m) (lname x) = true).
Proof.
  intros Hx. apply elem_of_app in Hx. split; [apply in_level; tauto|].
  destruct Hx as [Hx|Hx]; [|right; by apply (flats_after _ _ _ _ _ HL)].
  apply elem_of_cons in Hx as [->|Hx]; [by left|]. apply flats_here in Hx as (_ & [t ->] & _).
  destruct (lex_le_app (lname m) t) as [E|E]; [by right|by left].
Qed.

Lemma lex_trans_m s x : clean s -> lex s (lname m) = true ->
  x ∈ (m :: flats (sub m)) ++ flats E2 -> lex s (lname x) = true.
Proof.
  intros Hs H Hx. apply flats_from in Hx as [Hc [<-|Hl]]; [done|].
  by apply (lex_trans _ (lname m)); [|apply clean_m|..].
Qed.

Lemma before_irrelevant x : lex (lname m) U = true -> x ∈ flats E1 -> irrelevant U x.
Proof.
  intros H Hx. destruct (flats_before _ _ _ _ _ HL Hx) as [Hl Hp].
  assert (clean (lname x)) as Hc by (apply in_level; tauto).
  apply irrelevant_below; [done..| |].
  - by apply (lex_trans _ (lname m)); [|apply clean_m|..].
  - intros Hi Hp'. apply (Hp Hi). apply (lex_prefix _ _ U); [done|apply clean_m|done..].
Qed.

Lemma rule_less d : apart U (lname m) -> lex U (lname m) = true ->
  rule (exact_in (flats (E1 ++ m :: E2))) (incl_in (flats (E1 ++ m :: E2))) U d =
  rule (exact_in (flats E1)) (incl_in (flats E1)) U d.
Proof.
  intros Ha H. rewrite flats_at. apply (rule_local []); [by intros ? ?%elem_of_nil|].
  intros x Hx. pose proof (flats_from x Hx) as [Hc _]. apply irrelevant_above; [done..| |].
  - by apply lex_trans_m.
  - intros E0. rewrite (apart_lex _ _ [chr "/"] [] Ha), app_nil_r, <-E0 in H.
    apply lex_trans_m with (x := x) in H; [|done..]. by rewrite lex_irrefl in H.
Qed.

Lemma rule_greater d : apart (lname m) U -> lex (lname m) U = true ->
  rule (exact_in (flats (E1 ++ m :: E2))) (incl_in (flats (E1 ++ m :: E2))) U d =
  rule (exact_in (flats E2)) (incl_in (flats E2)) U d.
Proof.
  intros Ha H. rewrite flats_at, app_assoc.
  replace (flats E2) with (flats E2 ++ []) by apply app_nil_r. rewrite rule_local, app_nil_r; [done| |set_solver].
  intros x [Hx|Hx]%elem_of_app; [by apply before_irrelevant|].
  assert (lname m `prefix_of` lname x) as Hp.
  { apply elem_of_cons in Hx as [->|Hx]; [done|]. by apply flats_here. }
  apply irrelevant_below; [done|apply in_level; tauto| |].
  - eapply lex_prefix_l; [done..|]. by apply apart_not_prefix.
  - intros _ Hp'. apply (apart_not_prefix _ _ Ha). by etrans.
Qed.

(** The URI goes on after the name. *)
Lemma past_lex : lname m `prefix_of` U -> lname m <> U -> lex (lname m) U = true.
Proof. intros [t ->] Hne. destruct (lex_le_app (lname m) t) as [E|E]; congruence. Qed.

Lemma rule_past d : lname m `prefix_of` U -> lname m <> U -> inclusive m <> None ->
  rule (exact_in (flats (E1 ++ m :: E2))) (incl_in (flats (E1 ++ m :: E2))) U d =
  rule (exact_in (flats (sub m))) (incl_in (flats (sub m))) U (NGX_AGAIN, inclusive m).
Proof.
  intros Hp Hne Hi. rewrite flats_at, rule_local.
  - apply rule_enter; [done..|]. intros x Hx. by apply flats_here.
  - intros x Hx. apply before_irrelevant; [by apply past_lex|done].
  - intros x Hx. destruct (flats_after _ _ _ _ _ HL Hx) as [Hl Hp']. specialize (Hp' Hi).
    split_and!; [by intros E0; rewrite E0 in Hp'..| |].
    + intros E0. rewrite E0 in Hp'. apply Hp'. by apply prefix_app_r.
    + intros Hpx. destruct Hp'. destruct Hpx as [t E0].
      destruct (lex_le_app (lname x) t) as [E|E]; rewrite <-E0 in E; [|by rewrite <-E].
      apply (lex_prefix _ _ U); [apply clean_m|apply in_level; tauto|done..].
Qed.

Lemma rule_past_exact d : lname m `prefix_of` U -> lname m <> U -> inclusive m = None ->
  rule (exact_in (flats (E1 ++ m :: E2))) (incl_in (flats (E1 ++ m :: E2))) U d =
  rule (exact_in (flats E2)) (incl_in (flats E2)) U d.
Proof.
  intros Hp Hne Hi. rewrite flats_at, app_assoc.
  replace (flats E2) with (flats E2 ++ []) by apply app_nil_r. rewrite rule_local, app_nil_r; [done| |set_solver].
  intros x [Hx|Hx]%elem_of_app; [apply before_irrelevant; [by apply past_lex|done]|].
  apply elem_of_cons in Hx as [->|Hx]; [|by apply flats_here in Hx as [? _]].
  split_and!; [done| |done]. intros E0. apply prefix_length in Hp. rewrite E0, length_app in Hp. cbn in Hp. lia.
Qed.

(** The URI is the name. *)
Lemma rule_equal d : lname m = U -> exact m <> None \/ inclusive m <> None ->
  rule (exact_in (flats (E1 ++ m :: E2))) (incl_in (flats (E1 ++ m :: E2))) U d =
  match exact m with Some l => (NGX_OK, Some l) | None => (NGX_AGAIN, inclusive m) end.
Proof.
  intros E0 Hsome.
  assert (forall f, first (fun q => if decide (lname q = U) then f q else None) (flats (E1 ++ m :: E2)) = f m) as Hf.
  { intros f. rewrite flats_at, !first_app, first_none.
    - cbn. rewrite decide_True by done. destruct (f m); [done|]. rewrite !first_none; [done|..]; intros x Hx.
      + destruct (flats_after _ _ _ _ _ HL Hx) as [Hl _]. rewrite decide_False; [done|].
        intros E. by rewrite E, <-E0, lex_irrefl in Hl.
      + apply flats_here in Hx as (_ & _ & Hx). rewrite decide_False; [done|]. intros E. rewrite E, <-E0 in Hx. lia.
    - intros x Hx. destruct (flats_before _ _ _ _ _ HL Hx) as [Hl _]. rewrite decide_False; [done|].
      intros E. by rewrite E, <-E0, lex_irrefl in Hl. }
  unfold rule, exact_in at 1, incl_in at 1. rewrite !Hf.
  destruct (exact m); [done|]. destruct (inclusive m); [done|]. by destruct Hsome.
Qed.

(** The URI ends inside the name. *)
Lemma slash_first t : clean t -> t <> [] -> t <> [chr "/"] -> lex [chr "/"] t = true.
Proof.
  intros Ht Hn Hs. destruct t as [|c t]; [done|]. change (chr "/") with 47 in *. cbn -[Z.eqb].
  inversion Ht; subst. destruct (Z.eqb_spec 47 c) as [<-|Hc]; [by destruct t|].
  unfold rank. change (chr "/") with 47. rewrite (proj2 (Z.eqb_neq c 47)) by congruence. cbn. lia.
Qed.

Lemma rule_short d : U `prefix_of` lname m -> lname m <> U ->
  rule (exact_in (flats (E1 ++ m :: E2))) (incl_in (flats (E1 ++ m :: E2))) U d =
  rule (exact_in (flats E1 ++ [m])) (incl_in (flats E1 ++ [m])) U d.
Proof.
  intros [t E0] Hne. rewrite flats_at.
  replace (flats E1 ++ (m :: flats (sub m)) ++ flats E2)
    with ([] ++ (flats E1 ++ [m]) ++ flats (sub m) ++ flats E2) by (cbn; by rewrite <-app_assoc).
  apply rule_local; [by intros ? ?%elem_of_nil|]. intros x Hx.
  assert (t <> []) as Ht by (intros ->; by rewrite app_nil_r in E0).
  assert (lex U (lname m) = true) as HUm by (rewrite E0; by apply lex_app).
  assert (x ∈ (m :: flats (sub m)) ++ flats E2) as Hx' by set_solver.
  pose proof (flats_from x Hx') as [Hc _]. apply irrelevant_above; [done..|by apply lex_trans_m|]. intros Es.
  assert (lex (lname m) (lname x) = true) as Hmx.
  { apply elem_of_app in Hx as [Hx|Hx]; [|by apply (flats_after _ _ _ _ _ HL)].
    apply flats_here in Hx as (_ & [r E] & Hlt). rewrite E. apply lex_app. intros ->.
    rewrite app_nil_r in E. rewrite E in Hlt. lia. }
  rewrite Es, E0, lex_app_same in Hmx. destruct (decide (t = [chr "/"])) as [->|Hns].
  { by rewrite lex_irrefl in Hmx. }
  pose proof clean_m as Hcm. rewrite E0 in Hcm. apply Forall_app in Hcm as [_ Hct].
  apply slash_first in Hns; [|done..]. apply lex_asym in Hns; [congruence| |done]. repeat constructor.
Qed.

(** Before the name, the URI and what is above it are not inclusive. *)
Lemma before_short n : n `prefix_of` lname m -> incl_in (flats E1) n = None.
Proof.
  intros Hp. apply incl_in_none. intros x Hx Hi E0.
  destruct (flats_before _ _ _ _ _ HL Hx) as [_ Hp']. apply Hp'; [done|]. by rewrite E0.
Qed.

Lemma before_longest k : U `prefix_of` lname m -> longest (incl_in (flats E1)) U k = None.
Proof.
  intros Hp. apply longest_none. intros x Hx Hi Hpx.
  destruct (flats_before _ _ _ _ _ HL Hx) as [_ Hp']. destruct (Hp' Hi). by etrans.
Qed.

Lemma before_slash : lname m = U ++ [chr "/"] ->
  U `prefix_of` lname m /\ lname m <> U /\
  exact_in (flats E1) (U ++ [chr "/"]) = None /\ incl_in (flats E1) (U ++ [chr "/"]) = None.
Proof.
  intros E0. split_and!.
  - by exists [chr "/"].
  - intros E. apply (f_equal length) in E. rewrite E0, length_app in E. cbn in E. lia.
  - apply exact_in_none. intros x Hx E. destruct (flats_before _ _ _ _ _ HL Hx) as [Hl _].
    by rewrite E, E0, lex_irrefl in Hl.
  - apply before_short. by rewrite E0.
Qed.

Lemma rule_redirect d : lname m = U ++ [chr "/"] -> redirects (exact m) || redirects (inclusive m) = true ->
  rule (exact_in (flats E1 ++ [m])) (incl_in (flats E1 ++ [m])) U d =
  rule (exact_in (flats E1)) (incl_in (flats E1)) U (NGX_DONE, owner m).
Proof.
  intros E0 Hr. destruct (before_slash E0) as (Hp & Hne & Hs1 & Hs2). unfold rule.
  rewrite !exact_in_snoc, !incl_in_snoc, Hs1, Hs2, before_longest, before_short by done.
  rewrite !(decide_False (P := lname m = U)), !(decide_True (P := lname m = U ++ [chr "/"])) by done.
  unfold owner. destruct (exact_in (flats E1) U); [done|].
  destruct (exact m), (inclusive m); cbn in *; rewrite ?orb_false_r in *; by rewrite ?Hr.
Qed.

Lemma rule_no_redirect d : U `prefix_of` lname m -> lname m <> U ->
  (lname m = U ++ [chr "/"] -> redirects (exact m) || redirects (inclusive m) = false) ->
  rule (exact_in (flats E1 ++ [m])) (incl_in (flats E1 ++ [m])) U d =
  rule (exact_in (flats E1)) (incl_in (flats E1)) U d.
Proof.
  intros Hp Hne Hr.
  assert (~ lname m `prefix_of` U) as Hnp.
  { intros Hp'. apply Hne. apply prefix_length in Hp as Hl. by apply prefix_length_eq. }
  destruct (decide (lname m = U ++ [chr "/"])) as [E0|E0].
  2: { apply (rule_local [] (flats E1) [m]); [by intros ? ?%elem_of_nil|].
       by intros x ->%list_elem_of_singleton. }
  destruct (before_slash E0) as (_ & _ & Hs1 & Hs2). unfold rule.
  rewrite (longest_ext (incl_in (flats E1 ++ [m])) (incl_in (flats E1))).
  - rewrite !exact_in_snoc, !incl_in_snoc, Hs1, Hs2, before_short by done.
    rewrite !(decide_False (P := lname m = U)), !(decide_True (P := lname m = U ++ [chr "/"])) by done.
    rewrite Hr by done. by destruct (exact_in (flats E1) U).
  - intros j Hj. rewrite incl_in_snoc. case_decide as E; [|by destruct (incl_in (flats E1) (take j U))].
    destruct Hnp. rewrite E. apply prefix_take.
Qed.

End At.

(** *** The search *)

Lemma rule_nil U d : rule (exact_in []) (incl_in []) U d = d.
Proof. unfold rule. cbn. by rewrite longest_none by set_solver. Qed.

Lemma create_tree_nil f k : ngx_http_create_locations_tree (A := A) f [] k = Leaf.
Proof. by destruct f. Qed.

Lemma create_tree_step f E1 m E2 P w : lname m = P ++ w -> Z.of_nat (length (lname m)) < 65536 ->
  length E1 = (length (E1 ++ m :: E2) / 2)%nat ->
  ngx_http_create_locations_tree (S f) (E1 ++ m :: E2) (length P) =
  Node (ngx_http_create_locations_tree f E1 (length P)) (ngx_http_create_locations_tree f E2 (length P))
    (ngx_http_create_locations_tree f (sub m) (length (lname m))) (exact m) (inclusive m)
    (Z.of_nat (length w)) (redirects (exact m) || redirects (inclusive m)) w.
Proof.
  intros Hw Hs Hm. cbn [ngx_http_create_locations_tree]. rewrite <-Hm, list_lookup_middle by done.
  rewrite take_app_length, drop_app_ge by lia. replace (S (length E1) - length E1)%nat with 1%nat by lia.
  cbn [drop]. rewrite drop_0, Hw, length_app, drop_app_length in *.
  replace (length P + length w - length P)%nat with (length w) by lia.
  rewrite take_ge, Z.mod_small by lia. f_equal.
  - destruct E1; [by rewrite create_tree_nil|done].
  - destruct E1, E2; rewrite ?create_tree_nil; try done. exfalso. cbn in Hm.
    apply (f_equal (Nat.mul 2)) in Hm. pose proof (Nat.div_mod_eq (S (S (length E2))) 2). cbn in *.
    pose proof (Nat.mod_upper_bound (S (S (length E2))) 2). lia.
  - destruct (sub m); [by rewrite create_tree_nil|done].
Qed.

Lemma take_apart s1 s2 n : (n <= length s1)%nat -> (n <= length s2)%nat ->
  lex (take n s1) (take n s2) = true -> apart s1 s2 /\ lex s1 s2 = true.
Proof.
  intros H1 H2 H.
  assert (apart (take n s1) (take n s2)) as Ha.
  { apply lex_apart; [done|]. intros Hp. apply prefix_length_eq in Hp; [by rewrite Hp, lex_irrefl in H|].
    rewrite !length_take. lia. }
  split.
  - destruct Ha as (g & c1 & c2 & t1 & t2 & E1 & E2 & Hc).
    exists g, c1, c2, (t1 ++ drop n s1), (t2 ++ drop n s2). split_and!; [..|done].
    + by rewrite app_comm_cons, app_assoc, <-E1, take_drop.
    + by rewrite app_comm_cons, app_assoc, <-E2, take_drop.
  - rewrite (apart_lex _ _ (drop n s1) (drop n s2) Ha), !take_drop in H. done.
Qed.

Lemma apart_app P s1 s2 : apart s1 s2 -> apart (P ++ s1) (P ++ s2).
Proof.
  intros (g & c1 & c2 & t1 & t2 & -> & -> & Hc). exists (P ++ g), c1, c2, t1, t2.
  by rewrite <-!app_assoc.
Qed.

Lemma cmp_cases u w n : clean u -> clean w -> (n <= length u)%nat -> (n <= length w)%nat ->
  let rc := ngx_filename_cmp u w n in
  (rc < 0 /\ apart u w /\ lex u w = true) \/ (rc > 0 /\ apart w u /\ lex w u = true) \/
  (rc = 0 /\ take n u = take n w).
Proof.
  intros Hu Hw L1 L2. destruct (filename_cmp_take u w n) as [I1 I2]; [done..|]. cbv zeta.
  destruct (Z.lt_trichotomy (ngx_filename_cmp u w n) 0) as [H|[H|H]].
  - left. split; [done|]. by apply (take_apart _ _ n); [..|apply I1].
  - right; right. split; [done|]. by apply I2.
  - right; left. split; [lia|]. apply (take_apart _ _ n); [done..|].
    apply lex_total; [by apply Forall_take..| |].
    + apply not_true_is_false. intros E. apply I1 in E. lia.
    + intros E. apply I2 in E. lia.
Qed.

(** The search of the tree [t] follows the rule on the locations of the level
    [E]. *)
Definition finds (P : list Z) E (t : ltree A) : Prop :=
  forall u rv lc, clean (P ++ u) ->
    find_static t u rv lc = rule (exact_in (flats E)) (incl_in (flats E)) (P ++ u) (rv, lc).

(** The URI ends inside the name, with a slash left or not. *)
Lemma short_entry P E1 m E2 w u d : level P (E1 ++ m :: E2) -> entry_ok P m -> clean (P ++ u) -> lname m = P ++ w ->
  P ++ u `prefix_of` lname m -> lname m <> P ++ u ->
  rule (exact_in (flats (E1 ++ m :: E2))) (incl_in (flats (E1 ++ m :: E2))) (P ++ u) d =
  rule (exact_in (flats E1)) (incl_in (flats E1)) (P ++ u)
    (if (Z.of_nat (length u) + 1 =? Z.of_nat (length w)) && (redirects (exact m) || redirects (inclusive m))
     then (NGX_DONE, owner m) else d).
Proof.
  intros HL Hm HU Hw Hp Hne. rewrite (rule_short P) by done.
  destruct ((Z.of_nat (length u) + 1 =? Z.of_nat (length w)) && _) eqn:Hr.
  - apply andb_true_iff in Hr as [Hl Hr]. apply (rule_redirect P E1 m E2); [done| |done].
    destruct (entry_redirect _ _ Hm Hr) as [n Hn]. rewrite Hn. f_equal.
    assert (length n = length (P ++ u)) as Hln.
    { apply (f_equal length) in Hn. rewrite Hw, !length_app in Hn. rewrite length_app. cbn in Hn. lia. }
    rewrite Hn in Hp. destruct Hp as [t Ht]. by apply app_inj_1 in Ht as [-> _].
  - apply (rule_no_redirect P E1 m E2); [done..|]. intros E. rewrite <-Hr.
    replace (Z.of_nat (length u) + 1 =? Z.of_nat (length w)) with true; [done|].
    apply (f_equal length) in E. rewrite Hw, !length_app in E. cbn in E. lia.
Qed.

Lemma finds_node P E1 m E2 w lft rgt tree : level P (E1 ++ m :: E2) -> entry_ok P m -> lname m = P ++ w ->
  finds P E1 lft -> finds P E2 rgt -> finds (lname m) (sub m) tree ->
  finds P (E1 ++ m :: E2)
    (Node lft rgt tree (exact m) (inclusive m) (Z.of_nat (length w))
       (redirects (exact m) || redirects (inclusive m)) w).
Proof.
  intros HL Hm Hw F1 F2 F3 u rv lc HU. cbn [find_static].
  pose proof (entry_clean _ _ Hm) as Hc. rewrite Hw in Hc.
  pose proof (proj2 (proj1 (Forall_app _ _ _) HU)) as Hu. pose proof (proj2 (proj1 (Forall_app _ _ _) Hc)) as Hcw.
  set (n := Z.to_nat _). assert (n = Nat.min (length u) (length w)) as Hn by (unfold n; case_match; lia).
  destruct (cmp_cases u w n) as [(Hrc & Ha & Hl)|[(Hrc & Ha & Hl)|(Hrc & Ht)]]; [done..|lia|lia| | |].
  1,2: rewrite (proj2 (Z.eqb_neq _ _)) by lia; cbn [negb].
  1: rewrite (proj2 (Z.ltb_lt _ _)) by lia. 2: rewrite (proj2 (Z.ltb_ge _ _)) by lia.
  1: rewrite F1 by done; symmetry; apply (rule_less P). 5: rewrite F2 by done; symmetry; apply (rule_greater P).
  1-8: first [done | rewrite Hw; by apply apart_app | by rewrite Hw, lex_app_same].
  rewrite Hrc. cbn [Z.eqb negb]. destruct (Z.gtb_spec (Z.of_nat (length u)) (Z.of_nat (length w))) as [Hlt|Hle].
  - assert (n = length w) as Hnw by lia. rewrite Hnw in *. rewrite (take_ge w) in Ht by lia.
    assert (P ++ u = lname m ++ drop (length w) u) as HUm.
    { rewrite Hw, <-app_assoc. f_equal. rewrite <-Ht at 1. by rewrite take_drop. }
    assert (lname m <> P ++ u) as Hne by (intros E; apply (f_equal length) in E; rewrite Hw, !length_app in E; lia).
    assert (lname m `prefix_of` P ++ u) as Hp by (rewrite HUm; by apply prefix_app_r).
    destruct (inclusive m) as [l|] eqn:Hi.
    + rewrite F3 by by rewrite <-HUm. rewrite <-HUm. symmetry.
      rewrite (rule_past P), Hi by (done || by rewrite Hi). done.
    + rewrite F2 by done. symmetry. by apply (rule_past_exact P).
  - destruct (Z.eqb_spec (Z.of_nat (length u)) (Z.of_nat (length w))) as [Heq|Hneq].
    + rewrite !take_ge in Ht by lia. subst u. symmetry. apply (rule_equal P); [done..|apply Hm].
    + assert (n = length u) as Hnu by lia. rewrite Hnu in *. rewrite (take_ge u) in Ht by lia.
      assert (P ++ u `prefix_of` lname m) as Hp.
      { rewrite Hw, Ht. apply prefix_app. apply prefix_take. }
      assert (lname m <> P ++ u) as Hne by (intros E; apply (f_equal length) in E; rewrite Hw, !length_app in E; lia).
      rewrite (short_entry P E1 m E2 w u) by done.
      destruct ((Z.of_nat (length u) + 1 =? Z.of_nat (length w)) && _) eqn:Hr; by rewrite F1.
Qed.

Lemma tree_finds f P E : level P E -> (length (flats E) <= f)%nat ->
  finds P E (ngx_http_create_locations_tree f E (length P)).
Proof.
  revert P E. induction f as [|f IH]; intros P E HL Hf.
  { destruct E as [|[] E]; [|cbn in Hf; lia]. intros u rv lc _. by rewrite rule_nil. }
  destruct (E !! (length E / 2)%nat) as [m|] eqn:Hm.
  2: { apply lookup_ge_None in Hm. destruct E as [|q E]; [intros u rv lc _; by rewrite rule_nil|].
       pose proof (Nat.div_lt (length (q :: E)) 2). cbn [length] in *. lia. }
  rewrite <-(take_drop_middle _ _ _ Hm) in HL, Hf |- *.
  assert (length (take (length E / 2) E) = (length E / 2)%nat) as Hlen.
  { apply lookup_lt_Some in Hm. rewrite length_take. lia. }
  assert (length E = length (take (length E / 2) E ++ m :: drop (S (length E / 2)) E)) as HE.
  { by rewrite (take_drop_middle _ _ _ Hm). }
  rewrite HE in Hlen at 2. revert HL Hf Hlen. generalize (take (length E / 2) E) (drop (S (length E / 2)) E).
  clear E Hm HE. intros E1 E2 HL Hf Hlen. rewrite flats_at, !length_app in Hf. cbn [length] in Hf.
  pose proof HL as HL0. inversion HL0 as [? ? H1 _ _ H4]; subst.
  assert (m ∈ E1 ++ m :: E2) as Hm by set_solver. specialize (H1 m Hm). specialize (H4 m Hm).
  destruct (entry_prefix _ _ H1) as [w Hw].
  rewrite (create_tree_step _ _ _ _ _ _ Hw (entry_short _ _ H1)) by done. apply finds_node; [done..| | |].
  all: apply IH; [|lia].
  - eapply level_sub; [done|]. by apply sublist_inserts_r.
  - eapply level_sub; [done|]. apply sublist_inserts_l. by constructor.
  - done.
Qed.

(** ** Building the levels *)

Lemma split_at_spec {B} (f : B -> bool) l a b : split_at f l = (a, b) ->
  l = a ++ b /\ (forall x, x ∈ a -> f x = false) /\ (forall y b', b = y :: b' -> f y = true).
Proof.
  revert a b. induction l as [|q l IH]; intros a b H; cbn in H.
  { simplify_eq. split_and!; [done|by intros x ?%elem_of_nil|done]. }
  destruct (f q) eqn:Hf; [simplify_eq|].
  - split_and!; [done|by intros x ?%elem_of_nil|by intros y b' [= <- _]].
  - destruct (split_at f l) as [a0 b0]. simplify_eq. destruct (IH a0 b eq_refl) as (-> & H1 & H2).
    split_and!; [done| |done]. intros x [->|Hx]%elem_of_cons; auto.
Qed.

Lemma not_below_spec q x : clean (lname q) -> clean (lname x) ->
  not_below q x = false <-> lname q `prefix_of` lname x.
Proof.
  intros Hq Hx. unfold not_below. rewrite orb_false_iff, negb_false_iff, Nat.ltb_ge, Z.eqb_eq. split.
  - intros [Hl Hc]. apply (filename_cmp_take (lname q) (lname x) _ Hq Hx) in Hc; [|done..].
    rewrite take_ge in Hc by done. rewrite Hc. apply prefix_take.
  - intros Hp. pose proof (prefix_length _ _ Hp) as Hl. split; [done|].
    apply (filename_cmp_take (lname q) (lname x) _ Hq Hx); [done..|].
    destruct Hp as [t ->]. by rewrite take_ge, take_app_length.
Qed.

(** An entry without what is below it. *)
Definition erase q : lq A := LQ (exact q) (inclusive q) (lname q) [].

Definition before q q' : Prop := lex (lname q) (lname q') = true.

(** A sorted list of entries with nothing below them. *)
Record sorted_flat (P : list Z) (l : list (lq A)) : Prop := {
  flat_entries : forall q, q ∈ l -> entry_ok P q;
  flat_subs : forall q, q ∈ l -> sub q = [];
  flat_sorted : StronglySorted before l
}.

Lemma sorted_flat_app P l1 l2 : sorted_flat P (l1 ++ l2) -> sorted_flat P l1 /\ sorted_flat P l2.
Proof.
  intros [H1 H2 H3]. apply StronglySorted_app in H3 as (_ & H3 & H4).
  split; split; auto; intros q Hq; (apply H1 || apply H2); set_solver.
Qed.

Lemma sorted_flat_cons P q l : sorted_flat P (q :: l) ->
  entry_ok P q /\ sub q = [] /\ sorted_flat P l /\ (forall x, x ∈ l -> before q x).
Proof.
  intros H. pose proof (sorted_flat_app P [q] l H) as [_ Hl]. destruct H as [H1 H2 H3].
  split_and!; [apply H1|apply H2|done|]; [set_solver..|].
  apply StronglySorted_cons in H3 as [H3 _]. by rewrite Forall_forall in H3.
Qed.

Lemma create_list_nil f : ngx_http_create_locations_list (A := A) f [] = [].
Proof. by destruct f. Qed.

Lemma erase_flat q : sub q = [] -> erase q = q.
Proof. destruct q. cbn. by intros ->. Qed.

(** What follows the locations below an inclusive one is not below it. *)
Lemma below_together P q below rest' : sorted_flat P (q :: below ++ rest') ->
  (forall y b', rest' = y :: b' -> not_below q y = true) ->
  forall x, x ∈ rest' -> ~ lname q `prefix_of` lname x.
Proof.
  intros Hl Hy x Hx Hp. destruct rest' as [|y b']; [by apply elem_of_nil in Hx|].
  specialize (Hy y b' eq_refl). apply sorted_flat_cons in Hl as (Hq & _ & Hl & Hlq).
  apply sorted_flat_app in Hl as [_ Hl].
  pose proof (entry_clean _ _ (flat_entries _ _ Hl x Hx)) as Cx. pose proof (entry_clean _ _ Hq) as Cq.
  apply sorted_flat_cons in Hl as (Hye & _ & _ & Hly). pose proof (entry_clean _ _ Hye) as Cy.
  enough (not_below q y = false) by congruence. apply not_below_spec; [done..|].
  apply elem_of_cons in Hx as [->|Hx]; [done|].
  apply (lex_prefix _ _ _ Cq Cy Cx); [|by apply Hly|done]. apply Hlq. set_solver.
Qed.

Lemma create_list_step f P q rest : sorted_flat P (q :: rest) ->
  exists below rest', rest = below ++ rest' /\
    ngx_http_create_locations_list (S f) (q :: rest) =
      LQ (exact q) (inclusive q) (lname q) (ngx_http_create_locations_list f below)
      :: ngx_http_create_locations_list f rest' /\
    (below <> [] -> inclusive q <> None) /\
    (forall x, x ∈ below -> lname q `prefix_of` lname x) /\
    (inclusive q <> None -> forall x, x ∈ rest' -> ~ lname q `prefix_of` lname x).
Proof.
  intros Hl. pose proof (sorted_flat_cons _ _ _ Hl) as (Hq & Hs & Hlr & Hlt).
  pose proof (erase_flat q Hs) as Hr. unfold erase in Hr.
  destruct (inclusive q) as [i|] eqn:Hi.
  - destruct (split_at (not_below q) rest) as [below rest'] eqn:Hsp.
    pose proof (split_at_spec _ _ _ _ Hsp) as (-> & H1 & H2). exists below, rest'. split_and!; [done| |done| |].
    + cbn [ngx_http_create_locations_list]. destruct (below ++ rest') as [|y r] eqn:E.
      { apply app_nil in E as [-> ->]. by rewrite !create_list_nil, Hr. }
      rewrite <-E in *. rewrite Hi, Hsp. destruct below; [by rewrite create_list_nil, Hr|]. by rewrite Hs.
    + intros x Hx. apply not_below_spec; [apply Hq| |by apply H1].
      apply (flat_entries _ _ Hlr). set_solver.
    + intros _. eapply below_together; eauto.
  - exists [], rest. split_and!; [done| |done|set_solver|done].
    cbn. rewrite create_list_nil, Hr, Hi. destruct rest; [by rewrite create_list_nil|done].
Qed.

Lemma create_list_erase f P l : sorted_flat P l -> (length l <= f)%nat ->
  map erase (flats (ngx_http_create_locations_list f l)) = l.
Proof.
  revert P l. induction f as [|f IH]; intros P [|q rest] Hl Hf; try (cbn in Hf; lia); [done..|].
  destruct (create_list_step f P q rest Hl) as (below & rest' & -> & -> & _).
  cbn in Hf. rewrite length_app in Hf.
  apply sorted_flat_cons in Hl as (_ & Hs & Hl & _). apply sorted_flat_app in Hl as [Hl1 Hl2].
  unfold flats. cbn. fold (flats (ngx_http_create_locations_list f below)) (flats (ngx_http_create_locations_list f rest')).
  rewrite map_app, (IH P below), (IH P rest') by (done || lia). f_equal. by apply erase_flat in Hs.
Qed.

Lemma create_list_top f P l x : sorted_flat P l -> (length l <= f)%nat ->
  x ∈ ngx_http_create_locations_list f l ->
  exists q, q ∈ l /\ lname x = lname q /\ exact x = exact q /\ inclusive x = inclusive q.
Proof.
  intros Hl Hf Hx. exists (erase x). split; [|done]. rewrite <-(create_list_erase f P l) by done.
  apply list_elem_of_fmap. exists x. split; [done|]. apply elem_of_flats. exists x.
  rewrite flat_eq. set_solver.
Qed.

Lemma create_list_level f P l : sorted_flat P l -> (length l <= f)%nat ->
  level P (ngx_http_create_locations_list f l).
Proof.
  revert P l. induction f as [|f IH]; intros P [|q rest] Hl Hf; try (cbn in Hf; lia).
  1,2: constructor; [by intros ? ?%elem_of_nil|constructor|by intros ? ? ?%elem_of_nil|by intros ? ?%elem_of_nil].
  destruct (create_list_step f P q rest Hl) as (below & rest' & -> & -> & Hi & Hb & Hr).
  cbn in Hf. rewrite length_app in Hf.
  apply sorted_flat_cons in Hl as (Hq & Hs & Hl & Hlt). apply sorted_flat_app in Hl as [Hl1 Hl2].
  pose proof (IH P rest' Hl2 ltac:(lia)) as HR. inversion HR as [? ? R1 R2 R3 R4]; subst.
  assert (sorted_flat (lname q) below) as Hl1'.
  { destruct Hl1 as [B1 B2 B3]. split; [|done..]. intros x Hx. destruct (B1 x Hx). split; auto. }
  pose proof (fun x => create_list_top f _ below x Hl1' ltac:(lia)) as HT.
  constructor.
  - intros x [->|Hx]%elem_of_cons; [|by apply R1]. destruct Hq. split; auto.
    cbn. intros Hne. apply Hi. intros ->. by rewrite create_list_nil in Hne.
  - constructor; [done|]. apply Forall_forall. intros x Hx.
    destruct (create_list_top f P rest' x Hl2 ltac:(lia) Hx) as (y & Hy & Hn & _). unfold precedes. rewrite Hn.
    split; [apply Hlt; set_solver|]. intros Hi'. by apply Hr.
  - intros x y [->|Hx]%elem_of_cons Hy; [|by eapply R3]. cbn in *.
    destruct (HT y Hy) as (z & Hz & -> & _). assert (before q z) as Hqz by (apply Hlt; set_solver).
    intros E. unfold before in Hqz. by rewrite E, lex_irrefl in Hqz.
  - intros x [->|Hx]%elem_of_cons; [|by apply R4]. apply IH; [done|cbn; lia].
Qed.

Lemma exact_in_erase E n : exact_in (map erase E) n = exact_in E n.
Proof. unfold exact_in. induction E as [|q E IH]; cbn; [done|]. by rewrite IH. Qed.

Lemma incl_in_erase E n : incl_in (map erase E) n = incl_in E n.
Proof. unfold incl_in. induction E as [|q E IH]; cbn; [done|]. by rewrite IH. Qed.

(** The tree of a sorted list follows the rule on the list. *)
Lemma sorted_finds f g l u : sorted_flat [] l -> (length l <= f)%nat -> (length l <= g)%nat -> clean u ->
  ngx_http_core_find_static_location
    (ngx_http_create_locations_tree g (ngx_http_create_locations_list f l) 0) u =
  rule (exact_in l) (incl_in l) u (NGX_DECLINED, None).
Proof.
  intros Hl Hf Hg Hu. set (L := ngx_http_create_locations_list f l).
  assert (map erase (flats L) = l) as HE by by eapply create_list_erase.
  unfold ngx_http_core_find_static_location.
  rewrite (tree_finds g [] L (create_list_level _ _ _ Hl Hf)); [|by rewrite <-(length_map erase), HE|done].
  cbn [app]. apply rule_ext; [..|intros n _];
    rewrite <-?(exact_in_erase (flats L)), <-?(incl_in_erase (flats L)), HE; done.
Qed.

(** ** Sorting the configuration *)

(** A location of the configuration: what the parser of the [location]
    directive guarantees. *)
Record loc_ok (l : loc A) : Prop := {
  loc_clean : clean (name (at_ l));
  loc_short : Z.of_nat (length (name (at_ l))) < 65536;
  loc_kinds : (noname (at_ l) = true -> named (at_ l) = false /\ has_regex (at_ l) = false) /\
              (named (at_ l) = true -> has_regex (at_ l) = false);
  loc_redirect : auto_redirect (at_ l) = true -> exists n, name (at_ l) = n ++ [chr "/"]
}.

(** The order of the kinds. *)
Definition class (l : loc A) : Z :=
  if noname (at_ l) then 3 else if named (at_ l) then 2 else if has_regex (at_ l) then 1 else 0.

Definition static (l : loc A) : bool := class l =? 0.

Definition static_le (l1 l2 : loc A) : Prop :=
  lex (name (at_ l1)) (name (at_ l2)) = true \/
  name (at_ l1) = name (at_ l2) /\ (exact_match (at_ l2) = true -> exact_match (at_ l1) = true).

Definition loc_le (l1 l2 : loc A) : Prop :=
  class l1 < class l2 \/ class l1 = class l2 /\ (class l1 = 0 -> static_le l1 l2).

Definition cmp_loc (l1 l2 : loc A) : Z := cmp_attrs (at_ l1) (at_ l2).

Lemma static_le_trans l1 l2 l3 : loc_ok l1 -> loc_ok l2 -> loc_ok l3 ->
  static_le l1 l2 -> static_le l2 l3 -> static_le l1 l3.
Proof.
  intros [C1 _ _ _] [C2 _ _ _] [C3 _ _ _] [H1|[E1 H1]] [H2|[E2 H2]]; unfold static_le.
  - left. by eapply (lex_trans _ (name (at_ l2))).
  - left. by rewrite <-E2.
  - left. by rewrite E1.
  - right. split; [congruence|auto].
Qed.

Lemma loc_le_trans l1 l2 l3 : loc_ok l1 -> loc_ok l2 -> loc_ok l3 ->
  loc_le l1 l2 -> loc_le l2 l3 -> loc_le l1 l3.
Proof.
  intros O1 O2 O3 [H1|[E1 H1]] [H2|[E2 H2]]; unfold loc_le; [left; lia..|right]. split; [lia|].
  intros E. apply (static_le_trans _ l2); auto. apply H2. lia.
Qed.

Lemma cmp_loc_le l1 l2 : loc_ok l1 -> loc_ok l2 ->
  (cmp_loc l1 l2 <= 0 -> loc_le l1 l2) /\ (0 < cmp_loc l1 l2 -> loc_le l2 l1).
Proof.
  intros [C1 _ [N1 M1] _] [C2 _ [N2 M2] _]. unfold cmp_loc, cmp_attrs, loc_le, class.
  destruct (noname (at_ l1)), (noname (at_ l2)); cbn [andb orb negb]; [split; lia..|].
  destruct (named (at_ l1)), (named (at_ l2)); cbn [andb orb negb]; [split; lia..|].
  destruct (has_regex (at_ l1)), (has_regex (at_ l2)); cbn [andb orb negb]; [split; lia..|].
  destruct (filename_cmp_names _ _ C1 C2) as (I1 & I2 & I3). cbv zeta. unfold static_le.
  set (rc := ngx_filename_cmp _ _ _) in *. destruct (Z.eqb_spec rc 0) as [E|E]; cbn [andb].
  - apply I2 in E as Hn. destruct (exact_match (at_ l1)), (exact_match (at_ l2)); cbn [andb negb].
    all: split; intros ?; try lia; right; (split; [done|]); intros _; right; done.
  - split; intros ?; right; (split; [done|]); intros _; left; [apply I1|apply I3]; lia.
Qed.

End Rule.

(** Insertion sort for a comparison that decides an order. *)
Section Sort.
Context {B : Type} (cmp : B -> B -> Z) (R : B -> B -> Prop) (ok : B -> Prop).
Hypothesis cmp_le : forall a b, ok a -> ok b -> cmp a b <= 0 -> R a b.
Hypothesis cmp_gt : forall a b, ok a -> ok b -> 0 < cmp a b -> R b a.
Hypothesis R_trans : forall a b c, ok a -> ok b -> ok c -> R a b -> R b c -> R a c.

Lemma insert_back_perm q s : insert_back cmp q s ≡ₚ q :: s.
Proof.
  induction s as [|p s IH]; cbn; [done|]. destruct (_ <=? _); [done|]. rewrite IH. by constructor.
Qed.

Lemma insert_back_sorted q s : ok q -> Forall ok s -> StronglySorted (flip R) s ->
  StronglySorted (flip R) (insert_back cmp q s).
Proof.
  intros Hq Hs H. induction H as [|p s H IH HF]; cbn; [by repeat constructor|].
  apply Forall_cons in Hs as [Hp Hs]. destruct (Z.leb_spec (cmp p q) 0) as [Hc|Hc].
  - constructor; [by constructor|]. rewrite !Forall_forall in *. intros x [->|Hx]%elem_of_cons; [by apply cmp_le|].
    apply (R_trans _ p); [by apply Hs|done..|by apply HF|by apply cmp_le].
  - constructor; [by apply IH|]. rewrite insert_back_perm. constructor; [by apply cmp_gt|done].
Qed.

Lemma sort_fold l s : Forall ok l -> Forall ok s -> StronglySorted (flip R) s ->
  let r := fold_left (fun s q => insert_back cmp q s) l s in
  StronglySorted (flip R) r /\ r ≡ₚ l ++ s.
Proof.
  revert s. induction l as [|q l IH]; intros s Hl Hs H; cbn; [done|].
  apply Forall_cons in Hl as [Hq Hl]. destruct (IH (insert_back cmp q s)) as [I1 I2]; [done| |by apply insert_back_sorted|].
  { rewrite insert_back_perm. by constructor. }
  split; [done|]. rewrite I2, insert_back_perm. by rewrite Permutation_middle.
Qed.

Lemma sort_perm l : Forall ok l -> list_sort cmp l ≡ₚ l.
Proof.
  intros Hl. unfold list_sort. rewrite reverse_Permutation.
  destruct (sort_fold l [] Hl) as [_ E]; [constructor..|]. by rewrite E, app_nil_r.
Qed.

Lemma sorted_reverse (s : list B) : StronglySorted (flip R) s -> StronglySorted R (reverse s).
Proof.
  intros H. induction H as [|p s H IH HF]; [constructor|]. rewrite reverse_cons. apply StronglySorted_app_2; [|done|].
  - intros x y Hx ->%list_elem_of_singleton. rewrite Forall_forall in HF. rewrite elem_of_reverse in Hx. exact (HF x Hx).
  - by repeat constructor.
Qed.

Lemma sort_sorted l : Forall ok l -> StronglySorted R (list_sort cmp l).
Proof. intros Hl. apply sorted_reverse. by apply sort_fold; [|constructor..]. Qed.

(** The elements that compare equal stay in order. *)
Lemma sort_stable (p : B -> bool) l : (forall a b, p a = true -> p b = true -> cmp a b <= 0) ->
  List.filter p (list_sort cmp l) = List.filter p l.
Proof.
  intros Hp.
  assert (forall q s, List.filter p (insert_back cmp q s) = List.filter p [q] ++ List.filter p s) as Hi.
  { intros q s. induction s as [|x s IH]; cbn; [by destruct (p q)|]. destruct (Z.leb_spec (cmp x q) 0) as [Hc|Hc].
    - cbn. by destruct (p q), (p x).
    - cbn. rewrite IH. cbn. destruct (p x) eqn:Ex, (p q) eqn:Eq; cbn; try done. specialize (Hp x q Ex Eq). lia. }
  assert (forall s, List.filter p (fold_left (fun s q => insert_back cmp q s) l s) =
    reverse (List.filter p l) ++ List.filter p s) as Hf.
  { induction l as [|q l IH]; intros s; cbn [fold_left List.filter]; [done|].
    rewrite IH, Hi, app_assoc. f_equal. cbn [List.filter]. destruct (p q); [by rewrite reverse_cons|by rewrite app_nil_r]. }
  unfold list_sort. assert (forall s, List.filter p (reverse s) = reverse (List.filter p s)) as Hr.
  { intros s. unfold reverse. rewrite <-!rev_alt. apply filter_rev. }
  by rewrite Hr, Hf, app_nil_r, reverse_involutive.
Qed.

End Sort.

(** *** The kinds of locations *)

Section Config.
Context {A : Type}.
Implicit Types (q : lq A) (l : loc A) (cfg S : list (loc A)).

Lemma owner_add l : owner (ngx_http_add_location l) = Some l.
Proof. unfold ngx_http_add_location. by case_match. Qed.

Lemma cmp_add l1 l2 :
  ngx_http_cmp_locations (ngx_http_add_location l1) (ngx_http_add_location l2) = cmp_loc l1 l2.
Proof. unfold ngx_http_cmp_locations. by rewrite !owner_add. Qed.

Lemma sort_add cfg :
  list_sort ngx_http_cmp_locations (map ngx_http_add_location cfg) =
  map ngx_http_add_location (list_sort cmp_loc cfg).
Proof.
  assert (forall l S, insert_back ngx_http_cmp_locations (ngx_http_add_location l) (map ngx_http_add_location S) =
    map ngx_http_add_location (insert_back cmp_loc l S)) as Hi.
  { intros l S. induction S as [|x S IH]; cbn; [done|]. rewrite cmp_add, IH. by destruct (_ <=? _). }
  assert (forall S, fold_left (fun s q => insert_back ngx_http_cmp_locations q s) (map ngx_http_add_location cfg)
      (map ngx_http_add_location S) =
    map ngx_http_add_location (fold_left (fun s l => insert_back cmp_loc l s) cfg S)) as Hf.
  { induction cfg as [|l cfg IH]; intros S; cbn; [done|]. by rewrite Hi, IH. }
  unfold list_sort. specialize (Hf []). cbn [map] in Hf. rewrite Hf. symmetry. apply (fmap_reverse ngx_http_add_location).
Qed.

Lemma split_add f S :
  split_at (flag f) (map ngx_http_add_location S) =
  let '(a, b) := split_at (fun l => f (at_ l)) S in (map ngx_http_add_location a, map ngx_http_add_location b).
Proof.
  induction S as [|l S IH]; cbn; [done|]. unfold flag at 1. rewrite owner_add. destruct (f (at_ l)); [done|].
  rewrite IH. by destruct (split_at _ S).
Qed.

Lemma split_class f k S : StronglySorted loc_le S -> Forall (fun l => class l <= k) S ->
  Forall (fun l => f l = (class l =? k)) S ->
  split_at f S = (List.filter (fun l => class l <? k) S, List.filter (fun l => class l =? k) S).
Proof.
  intros H. induction H as [|l S H IH HF]; intros Hk Hf; cbn; [done|].
  apply Forall_cons in Hk as [Hk1 Hk], Hf as [Hf1 Hf]. rewrite Hf1.
  destruct (Z.eqb_spec (class l) k) as [E|E].
  - rewrite (proj2 (Z.ltb_ge _ _)) by lia.
    assert (Forall (fun x => class x = k) S) as HS.
    { rewrite !Forall_forall in *. intros x Hx. specialize (Hk x Hx). destruct (HF x Hx) as [?|[? _]]; lia. }
    clear -HS. assert (List.filter (fun l => class l <? k) S = []) as ->.
    { induction HS as [|x S Hx HS IH]; cbn; [done|]. by rewrite (proj2 (Z.ltb_ge _ _)) by lia. }
    do 2 f_equal. induction HS as [|x S Hx HS IH]; cbn; [done|]. rewrite (proj2 (Z.eqb_eq _ _)) by done. by f_equal.
  - rewrite (proj2 (Z.ltb_lt _ _)) by lia. by rewrite IH.
Qed.

Lemma filter_sorted {B} (R : B -> B -> Prop) (p : B -> bool) s :
  StronglySorted R s -> StronglySorted R (List.filter p s).
Proof.
  intros H. induction H as [|a s H IH HF]; cbn; [constructor|]. destruct (p a); [|done].
  constructor; [done|]. rewrite Forall_forall in *. intros x Hx. apply HF.
  apply list_elem_of_In, filter_In, proj1, list_elem_of_In in Hx. done.
Qed.

Lemma filter_below j k S : j <= k ->
  List.filter (fun l => class l <? j) (List.filter (fun l => class l <? k) S) =
  List.filter (fun l => class l <? j) S.
Proof.
  intros Hj. induction S as [|l S IH]; cbn; [done|]. destruct (Z.ltb_spec (class l) k); cbn; rewrite IH; [done|].
  by rewrite (proj2 (Z.ltb_ge _ _)) by lia.
Qed.

Lemma filter_equal j k S : j < k ->
  List.filter (fun l => class l =? j) (List.filter (fun l => class l <? k) S) =
  List.filter (fun l => class l =? j) S.
Proof.
  intros Hj. induction S as [|l S IH]; cbn; [done|]. destruct (Z.ltb_spec (class l) k); cbn; rewrite IH; [done|].
  by rewrite (proj2 (Z.eqb_neq _ _)) by lia.
Qed.

Lemma filter_forall (P : loc A -> Prop) (p : loc A -> bool) S :
  (forall x, x ∈ S -> p x = true -> P x) -> Forall P (List.filter p S).
Proof.
  intros H. rewrite Forall_forall. intros x Hx%list_elem_of_In%filter_In.
  rewrite <-list_elem_of_In in Hx. destruct Hx. by apply H.
Qed.

Lemma sort_locs cfg : Forall loc_ok cfg ->
  list_sort cmp_loc cfg ≡ₚ cfg /\ StronglySorted loc_le (list_sort cmp_loc cfg).
Proof.
  intros Hok. split; [apply (sort_perm _ loc_le loc_ok)|apply (sort_sorted _ _ loc_ok)]; try done.
  all: first [exact loc_le_trans | intros a b Ha Hb; apply (cmp_loc_le a b Ha Hb)].
Qed.

(** The levels of the configuration after the sort. *)
Lemma init_locations_kinds cfg : Forall loc_ok cfg ->
  let S := list_sort cmp_loc cfg in
  ngx_http_init_locations (map ngx_http_add_location cfg) =
  (map ngx_http_add_location (List.filter static S),
   map ngx_http_add_location (List.filter (fun l => class l =? 1) S),
   map ngx_http_add_location (List.filter (fun l => class l =? 2) S)).
Proof.
  intros Hok S. unfold ngx_http_init_locations. rewrite sort_add. fold S.
  destruct (sort_locs cfg Hok) as [HP HL]. fold S in HP, HL.
  assert (Forall loc_ok S) as HS by by rewrite HP.
  assert (forall k l, loc_ok l -> k = class l -> 0 <= k <= 3 /\
    (negb (has_regex (at_ l)) && negb (named (at_ l)) && noname (at_ l) = (k =? 3)) /\
    (negb (has_regex (at_ l)) && named (at_ l) = (k =? 2)) /\ has_regex (at_ l) = (k =? 1)) as HC.
  { intros k l [_ _ [N M] _] ->. unfold class.
    destruct (noname (at_ l)); [destruct N as [-> ->]; done|]. destruct (named (at_ l)); [rewrite M; done|].
    by destruct (has_regex (at_ l)). }
  rewrite Forall_forall in HS.
  rewrite split_add, (split_class _ 3 S HL); [| |].
  2,3: apply Forall_forall; intros x Hx; destruct (HC _ x (HS x Hx) eq_refl) as (? & ? & ? & ?); (lia || done).
  rewrite split_add, (split_class _ 2); [|by apply filter_sorted|..].
  2,3: apply filter_forall; intros x Hx ?; destruct (HC _ x (HS x Hx) eq_refl) as (? & ? & ? & ?); (lia || done).
  rewrite split_add, filter_below by lia. rewrite (split_class _ 1); [|by apply filter_sorted|..].
  2,3: apply filter_forall; intros x Hx ?; destruct (HC _ x (HS x Hx) eq_refl) as (? & ? & ? & ?); (lia || done).
  rewrite filter_below, !filter_equal by lia. do 3 f_equal.
  apply filter_ext_in. intros x Hx%list_elem_of_In. unfold static.
  destruct (HC _ x (HS x Hx) eq_refl) as (? & _). lia.
Qed.

(** *** Joining *)

Definition keys (q : lq A) : list (list Z * bool) :=
  (match exact q with Some _ => [(lname q, true)] | None => [] end) ++
  (match inclusive q with Some _ => [(lname q, false)] | None => [] end).

(** What [join_exact] finds at [q]: the rest is after it, and its name again
    is an inclusive location when [q] has one. *)
Record join_inv (q : lq A) S : Prop := {
  join_entry : entry_ok [] q;
  join_sub : sub q = [];
  join_rest : forall x, x ∈ S -> loc_ok x /\ static x = true /\
    (lex (lname q) (name (at_ x)) = true \/
     lname q = name (at_ x) /\ (inclusive q <> None -> exact_match (at_ x) = false));
  join_sorted : StronglySorted static_le S
}.

Lemma add_static (x : loc A) : static x = true ->
  ngx_http_add_location x =
  if exact_match (at_ x) then LQ (Some x) None (name (at_ x)) [] else LQ None (Some x) (name (at_ x)) [].
Proof.
  unfold static, class, ngx_http_add_location.
  destruct (noname _), (named _), (has_regex _); try done. by destruct (exact_match _).
Qed.

Lemma lname_add (x : loc A) : lname (ngx_http_add_location x) = name (at_ x).
Proof. unfold ngx_http_add_location. by case_match. Qed.

Lemma add_ok (x : loc A) : loc_ok x -> static x = true -> entry_ok [] (ngx_http_add_location x).
Proof.
  intros [C1 C2 _ C4] Hx. rewrite add_static by done.
  destruct (exact_match (at_ x)); split; cbn; rewrite ?orb_false_r; try done;
    try apply prefix_nil; by (left + right).
Qed.

Lemma join_inv_start (x : loc A) S : Forall loc_ok (x :: S) -> Forall (fun l => static l = true) (x :: S) ->
  StronglySorted static_le (x :: S) -> join_inv (ngx_http_add_location x) S.
Proof.
  intros [O HO]%Forall_cons [St HSt]%Forall_cons [H4 H5]%StronglySorted_cons. rewrite Forall_forall in H4, HO, HSt.
  split; [by apply add_ok| | |done].
  - unfold ngx_http_add_location. by case_match.
  - intros y Hy. split_and!; [by auto..|]. rewrite lname_add.
    destruct (H4 y Hy) as [Hl|[E Hl]]; [by left|right]. split; [done|]. rewrite add_static by done.
    destruct (exact_match (at_ x)) eqn:Ex; [done|]. intros _. destruct (exact_match (at_ y)); [|done].
    by discriminate (Hl eq_refl).
Qed.

Lemma join_inv_next q (x : loc A) S : join_inv q (x :: S) -> join_inv (ngx_http_add_location x) S.
Proof.
  intros [_ _ H3 H4]. apply join_inv_start; [..|done]; apply Forall_forall; intros y Hy; by apply H3.
Qed.

Lemma same_name q (x : loc A) : entry_ok [] q -> loc_ok x ->
  (Nat.eqb (length (lname q)) (length (name (at_ x))))
    && (ngx_filename_cmp (lname q) (name (at_ x)) (length (name (at_ x))) =? 0) = bool_decide (lname q = name (at_ x)).
Proof.
  intros [_ Cq _ _ _ _] [Cx _ _ _]. apply eq_true_iff_eq. rewrite andb_true_iff, bool_decide_eq_true, Nat.eqb_eq, Z.eqb_eq.
  split.
  - intros [Hl Hc]. apply filename_cmp_take in Hc; [|done..|lia|lia]. by rewrite !take_ge in Hc by lia.
  - intros E. split; [by rewrite E|]. apply filename_cmp_take; [done..|by rewrite E|done|by rewrite E].
Qed.

(** Merging the exact and the inclusive location of a name. *)
Definition merge q (x : loc A) : lq A := LQ (exact q) (Some x) (lname q) (sub q).

Lemma join_inv_merge q (x : loc A) S : join_inv q (x :: S) -> lname q = name (at_ x) ->
  exact_match (at_ x) = false -> join_inv (merge q x) S.
Proof.
  intros H E Ex. pose proof (join_inv_next _ _ _ H) as [_ _ N3 N4]. destruct H as [[P1 P2 P3 P4 P5 P6] H2 H3 _].
  destruct (H3 x) as (Ox & _ & _); [set_solver|]. split; [split; cbn; try done| | |done].
  - by right.
  - intros [Hr|Hr]%orb_true_iff; [apply P6; by rewrite Hr|]. rewrite E. by apply Ox.
  - done.
  - intros y Hy. destruct (N3 y Hy) as (Oy & Sy & Hl). split_and!; [done..|]. cbn. rewrite E.
    rewrite lname_add in Hl. destruct Hl as [Hl|[El Hl]]; [by left|right]. split; [done|]. intros _.
    apply Hl. unfold ngx_http_add_location. rewrite Ex. destruct (H3 x) as (_ & Hs & _); [set_solver|].
    unfold static, class in Hs. destruct (noname _), (named _), (has_regex _); done.
Qed.

(** What joining gives. *)
Definition joined (E : list (lq A)) (o : option (list (lq A))) : Prop :=
  match o with
  | Some r => sorted_flat [] r /\ NoDup (E ≫= keys) /\
      (forall n, exact_in r n = exact_in E n) /\ (forall n, incl_in r n = incl_in E n)
  | None => ~ NoDup (E ≫= keys)
  end.

Lemma keys_lname q k : k ∈ keys q -> k.1 = lname q.
Proof. unfold keys. repeat case_match; cbn; set_solver. Qed.

Lemma keys_nodup q : NoDup (keys q).
Proof. unfold keys. repeat case_match; cbn; repeat constructor; set_solver. Qed.

Lemma joined_cons q E o : entry_ok [] q -> sub q = [] ->
  (forall x, x ∈ E -> lex (lname q) (lname x) = true) ->
  (forall r, o = Some r -> forall x, x ∈ r -> exists y, y ∈ E /\ lname x = lname y) ->
  joined E o -> joined (q :: E) (match o with Some r => Some (q :: r) | None => None end).
Proof.
  intros Hq Hs Hlt Hr HJ. destruct o as [r|]; cbn in *.
  2: { intros (_ & _ & HN)%NoDup_app. done. }
  destruct HJ as ([S1 S2 S3] & HN & He & Hi). split_and!.
  - split.
    + intros x [->|Hx]%elem_of_cons; auto.
    + intros x [->|Hx]%elem_of_cons; auto.
    + constructor; [done|]. apply Forall_forall. intros x Hx. destruct (Hr r eq_refl x Hx) as (y & Hy & E0).
      unfold before. rewrite E0. auto.
  - apply NoDup_app. split_and!; [apply keys_nodup| |done]. intros k Hk (y & Hky & Hy)%list_elem_of_bind.
    apply keys_lname in Hk, Hky. specialize (Hlt y Hy). by rewrite <-Hk, Hky, lex_irrefl in Hlt.
  - intros n. unfold exact_in in *. cbn. by rewrite He.
  - intros n. unfold incl_in in *. cbn. by rewrite Hi.
Qed.

Lemma join_names q E r x : join_exact q E = Some r -> x ∈ r -> exists y, y ∈ q :: E /\ lname x = lname y.
Proof.
  revert q r. induction E as [|y E IH]; intros q r H Hx; cbn in H.
  { simplify_eq. set_solver. }
  destruct (_ && _).
  - assert (join_exact (LQ (exact q) (inclusive y) (lname q) (sub q)) E = Some r) as HJ.
    { by destruct (exact q), (exact y), (inclusive q), (inclusive y). }
    destruct (IH _ _ HJ Hx) as (z & [->|Hz]%elem_of_cons & E0); [exists q|exists z]; set_solver.
  - destruct (join_exact y E) as [r'|] eqn:HJ; [|done]. simplify_eq.
    apply elem_of_cons in Hx as [->|Hx]; [exists q; set_solver|].
    destruct (IH _ _ HJ Hx) as (z & Hz & E0). exists z. set_solver.
Qed.

Lemma joined_ext E E' o : E ≫= keys = E' ≫= keys -> (forall n, exact_in E n = exact_in E' n) ->
  (forall n, incl_in E n = incl_in E' n) -> joined E o -> joined E' o.
Proof.
  intros Hk He Hi. unfold joined. rewrite Hk. destruct o as [r|]; [|done].
  intros (H1 & H2 & H3 & H4). split_and!; [done..| |]; intros n; by rewrite <-?He, <-?Hi.
Qed.

Lemma join_after q (x : loc A) S y : join_inv q (x :: S) -> lex (lname q) (name (at_ x)) = true ->
  y ∈ map ngx_http_add_location (x :: S) -> lex (lname q) (lname y) = true.
Proof.
  intros [He _ H3 H4] Hx (z & -> & Hz)%list_elem_of_fmap. rewrite lname_add.
  apply StronglySorted_cons in H4 as [H4 _]. rewrite Forall_forall in H4.
  apply elem_of_cons in Hz as [->|Hz]; [done|].
  destruct (H3 x) as ([Cx _ _ _] & _); [set_solver|]. destruct (H3 z) as ([Cz _ _ _] & _); [set_solver|].
  destruct (H4 z Hz) as [Hl|[El _]]; [|congruence]. apply (lex_trans _ (name (at_ x))); [apply He|done..].
Qed.

Lemma join_exact_spec q S : join_inv q S ->
  joined (q :: map ngx_http_add_location S) (join_exact q (map ngx_http_add_location S)).
Proof.
  revert q. induction S as [|x S IH]; intros q HI; cbn [map join_exact].
  { destruct HI as [H1 H2 _ _]. apply (joined_cons q [] (Some [])); [done..|set_solver|set_solver|].
    split_and!; [|constructor|done..]. split; [by intros ? ?%elem_of_nil..|constructor]. }
  destruct (join_rest _ _ HI x) as (Ox & Sx & Hx); [set_solver|]. rewrite lname_add.
  rewrite (same_name q x (join_entry _ _ HI) Ox). case_bool_decide as Hn.
  - destruct Hx as [Hx|[_ Hx]]; [by rewrite Hn, lex_irrefl in Hx|].
    rewrite add_static by done. destruct (exact_match (at_ x)) eqn:Ex; cbn [exact inclusive].
    + destruct (inclusive q) as [i|] eqn:Hi; [by discriminate Hx|].
      destruct (exact q) as [e|] eqn:He; [|by destruct (entry_some _ _ (join_entry _ _ HI))].
      cbn. unfold keys at 1. rewrite He, Hi. cbn. rewrite Hn. intros (HN & _)%NoDup_cons. set_solver.
    + destruct (inclusive q) as [i|] eqn:Hi.
      * assert (~ NoDup ((q :: LQ None (Some x) (name (at_ x)) [] :: map ngx_http_add_location S) ≫= keys)) as HD.
        { cbn. unfold keys at 1. rewrite Hi, <-Hn. intros (_ & HN & _)%NoDup_app.
          destruct (exact q); cbn in *; set_solver. }
        by destruct (exact q).
      * pose proof (IH _ (join_inv_merge _ _ _ HI Hn Ex)) as HJ.
        assert (forall o, joined (merge q x :: map ngx_http_add_location S) o ->
          joined (q :: LQ None (Some x) (name (at_ x)) [] :: map ngx_http_add_location S) o) as Hext.
        { intros o. apply joined_ext; [|intros n..].
          - unfold merge. cbn. unfold keys. cbn. rewrite Hi, Hn. by destruct (exact q).
          - unfold exact_in. cbn. rewrite Hn. by destruct (decide (name (at_ x) = n)), (exact q).
          - unfold incl_in. cbn. rewrite Hi, Hn. by destruct (decide (name (at_ x) = n)). }
        apply Hext in HJ. revert HJ. unfold merge. by destruct (exact q).
  - destruct Hx as [Hx|[? _]]; [|done].
    apply joined_cons; [apply HI|apply HI| | |].
    + intros y Hy. by eapply join_after.
    + intros r Hr y Hy. by eapply join_names.
    + apply IH. by eapply join_inv_next.
Qed.


(** ** The whole *)

(** The static locations of a name in the configuration, and the names with
    the kind of match. *)
Definition exact_of cfg (n : list Z) : option (loc A) :=
  List.find (fun l => static l && exact_match (at_ l) && bool_decide (name (at_ l) = n)) cfg.
Definition incl_of cfg (n : list Z) : option (loc A) :=
  List.find (fun l => static l && negb (exact_match (at_ l)) && bool_decide (name (at_ l) = n)) cfg.
Definition key l : list Z * bool := (name (at_ l), exact_match (at_ l)).
Definition static_names cfg : list (list Z * bool) :=
  map key (List.filter static cfg).

Lemma filter_perm {B} (p : B -> bool) s1 s2 : s1 ≡ₚ s2 -> List.filter p s1 ≡ₚ List.filter p s2.
Proof.
  intros H. induction H as [|a s1 s2 H IH|a b s|s1 s2 s3 H1 IH1 H2 IH2]; cbn.
  - done.
  - destruct (p a); [by constructor|done].
  - destruct (p a), (p b); try done. constructor.
  - by etrans.
Qed.

Lemma keys_static S : Forall (fun l => static l = true) S ->
  map ngx_http_add_location S ≫= keys = map key S.
Proof.
  intros H. induction H as [|l S Hl H IH]; cbn; [done|]. rewrite IH, add_static by done.
  unfold key at 2. by destruct (exact_match (at_ l)).
Qed.

Definition with_key (k : list Z * bool) S : option (loc A) := List.find (fun l => bool_decide (key l = k)) S.

(** Without duplicates the order does not matter. *)
Lemma with_key_perm k S S' : S ≡ₚ S' -> NoDup (map key S) -> with_key k S = with_key k S'.
Proof.
  intros H. induction H as [|l S S' H IH|l1 l2 S|S1 S2 S3 H1 IH1 H2 IH2]; intros HN; unfold with_key in *; cbn.
  - done.
  - apply NoDup_cons in HN as [_ HN]. by rewrite IH.
  - do 2 case_bool_decide; try done. cbn in HN. apply NoDup_cons in HN as [HN _].
    destruct HN. apply elem_of_cons. left. congruence.
  - rewrite IH1 by done. apply IH2. by rewrite <-H1.
Qed.

Lemma with_key_in S n : Forall (fun l => static l = true) S ->
  exact_in (map ngx_http_add_location S) n = with_key (n, true) S /\
  incl_in (map ngx_http_add_location S) n = with_key (n, false) S.
Proof.
  intros H. unfold exact_in, incl_in, with_key. induction H as [|l S Hl H [IH1 IH2]]; cbn; [done|].
  rewrite add_static by done. unfold key.
  destruct (exact_match (at_ l)); cbn; destruct (decide (name (at_ l) = n)) as [E|E]; rewrite ?IH1, ?IH2.
  all: split; repeat case_bool_decide; done || congruence.
Qed.

Lemma with_key_of cfg n :
  with_key (n, true) (List.filter static cfg) = exact_of cfg n /\
  with_key (n, false) (List.filter static cfg) = incl_of cfg n.
Proof.
  unfold with_key, exact_of, incl_of, key. induction cfg as [|l cfg [IH1 IH2]]; cbn; [done|].
  destruct (static l); cbn; [|done]. rewrite IH1, IH2.
  destruct (exact_match (at_ l)); cbn; split; repeat case_bool_decide; congruence.
Qed.

(** The locations of one level as the code builds them. *)
Definition build_level cfg : option (ltree A) * list (lq A) * list (lq A) :=
  let '(statics, regexes, nameds) := ngx_http_init_locations (map ngx_http_add_location cfg) in
  (ngx_http_init_static_location_trees statics, regexes, nameds).

Lemma init_trees_spec S u : Forall loc_ok S -> Forall (fun l => static l = true) S ->
  StronglySorted static_le S -> clean u ->
  match ngx_http_init_static_location_trees (map ngx_http_add_location S) with
  | None => ~ NoDup (map key S)
  | Some t => NoDup (map key S) /\
      ngx_http_core_find_static_location t u =
      rule (fun n => with_key (n, true) S) (fun n => with_key (n, false) S) u (NGX_DECLINED, None)
  end.
Proof.
  intros Hok Hst HS Hu. rewrite <-(keys_static S) by done.
  destruct S as [|l S]; [split; [apply NoDup_nil_2|exact (eq_sym (rule_nil u _))]|].
  unfold ngx_http_init_static_location_trees. cbn [map ngx_http_join_exact_locations].
  pose proof (join_inv_start l S Hok Hst HS) as HI.
  pose proof (join_exact_spec _ _ HI) as HJ. destruct (join_exact _ _) as [r|]; [|done].
  destruct HJ as (HF & HN & He & Hi). split; [done|]. rewrite (sorted_finds _ _ r u) by (done || lia).
  apply rule_ext; [..|intros n _]; rewrite ?He, ?Hi; by apply (with_key_in (l :: S)).
Qed.

Lemma static_sorted S : StronglySorted loc_le S -> Forall (fun l => static l = true) S ->
  StronglySorted static_le S.
Proof.
  intros H Hst. induction H as [|l S H IH HF]; [constructor|]. apply Forall_cons in Hst as [Hl Hst].
  constructor; [auto|]. rewrite Forall_forall in *. intros x Hx. unfold static in *.
  specialize (Hst x Hx). destruct (HF x Hx) as [?|[_ Hle]]; [lia|]. apply Hle. lia.
Qed.

(** C36: the static locations of a level are searched by the rule of the
    documentation, whatever the order of the configuration: the configuration
    is refused exactly when a name is given twice for the same kind of match,
    and otherwise the search of the tree built from it gives, for every URI,
    the exact location, the inclusive one of the same name, a redirect to the
    URI with a slash, or the longest inclusive prefix; the regular expressions
    keep the order of the configuration, and named locations are all kept. *)
Theorem find_location_exact cfg u : Forall loc_ok cfg -> clean u ->
  let '(tree, regexes, nameds) := build_level cfg in
  regexes = map ngx_http_add_location (List.filter (fun l => class l =? 1) cfg) /\
  nameds ≡ₚ map ngx_http_add_location (List.filter (fun l => class l =? 2) cfg) /\
  match tree with
  | None => ~ NoDup (static_names cfg)
  | Some t => NoDup (static_names cfg) /\
      ngx_http_core_find_static_location t u = rule (exact_of cfg) (incl_of cfg) u (NGX_DECLINED, None)
  end.
Proof.
  intros Hok Hu. unfold build_level. rewrite init_locations_kinds by done. cbv zeta.
  destruct (sort_locs cfg Hok) as [HP HS]. pose proof (filter_perm static _ _ HP) as HPs. split_and!.
  - f_equal. apply sort_stable. intros a b Ha%Z.eqb_eq Hb%Z.eqb_eq. unfold class, cmp_loc, cmp_attrs in *.
    by destruct (noname (at_ a)), (noname (at_ b)), (named (at_ a)), (named (at_ b)),
      (has_regex (at_ a)), (has_regex (at_ b)).
  - by apply Permutation_map, filter_perm.
  - set (S := List.filter static _) in *.
    assert (Forall (fun l => static l = true) S) as Hst by by apply filter_forall.
    assert (Forall loc_ok S) as HoS.
    { rewrite HPs. apply filter_forall. intros x Hx _. rewrite Forall_forall in Hok. auto. }
    assert (StronglySorted static_le S) as HSS.
    { apply static_sorted; [by apply filter_sorted|done]. }
    pose proof (init_trees_spec S u) as HT.
    assert (NoDup (static_names cfg) <-> NoDup (map key S)) as HN.
    { apply NoDup_Permutation_proper. symmetry. by apply Permutation_map. }
    destruct (ngx_http_init_static_location_trees _) as [t|]; rewrite HN; [|by apply HT].
    destruct HT as [HN' HT]; [done..|]. split; [done|]. rewrite HT.
    apply rule_ext; [..|intros n _]; rewrite (with_key_perm _ _ _ HPs HN'); apply with_key_of.
Qed.

End Config.

(** A configuration: [location ~ (0)], [location /], [location @b],
    [location = /a], [location /a/] with a redirect, [location /ab]. *)
Definition sample_attrs (n : list Z) (e : bool) (r : option nat) (nm ar : bool) : attrs :=
  mk_attrs n e r nm false ar false.

Definition sample : list (loc nat) := [
  mk_loc (sample_attrs [46] false (Some 0%nat) false false) 1%nat;
  mk_loc (sample_attrs [47] false None false false) 2%nat;
  mk_loc (sample_attrs [64; 98] false None true false) 3%nat;
  mk_loc (sample_attrs [47; 97] true None false false) 4%nat;
  mk_loc (sample_attrs [47; 98; 47] false None false true) 5%nat;
  mk_loc (sample_attrs [47; 97; 98] false None false false) 6%nat ].

Lemma sample_ok : Forall loc_ok sample.
Proof.
  repeat constructor; cbn; try done; try lia. intros _. by exists [47; 98].
Defined.

Lemma find_location_exact_witness :
  match (build_level sample).1.1 with
  | None => False
  | Some t =>
      ngx_http_core_find_static_location t [47; 98] =
      rule (exact_of sample) (incl_of sample) [47; 98] (NGX_DECLINED, None) /\
      fst (ngx_http_core_find_static_location t [47; 98]) = NGX_DONE /\
      (conf <$> snd (ngx_http_core_find_static_location t [47; 97])) = Some 4%nat /\
      (conf <$> snd (ngx_http_core_find_static_location t [47; 97; 99])) = Some 2%nat
  end.
Proof.
  assert (clean [47; 98]) as Hu by repeat constructor.
  pose proof (find_location_exact sample [47; 98] sample_ok Hu) as H.
  destruct (build_level sample) as [[t regexes] nameds] eqn:E. destruct H as (_ & _ & H).
  destruct t as [t|]; [|vm_compute in E; discriminate].
  destruct H as [_ H]. cbn [fst]. split; [exact H|]. apply (f_equal (fun x => x.1.1)) in E.
  vm_compute in E. injection E as <-. by vm_compute.
Defined.

End Location.
