(* ===== verification/HttpRange.v ===== *)
(** * Range requests

    http/modules/ngx_http_range_filter_module.c: the header filter, which
    reads the Range header against the length of the response and decides
    between 206, 416 and the whole response, and the body filter, which cuts
    the ranges out of the buffers of the response.  Module [Range] has the
    two filters; section [Body] gives buffers their bytes.  The headers are
    printed with the model of ngx_sprintf() of NgxPrintf. *)

From Stdlib Require Import String Ascii ZArith Bool Lia ZifyBool List.
From S2P Require Import Prelude NgxNumber NgxPrintf NgxTime.
Import ListNotations.
Import Printf.
Local Open Scope Z_scope.

Module Range.

Definition NGX_HTTP_OK : Z := 200.
Definition NGX_HTTP_PARTIAL_CONTENT : Z := 206.
Definition NGX_HTTP_RANGE_NOT_SATISFIABLE : Z := 416.
Definition NGX_HTTP_VERSION_10 : Z := 1000.

(** [ngx_http_range_t] *)
Record range := mk_range { start : Z; end_ : Z; content_range : list Z }.

(** ** Parsing *)

(** A step of the parser: [None] when it reads after the NUL of the string
    or overflows [off_t], a return code when it returns, or a value. *)
Definition M (A : Type) : Type := option (Z + A).
Definition ret {A} (x : A) : M A := Some (inr x).
Definition return_ {A} (rc : Z) : M A := Some (inl rc).
Definition bind {A B} (m : M A) (f : A -> M B) : M B :=
  match m with
  | None => None
  | Some (inl rc) => Some (inl rc)
  | Some (inr x) => f x
  end.

Declare Scope range_scope.
Notation "x <- m ; k" := (bind m (fun x => k)) (at level 61, m at next level, right associativity) : range_scope.
Local Open Scope range_scope.

Section Parse.
Context `{P : Platform}.

(** [*p], and the result of an operation on [off_t]. *)
Definition deref (p : list Z) : M Z := match p with c :: _ => ret c | [] => None end.
Definition off (z : Z) : M Z :=
  if (- NGX_MAX_OFF_T_VALUE - 1 <=? z) && (z <=? NGX_MAX_OFF_T_VALUE) then ret z else None.

(** [while ( *p == ' ') { p++; }] *)
Fixpoint skip_spaces (p : list Z) : M (list Z) :=
  match p with
  | [] => None
  | c :: p' => if c =? chr " " then skip_spaces p' else ret p
  end.

(** [while ( *p >= '0' && *p <= '9')] with the test of overflow *)
Fixpoint read_number (v : Z) (p : list Z) : M (Z * list Z) :=
  match p with
  | [] => None
  | c :: p' =>
      if (c >=? chr "0") && (c <=? chr "9") then
        if (v >=? NGX_MAX_OFF_T_VALUE / 10)
           && ((v >? NGX_MAX_OFF_T_VALUE / 10) || (c - chr "0" >? NGX_MAX_OFF_T_VALUE mod 10))
        then return_ NGX_HTTP_RANGE_NOT_SATISFIABLE
        else v' <- off (v * 10 + (c - chr "0")); read_number v' p'
      else ret (v, p)
  end.

Definition digit_at (p : list Z) : M unit :=
  c <- deref p;
  if (c <? chr "0") || (c >? chr "9") then return_ NGX_HTTP_RANGE_NOT_SATISFIABLE else ret tt.

(** The second number of a range, and the end of the range. *)
Definition read_last (cl start : Z) (suffix : bool) (p : list Z) : M (Z * Z * list Z) :=
  _ <- digit_at p;
  ep <- read_number 0 p;
  let '(e, p) := ep in
  p <- skip_spaces p;
  c <- deref p;
  if negb (c =? chr ",") && negb (c =? 0) then return_ NGX_HTTP_RANGE_NOT_SATISFIABLE
  else
    se <- (if suffix then
             s <- (if e <? cl then off (cl - e) else ret 0);
             e <- off (cl - 1);
             ret (s, e)
           else ret (start, e));
    let '(start, e) := se in
    e <- (if e >=? cl then ret cl else off (e + 1));
    ret (start, e, p).

(** A range that starts with a number. *)
Definition read_first (cl : Z) (p : list Z) : M (Z * Z * list Z) :=
  _ <- digit_at p;
  sp <- read_number 0 p;
  let '(s, p) := sp in
  p <- skip_spaces p;
  c <- deref p;
  if negb (c =? chr "-") then return_ NGX_HTTP_RANGE_NOT_SATISFIABLE
  else
    p <- skip_spaces (tl p);
    c <- deref p;
    if (c =? chr ",") || (c =? 0) then ret (s, cl, p) else read_last cl s false p.

(** One range up to the label [found]: its start, its end, and [p]. *)
Definition read_range (cl : Z) (p : list Z) : M (Z * Z * list Z) :=
  p <- skip_spaces p;
  c <- deref p;
  if negb (c =? chr "-") then read_first cl p else read_last cl 0 true (tl p).

(** The loop; [acc] holds the ranges found, the last one first. *)
Fixpoint range_loop (f : nat) (cl : Z) (ranges : nat) (size : Z) (acc : list range) (p : list Z)
    : M (Z * list range) :=
  match f with
  | O => None
  | S f =>
      sep <- read_range cl p;
      let '(s, e, p) := sep in
      let next ranges size acc :=
        c <- deref p;
        if c =? chr "," then range_loop f cl ranges size acc (tl p) else ret (size, acc) in
      if s <? e then
        let acc := mk_range s e [] :: acc in
        d <- off (e - s);
        lim <- off (NGX_MAX_OFF_T_VALUE - d);
        if size >? lim then return_ NGX_HTTP_RANGE_NOT_SATISFIABLE
        else
          size <- off (size + d);
          match ranges with
          | O => return_ NGX_DECLINED
          | S ranges => next ranges size acc
          end
      else if s =? 0 then return_ NGX_DECLINED
      else next ranges size acc
  end.

(** [ngx_http_range_parse] for the string after the 6 first bytes, with its
    NUL; [mctx] are the ranges of the main request in a subrequest. *)
Definition ngx_http_range_parse (mctx : option (list range)) (value : list Z) (cl : Z) (ranges : nat)
    : M (list range) :=
  match mctx with
  | Some l => ret l
  | None =>
      let p := value ++ [0] in
      sa <- range_loop (S (length p)) cl ranges 0 [] p;
      let '(size, acc) := sa in
      match acc with
      | [] => return_ NGX_HTTP_RANGE_NOT_SATISFIABLE
      | _ => if size >? cl then return_ NGX_DECLINED else ret (rev acc)
      end
  end.

End Parse.

(** ** The header filter *)

(** The fields of [r->headers_out] that the filter uses. *)
Record headers_out := mk_out {
  status : Z; content_length_n : Z; content_offset : Z; content_type : list Z;
  content_type_len : Z; charset : list Z; content_range_h : option (list Z);
  accept_ranges : bool; etag : option (list Z); last_modified_time : Z
}.

Record request := mk_request {
  http_version : Z; is_main : bool; subrequest_ranges : bool; allow_ranges : bool;
  single_range : bool; max_ranges : nat; range_h : option (list Z); if_range : option (list Z);
  main_ranges : option (list range); hout : headers_out
}.

(** [ngx_http_range_filter_ctx_t] *)
Record ctx := mk_ctx { offset : Z; boundary_header : list Z; ranges : list range }.

(** How the header filter ends: with the next filter, or with a response
    that cannot be satisfied. *)
Inductive outcome :=
  | Next (c : option ctx) (h : headers_out)
  | Not_satisfiable (h : headers_out).

(** [ngx_strncasecmp] *)
Definition lower (c : Z) : Z := if (c >=? chr "A") && (c <=? chr "Z") then Z.lor c 0x20 else c.

Fixpoint ngx_strncasecmp (s1 s2 : list Z) (n : nat) : Z :=
  match n with
  | O => 0
  | S n =>
      let c1 := lower (hd 0 s1) in
      let c2 := lower (hd 0 s2) in
      if c1 =? c2 then if negb (c1 =? 0) then ngx_strncasecmp (tl s1) (tl s2) n else 0
      else c1 - c2
  end.

Section Filters.
Context `{P : Platform}.

Definition NGX_OFF_T_LEN : nat := match off_t_size with size4 => 11 | size8 => 20 end.
Definition NGX_ATOMIC_T_LEN : nat := ptr_len.
Definition CRLF : list Z := [CR; LF].

Definition set_content_range (v : option (list Z)) (h : headers_out) : headers_out :=
  mk_out (status h) (content_length_n h) (content_offset h) (content_type h) (content_type_len h)
    (charset h) v (accept_ranges h) (etag h) (last_modified_time h).

Definition set_length (n off : Z) (h : headers_out) : headers_out :=
  mk_out (status h) n off (content_type h) (content_type_len h)
    (charset h) (content_range_h h) (accept_ranges h) (etag h) (last_modified_time h).

Definition set_status (st : Z) (h : headers_out) : headers_out :=
  mk_out st (content_length_n h) (content_offset h) (content_type h) (content_type_len h)
    (charset h) (content_range_h h) (accept_ranges h) (etag h) (last_modified_time h).

Definition set_type (t : list Z) (h : headers_out) : headers_out :=
  mk_out (status h) (content_length_n h) (content_offset h) t (Z.of_nat (length t))
    [] (content_range_h h) (accept_ranges h) (etag h) (last_modified_time h).

Definition set_accept (h : headers_out) : headers_out :=
  mk_out (status h) (content_length_n h) (content_offset h) (content_type h) (content_type_len h)
    (charset h) (content_range_h h) true (etag h) (last_modified_time h).

(** [None] when a format and its arguments do not match, which does not
    happen. *)
Definition ngx_http_range_singlepart_header (r : request) (c : ctx) (h : headers_out) : option outcome :=
  if negb (is_main r) then Some (Next (Some c) h)
  else
    match ranges c with
    | [] => None
    | rg :: _ =>
        match ngx_sprintf (bs "bytes %O-%O/%O")
                [Arg_int (start rg); Arg_int (end_ rg - 1); Arg_int (content_length_n h)] with
        | None => None
        | Some v =>
            let h := set_content_range (Some v) h in
            Some (Next (Some c) (set_length (end_ rg - start rg) (start rg) h))
        end
    end.

(** The boundary header of the ranges. *)
Definition boundary_of (h : headers_out) (boundary : Z) : option (list Z) :=
  if (content_type_len h =? Z.of_nat (length (content_type h))) && negb (Nat.eqb (length (charset h)) 0) then
    ngx_sprintf (CRLF ++ bs "--%0muA" ++ CRLF ++ bs "Content-Type: %V; charset=%V" ++ CRLF ++ bs "Content-Range: bytes ")
      [Arg_int boundary; Arg_str (content_type h); Arg_str (charset h)]
  else if negb (Nat.eqb (length (content_type h)) 0) then
    ngx_sprintf (CRLF ++ bs "--%0muA" ++ CRLF ++ bs "Content-Type: %V" ++ CRLF ++ bs "Content-Range: bytes ")
      [Arg_int boundary; Arg_str (content_type h)]
  else
    ngx_sprintf (CRLF ++ bs "--%0muA" ++ CRLF ++ bs "Content-Range: bytes ") [Arg_int boundary].

(** The loop over the ranges: their headers, and the length. *)
Fixpoint range_headers (cl : Z) (bh : nat) (l : list range) (len : Z) : option (list range * Z) :=
  match l with
  | [] => Some ([], len)
  | rg :: l =>
      match ngx_sprintf (bs "%O-%O/%O" ++ CRLF ++ CRLF)
              [Arg_int (start rg); Arg_int (end_ rg - 1); Arg_int cl] with
      | None => None
      | Some v =>
          match range_headers cl bh l (len + (Z.of_nat bh + Z.of_nat (length v) + (end_ rg - start rg))) with
          | None => None
          | Some (l, len) => Some (mk_range (start rg) (end_ rg) v :: l, len)
          end
      end
  end.

(** [boundary] is the result of ngx_next_temp_number(0). *)
Definition ngx_http_range_multipart_header (boundary : Z) (c : ctx) (h : headers_out) : option outcome :=
  match boundary_of h boundary, ngx_sprintf (bs "multipart/byteranges; boundary=%0muA") [Arg_int boundary] with
  | Some bh, Some ct =>
      let h' := set_type ct h in
      match range_headers (content_length_n h) (length bh) (ranges c)
              (Z.of_nat (4 + NGX_ATOMIC_T_LEN + 4)) with
      | Some (l, len) =>
          Some (Next (Some (mk_ctx (offset c) bh l)) (set_content_range None (set_length len (content_offset h) h')))
      | None => None
      end
  | _, _ => None
  end.

Definition ngx_http_range_not_satisfiable (h : headers_out) : option outcome :=
  match ngx_sprintf (bs "bytes */%O") [Arg_int (content_length_n h)] with
  | None => None
  | Some v =>
      Some (Not_satisfiable (set_content_range (Some v)
        (set_length (-1) (content_offset h) (set_status NGX_HTTP_RANGE_NOT_SATISFIABLE h))))
  end.

(** Whether If-Range lets the ranges through. *)
Definition if_range_ok (r : request) : bool :=
  match if_range r with
  | None => true
  | Some v =>
      if (Nat.leb 2 (length v)) && (last v 0 =? 34) then
        match etag (hout r) with
        | None => false
        | Some e => Nat.eqb (length v) (length e) && forallb (fun p => fst p =? snd p) (combine v e)
        end
      else if last_modified_time (hout r) =? -1 then false
      else Time.ngx_parse_http_time v =? last_modified_time (hout r)
  end.

Definition ngx_http_range_header_filter (boundary : Z) (r : request) : option outcome :=
  let h := hout r in
  if (http_version r <? NGX_HTTP_VERSION_10) || negb (status h =? NGX_HTTP_OK)
     || (negb (is_main r) && negb (subrequest_ranges r)) || (content_length_n h =? -1)
     || negb (allow_ranges r)
  then Some (Next None h)
  else if Nat.eqb (max_ranges r) 0 then Some (Next None h)
  else
    let next_filter := Some (Next None (set_accept h)) in
    match range_h r with
    | None => next_filter
    | Some v =>
        if Nat.ltb (length v) 7 || negb (ngx_strncasecmp v (bs "bytes=") 6 =? 0) then next_filter
        else if negb (if_range_ok r) then next_filter
        else
          let n := if single_range r then 1%nat else max_ranges r in
          match ngx_http_range_parse (if is_main r then None else main_ranges r) (skipn 6 v) (content_length_n h) n with
          | None => None
          | Some (inr l) =>
              let c := mk_ctx (content_offset h) [] l in
              let h := set_status NGX_HTTP_PARTIAL_CONTENT h in
              match l with
              | [_] => ngx_http_range_singlepart_header r c h
              | _ => ngx_http_range_multipart_header boundary c h
              end
          | Some (inl rc) =>
              if rc =? NGX_HTTP_RANGE_NOT_SATISFIABLE then ngx_http_range_not_satisfiable h else next_filter
          end
    end.

End Filters.

(** ** The body filter *)

(** [ngx_buf_t]; [in_memory] is [ngx_buf_in_memory()]. *)
Record buf := mk_buf {
  in_file : bool; file_pos : Z; file_last : Z; in_memory : bool; pos : Z; last_ : Z;
  flush : bool; sync : bool; last_buf : bool; last_in_chain : bool
}.

Definition ngx_buf_special (b : buf) : bool :=
  (flush b || last_buf b || sync b) && negb (in_memory b) && negb (in_file b).

Definition ngx_buf_size (b : buf) : Z :=
  if in_memory b then last_ b - pos b else file_last b - file_pos b.

(** The parts of a buffer moved: [file_pos], [file_last], [pos], [last]. *)
Definition with_ends (fp fl p l : Z) (b : buf) : buf :=
  mk_buf (in_file b) fp fl (in_memory b) p l (flush b) (sync b) (last_buf b) (last_in_chain b).

Definition skip_buf (b : buf) : buf :=
  mk_buf (in_file b) (if in_file b then file_last b else file_pos b) (file_last b) (in_memory b)
    (last_ b) (last_ b) (flush b) true (last_buf b) (last_in_chain b).

Definition cut_front (n : Z) (b : buf) : buf :=
  with_ends (if in_file b then file_pos b + n else file_pos b) (file_last b)
    (if in_memory b then pos b + n else pos b) (last_ b) b.

Definition cut_back (n : Z) (b : buf) : buf :=
  with_ends (file_pos b) (if in_file b then file_last b - n else file_last b)
    (pos b) (if in_memory b then last_ b - n else last_ b) b.

Definition mark_last (main : bool) (b : buf) : buf :=
  mk_buf (in_file b) (file_pos b) (file_last b) (in_memory b) (pos b) (last_ b)
    (flush b) (sync b) main true.

(** One iteration: the buffer, whether it is sent, the new offset. *)
Definition single_buf (main : bool) (rg : range) (off : Z) (b : buf) : buf * bool * Z :=
  let s := off in
  let l := off + ngx_buf_size b in
  if ngx_buf_special b then (b, negb (end_ rg <=? s), l)
  else if (end_ rg <=? s) || (start rg >=? l) then (skip_buf b, false, l)
  else
    let b := if start rg >? s then cut_front (start rg - s) b else b in
    let b := if end_ rg <=? l then mark_last main (cut_back (l - end_ rg) b) else b in
    (b, true, l).

(** The buffers that are sent, and the new offset. *)
Fixpoint single_loop (main : bool) (rg : range) (off : Z) (l : list buf) : list buf * Z :=
  match l with
  | [] => ([], off)
  | b :: l =>
      let '(b, sent, off) := single_buf main rg off b in
      let '(out, off) := single_loop main rg off l in
      ((if sent then [b] else []) ++ out, off)
  end.

Definition ngx_http_range_singlepart_body (main : bool) (c : ctx) (rg : range) (l : list buf) : list buf * ctx :=
  let '(out, off) := single_loop main rg (offset c) l in
  (out, mk_ctx off (boundary_header c) (ranges c)).

(** [ngx_http_range_test_overlapped]; [None] is NGX_ERROR. *)
Definition ngx_http_range_test_overlapped (c : ctx) (b : buf) : option ctx :=
  if negb (offset c =? 0) then None
  else
    let s := offset c in
    let l := offset c + ngx_buf_size b in
    if negb (last_buf b) && existsb (fun rg => (s >? start rg) || (l <? end_ rg)) (ranges c) then None
    else Some (mk_ctx (ngx_buf_size b) (boundary_header c) (ranges c)).

(** A piece of the multipart body: text of the filter, or a buffer. *)
Inductive piece := Text (t : list Z) | Data (b : buf).

Definition data_buf (b : buf) (rg : range) : buf :=
  mk_buf (in_file b)
    (if in_file b then file_pos b + start rg else 0) (if in_file b then file_pos b + end_ rg else 0)
    (in_memory b)
    (if in_memory b then pos b + start rg else 0) (if in_memory b then pos b + end_ rg else 0)
    false false false false.

Definition ngx_http_range_multipart_body `{P : Platform} (c : ctx) (b : buf) : list piece :=
  flat_map (fun rg => [Text (boundary_header c); Text (content_range rg); Data (data_buf b rg)]) (ranges c)
  ++ [Text (firstn (4 + NGX_ATOMIC_T_LEN) (boundary_header c) ++ bs "--" ++ CRLF)].

(** What goes to the next filter; [None] is NGX_ERROR. *)
Definition ngx_http_range_body_filter `{P : Platform} (main : bool) (c : option ctx) (l : list buf)
    : option (list piece * option ctx) :=
  match l, c with
  | [], _ | _, None => Some (map Data l, c)
  | b :: _, Some c =>
      match ranges c with
      | [rg] => let '(out, c) := ngx_http_range_singlepart_body main c rg l in Some (map Data out, Some c)
      | _ =>
          if ngx_buf_special b then Some (map Data l, Some c)
          else
            match ngx_http_range_test_overlapped c b with
            | None => None
            | Some c => Some (ngx_http_range_multipart_body c b, Some c)
            end
      end
  end.

(** ** The grammar *)

Inductive spec := From (a : Z) | Between (a b : Z) | Suffix (n : Z).

Definition spaces (l : list Z) : Prop := Forall (fun c => c = chr " ") l.

(** A numeral that fits [off_t]. *)
Definition numeral `{Platform} (l : list Z) : Prop :=
  l <> [] /\ forallb is_digit l = true /\ dec_value l <= NGX_MAX_OFF_T_VALUE.

Inductive item_of `{Platform} : list Z -> spec -> Prop :=
  | item_between s1 d1 s2 s3 d2 s4 :
      spaces s1 -> numeral d1 -> spaces s2 -> spaces s3 -> numeral d2 -> spaces s4 ->
      item_of (s1 ++ d1 ++ s2 ++ chr "-" :: s3 ++ d2 ++ s4) (Between (dec_value d1) (dec_value d2))
  | item_from s1 d1 s2 s3 :
      spaces s1 -> numeral d1 -> spaces s2 -> spaces s3 ->
      item_of (s1 ++ d1 ++ s2 ++ chr "-" :: s3) (From (dec_value d1))
  | item_suffix s1 d s2 :
      spaces s1 -> numeral d -> spaces s2 ->
      item_of (s1 ++ chr "-" :: d ++ s2) (Suffix (dec_value d)).

(** A list of ranges, separated by commas. *)
Inductive items_of `{Platform} : list Z -> list spec -> Prop :=
  | items_one it sp : item_of it sp -> items_of it [sp]
  | items_cons it sp v sps : item_of it sp -> items_of v sps -> items_of (it ++ chr "," :: v) (sp :: sps).

(** The bytes of a range, from the first to the one after the last. *)
Definition resolve (cl : Z) (sp : spec) : Z * Z :=
  match sp with
  | From a => (a, cl)
  | Between a b => (a, Z.min (b + 1) cl)
  | Suffix n => (Z.max 0 (cl - n), cl)
  end.

Definition satisfiable (r : Z * Z) : bool := fst r <? snd r.

(** The ranges that have bytes in the content. *)
Definition selected (cl : Z) (sps : list spec) : list (Z * Z) :=
  filter satisfiable (map (resolve cl) sps).

Definition total (l : list (Z * Z)) : Z := fold_right (fun r n => snd r - fst r + n) 0 l.

Definition bounds (r : range) : Z * Z := (start r, end_ r).

Section ParseProofs.
Context `{P : Platform}.

Local Abbreviation MAX := NGX_MAX_OFF_T_VALUE.

Lemma off_ok z : - MAX - 1 <= z <= MAX -> off z = ret z.
Proof. intros H. unfold off. replace (_ && _) with true by lia. reflexivity. Qed.

Lemma skip_spaces_app s c r : spaces s -> c <> chr " " -> skip_spaces (s ++ c :: r) = ret (c :: r).
Proof.
  intros Hs Hc. induction Hs as [|x s -> Hs IH]; cbn [app skip_spaces].
  - replace (c =? chr " ") with false by lia. reflexivity.
  - exact IH.
Qed.

Lemma skip_spaces_inv p p' : skip_spaces p = ret p' ->
  exists s c r, p = s ++ c :: r /\ p' = c :: r /\ spaces s /\ c <> chr " ".
Proof.
  induction p as [|c p IH]; cbn [skip_spaces]; [discriminate|].
  destruct (Z.eqb_spec c (chr " ")) as [->|Hc].
  - intros H. destruct (IH H) as (s & d & r & -> & -> & Hs & Hd).
    exists (chr " " :: s), d, r. repeat split; [constructor; [reflexivity|exact Hs]|exact Hd].
  - intros [= <-]. exists [], c, p. repeat split; [constructor|exact Hc].
Qed.

Lemma max_off_10 : MAX = 10 * (MAX / 10) + 7 /\ MAX mod 10 = 7.
Proof. split; [apply max_value_10|apply max_value_mod10]. Qed.

Lemma read_number_app v d c r : 0 <= v -> forallb is_digit d = true -> dec_from v d <= MAX ->
  is_digit c = false -> read_number v (d ++ c :: r) = ret (dec_from v d, c :: r).
Proof.
  intros Hv Hd Hm Hc. destruct max_off_10 as [E1 E2].
  revert v Hv Hm. induction d as [|x d IH]; intros v Hv Hm; cbn [app read_number dec_from] in *.
  - unfold is_digit in Hc. replace ((c >=? chr "0") && (c <=? chr "9")) with false by lia. reflexivity.
  - cbn [forallb] in Hd. apply andb_prop in Hd as [Hx Hd]. unfold is_digit in Hx.
    replace ((x >=? chr "0") && (x <=? chr "9")) with true by lia.
    pose proof (dec_from_ge (v * 10 + (x - 48)) d ltac:(lia) Hd).
    destruct ((v >=? MAX / 10) && _) eqn:E; [exfalso; lia|].
    rewrite off_ok by lia. cbn [bind ret]. apply IH; [exact Hd|lia|exact Hm].
Qed.

Lemma read_number_inv v p n p' : 0 <= v <= MAX -> read_number v p = ret (n, p') ->
  exists d c r, p = d ++ c :: r /\ p' = c :: r /\ forallb is_digit d = true /\ is_digit c = false /\
    n = dec_from v d /\ dec_from v d <= MAX.
Proof.
  revert v. induction p as [|x p IH]; intros v Hv H; cbn [read_number] in H; [discriminate|].
  destruct ((x >=? chr "0") && (x <=? chr "9")) eqn:Hx.
  - destruct max_off_10 as [E1 E2]. destruct ((v >=? MAX / 10) && _) eqn:E; [discriminate|]. rewrite off_ok in H by lia. cbn [bind ret] in H.
    destruct (IH (v * 10 + (x - 48)) ltac:(lia) H) as (d & c & r & -> & -> & Hd & Hc & -> & Hm).
    exists (x :: d), c, r. repeat split; auto. cbn [forallb]. rewrite Hd. unfold is_digit. lia.
  - injection H as <- <-. exists [], x, p. repeat split; [unfold is_digit; lia|cbn; lia].
Qed.

Lemma deref_cons c r : deref (c :: r) = ret c.
Proof. reflexivity. Qed.

Lemma digit_at_ok c r : is_digit c = true -> digit_at (c :: r) = ret tt.
Proof. intros H. unfold digit_at, is_digit in *. cbn [deref bind ret]. destruct (_ || _) eqn:E; [exfalso; lia|reflexivity]. Qed.

Lemma digit_at_inv p : digit_at p = ret tt -> exists c r, p = c :: r /\ is_digit c = true.
Proof.
  unfold digit_at. destruct p as [|c r]; cbn [deref bind ret]; [discriminate|]. unfold is_digit.
  destruct (_ || _) eqn:E; [discriminate|]. intros _. exists c, r. split; [reflexivity|lia].
Qed.

(** The numeral at [p], read whole. *)
Lemma numeral_at d c r : numeral d -> is_digit c = false ->
  digit_at (d ++ c :: r) = ret tt /\ read_number 0 (d ++ c :: r) = ret (dec_value d, c :: r).
Proof.
  intros (Hne & Hd & Hm) Hc. split.
  - destruct d as [|x d]; [contradiction|]. cbn [forallb] in Hd. apply digit_at_ok. apply andb_prop in Hd. tauto.
  - apply read_number_app; [lia|exact Hd|exact Hm|exact Hc].
Qed.

Lemma numeral_inv p n p' : digit_at p = ret tt -> read_number 0 p = ret (n, p') ->
  exists d c r, p = d ++ c :: r /\ p' = c :: r /\ numeral d /\ is_digit c = false /\ n = dec_value d.
Proof.
  intros Hp Hn. pose proof max_off_10 as [E1 _]. pose proof (max_value_nonneg off_t_size) as Hx.
  destruct (read_number_inv 0 p n p') as (d & c & r & -> & -> & Hd & Hc & -> & Hm); [unfold MAX; lia|exact Hn|].
  exists d, c, r. repeat split; auto. intros ->. destruct (digit_at_inv _ Hp) as (x & r' & [= <- _] & Hx'). congruence.
Qed.

Lemma bind_inv {A B} (m : M A) (f : A -> M B) y : bind m f = ret y -> exists x, m = ret x /\ f x = ret y.
Proof. destruct m as [[rc|x]|]; cbn [bind]; try discriminate. intros H. exists x. auto. Qed.

Definition separator (c : Z) : Prop := c = chr "," \/ c = 0.

Lemma separator_plain c : separator c -> c <> chr " " /\ is_digit c = false /\ c <> chr "-".
Proof. intros [->| ->]; repeat split; discriminate. Qed.

Lemma separator_test c : negb (c =? chr ",") && negb (c =? 0) = false <-> separator c.
Proof. unfold separator. lia. Qed.

(** What [read_last] makes of the second number. *)
Definition last_of (cl start : Z) (suffix : bool) (n : Z) : Z * Z :=
  if suffix then (Z.max 0 (cl - n), cl) else (start, Z.min (n + 1) cl).

Lemma read_last_tail cl (start : Z) (suffix : bool) n : 0 <= cl <= MAX -> 0 <= n <= MAX ->
  bind (if suffix then s <- (if n <? cl then off (cl - n) else ret 0); e <- off (cl - 1); ret (s, e)
        else ret (start, n))
       (fun se => let '(start, e) := se in e <- (if e >=? cl then ret cl else off (e + 1)); ret (start, e))
  = ret (last_of cl start suffix n).
Proof.
  intros Hc Hn. unfold last_of. destruct suffix.
  - rewrite (off_ok (cl - 1)) by lia.
    replace (if n <? cl then off (cl - n) else ret 0) with (ret (Z.max 0 (cl - n)) : M Z).
    + cbn [bind ret]. replace (cl - 1 >=? cl) with false by lia. rewrite off_ok by lia. cbn [bind ret].
      unfold ret. do 3 f_equal. lia.
    + destruct (Z.ltb_spec n cl); [rewrite off_ok by lia|]; unfold ret; do 2 f_equal; lia.
  - cbn [bind ret]. destruct (n >=? cl) eqn:E; [|rewrite off_ok by lia]; cbn [bind ret]; unfold ret; do 3 f_equal; lia.
Qed.

Lemma read_last_eq cl start suffix p : 0 <= cl <= MAX ->
  read_last cl start suffix p =
  bind (digit_at p) (fun _ => bind (read_number 0 p) (fun ep =>
    bind (skip_spaces (snd ep)) (fun p' => bind (deref p') (fun c =>
      if negb (c =? chr ",") && negb (c =? 0) then return_ NGX_HTTP_RANGE_NOT_SATISFIABLE
      else ret (last_of cl start suffix (fst ep), p'))))).
Proof.
  intros Hc. unfold read_last. destruct (digit_at p) as [[?|[]]|] eqn:Ed; cbn [bind]; try reflexivity.
  destruct (read_number 0 p) as [[?|[e p1]]|] eqn:En; cbn [bind fst snd]; try reflexivity.
  destruct (skip_spaces p1) as [[?|p2]|]; cbn [bind]; try reflexivity.
  destruct (deref p2) as [[?|c]|]; cbn [bind]; try reflexivity.
  destruct (_ && _); [reflexivity|].
  destruct (numeral_inv _ _ _ Ed En) as (d & x & r & _ & _ & (Hne & Hd & Hm) & _ & ->).
  pose proof (read_last_tail cl start suffix (dec_value d) Hc ltac:(pose proof (dec_value_nonneg d Hd); lia)) as HT.
  destruct (if suffix then _ else _) as [[?|[s1 e1]]|]; cbn [bind] in *; try discriminate.
  destruct (if e1 >=? cl then _ else _) as [[?|e2]|]; cbn [bind ret] in *; try discriminate.
  injection HT as ->. reflexivity.
Qed.

Lemma read_last_complete cl start suffix d s c r : 0 <= cl <= MAX -> numeral d -> spaces s -> separator c ->
  read_last cl start suffix (d ++ s ++ c :: r) = ret (last_of cl start suffix (dec_value d), c :: r).
Proof.
  intros Hcl Hd Hs Hc. destruct (separator_plain c Hc) as (Hc1 & Hc2 & _).
  assert (exists x r', s ++ c :: r = x :: r' /\ is_digit x = false) as (x & r' & E & Hx).
  { destruct s as [|y s]; [exists c, r; auto|]. inversion Hs; subst. exists (chr " "), (s ++ c :: r). auto. }
  rewrite read_last_eq by exact Hcl. rewrite E. destruct (numeral_at d x r' Hd Hx) as [-> ->]. cbn [bind ret fst snd].
  rewrite <-E, skip_spaces_app by assumption. cbn [bind ret deref]. rewrite (proj2 (separator_test c) Hc). reflexivity.
Qed.

Lemma read_last_sound cl start suffix p v : 0 <= cl <= MAX -> read_last cl start suffix p = ret v ->
  exists d s c r, p = d ++ s ++ c :: r /\ numeral d /\ spaces s /\ separator c /\
    v = (last_of cl start suffix (dec_value d), c :: r).
Proof.
  intros Hcl H. rewrite read_last_eq in H by exact Hcl.
  apply bind_inv in H as ([] & Hd & H). apply bind_inv in H as ([n p1] & Hn & H). cbn [fst snd] in H.
  apply bind_inv in H as (p2 & Hs & H). apply bind_inv in H as (c & Hc & H).
  destruct (numeral_inv _ _ _ Hd Hn) as (d & x & r & -> & -> & Hnum & _ & ->).
  apply skip_spaces_inv in Hs as (s & y & r' & E & -> & Hsp & _). injection Hc as <-.
  destruct (_ && _) eqn:Et; [discriminate|]. apply separator_test in Et. injection H as <-.
  exists d, s, y, r'. rewrite E. auto.
Qed.

(** A numeral starts with a digit. *)
Lemma numeral_head d t : numeral d -> exists y t', d ++ t = y :: t' /\ is_digit y = true.
Proof.
  intros (Hne & Hd & _). destruct d as [|y d]; [contradiction|]. exists y, (d ++ t).
  cbn [forallb] in Hd. apply andb_prop in Hd. split; [reflexivity|tauto].
Qed.

Lemma spaces_head s c r : spaces s -> is_digit c = false -> exists y t, s ++ c :: r = y :: t /\ is_digit y = false.
Proof.
  intros Hs Hc. destruct s as [|y s]; [exists c, r; auto|]. inversion Hs; subst. exists (chr " "), (s ++ c :: r). auto.
Qed.

Lemma digit_plain y : is_digit y = true -> y <> chr " " /\ y <> chr "-" /\ ((y =? chr ",") || (y =? 0)) = false.
Proof. unfold is_digit. lia. Qed.

(** Up to the hyphen. *)
Lemma read_first_front cl d s2 r : numeral d -> spaces s2 ->
  read_first cl (d ++ s2 ++ chr "-" :: r) =
  (p <- skip_spaces r; c <- deref p;
   if (c =? chr ",") || (c =? 0) then ret (dec_value d, cl, p) else read_last cl (dec_value d) false p).
Proof.
  intros Hd Hs. unfold read_first. destruct (spaces_head s2 (chr "-") r Hs eq_refl) as (y & t & E & Hy).
  rewrite E. destruct (numeral_at d y t Hd Hy) as [-> ->]. cbn [bind ret].
  rewrite <-E, skip_spaces_app by (assumption || discriminate). reflexivity.
Qed.

Lemma read_range_complete cl it sp c r : 0 <= cl <= MAX -> item_of it sp -> separator c ->
  read_range cl (it ++ c :: r) = ret (resolve cl sp, c :: r).
Proof.
  intros Hcl Hit Hc. destruct (separator_plain c Hc) as (Hc1 & Hc2 & Hc3). unfold read_range.
  destruct Hit as [s1 d1 s2 s3 d2 s4 H1 N1 H2 H3 N2 H4|s1 d1 s2 s3 H1 N1 H2 H3|s1 d s2 H1 N1 H2];
    repeat (rewrite <-app_assoc; cbn [app]).
  - destruct (numeral_head d1 (s2 ++ chr "-" :: s3 ++ d2 ++ s4 ++ c :: r) N1) as (y & t & E & Hy).
    destruct (digit_plain y Hy) as (Hy1 & Hy2 & _).
    rewrite E, skip_spaces_app by assumption. cbn [bind ret deref].
    replace (y =? chr "-") with false by lia. cbn [negb]. rewrite <-E, read_first_front by assumption.
    destruct (numeral_head d2 (s4 ++ c :: r) N2) as (y' & t' & E' & Hy').
    destruct (digit_plain y' Hy') as (Hy1' & _ & Hy2'). rewrite E', skip_spaces_app by assumption. cbn [bind ret deref].
    rewrite Hy2', <-E', read_last_complete by assumption. reflexivity.
  - destruct (numeral_head d1 (s2 ++ chr "-" :: s3 ++ c :: r) N1) as (y & t & E & Hy).
    destruct (digit_plain y Hy) as (Hy1 & Hy2 & _).
    rewrite E, skip_spaces_app by assumption. cbn [bind ret deref].
    replace (y =? chr "-") with false by lia. cbn [negb]. rewrite <-E, read_first_front by assumption.
    rewrite skip_spaces_app by assumption. cbn [bind ret deref].
    replace ((c =? chr ",") || (c =? 0)) with true by (unfold separator in Hc; lia). reflexivity.
  - rewrite skip_spaces_app by (assumption || discriminate). cbn [bind ret deref].
    apply read_last_complete; assumption.
Qed.

Lemma read_range_sound cl p v : 0 <= cl <= MAX -> read_range cl p = ret v ->
  exists it sp c r, p = it ++ c :: r /\ item_of it sp /\ separator c /\ v = (resolve cl sp, c :: r).
Proof.
  intros Hcl H. unfold read_range in H. apply bind_inv in H as (p1 & Hs & H). apply bind_inv in H as (c & Hc & H).
  apply skip_spaces_inv in Hs as (s1 & y & r1 & -> & -> & Hs1 & Hy). injection Hc as <-.
  destruct (Z.eqb_spec y (chr "-")) as [->|Hy']; cbn [negb] in H.
  - apply read_last_sound in H as (d & s & c & r & E & Hd & Hs & Hc & ->); [|exact Hcl]. cbn [tl] in E. subst r1.
    exists (s1 ++ chr "-" :: d ++ s), (Suffix (dec_value d)), c, r.
    split; [repeat (rewrite <-app_assoc; cbn [app]); reflexivity|]. split; [constructor; assumption|auto].
  - unfold read_first in H. apply bind_inv in H as ([] & Hd & H). apply bind_inv in H as ([n p2] & Hn & H).
    apply bind_inv in H as (p3 & Hs2 & H). apply bind_inv in H as (c & Hc & H).
    destruct (numeral_inv _ _ _ Hd Hn) as (d1 & x & r2 & E1 & -> & Hd1 & _ & ->).
    apply skip_spaces_inv in Hs2 as (s2 & y2 & r3 & E2 & -> & Hs2 & _). injection Hc as <-.
    destruct (Z.eqb_spec y2 (chr "-")) as [->|]; cbn [negb] in H; [|discriminate].
    apply bind_inv in H as (p4 & Hs3 & H). apply bind_inv in H as (c & Hc & H). cbn [tl] in Hs3.
    apply skip_spaces_inv in Hs3 as (s3 & y3 & r4 & -> & -> & Hs3 & _). injection Hc as <-.
    rewrite E1, E2. destruct ((y3 =? chr ",") || (y3 =? 0)) eqn:Et.
    + injection H as <-. exists (s1 ++ d1 ++ s2 ++ chr "-" :: s3), (From (dec_value d1)), y3, r4.
      split; [repeat (rewrite <-app_assoc; cbn [app]); reflexivity|]. split; [constructor; assumption|].
      split; [unfold separator; lia|reflexivity].
    + apply read_last_sound in H as (d & s & c & r & E & Hd2 & Hs & Hc & ->); [|exact Hcl]. rewrite E.
      exists (s1 ++ d1 ++ s2 ++ chr "-" :: s3 ++ d ++ s), (Between (dec_value d1) (dec_value d)), c, r.
      split; [repeat (rewrite <-app_assoc; cbn [app]); reflexivity|]. split; [constructor; assumption|auto].
Qed.

Lemma spaces_in c s : spaces s -> In c s -> c = chr " ".
Proof. unfold spaces. rewrite Forall_forall. auto. Qed.

Lemma numeral_in c d : numeral d -> In c d -> is_digit c = true.
Proof. intros (_ & Hd & _). rewrite forallb_forall in Hd. auto. Qed.

Lemma item_plain it sp c : item_of it sp -> In c it -> c <> 0 /\ c <> chr ",".
Proof.
  intros Hit Hc. enough (c = chr " " \/ is_digit c = true \/ c = chr "-") as [->|[Hd| ->]]
    by (try (split; discriminate); unfold is_digit in Hd; lia).
  destruct Hit; repeat (rewrite in_app_iff in Hc; cbn [In] in Hc);
    intuition (eauto using spaces_in, numeral_in).
Qed.

(** The parser does not go past the NUL. *)
Lemma skip_spaces_total p : In 0 p -> exists p', skip_spaces p = ret p' /\ In 0 p'.
Proof.
  induction p as [|c p IH]; intros H; [contradiction|]. cbn [skip_spaces].
  destruct (Z.eqb_spec c (chr " ")) as [->|Hc]; [|eauto]. destruct H as [H|H]; [discriminate|auto].
Qed.

Lemma read_number_total p v : In 0 p -> 0 <= v <= MAX ->
  read_number v p = return_ NGX_HTTP_RANGE_NOT_SATISFIABLE \/ exists n p', read_number v p = ret (n, p') /\ In 0 p'.
Proof.
  destruct max_off_10 as [E1 E2].
  revert v. induction p as [|c p IH]; intros v H Hv; [contradiction|]. cbn [read_number].
  destruct ((c >=? chr "0") && (c <=? chr "9")) eqn:Hc; [|right; eauto].
  destruct ((v >=? MAX / 10) && _) eqn:E; [left; reflexivity|]. rewrite off_ok by lia. cbn [bind ret].
  destruct H as [H|H]; [exfalso; lia|]. apply IH; [exact H|lia].
Qed.

Lemma digit_at_total p : In 0 p -> digit_at p = return_ NGX_HTTP_RANGE_NOT_SATISFIABLE \/ digit_at p = ret tt.
Proof. destruct p as [|c p]; [contradiction|]. intros _. unfold digit_at. cbn [deref bind ret]. destruct (_ || _); auto. Qed.

Lemma max_off_nonneg : 0 <= 0 <= MAX.
Proof. pose proof (max_value_nonneg off_t_size). unfold MAX. lia. Qed.

Lemma read_last_total cl start suffix p : 0 <= cl <= MAX -> In 0 p -> read_last cl start suffix p <> None.
Proof.
  intros Hcl Hp. rewrite read_last_eq by exact Hcl.
  destruct (digit_at_total p Hp) as [->| ->]; cbn [bind ret return_]; [discriminate|].
  destruct (read_number_total p 0 Hp max_off_nonneg) as [->|(n & p1 & -> & Hp1)]; cbn [bind ret return_ fst snd]; [discriminate|].
  destruct (skip_spaces_total p1 Hp1) as (p2 & -> & Hp2). cbn [bind ret].
  destruct p2 as [|c p2]; [contradiction|]. cbn [deref bind ret]. destruct (_ && _); discriminate.
Qed.

Lemma read_range_total cl p : 0 <= cl <= MAX -> In 0 p -> read_range cl p <> None.
Proof.
  intros Hcl Hp. unfold read_range. destruct (skip_spaces_total p Hp) as (p1 & -> & Hp1). cbn [bind ret].
  destruct p1 as [|c p1]; [contradiction|]. cbn [deref bind ret].
  destruct (Z.eqb_spec c (chr "-")) as [->|Hc]; cbn [negb].
  - apply read_last_total; [exact Hcl|]. destruct Hp1 as [H|H]; [discriminate|exact H].
  - unfold read_first. destruct (digit_at_total _ Hp1) as [->| ->]; cbn [bind ret return_]; [discriminate|].
    destruct (read_number_total _ 0 Hp1 max_off_nonneg) as [->|(n & p2 & -> & Hp2)]; cbn [bind ret return_]; [discriminate|].
    destruct (skip_spaces_total p2 Hp2) as (p3 & -> & Hp3). cbn [bind ret].
    destruct p3 as [|c3 p3]; [contradiction|]. cbn [deref bind ret].
    destruct (Z.eqb_spec c3 (chr "-")) as [->|]; cbn [negb tl]; [|discriminate].
    destruct Hp3 as [H|H]; [discriminate|]. destruct (skip_spaces_total p3 H) as (p4 & -> & Hp4). cbn [bind ret].
    destruct p4 as [|c4 p4]; [contradiction|]. cbn [deref bind ret]. destruct (_ || _); [discriminate|].
    apply read_last_total; assumption.
Qed.

(** The readers of one range only return 416. *)
Definition code416 {A} (m : M A) : Prop := forall rc, m = return_ rc -> rc = NGX_HTTP_RANGE_NOT_SATISFIABLE.

Lemma code416_ret {A} (x : A) : code416 (ret x).
Proof. intros rc [=]. Qed.

Lemma code416_return {A} : code416 (return_ NGX_HTTP_RANGE_NOT_SATISFIABLE : M A).
Proof. intros rc [= <-]. reflexivity. Qed.

Lemma code416_bind {A B} (m : M A) (k : A -> M B) : code416 m -> (forall x, code416 (k x)) -> code416 (bind m k).
Proof. intros Hm Hk rc. destruct m as [[c|x]|]; cbn [bind]; [|apply Hk|discriminate]. intros [= <-]. apply Hm. reflexivity. Qed.

Lemma code416_deref p : code416 (deref p).
Proof. destruct p; intros rc [=]. Qed.

Lemma code416_off z : code416 (off z).
Proof. unfold off. destruct (_ && _); intros rc [=]. Qed.

Lemma code416_spaces p : code416 (skip_spaces p).
Proof. induction p as [|c p IH]; cbn [skip_spaces]; [intros rc [=]|]. destruct (_ =? _); [exact IH|apply code416_ret]. Qed.

Lemma code416_number p : forall v, code416 (read_number v p).
Proof.
  induction p as [|c p IH]; intros v; cbn [read_number]; [intros rc [=]|].
  destruct (_ && _); [|apply code416_ret]. destruct (_ && _); [apply code416_return|].
  apply code416_bind; [apply code416_off|]. intros. apply IH.
Qed.

Ltac code416 := repeat first
  [ apply code416_ret | apply code416_return | apply code416_deref | apply code416_off
  | apply code416_spaces | apply code416_number | apply code416_bind; [|intros ?]
  | match goal with
    | |- code416 (match ?x with _ => _ end) => destruct x
    | |- code416 (let _ := ?x in _) => destruct x
    end ].

Lemma read_range_code cl p : code416 (read_range cl p).
Proof. unfold read_range, read_first, read_last, digit_at. code416. Qed.

(** ** The loop *)

Definition plain_range (r : Z * Z) : range := mk_range (fst r) (snd r) [].

(** What the loop adds to what it has. *)
Definition accepted (cl : Z) (ranges : nat) (size : Z) (sps : list spec) : Prop :=
  (length (selected cl sps) <= ranges)%nat /\ size + total (selected cl sps) <= MAX /\
  Forall (fun sp => satisfiable (resolve cl sp) = true \/ fst (resolve cl sp) <> 0) sps.

Lemma resolve_bounds cl it sp : 0 <= cl -> item_of it sp -> 0 <= fst (resolve cl sp) /\ snd (resolve cl sp) <= cl.
Proof.
  intros Hcl Hit. destruct Hit as [s1 d1 s2 s3 d2 s4 _ (_ & N1 & _) _ _ _ _|s1 d1 s2 s3 _ (_ & N1 & _) _ _|]; cbn;
    try (apply dec_value_nonneg in N1); lia.
Qed.

Lemma selected_cons cl sp sps : selected cl (sp :: sps) =
  if satisfiable (resolve cl sp) then resolve cl sp :: selected cl sps else selected cl sps.
Proof. reflexivity. Qed.

Lemma total_cons r l : total (r :: l) = snd r - fst r + total l.
Proof. reflexivity. Qed.

Lemma total_nonneg cl sps : 0 <= total (selected cl sps).
Proof.
  induction sps as [|sp sps IH]; [cbn; lia|]. rewrite selected_cons.
  destruct (satisfiable (resolve cl sp)) eqn:E; [|exact IH]. rewrite total_cons. unfold satisfiable in E. lia.
Qed.

(** One iteration, the range being [sp] and what follows it [c :: r]. *)
Lemma range_loop_item f cl ranges size acc it sp c r :
  0 <= cl <= MAX -> 0 <= size <= MAX -> item_of it sp -> separator c ->
  range_loop (S f) cl ranges size acc (it ++ c :: r) =
  let next ranges size acc :=
    if c =? chr "," then range_loop f cl ranges size acc r else ret (size, acc) in
  let '(s, e) := resolve cl sp in
  if s <? e then
    if size + (e - s) <=? MAX then
      match ranges with O => return_ NGX_DECLINED | S ranges => next ranges (size + (e - s)) (mk_range s e [] :: acc) end
    else return_ NGX_HTTP_RANGE_NOT_SATISFIABLE
  else if s =? 0 then return_ NGX_DECLINED else next ranges size acc.
Proof.
  intros Hcl Hsz Hit Hc. cbn [range_loop]. rewrite (read_range_complete _ _ sp) by assumption.
  pose proof (resolve_bounds cl it sp ltac:(lia) Hit) as Hb. destruct (resolve cl sp) as [s e].
  cbn [fst snd] in Hb. cbn [bind ret deref tl].
  destruct (s <? e) eqn:E; [|reflexivity]. rewrite off_ok by lia. cbn [bind ret]. rewrite off_ok by lia. cbn [bind ret].
  destruct (size + (e - s) <=? MAX) eqn:Es.
  - replace (size >? MAX - (e - s)) with false by lia. rewrite off_ok by lia. reflexivity.
  - replace (size >? MAX - (e - s)) with true by lia. reflexivity.
Qed.

Lemma range_loop_complete cl v sps r : 0 <= cl <= MAX -> items_of v sps ->
  forall f ranges size acc, (length v < f)%nat -> 0 <= size <= MAX -> accepted cl ranges size sps ->
  range_loop f cl ranges size acc (v ++ 0 :: r) =
  ret (size + total (selected cl sps), rev (map plain_range (selected cl sps)) ++ acc).
Proof.
  intros Hcl H. induction H as [it sp Hit|it sp v sps Hit Hv IH]; intros [|f] ranges size acc Hf Hsz (A1 & A2 & A3);
    try (exfalso; lia).
  - rewrite (range_loop_item _ _ _ _ _ _ sp) by (assumption || (right; reflexivity)). cbv zeta.
    inversion A3 as [|? ? A _]; subst. rewrite selected_cons in *. unfold satisfiable in *.
    destruct (resolve cl sp) as [s e]. cbn [fst snd] in *. destruct (s <? e) eqn:E.
    + rewrite total_cons in *. cbn in A1, A2 |- *. replace (size + (e - s) <=? MAX) with true by lia.
      destruct ranges; [exfalso; lia|]. do 3 f_equal. lia.
    + destruct A as [A|A]; [discriminate|]. replace (s =? 0) with false by lia. cbn. do 2 f_equal. lia.
  - rewrite <-app_assoc. cbn [app]. rewrite length_app in Hf. cbn [length] in Hf.
    rewrite (range_loop_item _ _ _ _ _ _ sp) by (assumption || (left; reflexivity)). cbv zeta.
    rewrite Z.eqb_refl. inversion A3 as [|? ? A A']; subst. rewrite selected_cons in *. unfold satisfiable in A, A1, A2 |- *.
    pose proof (total_nonneg cl sps) as Ht. destruct (resolve cl sp) as [s e]. cbn [fst snd] in *.
    destruct (s <? e) eqn:E.
    + rewrite total_cons in *. cbn [fst snd length] in *. replace (size + (e - s) <=? MAX) with true by lia.
      destruct ranges as [|ranges]; [exfalso; lia|]. rewrite IH; [|lia|lia|].
      * cbn [map rev]. rewrite <-app_assoc. cbn [app]. unfold plain_range at 2. cbn [fst snd]. do 2 f_equal. lia.
      * repeat split; [lia|lia|exact A'].
    + destruct A as [A|A]; [discriminate|]. replace (s =? 0) with false by lia. apply IH; [lia|lia|]. repeat split; assumption.
Qed.

(** Every iteration that goes on has read a range. *)
Lemma range_loop_cases f cl ranges size acc p : 0 <= cl <= MAX -> In 0 p ->
  (exists it sp c r, p = it ++ c :: r /\ item_of it sp /\ separator c) \/
  exists rc, range_loop (S f) cl ranges size acc p = return_ rc.
Proof.
  intros Hcl Hp. destruct (read_range cl p) as [[rc|v]|] eqn:E.
  - right. exists rc. cbn [range_loop]. rewrite E. reflexivity.
  - left. destruct (read_range_sound cl p v Hcl E) as (it & sp & c & r & H). exists it, sp, c, r. tauto.
  - exfalso. exact (read_range_total cl p Hcl Hp E).
Qed.

Lemma after_item it sp c r : item_of it sp -> In 0 (it ++ c :: r) -> c = 0 \/ In 0 r.
Proof.
  intros Hit H. apply in_app_iff in H as [H|[H|H]]; [|auto..]. destruct (item_plain it sp 0 Hit H). contradiction.
Qed.

Lemma range_loop_total f cl : 0 <= cl <= MAX ->
  forall ranges size acc p, 0 <= size <= MAX -> In 0 p -> (length p < f)%nat ->
  range_loop f cl ranges size acc p <> None.
Proof.
  intros Hcl. induction f as [|f IH]; intros ranges size acc p Hsz Hp Hf; [lia|].
  destruct (range_loop_cases f cl ranges size acc p Hcl Hp) as [(it & sp & c & r & -> & Hit & Hc)|(rc & ->)]; [|discriminate].
  rewrite (range_loop_item _ _ _ _ _ _ sp) by assumption. cbv zeta.
  rewrite length_app in Hf. cbn [length] in Hf.
  assert (forall ranges size acc, 0 <= size <= MAX ->
    (if c =? chr "," then range_loop f cl ranges size acc r else ret (size, acc)) <> None) as Hn.
  { intros ranges' size' acc' Hsz'. destruct (Z.eqb_spec c (chr ",")) as [->|]; [|discriminate].
    apply IH; [exact Hsz'| |lia]. destruct (after_item _ _ _ _ Hit Hp); [discriminate|assumption]. }
  destruct (resolve cl sp) as [s e]. destruct (s <? e) eqn:E.
  - destruct (size + (e - s) <=? MAX) eqn:Em; [|discriminate]. destruct ranges; [discriminate|]. apply Hn. lia.
  - destruct (s =? 0); [discriminate|]. apply Hn. exact Hsz.
Qed.

Lemma range_loop_sound f cl : 0 <= cl <= MAX ->
  forall ranges size acc p size' acc', 0 <= size <= MAX -> In 0 p ->
  range_loop f cl ranges size acc p = ret (size', acc') ->
  exists v sps r, p = v ++ 0 :: r /\ items_of v sps /\ accepted cl ranges size sps.
Proof.
  intros Hcl. induction f as [|f IH]; intros ranges size acc p size' acc' Hsz Hp H; [discriminate|].
  destruct (range_loop_cases f cl ranges size acc p Hcl Hp) as [(it & sp & c & r & -> & Hit & Hc)|(rc & E)];
    [|rewrite E in H; discriminate].
  rewrite (range_loop_item _ _ _ _ _ _ sp) in H by assumption. cbv zeta in H.
  assert (exists ranges1 size1 acc1, 0 <= size1 <= MAX /\
    (if c =? chr "," then range_loop f cl ranges1 size1 acc1 r else ret (size1, acc1)) = ret (size', acc') /\
    (forall sps, accepted cl ranges1 size1 sps -> accepted cl ranges size (sp :: sps)))
    as (ranges1 & size1 & acc1 & Hsz1 & H1 & Hacc).
  { unfold accepted. setoid_rewrite selected_cons. unfold satisfiable in *.
    destruct (resolve cl sp) as [s e] eqn:Er. cbn [fst snd]. destruct (s <? e) eqn:E.
    - destruct (size + (e - s) <=? MAX) eqn:Em; [|discriminate]. destruct ranges as [|ranges]; [discriminate|].
      exists ranges, (size + (e - s)), (mk_range s e [] :: acc). split; [lia|]. split; [exact H|].
      intros sps (A1 & A2 & A3). rewrite total_cons. cbn [length fst snd]. repeat split; [lia|lia|].
      constructor; [rewrite Er; cbn; auto|exact A3].
    - destruct (s =? 0) eqn:Es; [discriminate|]. exists ranges, size, acc. split; [exact Hsz|]. split; [exact H|].
      intros sps (A1 & A2 & A3). repeat split; [exact A1|exact A2|]. constructor; [rewrite Er; cbn; right; lia|exact A3]. }
  destruct (Z.eqb_spec c (chr ",")) as [->|Hne].
  - destruct (after_item _ _ _ _ Hit Hp) as [?|Hr]; [discriminate|].
    destruct (IH _ _ _ _ _ _ Hsz1 Hr H1) as (v & sps & r' & -> & Hv & HA).
    exists (it ++ chr "," :: v), (sp :: sps), r'. split; [rewrite <-app_assoc; reflexivity|].
    split; [constructor; assumption|auto].
  - destruct Hc as [?| ->]; [contradiction|]. exists it, [sp], r. split; [reflexivity|].
    split; [constructor; assumption|]. apply Hacc. repeat split; [cbn; lia|cbn; lia|constructor].
Qed.

(** The range [sp] after the ranges [sps] makes the parser decline: it is one
    too many, or it has no bytes and starts at the first byte, which happens
    for an empty content only. *)
Definition declines (cl : Z) (ranges : nat) (size : Z) (sps : list spec) (sp : spec) : Prop :=
  accepted cl ranges size sps /\
  if satisfiable (resolve cl sp)
  then length (selected cl sps) = ranges /\ size + total (selected cl (sps ++ [sp])) <= MAX
  else fst (resolve cl sp) = 0.

(** The first ranges of the header, each followed by a comma or the end. *)
Definition first_items (value : list Z) (sps : list spec) : Prop :=
  exists v rest, value = v ++ rest /\ items_of v sps /\ (rest = [] \/ exists r, rest = chr "," :: r).

(** What the loop has after one range, when it goes on. *)
Definition after (cl : Z) (ranges : nat) (size : Z) (sp : spec) : nat * Z :=
  if satisfiable (resolve cl sp)
  then (pred ranges, size + (snd (resolve cl sp) - fst (resolve cl sp))) else (ranges, size).

Definition goes_on (cl : Z) (ranges : nat) (size : Z) (sp : spec) : Prop :=
  if satisfiable (resolve cl sp)
  then (0 < ranges)%nat /\ size + (snd (resolve cl sp) - fst (resolve cl sp)) <= MAX
  else fst (resolve cl sp) <> 0.

Lemma accepted_cons cl ranges size sp sps : accepted cl ranges size (sp :: sps) <->
  goes_on cl ranges size sp /\ accepted cl (fst (after cl ranges size sp)) (snd (after cl ranges size sp)) sps.
Proof.
  unfold accepted, goes_on, after. rewrite selected_cons, Forall_cons_iff. pose proof (total_nonneg cl sps) as Ht.
  destruct (satisfiable (resolve cl sp)); cbn [fst snd length]; rewrite ?total_cons.
  - split; [intros (A1 & A2 & A3 & A4)|intros ((A1 & A2) & A3 & A4 & A5)]; repeat split; auto; lia.
  - split; [intros (A1 & A2 & [A3|A3] & A4)|intros (A1 & A3 & A4 & A5)]; repeat split; auto; discriminate.
Qed.

Lemma declines_cons cl ranges size sp0 sps sp : declines cl ranges size (sp0 :: sps) sp <->
  goes_on cl ranges size sp0 /\ declines cl (fst (after cl ranges size sp0)) (snd (after cl ranges size sp0)) sps sp.
Proof.
  unfold declines. rewrite accepted_cons, <-app_comm_cons, !selected_cons. unfold goes_on, after.
  destruct (satisfiable (resolve cl sp0)), (satisfiable (resolve cl sp)); cbn [fst snd length]; rewrite ?total_cons;
    intuition lia.
Qed.

(** One iteration, whatever it does. *)
Lemma range_loop_step f cl ranges size acc it sp c r :
  0 <= cl <= MAX -> 0 <= size <= MAX -> item_of it sp -> separator c ->
  (goes_on cl ranges size sp /\ 0 <= snd (after cl ranges size sp) <= MAX /\ exists acc',
     range_loop (S f) cl ranges size acc (it ++ c :: r) =
     if c =? chr "," then range_loop f cl (fst (after cl ranges size sp)) (snd (after cl ranges size sp)) acc' r
     else ret (snd (after cl ranges size sp), acc')) \/
  (declines cl ranges size [] sp /\ range_loop (S f) cl ranges size acc (it ++ c :: r) = return_ NGX_DECLINED) \/
  (~ goes_on cl ranges size sp /\ ~ declines cl ranges size [] sp /\
     range_loop (S f) cl ranges size acc (it ++ c :: r) = return_ NGX_HTTP_RANGE_NOT_SATISFIABLE).
Proof.
  intros Hcl Hsz Hit Hc. rewrite (range_loop_item _ _ _ _ _ _ sp) by assumption. cbv zeta.
  unfold goes_on, after, declines, accepted. cbn [app]. rewrite selected_cons. change (selected cl []) with (@nil (Z * Z)).
  unfold satisfiable. destruct (resolve cl sp) as [s e]. cbn [fst snd].
  destruct (s <? e) eqn:E; cbn [length total fold_right fst snd].
  - destruct (Z.leb_spec (size + (e - s)) MAX) as [Hm|Hm].
    + destruct ranges as [|ranges]; cbn [fst snd pred].
      * right. left. repeat split; try lia. constructor.
      * left. repeat split; try lia. eauto.
    + right. right. repeat split; lia.
  - destruct (Z.eqb_spec s 0) as [->|Hs]; cbn [fst snd].
    + right. left. repeat split; try lia. constructor.
    + left. repeat split; try lia. eauto.
Qed.

Lemma item_sep_unique it1 c1 r1 it2 c2 r2 sp1 sp2 : item_of it1 sp1 -> item_of it2 sp2 -> separator c1 -> separator c2 ->
  it1 ++ c1 :: r1 = it2 ++ c2 :: r2 -> it1 = it2 /\ c1 = c2 /\ r1 = r2.
Proof.
  intros H1 H2 S1 S2.
  assert (forall x, In x it1 -> ~ separator x) as P1 by (intros x Hx [->| ->]; destruct (item_plain it1 sp1 _ H1 Hx); congruence).
  assert (forall x, In x it2 -> ~ separator x) as P2 by (intros x Hx [->| ->]; destruct (item_plain it2 sp2 _ H2 Hx); congruence).
  clear H1 H2. revert it2 P2. induction it1 as [|x it1 IH]; intros [|y it2] P2; cbn [app]; intros [= E1 E2].
  - auto.
  - subst. exfalso. apply (P2 y); [left; reflexivity|assumption].
  - subst. exfalso. apply (P1 c2); [left; reflexivity|assumption].
  - subst. destruct (IH (fun z Hz => P1 z (or_intror Hz)) it2 (fun z Hz => P2 z (or_intror Hz)) E2) as (-> & -> & ->). auto.
Qed.

Lemma item_spec_unique it sp1 sp2 : item_of it sp1 -> item_of it sp2 -> forall cl, 0 <= cl <= MAX -> resolve cl sp1 = resolve cl sp2.
Proof.
  intros H1 H2 cl Hcl.
  pose proof (read_range_complete cl it sp1 0 [] Hcl H1 ltac:(right; reflexivity)) as E1.
  rewrite (read_range_complete cl it sp2 0 [] Hcl H2 ltac:(right; reflexivity)) in E1. inversion E1. reflexivity.
Qed.

Lemma goes_on_resolve cl ranges size sp1 sp2 : resolve cl sp1 = resolve cl sp2 ->
  (goes_on cl ranges size sp1 <-> goes_on cl ranges size sp2) /\ after cl ranges size sp1 = after cl ranges size sp2 /\
  (declines cl ranges size [] sp1 <-> declines cl ranges size [] sp2).
Proof.
  intros E. unfold goes_on, after, declines, accepted. cbn [app]. rewrite !selected_cons, E.
  split; [tauto|]. split; [reflexivity|]. change (selected cl []) with (@nil (Z * Z)). split; intros (A & B); (split; [|exact B]);
    destruct A as (A1 & A2 & A3); (repeat split; [assumption|assumption|constructor]).
Qed.

Lemma not_both cl ranges size sp : declines cl ranges size [] sp -> ~ goes_on cl ranges size sp.
Proof.
  unfold declines, goes_on. destruct (satisfiable (resolve cl sp)); intros (_ & H); cbn in *; lia.
Qed.

(** The loop declines exactly at such a range. *)
Lemma range_loop_declines f cl : 0 <= cl <= MAX ->
  forall ranges size acc value, 0 <= size <= MAX -> ~ In 0 value -> (length value < f)%nat ->
  (range_loop f cl ranges size acc (value ++ [0]) = return_ NGX_DECLINED <->
   exists sps sp, first_items value (sps ++ [sp]) /\ declines cl ranges size sps sp) /\
  (forall rc, range_loop f cl ranges size acc (value ++ [0]) = return_ rc ->
   rc = NGX_DECLINED \/ rc = NGX_HTTP_RANGE_NOT_SATISFIABLE).
Proof.
  intros Hcl. induction f as [|f IH]; intros ranges size acc value Hsz Hv Hf; [lia|].
  destruct (read_range cl (value ++ [0])) as [[rc|v]|] eqn:E.
  - (* no range at the head *)
    pose proof (read_range_code cl _ _ E) as ->. cbn [range_loop]. rewrite E. cbn [bind]. split; [|intros rc [= <-]; auto].
    split; [discriminate|]. intros (sps & sp & (w & rest & -> & Hi & Hr) & _). exfalso.
    assert (exists it sp1 c r, (w ++ rest) ++ [0] = it ++ c :: r /\ item_of it sp1 /\ separator c) as (it & sp1 & c & r & E1 & Hit & Hc).
    { inversion Hi as [it sp1 Hit Ew|it sp1 v' sps' Hit Hi' Ew]; subst.
      - destruct Hr as [->|(r & ->)].
        + exists w, sp1, 0, []. rewrite app_nil_r. repeat split; [exact Hit|right; reflexivity].
        + exists w, sp1, (chr ","), (r ++ [0]). rewrite <-app_assoc. repeat split; [exact Hit|left; reflexivity].
      - exists it, sp1, (chr ","), ((v' ++ rest) ++ [0]). rewrite <-!app_assoc. cbn [app].
        repeat split; [exact Hit|left; reflexivity]. }
    rewrite E1, (read_range_complete _ _ sp1) in E by assumption. discriminate.
  - destruct (read_range_sound cl _ v Hcl E) as (it & sp & c & r & Ev & Hit & Hc & _). clear E v.
    rewrite Ev. pose proof (item_plain it sp) as Hplain.
    (* what the first range of any reading is *)
    assert (forall sps, first_items value sps -> exists sp1 sps', sps = sp1 :: sps' /\ resolve cl sp1 = resolve cl sp /\
      (sps' = [] \/ exists r', r = r' ++ [0] /\ c = chr "," /\ first_items r' sps')) as Hfst.
    { intros sps (w & rest & -> & Hi & Hr). inversion Hi as [it1 sp1 Hit1 Ew|it1 sp1 v' sps' Hit1 Hi' Ew]; subst.
      - exists sp1, []. split; [reflexivity|]. split; [|auto].
        assert (exists c1 r1, (w ++ rest) ++ [0] = w ++ c1 :: r1 /\ separator c1) as (c1 & r1 & E1 & Hc1).
        { destruct Hr as [->|(r1 & ->)]; rewrite <-app_assoc; [exists 0, []|exists (chr ","), (r1 ++ [0])];
            (split; [reflexivity|unfold separator; auto]). }
        rewrite E1 in Ev. apply (item_sep_unique _ _ _ _ _ _ sp1 sp) in Ev as (-> & _); try assumption.
        apply (item_spec_unique it); assumption.
      - exists sp1, sps'. split; [reflexivity|]. rewrite <-!app_assoc in Ev. cbn [app] in Ev.
        apply (item_sep_unique _ _ _ _ _ _ sp1 sp) in Ev as (-> & <- & <-); try assumption; [|left; reflexivity].
        split; [apply (item_spec_unique it); assumption|]. right. exists (v' ++ rest). rewrite <-app_assoc.
        split; [reflexivity|]. split; [reflexivity|]. exists v', rest. auto. }
    (* and that it is the first range of a reading *)
    assert (first_items value [sp]) as Hone.
    { exists it. destruct (exists_last (l := c :: r) ltac:(discriminate)) as (l & z & El). rewrite El, app_assoc in Ev.
      apply app_inj_tail in Ev as [-> <-]. exists l. split; [reflexivity|]. split; [constructor; exact Hit|].
      destruct l as [|y l]; [left; reflexivity|]. right. inversion El; subst. destruct Hc as [->| ->]; [eauto|].
      exfalso. apply Hv. apply in_app_iff. right. left. reflexivity. }
    destruct (range_loop_step f cl ranges size acc it sp c r Hcl Hsz Hit Hc) as
      [(Hgo & Hsz' & acc' & ->)|[(Hd & ->)|(Hgo & Hd & ->)]].
    + destruct (Z.eqb_spec c (chr ",")) as [->|Hne].
      * assert (exists r', r = r' ++ [0] /\ value = it ++ chr "," :: r') as (r' & -> & Evr).
        { destruct r as [|y r]; [exfalso; change [chr ","] with ([] ++ [chr ","]) in Ev; rewrite app_assoc in Ev; apply app_inj_tail in Ev as [_ Ev]; discriminate|].
          destruct (exists_last (l := y :: r) ltac:(discriminate)) as (l & z & El). rewrite El in Ev |- *.
          rewrite app_comm_cons, app_assoc in Ev. apply app_inj_tail in Ev as [-> <-]. eauto. }
        assert (~ In 0 r') as Hr' by (intros H; apply Hv; rewrite Evr; apply in_app_iff; right; right; exact H).
        assert (length r' < f)%nat as Hf' by (rewrite Evr, length_app in Hf; cbn in Hf; lia).
        destruct (IH (fst (after cl ranges size sp)) (snd (after cl ranges size sp)) acc' r' Hsz' Hr' Hf') as [IH1 IH2].
        split; [|exact IH2]. rewrite IH1. split.
        { intros (sps & sp' & (w & rest & -> & Hi & Hr) & Hd). exists (sp :: sps), sp'. split.
          - exists (it ++ chr "," :: w), rest. rewrite Evr, <-app_assoc. split; [reflexivity|]. split; [|exact Hr].
            cbn [app]. constructor; assumption.
          - apply declines_cons. auto. }
        { intros (sps & sp' & Hi & Hd). destruct (Hfst _ Hi) as (sp1 & sps' & Es & Er & Hrest).
          destruct (goes_on_resolve cl ranges size sp1 sp Er) as (G1 & G2 & G3).
          destruct sps as [|sp0 sps]; cbn [app] in Es.
          - injection Es as <- <-. exfalso. apply (not_both cl ranges size sp); [apply G3; exact Hd|exact Hgo].
          - injection Es as <- <-. apply declines_cons in Hd as [_ Hd]. rewrite G2 in Hd.
            exists sps, sp'. split; [|exact Hd]. destruct Hrest as [Hn|(r2 & E2 & _ & H2)]; [destruct sps; discriminate|].
            apply app_inj_tail in E2 as [<- _]. exact H2. }
      * split; [|intros rc [=]]. split; [discriminate|]. intros (sps & sp' & Hi & Hd). exfalso.
        destruct (Hfst _ Hi) as (sp1 & sps' & Es & Er & Hrest). destruct (goes_on_resolve cl ranges size sp1 sp Er) as (G1 & G2 & G3).
        destruct sps as [|sp0 sps]; cbn [app] in Es; injection Es as <- <-.
        { apply (not_both cl ranges size sp); [apply G3; exact Hd|exact Hgo]. }
        { destruct Hrest as [Hn|(r2 & _ & E2 & _)]; [destruct sps; discriminate|contradiction]. }
    + split; [|intros rc [= <-]; auto]. split; [|reflexivity]. intros _. exists [], sp. auto.
    + split; [|intros rc [= <-]; auto]. split; [discriminate|]. intros (sps & sp' & Hi & Hd'). exfalso.
      destruct (Hfst _ Hi) as (sp1 & sps' & Es & Er & Hrest). destruct (goes_on_resolve cl ranges size sp1 sp Er) as (G1 & G2 & G3).
      destruct sps as [|sp0 sps]; cbn [app] in Es; injection Es as <- <-; [tauto|]. apply declines_cons in Hd' as [Hg _]. tauto.
  - exfalso. refine (read_range_total cl (value ++ [0]) Hcl _ E). apply in_app_iff. right. left. reflexivity.
Qed.

Lemma items_forall (Q : spec -> Prop) v sps : (forall it sp, item_of it sp -> Q sp) -> items_of v sps -> Forall Q sps.
Proof. intros HQ H. induction H; repeat constructor; eauto. Qed.

Lemma items_plain v sps : items_of v sps -> ~ In 0 v.
Proof.
  intros H. induction H as [it sp Hit|it sp v sps Hit Hv IH]; intros H0.
  - destruct (item_plain it sp 0 Hit H0). contradiction.
  - apply in_app_iff in H0 as [H0|[H0|H0]]; [|discriminate|contradiction]. destruct (item_plain it sp 0 Hit H0). contradiction.
Qed.

Lemma selected_bounds cl v sps : 0 <= cl -> items_of v sps ->
  Forall (fun r => 0 <= fst r < snd r /\ snd r <= cl) (selected cl sps).
Proof.
  intros Hcl H. apply Forall_forall. intros r Hr. unfold selected in Hr. apply filter_In in Hr as [Hr Hs].
  apply in_map_iff in Hr as (sp & <- & Hsp). unfold satisfiable in Hs.
  pose proof (items_forall (fun sp => 0 <= fst (resolve cl sp) /\ snd (resolve cl sp) <= cl) v sps) as HF.
  rewrite Forall_forall in HF. specialize (HF (fun it sp => resolve_bounds cl it sp Hcl) H sp Hsp). lia.
Qed.

(** A content that is not empty has its first byte. *)
Lemma first_byte cl it sp : 0 < cl -> item_of it sp -> satisfiable (resolve cl sp) = true \/ fst (resolve cl sp) <> 0.
Proof.
  intros Hcl Hit. unfold satisfiable.
  destruct Hit as [s1 d1 s2 s3 d2 s4 _ _ _ _ (_ & N2 & _) _|s1 d1 s2 s3 _ (_ & N1 & _) _ _|]; cbn;
    try (apply dec_value_nonneg in N2); lia.
Qed.

Lemma nul_unique u v r : ~ In 0 u -> ~ In 0 v -> u ++ [0] = v ++ 0 :: r -> u = v.
Proof.
  revert v. induction u as [|x u IH]; intros [|y v] Hu Hv H; cbn in *; inversion H; subst; try tauto.
  f_equal. apply (IH v); tauto.
Qed.

End ParseProofs.

Lemma range_parse_exact_lemma `{P : Platform} value cl ranges :
  0 <= cl <= NGX_MAX_OFF_T_VALUE -> ~ In 0 value ->
  ngx_http_range_parse None value cl ranges <> None /\
  forall l, ngx_http_range_parse None value cl ranges = Some (inr l) <->
    exists sps, items_of value sps /\ l = map plain_range (selected cl sps) /\
      selected cl sps <> [] /\ (length (selected cl sps) <= ranges)%nat /\ total (selected cl sps) <= cl /\
      Forall (fun r => 0 <= start r < end_ r /\ end_ r <= cl) l.
Proof.
  intros Hcl H0. unfold ngx_http_range_parse. set (p := value ++ [0]).
  assert (In 0 p) as Hp by (apply in_app_iff; right; left; reflexivity).
  pose proof (range_loop_total (S (length p)) cl Hcl ranges 0 [] p max_off_nonneg Hp ltac:(lia)) as HT.
  assert (forall sps, items_of value sps -> accepted cl ranges 0 sps ->
    range_loop (S (length p)) cl ranges 0 [] p = ret (total (selected cl sps), rev (map plain_range (selected cl sps)))) as HC.
  { intros sps Hi HA. unfold p. rewrite (range_loop_complete cl value sps [] Hcl Hi); [|rewrite length_app; cbn; lia|exact max_off_nonneg|exact HA].
    rewrite app_nil_r. reflexivity. }
  split.
  - destruct (range_loop _ _ _ _ _ _) as [[rc|[size acc]]|] eqn:E; cbn [bind]; [discriminate| |contradiction].
    destruct acc; [discriminate|]. destruct (size >? cl); discriminate.
  - intros l. split.
    + intros H. apply bind_inv in H as ([size acc] & E & H).
      destruct (range_loop_sound _ cl Hcl _ _ _ _ _ _ max_off_nonneg Hp E) as (v & sps & r & Ep & Hi & HA).
      apply nul_unique in Ep; [|exact H0|eapply items_plain; exact Hi]. subst v. rewrite (HC sps Hi HA) in E.
      injection E as <- <-. exists sps. split; [exact Hi|].
      destruct (rev (map plain_range (selected cl sps))) as [|x acc] eqn:Er; [discriminate|]. rewrite <-Er in H.
      destruct (Z.gtb_spec (total (selected cl sps)) cl) as [Hgt|Hle]; [discriminate|].
      rewrite rev_involutive in H. injection H as <-. destruct HA as (A1 & A2 & A3).
      repeat split; [intros E; rewrite E in Er; discriminate|exact A1|exact Hle|].
      apply Forall_map. eapply Forall_impl; [|apply (selected_bounds cl value sps ltac:(lia) Hi)]. auto.
    + intros (sps & Hi & -> & Hne & Hlen & Htot & _).
      pose proof (selected_bounds cl value sps ltac:(lia) Hi) as Hb.
      assert (0 < cl) as Hpos by (destruct (selected cl sps); [contradiction|inversion Hb; subst; lia]).
      rewrite (HC sps Hi).
      * cbn [bind ret]. destruct (rev (map plain_range (selected cl sps))) as [|x acc] eqn:Er.
        { apply (f_equal (@rev range)) in Er. rewrite rev_involutive in Er. destruct (selected cl sps); [contradiction|discriminate]. }
        rewrite <-Er, rev_involutive. replace (total (selected cl sps) >? cl) with false by lia. reflexivity.
      * repeat split; [exact Hlen|lia|]. apply (items_forall _ value); [|exact Hi]. intros it sp. apply first_byte. exact Hpos.
Qed.

(** The parser declines exactly when a range makes it decline, or when the
    ranges read are together longer than the content. *)
Lemma range_parse_declined `{P : Platform} value cl ranges :
  0 <= cl <= NGX_MAX_OFF_T_VALUE -> ~ In 0 value ->
  (ngx_http_range_parse None value cl ranges = Some (inl NGX_DECLINED) <->
   (exists sps sp, first_items value (sps ++ [sp]) /\ declines cl ranges 0 sps sp) \/
   (exists sps, items_of value sps /\ accepted cl ranges 0 sps /\ cl < total (selected cl sps))) /\
  (forall rc, ngx_http_range_parse None value cl ranges = Some (inl rc) ->
   rc = NGX_DECLINED \/ rc = NGX_HTTP_RANGE_NOT_SATISFIABLE).
Proof.
  intros Hcl H0. unfold ngx_http_range_parse. set (p := value ++ [0]).
  assert (In 0 p) as Hp by (apply in_app_iff; right; left; reflexivity).
  assert (length value < S (length p))%nat as Hf by (unfold p; rewrite length_app; cbn; lia).
  destruct (range_loop_declines (S (length p)) cl Hcl ranges 0 [] value max_off_nonneg H0 Hf) as [HD HC]. fold p in HD, HC.
  assert (forall sps, items_of value sps -> accepted cl ranges 0 sps ->
    range_loop (S (length p)) cl ranges 0 [] p = ret (total (selected cl sps), rev (map plain_range (selected cl sps)))) as HT.
  { intros sps Hi HA. unfold p at 2. rewrite (range_loop_complete cl value sps [] Hcl Hi); [|exact Hf|exact max_off_nonneg|exact HA].
    rewrite app_nil_r. reflexivity. }
  destruct (range_loop (S (length p)) cl ranges 0 [] p) as [[rc|[size acc]]|] eqn:E; cbn [bind].
  - destruct (HC rc eq_refl) as [->| ->].
    + split; [|intros rc [= <-]; auto]. split; [|reflexivity]. intros _. left. apply HD. reflexivity.
    + split; [|intros rc [= <-]; auto]. split; [discriminate|]. intros [H|(sps & Hi & HA & _)].
      * apply HD in H. discriminate.
      * discriminate (HT sps Hi HA).
  - pose proof (proj1 HD) as HN. clear HC. destruct (range_loop_sound _ cl Hcl _ _ _ _ _ _ max_off_nonneg Hp E) as (v & sps & r & Ep & Hi & HA).
    apply nul_unique in Ep; [|exact H0|eapply items_plain; exact Hi]. subst v. pose proof (HT sps Hi HA) as [= -> ->].
    assert (~ exists sps sp, first_items value (sps ++ [sp]) /\ declines cl ranges 0 sps sp) as Hno by (intros H; apply HD in H; discriminate).
    assert (rev (map plain_range (selected cl sps)) = [] -> total (selected cl sps) = 0) as Hz
      by (intros Hr; apply (f_equal (@length range)) in Hr; rewrite length_rev, length_map in Hr; destruct (selected cl sps); [reflexivity|discriminate]).
    destruct (rev (map plain_range (selected cl sps))) as [|x acc] eqn:Er; cbv iota.
    + split; [|intros rc [= <-]; auto]. split; [discriminate|]. intros [H|(sps' & Hi' & HA' & Hlt)]; [contradiction|].
      pose proof (HT sps' Hi' HA') as [= Et _]. rewrite <-Et, (Hz eq_refl) in Hlt. lia.
    + destruct (Z.gtb_spec (total (selected cl sps)) cl) as [Hgt|Hle].
      * split; [|intros rc [= <-]; auto]. split; [|reflexivity]. intros _. right. exists sps. repeat split; auto; apply HA.
      * split; [|discriminate]. split; [discriminate|]. intros [H|(sps' & Hi' & HA' & Hlt)]; [contradiction|].
        pose proof (HT sps' Hi' HA') as [= Et _]. lia.
  - exfalso. apply (range_loop_total (S (length p)) cl Hcl ranges 0 [] p max_off_nonneg Hp ltac:(lia) E).
Qed.

(** C18: ngx_http_range_parse() reads Range headers exactly: it never reads
    past the end of the header nor overflows off_t; it returns NGX_OK exactly
    for a list of ranges of the grammar of which at least one has bytes in
    the content, not more than the limit, with a total not above the length
    of the content; the ranges are then those of the header that have bytes,
    in order, each with 0 <= start < end <= length.  It declines, so that the
    whole content is sent, exactly when the header starts with ranges it
    accepts and one that is over the limit or asks for the first byte of an
    empty content, whatever follows, or is a list of accepted ranges that are
    together longer than the content; in every other case it returns 416. *)
Theorem range_parse_exact `{P : Platform} value cl ranges :
  0 <= cl <= NGX_MAX_OFF_T_VALUE -> ~ In 0 value ->
  match ngx_http_range_parse None value cl ranges with
  | None => False
  | Some (inr _) => True
  | Some (inl rc) => rc = NGX_HTTP_RANGE_NOT_SATISFIABLE \/ rc = NGX_DECLINED
  end /\
  (forall l, ngx_http_range_parse None value cl ranges = Some (inr l) <->
    exists sps, items_of value sps /\ l = map plain_range (selected cl sps) /\
      selected cl sps <> [] /\ (length (selected cl sps) <= ranges)%nat /\ total (selected cl sps) <= cl /\
      Forall (fun r => 0 <= start r < end_ r /\ end_ r <= cl) l) /\
  (ngx_http_range_parse None value cl ranges = Some (inl NGX_DECLINED) <->
    (exists sps sp, first_items value (sps ++ [sp]) /\ declines cl ranges 0 sps sp) \/
    (exists sps, items_of value sps /\ accepted cl ranges 0 sps /\ cl < total (selected cl sps))).
Proof.
  intros Hcl H0. destruct (range_parse_exact_lemma value cl ranges Hcl H0) as [HN HO].
  destruct (range_parse_declined value cl ranges Hcl H0) as [HD HC]. split; [|split; [exact HO|exact HD]].
  destruct (ngx_http_range_parse None value cl ranges) as [[rc|l]|]; [|exact I|contradiction].
  destruct (HC rc eq_refl); auto.
Qed.

Lemma range_parse_exact_witness :
  @ngx_http_range_parse lp64 None (bs "0-4, 10-19,-3") 100 10 =
    Some (inr [mk_range 0 5 []; mk_range 10 20 []; mk_range 97 100 []]) /\
  @ngx_http_range_parse lp64 None (bs "0-,1-") 100 1 = Some (inl NGX_DECLINED).
Proof.
  assert (0 <= 100 <= @NGX_MAX_OFF_T_VALUE lp64) as H1 by (vm_compute; split; discriminate).
  assert (~ In 0 (bs "0-4, 10-19,-3")) as H2 by (vm_compute; intuition discriminate).
  assert (~ In 0 (bs "0-,1-")) as H3 by (vm_compute; intuition discriminate).
  split.
  - apply (range_parse_exact (bs "0-4, 10-19,-3") 100 10 H1 H2).
    exists [Between 0 4; Between 10 19; Suffix 3].
    split; [|repeat split; try (vm_compute; discriminate || reflexivity || lia); try (repeat constructor; cbn; lia)].
    apply (items_cons (bs "0-4")).
    { apply (item_between [] (bs "0") [] [] (bs "4") []); try constructor; try discriminate; repeat constructor; try discriminate; vm_compute; discriminate. }
    apply (items_cons (bs " 10-19")).
    { apply (item_between (bs " ") (bs "10") [] [] (bs "19") []); repeat constructor; try discriminate. }
    apply items_one. apply (item_suffix [] (bs "3") []); repeat constructor; try discriminate.
  - apply (range_parse_exact (bs "0-,1-") 100 1 H1 H3). left. exists [From 0], (From 1). split.
    + exists (bs "0-,1-"), []. split; [reflexivity|]. split; [|auto]. apply (items_cons (bs "0-")).
      { apply (item_from [] (bs "0") [] []); repeat constructor; try discriminate. }
      apply items_one. apply (item_from [] (bs "1") [] []); repeat constructor; try discriminate.
    + split; [repeat split|]; try (vm_compute; discriminate || reflexivity).
      * constructor; [left; reflexivity|constructor].
      * split; [reflexivity|vm_compute; discriminate].
Defined.

(** ** The texts *)

Ltac no_percent := vm_compute; intuition discriminate.

Section Texts.
Context `{P : Platform}.

Local Abbreviation run f fmt args := (ngx_vslprintf f None fmt args).

Definition dec (n : Z) : list Z := number n 0.

(** The boundary, with zeros in front. *)
Definition padded (b : Z) : list Z :=
  repeat (chr "0") (NGX_ATOMIC_T_LEN - length (dec b)) ++ dec b.

Lemma run_lit f c fmt args : c <> chr "%" -> run (S f) (c :: fmt) args = option_map (app [c]) (run f fmt args).
Proof. intros Hc. cbn [ngx_vslprintf has_room negb]. replace (c =? chr "%") with false by lia. reflexivity. Qed.

Lemma run_text t f fmt args : ~ In (chr "%") t ->
  run (length t + f) (t ++ fmt) args = option_map (app t) (run f fmt args).
Proof.
  induction t as [|c t IH]; intros Ht; cbn [length app Nat.add].
  - destruct (run f fmt args); reflexivity.
  - rewrite run_lit by (intros ->; apply Ht; left; reflexivity).
    rewrite IH by (intros H; apply Ht; right; exact H). destruct (run f fmt args); reflexivity.
Qed.

Lemma run_off f n fmt args : 0 <= n <= NGX_MAX_OFF_T_VALUE ->
  run (S f) (chr "%" :: chr "O" :: fmt) (Arg_int n :: args) = option_map (app (dec n)) (run f fmt args).
Proof.
  intros Hn. cbn -[number print_int]. unfold print_int. rewrite to_signed_small by exact Hn.
  replace (n <? 0) with false by lia. cbn -[number]. reflexivity.
Qed.

Lemma run_str f l fmt args :
  run (S f) (chr "%" :: chr "V" :: fmt) (Arg_str l :: args) = option_map (app l) (run f fmt args).
Proof. reflexivity. Qed.

Lemma run_boundary f b fmt args : 0 <= b < 2 ^ bits ptr_size ->
  run (S f) (chr "%" :: chr "0" :: chr "m" :: chr "u" :: chr "A" :: fmt) (Arg_int b :: args) =
  option_map (app (padded b)) (run f fmt args).
Proof.
  intros Hb. cbn -[number print_int ptr_len]. unfold print_int. cbn -[number ngx_sprintf_num ptr_len wrapu].
  rewrite wrapu_small by exact Hb. cbn -[number ptr_len]. rewrite Nat2Z.id. reflexivity.
Qed.

(** The same without the fuel. *)
Lemma sprintf_text t fmt args : ~ In (chr "%") t ->
  ngx_sprintf (t ++ fmt) args = option_map (app t) (ngx_sprintf fmt args).
Proof.
  intros Ht. unfold ngx_sprintf. rewrite (vslprintf_fuel _ (length t + S (length fmt))%nat) by (rewrite length_app; lia).
  apply run_text. exact Ht.
Qed.

Lemma sprintf_off n fmt args : 0 <= n <= NGX_MAX_OFF_T_VALUE ->
  ngx_sprintf (chr "%" :: chr "O" :: fmt) (Arg_int n :: args) = option_map (app (dec n)) (ngx_sprintf fmt args).
Proof.
  intros Hn. unfold ngx_sprintf. rewrite (vslprintf_fuel _ (S (S (S (length fmt))))) by (cbn; lia).
  rewrite run_off by exact Hn. f_equal. apply vslprintf_fuel; lia.
Qed.

Lemma sprintf_str l fmt args :
  ngx_sprintf (chr "%" :: chr "V" :: fmt) (Arg_str l :: args) = option_map (app l) (ngx_sprintf fmt args).
Proof.
  unfold ngx_sprintf. cbn [length]. rewrite run_str. f_equal. apply vslprintf_fuel; lia.
Qed.

Lemma sprintf_boundary b fmt args : 0 <= b < 2 ^ bits ptr_size ->
  ngx_sprintf (chr "%" :: chr "0" :: chr "m" :: chr "u" :: chr "A" :: fmt) (Arg_int b :: args) =
  option_map (app (padded b)) (ngx_sprintf fmt args).
Proof.
  intros Hb. unfold ngx_sprintf. cbn [length]. rewrite run_boundary by exact Hb. f_equal. apply vslprintf_fuel; lia.
Qed.

Lemma sprintf_nil : ngx_sprintf [] [] = Some [].
Proof. reflexivity. Qed.

(** "S-E/T" *)
Definition range_text (s e cl : Z) : list Z := dec s ++ bs "-" ++ dec (e - 1) ++ bs "/" ++ dec cl.

Definition range_args (s e cl : Z) : list arg := [Arg_int s; Arg_int (e - 1); Arg_int cl].

Lemma sprintf_range t s e cl : ~ In (chr "%") t -> 0 <= s < e -> e <= cl <= NGX_MAX_OFF_T_VALUE ->
  ngx_sprintf (bs "%O-%O/%O" ++ t) (range_args s e cl) = Some (range_text s e cl ++ t).
Proof.
  intros Ht H1 H2. unfold range_text, range_args.
  change (bs "%O-%O/%O" ++ t) with (chr "%" :: chr "O" :: bs "-" ++ chr "%" :: chr "O" :: bs "/" ++ chr "%" :: chr "O" :: t).
  rewrite sprintf_off, sprintf_text, sprintf_off, sprintf_text, sprintf_off by (lia || no_percent).
  rewrite <-(app_nil_r t) at 1. rewrite sprintf_text, sprintf_nil by exact Ht. cbn [option_map].
  repeat rewrite <-app_assoc. rewrite app_nil_r. reflexivity.
Qed.

(** The boundary header. *)
Definition type_line (h : headers_out) : list Z :=
  if (content_type_len h =? Z.of_nat (length (content_type h))) && negb (Nat.eqb (length (charset h)) 0)
  then bs "Content-Type: " ++ content_type h ++ bs "; charset=" ++ charset h ++ CRLF
  else if negb (Nat.eqb (length (content_type h)) 0) then bs "Content-Type: " ++ content_type h ++ CRLF
  else [].

Definition delimiter (b : Z) : list Z := CRLF ++ bs "--" ++ padded b.

Lemma boundary_text h b : 0 <= b < 2 ^ bits ptr_size ->
  boundary_of h b = Some (delimiter b ++ CRLF ++ type_line h ++ bs "Content-Range: bytes ").
Proof.
  intros Hb. unfold boundary_of, type_line, delimiter.
  assert (ngx_sprintf (bs "Content-Range: bytes ") [] = Some (bs "Content-Range: bytes ")) as Htail by (vm_compute; reflexivity).
  assert (forall fmt args, ngx_sprintf (CRLF ++ bs "--%0muA" ++ fmt) (Arg_int b :: args) =
    option_map (app (CRLF ++ bs "--" ++ padded b)) (ngx_sprintf fmt args)) as Hd.
  { intros fmt args. change (CRLF ++ bs "--%0muA" ++ fmt)
      with ((CRLF ++ bs "--") ++ chr "%" :: chr "0" :: chr "m" :: chr "u" :: chr "A" :: fmt).
    rewrite sprintf_text, sprintf_boundary by (exact Hb || no_percent).
    destruct (ngx_sprintf fmt args); cbn [option_map]; [|reflexivity]. rewrite <-!app_assoc. reflexivity. }
  destruct (_ && _); [|destruct (negb _)]; rewrite Hd.
  - change (CRLF ++ bs "Content-Type: %V; charset=%V" ++ CRLF ++ bs "Content-Range: bytes ") with
      ((CRLF ++ bs "Content-Type: ") ++ chr "%" :: chr "V" :: bs "; charset=" ++ chr "%" :: chr "V" :: CRLF ++ bs "Content-Range: bytes ").
    rewrite sprintf_text, sprintf_str, sprintf_text, sprintf_str, sprintf_text, Htail by no_percent.
    cbn [option_map]. rewrite <-!app_assoc. reflexivity.
  - change (CRLF ++ bs "Content-Type: %V" ++ CRLF ++ bs "Content-Range: bytes ") with
      ((CRLF ++ bs "Content-Type: ") ++ chr "%" :: chr "V" :: CRLF ++ bs "Content-Range: bytes ").
    rewrite sprintf_text, sprintf_str, sprintf_text, Htail by no_percent.
    cbn [option_map]. rewrite <-!app_assoc. reflexivity.
  - rewrite sprintf_text, Htail by no_percent. cbn [option_map app]. rewrite <-!app_assoc. reflexivity.
Qed.

Lemma padded_length b : 0 <= b < 2 ^ bits ptr_size -> length (padded b) = NGX_ATOMIC_T_LEN.
Proof.
  intros Hb. unfold padded, NGX_ATOMIC_T_LEN, ptr_len, dec. rewrite length_app, repeat_length.
  assert (0 <= b < 2 ^ 64) as Hb' by (destruct ptr_size; cbn [bits] in Hb; lia).
  destruct (number_dec b Hb') as (_ & _ & Hne & Hl & H10).
  enough (length (number b 0) <= match ptr_size with size4 => NGX_INT32_LEN | size8 => NGX_INT64_LEN end)%nat by lia.
  destruct ptr_size; cbn [bits] in Hb; [|unfold NGX_INT64_LEN; lia].
  destruct (Z.le_gt_cases 1 b) as [H1|H1].
  - specialize (H10 H1). unfold NGX_INT32_LEN. apply Nat.nlt_ge. intros Hgt.
    assert (10 ^ 11 <= 10 ^ (Z.of_nat (length (number b 0)) - 1)) by (apply Z.pow_le_mono_r; lia). lia.
  - assert (b = 0) as -> by lia. vm_compute. lia.
Qed.

Lemma delimiter_length b : 0 <= b < 2 ^ bits ptr_size -> length (delimiter b) = (4 + NGX_ATOMIC_T_LEN)%nat.
Proof. intros Hb. unfold delimiter. rewrite !length_app, padded_length by exact Hb. reflexivity. Qed.

(** The ranges with their headers, and the length of the multipart body. *)
Definition with_text (cl : Z) (rg : range) : range :=
  mk_range (start rg) (end_ rg) (range_text (start rg) (end_ rg) cl ++ CRLF ++ CRLF).

Definition in_content (cl : Z) (rg : range) : Prop := 0 <= start rg < end_ rg /\ end_ rg <= cl.

Lemma fold_shift {B} (f : B -> Z) a len l :
  fold_right (fun x n => f x + n) (len + a) l = a + fold_right (fun x n => f x + n) len l.
Proof. induction l as [|x l IH]; cbn [fold_right]; [lia|]. rewrite IH. lia. Qed.

Lemma range_headers_exact cl bh l len : cl <= NGX_MAX_OFF_T_VALUE -> Forall (in_content cl) l ->
  range_headers cl bh l len =
  Some (map (with_text cl) l,
        fold_right (fun rg n => Z.of_nat bh + Z.of_nat (length (content_range (with_text cl rg))) + (end_ rg - start rg) + n) len l).
Proof.
  intros Hcl H. revert len. induction H as [|rg l [H1 H2] H IH]; intros len; cbn [range_headers map fold_right]; [reflexivity|].
  change [Arg_int (start rg); Arg_int (end_ rg - 1); Arg_int cl] with (range_args (start rg) (end_ rg) cl).
  rewrite (sprintf_range (CRLF ++ CRLF)) by (no_percent || lia). rewrite IH.
  do 3 f_equal. apply fold_shift.
Qed.

End Texts.

(** ** The bytes of buffers *)

Section Body.
(** The bytes at the addresses of memory and at the offsets of the file. *)
Context (mem file : Z -> Z).

Definition read (f : Z -> Z) (a b : Z) : list Z := map (fun i => f (a + Z.of_nat i)) (seq 0 (Z.to_nat (b - a))).

Definition buf_bytes (b : buf) : list Z :=
  if in_memory b then read mem (pos b) (last_ b)
  else if in_file b then read file (file_pos b) (file_last b)
  else [].

Definition bytes_of (l : list buf) : list Z := flat_map buf_bytes l.

(** A buffer that is well formed: data in memory or in the file, the same in
    both when it is in both; or a special buffer, without data. *)
Record buf_ok (b : buf) : Prop := {
  ok_memory : in_memory b = true -> pos b <= last_ b;
  ok_file : in_file b = true -> file_pos b <= file_last b;
  ok_both : in_memory b = true -> in_file b = true ->
    read mem (pos b) (last_ b) = read file (file_pos b) (file_last b);
  ok_data : in_memory b = false -> in_file b = false -> ngx_buf_special b = true /\ file_pos b = file_last b
}.

Lemma read_length f a b : length (read f a b) = Z.to_nat (b - a).
Proof. unfold read. rewrite length_map, length_seq. reflexivity. Qed.


Lemma read_front f a b n : 0 <= n -> skipn (Z.to_nat n) (read f a b) = read f (a + n) b.
Proof.
  intros Hn. unfold read. rewrite skipn_map, skipn_seq. cbn [Nat.add].
  replace (Z.to_nat (b - (a + n))) with (Z.to_nat (b - a) - Z.to_nat n)%nat by lia.
  generalize (Z.to_nat (b - a) - Z.to_nat n)%nat as k. intros k.
  rewrite <-(Nat.add_0_r (Z.to_nat n)) at 1. generalize O as j.
  induction k as [|k IH]; intros j; cbn [seq map]; [reflexivity|]. f_equal.
  - f_equal. lia.
  - rewrite <-Nat.add_succ_r. apply IH.
Qed.

Lemma firstn_seq k j n : firstn k (seq j n) = seq j (Nat.min k n).
Proof. revert j n. induction k as [|k IH]; intros j [|n]; cbn; try reflexivity. f_equal. apply IH. Qed.

Lemma read_back f a b n : 0 <= n -> read f a (b - n) = firstn (Z.to_nat (b - n - a)) (read f a b).
Proof.
  intros Hn. unfold read. rewrite firstn_map. f_equal. rewrite firstn_seq. f_equal. lia.
Qed.

Lemma size_bytes b : buf_ok b -> ngx_buf_size b = Z.of_nat (length (buf_bytes b)) /\ 0 <= ngx_buf_size b.
Proof.
  intros [H1 H2 _ H4]. unfold ngx_buf_size, buf_bytes. destruct (in_memory b); [specialize (H1 eq_refl); rewrite read_length; lia|].
  destruct (in_file b); [specialize (H2 eq_refl); rewrite read_length; lia|].
  destruct (H4 eq_refl eq_refl) as [_ ->]. cbn. lia.
Qed.

(** The two sizes of a buffer that is in memory and in the file. *)
Lemma both_sizes b : buf_ok b -> in_memory b = true -> in_file b = true -> last_ b - pos b = file_last b - file_pos b.
Proof.
  intros [H1 H2 H3 _] Hm Hf. specialize (H1 Hm). specialize (H2 Hf). specialize (H3 Hm Hf).
  apply (f_equal (@length Z)) in H3. rewrite !read_length in H3. lia.
Qed.

Lemma cut_front_bytes n b : buf_ok b -> 0 <= n <= ngx_buf_size b -> ngx_buf_special b = false ->
  buf_bytes (cut_front n b) = skipn (Z.to_nat n) (buf_bytes b) /\ buf_ok (cut_front n b) /\
  ngx_buf_special (cut_front n b) = false /\ ngx_buf_size (cut_front n b) = ngx_buf_size b - n.
Proof.
  intros Hok Hn Hs. pose proof (both_sizes b Hok) as Hb. destruct Hok as [H1 H2 H3 H4].
  assert (in_memory b = true \/ in_file b = true) as Hd.
  { destruct (in_memory b), (in_file b); auto. destruct (H4 eq_refl eq_refl). congruence. }
  unfold ngx_buf_size, ngx_buf_special, buf_bytes, cut_front in *. cbn.
  destruct (in_memory b) eqn:Em, (in_file b) eqn:Ef; cbn in *; try (destruct Hd; discriminate).
  all: repeat split; cbn; rewrite ?Em, ?Ef; try (intros; discriminate); try (rewrite read_front by lia; reflexivity);
    try assumption; try lia; try (cbn in *; congruence).
  intros _ _. rewrite <-!read_front by lia. f_equal. auto.
Qed.

Lemma cut_back_bytes n b : buf_ok b -> 0 <= n <= ngx_buf_size b -> ngx_buf_special b = false ->
  buf_bytes (cut_back n b) = firstn (Z.to_nat (ngx_buf_size b - n)) (buf_bytes b) /\ buf_ok (cut_back n b).
Proof.
  intros Hok Hn Hs. pose proof (both_sizes b Hok) as Hb. destruct Hok as [H1 H2 H3 H4].
  assert (in_memory b = true \/ in_file b = true) as Hd.
  { destruct (in_memory b), (in_file b); auto. destruct (H4 eq_refl eq_refl). congruence. }
  unfold ngx_buf_size, ngx_buf_special, buf_bytes, cut_back in *. cbn.
  destruct (in_memory b) eqn:Em, (in_file b) eqn:Ef; cbn in *; try (destruct Hd; discriminate).
  all: repeat split; cbn; rewrite ?Em, ?Ef; try (intros; discriminate); try lia;
    try (rewrite read_back by lia; f_equal; lia); try (cbn in *; congruence).
  intros _ _. rewrite !read_back by lia. rewrite H3 by reflexivity. f_equal. lia.
Qed.

(** The bytes of a range in data that starts at the offset [off]. *)
Definition slice (rg : range) (off : Z) (d : list Z) : list Z :=
  skipn (Z.to_nat (start rg - off)) (firstn (Z.to_nat (end_ rg - off)) d).

Lemma range_slice_app rg off d1 d2 :
  slice rg off (d1 ++ d2) = slice rg off d1 ++ slice rg (off + Z.of_nat (length d1)) d2.
Proof.
  unfold slice. rewrite firstn_app, skipn_app, length_firstn.
  destruct (Z.le_gt_cases (Z.of_nat (length d1)) (end_ rg - off)) as [H|H].
  - f_equal. f_equal; [lia|]. f_equal. lia.
  - replace (Z.to_nat (end_ rg - off) - length d1)%nat with O by lia.
    replace (Z.to_nat (end_ rg - (off + Z.of_nat (length d1)))) with O by lia. cbn [firstn]. rewrite !skipn_nil. reflexivity.
Qed.

Lemma slice_none rg off d : end_ rg <= off \/ off + Z.of_nat (length d) <= start rg -> slice rg off d = [].
Proof.
  intros [H|H]; unfold slice.
  - replace (Z.to_nat (end_ rg - off)) with O by lia. apply skipn_nil.
  - apply skipn_all2. rewrite length_firstn. lia.
Qed.

(** One buffer gives its part of the range. *)
Lemma single_buf_bytes main rg off b : buf_ok b -> start rg < end_ rg ->
  let '(b', sent, off') := single_buf main rg off b in
  (if sent then buf_bytes b' else []) = slice rg off (buf_bytes b) /\ (sent = true -> buf_ok b') /\
  off' = off + Z.of_nat (length (buf_bytes b)).
Proof.
  intros Hok Hrg. destruct (size_bytes b Hok) as [Hsz Hpos]. unfold single_buf.
  destruct (ngx_buf_special b) eqn:Hs.
  { assert (buf_bytes b = []) as E.
    { unfold ngx_buf_special in Hs. unfold buf_bytes. destruct (in_memory b), (in_file b), (flush b || last_buf b || sync b); cbn in Hs; congruence. }
    rewrite E in *. rewrite Hsz. unfold slice. rewrite firstn_nil, skipn_nil. destruct (negb _); auto. }
  destruct ((end_ rg <=? off) || (start rg >=? off + ngx_buf_size b)) eqn:Hskip.
  { rewrite slice_none by lia. split; [reflexivity|]. split; [discriminate|lia]. }
  assert (exists b1, (if start rg >? off then cut_front (start rg - off) b else b) = b1 /\ buf_ok b1 /\
    buf_bytes b1 = skipn (Z.to_nat (start rg - off)) (buf_bytes b) /\ ngx_buf_special b1 = false /\
    ngx_buf_size b1 = ngx_buf_size b - Z.max 0 (start rg - off)) as (b1 & -> & Hok1 & Hb1 & Hs1 & Hz1).
  { destruct (start rg >? off) eqn:E.
    - exists (cut_front (start rg - off) b). destruct (cut_front_bytes (start rg - off) b Hok ltac:(lia) Hs) as (H1 & H2 & H3 & H4).
      split; [reflexivity|]. repeat (split; [assumption|]). lia.
    - exists b. replace (Z.to_nat (start rg - off)) with O by lia. split; [reflexivity|].
      split; [exact Hok|]. split; [reflexivity|]. split; [exact Hs|]. lia. }
  unfold slice. destruct (end_ rg <=? off + ngx_buf_size b) eqn:Hend.
  - destruct (cut_back_bytes (off + ngx_buf_size b - end_ rg) b1 Hok1 ltac:(lia) Hs1) as [H1 H2].
    split; [|split; [|lia]].
    + transitivity (buf_bytes (cut_back (off + ngx_buf_size b - end_ rg) b1)); [reflexivity|].
      rewrite H1, Hb1, Hz1. rewrite firstn_skipn_comm. f_equal. f_equal. lia.
    + intros _. destruct H2 as [K1 K2 K3 K4]. split; cbn in *; auto.
      intros Hm Hf. unfold ngx_buf_special in Hs1. destruct Hok1 as [_ _ _ K]. specialize (K Hm Hf) as [K _]. unfold ngx_buf_special in K. congruence.
  - split; [|split; [auto|lia]]. rewrite Hb1, firstn_all2 by lia. reflexivity.
Qed.

Lemma single_loop_bytes main rg l : start rg < end_ rg -> Forall buf_ok l -> forall off,
  let '(out, off') := single_loop main rg off l in
  bytes_of out = slice rg off (bytes_of l) /\ Forall buf_ok out /\ off' = off + Z.of_nat (length (bytes_of l)).
Proof.
  intros Hrg H. induction H as [|b l Hb H IH]; intros off; cbn [single_loop].
  - unfold slice. cbn. rewrite firstn_nil, skipn_nil. repeat split; [constructor|lia].
  - pose proof (single_buf_bytes main rg off b Hb Hrg) as H1. destruct (single_buf main rg off b) as [[b' sent] off1].
    destruct H1 as (H1 & H2 & ->). specialize (IH (off + Z.of_nat (length (buf_bytes b)))).
    destruct (single_loop main rg _ l) as [out off2]. destruct IH as (I1 & I2 & ->).
    unfold bytes_of in *. cbn [flat_map]. rewrite flat_map_app, range_slice_app, <-H1, <-I1, length_app.
    repeat split; [|apply Forall_app; split; [|exact I2]|lia].
    + f_equal. destruct sent; cbn; [apply app_nil_r|reflexivity].
    + destruct sent; [constructor; [auto|constructor]|constructor].
Qed.

(** The calls of the body filter, each with the chain it gets. *)
Fixpoint single_calls (main : bool) (c : ctx) (rg : range) (calls : list (list buf)) : list buf :=
  match calls with
  | [] => []
  | l :: calls =>
      let '(out, c) := ngx_http_range_singlepart_body main c rg l in
      out ++ single_calls main c rg calls
  end.

Lemma single_calls_bytes main rg calls : start rg < end_ rg -> Forall (Forall buf_ok) calls -> forall c,
  bytes_of (single_calls main c rg calls) = slice rg (offset c) (bytes_of (concat calls)) /\
  Forall buf_ok (single_calls main c rg calls).
Proof.
  intros Hrg H. induction H as [|l calls Hl H IH]; intros c; cbn [single_calls concat].
  - unfold slice. cbn. rewrite firstn_nil, skipn_nil. repeat split. constructor.
  - unfold ngx_http_range_singlepart_body. pose proof (single_loop_bytes main rg l Hrg Hl (offset c)) as H1.
    destruct (single_loop main rg (offset c) l) as [out off]. destruct H1 as (H1 & H2 & ->).
    destruct (IH (mk_ctx (offset c + Z.of_nat (length (bytes_of l))) (boundary_header c) (ranges c))) as [I1 I2].
    unfold bytes_of in *. rewrite !flat_map_app, H1, I1, range_slice_app. split; [reflexivity|]. apply Forall_app. auto.
Qed.

Definition piece_bytes (p : piece) : list Z := match p with Text t => t | Data b => buf_bytes b end.

Definition sent (l : list piece) : list Z := flat_map piece_bytes l.

Lemma sent_data l : sent (map Data l) = bytes_of l.
Proof. unfold sent, bytes_of. rewrite flat_map_concat_map, map_map, <-flat_map_concat_map. reflexivity. Qed.

Lemma data_buf_bytes b rg : buf_ok b -> ngx_buf_special b = false -> 0 <= start rg < end_ rg ->
  end_ rg <= ngx_buf_size b -> buf_bytes (data_buf b rg) = slice rg 0 (buf_bytes b).
Proof.
  intros Hok Hs H1 H2. destruct Hok as [K1 K2 _ K4].
  assert (in_memory b = true \/ in_file b = true) as Hd.
  { destruct (in_memory b), (in_file b); auto. destruct (K4 eq_refl eq_refl). congruence. }
  assert (forall f a l, a <= l -> end_ rg <= l - a -> read f (a + start rg) (a + end_ rg) =
    skipn (Z.to_nat (start rg)) (firstn (Z.to_nat (end_ rg)) (read f a l))) as Hr.
  { intros f a l Hl He. rewrite <-read_front by lia. f_equal.
    replace (a + end_ rg) with (l - (l - a - end_ rg)) by lia. rewrite read_back by lia. f_equal. lia. }
  unfold slice. rewrite !Z.sub_0_r. unfold buf_bytes, ngx_buf_size in *. cbn.
  destruct (in_memory b); [apply Hr; [auto|lia]|]. destruct (in_file b); [apply Hr; [auto|lia]|].
  destruct Hd; discriminate.
Qed.

(** The filter called with one chain after the other. *)
Fixpoint run_filter `{P : Platform} (main : bool) (c : option ctx) (calls : list (list buf)) : option (list piece) :=
  match calls with
  | [] => Some []
  | l :: calls =>
      match ngx_http_range_body_filter main c l with
      | None => None
      | Some (out, c) =>
          match run_filter main c calls with Some rest => Some (out ++ rest) | None => None end
      end
  end.

Lemma run_filter_single `{P : Platform} main rg calls : forall c, ranges c = [rg] ->
  run_filter main (Some c) calls = Some (map Data (single_calls main c rg calls)).
Proof.
  induction calls as [|l calls IH]; intros c Hc; cbn [run_filter single_calls]; [reflexivity|].
  unfold ngx_http_range_body_filter. destruct l as [|b l].
  - rewrite IH by exact Hc. unfold ngx_http_range_singlepart_body. cbn [single_loop]. destruct c. reflexivity.
  - rewrite Hc. destruct (ngx_http_range_singlepart_body main c rg (b :: l)) as [out c'] eqn:E.
    assert (ranges c' = [rg]) as Hc'.
    { unfold ngx_http_range_singlepart_body in E. destruct (single_loop _ _ _ _). injection E as _ <-. exact Hc. }
    rewrite IH by exact Hc'. rewrite map_app. reflexivity.
Qed.

(** ** The multipart body *)

Definition part `{P : Platform} (h : headers_out) (b cl : Z) (content : list Z) (rg : range) : list Z :=
  delimiter b ++ CRLF ++ type_line h ++ bs "Content-Range: bytes " ++
  range_text (start rg) (end_ rg) cl ++ CRLF ++ CRLF ++ slice rg 0 content.

Definition multipart `{P : Platform} (h : headers_out) (b cl : Z) (content : list Z) (l : list range) : list Z :=
  flat_map (part h b cl content) l ++ delimiter b ++ bs "--" ++ CRLF.

Lemma range_slice_length rg d : 0 <= start rg < end_ rg -> end_ rg <= Z.of_nat (length d) ->
  Z.of_nat (length (slice rg 0 d)) = end_ rg - start rg.
Proof. intros H1 H2. unfold slice. rewrite length_skipn, length_firstn. lia. Qed.

(** The pieces of the body, when the headers are in place. *)
Lemma multipart_sent `{P : Platform} h bd off cl l b content :
  0 <= bd < 2 ^ bits ptr_size -> cl = Z.of_nat (length content) -> Forall (in_content cl) l ->
  buf_ok b -> ngx_buf_special b = false -> buf_bytes b = content ->
  sent (ngx_http_range_multipart_body
    (mk_ctx off (delimiter bd ++ CRLF ++ type_line h ++ bs "Content-Range: bytes ") (map (with_text cl) l)) b) =
  multipart h bd cl content l.
Proof.
  intros Hbd Hcl Hin Hok Hs Hb. destruct (size_bytes b Hok) as [Hsz _]. rewrite Hb in Hsz.
  unfold sent, ngx_http_range_multipart_body, multipart. cbn [boundary_header ranges].
  rewrite flat_map_app. f_equal.
  - clear -Hin Hok Hs Hb Hsz Hcl. induction Hin as [|rg l [H1 H2] Hin IH]; [reflexivity|]. cbn [map flat_map].
    rewrite flat_map_app, IH. f_equal. cbn [flat_map piece_bytes content_range with_text]. rewrite app_nil_r.
    rewrite data_buf_bytes; [|exact Hok|exact Hs|exact H1|cbn; lia]. unfold part. rewrite Hb.
    repeat rewrite <-app_assoc. reflexivity.
  - cbn [flat_map piece_bytes]. rewrite app_nil_r, firstn_app.
    replace (4 + NGX_ATOMIC_T_LEN - length (delimiter bd))%nat with O by (rewrite delimiter_length by exact Hbd; lia).
    rewrite firstn_all2 by (rewrite delimiter_length by exact Hbd; lia). rewrite app_nil_r. reflexivity.
Qed.

Lemma multipart_length `{P : Platform} h bd cl content l : 0 <= bd < 2 ^ bits ptr_size ->
  cl = Z.of_nat (length content) -> Forall (in_content cl) l ->
  fold_right (fun rg n => Z.of_nat (length (delimiter bd ++ CRLF ++ type_line h ++ bs "Content-Range: bytes "))
      + Z.of_nat (length (content_range (with_text cl rg))) + (end_ rg - start rg) + n)
    (Z.of_nat (4 + NGX_ATOMIC_T_LEN + 4)) l = Z.of_nat (length (multipart h bd cl content l)).
Proof.
  intros Hbd Hcl Hin. unfold multipart. induction Hin as [|rg l [H1 H2] Hin IH]; cbn [flat_map fold_right].
  - cbn [app]. rewrite length_app, delimiter_length by exact Hbd. reflexivity.
  - rewrite IH. rewrite <-app_assoc, (length_app (part _ _ _ _ _)). unfold part, with_text. cbn [content_range].
    rewrite !length_app in *. pose proof (range_slice_length rg content H1 ltac:(lia)). lia.
Qed.

Lemma multipart_exact `{P : Platform} h bd c c' h' b content :
  0 <= bd < 2 ^ bits ptr_size -> offset c = 0 -> content_length_n h = Z.of_nat (length content) ->
  content_length_n h <= NGX_MAX_OFF_T_VALUE -> Forall (in_content (content_length_n h)) (ranges c) ->
  (2 <= length (ranges c))%nat ->
  ngx_http_range_multipart_header bd c h = Some (Next (Some c') h') ->
  buf_ok b -> ngx_buf_special b = false -> buf_bytes b = content ->
  exists pieces c2, ngx_http_range_body_filter true (Some c') [b] = Some (pieces, c2) /\
    sent pieces = multipart h bd (content_length_n h) content (ranges c) /\
    content_length_n h' = Z.of_nat (length (sent pieces)).
Proof.
  intros Hbd Hoff Hcl Hmax Hin Hlen H Hok Hs Hbytes. unfold ngx_http_range_multipart_header in H.
  rewrite boundary_text in H by exact Hbd.
  change (bs "multipart/byteranges; boundary=%0muA") with
    (bs "multipart/byteranges; boundary=" ++ chr "%" :: chr "0" :: chr "m" :: chr "u" :: chr "A" :: []) in H.
  rewrite sprintf_text, sprintf_boundary, sprintf_nil in H by (exact Hbd || no_percent). cbn [option_map] in H.
  rewrite range_headers_exact in H by assumption.
  match type of H with Some (Next (Some ?x) ?y) = _ =>
    assert (c' = x /\ h' = y) as [-> ->] by (inversion H; split; reflexivity) end. clear H.
  destruct (size_bytes b Hok) as [Hsz _]. rewrite Hbytes in Hsz. cbn [ngx_http_range_body_filter ranges].
  set (c1 := mk_ctx (offset c) _ _). exists (ngx_http_range_multipart_body c1 b).
  exists (Some (mk_ctx (ngx_buf_size b) (boundary_header c1) (ranges c1))). split.
  - assert (ngx_http_range_test_overlapped c1 b = Some (mk_ctx (ngx_buf_size b) (boundary_header c1) (ranges c1))) as E.
    { unfold ngx_http_range_test_overlapped, c1. cbn [offset ranges]. rewrite Hoff. cbn [Z.eqb negb].
      replace (existsb _ _) with false; [rewrite andb_false_r; reflexivity|]. symmetry. clear -Hin Hsz Hcl.
      induction Hin as [|rg l [H1 H2] Hin IH]; [reflexivity|]. cbn [map existsb]. rewrite IH. cbn. lia. }
    rewrite Hs, E. destruct (ranges c) as [|x [|y l]]; cbn in Hlen; [lia|lia|reflexivity].
  - unfold c1. rewrite (multipart_sent h bd _ _ _ b content) by assumption. split; [reflexivity|].
    cbn [content_length_n set_content_range set_length]. apply multipart_length; assumption.
Qed.

(** Neither of the header writers changes the status. *)
Lemma multipart_header_status `{P : Platform} bd c c' h h' :
  ngx_http_range_multipart_header bd c h = Some (Next c' h') -> status h' = status h.
Proof.
  unfold ngx_http_range_multipart_header. destruct (boundary_of h bd); [|discriminate].
  match goal with |- context [ngx_sprintf ?a ?b] => destruct (ngx_sprintf a b) end; [|discriminate].
  match goal with |- context [range_headers ?a ?b ?c ?d] => destruct (range_headers a b c d) as [[? ?]|] end; [|discriminate].
  intros E. inversion E. reflexivity.
Qed.

Lemma singlepart_header_status `{P : Platform} r c c' h h' :
  ngx_http_range_singlepart_header r c h = Some (Next c' h') -> status h' = status h.
Proof.
  unfold ngx_http_range_singlepart_header. destruct (is_main r); cbn [negb].
  - destruct (ranges c) as [|x l]; [discriminate|].
    match goal with |- context [ngx_sprintf ?a ?b] => destruct (ngx_sprintf a b) end; [|discriminate].
    intros E. inversion E. reflexivity.
  - intros E. inversion E. reflexivity.
Qed.

(** The header filter, when it lets ranges through. *)
Lemma header_filter_ranges `{P : Platform} bd r c h : is_main r = true ->
  ngx_http_range_header_filter bd r = Some (Next (Some c) h) ->
  exists v l, range_h r = Some v /\
    ngx_http_range_parse None (skipn 6 v) (content_length_n (hout r)) (if single_range r then 1%nat else max_ranges r) = Some (inr l) /\
    let c0 := mk_ctx (content_offset (hout r)) [] l in
    let h0 := set_status NGX_HTTP_PARTIAL_CONTENT (hout r) in
    Some (Next (Some c) h) =
    match l with
    | [_] => ngx_http_range_singlepart_header r c0 h0
    | _ => ngx_http_range_multipart_header bd c0 h0
    end.
Proof.
  intros Hm H. unfold ngx_http_range_header_filter in H. rewrite Hm in H.
  destruct (_ || _) in H; [discriminate|]. destruct (Nat.eqb _ _) in H; [discriminate|].
  destruct (range_h r) as [v|]; [|discriminate]. destruct (_ || _) in H; [discriminate|].
  destruct (negb _) in H; [discriminate|].
  destruct (ngx_http_range_parse _ _ _ _) as [[rc|l]|] eqn:E; [| |discriminate].
  - destruct (_ =? _); [|discriminate]. unfold ngx_http_range_not_satisfiable in H.
    destruct (ngx_sprintf _ _); discriminate.
  - exists v, l. auto.
Qed.

End Body.

(** C17: The response to a range request is what its headers announce: when
    the header filter answers 206, the ranges are those of the Range header
    that have bytes in the content; for one range the bytes sent, however the
    response is cut into buffers and calls, are exactly those of the range,
    for several the body is their multipart encoding; in both cases the
    length announced is the number of bytes sent, and for one range the
    Content-Range header names it. *)
Theorem range_response_exact `{P : Platform} mem file bd r c h content :
  0 <= bd < 2 ^ bits ptr_size -> is_main r = true -> content_offset (hout r) = 0 ->
  content_length_n (hout r) = Z.of_nat (length content) -> content_length_n (hout r) <= NGX_MAX_OFF_T_VALUE ->
  (forall v, range_h r = Some v -> ~ In 0 v) ->
  ngx_http_range_header_filter bd r = Some (Next (Some c) h) ->
  status h = NGX_HTTP_PARTIAL_CONTENT /\
  exists v sps l, range_h r = Some v /\ items_of (skipn 6 v) sps /\
    l = map plain_range (selected (content_length_n (hout r)) sps) /\
    ((exists rg, l = [rg] /\
        content_range_h h = Some (bs "bytes " ++ range_text (start rg) (end_ rg) (content_length_n (hout r))) /\
        forall calls, Forall (Forall (buf_ok mem file)) calls -> bytes_of mem file (concat calls) = content ->
          exists pieces, run_filter true (Some c) calls = Some pieces /\
            sent mem file pieces = slice rg 0 content /\
            content_length_n h = Z.of_nat (length (sent mem file pieces))) \/
     ((2 <= length l)%nat /\
        forall b, buf_ok mem file b -> ngx_buf_special b = false -> buf_bytes mem file b = content ->
          exists pieces c', ngx_http_range_body_filter true (Some c) [b] = Some (pieces, c') /\
            sent mem file pieces = multipart (hout r) bd (content_length_n (hout r)) content l /\
            content_length_n h = Z.of_nat (length (sent mem file pieces)))).
Proof.
  intros Hbd Hm Hoff Hcl Hmax Hnul H.
  destruct (header_filter_ranges bd r c h Hm H) as (v & l & Hv & Hp & Hh). cbv zeta in Hh. clear H.
  assert (~ In 0 (skipn 6 v)) as H0.
  { intros Hin. apply (Hnul v Hv). rewrite <-(firstn_skipn 6 v). apply in_app_iff. auto. }
  destruct (range_parse_exact_lemma (skipn 6 v) (content_length_n (hout r))
    (if single_range r then 1%nat else max_ranges r) ltac:(lia) H0) as [_ Hx].
  apply Hx in Hp as (sps & Hi & -> & Hne & _ & _ & Hin). remember (map plain_range _) as l eqn:El in *.
  assert (status h = NGX_HTTP_PARTIAL_CONTENT) as Hst.
  { clear -Hh. symmetry in Hh. destruct l as [|x [|y l]];
      first [apply multipart_header_status in Hh|apply singlepart_header_status in Hh]; exact Hh. }
  split; [exact Hst|]. exists v, sps, l. split; [exact Hv|]. split; [exact Hi|]. split; [exact El|].
  destruct l as [|rg [|rg2 l]].
  - exfalso. apply Hne. destruct (selected _ _); [reflexivity|discriminate].
  - left. exists rg. split; [reflexivity|]. inversion Hin as [|? ? [R1 R2] _]; subst.
    unfold ngx_http_range_singlepart_header in Hh. rewrite Hm in Hh. cbn [negb ranges content_length_n set_status] in Hh.
    change (bs "bytes %O-%O/%O") with (bs "bytes " ++ bs "%O-%O/%O" ++ []) in Hh.
    change [Arg_int (start rg); Arg_int (end_ rg - 1); Arg_int (content_length_n (hout r))]
      with (range_args (start rg) (end_ rg) (content_length_n (hout r))) in Hh.
    rewrite sprintf_text, sprintf_range in Hh by (no_percent || lia). cbn [option_map] in Hh. rewrite app_nil_r in Hh.
    match type of Hh with _ = Some (Next (Some ?x) ?y) =>
      assert (c = x /\ h = y) as [-> ->] by (inversion Hh; split; reflexivity) end. clear Hh.
    split; [reflexivity|]. intros calls Hok Hb. exists (map Data (single_calls true (mk_ctx (content_offset (hout r)) [] [rg]) rg calls)).
    destruct (single_calls_bytes mem file true rg calls ltac:(lia) Hok (mk_ctx (content_offset (hout r)) [] [rg])) as [Hs _].
    rewrite sent_data, Hs, Hb. cbn [offset]. rewrite Hoff, range_slice_length by lia.
    split; [apply run_filter_single; reflexivity|]. split; reflexivity.
  - right. split; [cbn; lia|]. intros b Hok Hs Hb. 
    apply (multipart_exact mem file (set_status NGX_HTTP_PARTIAL_CONTENT (hout r)) bd
      (mk_ctx (content_offset (hout r)) [] (rg :: rg2 :: l)) c h b content); auto. cbn. lia.
Qed.

Definition hello (a : Z) : Z := nth (Z.to_nat a) (bs "hello, world") 0.

Definition hello_out : headers_out := mk_out 200 12 0 (bs "text/plain") 10 [] None false None (-1).

Definition hello_request : request :=
  mk_request 1001 true false true false 10 (Some (bs "bytes=1-3")) None None hello_out.

Definition hello_buf : buf := mk_buf false 0 0 true 0 12 false false true true.

Lemma range_response_exact_witness :
  exists c h pieces, @ngx_http_range_header_filter lp64 0 hello_request = Some (Next (Some c) h) /\
    status h = NGX_HTTP_PARTIAL_CONTENT /\ @run_filter lp64 true (Some c) [[hello_buf]] = Some pieces /\
    content_length_n h = Z.of_nat (length (sent hello hello pieces)).
Proof.
  do 2 eexists.
  assert (@ngx_http_range_header_filter lp64 0 hello_request = Some (Next (Some (mk_ctx 0 [] [mk_range 1 4 []]))
    (mk_out 206 3 1 (bs "text/plain") 10 [] (Some (bs "bytes 1-3/12")) false None (-1)))) as E by (vm_compute; reflexivity).
  assert (buf_ok hello hello hello_buf) as Hok by (split; vm_compute; try discriminate; reflexivity).
  destruct (@range_response_exact lp64 hello hello 0 hello_request _ _ (bs "hello, world")
    ltac:(vm_compute; split; congruence) eq_refl eq_refl eq_refl ltac:(vm_compute; discriminate)
    ltac:(intros v [= <-]; vm_compute; intuition discriminate) E) as (Hs & v & sps & l & _ & _ & _ & [(rg & _ & _ & H)|[_ H]]).
  - destruct (H [[hello_buf]] (Forall_cons _ (Forall_cons _ Hok (Forall_nil _)) (Forall_nil _)) eq_refl) as (pieces & H1 & _ & H2). eauto.
  - destruct (H hello_buf Hok eq_refl eq_refl) as (pieces & c' & H1 & _ & H2).
    exists (pieces ++ []). split; [exact E|]. split; [exact Hs|]. cbn [run_filter]. rewrite H1, app_nil_r. auto.
Defined.

End Range.
