(* ===== verification/HttpHuffman.v ===== *)
(** * The Huffman code of HPACK and QPACK

    [src/http/ngx_http_huff_decode.c] and [src/http/ngx_http_huff_encode.c]:
    the decoder is an automaton that reads half a byte at a time and can be
    stopped and resumed between calls, the encoder accumulates bits in a
    machine word. The code itself is given by the encoding table: a string is
    coded by the concatenation of the codes of its characters, filled up with
    ones. The automaton is related to it by the bits it has read since the
    last symbol, a table that is computed from the one of the source. *)
From Stdlib Require Import String Ascii ZArith Bool Lia ZifyBool List.
From S2P Require Import Prelude HttpHuffTables.
Import ListNotations.

Local Open Scope Z_scope.
Local Open Scope nginx_scope.

Module Huffman.
Import HuffTables.

(** ** Decoding *)

Definition code_at (state bits : Z) : decode_code :=
  nth (Z.to_nat bits) (nth (Z.to_nat state) ngx_http_huff_decode_codes []) (dc 0 0 0 0).

(** The state of the automaton with what has been written through [dst]. *)
Record decoder := mk_decoder { state : Z; ends : Z; out : list Z }.

(** [ngx_http_huff_decode_bits]: [None] for [NGX_ERROR] *)
Definition ngx_http_huff_decode_bits (d : decoder) (bits : Z) : option decoder :=
  let c := code_at (state d) bits in
  if next c =? state d then None
  else Some (mk_decoder (next c) (ending c) (if emit c =? 0 then out d else out d ++ [sym c])).

(** The loop over the bytes: the decoder where it stopped, and whether it
    read everything. *)
Fixpoint decode_loop (d : decoder) (src : list Z) : decoder * bool :=
  match src with
  | [] => (d, true)
  | ch :: src =>
      match ngx_http_huff_decode_bits d (Z.shiftr ch 4) with
      | None => (d, false)
      | Some d =>
          match ngx_http_huff_decode_bits d (Z.land ch 0xf) with
          | None => (d, false)
          | Some d => decode_loop d src
          end
      end
  end.

(** The return code, the new state and the characters written. *)
Definition ngx_http_huff_decode (st : Z) (src : list Z) (last : bool) : Z * Z * list Z :=
  let '(d, ok) := decode_loop (mk_decoder st 1 []) src in
  if negb ok then (NGX_ERROR, state d, out d)
  else if last then
    if ends d =? 0 then (NGX_ERROR, state d, out d) else (NGX_OK, 0, out d)
  else (NGX_OK, state d, out d).

(** A string that arrives in pieces, as [ngx_http_v2_state_field_huff] and
    its like feed it: [last] is set for the last piece. *)
Fixpoint decode_pieces (st : Z) (pieces : list (list Z)) (l : list Z) : Z * Z * list Z :=
  match pieces with
  | [] => ngx_http_huff_decode st l true
  | p :: pieces =>
      let '(rc, st, o) := ngx_http_huff_decode st p false in
      if rc =? NGX_OK then
        let '(rc, st, o') := decode_pieces st pieces l in (rc, st, o ++ o')
      else (rc, st, o)
  end.

(** ** Encoding *)

Section Encode.
Context `{P : Platform}.

Local Abbreviation W := (bits ptr_size).

(** [ngx_http_huff_encode_buf]: the word in network order *)
Fixpoint be_bytes (n : nat) (buf : Z) : list Z :=
  match n with
  | O => []
  | S n => Z.land (Z.shiftr buf (8 * Z.of_nat n)) 0xff :: be_bytes n buf
  end.

Definition ngx_http_huff_encode_buf (buf : Z) : list Z := be_bytes (Z.to_nat (W / 8)) buf.

Definition entry (table : list encode_code) (c : Z) : encode_code := nth (Z.to_nat c) table (ec 0 0).

(** The loop over the characters, for a string of [total] bytes: [None] for
    the early [return 0], else [dst], [buf] and [pending]. *)
Fixpoint encode_loop (table : list encode_code) (total : Z) (dst : list Z) (buf pending : Z) (src : list Z)
    : option (list Z * Z * Z) :=
  match src with
  | [] => Some (dst, buf, pending)
  | c :: src =>
      let code := code (entry table c) in
      let pending := pending + len (entry table c) in
      if pending <? W then
        encode_loop table total dst (Z.lor buf (wrapu ptr_size (Z.shiftl code (W - pending)))) pending src
      else if Z.of_nat (length dst) + W / 8 >=? total then None
      else
        let pending := pending - W in
        let buf := Z.lor buf (Z.shiftr code pending) in
        encode_loop table total (dst ++ ngx_http_huff_encode_buf buf)
          (if pending =? 0 then 0 else wrapu ptr_size (Z.shiftl code (W - pending))) pending src
  end.

(** [ngx_align(pending, 8)] *)
Definition ngx_align (d a : Z) : Z := Z.land (d + (a - 1)) (Z.lnot (a - 1)).

(** The bytes that [ngx_http_huff_encode] writes when it does not give up;
    its value is their number. *)
Definition ngx_http_huff_encode (src : list Z) (lower : bool) : option (list Z) :=
  let table := if lower then ngx_http_huff_encode_table_lc else ngx_http_huff_encode_table in
  let total := Z.of_nat (length src) in
  match encode_loop table total [] 0 0 src with
  | None => None
  | Some (dst, buf, pending) =>
      if pending =? 0 then Some dst
      else
        let buf := Z.lor buf (Z.shiftr (2 ^ W - 1) pending) in
        let pending := ngx_align pending 8 in
        if Z.of_nat (length dst) + pending / 8 >=? total then None
        else
          let buf := Z.shiftr buf (W - pending) in
          Some (dst ++ be_bytes (Z.to_nat (pending / 8)) buf)
  end.

End Encode.

Example huff_encode_ex : @ngx_http_huff_encode lp64 (bs "www.example.com") false =
  Some [0xf1; 0xe3; 0xc2; 0xe5; 0xf2; 0x3a; 0x6b; 0xa0; 0xab; 0x90; 0xf4; 0xff].
Proof. vm_compute. reflexivity. Qed.

Example huff_decode_ex : ngx_http_huff_decode 0
  [0xf1; 0xe3; 0xc2; 0xe5; 0xf2; 0x3a; 0x6b; 0xa0; 0xab; 0x90; 0xf4; 0xff] true = (NGX_OK, 0, bs "www.example.com").
Proof. vm_compute. reflexivity. Qed.

(** ** The code *)

(** The last [n] bits of a number, the highest first. *)
Fixpoint to_bits (n : nat) (v : Z) : list bool :=
  match n with
  | O => []
  | S n => Z.testbit v (Z.of_nat n) :: to_bits n v
  end.

Definition bits_of (l : list Z) : list bool := flat_map (to_bits 8) l.

Definition word (table : list encode_code) (c : Z) : list bool :=
  to_bits (Z.to_nat (len (entry table c))) (code (entry table c)).

Definition codeword (c : Z) : list bool := word ngx_http_huff_encode_table c.

(** All of them, computed once. *)
Definition codewords : list (list bool) := Eval vm_compute in map codeword all_bytes.

Definition codes (l : list Z) : list bool := flat_map codeword l.

Definition ones (b : list bool) : bool := forallb (fun x => x) b.

(** ** The states of the automaton

    The bits read since the last symbol, for every state: starting with no
    bits for state 0, the states are reached in eight rounds. *)
Definition reach (m : list (option (list bool))) (sn : Z * Z) : list (option (list bool)) :=
  let '(s, n) := sn in
  let c := code_at s n in
  match nth (Z.to_nat s) m None, nth (Z.to_nat (next c)) m None with
  | Some p, None =>
      let q := p ++ to_bits 4 n in
      firstn (Z.to_nat (next c)) m
        ++ Some (skipn (if emit c =? 0 then 0 else length (codeword (sym c))) q)
        :: skipn (S (Z.to_nat (next c))) m
  | _, _ => m
  end.

Definition nibble_values : list Z := map Z.of_nat (seq 0 16).

Definition all_entries : list (Z * Z) := list_prod all_bytes nibble_values.

Definition paths : list (option (list bool)) :=
  Eval vm_compute in
    Nat.iter 8 (fun m => fold_left reach all_entries m) (Some [] :: repeat None 255).

Definition path (s : Z) : list bool :=
  match nth (Z.to_nat s) paths None with Some p => p | None => [] end.

Fixpoint bits_eqb (a b : list bool) : bool :=
  match a, b with
  | [], [] => true
  | x :: a, y :: b => Bool.eqb x y && bits_eqb a b
  | _, _ => false
  end.

Fixpoint is_prefix (a b : list bool) : bool :=
  match a, b with
  | [], _ => true
  | x :: a, y :: b => Bool.eqb x y && is_prefix a b
  | _, [] => false
  end.

Lemma bits_eqb_eq a b : bits_eqb a b = true -> a = b.
Proof.
  revert b. induction a as [|x a IH]; intros [|y b]; cbn; try discriminate; [reflexivity|].
  intros H. apply andb_true_iff in H as [H1 H2]. apply eqb_prop in H1. rewrite (IH b H2), H1. reflexivity.
Qed.

Lemma is_prefix_app a b c : is_prefix a (a ++ b) = true /\ (is_prefix (a ++ b) c = true -> is_prefix a c = true).
Proof.
  revert c. induction a as [|x a IH]; intros c; cbn; [auto|]. rewrite eqb_reflx. split; [apply (IH [])|].
  destruct c as [|y c]; [discriminate|]. intros H. apply andb_true_iff in H as [H1 H2]. rewrite H1. apply (IH c), H2.
Qed.

(** Of two words at the start of the same text one is a prefix of the other. *)
Lemma prefix_cases a b u v : a ++ u = b ++ v -> is_prefix a b = true \/ is_prefix b a = true.
Proof.
  revert b. induction a as [|x a IH]; intros [|y b]; cbn; auto.
  intros [= -> H]. rewrite eqb_reflx. apply IH, H.
Qed.

(** *** What the tables satisfy *)

(** Every entry of the automaton: an error exactly when thirty ones have
    been read, otherwise a symbol is emitted when its code has been read and
    the rest are the bits of the new state. *)
Definition entry_ok (s n : Z) : bool :=
  let c := code_at s n in
  let q := path s ++ to_bits 4 n in
  if next c =? s then (30 <=? length q)%nat && ones (firstn 30 q)
  else (0 <=? next c) && (next c <? 256) && (0 <=? sym c) && (sym c <? 256)
    && bits_eqb q ((if emit c =? 0 then [] else codeword (sym c)) ++ path (next c))
    && Bool.eqb (negb (ending c =? 0)) (ones (path (next c))).

Lemma table_entry s n : is_byte s -> 0 <= n < 16 -> entry_ok s n = true.
Proof.
  assert (forallb (fun s => forallb (entry_ok s) nibble_values) all_bytes = true) as H by (vm_compute; reflexivity).
  intros Hs Hn. apply (byte_forall _ H) in Hs. rewrite forallb_forall in Hs. apply Hs.
  apply in_map_iff. exists (Z.to_nat n). split; [lia|]. apply in_seq. lia.
Qed.

(** No code is empty, has only ones or more than thirty bits, and none is
    the beginning of another one or of the bits of a state. *)
Definition word_ok (c : Z) : bool :=
  (5 <=? length (codeword c))%nat && (length (codeword c) <=? 30)%nat && negb (ones (codeword c))
  && (let w := codeword c in
      forallb (fun dv => (c =? fst dv) || negb (is_prefix w (snd dv))) (combine all_bytes codewords)
      && forallb (fun p => match p with Some p => negb (is_prefix w p) | None => false end) paths).

Lemma word_entry c : is_byte c -> word_ok c = true.
Proof. apply byte_forall. vm_compute. reflexivity. Qed.

Lemma word_length c : is_byte c -> (5 <= length (codeword c) <= 30)%nat /\ ones (codeword c) = false.
Proof. intros H%word_entry. unfold word_ok in H. lia. Qed.

Lemma in_all_bytes d : is_byte d -> In d all_bytes.
Proof. intros [H1 H2]. apply in_map_iff. exists (Z.to_nat d). split; [lia|]. apply in_seq. lia. Qed.

Lemma in_codewords d : is_byte d -> In (d, codeword d) (combine all_bytes codewords).
Proof.
  intros Hd. change codewords with (map codeword all_bytes). apply in_all_bytes in Hd.
  induction all_bytes as [|x l IH]; [destruct Hd|]. cbn [map combine]. destruct Hd as [->|Hd]; [left; reflexivity|right; auto].
Qed.

Lemma word_prefix c d : is_byte c -> is_byte d -> is_prefix (codeword c) (codeword d) = true -> c = d.
Proof.
  intros H%word_entry Hd Hp. unfold word_ok in H. rewrite !andb_true_iff in H. destruct H as [_ [H _]].
  rewrite forallb_forall in H. specialize (H _ (in_codewords d Hd)). cbn [fst snd] in H. rewrite Hp in H. cbn in H. lia.
Qed.

Lemma word_state c s : is_byte c -> is_byte s -> is_prefix (codeword c) (path s) = false.
Proof.
  intros H%word_entry Hs. unfold word_ok in H. rewrite !andb_true_iff in H. destruct H as [_ [_ H]].
  rewrite forallb_forall in H. unfold path.
  assert (In (nth (Z.to_nat s) paths None) paths) as Hin by (apply nth_In; destruct Hs; change (length paths) with 256%nat; lia).
  apply H in Hin. destruct (nth _ paths None); [apply negb_true_iff, Hin|discriminate].
Qed.

Lemma path_length s : is_byte s -> (length (path s) < 30)%nat.
Proof. intros H. apply Nat.ltb_lt. revert s H. apply byte_forall. vm_compute. reflexivity. Qed.

(** ** The decoder reads the code *)

Definition nibbles (l : list Z) : list Z := flat_map (fun ch => [Z.shiftr ch 4; Z.land ch 0xf]) l.

Fixpoint run (d : decoder) (ns : list Z) : option decoder :=
  match ns with
  | [] => Some d
  | n :: ns => match ngx_http_huff_decode_bits d n with Some d => run d ns | None => None end
  end.

Lemma loop_run src : forall d, 
  match run d (nibbles src) with
  | Some d' => decode_loop d src = (d', true)
  | None => snd (decode_loop d src) = false
  end.
Proof.
  induction src as [|ch src IH]; intros d; [reflexivity|]. cbn [nibbles flat_map app run decode_loop].
  destruct (ngx_http_huff_decode_bits d (Z.shiftr ch 4)) as [d1|]; [|reflexivity].
  destruct (ngx_http_huff_decode_bits d1 (Z.land ch 15)) as [d2|]; [apply IH|reflexivity].
Qed.

Lemma to_bits_app a b v : to_bits (a + b) v = to_bits a (Z.shiftr v (Z.of_nat b)) ++ to_bits b v.
Proof.
  induction a as [|a IH]; [reflexivity|]. cbn [to_bits Nat.add app]. rewrite IH, Z.shiftr_spec by lia. do 2 f_equal. lia.
Qed.

Lemma to_bits_mod n v : to_bits n (v mod 2 ^ Z.of_nat n) = to_bits n v.
Proof.
  assert (forall m k, (m <= k)%nat -> to_bits m (v mod 2 ^ Z.of_nat k) = to_bits m v) as H; [|apply H; lia].
  induction m as [|m IH]; intros k Hk; [reflexivity|]. cbn [to_bits]. rewrite IH by lia. f_equal. apply Z.mod_pow2_bits_low. lia.
Qed.

Lemma nibbles_bits l : flat_map (to_bits 4) (nibbles l) = bits_of l.
Proof.
  induction l as [|ch l IH]; [reflexivity|]. unfold bits_of. cbn [nibbles flat_map app]. fold (nibbles l).
  rewrite IH. change (to_bits 8 ch) with (to_bits (4 + 4) ch). rewrite to_bits_app, <-app_assoc. do 2 f_equal.
  rewrite (land_ones_mod _ 15 4) by (reflexivity || lia). apply (to_bits_mod 4).
Qed.

Lemma nibbles_range l : bytes l -> Forall (fun n => 0 <= n < 16) (nibbles l).
Proof.
  intros H. induction H as [|ch l [H1 H2] H IH]; [constructor|]. cbn [nibbles flat_map app]. fold (nibbles l).
  rewrite Z.shiftr_div_pow2 by lia. rewrite (land_ones_mod _ 15 4) by (reflexivity || lia).
  constructor; [div_lia|]. constructor; [div_lia|exact IH].
Qed.

(** One step, in terms of the bits. *)
Lemma step_bits d n : is_byte (state d) -> 0 <= n < 16 ->
  match ngx_http_huff_decode_bits d n with
  | None => (30 <= length (path (state d) ++ to_bits 4 n))%nat /\ ones (firstn 30 (path (state d) ++ to_bits 4 n)) = true
  | Some d' => exists o, out d' = out d ++ o /\ bytes o /\ (length o <= 1)%nat /\ is_byte (state d') /\
      path (state d) ++ to_bits 4 n = codes o ++ path (state d') /\ negb (ends d' =? 0) = ones (path (state d'))
  end.
Proof.
  intros Hs Hn. pose proof (table_entry _ _ Hs Hn) as H. unfold entry_ok in H. unfold ngx_http_huff_decode_bits.
  destruct (next (code_at (state d) n) =? state d).
  - apply andb_true_iff in H as [H1 H2]. apply Nat.leb_le in H1. auto.
  - rewrite !andb_true_iff in H. destruct H as [[[[[H1 H2] H3] H4] H5] H6].
    apply bits_eqb_eq in H5. apply eqb_prop in H6. cbn [out state ends]. rewrite H5.
    exists (if emit (code_at (state d) n) =? 0 then [] else [sym (code_at (state d) n)]).
    assert (is_byte (next (code_at (state d) n))) by (unfold is_byte; lia).
    destruct (emit _ =? 0); cbn [codes flat_map length app]; rewrite ?app_nil_r; repeat split; auto;
      try constructor; try constructor; unfold is_byte in *; lia.
Qed.

Lemma run_sound ns : Forall (fun n => 0 <= n < 16) ns -> forall d d', is_byte (state d) -> run d ns = Some d' ->
  exists o, out d' = out d ++ o /\ bytes o /\ is_byte (state d') /\
    path (state d) ++ flat_map (to_bits 4) ns = codes o ++ path (state d') /\
    (ns <> [] -> negb (ends d' =? 0) = ones (path (state d'))).
Proof.
  intros H. induction H as [|n ns Hn H IH]; intros d d' Hs Hr; cbn [run flat_map] in *.
  - inv Hr. exists []. rewrite !app_nil_r. repeat split; auto; try constructor; unfold is_byte in *; try lia. contradiction.
  - pose proof (step_bits d n Hs Hn) as Hb. destruct (ngx_http_huff_decode_bits d n) as [d1|]; [|discriminate].
    destruct Hb as (o1 & E1 & B1 & _ & S1 & P1 & N1). destruct (IH d1 d' S1 Hr) as (o2 & E2 & B2 & S2 & P2 & N2).
    exists (o1 ++ o2). rewrite E2, E1, app_assoc. split; [reflexivity|]. split; [apply bytes_app; auto|]. split; [exact S2|]. split.
    + rewrite app_assoc, P1, <-app_assoc, P2. unfold codes. rewrite flat_map_app, app_assoc. reflexivity.
    + intros _. destruct ns; [|apply N2; discriminate]. cbn in Hr. inv Hr. exact N1.
Qed.

Lemma ones_app a b : ones (a ++ b) = ones a && ones b.
Proof. apply forallb_app. Qed.

Lemma ones_firstn n l : ones l = true -> ones (firstn n l) = true.
Proof. rewrite <-(firstn_skipn n l) at 1. rewrite ones_app. intros H%andb_true_iff. apply H. Qed.

(** A text of codes filled up with less than thirty ones. *)
Definition text (o : list Z) (pad : list bool) : list bool := codes o ++ pad.

Definition pad_ok (pad : list bool) : Prop := ones pad = true /\ (length pad < 30)%nat.

Lemma text_cons a o pad : text (a :: o) pad = codeword a ++ text o pad.
Proof. unfold text, codes. cbn [flat_map]. rewrite app_assoc. reflexivity. Qed.

Lemma text_no_eos o pad q rest : bytes o -> pad_ok pad -> q ++ rest = text o pad -> (30 <= length q)%nat ->
  ones (firstn 30 q) = true -> False.
Proof.
  intros Ho [_ Hpad] E Hq H1. destruct Ho as [|a o Ha Ho].
  - apply (f_equal (@length bool)) in E. unfold text in E. cbn in E. rewrite length_app in E. lia.
  - destruct (word_length a Ha) as [[_ Hl] Hw]. rewrite text_cons in E.
    assert (codeword a = firstn (length (codeword a)) (firstn 30 q)) as Ec.
    { rewrite firstn_firstn, Nat.min_l by lia. transitivity (firstn (length (codeword a)) (q ++ rest)).
      - rewrite E, firstn_app, firstn_all, Nat.sub_diag, firstn_O, app_nil_r. reflexivity.
      - rewrite firstn_app. replace (length (codeword a) - length q)%nat with O by lia. rewrite firstn_O, app_nil_r. reflexivity. }
    rewrite Ec, ones_firstn in Hw by exact H1. discriminate.
Qed.

Lemma text_word a u o pad : is_byte a -> bytes o -> pad_ok pad -> codeword a ++ u = text o pad ->
  exists o', o = a :: o' /\ u = text o' pad.
Proof.
  intros Ha Ho [Hp _] E. destruct (word_length a Ha) as [_ Hw]. destruct Ho as [|b o Hb Ho].
  - unfold text in E. cbn in E. rewrite <-E, ones_app, Hw in Hp. discriminate.
  - rewrite text_cons in E. assert (a = b) as ->.
    { destruct (prefix_cases _ _ _ _ E) as [H|H]; [|symmetry]; eapply word_prefix; eauto. }
    apply app_inv_head in E. eauto.
Qed.

Lemma text_state s o pad : is_byte s -> bytes o -> path s = text o pad -> o = [].
Proof.
  intros Hs Ho E. destruct Ho as [|a o Ha Ho]; [reflexivity|]. rewrite text_cons in E.
  pose proof (word_state a s Ha Hs) as H. rewrite E, (proj1 (is_prefix_app _ _ [])) in H. discriminate.
Qed.

Lemma run_complete ns : Forall (fun n => 0 <= n < 16) ns -> forall d o pad, is_byte (state d) -> bytes o -> pad_ok pad ->
  path (state d) ++ flat_map (to_bits 4) ns = text o pad ->
  exists d', run d ns = Some d' /\ out d' = out d ++ o /\ path (state d') = pad.
Proof.
  intros H. induction H as [|n ns Hn H IH]; intros d o pad Hs Ho Hp E; cbn [run flat_map] in *.
  - rewrite app_nil_r in E. pose proof (text_state _ _ _ Hs Ho E) as ->. exists d. rewrite app_nil_r. auto.
  - pose proof (step_bits d n Hs Hn) as Hb. rewrite app_assoc in E.
    destruct (ngx_http_huff_decode_bits d n) as [d1|].
    + destruct Hb as (o1 & E1 & B1 & L1 & S1 & P1 & _). rewrite P1, <-app_assoc in E.
      assert (exists o2, o = o1 ++ o2 /\ path (state d1) ++ flat_map (to_bits 4) ns = text o2 pad) as (o2 & -> & E2).
      { destruct o1 as [|a [|b o1]]; [exists o; auto| |cbn in L1; lia]. inversion B1; subst.
        unfold codes in E. cbn [flat_map] in E. rewrite app_nil_r in E.
        destruct (text_word _ _ _ _ ltac:(eassumption) Ho Hp E) as (o' & -> & E'). exists o'. auto. }
      apply Forall_app in Ho as [_ Ho2]. destruct (IH d1 o2 pad S1 Ho2 Hp E2) as (d' & R & Eo & Ep).
      exists d'. rewrite Eo, E1, app_assoc. auto.
    + destruct Hb as [Hl H1]. destruct (text_no_eos _ _ _ _ Ho Hp E Hl H1).
Qed.

Lemma zero_byte : is_byte 0.
Proof. unfold is_byte. lia. Qed.

(** The decoder of a whole string. *)
Lemma decode_whole src o : bytes src ->
  ngx_http_huff_decode 0 src true = (NGX_OK, 0, o) <->
  exists pad, bytes o /\ pad_ok pad /\ bits_of src = text o pad.
Proof.
  intros Hb. pose proof (nibbles_range src Hb) as Hn. pose proof (loop_run src (mk_decoder 0 1 [])) as Hl.
  pose proof (nibbles_bits src) as En. unfold ngx_http_huff_decode. split.
  - intros H. destruct (run _ _) as [d|] eqn:Er.
    + rewrite Hl in H. cbn [negb] in H. destruct (ends d =? 0) eqn:Ee; [discriminate|]. inv H.
      destruct (run_sound _ Hn (mk_decoder 0 1 []) _ zero_byte Er) as (o & E & Ho & Hs & Hp & He).
      exists (path (state d)). cbn [out state] in *. rewrite E. split; [exact Ho|]. split.
      * split; [|apply path_length, Hs]. destruct (nibbles src) as [|n ns]; [cbn in Er; inv Er; reflexivity|].
        rewrite <-He, Ee by discriminate. reflexivity.
      * rewrite <-En. exact Hp.
    + destruct (decode_loop _ src) as [d b]. cbn in Hl. subst b. discriminate.
  - intros (pad & Ho & Hp & E). rewrite <-En in E.
    destruct (run_complete _ Hn (mk_decoder 0 1 []) o pad zero_byte Ho Hp E) as (d & Er & Eo & Ep).
    rewrite Er in Hl. rewrite Hl. cbn [negb]. destruct (run_sound _ Hn (mk_decoder 0 1 []) _ zero_byte Er) as (_ & _ & _ & _ & _ & He).
    destruct (ends d =? 0) eqn:Ee; [|cbn [out app] in Eo; rewrite Eo; reflexivity]. exfalso.
    destruct Hp as [Hp _]. destruct (nibbles src) as [|n ns]; [cbn in Er; inv Er; discriminate|].
    specialize (He ltac:(discriminate)). rewrite Ep, Hp in He. discriminate.
Qed.

(** ** Strings in pieces *)

Definition shift (o : list Z) (d : decoder) : decoder := mk_decoder (state d) (ends d) (o ++ out d).

(** What was written before and the mark of the end do not matter. *)
Lemma bits_shift o s e e' o' n :
  ngx_http_huff_decode_bits (mk_decoder s e (o ++ o')) n =
  option_map (shift o) (ngx_http_huff_decode_bits (mk_decoder s e' o') n).
Proof.
  unfold ngx_http_huff_decode_bits. cbn [state out]. destruct (next _ =? s); [reflexivity|].
  cbn [option_map]. unfold shift. cbn [state ends out]. destruct (emit _ =? 0); [reflexivity|]. rewrite app_assoc. reflexivity.
Qed.

Lemma loop_shift o src : forall d, decode_loop (shift o d) src = (shift o (fst (decode_loop d src)), snd (decode_loop d src)).
Proof.
  induction src as [|ch src IH]; intros [s e o']; [reflexivity|]. cbn [decode_loop]. unfold shift at 1. cbn [state ends out].
  rewrite (bits_shift o s e e). destruct (ngx_http_huff_decode_bits _ (Z.shiftr ch 4)) as [[s1 e1 o1]|]; [|reflexivity].
  cbn [option_map]. unfold shift at 1. cbn [state ends out]. rewrite (bits_shift o s1 e1 e1).
  destruct (ngx_http_huff_decode_bits _ (Z.land ch 15)) as [d2|]; [|reflexivity]. cbn [option_map]. apply IH.
Qed.

Lemma loop_app a b : forall d, decode_loop d (a ++ b) =
  let '(d', ok) := decode_loop d a in if ok then decode_loop d' b else (d', false).
Proof.
  induction a as [|ch a IH]; intros d; [reflexivity|]. cbn [app decode_loop].
  destruct (ngx_http_huff_decode_bits d _) as [d1|]; [|reflexivity].
  destruct (ngx_http_huff_decode_bits d1 _) as [d2|]; [apply IH|reflexivity].
Qed.

(** A non-empty piece does not depend on the mark left by the one before. *)
Lemma loop_ends s e src (last : bool) : src <> [] ->
  (let '(d, ok) := decode_loop (mk_decoder s e []) src in
   if negb ok then (NGX_ERROR, state d, out d)
   else if last then if ends d =? 0 then (NGX_ERROR, state d, out d) else (NGX_OK, 0, out d)
   else (NGX_OK, state d, out d)) = ngx_http_huff_decode s src last.
Proof.
  destruct src as [|ch src]; [contradiction|intros _]. unfold ngx_http_huff_decode. cbn [decode_loop].
  rewrite (bits_shift [] s e 1 []). destruct (ngx_http_huff_decode_bits _ _) as [[s1 e1 o1]|]; [|reflexivity]. reflexivity.
Qed.

Lemma huff_decode_app s a b last : b <> [] ->
  ngx_http_huff_decode s (a ++ b) last =
  let '(rc, s1, o) := ngx_http_huff_decode s a false in
  if rc =? NGX_OK then let '(rc, s2, o') := ngx_http_huff_decode s1 b last in (rc, s2, o ++ o') else (rc, s1, o).
Proof.
  intros Hb. unfold ngx_http_huff_decode at 1 2. rewrite loop_app.
  destruct (decode_loop (mk_decoder s 1 []) a) as [[s1 e1 o1] ok]. destruct ok; [|reflexivity].
  cbn [negb state out Z.eqb NGX_OK]. rewrite <-(loop_ends s1 e1 b last Hb).
  replace (mk_decoder s1 e1 o1) with (shift o1 (mk_decoder s1 e1 [])) by (unfold shift; cbn; rewrite app_nil_r; reflexivity).
  rewrite loop_shift. destruct (decode_loop (mk_decoder s1 e1 []) b) as [d ok]. cbn [fst snd state ends out shift].
  destruct (negb ok); [reflexivity|]. destruct last; [|reflexivity]. destruct (ends d =? 0); reflexivity.
Qed.

Lemma pieces_whole pieces l : l <> [] -> forall s, decode_pieces s pieces l = ngx_http_huff_decode s (concat pieces ++ l) true.
Proof.
  intros Hl. induction pieces as [|p pieces IH]; intros s; [reflexivity|]. cbn [decode_pieces concat]. rewrite <-app_assoc.
  rewrite huff_decode_app by (intros E%app_eq_nil; intuition). destruct (ngx_http_huff_decode s p false) as [[rc s1] o].
  rewrite IH. reflexivity.
Qed.

(** ** Room for the output *)

Lemma codes_length o : bytes o -> (5 * length o <= length (codes o))%nat.
Proof.
  intros H. induction H as [|a o Ha H IH]; [cbn; lia|]. unfold codes in *. cbn [flat_map length]. rewrite length_app.
  pose proof (word_length a Ha). lia.
Qed.

Lemma loop_prefix src : forall d, exists k, run d (firstn k (nibbles src)) = Some (fst (decode_loop d src)).
Proof.
  induction src as [|ch src IH]; intros d; [exists O; reflexivity|]. cbn [nibbles flat_map app decode_loop].
  destruct (ngx_http_huff_decode_bits d (Z.shiftr ch 4)) as [d1|] eqn:E1; [|exists O; reflexivity].
  destruct (ngx_http_huff_decode_bits d1 (Z.land ch 15)) as [d2|] eqn:E2.
  - destruct (IH d2) as [k Hk]. exists (S (S k)). cbn [firstn run]. rewrite E1. cbn [run]. rewrite E2. exact Hk.
  - exists 1%nat. cbn [firstn run]. rewrite E1. reflexivity.
Qed.

Lemma nibbles_length k l : bytes l -> (length (flat_map (to_bits 4) (firstn k (nibbles l))) <= 8 * length l)%nat.
Proof.
  intros H. assert (forall ns, length (flat_map (to_bits 4) ns) = (4 * length ns)%nat) as Hf.
  { induction ns as [|n ns IH]; [reflexivity|]. cbn [flat_map length]. rewrite length_app, IH. cbn [to_bits length]. lia. }
  rewrite Hf, length_firstn. assert (length (nibbles l) = (2 * length l)%nat); [|lia].
  clear. induction l as [|c l IH]; [reflexivity|]. cbn [nibbles flat_map app length]. fold (nibbles l). lia.
Qed.

Lemma decode_room src last rc st o : bytes src -> ngx_http_huff_decode 0 src last = (rc, st, o) ->
  (rc = NGX_OK \/ rc = NGX_ERROR) /\ (5 * length o <= 8 * length src)%nat.
Proof.
  intros Hb H. destruct (loop_prefix src (mk_decoder 0 1 [])) as [k Hk]. pose proof (nibbles_range src Hb) as Hn.
  assert (Forall (fun n => 0 <= n < 16) (firstn k (nibbles src))) as Hf
    by (rewrite <-(firstn_skipn k (nibbles src)) in Hn; apply Forall_app in Hn as [Hn _]; exact Hn).
  destruct (run_sound _ Hf (mk_decoder 0 1 []) _ zero_byte Hk) as (o' & Eo & Ho & _ & Ep & _).
  apply (f_equal (@length bool)) in Ep. rewrite !length_app in Ep. pose proof (codes_length _ Ho).
  pose proof (nibbles_length k src Hb). change (length (path (state (mk_decoder 0 1 [])))) with O in Ep. cbn [out app] in Eo.
  unfold ngx_http_huff_decode in H. destruct (decode_loop _ src) as [d ok]. cbn [fst] in *.
  assert (o = out d /\ (rc = NGX_OK \/ rc = NGX_ERROR)) as [-> Hrc].
  { destruct ok; [destruct last; [destruct (ends d =? 0)|]|]; cbn in H; inv H; auto. }
  rewrite Eo. split; [exact Hrc|]. lia.
Qed.

(** ** The encoder writes the code *)

(** The number that bits denote. *)
Definition val (b : list bool) : Z := fold_left (fun v x => 2 * v + Z.b2z x) b 0.

Lemma val_snoc b x : val (b ++ [x]) = 2 * val b + Z.b2z x.
Proof. unfold val. rewrite fold_left_app. reflexivity. Qed.

Lemma val_app a b : val (a ++ b) = val a * 2 ^ Z.of_nat (length b) + val b.
Proof.
  induction b as [|x b IH] using rev_ind; [rewrite app_nil_r, Z.mul_1_r, Z.add_0_r; reflexivity|].
  rewrite app_assoc, !val_snoc, IH, length_app, Nat2Z.inj_add. cbn [length Z.of_nat Pos.of_succ_nat].
  rewrite Z.pow_add_r by lia. lia.
Qed.

Lemma val_range b : 0 <= val b < 2 ^ Z.of_nat (length b).
Proof.
  induction b as [|x b IH] using rev_ind; [cbn; lia|]. rewrite val_snoc, length_app, Nat2Z.inj_add.
  cbn [length Z.of_nat Pos.of_succ_nat]. rewrite Z.pow_add_r by lia. change (2 ^ 1) with 2. destruct x; cbn [Z.b2z]; lia.
Qed.

Lemma to_bits_length n v : length (to_bits n v) = n.
Proof. induction n; cbn [to_bits length]; lia. Qed.

Lemma to_bits_snoc n v : to_bits (S n) v = to_bits n (v / 2) ++ [Z.odd v].
Proof.
  replace (S n) with (n + 1)%nat by lia. rewrite to_bits_app. cbn [to_bits]. rewrite Z.shiftr_div_pow2 by lia. reflexivity.
Qed.

Lemma to_bits_val b : to_bits (length b) (val b) = b.
Proof.
  induction b as [|x b IH] using rev_ind; [reflexivity|]. rewrite length_app, val_snoc. cbn [length].
  replace (length b + 1)%nat with (S (length b)) by lia. rewrite to_bits_snoc.
  replace ((2 * val b + Z.b2z x) / 2) with (val b) by (destruct x; cbn [Z.b2z]; div_lia). rewrite IH. do 2 f_equal.
  rewrite Z.odd_add, Z.odd_mul. destruct x; reflexivity.
Qed.

Lemma val_to_bits n v : val (to_bits n v) = v mod 2 ^ Z.of_nat n.
Proof.
  revert v. induction n as [|n IH]; intros v; [cbn; rewrite Z.mod_1_r; reflexivity|].
  rewrite to_bits_snoc, val_snoc, IH, Nat2Z.inj_succ, Z.pow_succ_r by lia.
  pose proof (Z.pow_pos_nonneg 2 (Z.of_nat n) ltac:(lia) ltac:(lia)).
  rewrite Z.rem_mul_r by lia. rewrite Zmod_odd. destruct (Z.odd v); cbn [Z.b2z]; lia.
Qed.

Lemma val_ones n : val (repeat true n) = 2 ^ Z.of_nat n - 1.
Proof.
  induction n as [|n IH]; [reflexivity|]. cbn [repeat]. rewrite repeat_cons, val_snoc, IH, Nat2Z.inj_succ, Z.pow_succ_r by lia. cbn [Z.b2z]. lia.
Qed.

Lemma be_bytes_bits n v : bits_of (be_bytes n v) = to_bits (8 * n) v.
Proof.
  induction n as [|n IH]; [reflexivity|]. unfold bits_of in *. cbn [be_bytes flat_map]. rewrite IH.
  replace (8 * S n)%nat with (8 + 8 * n)%nat by lia. rewrite to_bits_app. f_equal.
  rewrite (land_ones_mod _ 255 8) by (reflexivity || lia). rewrite (to_bits_mod 8). f_equal. f_equal. lia.
Qed.

Lemma be_bytes_ok n v : bytes (be_bytes n v) /\ length (be_bytes n v) = n.
Proof.
  induction n as [|n [IH1 IH2]]; [repeat constructor|]. cbn [be_bytes length]. split; [|lia]. constructor; [|exact IH1].
  rewrite (land_ones_mod _ 255 8) by (reflexivity || lia). unfold is_byte. change 256 with (2 ^ 8). apply Z.mod_pos_bound. lia.
Qed.

(** [ngx_tolower] *)
Definition ngx_tolower (c : Z) : Z := if (c >=? chr "A") && (c <=? chr "Z") then Z.lor c 0x20 else c.

Definition case_of (lower : bool) (c : Z) : Z := if lower then ngx_tolower c else c.

Definition table_of (lower : bool) : list encode_code :=
  if lower then ngx_http_huff_encode_table_lc else ngx_http_huff_encode_table.

Lemma table_word lower c : is_byte c ->
  word (table_of lower) c = codeword (case_of lower c) /\ is_byte (case_of lower c) /\
  5 <= len (entry (table_of lower) c) <= 30 /\ 0 <= code (entry (table_of lower) c) < 2 ^ len (entry (table_of lower) c).
Proof.
  intros Hc.
  assert (forallb (fun c => bits_eqb (word (table_of lower) c) (codeword (case_of lower c)) && (0 <=? case_of lower c)
    && (case_of lower c <? 256) && (5 <=? len (entry (table_of lower) c)) && (len (entry (table_of lower) c) <=? 30)
    && (0 <=? code (entry (table_of lower) c)) && (code (entry (table_of lower) c) <? 2 ^ len (entry (table_of lower) c)))
    all_bytes = true) as H by (destruct lower; vm_compute; reflexivity).
  apply (byte_forall _ H) in Hc. rewrite !andb_true_iff in Hc. destruct Hc as [[[[[[H1%bits_eqb_eq H2] H3] H4] H5] H6] H7].
  unfold is_byte. repeat split; auto; lia.
Qed.

Section EncodeCorrect.
Context `{P : Platform} (lower : bool).

Local Abbreviation W := (bits ptr_size).

Lemma word_size : (W = 32 \/ W = 64) /\ W = 8 * (W / 8) /\ W = Z.of_nat (8 * Z.to_nat (W / 8)).
Proof. destruct ptr_size; cbn; lia. Qed.

(** The bits of the characters read, in the words written and in [buf]. *)
Definition pending_bits (dst : list Z) (buf pending : Z) (b : list bool) : Prop :=
  exists pend, pending = Z.of_nat (length pend) /\ pending < W /\ buf = val pend * 2 ^ (W - pending) /\
    bytes dst /\ b = bits_of dst ++ pend.

(** A code that fits in the word, *)
Lemma accumulate dst buf pending b c : is_byte c ->
  let e := entry (table_of lower) c in
  pending_bits dst buf pending b -> pending + len e < W ->
  pending_bits dst (Z.lor buf (wrapu ptr_size (Z.shiftl (code e) (W - (pending + len e))))) (pending + len e)
    (b ++ word (table_of lower) c).
Proof.
  intros Hc e (pend & -> & Hw & -> & Hd & ->) Hp. destruct (table_word lower c Hc) as (_ & _ & Hl & Hv). fold e in Hl, Hv.
  assert (Z.of_nat (length (word (table_of lower) c)) = len e) as Ew by (unfold word; rewrite to_bits_length; fold e; lia).
  assert (val (word (table_of lower) c) = code e) as Ev.
  { unfold word. fold e. rewrite val_to_bits, Z2Nat.id, Z.mod_small by lia. reflexivity. }
  exists (pend ++ word (table_of lower) c). rewrite length_app, Nat2Z.inj_add, Ew. split; [reflexivity|]. split; [exact Hp|].
  split; [|split; [exact Hd|rewrite app_assoc; reflexivity]].
  rewrite val_app, Ew, Ev, Z.shiftl_mul_pow2 by lia. set (p := Z.of_nat (length pend)) in *.
  assert (2 ^ (W - p) = 2 ^ len e * 2 ^ (W - (p + len e))) as E2 by (rewrite <-Z.pow_add_r by lia; f_equal; lia).
  assert (0 < 2 ^ (W - (p + len e))) by (apply Z.pow_pos_nonneg; lia).
  assert (2 ^ (W - p) <= 2 ^ W) by (apply Z.pow_le_mono_r; lia).
  rewrite wrapu_small by nia. rewrite lor_disjoint by nia. rewrite E2. lia.
Qed.

(** and one that fills it. *)
Lemma overflow dst buf pending b c : is_byte c ->
  let e := entry (table_of lower) c in
  let p := pending + len e - W in
  pending_bits dst buf pending b -> W <= pending + len e ->
  pending_bits (dst ++ ngx_http_huff_encode_buf (Z.lor buf (Z.shiftr (code e) p)))
    (if p =? 0 then 0 else wrapu ptr_size (Z.shiftl (code e) (W - p))) p (b ++ word (table_of lower) c).
Proof.
  intros Hc e p (pend & -> & Hw & -> & Hd & ->) Hp. destruct (table_word lower c Hc) as (_ & _ & Hl & Hv). fold e in Hl, Hv.
  set (q := Z.of_nat (length pend)) in *. destruct word_size as (HW & HW8 & HWn).
  set (n1 := Z.to_nat (len e - p)). set (n2 := Z.to_nat p).
  assert (word (table_of lower) c = to_bits n1 (Z.shiftr (code e) p) ++ to_bits n2 (code e)) as Ew.
  { unfold word. fold e. replace (Z.to_nat (len e)) with (n1 + n2)%nat by lia. rewrite to_bits_app. do 3 f_equal. lia. }
  assert (val (to_bits n1 (Z.shiftr (code e) p)) = Z.shiftr (code e) p) as Ev.
  { rewrite val_to_bits, Z.shiftr_div_pow2 by lia. apply Z.mod_small. split; [apply Z.div_pos; lia|].
    apply Z.div_lt_upper_bound; [lia|]. rewrite <-Z.pow_add_r by lia. replace (p + Z.of_nat n1) with (len e) by lia. lia. }
  exists (to_bits n2 (code e)). rewrite to_bits_length. split; [lia|]. split; [lia|]. split; [|split].
  - rewrite val_to_bits. replace (Z.of_nat n2) with p by lia. destruct (p =? 0) eqn:E0.
    + replace p with 0 by lia. rewrite Z.mod_1_r. reflexivity.
    + unfold wrapu. rewrite Z.shiftl_mul_pow2 by lia. replace (2 ^ W) with (2 ^ p * 2 ^ (W - p)) by (rewrite <-Z.pow_add_r by lia; f_equal; lia).
      apply Z.mul_mod_distr_r; lia.
  - apply bytes_app; [exact Hd|]. apply be_bytes_ok.
  - unfold bits_of. rewrite flat_map_app. fold (bits_of dst). unfold ngx_http_huff_encode_buf. fold (bits_of (be_bytes (Z.to_nat (W / 8)) (Z.lor (val pend * 2 ^ (W - q)) (Z.shiftr (code e) p)))).
    rewrite be_bytes_bits, Ew, <-!app_assoc. f_equal. rewrite app_assoc. f_equal.
    pose proof (val_range (to_bits n1 (Z.shiftr (code e) p))) as Hr. rewrite Ev, to_bits_length in Hr.
    replace (Z.of_nat n1) with (W - q) in Hr by lia.
    rewrite lor_disjoint by lia.
    assert (val pend * 2 ^ (W - q) + Z.shiftr (code e) p = val (pend ++ to_bits n1 (Z.shiftr (code e) p))) as ->.
    { rewrite val_app, to_bits_length, Ev. do 3 f_equal. lia. }
    assert ((8 * Z.to_nat (W / 8))%nat = length (pend ++ to_bits n1 (Z.shiftr (code e) p))) as -> by (rewrite length_app, to_bits_length; lia).
    symmetry. apply to_bits_val.
Qed.

Definition words (l : list Z) : list bool := flat_map (word (table_of lower)) l.

Lemma huff_bits_length l : length (bits_of l) = (8 * length l)%nat.
Proof. induction l as [|c l IH]; [reflexivity|]. unfold bits_of in *. cbn [flat_map length]. rewrite length_app, IH, to_bits_length. lia. Qed.

Lemma loop_encodes total src : bytes src -> forall dst buf pending b, pending_bits dst buf pending b ->
  (dst = [] \/ Z.of_nat (length dst) < total) ->
  match encode_loop (table_of lower) total dst buf pending src with
  | Some (dst', buf', pending') =>
      pending_bits dst' buf' pending' (b ++ words src) /\ (dst' = [] \/ Z.of_nat (length dst') < total)
  | None => 8 * total <= Z.of_nat (length (b ++ words src))
  end.
Proof.
  intros H. destruct word_size as (HW & HW8 & _). unfold words.
  induction H as [|c src Hc H IH]; intros dst buf pending b Hb Hd; cbn [encode_loop flat_map].
  - rewrite app_nil_r. auto.
  - rewrite app_assoc. destruct (_ <? W) eqn:Ef; [apply IH; [apply accumulate; (assumption || lia)|exact Hd]|].
    destruct (_ >=? total) eqn:Et.
    + destruct Hb as (pend & -> & _ & _ & _ & ->). destruct (table_word lower c Hc) as (_ & _ & Hl & _).
      rewrite !length_app, huff_bits_length. unfold word at 1. rewrite to_bits_length. lia.
    + apply IH; [apply overflow; (assumption || lia)|]. right. rewrite length_app.
      unfold ngx_http_huff_encode_buf. rewrite (proj2 (be_bytes_ok _ _)). lia.
Qed.

Lemma align8 p : 0 <= p -> ngx_align p 8 = 8 * ((p + 7) / 8).
Proof.
  intros Hp. unfold ngx_align. rewrite <-Z.ldiff_land. change (8 - 1) with (Z.ones 3).
  rewrite Z.ldiff_ones_r, Z.shiftl_mul_pow2, Z.shiftr_div_pow2 by lia. change (Z.ones 3) with 7. change (2 ^ 3) with 8. lia.
Qed.

(** The last word, filled up with ones. *)
Lemma last_word dst buf pending b : pending_bits dst buf pending b -> pending <> 0 ->
  let q := ngx_align pending 8 in
  exists pad, bits_of (dst ++ be_bytes (Z.to_nat (q / 8)) (Z.shiftr (Z.lor buf (Z.shiftr (2 ^ W - 1) pending)) (W - q))) = b ++ pad /\
    ones pad = true /\ (length pad < 8)%nat.
Proof.
  intros (pend & -> & Hw & -> & Hd & ->) Hp q. destruct word_size as (HW & HW8 & HWn). set (p := Z.of_nat (length pend)) in *.
  assert (q = 8 * ((p + 7) / 8)) as Eq by (apply align8; lia).
  assert (p <= q < p + 8 /\ q <= W /\ 8 * (q / 8) = q) as (Hq1 & Hq2 & Hq3) by div_lia.
  exists (repeat true (Z.to_nat (q - p))). rewrite repeat_length. split; [|split; [|lia]].
  - unfold bits_of. rewrite flat_map_app, <-app_assoc. f_equal. fold (bits_of (be_bytes (Z.to_nat (q / 8)) (Z.shiftr (Z.lor (val pend * 2 ^ (W - p)) (Z.shiftr (2 ^ W - 1) p)) (W - q)))).
    rewrite be_bytes_bits.
    assert (Z.lor (val pend * 2 ^ (W - p)) (Z.shiftr (2 ^ W - 1) p) = val (pend ++ repeat true (Z.to_nat (W - p)))) as ->.
    { replace (Z.shiftr (2 ^ W - 1) p) with (2 ^ (W - p) - 1).
      - assert (0 < 2 ^ (W - p)) by (apply Z.pow_pos_nonneg; lia). rewrite lor_disjoint by lia.
        rewrite val_app, repeat_length, val_ones, !Z2Nat.id by lia. lia.
      - rewrite Z.shiftr_div_pow2 by lia. replace (2 ^ W) with (2 ^ (W - p) * 2 ^ p) by (rewrite <-Z.pow_add_r by lia; f_equal; lia).
        pose proof (Z.pow_pos_nonneg 2 p ltac:(lia) ltac:(lia)). apply (Z.div_unique _ _ _ (2 ^ p - 1)); lia. }
    replace (Z.to_nat (W - p)) with (Z.to_nat (q - p) + Z.to_nat (W - q))%nat by lia. rewrite repeat_app, app_assoc, val_app, repeat_length, Z2Nat.id by lia.
    rewrite Z.shiftr_div_pow2 by lia. pose proof (val_range (repeat true (Z.to_nat (W - q)))) as Hr. rewrite repeat_length, Z2Nat.id in Hr by lia.
    rewrite <-(Z.div_unique _ _ (val (pend ++ repeat true (Z.to_nat (q - p)))) _ (or_introl Hr)) by lia.
    replace (8 * Z.to_nat (q / 8))%nat with (length (pend ++ repeat true (Z.to_nat (q - p)))) by (rewrite length_app, repeat_length; lia).
    apply to_bits_val.
  - induction (Z.to_nat (q - p)); [reflexivity|assumption].
Qed.

Lemma words_codes src : bytes src -> words src = codes (map (case_of lower) src) /\ bytes (map (case_of lower) src) /\
  (5 * length src <= length (words src))%nat.
Proof.
  intros H. unfold words, codes. induction H as [|c src Hc H (IH1 & IH2 & IH3)]; [repeat constructor|].
  cbn [flat_map map length]. destruct (table_word lower c Hc) as (E & Hb & _). rewrite IH1, E. split; [reflexivity|].
  split; [constructor; auto|]. rewrite length_app, <-IH1. pose proof (word_length _ Hb). lia.
Qed.

(** The whole string. *)
Lemma encode_whole src : bytes src ->
  match ngx_http_huff_encode src lower with
  | Some dst => bytes dst /\ (src = [] \/ length dst < length src)%nat /\
      exists pad, bits_of dst = text (map (case_of lower) src) pad /\ ones pad = true /\ (length pad < 8)%nat
  | None => (8 * length src < length (codes (map (case_of lower) src)) + 8)%nat
  end.
Proof.
  intros Hb. destruct (words_codes src Hb) as (Ew & Hm & Hl). unfold ngx_http_huff_encode, text. fold (table_of lower). rewrite <-Ew.
  assert (pending_bits [] 0 0 []) as H0.
  { exists []. destruct word_size as ([->| ->] & _); repeat split; try reflexivity; constructor. }
  pose proof (loop_encodes (Z.of_nat (length src)) src Hb [] 0 0 [] H0 (or_introl eq_refl)) as H. cbn [app] in H.
  destruct (encode_loop _ _ _ _ _ _) as [[[dst buf] pending]|]; [|lia]. destruct H as [H Hd].
  destruct (pending =? 0) eqn:E0.
  - destruct H as (pend & Hp & _ & _ & Hbd & E). destruct pend; [|cbn in Hp; lia]. split; [exact Hbd|].
    split; [|exists []; rewrite E, !app_nil_r; repeat split; cbn; lia].
    destruct Hd as [->|Hd]; [|lia]. left. rewrite E in Hl. cbn in Hl. destruct src; [reflexivity|cbn in Hl; lia].
  - destruct (last_word _ _ _ _ H ltac:(lia)) as (pad & Ep & Hp1 & Hp2). destruct H as (pend & Hp & _ & _ & Hbd & E).
    rewrite (align8 pending) in * by lia. destruct (_ >=? _) eqn:Eg.
    + rewrite E, length_app, huff_bits_length. div_lia.
    + split; [apply bytes_app; [exact Hbd|apply be_bytes_ok]|]. split; [|eauto].
      rewrite length_app, (proj2 (be_bytes_ok _ _)). right. div_lia.
Qed.

End EncodeCorrect.

(** C34: The decoder of the Huffman code of HPACK accepts a string, however it
    arrives in pieces, exactly when it is the concatenation of the codes of
    the characters it writes, filled up with at most 29 ones; a code of
    thirty ones, which means the end of the string, is refused. It never
    writes more than 8/5 of the bytes it reads, which is the room that its
    callers allocate. *)
Theorem huffman_decode_exact pieces l : l <> [] -> bytes (concat pieces ++ l) ->
  (forall o, decode_pieces 0 pieces l = (NGX_OK, 0, o) <->
     exists pad, bytes o /\ ones pad = true /\ (length pad < 30)%nat /\ bits_of (concat pieces ++ l) = codes o ++ pad) /\
  (forall rc st o, decode_pieces 0 pieces l = (rc, st, o) ->
     (rc = NGX_OK \/ rc = NGX_ERROR) /\ (5 * length o <= 8 * length (concat pieces ++ l))%nat).
Proof.
  intros Hl Hb. rewrite pieces_whole by exact Hl. split.
  - intros o. rewrite (decode_whole _ o Hb). unfold pad_ok, text. split; intros (pad & H); exists pad; intuition.
  - intros rc st o. apply decode_room, Hb.
Qed.

Lemma huffman_decode_exact_witness :
  decode_pieces 0 [[0xf1; 0xe3]; [0xc2; 0xe5; 0xf2; 0x3a; 0x6b]] [0xa0; 0xab; 0x90; 0xf4; 0xff] = (NGX_OK, 0, bs "www.example.com").
Proof.
  apply (huffman_decode_exact [[0xf1; 0xe3]; [0xc2; 0xe5; 0xf2; 0x3a; 0x6b]] [0xa0; 0xab; 0x90; 0xf4; 0xff]).
  - discriminate.
  - vm_compute. repeat (constructor; [split; congruence|]). constructor.
  - exists [true; true; true; true; true; true; true]. vm_compute.
    split; [repeat (constructor; [split; congruence|]); constructor|]. repeat split. lia.
Defined.

(** C35: A string encoded with the Huffman code of HPACK, in machine words of
    32 or 64 bits, is decoded to the string itself, in lower case when that
    was asked for; it is shorter than the string, and the encoder gives up
    exactly when the code would not be. *)
Theorem huffman_roundtrip `{P : Platform} src lower : bytes src ->
  match ngx_http_huff_encode src lower with
  | Some dst => ngx_http_huff_decode 0 dst true = (NGX_OK, 0, map (case_of lower) src) /\
      (src = [] \/ length dst < length src)%nat
  | None => (8 * length src < length (codes (map (case_of lower) src)) + 8)%nat
  end.
Proof.
  intros Hb. pose proof (encode_whole lower src Hb) as H. destruct (ngx_http_huff_encode src lower) as [dst|]; [|exact H].
  destruct H as (Hd & Hl & pad & E & Hp1 & Hp2). split; [|exact Hl]. apply decode_whole; [exact Hd|]. exists pad.
  split; [apply (words_codes lower src Hb)|]. split; [|exact E]. split; [exact Hp1|lia].
Qed.

Lemma huffman_roundtrip_witness : ngx_http_huff_decode 0
  [0xf1; 0xe3; 0xc2; 0xe5; 0xf2; 0x3a; 0x6b; 0xa0; 0xab; 0x90; 0xf4; 0xff] true = (NGX_OK, 0, bs "www.example.com").
Proof.
  assert (bytes (bs "WWW.Example.com")) as H by (vm_compute; repeat (constructor; [split; congruence|]); constructor).
  exact (proj1 (@huffman_roundtrip ilp32 (bs "WWW.Example.com") true H)).
Defined.

End Huffman.
