(* ===== verification/HttpV2Table.v ===== *)
(** * The tables of HPACK

    [src/http/v2/ngx_http_v2_table.c]: the static table and the dynamic table
    of an HTTP/2 connection. The dynamic table is a ring of pointers to
    entries, whose counters only grow and wrap around with the machine word,
    and a ring of 4096 bytes that holds the names and the values; entries
    that are evicted are used again. The refinement theorem says that it
    behaves as the list of RFC 7541: newest first, evicted from the end as far
    as the size needs it. *)
From Stdlib Require Import String ZArith Lia ZifyBool.
From stdpp Require Import base option tactics list.
From S2P Require Import Prelude.

Local Open Scope Z_scope.

Module V2Table.

(** ** Data *)

(** [ngx_str_t] in the storage: an offset and a length. *)
Record str := mk_str { len : nat; data : nat }.

(** [ngx_http_v2_header_t] in the table, and in the hands of the parser. *)
Record entry := mk_entry { ename : str; evalue : str }.
Record header := mk_header { name : list Z; value : list Z }.

Definition NGX_HTTP_V2_TABLE_SIZE : Z := 4096.
Definition TABLE : nat := Z.to_nat NGX_HTTP_V2_TABLE_SIZE.

(** [ngx_http_v2_hpack_t]: [entries] holds indexes of the allocated entries
    [objs], [None] where nothing has been stored; [pos] is an offset. *)
Record hpack := mk_hpack {
  entries : option (list (option nat));
  added : Z; deleted : Z; reused : Z; allocated : Z;
  size : Z; free : Z; storage : list Z; pos : nat; objs : list entry
}.

(** As [ngx_pcalloc] leaves it. *)
Definition hpack_init : hpack := mk_hpack None 0 0 0 0 0 0 [] 0 [].

Definition set_deleted (d : Z) (h : hpack) : hpack :=
  mk_hpack (entries h) (added h) d (reused h) (allocated h) (size h) (free h) (storage h) (pos h) (objs h).
Definition set_free (f : Z) (h : hpack) : hpack :=
  mk_hpack (entries h) (added h) (deleted h) (reused h) (allocated h) (size h) f (storage h) (pos h) (objs h).
Definition set_size (s : Z) (h : hpack) : hpack :=
  mk_hpack (entries h) (added h) (deleted h) (reused h) (allocated h) s (free h) (storage h) (pos h) (objs h).
Definition set_reused (r : Z) (h : hpack) : hpack :=
  mk_hpack (entries h) (added h) (deleted h) r (allocated h) (size h) (free h) (storage h) (pos h) (objs h).
Definition set_storage (st : list Z) (p : nat) (h : hpack) : hpack :=
  mk_hpack (entries h) (added h) (deleted h) (reused h) (allocated h) (size h) (free h) st p (objs h).
Definition set_objs (l : list entry) (h : hpack) : hpack :=
  mk_hpack (entries h) (added h) (deleted h) (reused h) (allocated h) (size h) (free h) (storage h) (pos h) l.
Definition set_entries (l : list (option nat)) (a : Z) (h : hpack) : hpack :=
  mk_hpack (Some l) a (deleted h) (reused h) (allocated h) (size h) (free h) (storage h) (pos h) (objs h).

(** ** Static table *)

Definition static_field (n v : string) : header := mk_header (bs n) (bs v).
Definition static_name (n : string) : header := mk_header (bs n) [].

Definition ngx_http_v2_static_table : list header :=
  [ static_name ":authority";
    static_field ":method" "GET";
    static_field ":method" "POST";
    static_field ":path" "/";
    static_field ":path" "/index.html";
    static_field ":scheme" "http";
    static_field ":scheme" "https";
    static_field ":status" "200";
    static_field ":status" "204";
    static_field ":status" "206";
    static_field ":status" "304";
    static_field ":status" "400";
    static_field ":status" "404";
    static_field ":status" "500";
    static_name "accept-charset";
    static_field "accept-encoding" "gzip, deflate";
    static_name "accept-language";
    static_name "accept-ranges";
    static_name "accept";
    static_name "access-control-allow-origin";
    static_name "age";
    static_name "allow";
    static_name "authorization";
    static_name "cache-control";
    static_name "content-disposition";
    static_name "content-encoding";
    static_name "content-language";
    static_name "content-length";
    static_name "content-location";
    static_name "content-range";
    static_name "content-type";
    static_name "cookie";
    static_name "date";
    static_name "etag";
    static_name "expect";
    static_name "expires";
    static_name "from";
    static_name "host";
    static_name "if-match";
    static_name "if-modified-since";
    static_name "if-none-match";
    static_name "if-range";
    static_name "if-unmodified-since";
    static_name "last-modified";
    static_name "link";
    static_name "location";
    static_name "max-forwards";
    static_name "proxy-authenticate";
    static_name "proxy-authorization";
    static_name "range";
    static_name "referer";
    static_name "refresh";
    static_name "retry-after";
    static_name "server";
    static_name "set-cookie";
    static_name "strict-transport-security";
    static_name "transfer-encoding";
    static_name "user-agent";
    static_name "vary";
    static_name "via";
    static_name "www-authenticate" ]%string.

Definition NGX_HTTP_V2_STATIC_TABLE_ENTRIES : Z := Z.of_nat (length ngx_http_v2_static_table).

Definition ngx_http_v2_get_static_name (index : Z) : option (list Z) :=
  name <$> ngx_http_v2_static_table !! Z.to_nat (index - 1).
Definition ngx_http_v2_get_static_value (index : Z) : option (list Z) :=
  value <$> ngx_http_v2_static_table !! Z.to_nat (index - 1).

(** ** The storage *)

(** Copies inside the storage; [None] when they would leave it. *)
Definition read_at (st : list Z) (off n : nat) : option (list Z) :=
  if Nat.leb (off + n) (length st) then Some (take n (drop off st)) else None.

Definition write_at (st : list Z) (off : nat) (d : list Z) : option (list Z) :=
  if Nat.leb (off + length d) (length st) then Some (take off st ++ d ++ drop (off + length d) st) else None.

(** A name or a value is copied out of the storage, *)
Definition copy_out (st : list Z) (s : str) : option (list Z) :=
  let rest := (TABLE - data s)%nat in
  if Nat.ltb rest (len s) then
    a ← read_at st (data s) rest; b ← read_at st 0 (len s - rest); Some (a ++ b)
  else read_at st (data s) (len s).

(** and into it: the new storage, position and [avail]. *)
Definition copy_in (st : list Z) (p avail : nat) (d : list Z) : option (list Z * nat * nat) :=
  if Nat.leb (length d) avail then
    st ← write_at st p d; Some (st, (p + length d)%nat, (avail - length d)%nat)
  else
    st ← write_at st p (take avail d);
    st ← write_at st 0 (drop avail d);
    Some (st, (length d - avail)%nat, (TABLE - length d)%nat).

(** The allocations of the code, which may fail; the last one is that of the
    strings of a header block. *)
Inductive site := Alloc_entries | Alloc_storage | Alloc_entry | Alloc_grow | Alloc_name | Alloc_value | Alloc_field.

Section Table.
Context `{P : Platform}.

Local Abbreviation uint x := (wrapu ptr_size x).
Local Abbreviation size_t x := (wrapu size_t_size x).

(** [hpack.entries[i % hpack.allocated]]: the slot, and the entry. *)
Definition slot (h : hpack) (i : Z) : nat := Z.to_nat (i mod allocated h).

Definition pointer_at (h : hpack) (i : Z) : option nat :=
  l ← entries h; p ← l !! slot h i; p.

Definition entry_at (h : hpack) (i : Z) : option entry :=
  p ← pointer_at h i; objs h !! p.

(** The oldest entry is evicted. *)
Definition evict (h : hpack) : option hpack :=
  e ← entry_at h (deleted h);
  Some (set_free (size_t (free h + (32 + Z.of_nat (len (ename e)) + Z.of_nat (len (evalue e)))))
    (set_deleted (uint (deleted h + 1)) h)).

(** The two loops; the fuel is the number of entries. *)
Fixpoint account_loop (f : nat) (sz : Z) (h : hpack) : option hpack :=
  match f with
  | O => None
  | S f => h ← evict h; if sz >? free h then account_loop f sz h else Some h
  end.

Fixpoint size_loop (f : nat) (needed : Z) (h : hpack) : option hpack :=
  if needed >? to_signed size_t_size (free h) then
    match f with
    | O => None
    | S f => h ← evict h; size_loop f needed h
    end
  else Some h.

Definition live (h : hpack) : nat := Z.to_nat (uint (added h - deleted h)).

Definition ngx_http_v2_table_account (h : hpack) (sz : Z) : option (Z * hpack) :=
  let sz := size_t (sz + 32) in
  if sz <=? free h then Some (NGX_OK, set_free (free h - sz) h)
  else if sz >? size h then Some (NGX_DECLINED, set_free (size h) (set_deleted (added h) h))
  else h ← account_loop (live h) sz h; Some (NGX_OK, set_free (free h - sz) h).

Definition ngx_http_v2_table_size (h : hpack) (sz : Z) : option (Z * hpack) :=
  if sz >? NGX_HTTP_V2_TABLE_SIZE then Some (NGX_ERROR, h)
  else
    let needed := to_signed size_t_size (size h - sz) in
    h ← size_loop (live h) needed h;
    Some (NGX_OK, set_free (size_t (free h - needed)) (set_size sz h)).

(** ** Lookup

    The return code and the header of the parser, of which only the name is
    set when [name_only] is. *)
Definition ngx_http_v2_get_indexed_header (ok : site -> bool) (h : hpack) (hd : header) (index : Z) (name_only : bool)
    : option (Z * header) :=
  if index =? 0 then Some (NGX_ERROR, hd)
  else
    let index := index - 1 in
    if index <? NGX_HTTP_V2_STATIC_TABLE_ENTRIES then
      hd ← ngx_http_v2_static_table !! Z.to_nat index; Some (NGX_OK, hd)
    else
      let index := index - NGX_HTTP_V2_STATIC_TABLE_ENTRIES in
      if index <? uint (added h - deleted h) then
        e ← entry_at h (uint (added h - index - 1));
        if negb (ok Alloc_name) then Some (NGX_ERROR, hd)
        else
          n ← copy_out (storage h) (ename e);
          let hd := mk_header n (value hd) in
          if name_only then Some (NGX_OK, hd)
          else if negb (ok Alloc_value) then Some (NGX_ERROR, hd)
          else v ← copy_out (storage h) (evalue e); Some (NGX_OK, mk_header n v)
      else Some (NGX_ERROR, hd).

(** ** Insertion *)

(** The table is allocated when it is first used; its contents are whatever
    the memory holds, here zeros. *)
Definition start (ok : site -> bool) (h : hpack) : Z * hpack :=
  match entries h with
  | Some _ => (NGX_OK, h)
  | None =>
      let l := if ok Alloc_entries then Some (replicate 64 None) else None in
      let h := mk_hpack l (added h) (deleted h) (reused h) 64 NGX_HTTP_V2_TABLE_SIZE NGX_HTTP_V2_TABLE_SIZE
                 (storage h) (pos h) (objs h) in
      if negb (ok Alloc_entries) then (NGX_ERROR, h)
      else if negb (ok Alloc_storage) then (NGX_ERROR, h)
      else (NGX_OK, set_storage (replicate TABLE 0) 0 h)
  end.

(** An entry, new or one that was evicted: [Some None] when the allocation
    fails. *)
Definition take_entry (ok : site -> bool) (h : hpack) : option (option (nat * hpack)) :=
  if reused h =? deleted h then
    if ok Alloc_entry then Some (Some (length (objs h), set_objs (objs h ++ [mk_entry (mk_str 0 0) (mk_str 0 0)]) h))
    else Some None
  else
    p ← pointer_at h (reused h); Some (Some (p, set_reused (uint (reused h + 1)) h)).

(** The name and the value are stored. *)
Definition fill_entry (p : nat) (hd : header) (h : hpack) : option hpack :=
  let avail := (TABLE - pos h)%nat in
  let n := mk_str (length (name hd)) (pos h) in
  sp ← copy_in (storage h) (pos h) avail (name hd);
  let '(st, q, avail) := sp in
  let v := mk_str (length (value hd)) q in
  sp ← copy_in st q avail (value hd);
  let '(st, q, _) := sp in
  Some (set_storage st q (set_objs (<[p := mk_entry n v]> (objs h)) h)).

(** The array of pointers is replaced by a longer one when it is full. *)
Definition grow (ok : site -> bool) (h : hpack) : option (Z * hpack) :=
  l ← entries h;
  if allocated h =? uint (added h - deleted h) then
    if negb (ok Alloc_grow) then Some (NGX_ERROR, h)
    else
      let index := slot h (deleted h) in
      let l' := drop index l ++ take index l ++ replicate 64 None in
      Some (NGX_OK, mk_hpack (Some l') (allocated h) 0 0 (uint (allocated h + 64)) (size h) (free h) (storage h) (pos h) (objs h))
  else Some (NGX_OK, h).

Definition push (p : nat) (h : hpack) : option hpack :=
  l ← entries h;
  if Nat.ltb (slot h (added h)) (length l)
  then Some (set_entries (<[slot h (added h) := Some p]> l) (uint (added h + 1)) h) else None.

Definition ngx_http_v2_add_header (ok : site -> bool) (h : hpack) (hd : header) : option (Z * hpack) :=
  let '(rc, h) := start ok h in
  if negb (rc =? NGX_OK) then Some (rc, h)
  else
    ah ← ngx_http_v2_table_account h (Z.of_nat (length (name hd)) + Z.of_nat (length (value hd)));
    let '(rc, h) := ah in
    if negb (rc =? NGX_OK) then Some (NGX_OK, h)
    else
      eh ← take_entry ok h;
      match eh with
      | None => Some (NGX_ERROR, h)
      | Some (p, h) =>
          h ← fill_entry p hd h;
          gh ← grow ok h;
          let '(rc, h) := gh in
          if negb (rc =? NGX_OK) then Some (rc, h)
          else h ← push p h; Some (NGX_OK, h)
      end.

End Table.

Definition memory (_ : site) : bool := true.

Example table_ex :
  let hd := static_field "x-a" "1" in
  (ah ← @ngx_http_v2_add_header lp64 memory hpack_init hd;
   @ngx_http_v2_get_indexed_header lp64 memory (snd ah) (mk_header [] []) 62 false) = Some (NGX_OK, hd).
Proof. vm_compute. reflexivity. Qed.

(** ** What the table promises

    The table of RFC 7541: the fields, newest first, and the limit. A table
    that has never been used has no limit of its own yet. *)
Definition esize (hd : header) : Z := 32 + Z.of_nat (length (name hd)) + Z.of_nat (length (value hd)).

Fixpoint total (l : list header) : Z := match l with [] => 0 | hd :: l => esize hd + total l end.

(** The newest fields that fit. *)
Fixpoint fit (limit : Z) (l : list header) : list header :=
  match l with
  | [] => []
  | hd :: l => if esize hd <=? limit then hd :: fit (limit - esize hd) l else []
  end.

Record table := mk_table { used : bool; limit : Z; fields : list header }.

Definition table_init : table := mk_table false NGX_HTTP_V2_TABLE_SIZE [].

Definition table_insert (hd : header) (t : table) : table :=
  mk_table true (limit t) (if esize hd >? limit t then [] else hd :: fit (limit t - esize hd) (fields t)).

Definition table_resize (n : Z) (t : table) : table :=
  if used t then mk_table true n (fit n (fields t)) else t.

Definition table_lookup (t : table) (i : Z) : option header :=
  if i <=? 0 then None
  else if i <=? 61 then ngx_http_v2_static_table !! Z.to_nat (i - 1)
  else fields t !! Z.to_nat (i - 62).

Lemma esize_pos hd : 32 <= esize hd.
Proof. unfold esize. lia. Qed.

Lemma total_app l1 l2 : total (l1 ++ l2) = total l1 + total l2.
Proof. induction l1 as [|hd l1 IH]; cbn [total app]; lia. Qed.

Lemma total_ge l : 32 * Z.of_nat (length l) <= total l.
Proof. induction l as [|hd l IH]; cbn [total length]; [lia|]. pose proof (esize_pos hd). lia. Qed.

Lemma total_in hd l : In hd l -> esize hd <= total l.
Proof.
  induction l as [|x l IH]; [intros []|]. intros [->|Hin]; cbn [total].
  - pose proof (total_ge l). lia.
  - pose proof (esize_pos x). apply IH in Hin. lia.
Qed.

Lemma fit_all n l : total l <= n -> fit n l = l.
Proof.
  revert n. induction l as [|hd l IH]; intros n H; [reflexivity|]. cbn [total fit] in *.
  pose proof (total_ge l). rewrite IH by lia. destruct (esize hd <=? n) eqn:E; [reflexivity|lia].
Qed.

Lemma fit_drop n l hd : n < total (l ++ [hd]) -> fit n (l ++ [hd]) = fit n l.
Proof.
  revert n. induction l as [|x l IH]; intros n H; cbn [app total fit] in *.
  - destruct (esize hd <=? n) eqn:E; [lia|reflexivity].
  - destruct (esize x <=? n); [|reflexivity]. rewrite IH by lia. reflexivity.
Qed.

(** ** The ring of bytes *)

Lemma TABLE_pos : TABLE <> 0%nat.
Proof. intros E. apply (f_equal Z.of_nat) in E. vm_compute in E. discriminate. Qed.

Lemma TABLE_val : Z.of_nat TABLE = 4096.
Proof. reflexivity. Qed.

Opaque TABLE.

(** The bytes [d] from position [x] on. *)
Definition ring (st : list Z) (x : nat) (d : list Z) : Prop :=
  forall k b, d !! k = Some b -> st !! ((x + k) mod TABLE)%nat = Some b.

(** Everything outside of the [n] bytes from [x] on is as before. *)
Definition outside (st st' : list Z) (x n : nat) : Prop :=
  forall y, (y < TABLE)%nat -> (forall k, (k < n)%nat -> y <> ((x + k) mod TABLE)%nat) -> st' !! y = st !! y.

Lemma write_at_some st off d : (off + length d <= length st)%nat ->
  exists st', write_at st off d = Some st' /\ length st' = length st /\
    (forall k b, d !! k = Some b -> st' !! (off + k)%nat = Some b) /\
    (forall y, (y < off \/ off + length d <= y)%nat -> st' !! y = st !! y).
Proof.
  intros H. unfold write_at. rewrite (proj2 (Nat.leb_le _ _) H). eexists. split; [reflexivity|].
  split; [rewrite !length_app, length_take, length_drop; lia|].
  assert (length (take off st) = off) as Ht by (rewrite length_take; lia). split.
  - intros k b Hk. pose proof (lookup_lt_Some _ _ _ Hk). rewrite lookup_app_r, Ht by lia.
    rewrite lookup_app_l by lia. replace (off + k - off)%nat with k by lia. exact Hk.
  - intros y [Hy|Hy]; [rewrite lookup_app_l by lia; apply lookup_take_lt; lia|].
    rewrite lookup_app_r, lookup_app_r, Ht, lookup_drop by lia. f_equal. lia.
Qed.

Lemma read_at_ring st off n d : (off + n <= length st)%nat -> length d = n ->
  (forall k b, d !! k = Some b -> st !! (off + k)%nat = Some b) -> read_at st off n = Some d.
Proof.
  intros H Hd Hr. unfold read_at. rewrite (proj2 (Nat.leb_le _ _) H). f_equal. apply list_eq. intros k.
  destruct (decide (k < n)%nat) as [Hk|Hk].
  - rewrite lookup_take_lt, lookup_drop by lia. destruct (lookup_lt_is_Some_2 d k ltac:(lia)) as [b Hb]. rewrite Hb. apply Hr, Hb.
  - rewrite !lookup_ge_None_2; [reflexivity|lia|]. rewrite length_take, length_drop. lia.
Qed.

Lemma mod_low x : (x < TABLE)%nat -> (x mod TABLE)%nat = x.
Proof. apply Nat.mod_small. Qed.

Lemma mod_high x : (TABLE <= x < 2 * TABLE)%nat -> (x mod TABLE)%nat = (x - TABLE)%nat.
Proof.
  intros H. replace x with ((x - TABLE) + 1 * TABLE)%nat at 1 by lia. rewrite Nat.Div0.mod_add. apply Nat.mod_small. lia.
Qed.

Lemma copy_out_ring st x n d : length st = TABLE -> (x <= TABLE)%nat -> (n <= TABLE)%nat -> length d = n ->
  ring st x d -> copy_out st (mk_str n x) = Some d.
Proof.
  intros Hst Hx Hn Hd Hr. unfold copy_out. cbn [len data]. destruct (Nat.ltb_spec (TABLE - x) n) as [Hw|Hw].
  - rewrite (read_at_ring st x (TABLE - x) (take (TABLE - x) d)); [|lia|rewrite length_take; lia|].
    + cbn [mbind option_bind]. rewrite (read_at_ring st 0 (n - (TABLE - x)) (drop (TABLE - x) d)); [|lia|rewrite length_drop; lia|].
      * cbn. rewrite take_drop. reflexivity.
      * intros k b Hk. rewrite lookup_drop in Hk. pose proof (lookup_lt_Some _ _ _ Hk). apply Hr in Hk.
        rewrite mod_high in Hk by lia. rewrite <-Hk. f_equal. lia.
    + intros k b Hk. apply lookup_take_Some in Hk as [Hk ?]. apply Hr in Hk. rewrite mod_low in Hk by lia. exact Hk.
  - apply read_at_ring; [lia|exact Hd|]. intros k b Hk. pose proof (lookup_lt_Some _ _ _ Hk). apply Hr in Hk.
    rewrite mod_low in Hk by lia. exact Hk.
Qed.

Lemma copy_in_ring st x avail d : length st = TABLE -> (x + avail <= TABLE)%nat -> (length d <= TABLE)%nat ->
  ((x + avail)%nat = TABLE \/ length d <= avail)%nat ->
  exists st' x' avail', copy_in st x avail d = Some (st', x', avail') /\ length st' = TABLE /\ ring st' x d /\
    outside st st' x (length d) /\ (x' <= TABLE)%nat /\ (x' mod TABLE = (x + length d) mod TABLE)%nat /\
    (length d <= avail /\ x' = x + length d /\ avail' = avail - length d
      \/ avail < length d /\ x' = length d - avail /\ avail' = TABLE - length d)%nat.
Proof.
  intros Hst Hx Hd Hav. unfold copy_in. destruct (Nat.leb_spec (length d) avail) as [Hl|Hl].
  - destruct (write_at_some st x d ltac:(lia)) as (st' & E & L & Hin & Hout). rewrite E. cbn.
    exists st', (x + length d)%nat, (avail - length d)%nat. split; [reflexivity|]. split; [lia|]. split; [|split; [|split; [lia|split; [reflexivity|left; lia]]]].
    + intros k b Hk. pose proof (lookup_lt_Some _ _ _ Hk). rewrite mod_low by lia. auto.
    + intros y Hy Hk. apply Hout. destruct (decide (y < x)%nat); [auto|]. right. apply Nat.nlt_ge. intros Hlt.
      apply (Hk (y - x)%nat); [lia|]. rewrite mod_low; lia.
  - assert ((x + avail)%nat = TABLE) as Ha by lia.
    destruct (write_at_some st x (take avail d)) as (st1 & E1 & L1 & Hin1 & Hout1); [rewrite length_take; lia|].
    destruct (write_at_some st1 0 (drop avail d)) as (st2 & E2 & L2 & Hin2 & Hout2); [rewrite length_drop; lia|].
    rewrite E1. cbn. rewrite E2. cbn. rewrite length_take in Hout1. rewrite length_drop in Hout2.
    exists st2, (length d - avail)%nat, (TABLE - length d)%nat.
    split; [reflexivity|]. split; [lia|]. split; [|split; [|split; [lia|split; [|right; lia]]]].
    3: { replace (x + length d)%nat with (length d - avail + 1 * TABLE)%nat by lia. rewrite Nat.Div0.mod_add. reflexivity. }
    + intros k b Hk. pose proof (lookup_lt_Some _ _ _ Hk). destruct (decide (k < avail)%nat) as [Hka|Hka].
      * rewrite mod_low, Hout2 by lia. apply Hin1. apply lookup_take_Some. auto.
      * rewrite mod_high by lia. rewrite <-(Hin2 (k - avail)%nat b); [f_equal; lia|]. rewrite lookup_drop, <-Hk. f_equal. lia.
    + intros y Hy Hk. assert (length d - avail <= y)%nat as H1.
      { apply Nat.nlt_ge. intros Hlt. apply (Hk (y + avail)%nat); [lia|]. rewrite mod_high; lia. }
      assert (y < x)%nat as H2.
      { apply Nat.nle_gt. intros Hge. apply (Hk (y - x)%nat); [lia|]. rewrite mod_low; lia. }
      rewrite Hout2, Hout1 by lia. reflexivity.
Qed.

Lemma ring_mod st x x' d : (x mod TABLE = x' mod TABLE)%nat -> ring st x d -> ring st x' d.
Proof.
  intros E H k b Hk. rewrite <-(H k b Hk). f_equal. rewrite <-(Nat.Div0.add_mod_idemp_l x), <-(Nat.Div0.add_mod_idemp_l x'), E. reflexivity.
Qed.

(** Bytes that are not in the way of a copy stay. *)
Lemma ring_outside st st' x y n d : ring st x d -> outside st st' y n -> (x + length d <= y)%nat ->
  (y + n <= x + TABLE)%nat -> ring st' x d.
Proof.
  intros Hr Ho H1 H2 k b Hk. pose proof (lookup_lt_Some _ _ _ Hk) as Hlt. rewrite <-(Hr k b Hk). apply Ho.
  - apply Nat.mod_upper_bound, TABLE_pos.
  - intros j Hj E. pose proof (Nat.Div0.div_mod (x + k) TABLE) as E1. pose proof (Nat.Div0.div_mod (y + j) TABLE) as E2.
    rewrite E in E1. set (a := ((x + k) / TABLE)%nat) in *. set (c := ((y + j) / TABLE)%nat) in *.
    destruct (Nat.le_gt_cases c a) as [Hc|Hc]; [pose proof (Nat.mul_le_mono_l c a TABLE Hc)|pose proof (Nat.mul_le_mono_l (S a) c TABLE Hc)]; lia.
Qed.

Lemma ring_app st x d1 d2 : ring st x (d1 ++ d2) <-> ring st x d1 /\ ring st (x + length d1) d2.
Proof.
  split.
  - intros H. split; intros k b Hk.
    + apply H. apply lookup_app_l_Some, Hk.
    + rewrite <-(H (length d1 + k)%nat b); [f_equal; f_equal; lia|]. rewrite lookup_app_r by lia. rewrite <-Hk. f_equal. lia.
  - intros [H1 H2] k b Hk. apply lookup_app_Some in Hk as [Hk|[Hl Hk]]; [auto|]. rewrite <-(H2 _ _ Hk). f_equal. f_equal. lia.
Qed.

(** ** The table and its list

    The counters without wrapping around: the entries [vD], ..., [vA - 1] are
    in the table, [vR], ..., [vD - 1] wait to be used again; of each, the
    entry that holds it, the field and where its bytes begin in an endless
    storage; [vpos] is the position there. *)
Record view := mk_view {
  vA : nat; vD : nat; vR : nat; val : nat;
  vptr : nat -> nat; vhdr : nat -> header; vstart : nat -> nat; vpos : nat
}.

(** The fields of the entries from [d] to [a - 1], newest first. *)
Definition tab (hdr : nat -> header) (d a : nat) : list header := hdr <$> reverse (seq d (a - d)).

Definition vtab (v : view) : list header := tab (vhdr v) (vD v) (vA v).

Definition text (hd : header) : list Z := name hd ++ value hd.

Section Refines.
Context `{P : Platform}.

Local Abbreviation uint x := (wrapu ptr_size x).
Local Abbreviation size_t x := (wrapu size_t_size x).
Local Abbreviation count i := (wrapu ptr_size (Z.of_nat i)).

Record rep (h : hpack) (v : view) : Prop := {
  rep_entries : exists l, entries h = Some l /\ length l = val v /\
    forall i, (vR v <= i < vA v)%nat -> l !! (i mod val v)%nat = Some (Some (vptr v i));
  rep_allocated : allocated h = Z.of_nat (val v) /\ (val v = 64 \/ val v = 128)%nat;
  rep_counters : added h = count (vA v) /\ deleted h = count (vD v) /\ reused h = count (vR v);
  rep_order : (vR v <= vD v <= vA v /\ vA v <= vR v + val v)%nat;
  rep_objects : forall i, (vR v <= i < vA v)%nat -> (vptr v i < length (objs h))%nat;
  rep_distinct : forall i j, (vR v <= i < vA v)%nat -> (vR v <= j < vA v)%nat -> vptr v i = vptr v j -> i = j;
  rep_fields : forall i, (vD v <= i < vA v)%nat -> exists dn dv,
    objs h !! vptr v i = Some (mk_entry (mk_str (length (name (vhdr v i))) dn) (mk_str (length (value (vhdr v i))) dv)) /\
    (dn <= TABLE)%nat /\ (dv <= TABLE)%nat /\ (dn mod TABLE = vstart v i mod TABLE)%nat /\
    (dv mod TABLE = (vstart v i + length (name (vhdr v i))) mod TABLE)%nat;
  rep_starts : forall i, (vD v <= i < vA v)%nat -> vstart v (S i) = (vstart v i + length (text (vhdr v i)))%nat;
  rep_bytes : forall i, (vD v <= i < vA v)%nat -> ring (storage h) (vstart v i) (text (vhdr v i));
  rep_pos : (pos h <= TABLE)%nat /\ (pos h mod TABLE = vpos v mod TABLE)%nat;
  rep_storage : length (storage h) = TABLE;
  rep_size : 0 <= size h <= 4096
}.

Lemma tab_old hdr d a : (d < a)%nat -> tab hdr d a = tab hdr (S d) a ++ [hdr d].
Proof.
  intros H. unfold tab. replace (a - d)%nat with (S (a - S d)) by lia. cbn [seq]. rewrite reverse_cons, fmap_app. reflexivity.
Qed.

Lemma tab_new hdr d a : (d <= a)%nat -> tab hdr d (S a) = hdr a :: tab hdr d a.
Proof.
  intros H. unfold tab. replace (S a - d)%nat with (S (a - d)) by lia.
  rewrite seq_S, reverse_app, reverse_singleton. cbn. do 2 f_equal. lia.
Qed.

Lemma tab_lookup hdr d a i : (i < a - d)%nat -> tab hdr d a !! i = Some (hdr (a - 1 - i)%nat).
Proof.
  intros H. unfold tab. rewrite list_lookup_fmap, reverse_lookup by (rewrite length_seq; lia).
  rewrite length_seq, lookup_seq_lt by lia. cbn. do 2 f_equal. lia.
Qed.

Lemma tab_length hdr d a : length (tab hdr d a) = (a - d)%nat.
Proof. unfold tab. rewrite length_fmap, length_reverse, length_seq. reflexivity. Qed.

(** A ring of 64 or 128 slots does not notice that counters wrap around. *)
Lemma slot_count h v i : rep h v -> slot h (count i) = (i mod val v)%nat.
Proof.
  intros H. destruct (rep_allocated _ _ H) as [E Hv]. unfold slot, wrapu. rewrite E.
  rewrite Z.mod_mod_divide.
  - rewrite <-Nat2Z.inj_mod, Nat2Z.id. reflexivity.
  - destruct Hv as [-> | ->]; destruct ptr_size; cbn [bits].
    + exists (2 ^ 26). reflexivity.
    + exists (2 ^ 58). reflexivity.
    + exists (2 ^ 25). reflexivity.
    + exists (2 ^ 57). reflexivity.
Qed.

Lemma count_sub a d : (d <= a)%nat -> Z.of_nat (a - d) < 2 ^ 31 -> uint (count a - count d) = Z.of_nat (a - d).
Proof.
  intros H1 H2. unfold wrapu. rewrite <-Zminus_mod. replace (Z.of_nat a - Z.of_nat d) with (Z.of_nat (a - d)) by lia.
  apply Z.mod_small. destruct ptr_size; cbn [bits] in *; lia.
Qed.

Lemma count_add a n : uint (count a + Z.of_nat n) = count (a + n).
Proof. unfold wrapu. rewrite Zplus_mod_idemp_l. f_equal. lia. Qed.

Lemma rep_live h v : rep h v -> uint (added h - deleted h) = Z.of_nat (vA v - vD v) /\ (vA v - vD v <= 128)%nat.
Proof.
  intros H. destruct (rep_counters _ _ H) as (-> & -> & _). destruct (rep_order _ _ H). destruct (rep_allocated _ _ H).
  rewrite count_sub by lia. lia.
Qed.

Lemma pointer_rep h v i : rep h v -> (vR v <= i < vA v)%nat -> pointer_at h (count i) = Some (vptr v i).
Proof.
  intros H Hi. unfold pointer_at. rewrite (slot_count h v i H). destruct (rep_entries _ _ H) as (l & -> & _ & Hl).
  cbn. rewrite (Hl i Hi). reflexivity.
Qed.

Definition evicted (v : view) : view := mk_view (vA v) (S (vD v)) (vR v) (val v) (vptr v) (vhdr v) (vstart v) (vpos v).

Lemma size_t_small x : 0 <= x < 2 ^ 31 -> size_t x = x.
Proof. intros H. apply wrapu_small. destruct size_t_size; cbn [bits]; lia. Qed.

Lemma evict_rep h v : rep h v -> 0 <= free h -> free h + total (vtab v) = size h -> (vD v < vA v)%nat ->
  exists h', evict h = Some h' /\ rep h' (evicted v) /\ size h' = size h /\
    free h' = free h + esize (vhdr v (vD v)) /\ free h' + total (vtab (evicted v)) = size h'.
Proof.
  intros H Hf Ht Hd. unfold evict, entry_at. destruct (rep_counters _ _ H) as (EA & ED & ER).
  destruct (rep_order _ _ H) as [Ho1 Ho2]. rewrite ED, (pointer_rep h v) by (assumption || lia). cbn [mbind option_bind].
  destruct (rep_fields _ _ H (vD v) ltac:(lia)) as (dn & dv & E & _). rewrite E. cbn [mbind option_bind ename evalue len].
  unfold vtab in *. rewrite tab_old, total_app in Ht by exact Hd. cbn [total] in Ht.
  pose proof (total_ge (tab (vhdr v) (S (vD v)) (vA v))). pose proof (rep_size _ _ H). pose proof (esize_pos (vhdr v (vD v))).
  replace (32 + Z.of_nat (length (name (vhdr v (vD v)))) + Z.of_nat (length (value (vhdr v (vD v))))) with (esize (vhdr v (vD v))) by reflexivity.
  rewrite size_t_small by lia. eexists. split; [reflexivity|].
  split; [|cbn [size free set_free set_deleted vA vD vhdr evicted]; lia].
  destruct H. constructor; cbn; auto; try (intros; (apply rep_fields0 || apply rep_starts0 || apply rep_bytes0); lia); try lia.
  split; [exact EA|]. split; [|exact ER]. rewrite (count_add _ 1). f_equal. lia.
Qed.

(** The table [h] holds the fields of [v], within its size. *)
Definition linked (v : view) : Prop := vpos v = vstart v (vA v).

Definition accounts (h : hpack) (v : view) : Prop :=
  rep h v /\ linked v /\ 0 <= free h /\ free h + total (vtab v) = size h.

Lemma vtab_empty v : (vA v <= vD v)%nat -> vtab v = [].
Proof. intros H. apply nil_length_inv. unfold vtab. rewrite tab_length. lia. Qed.

(** One turn of a loop that needs [sz] bytes more. *)
Lemma evict_turn h v sz : accounts h v -> free h < sz <= size h ->
  (vD v < vA v)%nat /\ exists h', evict h = Some h' /\ accounts h' (evicted v) /\ size h' = size h /\
    fit (size h - sz) (vtab v) = fit (size h - sz) (vtab (evicted v)).
Proof.
  intros (H & Hk & Hf & Ht) Hsz. assert (vD v < vA v)%nat as Hd.
  { apply Nat.nle_gt. intros Hle. rewrite vtab_empty in Ht by exact Hle. cbn in Ht. lia. }
  split; [exact Hd|]. destruct (evict_rep h v H Hf Ht Hd) as (h' & E & H' & Es & Ef & Ht'). exists h'. split; [exact E|].
  split; [split; [exact H'|split; [exact Hk|split; [pose proof (esize_pos (vhdr v (vD v))); lia|exact Ht']]]|]. split; [exact Es|].
  assert (vtab v = vtab (evicted v) ++ [vhdr v (vD v)]) as Ev by (apply tab_old; exact Hd).
  rewrite Ev in Ht |- *. apply fit_drop. lia.
Qed.

Lemma account_loop_rep sz : forall f h v, accounts h v -> free h < sz <= size h -> (vA v - vD v <= f)%nat ->
  exists h' v', account_loop f sz h = Some h' /\ accounts h' v' /\ size h' = size h /\ sz <= free h' /\
    vtab v' = fit (size h - sz) (vtab v).
Proof.
  induction f as [|f IH]; intros h v H Hsz Hlen; destruct (evict_turn h v sz H Hsz) as (Hd & h1 & E & H1 & Es & Ef); [lia|].
  cbn [account_loop]. rewrite E, Ef. cbn [mbind option_bind]. destruct (sz >? free h1) eqn:Eg.
  - destruct (IH h1 (evicted v) H1 ltac:(lia) ltac:(cbn [vA vD evicted]; lia)) as (h' & v' & E' & H' & Es' & Hf' & Ev').
    exists h', v'. rewrite E', Ev', Es', Es. auto.
  - exists h1, (evicted v). rewrite fit_all; [auto with lia|]. destruct H1 as (_ & _ & _ & Ht). lia.
Qed.

Lemma size_loop_rep needed : forall f h v, accounts h v -> needed <= size h -> (vA v - vD v <= f)%nat ->
  exists h' v', size_loop f needed h = Some h' /\ accounts h' v' /\ size h' = size h /\ needed <= free h' /\
    vtab v' = fit (size h - needed) (vtab v).
Proof.
  assert (forall h v, accounts h v -> to_signed size_t_size (free h) = free h) as Hs.
  { intros h v (H & _ & Hf & Ht). pose proof (rep_size _ _ H). pose proof (total_ge (vtab v)). unfold to_signed.
    rewrite wrapu_small; destruct size_t_size; cbn [bits max_value]; try lia; destruct (_ <=? _) eqn:E; lia. }
  induction f as [|f IH]; intros h v H Hsz Hlen; cbn [size_loop]; rewrite (Hs h v H); destruct (needed >? free h) eqn:Eg.
  - destruct (evict_turn h v needed H ltac:(lia)) as (Hd & _). lia.
  - exists h, v. rewrite fit_all; [auto with lia|]. destruct H as (_ & _ & _ & Ht). lia.
  - destruct (evict_turn h v needed H ltac:(lia)) as (Hd & h1 & E & H1 & Es & Ef). rewrite E, Ef. cbn [mbind option_bind].
    destruct (IH h1 (evicted v) H1 ltac:(lia) ltac:(cbn [vA vD evicted]; lia)) as (h' & v' & E' & H' & Es' & Hf' & Ev').
    exists h', v'. rewrite E', Ev', Es', Es. auto.
  - exists h, v. rewrite fit_all; [auto with lia|]. destruct H as (_ & _ & _ & Ht). lia.
Qed.

Lemma rep_free h v f : rep h v -> rep (set_free f h) v.
Proof. intros []. constructor; assumption. Qed.

Lemma rep_resize h v n : rep h v -> 0 <= n <= 4096 -> rep (set_size n h) v.
Proof. intros [] Hn. constructor; assumption. Qed.

Definition cleared (v : view) : view :=
  mk_view (vA v) (vA v) (vR v) (val v) (vptr v) (vhdr v) (vstart v) (vpos v).

Lemma rep_clear h v : rep h v -> rep (set_deleted (added h) h) (cleared v).
Proof.
  intros [H1 H2 (H3 & H4 & H5) H6 H7 H8 _ _ _ H12 H13 H14].
  constructor; cbn; auto; try (intros; lia).
Qed.

(** ** Accounting for a field, and another size *)

Lemma account_rep h v hd : accounts h v -> esize hd <= NGX_MAX_SIZE_T_VALUE ->
  exists rc h' v',
    ngx_http_v2_table_account h (Z.of_nat (length (name hd)) + Z.of_nat (length (value hd))) = Some (rc, h') /\
    rep h' v' /\ linked v' /\ size h' = size h /\
    (size h < esize hd /\ rc = NGX_DECLINED /\ accounts h' v' /\ vtab v' = [] \/
     esize hd <= size h /\ rc = NGX_OK /\ 0 <= free h' /\ free h' + esize hd + total (vtab v') = size h /\
     vtab v' = fit (size h - esize hd) (vtab v)).
Proof.
  intros H Hsz. unfold ngx_http_v2_table_account.
  replace (size_t (Z.of_nat (length (name hd)) + Z.of_nat (length (value hd)) + 32)) with (esize hd).
  2: { unfold NGX_MAX_SIZE_T_VALUE in Hsz. unfold esize in *. rewrite wrapu_small; [lia|].
       rewrite max_value_bits in Hsz. destruct size_t_size; cbn [bits] in *; lia. }
  destruct H as (H & Hk & Hf & Ht). pose proof (total_ge (vtab v)). destruct (esize hd <=? free h) eqn:E1.
  - exists NGX_OK, (set_free (free h - esize hd) h), v. split; [reflexivity|]. split; [apply rep_free, H|].
    split; [exact Hk|]. split; [reflexivity|]. right. cbn [free set_free].
    rewrite fit_all by lia. split; [lia|]. split; [reflexivity|]. split; [lia|]. split; [lia|reflexivity].
  - destruct (esize hd >? size h) eqn:E2.
    + exists NGX_DECLINED. eexists. exists (cleared v). split; [reflexivity|].
      assert (rep (set_free (size h) (set_deleted (added h) h)) (cleared v)) as Hc by (apply rep_free, rep_clear, H).
      assert (vtab (cleared v) = []) as Ec by (apply vtab_empty; cbn; lia).
      split; [exact Hc|]. split; [exact Hk|]. split; [reflexivity|]. left. pose proof (rep_size _ _ H).
      split; [lia|]. split; [reflexivity|]. split; [|exact Ec]. split; [exact Hc|]. split; [exact Hk|].
      rewrite Ec. cbn. lia.
    + destruct (rep_live h v H) as [El _].
      destruct (account_loop_rep (esize hd) (live h) h v) as (h' & v' & E & (H' & Hk' & Hf' & Ht') & Es & Hle & Ev);
        [exact (conj H (conj Hk (conj Hf Ht)))|lia|unfold live; rewrite El; lia|].
      rewrite E. cbn [mbind option_bind]. exists NGX_OK, (set_free (free h' - esize hd) h'), v'. split; [reflexivity|].
      split; [apply rep_free, H'|]. split; [exact Hk'|]. split; [exact Es|]. right. cbn [free set_free].
      split; [lia|]. split; [reflexivity|]. split; [lia|]. split; [lia|exact Ev].
Qed.

Lemma table_size_rep h v sz : accounts h v -> 0 <= sz <= 4096 ->
  exists h' v', ngx_http_v2_table_size h sz = Some (NGX_OK, h') /\ accounts h' v' /\ size h' = sz /\
    vtab v' = fit sz (vtab v).
Proof.
  intros H Hsz. unfold ngx_http_v2_table_size. destruct (sz >? NGX_HTTP_V2_TABLE_SIZE) eqn:E0; [unfold NGX_HTTP_V2_TABLE_SIZE in E0; lia|].
  pose proof H as (Hr & _). pose proof (rep_size _ _ Hr). destruct (rep_live h v Hr) as [El _].
  assert (to_signed size_t_size (size h - sz) = size h - sz) as En.
  { unfold to_signed, wrapu. destruct size_t_size; cbn [bits max_value]; destruct (_ <=? _) eqn:E; Z.div_mod_to_equations; lia. }
  rewrite En. destruct (size_loop_rep (size h - sz) (live h) h v H) as (h' & v' & E & (H' & Hk' & Hf' & Ht') & Es & Hle & Ev);
    [lia|unfold live; rewrite El; lia|].
  rewrite E. cbn [mbind option_bind]. eexists. exists v'. split; [reflexivity|].
  pose proof (total_ge (vtab v')). rewrite size_t_small by lia.
  split; [|split; [reflexivity|rewrite Ev; f_equal; lia]].
  split; [apply rep_free, rep_resize; [exact H'|lia]|]. split; [exact Hk'|]. cbn [free size set_free set_size]. lia.
Qed.

(** ** Lookup *)

Lemma get_rep ok h v hd0 i only : accounts h v -> 61 < i ->
  (forall s, ok s = true) ->
  ngx_http_v2_get_indexed_header ok h hd0 i only =
  Some (match vtab v !! Z.to_nat (i - 62) with
        | Some hd => (NGX_OK, if only then mk_header (name hd) (value hd0) else hd)
        | None => (NGX_ERROR, hd0)
        end).
Proof.
  intros (H & Hk & Hf & Ht) Hi Hok. unfold ngx_http_v2_get_indexed_header. change NGX_HTTP_V2_STATIC_TABLE_ENTRIES with 61.
  replace (i =? 0) with false by lia. replace (i - 1 <? 61) with false by lia.
  destruct (rep_live h v H) as [El Hl]. rewrite El. unfold vtab. replace (Z.to_nat (i - 62)) with (Z.to_nat (i - 1 - 61)) by lia.
  destruct (i - 1 - 61 <? Z.of_nat (vA v - vD v)) eqn:E.
  - set (k := Z.to_nat (i - 1 - 61)). rewrite tab_lookup by lia. set (j := (vA v - 1 - k)%nat).
    destruct (rep_order _ _ H) as [Ho1 Ho2]. destruct (rep_counters _ _ H) as (EA & _ & _).
    assert (uint (added h - (i - 1 - 61) - 1) = count j) as ->.
    { rewrite EA. unfold wrapu. rewrite <-Z.sub_add_distr, Zminus_mod_idemp_l. f_equal. lia. }
    unfold entry_at. rewrite (pointer_rep h v) by (assumption || lia). cbn [mbind option_bind].
    destruct (rep_fields _ _ H j ltac:(lia)) as (dn & dv & Ee & B1 & B2 & M1 & M2). rewrite Ee. cbn [mbind option_bind ename evalue].
    rewrite !Hok. cbn [negb]. pose proof (rep_bytes _ _ H j ltac:(lia)) as Hb. unfold text in Hb. apply ring_app in Hb as [Hb1 Hb2].
    assert (esize (vhdr v j) <= 4096) as Hle.
    { pose proof (rep_size _ _ H). assert (In (vhdr v j) (vtab v)) as Hin%total_in; [|lia].
      apply list_elem_of_In. unfold vtab. eapply list_elem_of_lookup_2. apply (tab_lookup _ _ _ k). lia. }
    unfold esize in Hle. pose proof TABLE_val. pose proof (rep_storage _ _ H).
    rewrite (copy_out_ring (storage h) dn _ (name (vhdr v j))); [|assumption|assumption|lia|reflexivity|eapply ring_mod; [symmetry; exact M1|exact Hb1]].
    cbn [mbind option_bind]. destruct only; [reflexivity|].
    rewrite (copy_out_ring (storage h) dv _ (value (vhdr v j))); [|assumption|assumption|lia|reflexivity|eapply ring_mod; [symmetry; exact M2|exact Hb2]].
    cbn. destruct (vhdr v j); reflexivity.
  - rewrite lookup_ge_None_2; [reflexivity|]. rewrite tab_length. lia.
Qed.

(** ** Insertion *)

(** [h'] differs from [h] only in the storage and the entries. *)
Definition same_ring (h h' : hpack) : Prop :=
  entries h' = entries h /\ added h' = added h /\ deleted h' = deleted h /\ reused h' = reused h /\
  allocated h' = allocated h /\ size h' = size h /\ free h' = free h.

(** The entry [p] is none of those in the ring. *)
Definition unused (v : view) (p : nat) : Prop := forall i, (vR v <= i < vA v)%nat -> vptr v i <> p.

Definition take_view (v : view) : view :=
  mk_view (vA v) (vD v) (if Nat.eqb (vR v) (vD v) then vR v else S (vR v)) (val v) (vptr v) (vhdr v) (vstart v) (vpos v).

Lemma count_eq h v : rep h v -> (reused h =? deleted h) = Nat.eqb (vR v) (vD v).
Proof.
  intros H. destruct (rep_counters _ _ H) as (_ & -> & ->). destruct (rep_order _ _ H) as [H1 H2]. destruct (rep_allocated _ _ H) as [_ H3].
  destruct (Nat.eqb_spec (vR v) (vD v)) as [->|Hn]; [lia|]. apply Z.eqb_neq. intros E.
  pose proof (count_sub (vD v) (vR v) ltac:(lia) ltac:(lia)) as Es. rewrite E, Z.sub_diag in Es. unfold wrapu in Es.
  rewrite Z.mod_0_l in Es; [lia|]. destruct ptr_size; discriminate.
Qed.

Lemma take_entry_rep ok h v : rep h v -> (forall s, ok s = true) ->
  exists p h', take_entry ok h = Some (Some (p, h')) /\ rep h' (take_view v) /\ size h' = size h /\ free h' = free h /\
    (p < length (objs h'))%nat /\ unused (take_view v) p.
Proof.
  intros H Hok. unfold take_entry, take_view, unused. rewrite (count_eq h v H).
  destruct (Nat.eqb_spec (vR v) (vD v)) as [E|E].
  - rewrite Hok. do 2 eexists. split; [reflexivity|]. cbn [vR vA vptr]. split; [|split; [reflexivity|split; [reflexivity|]]].
    + destruct H. constructor; cbn; auto; try lia; rewrite ?length_app.
      * intros i Hi. specialize (rep_objects0 i Hi). lia.
      * intros i Hi. destruct (rep_fields0 i Hi) as (dn & dv & Ee & R). exists dn, dv. split; [|exact R]. apply lookup_app_l_Some, Ee.
    + cbn [objs set_objs]. rewrite length_app. split; [cbn; lia|]. intros i Hi. pose proof (rep_objects _ _ H i Hi). lia.
  - destruct (rep_counters _ _ H) as (_ & _ & ER). destruct (rep_order _ _ H) as [Ho1 Ho2].
    rewrite ER, (pointer_rep h v) by (assumption || lia). cbn [mbind option_bind]. do 2 eexists. split; [reflexivity|].
    cbn [vR vA vptr]. split; [|split; [reflexivity|split; [reflexivity|]]].
    + destruct H. constructor; cbn; auto; try lia.
      * destruct rep_entries0 as (l & E1 & E2 & E3). exists l. split; [exact E1|]. split; [exact E2|]. intros i Hi. apply E3. lia.
      * destruct rep_counters0 as (-> & -> & _). split; [reflexivity|]. split; [reflexivity|].
        rewrite (count_add _ 1). f_equal. lia.
      * intros i Hi. apply rep_objects0. lia.
      * intros i k Hi Hk. apply rep_distinct0; lia.
    + split; [apply (rep_objects _ _ H); lia|]. intros i Hi Ei.
      apply (rep_distinct _ _ H) in Ei; lia.
Qed.

(** The bytes between the beginning of a field and the end of the newest. *)
Lemma start_span h v i : rep h v -> (vD v <= i <= vA v)%nat ->
  Z.of_nat (vstart v (vA v)) <= Z.of_nat (vstart v i) + total (tab (vhdr v) i (vA v)) /\ (vstart v i <= vstart v (vA v))%nat.
Proof.
  intros H Hi. remember (vA v - i)%nat as n eqn:En. revert i Hi En. induction n as [|n IH]; intros i Hi En.
  - replace (vA v) with i in * by lia. pose proof (total_ge (tab (vhdr v) i i)). lia.
  - pose proof (rep_starts _ _ H i ltac:(lia)) as Es. destruct (IH (S i) ltac:(lia) ltac:(lia)) as [IH1 IH2].
    rewrite tab_old, total_app by lia. cbn [total]. rewrite Es in IH1, IH2. unfold text in *. rewrite length_app in *. unfold esize. lia.
Qed.

Lemma tab_split hdr d i a : (d <= i <= a)%nat -> total (tab hdr i a) <= total (tab hdr d a).
Proof.
  intros H. remember (i - d)%nat as n eqn:En. revert d H En. induction n as [|n IH]; intros d H En.
  - replace i with d by lia. lia.
  - rewrite (tab_old hdr d a), total_app by lia. cbn [total]. pose proof (esize_pos (hdr d)). specialize (IH (S d) ltac:(lia) ltac:(lia)). lia.
Qed.

Definition moved (n : nat) (v : view) : view :=
  mk_view (vA v) (vD v) (vR v) (val v) (vptr v) (vhdr v) (vstart v) (vpos v + n).

Lemma fill_entry_rep h v p hd : rep h v -> linked v -> (p < length (objs h))%nat -> unused v p ->
  esize hd + total (vtab v) <= 4096 ->
  exists h' dn dv, fill_entry p hd h = Some h' /\ rep h' (moved (length (text hd)) v) /\ same_ring h h' /\
    length (objs h') = length (objs h) /\
    objs h' !! p = Some (mk_entry (mk_str (length (name hd)) dn) (mk_str (length (value hd)) dv)) /\
    (dn <= TABLE)%nat /\ (dv <= TABLE)%nat /\ (dn mod TABLE = vpos v mod TABLE)%nat /\
    (dv mod TABLE = (vpos v + length (name hd)) mod TABLE)%nat /\ ring (storage h') (vpos v) (text hd).
Proof.
  intros H Hk Hp Hu Hle. unfold fill_entry. destruct (rep_pos _ _ H) as [Hx Hm]. pose proof (rep_storage _ _ H) as Hst.
  pose proof TABLE_val as HT. unfold esize in Hle. pose proof (total_ge (vtab v)).
  destruct (copy_in_ring (storage h) (pos h) (TABLE - pos h) (name hd)) as (s1 & x1 & a1 & E1 & L1 & R1 & O1 & B1 & M1 & C1); [lia|lia|lia|lia|].
  rewrite E1. cbn [mbind option_bind].
  destruct (copy_in_ring s1 x1 a1 (value hd)) as (s2 & x2 & a2 & E2 & L2 & R2 & O2 & B2 & M2 & C2); [lia|lia|lia|lia|].
  rewrite E2. cbn [mbind option_bind]. do 3 eexists. split; [reflexivity|].
  assert (x1 mod TABLE = (vpos v + length (name hd)) mod TABLE)%nat as Mn.
  { rewrite M1, <-(Nat.Div0.add_mod_idemp_l (pos h)), Hm, Nat.Div0.add_mod_idemp_l. reflexivity. }
  assert (outside (storage h) s1 (vpos v) (length (name hd))) as O1'.
  { intros y Hy Hn. apply O1; [exact Hy|]. intros k Hk'. rewrite <-Nat.Div0.add_mod_idemp_l, Hm, Nat.Div0.add_mod_idemp_l. auto. }
  assert (outside s1 s2 (vpos v + length (name hd)) (length (value hd))) as O2'.
  { intros y Hy Hn. apply O2; [exact Hy|]. intros k Hk'. rewrite <-Nat.Div0.add_mod_idemp_l, Mn, Nat.Div0.add_mod_idemp_l. auto. }
  assert (ring s1 (vpos v) (name hd)) as R1' by (eapply ring_mod; [exact Hm|exact R1]).
  assert (ring s2 (vpos v + length (name hd)) (value hd)) as R2' by (eapply ring_mod; [exact Mn|exact R2]).
  cbn [objs storage set_storage set_objs]. split; [|split; [repeat split|]].
  - pose proof H as H'. destruct H. constructor; cbn [entries added deleted reused allocated size free storage pos objs set_storage set_objs moved vA vD vR val vptr vhdr vstart vpos]; try assumption; rewrite ?length_insert.
    + exact rep_objects0.
    + intros i Hi. destruct (rep_fields0 i Hi) as (dn & dv & Ee & R). exists dn, dv. split; [|exact R].
      rewrite list_lookup_insert_ne; [exact Ee|]. intros ->. apply (Hu i); [lia|reflexivity].
    + intros i Hi. destruct (start_span h v i H' ltac:(lia)) as [S1 S2]. pose proof (tab_split (vhdr v) (vD v) i (vA v) ltac:(lia)).
      fold (vtab v) in *. specialize (rep_starts0 i Hi). unfold linked in Hk.
      destruct (start_span h v (S i) H' ltac:(lia)) as [_ S3].
      eapply ring_outside; [eapply ring_outside; [exact (rep_bytes0 i Hi)|exact O1'| |]|exact O2'| |]; lia.
    + split; [exact B2|]. rewrite M2, <-Nat.Div0.add_mod_idemp_l, Mn, Nat.Div0.add_mod_idemp_l. unfold text. rewrite length_app. f_equal. lia.
  - rewrite length_insert. split; [reflexivity|]. rewrite list_lookup_insert_eq by exact Hp. split; [reflexivity|].
    split; [exact Hx|]. split; [exact B1|]. split; [exact Hm|]. split; [exact Mn|]. apply ring_app. split; [|exact R2'].
    eapply ring_outside; [exact R1'|exact O2'| |]; lia.
Qed.

(** The entries in a longer array: the oldest is the first. *)
Definition grown (v : view) : view :=
  if Nat.eqb (vA v - vD v) (val v) then
    mk_view (val v) 0 0 (val v + 64) (fun i => vptr v (vD v + i)) (fun i => vhdr v (vD v + i))
      (fun i => vstart v (vD v + i)) (vpos v)
  else v.

Lemma tab_shift hdr d a : (d <= a)%nat -> tab (fun i => hdr (d + i)%nat) 0 (a - d) = tab hdr d a.
Proof.
  intros H. unfold tab. rewrite Nat.sub_0_r.
  apply list_eq. intros k. rewrite !list_lookup_fmap. destruct (decide (k < a - d)%nat) as [Hk|Hk].
  - rewrite !reverse_lookup by (rewrite length_seq; lia). rewrite !length_seq, !lookup_seq_lt by lia. reflexivity.
  - rewrite !lookup_ge_None_2; [reflexivity| |]; rewrite length_reverse, length_seq; lia.
Qed.

Lemma rotate_lookup {A} (l : list A) d i : (i < length l)%nat ->
  (drop (d mod length l) l ++ take (d mod length l) l) !! i = l !! ((d + i) mod length l)%nat.
Proof.
  intros Hi. pose proof (Nat.mod_upper_bound d (length l) ltac:(lia)) as Hd. set (n := length l) in *.
  rewrite <-Nat.Div0.add_mod_idemp_l. set (x := (d mod n)%nat) in *.
  destruct (decide (i < n - x)%nat) as [Hx|Hx].
  - rewrite lookup_app_l, lookup_drop by (rewrite length_drop; fold n; lia). rewrite Nat.mod_small by lia. reflexivity.
  - rewrite lookup_app_r, length_drop by (rewrite length_drop; fold n; lia). fold n. rewrite lookup_take_lt by lia.
    replace (x + i)%nat with (i - (n - x) + 1 * n)%nat by lia. rewrite Nat.Div0.mod_add, Nat.mod_small by lia. reflexivity.
Qed.

Lemma grow_rep ok h v : rep h v -> (vA v - vD v < 128)%nat -> (vA v - vD v = val v -> vR v = vD v)%nat -> (forall s, ok s = true) ->
  (vA v < vR v + val v \/ vA v - vD v = val v)%nat ->
  exists h', grow ok h = Some (NGX_OK, h') /\ rep h' (grown v) /\ vtab (grown v) = vtab v /\
    (vA (grown v) < vR (grown v) + val (grown v))%nat /\ size h' = size h /\ free h' = free h /\
    objs h' = objs h /\ storage h' = storage h /\
    (forall p, unused v p -> unused (grown v) p) /\ vstart (grown v) (vA (grown v)) = vstart v (vA v) /\ vpos (grown v) = vpos v.
Proof.
  intros H Hlt Hrd Hok Hroom. unfold grow. destruct (rep_entries _ _ H) as (l & El & Ll & Hl). rewrite El. cbn [mbind option_bind].
  destruct (rep_live h v H) as [Ev _]. destruct (rep_allocated _ _ H) as [Ea Hv]. rewrite Ev, Ea. unfold grown, unused, vtab.
  destruct (Nat.eqb_spec (vA v - vD v) (val v)) as [E|E].
  2: { replace (Z.of_nat (val v) =? Z.of_nat (vA v - vD v)) with false by lia. exists h. repeat (split; [solve [auto | lia]|]). reflexivity. }
  replace (Z.of_nat (val v) =? Z.of_nat (vA v - vD v)) with true by lia. rewrite Hok. cbn [negb].
  specialize (Hrd E). assert (val v = 64)%nat as E64 by lia. destruct (rep_counters _ _ H) as (_ & ED & _). destruct (rep_order _ _ H) as [Ho1 Ho2].
  eexists. split; [reflexivity|]. cbn [vA vD vR val vptr vhdr vstart vpos].
  split; [|split; [rewrite <-E; apply tab_shift; lia|split; [lia|repeat (split; [reflexivity|])]]].
  - assert (slot h (deleted h) = vD v mod length l)%nat as Es by (rewrite ED, (slot_count h v) by exact H; congruence).
    rewrite Es. destruct H. constructor; cbn [entries added deleted reused allocated size free storage pos objs vA vD vR val vptr vhdr vstart vpos]; auto; try lia.
    + eexists. split; [reflexivity|]. split.
      * rewrite !length_app, length_drop, length_take, length_replicate. pose proof (Nat.mod_upper_bound (vD v) (length l)). lia.
      * intros i Hi. rewrite Nat.mod_small by lia. rewrite app_assoc, lookup_app_l, rotate_lookup by (rewrite ?length_app, ?length_drop, ?length_take; lia).
        rewrite Ll. apply Hl. lia.
    + rewrite E64. rewrite wrapu_uint32 by lia. lia.
    + rewrite E64. repeat split; rewrite wrapu_uint32; lia.
    + intros i Hi. apply rep_objects0. lia.
    + intros i j Hi Hj Hij. apply rep_distinct0 in Hij; lia.
    + intros i Hi. apply rep_fields0. lia.
    + intros i Hi. rewrite Nat.add_succ_r. apply rep_starts0. lia.
    + intros i Hi. apply rep_bytes0. lia.
  - split; [|split; [f_equal; lia|reflexivity]]. intros p Hu i Hi. apply Hu. lia.
Qed.

Definition upd {A} (f : nat -> A) (i : nat) (x : A) (j : nat) : A := if Nat.eqb j i then x else f j.

Lemma upd_ne {A} (f : nat -> A) i x j : j <> i -> upd f i x j = f j.
Proof. intros H. unfold upd. destruct (Nat.eqb_spec j i); [contradiction|reflexivity]. Qed.

Lemma upd_eq {A} (f : nat -> A) i x : upd f i x i = x.
Proof. unfold upd. rewrite Nat.eqb_refl. reflexivity. Qed.

Definition pushed (p : nat) (hd : header) (v : view) : view :=
  mk_view (S (vA v)) (vD v) (vR v) (val v) (upd (vptr v) (vA v) p) (upd (vhdr v) (vA v) hd)
    (upd (vstart v) (S (vA v)) (vpos v)) (vpos v).

Lemma push_rep h v p hd dn dv : rep h v -> (vA v < vR v + val v)%nat -> (p < length (objs h))%nat -> unused v p ->
  vpos v = (vstart v (vA v) + length (text hd))%nat ->
  objs h !! p = Some (mk_entry (mk_str (length (name hd)) dn) (mk_str (length (value hd)) dv)) ->
  (dn <= TABLE)%nat -> (dv <= TABLE)%nat -> (dn mod TABLE = vstart v (vA v) mod TABLE)%nat ->
  (dv mod TABLE = (vstart v (vA v) + length (name hd)) mod TABLE)%nat -> ring (storage h) (vstart v (vA v)) (text hd) ->
  exists h', push p h = Some h' /\ rep h' (pushed p hd v) /\ linked (pushed p hd v) /\ size h' = size h /\ free h' = free h /\
    vtab (pushed p hd v) = hd :: vtab v.
Proof.
  intros H Hroom Hp Hu Hpos He B1 B2 M1 M2 Hr. unfold push. destruct (rep_entries _ _ H) as (l & El & Ll & Hl). rewrite El.
  cbn [mbind option_bind]. destruct (rep_counters _ _ H) as (EA & _). destruct (rep_order _ _ H) as [Ho1 Ho2].
  destruct (rep_allocated _ _ H) as [_ Hv]. rewrite EA, (slot_count h v) by exact H.
  assert (vA v mod val v < length l)%nat as Hs by (rewrite Ll; apply Nat.mod_upper_bound; lia).
  rewrite (proj2 (Nat.ltb_lt _ _) Hs). eexists. split; [reflexivity|].
  split; [|split; [unfold linked, pushed; cbn [vpos vstart vA]; rewrite upd_eq; reflexivity|split; [reflexivity|split; [reflexivity|]]]].
  - unfold pushed. destruct H. constructor; cbn [entries added deleted reused allocated size free storage pos objs set_entries vA vD vR val vptr vhdr vstart vpos]; auto; try lia.
    + eexists. split; [reflexivity|]. rewrite length_insert. split; [exact Ll|]. intros i Hi.
      destruct (decide (i = vA v)) as [->|Hn]; [rewrite upd_eq, list_lookup_insert_eq by exact Hs; reflexivity|].
      rewrite upd_ne, list_lookup_insert_ne by (exact Hn || (intros Em; apply Hn; clear -Em Hroom Hi Hv;
        pose proof (Nat.Div0.div_mod i (val v)); pose proof (Nat.Div0.div_mod (vA v) (val v)); nia)). apply Hl. lia.
    + destruct rep_counters0 as (_ & E2 & E3). split; [|auto]. rewrite (count_add _ 1). f_equal. lia.
    + intros i Hi. destruct (decide (i = vA v)) as [->|Hn]; [rewrite upd_eq; exact Hp|]. rewrite upd_ne by exact Hn. apply rep_objects0. lia.
    + intros i j Hi Hj. destruct (decide (i = vA v)) as [->|Hn], (decide (j = vA v)) as [->|Hn']; rewrite ?upd_eq, ?(upd_ne (vptr v)) by assumption.
      * reflexivity.
      * intros E. destruct (Hu j); [lia|congruence].
      * intros E. destruct (Hu i); [lia|congruence].
      * apply rep_distinct0; lia.
    + intros i Hi. destruct (decide (i = vA v)) as [->|Hn].
      * rewrite !upd_eq, upd_ne by lia. exists dn, dv. auto.
      * rewrite !(upd_ne (vptr v)), !(upd_ne (vhdr v)), upd_ne by lia. apply rep_fields0. lia.
    + intros i Hi. destruct (decide (i = vA v)) as [->|Hn].
      * rewrite !upd_eq, upd_ne by lia. exact Hpos.
      * rewrite !upd_ne by lia. apply rep_starts0. lia.
    + intros i Hi. destruct (decide (i = vA v)) as [->|Hn].
      * rewrite upd_eq, upd_ne by lia. exact Hr.
      * rewrite !upd_ne by lia. apply rep_bytes0. lia.
  - unfold vtab, pushed. cbn [vhdr vD vA]. rewrite tab_new, upd_eq by lia. f_equal. unfold tab. apply list_fmap_ext.
    intros k i Hk. apply upd_ne. apply list_elem_of_lookup_2 in Hk. apply elem_of_reverse, elem_of_seq in Hk. lia.
Qed.

Lemma add_rep h v hd : accounts h v -> entries h <> None -> esize hd <= NGX_MAX_SIZE_T_VALUE ->
  exists h' v', ngx_http_v2_add_header memory h hd = Some (NGX_OK, h') /\ accounts h' v' /\ size h' = size h /\
    vtab v' = if esize hd >? size h then [] else hd :: fit (size h - esize hd) (vtab v).
Proof.
  intros H He Hsz. unfold ngx_http_v2_add_header, start. destruct (entries h) as [l|]; [|contradiction]. clear He l.
  destruct (account_rep h v hd H Hsz) as (rc & h1 & v1 & E1 & H1 & K1 & S1 & C). rewrite E1. cbn [mbind option_bind Z.eqb negb NGX_OK].
  destruct C as [(Hlt & -> & A1 & V1)|(Hle & -> & F1 & T1 & V1)].
  { exists h1, v1. replace (esize hd >? size h) with true by lia. auto. }
  replace (esize hd >? size h) with false by lia. cbn [Z.eqb negb NGX_OK]. rewrite <-V1. destruct H as (Hr & _). pose proof (rep_size _ _ Hr) as Hs.
  destruct (take_entry_rep memory h1 v1 H1 ltac:(reflexivity)) as (p & h2 & E2 & H2 & S2 & F2 & P2 & U2). rewrite E2. cbn [mbind option_bind].
  assert (vtab (take_view v1) = vtab v1) as V2 by reflexivity.
  destruct (fill_entry_rep h2 (take_view v1) p hd H2 K1 P2 U2 ltac:(rewrite V2; lia)) as (h3 & dn & dv & E3 & H3 & R3 & L3 & O3 & B1 & B2 & M1 & M2 & Rg).
  rewrite E3. cbn [mbind option_bind]. set (v3 := moved _ _) in *. destruct R3 as (_ & _ & _ & _ & _ & S3 & F3).
  pose proof (total_ge (vtab v1)) as Hge. unfold vtab in Hge at 1. rewrite tab_length in Hge. pose proof (esize_pos hd).
  destruct (rep_order _ _ H1) as [Ho1 Ho2].
  destruct (grow_rep memory h3 v3 H3) as (h4 & E4 & H4 & V4 & A4 & S4 & F4 & O4 & St4 & U4 & Sa4 & Po4).
  { unfold v3, moved, take_view. cbn [vA vD]. lia. }
  { unfold v3, moved, take_view. cbn [vA vD vR val]. destruct (Nat.eqb_spec (vR v1) (vD v1)); lia. }
  { reflexivity. }
  { unfold v3, moved, take_view. cbn [vA vD vR val]. destruct (Nat.eqb_spec (vR v1) (vD v1)); lia. }
  rewrite E4. cbn [mbind option_bind Z.eqb negb NGX_OK].
  assert (vstart (grown v3) (vA (grown v3)) = vpos (take_view v1)) as Es by (rewrite Sa4; symmetry; exact K1).
  destruct (push_rep h4 (grown v3) p hd dn dv H4 A4) as (h5 & E5 & H5 & K5 & S5 & F5 & V5); rewrite ?Es, ?O4, ?St4; auto.
  { rewrite L3. exact P2. }
  rewrite E5. cbn [mbind option_bind]. exists h5, (pushed p hd (grown v3)). split; [reflexivity|].
  rewrite V5, V4. change (vtab v3) with (vtab v1). split; [|split; [lia|reflexivity]].
  split; [exact H5|]. split; [exact K5|]. rewrite V5, V4. change (vtab v3) with (vtab v1). cbn [total]. lia.
Qed.

(** ** When memory runs out *)

Definition exhausted {A} (ok : site -> bool) (r : option (Z * A)) : Prop :=
  exists s x, ok s = false /\ r = Some (NGX_ERROR, x).

Lemma add_memory ok h hd : ngx_http_v2_add_header ok h hd = ngx_http_v2_add_header memory h hd \/
  exhausted ok (ngx_http_v2_add_header ok h hd).
Proof.
  assert (forall s, ok s = false -> forall h' : hpack, exhausted ok (Some (NGX_ERROR, h'))) as Hx by (intros s Hs h'; exists s, h'; auto).
  unfold ngx_http_v2_add_header.
  assert (start ok h = start memory h \/ exists s, ok s = false /\ fst (start ok h) = NGX_ERROR) as [->|(s & Hs & E)].
  { unfold start. destruct (entries h); [auto|]. destruct (ok Alloc_entries) eqn:E1; [|right; eauto].
    destruct (ok Alloc_storage) eqn:E2; [left; reflexivity|right; eauto]. }
  2: { destruct (start ok h) as [rc h']. cbn [fst] in E. subst rc. right. cbn. eauto. }
  destruct (start memory h) as [rc h0]. destruct (negb _); [left; reflexivity|].
  destruct (ngx_http_v2_table_account _ _) as [[rc' h1]|]; cbn [mbind option_bind]; [|left; reflexivity].
  destruct (negb _); [left; reflexivity|]. unfold take_entry. change (memory Alloc_entry) with true.
  destruct (reused h1 =? deleted h1).
  - destruct (ok Alloc_entry) eqn:E2; cbn [mbind option_bind]; [|right; eauto].
    destruct (fill_entry _ _ _) as [h3|]; cbn [mbind option_bind]; [|left; reflexivity]. unfold grow.
    destruct (entries h3); cbn [mbind option_bind]; [|left; reflexivity]. destruct (_ =? _); [|left; reflexivity].
    destruct (ok Alloc_grow) eqn:E3; [left; reflexivity|right; cbn; eauto].
  - destruct (pointer_at _ _); cbn [mbind option_bind]; [|left; reflexivity].
    destruct (fill_entry _ _ _) as [h3|]; cbn [mbind option_bind]; [|left; reflexivity]. unfold grow.
    destruct (entries h3); cbn [mbind option_bind]; [|left; reflexivity]. destruct (_ =? _); [|left; reflexivity].
    destruct (ok Alloc_grow) eqn:E3; [left; reflexivity|right; cbn; eauto].
Qed.

Lemma get_memory ok h hd i only :
  ngx_http_v2_get_indexed_header ok h hd i only = ngx_http_v2_get_indexed_header memory h hd i only \/
  exhausted ok (ngx_http_v2_get_indexed_header ok h hd i only).
Proof.
  unfold ngx_http_v2_get_indexed_header. destruct (i =? 0); [auto|]. destruct (_ <? _); [auto|]. destruct (_ <? _); [|auto].
  destruct (entry_at _ _) as [e|]; cbn [mbind option_bind]; [|auto]. destruct (ok Alloc_name) eqn:E1; cbn [negb memory].
  2: { right. exists Alloc_name. eauto. }
  destruct (copy_out _ (ename e)); cbn [mbind option_bind]; [|auto]. destruct only; [auto|].
  destruct (ok Alloc_value) eqn:E2; cbn [negb]; [auto|]. right. exists Alloc_value. eauto.
Qed.

(** ** The table refines the list *)

Definition refines (h : hpack) (t : table) : Prop :=
  if used t then exists v, accounts h v /\ size h = limit t /\ vtab v = fields t
  else entries h = None /\ added h = 0 /\ deleted h = 0 /\ reused h = 0 /\ free h = size h /\ 0 <= size h <= 4096 /\
    limit t = 4096 /\ fields t = [].

Definition fresh_view : view := mk_view 0 0 0 64 (fun _ => O) (fun _ => mk_header [] []) (fun _ => O) 0.

Lemma start_rep h t : refines h t -> used t = false -> exists h', start memory h = (NGX_OK, h') /\
  accounts h' fresh_view /\ size h' = 4096 /\ entries h' <> None /\ forall hd, ngx_http_v2_add_header memory h hd = ngx_http_v2_add_header memory h' hd.
Proof.
  intros H Hu. unfold refines in H. rewrite Hu in H. destruct H as (E & EA & ED & ER & _). unfold ngx_http_v2_add_header, start.
  rewrite E. cbn [memory negb]. eexists. split; [reflexivity|]. split; [|split; [reflexivity|split; [discriminate|intros hd; reflexivity]]].
  rewrite EA, ED, ER. split; [|split; [reflexivity|split; [discriminate|reflexivity]]].
  constructor; cbn [entries added deleted reused allocated size free storage pos objs set_storage fresh_view vA vD vR val vptr vhdr vstart vpos]; try (intros; lia).
  - eexists. split; [reflexivity|]. rewrite length_replicate. split; [reflexivity|]. intros; lia.
  - split; [reflexivity|auto].
  - apply length_replicate.
  - split; discriminate.
Qed.

Lemma add_refines h t hd : refines h t -> esize hd <= NGX_MAX_SIZE_T_VALUE ->
  exists h', ngx_http_v2_add_header memory h hd = Some (NGX_OK, h') /\ refines h' (table_insert hd t).
Proof.
  intros H Hsz. destruct (used t) eqn:Hu.
  - pose proof H as Hr. unfold refines in H. rewrite Hu in H. destruct H as (v & Hv & Es & Ev).
    destruct (rep_entries _ _ (proj1 Hv)) as (l & El & _).
    destruct (add_rep h v hd Hv ltac:(congruence) Hsz) as (h' & v' & E & H' & Es' & Ev'). exists h'. split; [exact E|].
    unfold refines. cbn [used table_insert limit fields]. exists v'. rewrite Ev', Es', Es, Ev. auto.
  - destruct (start_rep h t H Hu) as (h0 & _ & Hv & Es & He & ->). destruct (add_rep h0 fresh_view hd Hv He Hsz) as (h' & v' & E & H' & Es' & Ev').
    exists h'. split; [exact E|]. unfold refines in *. rewrite Hu in H. destruct H as (_ & _ & _ & _ & _ & _ & El & Ef).
    cbn [used table_insert limit fields]. exists v'. rewrite Ev', Es', Es, El, Ef. auto.
Qed.

Lemma resize_refines h t n : refines h t -> 0 <= n <= 4096 ->
  exists h', ngx_http_v2_table_size h n = Some (NGX_OK, h') /\ refines h' (table_resize n t).
Proof.
  intros H Hn. unfold refines, table_resize in *. destruct (used t) eqn:Hu; cbn [used]; rewrite ?Hu.
  - destruct H as (v & Hv & Es & Ev). destruct (table_size_rep h v n Hv Hn) as (h' & v' & E & H' & Es' & Ev').
    exists h'. split; [exact E|]. exists v'. rewrite Ev', Ev. auto.
  - destruct H as (He & EA & ED & ER & Ef & Hs & El & Efs). unfold ngx_http_v2_table_size, live.
    replace (n >? NGX_HTTP_V2_TABLE_SIZE) with false by (unfold NGX_HTTP_V2_TABLE_SIZE; lia). rewrite EA, ED. change (0 - 0) with 0.
    assert (forall x, -4096 <= x <= 4096 -> to_signed size_t_size x = x) as Hsg.
    { intros x Hx. unfold to_signed, wrapu. destruct size_t_size; cbn [bits max_value]; destruct (_ <=? _) eqn:E; Z.div_mod_to_equations; lia. }
    rewrite wrapu_uint32 by lia. change (Z.to_nat 0) with O. cbn [size_loop].
    rewrite Ef, !Hsg by lia. replace (size h - n >? size h) with false by lia. cbn [mbind option_bind]. eexists. split; [reflexivity|].
    cbn [entries added deleted reused free size set_free set_size]. rewrite Ef, size_t_small by lia. repeat split; auto; lia.
Qed.

Lemma refines_bounds h t : refines h t -> total (fields t) <= limit t <= 4096.
Proof.
  unfold refines. destruct (used t).
  - intros (v & (H & _ & Hf & Ht) & Es & <-). pose proof (rep_size _ _ H). lia.
  - intros (_ & _ & _ & _ & _ & _ & -> & ->). cbn. lia.
Qed.

Lemma lookup_refines h t hd i only : refines h t -> 0 <= i ->
  ngx_http_v2_get_indexed_header memory h hd i only =
  Some (match table_lookup t i with
        | Some f => (NGX_OK, if only && (61 <? i) then mk_header (name f) (value hd) else f)
        | None => (NGX_ERROR, hd)
        end).
Proof.
  intros H Hi. unfold table_lookup. destruct (i <=? 0) eqn:E0.
  { replace i with 0 by lia. reflexivity. }
  destruct (i <=? 61) eqn:E1.
  - unfold ngx_http_v2_get_indexed_header. change NGX_HTTP_V2_STATIC_TABLE_ENTRIES with 61.
    replace (i =? 0) with false by lia. replace (i - 1 <? 61) with true by lia. replace (61 <? i) with false by lia. rewrite andb_false_r.
    destruct (lookup_lt_is_Some_2 ngx_http_v2_static_table (Z.to_nat (i - 1))) as [f ->]; [|reflexivity].
    change (length ngx_http_v2_static_table) with 61%nat. lia.
  - replace (61 <? i) with true by lia. rewrite andb_true_r. unfold refines in H. destruct (used t).
    + destruct H as (v & Hv & _ & <-). apply get_rep; [exact Hv|lia|reflexivity].
    + destruct H as (_ & EA & ED & _ & _ & _ & _ & ->). unfold ngx_http_v2_get_indexed_header. change NGX_HTTP_V2_STATIC_TABLE_ENTRIES with 61.
      rewrite EA, ED. change (0 - 0) with 0. rewrite wrapu_uint32 by lia. replace (i =? 0) with false by lia.
      replace (i - 1 <? 61) with false by lia. replace (i - 1 - 61 <? 0) with false by lia. reflexivity.
Qed.

(** The states of the table of a connection, with the list that the same
    operations make. *)
Inductive reach : hpack -> table -> Prop :=
  | reach_init : reach hpack_init table_init
  | reach_add ok h t hd h' : reach h t -> esize hd <= NGX_MAX_SIZE_T_VALUE ->
      ngx_http_v2_add_header ok h hd = Some (NGX_OK, h') -> reach h' (table_insert hd t)
  | reach_size h t n h' : reach h t -> 0 <= n ->
      ngx_http_v2_table_size h n = Some (NGX_OK, h') -> reach h' (table_resize n t).

Lemma reach_refines h t : reach h t -> refines h t.
Proof.
  intros H. induction H as [|ok h t hd h' _ IH Hsz E|h t n h' _ IH Hn E].
  - repeat split; discriminate.
  - destruct (add_refines h t hd IH Hsz) as (h2 & E2 & H2). destruct (add_memory ok h hd) as [Em|(s & x & _ & Ex)].
    + rewrite Em, E2 in E. injection E as <-. exact H2.
    + rewrite Ex in E. discriminate.
  - destruct (n >? NGX_HTTP_V2_TABLE_SIZE) eqn:En.
    + unfold ngx_http_v2_table_size in E. rewrite En in E. discriminate.
    + unfold NGX_HTTP_V2_TABLE_SIZE in En. destruct (resize_refines h t n IH ltac:(lia)) as (h2 & E2 & H2). rewrite E2 in E. injection E as <-. exact H2.
Qed.

End Refines.

(** C19: The dynamic table of HPACK behaves as the list of RFC 7541, newest
    field first: an insertion evicts the oldest fields as far as the limit
    needs it and empties the table when the field itself is too large, a
    change of the limit evicts as much as it must, and every index finds the
    field of the static table or of the list, its bytes read back from the
    ring of the storage; index 0, an index past the list and a limit above
    4096 are errors. No operation leaves the arrays or the storage, whatever
    the counters have wrapped around to; an operation fails only where an
    allocation has. *)
Theorem hpack_table_refines `{P : Platform} h t : reach h t ->
  (forall ok hd, esize hd <= NGX_MAX_SIZE_T_VALUE ->
     (exists h', ngx_http_v2_add_header ok h hd = Some (NGX_OK, h')) \/ exhausted ok (ngx_http_v2_add_header ok h hd)) /\
  (forall n, 0 <= n <= 4096 -> exists h', ngx_http_v2_table_size h n = Some (NGX_OK, h')) /\
  (forall n, 4096 < n -> ngx_http_v2_table_size h n = Some (NGX_ERROR, h)) /\
  (forall ok hd i only, 0 <= i ->
     ngx_http_v2_get_indexed_header ok h hd i only =
     Some (match table_lookup t i with
           | Some f => (NGX_OK, if only && (61 <? i) then mk_header (name f) (value hd) else f)
           | None => (NGX_ERROR, hd)
           end) \/ exhausted ok (ngx_http_v2_get_indexed_header ok h hd i only)) /\
  total (fields t) <= limit t <= 4096.
Proof.
  intros H%reach_refines. split; [|split; [|split; [|split; [|exact (refines_bounds h t H)]]]].
  - intros ok hd Hsz. destruct (add_refines h t hd H Hsz) as (h' & E & _).
    destruct (add_memory ok h hd) as [->|Hx]; [left; eauto|right; exact Hx].
  - intros n Hn. destruct (resize_refines h t n H Hn) as (h' & E & _). eauto.
  - intros n Hn. unfold ngx_http_v2_table_size. replace (n >? NGX_HTTP_V2_TABLE_SIZE) with true; [reflexivity|].
    unfold NGX_HTTP_V2_TABLE_SIZE. lia.
  - intros ok hd i only Hi. rewrite <-(lookup_refines h t hd i only H Hi). apply get_memory.
Qed.

Definition sample_field : header := static_field "x-a" "1".

Lemma hpack_table_refines_witness : exists h,
  @ngx_http_v2_add_header lp64 memory hpack_init sample_field = Some (NGX_OK, h) /\
  @ngx_http_v2_get_indexed_header lp64 memory h (mk_header [] []) 62 false = Some (NGX_OK, sample_field).
Proof.
  eexists. split; [vm_compute; reflexivity|].
  match goal with |- ngx_http_v2_get_indexed_header _ ?h _ _ _ = _ =>
    destruct (@hpack_table_refines lp64 h (table_insert sample_field table_init)) as (_ & _ & _ & H & _) end.
  - eapply (@reach_add lp64 memory); [apply reach_init|vm_compute; discriminate|vm_compute; reflexivity].
  - destruct (H memory (mk_header [] []) 62 false ltac:(lia)) as [E|(s & x & Hs & _)]; [|discriminate Hs].
    rewrite E. reflexivity.
Defined.

(** A limit that is set before the table is first used is forgotten: RFC 7541
    would keep nothing of a field after a limit of 0. *)
Example early_limit_forgotten :
  (sh ← @ngx_http_v2_table_size lp64 hpack_init 0;
   ah ← @ngx_http_v2_add_header lp64 memory (snd sh) sample_field;
   @ngx_http_v2_get_indexed_header lp64 memory (snd ah) (mk_header [] []) 62 false) = Some (NGX_OK, sample_field).
Proof. vm_compute. reflexivity. Qed.

End V2Table.
