(* ===== verification/HttpHpack.v ===== *)
(** * Header blocks of HTTP/2

    The decoder of header blocks of [src/http/v2/ngx_http_v2.c], from
    ngx_http_v2_state_header_block() to ngx_http_v2_state_header_complete()
    with the integers, the strings, the CONTINUATION frames and the bytes that
    are kept when the input ends, and the encoder of integers and strings of
    [src/http/v2/ngx_http_v2_encode.c]. The handlers call each other at their
    end, so that each is a step which names the next one; a driver runs them
    as ngx_http_v2_read_handler() does. What the request makes of a field is
    a parameter. *)
From Stdlib Require Import String ZArith Lia ZifyBool.
From stdpp Require Import base option tactics list.
From S2P Require Import Prelude HttpHuffTables HttpHuffman HttpV2Table.
Import Huffman V2Table.

Local Open Scope Z_scope.

Module Hpack.

Definition NGX_HTTP_V2_PROTOCOL_ERROR : Z := 0x1.
Definition NGX_HTTP_V2_INTERNAL_ERROR : Z := 0x2.
Definition NGX_HTTP_V2_SIZE_ERROR : Z := 0x6.
Definition NGX_HTTP_V2_COMP_ERROR : Z := 0x9.
Definition NGX_HTTP_V2_ENHANCE_YOUR_CALM : Z := 0xb.

Definition NGX_HTTP_V2_STATE_BUFFER_SIZE : Z := 16.
Definition NGX_HTTP_V2_INT_OCTETS : Z := 4.
Definition NGX_HTTP_V2_FRAME_HEADER_SIZE : Z := 9.
Definition NGX_HTTP_V2_CONTINUATION_FRAME : Z := 0x9.
Definition NGX_HTTP_V2_END_HEADERS_FLAG : Z := 0x04.

(** ** Integers *)

Definition ngx_http_v2_prefix (n : Z) : Z := Z.shiftl 1 n - 1.

(** The octets after the first one: the value and their number; at most
    three are read, so that the value cannot overflow. *)
Fixpoint int_loop (l : list Z) (value shift n : Z) : option (Z * Z) :=
  match l with
  | [] => None
  | octet :: l =>
      let value := value + Z.shiftl (Z.land octet 0x7f) shift in
      if octet <? 128 then Some (value, n + 1) else int_loop l value (shift + 7) (n + 1)
  end.

(** What [ngx_http_v2_parse_int] returns: a value with the input and the
    length that are left, or a code. *)
Inductive int_result :=
  | Int (value : Z) (rest : list Z) (len : Z)
  | Int_code (rc : Z).

Definition ngx_http_v2_parse_int (len : Z) (buf : list Z) (prefix : Z) : int_result :=
  match buf with
  | [] => Int_code NGX_AGAIN
  | b :: p =>
      let value := Z.land b prefix in
      if negb (value =? prefix) then
        if len =? 0 then Int_code NGX_ERROR else Int value p (len - 1)
      else
        let p := take (Z.to_nat (NGX_HTTP_V2_INT_OCTETS - 1)) p in
        match int_loop p value 0 1 with
        | Some (value, n) =>
            if n >? len then Int_code NGX_ERROR else Int value (drop (Z.to_nat n) buf) (len - n)
        | None =>
            if zlen p + 1 >=? len then Int_code NGX_ERROR
            else if zlen p + 1 =? NGX_HTTP_V2_INT_OCTETS then Int_code NGX_DECLINED
            else Int_code NGX_AGAIN
        end
  end.

(** [ngx_http_v2_write_int]: [first] is the octet that [pos] points to; the
    fuel is the number of octets of a machine word. *)
Fixpoint write_loop (f : nat) (value : Z) : list Z :=
  match f with
  | O => []
  | S f => if value >=? 128 then value mod 128 + 128 :: write_loop f (value / 128) else [value]
  end.

Definition ngx_http_v2_write_int (first prefix value : Z) : list Z :=
  if value <? prefix then [Z.lor first value]
  else Z.lor first prefix :: write_loop 10 (value - prefix).

(** ** Strings *)

Definition NGX_HTTP_V2_ENCODE_RAW : Z := 0.
Definition NGX_HTTP_V2_ENCODE_HUFF : Z := 0x80.

Definition ngx_strlow (l : list Z) : list Z := map ngx_tolower l.

Definition ngx_http_v2_string_encode `{P : Platform} (src : list Z) (lower : bool) : list Z :=
  let raw :=
    ngx_http_v2_write_int NGX_HTTP_V2_ENCODE_RAW (ngx_http_v2_prefix 7) (zlen src)
      ++ (if lower then ngx_strlow src else src) in
  match ngx_http_huff_encode src lower with
  | Some dst =>
      if 0 <? zlen dst then ngx_http_v2_write_int NGX_HTTP_V2_ENCODE_HUFF (ngx_http_v2_prefix 7) (zlen dst) ++ dst
      else raw
  | None => raw
  end.

(** ** The state of the decoder *)

(** The handlers. *)
Inductive handler :=
  | header_block | field_len | field_huff | field_raw | field_skip | process_header | header_complete.

(** [ngx_http_v2_state_t] and the table; [field] holds the bytes between
    [field_start] and [field_end], [room] is the size of their buffer;
    [stream] says that the stream is not [NULL], [fields] are the fields it
    was given. *)
Record state_t := mk_state {
  len : Z; padding : Z; flags : Z; sid : Z;
  parse_name : bool; parse_value : bool; index : bool;
  hdr : header; header_limit : Z;
  field_state : Z; field : list Z; room : Z; field_rest : Z;
  stream : bool; table : hpack; fields : list header
}.

Definition set_len (x : Z) (s : state_t) : state_t :=
  mk_state x (padding s) (flags s) (sid s) (parse_name s) (parse_value s) (index s) (hdr s) (header_limit s)
    (field_state s) (field s) (room s) (field_rest s) (stream s) (table s) (fields s).
Definition set_frame (x pad fl : Z) (s : state_t) : state_t :=
  mk_state x pad fl (sid s) (parse_name s) (parse_value s) (index s) (hdr s) (header_limit s)
    (field_state s) (field s) (room s) (field_rest s) (stream s) (table s) (fields s).
Definition set_parse (n v : bool) (s : state_t) : state_t :=
  mk_state (len s) (padding s) (flags s) (sid s) n v (index s) (hdr s) (header_limit s)
    (field_state s) (field s) (room s) (field_rest s) (stream s) (table s) (fields s).
Definition set_index (x : bool) (s : state_t) : state_t :=
  mk_state (len s) (padding s) (flags s) (sid s) (parse_name s) (parse_value s) x (hdr s) (header_limit s)
    (field_state s) (field s) (room s) (field_rest s) (stream s) (table s) (fields s).
Definition set_hdr (h : header) (s : state_t) : state_t :=
  mk_state (len s) (padding s) (flags s) (sid s) (parse_name s) (parse_value s) (index s) h (header_limit s)
    (field_state s) (field s) (room s) (field_rest s) (stream s) (table s) (fields s).
Definition set_limit (x : Z) (s : state_t) : state_t :=
  mk_state (len s) (padding s) (flags s) (sid s) (parse_name s) (parse_value s) (index s) (hdr s) x
    (field_state s) (field s) (room s) (field_rest s) (stream s) (table s) (fields s).
Definition set_field (st : Z) (f : list Z) (s : state_t) : state_t :=
  mk_state (len s) (padding s) (flags s) (sid s) (parse_name s) (parse_value s) (index s) (hdr s) (header_limit s)
    st f (room s) (field_rest s) (stream s) (table s) (fields s).
Definition set_room (r rest : Z) (s : state_t) : state_t :=
  mk_state (len s) (padding s) (flags s) (sid s) (parse_name s) (parse_value s) (index s) (hdr s) (header_limit s)
    (field_state s) (field s) r rest (stream s) (table s) (fields s).
Definition set_table (t : hpack) (s : state_t) : state_t :=
  mk_state (len s) (padding s) (flags s) (sid s) (parse_name s) (parse_value s) (index s) (hdr s) (header_limit s)
    (field_state s) (field s) (room s) (field_rest s) (stream s) t (fields s).
Definition set_stream (x : bool) (l : list header) (s : state_t) : state_t :=
  mk_state (len s) (padding s) (flags s) (sid s) (parse_name s) (parse_value s) (index s) (hdr s) (header_limit s)
    (field_state s) (field s) (room s) (field_rest s) x (table s) l.

(** What the request makes of a field: it keeps it, it ends, so that the
    stream is [NULL] from then on, or the connection has to be closed. *)
Inductive verdict := Keep | End_stream | Fail_connection (err : Z).

(** How a handler ends: by calling another one, by returning the position
    with [state.handler] set, by saving the input that is left for a handler,
    by closing the connection, or at the end of the block; [Undefined] stands
    for an access outside of the table. *)
Inductive next :=
  | Call (h : handler) (s : state_t) (buf : list Z)
  | Return (h : handler) (s : state_t) (buf : list Z)
  | Save (h : handler) (s : state_t) (buf : list Z)
  | Close (err : Z)
  | Finish (s : state_t) (buf : list Z)
  | Undefined.

Definition ngx_http_v2_state_save (s : state_t) (buf : list Z) (h : handler) : next :=
  if zlen buf >? NGX_HTTP_V2_STATE_BUFFER_SIZE then Close NGX_HTTP_V2_INTERNAL_ERROR else Save h s buf.

Definition end_headers (s : state_t) : bool := negb (Z.land (flags s) NGX_HTTP_V2_END_HEADERS_FLAG =? 0).

Definition byte (l : list Z) (i : nat) : Z := nth i l 0.

Definition ngx_http_v2_parse_uint32 (l : list Z) : Z :=
  Z.lor (Z.lor (Z.shiftl (byte l 0) 24) (Z.shiftl (byte l 1) 16)) (Z.lor (Z.shiftl (byte l 2) 8) (byte l 3)).

(** The padding that is skipped. *)
Definition skipped (pad len size : Z) : Z := if negb (pad =? 0) && (size >? len) then Z.min pad (size - len) else 0.

(** [ngx_http_v2_handle_continuation]: the bytes of the block that are left
    are moved over the padding and the header of the next frame. *)
Definition ngx_http_v2_handle_continuation (s : state_t) (buf : list Z) (h : handler) : next :=
  let n := Z.to_nat (len s) in
  let skip := skipped (padding s) (len s) (zlen buf) in
  let s := set_frame (len s) (padding s - skip) (flags s) s in
  let buf := take n buf ++ drop (n + Z.to_nat skip) buf in
  if zlen buf <? len s + NGX_HTTP_V2_FRAME_HEADER_SIZE then ngx_http_v2_state_save s buf h
  else
    let p := drop n buf in
    let head := ngx_http_v2_parse_uint32 p in
    if negb (Z.land head 0xff =? NGX_HTTP_V2_CONTINUATION_FRAME) then Close NGX_HTTP_V2_PROTOCOL_ERROR
    else if negb (sid s =? Z.land (ngx_http_v2_parse_uint32 (drop 5 p)) 0x7fffffff) then Close NGX_HTTP_V2_PROTOCOL_ERROR
    else
      Return h (set_frame (len s + Z.shiftr head 8) (padding s) (Z.lor (flags s) (byte p 4)) s)
        (take n buf ++ drop 9 p).

Section Handlers.
Context `{P : Platform}.
Variable ok : site -> bool.
Variable max_field : Z.                      (* large_client_header_buffers.size *)
Variable request : list header -> verdict.   (* of the fields so far *)

Definition ngx_http_v2_state_header_block (s : state_t) (buf : list Z) : next :=
  match buf with
  | [] => ngx_http_v2_state_save s buf header_block
  | ch :: _ =>
      if negb (end_headers s) && (len s <? NGX_HTTP_V2_INT_OCTETS)
      then ngx_http_v2_handle_continuation s buf header_block
      else
        let indexed := ch >=? 128 in
        let size_update := negb indexed && (ch <? 64) && (ch >=? 32) in
        let s := if negb indexed && (ch >=? 64) then set_index true s else s in
        let prefix := ngx_http_v2_prefix
          (if ch >=? 128 then 7 else if ch >=? 64 then 6 else if ch >=? 32 then 5 else 4) in
        match ngx_http_v2_parse_int (len s) buf prefix with
        | Int_code rc =>
            if rc =? NGX_AGAIN then ngx_http_v2_state_save s buf header_block
            else if rc =? NGX_DECLINED then Close NGX_HTTP_V2_COMP_ERROR
            else Close NGX_HTTP_V2_SIZE_ERROR
        | Int value buf n =>
            let s := set_len n s in
            if indexed then
              match ngx_http_v2_get_indexed_header ok (table s) (hdr s) value false with
              | Some (rc, h) =>
                  if negb (rc =? NGX_OK) then Close NGX_HTTP_V2_COMP_ERROR else Call process_header (set_hdr h s) buf
              | None => Undefined
              end
            else if size_update then
              match ngx_http_v2_table_size (table s) value with
              | Some (rc, t) =>
                  if negb (rc =? NGX_OK) then Close NGX_HTTP_V2_COMP_ERROR else Call header_complete (set_table t s) buf
              | None => Undefined
              end
            else if value =? 0 then Call field_len (set_parse true true s) buf
            else
              match ngx_http_v2_get_indexed_header ok (table s) (hdr s) value true with
              | Some (rc, h) =>
                  if negb (rc =? NGX_OK) then Close NGX_HTTP_V2_COMP_ERROR
                  else Call field_len (set_parse (parse_name s) true (set_hdr h s)) buf
              | None => Undefined
              end
        end
  end.

Definition ngx_http_v2_state_field_len (s : state_t) (buf : list Z) : next :=
  if negb (end_headers s) && (len s <? NGX_HTTP_V2_INT_OCTETS)
  then ngx_http_v2_handle_continuation s buf field_len
  else if len s <? 1 then Close NGX_HTTP_V2_SIZE_ERROR
  else
    match buf with
    | [] => ngx_http_v2_state_save s buf field_len
    | b :: _ =>
        let huff := negb (Z.shiftr b 7 =? 0) in
        match ngx_http_v2_parse_int (len s) buf (ngx_http_v2_prefix 7) with
        | Int_code rc =>
            if rc =? NGX_AGAIN then ngx_http_v2_state_save s buf field_len
            else if rc =? NGX_DECLINED then Close NGX_HTTP_V2_COMP_ERROR
            else Close NGX_HTTP_V2_SIZE_ERROR
        | Int n buf l =>
            let s := set_len l s in
            if n >? max_field then Close NGX_HTTP_V2_ENHANCE_YOUR_CALM
            else if negb (stream s) && negb (index s) then Call field_skip (set_room (room s) n s) buf
            else
              let alloc := (if huff then n * 8 / 5 else n) + 1 in
              if negb (ok Alloc_field) then Close NGX_HTTP_V2_INTERNAL_ERROR
              else Call (if huff then field_huff else field_raw) (set_field (field_state s) [] (set_room alloc n s)) buf
        end
    end.

(** The bytes of the field in the input. *)
Definition field_size (s : state_t) (buf : list Z) : Z := Z.min (Z.min (zlen buf) (field_rest s)) (len s).

Definition consume (n : Z) (s : state_t) : state_t := set_room (room s) (field_rest s - n) (set_len (len s - n) s).

(** What the three handlers of strings do after the bytes. *)
Definition after_field (h : handler) (s : state_t) (buf : list Z) : next :=
  if field_rest s =? 0 then Call process_header s buf
  else if negb (len s =? 0) then ngx_http_v2_state_save s buf h
  else if end_headers s then Close NGX_HTTP_V2_SIZE_ERROR
  else ngx_http_v2_handle_continuation s buf h.

Definition ngx_http_v2_state_field_huff (s : state_t) (buf : list Z) : next :=
  let n := field_size s buf in
  let s := consume n s in
  let '(rc, st, o) := ngx_http_huff_decode (field_state s) (take (Z.to_nat n) buf) (field_rest s =? 0) in
  if negb (rc =? NGX_OK) then Close NGX_HTTP_V2_COMP_ERROR
  else after_field field_huff (set_field st (field s ++ o) s) (drop (Z.to_nat n) buf).

Definition ngx_http_v2_state_field_raw (s : state_t) (buf : list Z) : next :=
  let n := field_size s buf in
  let s := consume n s in
  after_field field_raw (set_field (field_state s) (field s ++ take (Z.to_nat n) buf) s) (drop (Z.to_nat n) buf).

Definition ngx_http_v2_state_field_skip (s : state_t) (buf : list Z) : next :=
  let n := field_size s buf in
  after_field field_skip (consume n s) (drop (Z.to_nat n) buf).

(** The field is counted, added to the table and given to the request. *)
Definition deliver (s : state_t) (buf : list Z) : next :=
  let n := zlen (name (hdr s)) + zlen (value (hdr s)) in
  if n >? header_limit s then Close NGX_HTTP_V2_ENHANCE_YOUR_CALM
  else
    let s := set_limit (header_limit s - n) s in
    match (if index s then
             match ngx_http_v2_add_header ok (table s) (hdr s) with
             | Some (rc, t) =>
                 Some (if negb (rc =? NGX_OK) then None else Some (set_index false (set_table t s)))
             | None => None
             end
           else Some (Some s)) with
    | None => Undefined
    | Some None => Close NGX_HTTP_V2_INTERNAL_ERROR
    | Some (Some s) =>
        if negb (stream s) then Call header_complete s buf
        else
          let l := fields s ++ [hdr s] in
          match request l with
          | Keep => Call header_complete (set_stream true l s) buf
          | End_stream => Call header_complete (set_stream false l s) buf
          | Fail_connection err => Close err
          end
    end.

Definition ngx_http_v2_state_process_header (s : state_t) (buf : list Z) : next :=
  if parse_name s then
    let s := set_hdr (mk_header (field s) (value (hdr s))) (set_parse false (parse_value s) s) in
    if zlen (name (hdr s)) =? 0 then Close NGX_HTTP_V2_PROTOCOL_ERROR else Call field_len s buf
  else
    let s := if parse_value s then set_hdr (mk_header (name (hdr s)) (field s)) (set_parse false false s) else s in
    deliver s buf.

Definition ngx_http_v2_state_header_complete (s : state_t) (buf : list Z) : next :=
  if negb (len s =? 0) then
    match buf with
    | [] => ngx_http_v2_state_save s buf header_block
    | _ => Return header_block s buf
    end
  else if negb (end_headers s) then ngx_http_v2_handle_continuation s buf header_complete
  else Finish s buf.

Definition step (h : handler) (s : state_t) (buf : list Z) : next :=
  match h with
  | header_block => ngx_http_v2_state_header_block s buf
  | field_len => ngx_http_v2_state_field_len s buf
  | field_huff => ngx_http_v2_state_field_huff s buf
  | field_raw => ngx_http_v2_state_field_raw s buf
  | field_skip => ngx_http_v2_state_field_skip s buf
  | process_header => ngx_http_v2_state_process_header s buf
  | header_complete => ngx_http_v2_state_header_complete s buf
  end.

(** ** The driver

    [ngx_http_v2_read_handler] with what was saved: a connection waits with a
    handler and the bytes kept for it, is closed, or has read the block. *)
Inductive conn :=
  | Wait (h : handler) (s : state_t) (kept : list Z)
  | Closed (err : Z)
  | Done (s : state_t) (rest : list Z).

Fixpoint run (f : nat) (h : handler) (s : state_t) (buf : list Z) : option conn :=
  match f with
  | O => None
  | S f =>
      match step h s buf with
      | Call h s buf => run f h s buf
      | Return h s buf => match buf with [] => Some (Wait h s []) | _ => run f h s buf end
      | Save h s buf => Some (Wait h s buf)
      | Close err => Some (Closed err)
      | Finish s buf => Some (Done s buf)
      | Undefined => None
      end
  end.

(** Between two bytes of the input at most four handlers are called. *)
Definition steps (buf : list Z) : nat := 5 * length buf + 4.

Definition recv (c : conn) (chunk : list Z) : option conn :=
  match c with
  | Wait h s kept => run (steps (kept ++ chunk)) h s (kept ++ chunk)
  | Closed err => Some (Closed err)
  | Done s rest => Some (Done s (rest ++ chunk))
  end.

Fixpoint recv_all (c : conn) (chunks : list (list Z)) : option conn :=
  match chunks with
  | [] => Some c
  | l :: chunks => match recv c l with Some c => recv_all c chunks | None => None end
  end.

End Handlers.

(** A connection at the beginning of a HEADERS frame. *)
Definition headers_frame (n pad fl id limit : Z) (t : hpack) : state_t :=
  mk_state n pad fl id false false false (mk_header [] []) limit 0 [] 0 0 true t [].

Definition keep_all (_ : list header) : verdict := Keep.

(** A field for a stream that is gone, the first of its connection: the name
    is skipped, [field_start] and [field_end] are still [NULL], and the name
    of one byte is refused as an empty one. *)
Example skipped_name_refused :
  @recv lp64 memory 8192 keep_all
    (Wait header_block (set_stream false [] (headers_frame 5 0 4 1 32768 hpack_init)) []) [0x00; 0x01; 0x61; 0x01; 0x62] =
    Some (Closed NGX_HTTP_V2_PROTOCOL_ERROR).
Proof. reflexivity. Qed.

(** The first request of RFC 7541, C.4.1. *)
Example block_ex :
  let b := [0x82; 0x86; 0x84; 0x41; 0x8c; 0xf1; 0xe3; 0xc2; 0xe5; 0xf2; 0x3a; 0x6b; 0xa0; 0xab; 0x90; 0xf4; 0xff] in
  option_map (fun c => match c with Done s _ => fields s | _ => [] end)
    (@recv_all lp64 memory 8192 keep_all (Wait header_block (headers_frame 17 0 4 1 32768 hpack_init) []) [take 7 b; drop 7 b]) =
  Some [static_field ":method" "GET"; static_field ":scheme" "http"; static_field ":path" "/";
        static_field ":authority" "www.example.com"]%string.
Proof. vm_compute. reflexivity. Qed.

(** ** Every input is read *)

Lemma int_loop_some l : Forall (fun x => 0 <= x) l -> forall v sh n v' n', 0 <= v -> 0 <= sh -> int_loop l v sh n = Some (v', n') ->
  v <= v' /\ n < n' <= n + zlen l.
Proof.
  intros H. induction H as [|o l Ho H IH]; intros v sh n v' n' Hv Hsh E; [discriminate|]. cbn [int_loop] in E.
  assert (0 <= Z.shiftl (Z.land o 127) sh) by (apply Z.shiftl_nonneg, Z.land_nonneg; lia). unfold zlen in *. cbn [length].
  destruct (o <? 128); [injection E as <- <-; lia|]. apply IH in E; lia.
Qed.

Lemma parse_int_some n buf prefix v rest n' : bytes buf -> 0 <= n -> 0 <= prefix ->
  ngx_http_v2_parse_int n buf prefix = Int v rest n' ->
  0 <= v /\ 0 <= n' /\ (exists k, (0 < k <= length buf)%nat /\ rest = drop k buf).
Proof.
  intros Hb Hn Hp E. destruct Hb as [|b p [Hb1 Hb2] Hb]; [discriminate|]. cbn [ngx_http_v2_parse_int] in E.
  assert (0 <= Z.land b prefix) by (apply Z.land_nonneg; lia).
  destruct (negb _) eqn:E0.
  - destruct (n =? 0) eqn:E1; [discriminate|]. injection E as <- <- <-. split; [lia|]. split; [lia|]. exists 1%nat. cbn. split; [lia|reflexivity].
  - destruct (int_loop _ _ _ _) as [[v0 k]|] eqn:El; [|split_ifs_in E].
    destruct (k >? n) eqn:Ek; [discriminate|]. injection E as <- <- <-.
    apply int_loop_some in El as [? [? ?]]; [|apply Forall_take; eapply Forall_impl; [exact Hb|intros x [? ?]; lia]|lia|lia].
    unfold zlen in *. rewrite length_take in *. split; [lia|]. split; [lia|]. exists (Z.to_nat k). cbn [length]. split; [lia|reflexivity].
Qed.

Lemma skipped_eq pad n size : 0 <= pad -> skipped pad n size = Z.max 0 (Z.min pad (size - n)).
Proof. intros H. unfold skipped. destruct (_ && _) eqn:E; lia. Qed.

(** What holds between two handlers. *)
Record fit_state `{P : Platform} (s : state_t) (buf : list Z) : Prop := {
  fit_len : 0 <= len s; fit_padding : 0 <= padding s; fit_rest : 0 <= field_rest s;
  fit_limit : 0 <= header_limit s <= 0x7fff0000;
  fit_table : exists t, refines (table s) t;
  fit_bytes : bytes buf
}.

Definition rank (h : handler) : nat :=
  match h with
  | header_block => 0 | header_complete | field_len => 1 | process_header => 2
  | field_huff | field_raw | field_skip => 3
  end.

Definition measure (h : handler) (buf : list Z) : nat := 5 * length buf + rank h.

(** A handler that calls another one comes nearer to the end. *)
Definition progress `{P : Platform} (h : handler) (buf : list Z) (n : next) : Prop :=
  match n with
  | Call h' s' buf' | Return h' s' buf' => fit_state s' buf' /\ (measure h' buf' < measure h buf)%nat
  | Save h' s' buf' => fit_state s' buf' /\ (length buf' <= 16)%nat
  | Finish s' buf' => fit_state s' buf'
  | Close _ => True
  | Undefined => False
  end.

Lemma bytes_drop k l : bytes l -> bytes (drop k l).
Proof. apply Forall_drop. Qed.

Lemma bytes_take k l : bytes l -> bytes (take k l).
Proof. apply Forall_take. Qed.

Lemma byte_range l i : bytes l -> 0 <= byte l i < 256.
Proof.
  intros H. unfold byte. destruct (decide (i < length l)%nat) as [Hi|Hi]; [|rewrite nth_overflow by lia; lia].
  eapply (proj1 (List.Forall_forall _ _) H), nth_In, Hi.
Qed.

Lemma uint32_nonneg l : bytes l -> 0 <= ngx_http_v2_parse_uint32 l.
Proof.
  intros H. unfold ngx_http_v2_parse_uint32. pose proof (byte_range l 0 H). pose proof (byte_range l 1 H).
  pose proof (byte_range l 2 H). pose proof (byte_range l 3 H). rewrite !Z.lor_nonneg, !Z.shiftl_nonneg. lia.
Qed.

Section Total.
Context `{P : Platform}.
Variable ok : site -> bool.
Variable max_field : Z.
Variable request : list header -> verdict.

Lemma continuation_progress h s buf : fit_state s buf -> len s < 4 -> progress h buf (ngx_http_v2_handle_continuation s buf h).
Proof.
  intros [H1 H2 H3 H4 H5 H6] Hl. unfold ngx_http_v2_handle_continuation. 
  set (skip := skipped (padding s) (len s) (zlen buf)).
  assert (0 <= skip <= padding s /\ (skip = 0 \/ len s + skip <= zlen buf)) as [Hs1 Hs2] by (unfold skip, zlen in *; rewrite skipped_eq; lia).
  clearbody skip. set (buf' := take _ _ ++ _). assert (bytes buf') as Hb by (apply bytes_app; [apply bytes_take|apply bytes_drop]; exact H6).
  assert (length buf' <= length buf)%nat as Hle by (unfold buf', zlen in *; rewrite length_app, length_take, length_drop; lia).
  cbn [len set_frame sid]. destruct (zlen buf' <? _) eqn:E.
  - unfold ngx_http_v2_state_save. unfold zlen, NGX_HTTP_V2_FRAME_HEADER_SIZE, NGX_HTTP_V2_STATE_BUFFER_SIZE in *.
    destruct (_ >? 16) eqn:E2; [exact I|]. split; [constructor; cbn; auto; lia|lia].
  - destruct (negb _); [exact I|]. destruct (negb _); [exact I|]. unfold zlen, NGX_HTTP_V2_FRAME_HEADER_SIZE in *. split.
    + constructor; cbn [len padding field_rest header_limit table set_frame]; auto; try lia.
      * pose proof (uint32_nonneg _ (bytes_drop (Z.to_nat (len s)) _ Hb)) as Hu.
        rewrite <-(Z.shiftr_nonneg _ 8) in Hu. lia.
      * apply bytes_app; [apply bytes_take, Hb|apply bytes_drop, bytes_drop, Hb].
    + unfold measure. rewrite length_app, length_take, !length_drop. lia.
Qed.

Lemma save_progress h h' s buf buf' : fit_state s buf' -> (length buf' <= 16)%nat -> progress h buf (ngx_http_v2_state_save s buf' h').
Proof.
  intros H Hl. unfold ngx_http_v2_state_save, zlen, NGX_HTTP_V2_STATE_BUFFER_SIZE. destruct (_ >? 16) eqn:E; [lia|]. split; assumption.
Qed.

Lemma again_short n buf prefix : ngx_http_v2_parse_int n buf prefix = Int_code NGX_AGAIN -> (length buf <= 3)%nat.
Proof.
  destruct buf as [|b p]; [cbn; lia|]. cbn [ngx_http_v2_parse_int length]. destruct (negb _); [destruct (n =? 0); discriminate|].
  destruct (int_loop _ _ _ _) as [[v k]|]; [destruct (_ >? _); discriminate|]. destruct (_ >=? _); [discriminate|].
  unfold zlen, NGX_HTTP_V2_INT_OCTETS. rewrite length_take. destruct (_ =? 4) eqn:E; [discriminate|]. lia.
Qed.

Lemma get_total h t hd i only : refines h t -> 0 <= i -> ngx_http_v2_get_indexed_header ok h hd i only <> None.
Proof.
  intros H Hi. destruct (get_memory ok h hd i only) as [->|(x & y & _ & ->)]; [|discriminate].
  rewrite (lookup_refines h t hd i only H Hi). discriminate.
Qed.

(** The record without its input. *)
Lemma fit_step s s' buf buf' : fit_state s buf -> 0 <= len s' -> padding s' = padding s -> 0 <= field_rest s' ->
  0 <= header_limit s' <= header_limit s -> (exists t, refines (table s') t) -> (exists k, buf' = drop k buf) -> fit_state s' buf'.
Proof.
  intros [] Hl Hp Hr Hh Ht (k & ->). constructor; try assumption; try lia. apply bytes_drop. assumption.
Qed.

Lemma block_progress s buf : fit_state s buf -> progress header_block buf (step ok max_field request header_block s buf).
Proof.
  intros H. pose proof H as [H1 H2 H3 H4 (t & H5) H6]. cbn [step]. unfold ngx_http_v2_state_header_block.
  destruct buf as [|ch p] eqn:Eb; [apply save_progress; [exact H|cbn; lia]|]. rewrite <-Eb in *. clear Eb.
  destruct (negb (end_headers s) && _) eqn:Ec; [apply continuation_progress; [exact H|unfold NGX_HTTP_V2_INT_OCTETS in Ec; lia]|]. clear Ec.
  set (s1 := if (_ : bool) then set_index true s else s).
  assert (len s1 = len s /\ padding s1 = padding s /\ field_rest s1 = field_rest s /\ header_limit s1 = header_limit s /\ table s1 = table s) as (E1 & E2 & E3 & E4 & E5)
    by (unfold s1; destruct (negb (ch >=? 128) && (ch >=? 64)); repeat split). clearbody s1.
  assert (fit_state s1 buf) as Hs1 by (constructor; rewrite ?E1, ?E2, ?E3, ?E4, ?E5; eauto).
  set (prefix := ngx_http_v2_prefix _). assert (0 <= prefix) as Hp by (unfold prefix; repeat destruct (ch >=? _); discriminate). clearbody prefix.
  destruct (ngx_http_v2_parse_int (len s1) buf prefix) as [v rest n|rc] eqn:Ep.
  - destruct (parse_int_some _ _ _ _ _ _ H6 (fit_len _ _ Hs1) Hp Ep) as (Hv & Hn & k & Hk & ->).
    assert (forall s' h, 0 <= len s' -> padding s' = padding s1 -> 0 <= field_rest s' -> 0 <= header_limit s' <= header_limit s1 ->
      (exists t, refines (table s') t) -> (rank h < 5)%nat -> progress header_block buf (Call h s' (drop k buf))) as Hc.
    { intros s' h ? ? ? ? ? Hh. split; [eapply fit_step; eauto|]. unfold measure. rewrite length_drop. cbn [rank]. lia. }
    cbn [table hdr set_len]. rewrite E5. destruct (ch >=? 128).
    + destruct (ngx_http_v2_get_indexed_header ok (table s) (hdr s1) v false) as [[rc h]|] eqn:Eg; [|destruct (get_total _ _ _ _ _ H5 Hv Eg)].
      destruct (negb _); [exact I|]. apply Hc; cbn; try lia; rewrite ?E5; eauto.
    + destruct (negb false && _ && _).
      * destruct (v <=? 4096) eqn:Ev.
        -- destruct (resize_refines (table s) t v H5 ltac:(lia)) as (h' & -> & Hr). cbn. split; [|unfold measure; cbn; rewrite length_drop; lia].
           eapply fit_step; eauto; cbn; try lia.
        -- unfold ngx_http_v2_table_size. replace (v >? NGX_HTTP_V2_TABLE_SIZE) with true by (unfold NGX_HTTP_V2_TABLE_SIZE; lia). exact I.
      * destruct (v =? 0); [apply Hc; cbn; try lia; rewrite ?E5; eauto|].
        destruct (ngx_http_v2_get_indexed_header ok (table s) (hdr s1) v true) as [[rc h]|] eqn:Eg; [|destruct (get_total _ _ _ _ _ H5 Hv Eg)].
        destruct (negb _); [exact I|]. apply Hc; cbn; try lia; rewrite ?E5; eauto.
  - destruct (rc =? NGX_AGAIN) eqn:Er; [|destruct (rc =? NGX_DECLINED); exact I].
    apply Z.eqb_eq in Er. subst rc. apply again_short in Ep. apply save_progress; [exact Hs1|lia].
Qed.

Lemma prefix7 : 0 <= ngx_http_v2_prefix 7.
Proof. discriminate. Qed.

Lemma field_len_progress s buf : fit_state s buf -> progress field_len buf (step ok max_field request field_len s buf).
Proof.
  intros H. pose proof H as [H1 H2 H3 H4 H5 H6]. cbn [step]. unfold ngx_http_v2_state_field_len.
  destruct (negb (end_headers s) && _) eqn:Ec; [apply continuation_progress; [exact H|unfold NGX_HTTP_V2_INT_OCTETS in Ec; lia]|]. clear Ec.
  destruct (len s <? 1); [exact I|]. destruct buf as [|b p] eqn:Eb; [apply save_progress; [exact H|cbn; lia]|]. rewrite <-Eb in *. clear Eb.
  destruct (ngx_http_v2_parse_int (len s) buf _) as [n rest l|rc] eqn:Ep.
  - destruct (parse_int_some _ _ _ _ _ _ H6 H1 prefix7 Ep) as (Hv & Hn & k & Hk & ->).
    destruct (n >? max_field); [exact I|]. cbn [stream index set_len]. destruct (negb _ && negb _).
    + split; [eapply fit_step; eauto; cbn; lia|]. unfold measure. rewrite length_drop. cbn. lia.
    + destruct (negb (ok _)); [exact I|]. split; [eapply fit_step; eauto; cbn; lia|]. unfold measure. rewrite length_drop. destruct (negb _); cbn [rank]; lia.
  - destruct (rc =? NGX_AGAIN) eqn:Er; [|destruct (rc =? NGX_DECLINED); exact I].
    apply Z.eqb_eq in Er. subst rc. apply again_short in Ep. apply save_progress; [exact H|lia].
Qed.

Lemma field_size_bounds s buf : fit_state s buf -> 0 <= field_size s buf /\ field_size s buf <= zlen buf /\
  field_size s buf <= field_rest s /\ field_size s buf <= len s.
Proof. intros [H1 H2 H3 H4 H5 H6]. unfold field_size, zlen. lia. Qed.

Lemma after_field_progress h s buf k : rank h = 3%nat -> fit_state s (drop k buf) ->
  (field_rest s = 0 \/ len s = 0 \/ drop k buf = []) -> progress h buf (after_field h s (drop k buf)).
Proof.
  intros Hh H Hc. unfold after_field. destruct (field_rest s =? 0) eqn:E0.
  - split; [exact H|]. unfold measure. rewrite length_drop, Hh. cbn. lia.
  - destruct (negb (len s =? 0)) eqn:E1.
    + apply save_progress; [exact H|]. destruct Hc as [Hc|[Hc|Hc]]; [lia|lia|rewrite Hc; cbn; lia].
    + destruct (end_headers s); [exact I|]. pose proof (continuation_progress h s (drop k buf) H ltac:(lia)) as Hp.
      assert (measure h (drop k buf) <= measure h buf)%nat by (unfold measure; rewrite length_drop; lia).
      destruct (ngx_http_v2_handle_continuation _ _ _); cbn in *; destruct_and?; auto with lia; (split; [assumption|lia]).
Qed.

Lemma consume_fit s buf o st : fit_state s buf -> let n := field_size s buf in
  fit_state (set_field st o (consume n s)) (drop (Z.to_nat n) buf) /\
  (field_rest (consume n s) = 0 \/ len (consume n s) = 0 \/ drop (Z.to_nat n) buf = []).
Proof.
  intros H n. pose proof (field_size_bounds s buf H) as Hb. fold n in Hb. pose proof H as [H1 H2 H3 H4 H5 H6]. split.
  - eapply fit_step; eauto; cbn; lia.
  - cbn. unfold n, field_size, zlen in *. destruct (decide (Z.of_nat (length buf) <= Z.min (field_rest s) (len s))); [|lia].
    right. right. apply nil_length_inv. rewrite length_drop. lia.
Qed.

Lemma field_progress h s buf : rank h = 3%nat -> fit_state s buf -> progress h buf (step ok max_field request h s buf).
Proof.
  intros Hh H. destruct h; try discriminate Hh; cbn [step].
  - unfold ngx_http_v2_state_field_huff. destruct (ngx_http_huff_decode _ _ _) as [[rc st] o]. destruct (negb _); [exact I|].
    destruct (consume_fit s buf (field (consume (field_size s buf) s) ++ o) st H) as [H1 H2]. apply after_field_progress; [reflexivity|exact H1|exact H2].
  - unfold ngx_http_v2_state_field_raw. destruct (consume_fit s buf (field (consume (field_size s buf) s) ++ take (Z.to_nat (field_size s buf)) buf)
      (field_state (consume (field_size s buf) s)) H) as [H1 H2]. apply after_field_progress; [reflexivity|exact H1|exact H2].
  - unfold ngx_http_v2_state_field_skip. destruct (consume_fit s buf (field s) (field_state s) H) as [H1 H2].
    apply after_field_progress; [reflexivity| |exact H2]. destruct H1. constructor; assumption.
Qed.

Lemma process_progress s buf : fit_state s buf -> progress process_header buf (step ok max_field request process_header s buf).
Proof.
  intros H. pose proof H as [H1 H2 H3 H4 (t & H5) H6]. cbn [step]. unfold ngx_http_v2_state_process_header.
  destruct (parse_name s).
  { destruct (_ =? 0); [exact I|]. split; [|cbn; lia]. constructor; cbn; eauto. }
  set (s1 := if parse_value s then _ else s).
  assert (len s1 = len s /\ padding s1 = padding s /\ field_rest s1 = field_rest s /\ header_limit s1 = header_limit s /\ table s1 = table s) as (E1 & E2 & E3 & E4 & E5)
    by (unfold s1; destruct (parse_value s); repeat split). clearbody s1.
  unfold deliver. destruct (_ >? header_limit s1) eqn:El; [exact I|]. set (n := zlen (name (hdr s1)) + zlen (value (hdr s1))) in *.
  assert (0 <= n) by (unfold n, zlen; lia). set (s2 := set_limit _ s1).
  assert (fit_state s2 buf) as Hs2 by (constructor; unfold s2; cbn [len padding field_rest header_limit table set_limit]; rewrite ?E1, ?E2, ?E3, ?E5; eauto; lia).
  assert (forall s3, fit_state s3 buf -> progress process_header buf
    (if negb (stream s3) then Call header_complete s3 buf
     else match request (fields s3 ++ [hdr s3]) with
          | Keep => Call header_complete (set_stream true (fields s3 ++ [hdr s3]) s3) buf
          | End_stream => Call header_complete (set_stream false (fields s3 ++ [hdr s3]) s3) buf
          | Fail_connection err => Close err
          end)) as Hend.
  { intros s3 Hs3. assert (measure header_complete buf < measure process_header buf)%nat by (cbn; lia).
    assert (forall x l, fit_state (set_stream x l s3) buf) as Hx by (intros x l; destruct Hs3; constructor; assumption).
    destruct (negb _); [split; assumption|]. destruct (request _); [split; auto|split; auto|exact I]. }
  destruct (index s2); [|apply Hend, Hs2].
  assert (esize (hdr s2) <= NGX_MAX_SIZE_T_VALUE) as Hsz.
  { unfold NGX_MAX_SIZE_T_VALUE. pose proof (max_value_pos size_t_size). unfold esize. change (hdr s2) with (hdr s1). unfold n, zlen in *. lia. }
  assert (table s2 = table s) as Et by exact E5. rewrite <-Et in H5.
  destruct (add_refines (table s2) t (hdr s2) H5 Hsz) as (t' & Ea & Hr).
  destruct (add_memory ok (table s2) (hdr s2)) as [->|(x & y & _ & ->)]; [|exact I].
  rewrite Ea. cbn [Z.eqb negb NGX_OK]. apply Hend. destruct Hs2. constructor; cbn; eauto.
Qed.

Lemma complete_progress s buf : fit_state s buf -> progress header_complete buf (step ok max_field request header_complete s buf).
Proof.
  intros H. cbn [step]. unfold ngx_http_v2_state_header_complete. destruct (len s =? 0) eqn:E; cbn [negb].
  - destruct (end_headers s); cbn [negb]; [exact H|]. apply continuation_progress; [exact H|lia].
  - destruct buf; [apply save_progress; [exact H|cbn; lia]|]. split; [exact H|unfold measure; cbn; lia].
Qed.

Lemma step_progress h s buf : fit_state s buf -> progress h buf (step ok max_field request h s buf).
Proof.
  destruct h; [apply block_progress|apply field_len_progress|apply field_progress; reflexivity|apply field_progress; reflexivity|
    apply field_progress; reflexivity|apply process_progress|apply complete_progress].
Qed.

(** The connection after a call is fit again. *)
Definition fit_conn (c : conn) : Prop :=
  match c with Wait _ s kept => fit_state s kept /\ (length kept <= 16)%nat | Closed _ => True | Done s rest => fit_state s rest end.

Lemma run_total f : forall h s buf, fit_state s buf -> (measure h buf < f)%nat ->
  exists c, run ok max_field request f h s buf = Some c /\ fit_conn c.
Proof.
  induction f as [|f IH]; intros h s buf H Hf; [lia|]. cbn [run]. pose proof (step_progress h s buf H) as Hp.
  destruct (step _ _ _ _ _ _) as [h' s' b'|h' s' b'|h' s' b'|e|s' b'|]; cbn [progress] in Hp.
  - apply IH; [apply Hp|lia].
  - destruct b' as [|x b']; [exists (Wait h' s' []); split; [reflexivity|split; [apply Hp|cbn; lia]]|]. apply IH; [apply Hp|lia].
  - eexists. split; [reflexivity|exact Hp].
  - eexists. split; [reflexivity|exact I].
  - eexists. split; [reflexivity|exact Hp].
  - destruct Hp.
Qed.

Lemma run_more f : forall h s buf c, run ok max_field request f h s buf = Some c ->
  forall f', (f <= f')%nat -> run ok max_field request f' h s buf = Some c.
Proof.
  induction f as [|f IH]; intros h s buf c E f' Hf; [discriminate|]. destruct f' as [|f']; [lia|]. cbn [run] in *.
  destruct (step _ _ _ _ _ _) as [h' s' b'|h' s' b'|h' s' b'|e|s' b'|]; try exact E; [apply (IH _ _ _ _ E); lia|].
  destruct b' as [|x b']; [exact E|]. apply (IH _ _ _ _ E); lia.
Qed.

(** ** Reading in pieces *)

Lemma int_loop_app l l' : forall v sh n,
  match int_loop l v sh n with
  | Some r => int_loop (l ++ l') v sh n = Some r
  | None => forall v' k, int_loop (l ++ l') v sh n = Some (v', k) -> n + zlen l < k
  end.
Proof.
  assert (forall l v sh n v' k, int_loop l v sh n = Some (v', k) -> n < k) as Hk.
  { clear. induction l as [|o l IH]; intros v sh n v' k E; [discriminate|]. cbn [int_loop] in E.
    destruct (o <? 128); [injection E as _ <-; lia|]. apply IH in E. lia. }
  induction l as [|o l IH]; intros v sh n; cbn [int_loop app].
  - intros v' k E. apply Hk in E. unfold zlen. cbn. lia.
  - destruct (o <? 128); [reflexivity|]. specialize (IH (v + Z.shiftl (Z.land o 127) sh) (sh + 7) (n + 1)).
    destruct (int_loop l _ _ _); [exact IH|]. intros v' k E. apply IH in E. unfold zlen in *. cbn [length]. lia.
Qed.

Lemma parse_int_app n b1 b2 prefix : b1 <> [] ->
  match ngx_http_v2_parse_int n b1 prefix with
  | Int v rest n' => ngx_http_v2_parse_int n (b1 ++ b2) prefix = Int v (rest ++ b2) n'
  | Int_code rc => rc <> NGX_AGAIN -> ngx_http_v2_parse_int n (b1 ++ b2) prefix = Int_code rc
  end.
Proof.
  destruct b1 as [|b p]; [contradiction|]. intros _. cbn [app ngx_http_v2_parse_int]. destruct (negb (_ =? prefix)).
  { destruct (n =? 0); reflexivity. }
  change (Z.to_nat (NGX_HTTP_V2_INT_OCTETS - 1)) with 3%nat. rewrite take_app.
  pose proof (int_loop_app (take 3 p) (take (3 - length p) b2) (Z.land b prefix) 0 1) as H.
  destruct (int_loop (take 3 p) _ _ _) as [[v k]|] eqn:E.
  - rewrite H. destruct (k >? n); [reflexivity|]. f_equal.
    change (b :: p ++ b2) with ((b :: p) ++ b2). apply drop_app_le.
    assert (forall l v sh m v' k', int_loop l v sh m = Some (v', k') -> k' <= m + zlen l) as Hle.
    { clear. induction l as [|o l IH]; intros v sh m v' k' E; [discriminate|]. cbn [int_loop] in E. unfold zlen in *. cbn [length].
      destruct (o <? 128); [injection E as _ <-; lia|]. apply IH in E. lia. }
    apply Hle in E. unfold zlen in E. rewrite length_take in E. cbn [length]. lia.
  - destruct (zlen (take 3 p) + 1 >=? n) eqn:E1.
    + intros _. destruct (int_loop (_ ++ _) _ _ _) as [[v k]|] eqn:E2.
      * specialize (H _ _ eq_refl). destruct (k >? n) eqn:E3; [reflexivity|lia].
      * rewrite zlen_app. unfold zlen in *. match goal with |- (if ?c then _ else _) = _ => replace c with true by lia end. reflexivity.
    + destruct (_ =? NGX_HTTP_V2_INT_OCTETS) eqn:E2; [|intros Hn; destruct (Hn eq_refl)]. intros _.
      unfold zlen, NGX_HTTP_V2_INT_OCTETS in E2. rewrite length_take in E2. replace (3 - length p)%nat with O by lia.
      cbn [take]. rewrite app_nil_r, E, E1. unfold zlen, NGX_HTTP_V2_INT_OCTETS. rewrite length_take. replace (_ =? 4) with true by lia. reflexivity.
Qed.

(** More input behind the position. *)
Definition more (b2 : list Z) (n : next) : next :=
  match n with
  | Call h s b => Call h s (b ++ b2)
  | Return h s b => Return h s (b ++ b2)
  | Finish s b => Finish s (b ++ b2)
  | n => n
  end.

Lemma save_eq s buf h : (length buf <= 16)%nat -> ngx_http_v2_state_save s buf h = Save h s buf.
Proof. intros H. unfold ngx_http_v2_state_save, zlen, NGX_HTTP_V2_STATE_BUFFER_SIZE. destruct (_ >? 16) eqn:E; [lia|reflexivity]. Qed.

Lemma continuation_app h s b1 b2 : fit_state s b1 -> len s < 4 ->
  match ngx_http_v2_handle_continuation s b1 h with
  | Save h' s' b' => h' = h /\ len s' = len s /\ flags s' = flags s /\ (b1 = [] -> b' = []) /\
      (exists pad, s' = set_frame (len s) pad (flags s) s) /\
      ngx_http_v2_handle_continuation s (b1 ++ b2) h = ngx_http_v2_handle_continuation s' (b' ++ b2) h
  | n => ngx_http_v2_handle_continuation s (b1 ++ b2) h = more b2 n
  end.
Proof.
  intros [H1 H2 H3 H4 H5 H6] Hl. unfold ngx_http_v2_handle_continuation at 1.
  set (n := Z.to_nat (len s)).
  set (skip := skipped (padding s) (len s) (zlen b1)).
  assert (0 <= skip <= padding s /\ (skip = 0 \/ len s + skip <= zlen b1)) as [Hs1 Hs2] by (unfold skip, zlen in *; rewrite skipped_eq; lia).
  set (b' := take n b1 ++ drop (n + Z.to_nat skip) b1). cbn [len set_frame].
  destruct (zlen b' <? len s + NGX_HTTP_V2_FRAME_HEADER_SIZE) eqn:E.
  - rewrite save_eq by (unfold zlen, NGX_HTTP_V2_FRAME_HEADER_SIZE in E; lia).
    split; [reflexivity|]. split; [reflexivity|]. split; [reflexivity|].
    split; [intros ->; unfold b'; rewrite take_nil, drop_nil; reflexivity|]. split; [eexists; reflexivity|].
    unfold ngx_http_v2_handle_continuation. cbn [len padding flags sid set_frame]. fold n.
    set (skip2 := skipped (padding s) (len s) (zlen (b1 ++ b2))). set (skip3 := skipped (padding s - skip) (len s) (zlen (b' ++ b2))).
    assert (zlen b' = zlen b1 - skip) as Eb.
    { unfold b'. rewrite zlen_app. unfold zlen in *. rewrite length_take, length_drop. lia. }
    assert (skip2 = skip + skip3 /\ 0 <= skip3) as [Esk H3'].
    { unfold skip2, skip3, skip in *. rewrite !zlen_app, Eb. unfold zlen in *. rewrite !skipped_eq in * by lia. lia. }
    assert (take n (b1 ++ b2) ++ drop (n + Z.to_nat skip2) (b1 ++ b2) = take n (b' ++ b2) ++ drop (n + Z.to_nat skip3) (b' ++ b2)) as Ebuf.
    { rewrite Esk. destruct (decide (skip = 0)) as [E0|E0].
      - unfold b'. rewrite E0. change (Z.to_nat 0) with O. rewrite Nat.add_0_r, take_drop, Z.add_0_l. reflexivity.
      - assert (n + Z.to_nat skip <= length b1)%nat as Hle by (unfold zlen in *; lia). unfold b'. rewrite <-app_assoc.
        rewrite (take_app_le b1) by lia. rewrite take_app_length' by (rewrite length_take; lia). f_equal.
        rewrite (drop_app_ge (take n b1)) by (rewrite length_take; lia). rewrite length_take, <-drop_app_le by lia.
        rewrite drop_drop. f_equal. lia. }
    rewrite Ebuf, Esk. replace (padding s - skip - skip3) with (padding s - (skip + skip3)) by lia. reflexivity.
  - assert (zlen b' = zlen b1 - skip) as Eb.
    { unfold b'. rewrite zlen_app. unfold zlen in *. rewrite length_take, length_drop. lia. }
    assert (skip = padding s) as Ep.
    { unfold skip, zlen, NGX_HTTP_V2_FRAME_HEADER_SIZE in *. rewrite skipped_eq in * by lia. lia. }
    assert (skipped (padding s) (len s) (zlen (b1 ++ b2)) = skip) as Esk.
    { rewrite zlen_app. unfold zlen, NGX_HTTP_V2_FRAME_HEADER_SIZE in *. rewrite skipped_eq by lia. lia. }
    assert (take n (b1 ++ b2) ++ drop (n + Z.to_nat skip) (b1 ++ b2) = b' ++ b2) as Ebuf.
    { unfold b'. unfold zlen, NGX_HTTP_V2_FRAME_HEADER_SIZE in *. rewrite take_app_le, drop_app_le, app_assoc by lia. reflexivity. }
    assert (drop n (b' ++ b2) = drop n b' ++ b2) as Ed by (apply drop_app_le; unfold zlen, NGX_HTTP_V2_FRAME_HEADER_SIZE in *; lia).
    assert (length (drop n b') >= 9)%nat as Hd by (rewrite length_drop; unfold zlen, NGX_HTTP_V2_FRAME_HEADER_SIZE in *; lia).
    assert (forall i, (i < 9)%nat -> byte (drop n b' ++ b2) i = byte (drop n b') i) as Hby by (intros i Hi; apply app_nth1; lia).
    assert (ngx_http_v2_parse_uint32 (drop n b' ++ b2) = ngx_http_v2_parse_uint32 (drop n b')) as Eu
      by (unfold ngx_http_v2_parse_uint32; rewrite !Hby by lia; reflexivity).
    assert (ngx_http_v2_parse_uint32 (drop 5 (drop n b' ++ b2)) = ngx_http_v2_parse_uint32 (drop 5 (drop n b'))) as Eu5.
    { rewrite drop_app_le by lia. unfold ngx_http_v2_parse_uint32, byte. rewrite !app_nth1 by (rewrite length_drop; lia). reflexivity. }
    unfold ngx_http_v2_handle_continuation. fold n. rewrite Esk, Ebuf. cbn [len set_frame sid padding flags]. rewrite Ed, Eu, Eu5, Hby by lia.
    replace (zlen (b' ++ b2) <? len s + NGX_HTTP_V2_FRAME_HEADER_SIZE) with false by (rewrite zlen_app; unfold zlen in *; lia).
    destruct (negb (Z.land (ngx_http_v2_parse_uint32 (drop n b')) 255 =? NGX_HTTP_V2_CONTINUATION_FRAME)); [reflexivity|].
    destruct (negb (sid s =? _)); [reflexivity|]. cbn [more]. f_equal.
    rewrite take_app_le, drop_app_le by (lia || (unfold zlen, NGX_HTTP_V2_FRAME_HEADER_SIZE in *; lia)). apply app_assoc.
Qed.

Definition leads (h : handler) (s : state_t) (buf : list Z) (c : conn) : Prop :=
  exists f, run ok max_field request f h s buf = Some c.

Lemma leads_step h s b h' s' b' c : step ok max_field request h s b = step ok max_field request h' s' b' ->
  leads h' s' b' c -> leads h s b c.
Proof. intros E [[|f] H]; [discriminate|]. exists (S f). cbn [run] in *. rewrite E. exact H. Qed.

(** With more input a handler does the same, or what it would have done after
    it had saved its input. *)
Definition resumes (h : handler) (s : state_t) (b1 b2 : list Z) : Prop :=
  match step ok max_field request h s b1 with
  | Save h' s' b' => forall c, leads h' s' (b' ++ b2) c -> leads h s (b1 ++ b2) c
  | n => step ok max_field request h s (b1 ++ b2) = more b2 n
  end.

Lemma frame_flags x pad s : end_headers (set_frame x pad (flags s) s) = end_headers s.
Proof. reflexivity. Qed.

Lemma block_resumes s b1 b2 : fit_state s b1 -> b2 <> [] -> resumes header_block s b1 b2.
Proof.
  intros H Hb2. pose proof H as [H1 H2 H3 H4 H5 H6]. unfold resumes. cbn [step]. unfold ngx_http_v2_state_header_block.
  destruct b1 as [|ch p]; [rewrite save_eq by (cbn; lia); auto|]. cbn [app]. set (b1 := ch :: p) in *.
  assert (b1 ++ b2 = ch :: (p ++ b2)) as Eb' by reflexivity.
  destruct (negb (end_headers s) && (len s <? NGX_HTTP_V2_INT_OCTETS)) eqn:Ec.
  - pose proof (continuation_app header_block s b1 b2 H ltac:(unfold NGX_HTTP_V2_INT_OCTETS in Ec; lia)) as Hc.
    assert (forall s' b', b' <> [] -> negb (end_headers s') && (len s' <? NGX_HTTP_V2_INT_OCTETS) = true ->
      step ok max_field request header_block s' b' = ngx_http_v2_handle_continuation s' b' header_block) as Hstep.
    { intros s' b' Hb' E'. cbn [step]. unfold ngx_http_v2_state_header_block. destruct b'; [contradiction|]. rewrite E'. reflexivity. }
    destruct (ngx_http_v2_handle_continuation s b1 header_block) as [h' s' b'|h' s' b'|h' s' b'|e|s' b'|]; rewrite ?Eb'; try exact Hc.
    destruct Hc as (-> & El & Ef & _ & (pad & Es) & E). intros c. apply leads_step. rewrite Hstep; [|discriminate|exact Ec].
    rewrite Eb' in E. rewrite E, Hstep; [reflexivity|destruct b', b2; (contradiction || discriminate)|]. rewrite Es. exact Ec.
  - set (s1 := if (_ : bool) then set_index true s else s).
    set (prefix := ngx_http_v2_prefix _).
    assert (len s1 = len s /\ end_headers s1 = end_headers s /\ set_index true s1 = set_index true s) as (El & Ef & Ei) by (unfold s1; destruct (negb (ch >=? 128) && (ch >=? 64)); auto).
    pose proof (parse_int_app (len s1) b1 b2 prefix ltac:(discriminate)) as Hp. rewrite Eb' in Hp.
    destruct (ngx_http_v2_parse_int (len s1) b1 prefix) as [v rest n|rc] eqn:Ep.
    + rewrite Hp. unfold more. repeat match goal with |- context [match ?x with _ => _ end] => 
        lazymatch x with context [match _ with _ => _ end] => fail | _ => destruct x; try reflexivity end end.
    + destruct (rc =? NGX_AGAIN) eqn:Er.
      * apply Z.eqb_eq in Er. subst rc. rewrite save_eq by (apply again_short in Ep; lia). intros c. apply leads_step. cbn [step].
        unfold s1, b1, ngx_http_v2_state_header_block. cbn [app]. destruct (negb (ch >=? 128) && (ch >=? 64)); [|reflexivity].
        change (end_headers (set_index true s)) with (end_headers s). change (len (set_index true s)) with (len s). rewrite Ec. reflexivity.
      * rewrite Hp by lia. rewrite Er. destruct (rc =? NGX_DECLINED); reflexivity.
Qed.

Lemma field_len_resumes s b1 b2 : fit_state s b1 -> b2 <> [] -> resumes field_len s b1 b2.
Proof.
  intros H Hb2. unfold resumes. cbn [step]. unfold ngx_http_v2_state_field_len.
  destruct (negb (end_headers s) && (len s <? NGX_HTTP_V2_INT_OCTETS)) eqn:Ec.
  - pose proof (continuation_app field_len s b1 b2 H ltac:(unfold NGX_HTTP_V2_INT_OCTETS in Ec; lia)) as Hc.
    assert (forall s' b', negb (end_headers s') && (len s' <? NGX_HTTP_V2_INT_OCTETS) = true ->
      step ok max_field request field_len s' b' = ngx_http_v2_handle_continuation s' b' field_len) as Hstep.
    { intros s' b' E'. cbn [step]. unfold ngx_http_v2_state_field_len. rewrite E'. reflexivity. }
    destruct (ngx_http_v2_handle_continuation s b1 field_len) as [h' s' b'|h' s' b'|h' s' b'|e|s' b'|]; try exact Hc.
    destruct Hc as (-> & El & Ef & _ & (pad & Es) & E). intros c. apply leads_step. rewrite Hstep by exact Ec.
    rewrite E, Hstep; [reflexivity|]. rewrite Es. exact Ec.
  - destruct (len s <? 1) eqn:E1; [reflexivity|]. destruct b1 as [|b p]; [rewrite save_eq by (cbn; lia); auto|].
    cbn [app]. change (b :: p ++ b2) with ((b :: p) ++ b2). set (b1 := b :: p) in *.
    pose proof (parse_int_app (len s) b1 b2 (ngx_http_v2_prefix 7) ltac:(discriminate)) as Hp.
    destruct (ngx_http_v2_parse_int (len s) b1 (ngx_http_v2_prefix 7)) as [n rest l|rc] eqn:Ep.
    + rewrite Hp. destruct (n >? max_field); [reflexivity|]. cbn [stream index set_len].
      destruct (negb (stream s) && negb (index s)); [reflexivity|]. destruct (negb (ok _)); [reflexivity|]. destruct (negb _); reflexivity.
    + destruct (rc =? NGX_AGAIN) eqn:Er.
      * apply Z.eqb_eq in Er. subst rc. rewrite save_eq by (apply again_short in Ep; lia). auto.
      * rewrite Hp by lia. rewrite Er. destruct (rc =? NGX_DECLINED); reflexivity.
Qed.

(** The handlers of strings, in general: [eat] is what they do with bytes of
    the field, [None] when the code is wrong. *)
Definition eat (h : handler) (s : state_t) (l : list Z) (last : bool) : option state_t :=
  match h with
  | field_huff =>
      let '(rc, st, o) := ngx_http_huff_decode (field_state s) l last in
      if negb (rc =? NGX_OK) then None else Some (set_field st (field s ++ o) s)
  | field_raw => Some (set_field (field_state s) (field s ++ l) s)
  | _ => Some s
  end.

Lemma field_step h s buf : rank h = 3%nat -> step ok max_field request h s buf =
  let n := field_size s buf in
  match eat h (consume n s) (take (Z.to_nat n) buf) (field_rest (consume n s) =? 0) with
  | None => Close NGX_HTTP_V2_COMP_ERROR
  | Some s' => after_field h s' (drop (Z.to_nat n) buf)
  end.
Proof.
  intros Hh. destruct h; try discriminate Hh; cbn [step eat]; try reflexivity.
  unfold ngx_http_v2_state_field_huff. destruct (ngx_http_huff_decode _ _ _) as [[rc st] o]. destruct (negb _); reflexivity.
Qed.

Lemma eat_fields h s l last s' : eat h s l last = Some s' -> exists st f, s' = set_field st f s.
Proof.
  destruct h; cbn [eat]; try (intros [= <-]; exists (field_state s), (field s); destruct s; reflexivity).
  - destruct (ngx_http_huff_decode _ _ _) as [[rc st] o]. destruct (negb _); [discriminate|]. intros [= <-]. eauto.
  - intros [= <-]. eauto.
Qed.

Lemma consume_set n st f s : consume n (set_field st f s) = set_field st f (consume n s).
Proof. reflexivity. Qed.

Lemma consume_add a b s : consume b (consume a s) = consume (a + b) s.
Proof. destruct s. unfold consume, set_room, set_len. cbn. f_equal; lia. Qed.

Lemma eat_app h s a b last n : rank h = 3%nat -> b <> [] ->
  eat h (consume n s) (a ++ b) last =
  match eat h s a false with None => None | Some s' => eat h (consume n s') b last end.
Proof.
  intros Hh Hb. destruct h; try discriminate Hh; cbn [eat].
  - change (field_state (consume n s)) with (field_state s). rewrite huff_decode_app by exact Hb.
    destruct (ngx_http_huff_decode (field_state s) a false) as [[rc st] o]. destruct (rc =? NGX_OK) eqn:Er; cbn [negb]; [|rewrite Er; reflexivity].
    cbn [field_state consume set_field set_room set_len field].
    destruct (ngx_http_huff_decode st b last) as [[rc' st'] o']. destruct (rc' =? NGX_OK); cbn [negb]; [|reflexivity].
    rewrite app_assoc. reflexivity.
  - cbn [field_state consume set_field set_room set_len field]. rewrite app_assoc. reflexivity.
  - reflexivity.
Qed.

Lemma eat_nil h s : rank h = 3%nat -> eat h (consume 0 s) [] false = Some s.
Proof.
  intros Hh. destruct s. destruct h; try discriminate Hh; unfold consume, set_room, set_len; cbn; rewrite ?app_nil_r;
    unfold set_field; cbn; repeat f_equal; lia.
Qed.

(** A field that the input does not end, *)
Lemma field_inside h s b1 b2 : rank h = 3%nat -> b2 <> [] -> zlen b1 < field_rest s -> zlen b1 < len s ->
  step ok max_field request h s (b1 ++ b2) =
  match eat h (consume (zlen b1) s) b1 false with
  | None => Close NGX_HTTP_V2_COMP_ERROR
  | Some s' => step ok max_field request h s' b2
  end.
Proof.
  intros Hh Hb2 Hr Hl. rewrite (field_step h s) by exact Hh. cbv zeta. set (n := zlen b1) in *. set (m := field_size (consume n s) b2).
  assert (field_size s (b1 ++ b2) = n + m /\ 0 < m) as [-> Hm].
  { unfold m, field_size. cbn [field_rest len consume set_room set_len]. rewrite zlen_app. fold n. destruct b2; [contradiction|]. unfold n, zlen in *. cbn [length]. lia. }
  assert (take (Z.to_nat (n + m)) (b1 ++ b2) = b1 ++ take (Z.to_nat m) b2) as ->.
  { unfold n, zlen in *. rewrite take_app_ge by lia. f_equal. f_equal. lia. }
  assert (drop (Z.to_nat (n + m)) (b1 ++ b2) = drop (Z.to_nat m) b2) as -> by (unfold n, zlen in *; rewrite drop_app_ge by lia; f_equal; lia).
  assert (take (Z.to_nat m) b2 <> []) as Ht by (destruct b2; [contradiction|]; destruct (Z.to_nat m) eqn:E; [lia|discriminate]).
  rewrite <-!consume_add. rewrite (eat_app h (consume n s) b1 _ _ m Hh Ht).
  destruct (eat h (consume n s) b1 false) as [s'|] eqn:Ee; [|reflexivity].
  destruct (eat_fields _ _ _ _ _ Ee) as (st & f & Es). rewrite (field_step h s') by exact Hh. cbv zeta.
  replace (field_size s' b2) with m by (rewrite Es; reflexivity).
  replace (field_rest (consume m s')) with (field_rest (consume m (consume n s))) by (rewrite Es; reflexivity). reflexivity.
Qed.

(** and one that ends in it, or whose frame does. *)
Lemma field_outside h s b1 b2 : rank h = 3%nat -> fit_state s b1 -> field_rest s <= zlen b1 \/ len s <= zlen b1 ->
  step ok max_field request h s (b1 ++ b2) =
  let n := field_size s b1 in
  match eat h (consume n s) (take (Z.to_nat n) b1) (field_rest (consume n s) =? 0) with
  | None => Close NGX_HTTP_V2_COMP_ERROR
  | Some s' => after_field h s' (drop (Z.to_nat n) b1 ++ b2)
  end.
Proof.
  intros Hh H Hn. pose proof (field_size_bounds s b1 H) as (B1 & B2 & B3 & B4). rewrite (field_step h s) by exact Hh. cbv zeta.
  replace (field_size s (b1 ++ b2)) with (field_size s b1) by (unfold field_size in *; rewrite zlen_app; unfold zlen in *; lia).
  unfold zlen in *. rewrite take_app_le, drop_app_le by lia. reflexivity.
Qed.

Lemma field_resumes h s b1 b2 : rank h = 3%nat -> fit_state s b1 -> b2 <> [] -> resumes h s b1 b2.
Proof.
  intros Hh H Hb2. pose proof H as [H1 H2 H3 H4 H5 H6]. unfold resumes. rewrite (field_step h s b1) by exact Hh. cbv zeta.
  pose proof (field_size_bounds s b1 H) as (B1 & B2 & B3 & B4).
  destruct (decide (zlen b1 < field_rest s /\ zlen b1 < len s)) as [[Hr Hl]|Hn].
  - rewrite (field_inside h s b1 b2) by assumption. replace (field_size s b1) with (zlen b1) by (unfold field_size; lia).
    rewrite take_ge, drop_ge by (unfold zlen in *; lia). replace (field_rest (consume (zlen b1) s) =? 0) with false by (cbn; lia).
    pose proof (field_inside h s b1 b2 Hh Hb2 Hr Hl) as Ei.
    destruct (eat h (consume (zlen b1) s) b1 false) as [s'|] eqn:Ee; [|reflexivity].
    destruct (eat_fields _ _ _ _ _ Ee) as (st & f & Es). unfold after_field.
    replace (field_rest s' =? 0) with false by (rewrite Es; cbn; lia). replace (len s' =? 0) with false by (rewrite Es; cbn; lia).
    cbn [negb]. rewrite save_eq by (cbn; lia). intros c. apply leads_step. exact Ei.
  - pose proof (field_outside h s b1 b2 Hh H ltac:(lia)) as Eo. cbv zeta in Eo. rewrite Eo.
    set (n := field_size s b1) in *. destruct (eat h _ _ _) as [s'|] eqn:Ee; [|reflexivity].
    destruct (eat_fields _ _ _ _ _ Ee) as (st & f & Es). destruct (consume_fit s b1 f st H) as [Hf _]. cbv zeta in Hf. fold n in Hf. rewrite <-Es in Hf.
    assert (field_rest s' = 0 \/ len s' = 0) as Hz by (rewrite Es; cbn; unfold n, field_size in *; lia).
    revert Eo. unfold after_field. destruct (field_rest s' =? 0) eqn:E0; [reflexivity|].
    replace (len s' =? 0) with true by lia. cbn [negb]. destruct (end_headers s') eqn:Eh; [reflexivity|]. intros Eo.
    pose proof (continuation_app h s' (drop (Z.to_nat n) b1) b2 Hf ltac:(lia)) as Hc.
    destruct (ngx_http_v2_handle_continuation s' (drop (Z.to_nat n) b1) h) as [h' s2 b'|h' s2 b'|h' s2 b'|e|s2 b'|]; try exact Hc.
    destruct Hc as (-> & El & Ef & _ & (pad & Ep) & E). intros c. apply leads_step. rewrite Eo, E.
    rewrite (field_step h s2) by exact Hh. cbv zeta.
    replace (field_size s2 (b' ++ b2)) with 0 by (rewrite Ep; unfold field_size; cbn [len field_rest set_frame]; rewrite zlen_app; destruct Hf; unfold zlen; lia).
    replace (field_rest (consume 0 s2) =? 0) with false by (rewrite Ep; cbn; lia). change (Z.to_nat 0) with O. cbn [take drop].
    rewrite eat_nil by exact Hh. unfold after_field. replace (field_rest s2) with (field_rest s') by (rewrite Ep; reflexivity). rewrite E0.
    replace (len s2 =? 0) with true by (rewrite El; lia). cbn [negb]. replace (end_headers s2) with (end_headers s') by (rewrite Ep; reflexivity).
    rewrite Eh. reflexivity.
Qed.

Lemma process_resumes s b1 b2 : resumes process_header s b1 b2.
Proof.
  unfold resumes. cbn [step]. unfold ngx_http_v2_state_process_header.
  destruct (parse_name s); [destruct (_ =? 0); reflexivity|]. unfold deliver. destruct (_ >? _); [reflexivity|].
  destruct (if index _ then _ else _) as [[s'|]|]; try reflexivity. destruct (negb _); [reflexivity|]. destruct (request _); reflexivity.
Qed.

Lemma complete_resumes s b1 b2 : fit_state s b1 -> b2 <> [] -> resumes header_complete s b1 b2.
Proof.
  intros H Hb2. unfold resumes. cbn [step]. unfold ngx_http_v2_state_header_complete. destruct (len s =? 0) eqn:E0; cbn [negb].
  - destruct (end_headers s) eqn:Eh; cbn [negb]; [reflexivity|].
    pose proof (continuation_app header_complete s b1 b2 H ltac:(lia)) as Hc.
    destruct (ngx_http_v2_handle_continuation s b1 header_complete) as [h' s2 b'|h' s2 b'|h' s2 b'|e|s2 b'|]; try exact Hc.
    destruct Hc as (-> & El & Ef & _ & (pad & Ep) & E). intros c. apply leads_step. cbn [step]. unfold ngx_http_v2_state_header_complete.
    replace (end_headers s2) with (end_headers s) by (rewrite Ep; reflexivity). rewrite El, E0, Eh. exact E.
  - destruct b1 as [|x b1]; [|reflexivity]. rewrite save_eq by (cbn; lia). intros c [f Hf]. exists (S f). cbn [app] in *. cbn [run step].
    unfold ngx_http_v2_state_header_complete. rewrite E0. destruct b2; [contradiction|]. exact Hf.
Qed.

Lemma step_resumes h s b1 b2 : fit_state s b1 -> b2 <> [] -> resumes h s b1 b2.
Proof.
  intros H Hb2. destruct h; [apply block_resumes|apply field_len_resumes|apply field_resumes|apply field_resumes|apply field_resumes|
    apply process_resumes|apply complete_resumes]; auto.
Qed.

(** What a connection leads to with more input. *)
Definition then_recv (c : conn) (b2 : list Z) (c' : conn) : Prop :=
  match c with
  | Wait h s kept => leads h s (kept ++ b2) c'
  | Closed e => c' = Closed e
  | Done s rest => c' = Done s (rest ++ b2)
  end.

Lemma run_resumes f : forall h s b1 b2 c c', fit_state s b1 -> b2 <> [] ->
  run ok max_field request f h s b1 = Some c -> then_recv c b2 c' -> leads h s (b1 ++ b2) c'.
Proof.
  induction f as [|f IH]; intros h s b1 b2 c c' H Hb2 E Hc; [discriminate|]. cbn [run] in E.
  pose proof (step_progress h s b1 H) as Hp. pose proof (step_resumes h s b1 b2 H Hb2) as Hr. unfold resumes in Hr.
  destruct (step ok max_field request h s b1) as [h' s' b'|h' s' b'|h' s' b'|e|s' b'|]; cbn [more progress] in *.
  - destruct (IH _ _ _ b2 _ _ (proj1 Hp) Hb2 E Hc) as [f' Hf]. exists (S f'). cbn [run]. rewrite Hr. exact Hf.
  - assert (leads h' s' (b' ++ b2) c') as [f' Hf].
    { destruct b' as [|x b']; [injection E as <-; exact Hc|]. exact (IH _ _ _ b2 _ _ (proj1 Hp) Hb2 E Hc). }
    exists (S f'). cbn [run]. rewrite Hr. destruct (b' ++ b2) eqn:Eb; [|exact Hf]. destruct b', b2; (contradiction || discriminate).
  - injection E as <-. exact (Hr c' Hc).
  - injection E as <-. cbn in Hc. subst c'. exists 1%nat. cbn [run]. rewrite Hr. reflexivity.
  - injection E as <-. cbn in Hc. subst c'. exists 1%nat. cbn [run]. rewrite Hr. reflexivity.
  - discriminate.
Qed.

Lemma fit_app s b1 b2 : fit_state s b1 -> bytes b2 -> fit_state s (b1 ++ b2).
Proof. intros [] Hb. constructor; auto. apply bytes_app; assumption. Qed.

Lemma steps_enough h buf : (measure h buf < steps buf)%nat.
Proof. unfold measure, steps. destruct h; cbn [rank]; lia. Qed.

Lemma recv_total c l : fit_conn c -> bytes l -> exists c', recv ok max_field request c l = Some c' /\ fit_conn c'.
Proof.
  intros H Hl. destruct c as [h s kept|e|s rest]; cbn [recv].
  - apply run_total; [apply fit_app; [apply H|exact Hl]|apply steps_enough].
  - eexists. split; [reflexivity|exact I].
  - eexists. split; [reflexivity|]. apply fit_app; assumption.
Qed.

Lemma leads_run h s buf c : fit_state s buf -> leads h s buf c -> run ok max_field request (steps buf) h s buf = Some c.
Proof.
  intros H [f Hf]. destruct (run_total (steps buf) h s buf H (steps_enough h buf)) as (c0 & E & _).
  pose proof (run_more _ _ _ _ _ Hf (f + steps buf) ltac:(lia)) as H1. pose proof (run_more _ _ _ _ _ E (f + steps buf) ltac:(lia)) as H2. congruence.
Qed.

Lemma recv_app c l1 l2 : fit_conn c -> bytes l1 -> bytes l2 -> l2 <> [] ->
  recv ok max_field request c (l1 ++ l2) =
  match recv ok max_field request c l1 with Some c' => recv ok max_field request c' l2 | None => None end.
Proof.
  intros H H1 H2 Hl2. destruct (recv_total c l1 H H1) as (c1 & E1 & F1). rewrite E1. destruct (recv_total c1 l2 F1 H2) as (c2 & E2 & F2). rewrite E2.
  destruct c as [h s kept|e|s rest]; cbn [recv] in *.
  - rewrite app_assoc. destruct H as [H _]. pose proof (fit_app s kept l1 H H1) as Hf. apply leads_run; [apply fit_app; assumption|].
    apply (run_resumes _ _ _ _ _ _ _ Hf Hl2 E1). destruct c1 as [h1 s1 k1|e|s1 r1]; cbn [recv then_recv] in *; [|congruence|congruence].
    eexists. exact E2.
  - injection E1 as <-. cbn in E2. congruence.
  - injection E1 as <-. cbn in E2. rewrite app_assoc. congruence.
Qed.

Lemma recv_pieces l chunks : bytes l -> Forall (fun l => bytes l /\ l <> []) chunks -> forall c, fit_conn c ->
  recv_all ok max_field request c (l :: chunks) = recv ok max_field request c (concat (l :: chunks)).
Proof.
  intros Hl H. revert l Hl. induction H as [|l2 chunks [Hb Hn] H IH]; intros l Hl c Hc; cbn [concat].
  - rewrite app_nil_r. cbn [recv_all]. destruct (recv _ _ _ c l); reflexivity.
  - assert (bytes (l2 ++ concat chunks)) as Hb2.
    { apply bytes_app; [exact Hb|]. clear -H. induction H as [|x chunks [Hx _] H IH]; [constructor|]. cbn. apply bytes_app; assumption. }
    rewrite recv_app; [|exact Hc|exact Hl|exact Hb2|destruct l2; [contradiction|discriminate]]. cbn [recv_all].
    destruct (recv_total c l Hc Hl) as (c1 & E1 & F1). rewrite E1. exact (IH l2 Hb c1 F1).
Qed.

End Total.

(** C21: A header block is decoded in the same way however its bytes arrive:
    with the bytes kept between the calls, the state of the Huffman decoder
    and the frames that continue the block, every sequence of reads gives the
    state, the fields, the table, the error or the rest of the input that one
    read of everything gives; the handlers always come to an end, and the
    bytes kept never exceed the buffer of 16 bytes. *)
Theorem header_block_resume `{P : Platform} ok max_field request n pad fl id limit t tbl l chunks :
  0 <= n -> 0 <= pad -> 0 <= limit <= 0x7fff0000 -> reach t tbl -> bytes l -> l <> [] ->
  Forall (fun l => bytes l /\ l <> []) chunks ->
  let c := Wait header_block (headers_frame n pad fl id limit t) [] in
  recv_all ok max_field request c (l :: chunks) = recv ok max_field request c (concat (l :: chunks)) /\
  exists c', recv_all ok max_field request c (l :: chunks) = Some c' /\
    match c' with Wait _ _ kept => (length kept <= 16)%nat | _ => True end.
Proof.
  intros Hn Hp Hl Ht Hb _ Hc c. assert (fit_conn c) as Hf.
  { split; [|cbn; lia]. constructor; cbn; auto; [lia|exists tbl; apply reach_refines, Ht|constructor]. }
  rewrite recv_pieces by assumption. split; [reflexivity|].
  assert (bytes (concat (l :: chunks))) as Hb'.
  { cbn. apply bytes_app; [exact Hb|]. clear -Hc. induction Hc as [|x chunks [Hx _] H IH]; [constructor|]. cbn. apply bytes_app; assumption. }
  destruct (recv_total ok max_field request c _ Hf Hb') as (c' & E & F). exists c'. split; [exact E|].
  destruct c' as [h s kept|e|s rest]; [exact (proj2 F)|exact I|exact I].
Qed.

Definition sample_block : list (list Z) :=
  [[0x82; 0x86; 0x84; 0x41]; [0x8c; 0xf1; 0xe3]; [0xc2; 0xe5; 0xf2; 0x3a; 0x6b; 0xa0; 0xab; 0x90; 0xf4; 0xff]].

Lemma header_block_resume_witness :
  let c := Wait header_block (headers_frame 17 0 4 1 32768 hpack_init) [] in
  @recv_all lp64 memory 8192 keep_all c sample_block = @recv lp64 memory 8192 keep_all c (concat sample_block).
Proof.
  apply (@header_block_resume lp64 memory 8192 keep_all 17 0 4 1 32768 hpack_init table_init);
    try (apply reach_init); try discriminate; try lia.
  - repeat (constructor; [split; (lia || discriminate)|]). constructor.
  - repeat (constructor; [split; [repeat (constructor; [split; (lia || discriminate)|]); constructor|discriminate]|]). constructor.
Defined.

(** ** What a header block says

    The representations of RFC 7541, independent of the decoder: integers with
    a prefix and at most three more octets, strings as they are or in the
    Huffman code, and the fields and changes of the table they stand for. *)
Inductive octets : list Z -> Z -> Prop :=
  | octets_last o : 0 <= o < 128 -> octets [o] o
  | octets_more o l v : 128 <= o < 256 -> octets l v -> octets (o :: l) (o - 128 + 128 * v).

Definition encodes_int (prefix v b : Z) (l : list Z) : Prop :=
  (l = [] /\ Z.land b prefix = v /\ v <> prefix) \/
  (Z.land b prefix = prefix /\ (length l <= 3)%nat /\ exists w, octets l w /\ v = prefix + w).

Definition encodes_string (limit : Z) (str enc : list Z) : Prop :=
  exists b l payload, enc = b :: l ++ payload /\ is_byte b /\ encodes_int 127 (zlen payload) b l /\ zlen payload <= limit /\
    bytes payload /\ bytes str /\
    (b < 128 /\ payload = str \/
     128 <= b /\ exists pad, bits_of payload = codes str ++ pad /\ ones pad = true /\ (length pad < 30)%nat).

(** The name of a literal field: a string, or that of an entry of the
    table. *)
Definition encodes_name (limit : Z) (t : V2Table.table) (i : Z) (nm enc : list Z) : Prop :=
  (i = 0 /\ nm <> [] /\ encodes_string limit nm enc) \/
  (i <> 0 /\ enc = [] /\ exists f, table_lookup t i = Some f /\ nm = name f).

(** [block limit t bs fs t']: with the table [t], the bytes [bs] stand for the
    fields [fs] and leave the table [t']. *)
Inductive block (limit : Z) : V2Table.table -> list Z -> list header -> V2Table.table -> Prop :=
  | block_end t : block limit t [] [] t
  | block_indexed t b l i f bs fs t' : 128 <= b < 256 -> encodes_int 127 i b l -> table_lookup t i = Some f ->
      block limit t bs fs t' -> block limit t (b :: l ++ bs) (f :: fs) t'
  | block_literal t b l i (inc : bool) nm nb v vb bs fs t' :
      (if inc then 64 <= b < 128 /\ encodes_int 63 i b l else 0 <= b < 32 /\ encodes_int 15 i b l) ->
      encodes_name limit t i nm nb -> encodes_string limit v vb ->
      block limit (if inc then table_insert (mk_header nm v) t else t) bs fs t' ->
      block limit t (b :: l ++ nb ++ vb ++ bs) (mk_header nm v :: fs) t'
  | block_resize t b l n bs fs t' : 32 <= b < 64 -> encodes_int 31 n b l -> n <= 4096 ->
      block limit (table_resize n t) bs fs t' -> block limit t (b :: l ++ bs) fs t'.

(** The size of fields, as the limit of the headers counts it. *)
Definition text_size (fs : list header) : Z := foldr (fun f n => zlen (name f) + zlen (value f) + n) 0 fs.

Lemma octets_nonneg l v : octets l v -> 0 <= v.
Proof. intros H. induction H; lia. Qed.

Lemma encodes_int_nonneg prefix v b l : 0 <= b -> 0 <= prefix -> encodes_int prefix v b l -> 0 <= v.
Proof.
  intros Hb Hp [(_ & <- & _)|(_ & _ & w & Hw%octets_nonneg & ->)]; [apply Z.land_nonneg; lia|lia].
Qed.

Lemma int_loop_octets l w : octets l w -> forall rest v sh n, 0 <= sh ->
  int_loop (l ++ rest) v sh n = Some (v + w * 2 ^ sh, n + zlen l).
Proof.
  intros H. unfold zlen. induction H as [o Ho|o l w Ho H IH]; intros rest v sh n Hsh; cbn [app int_loop length].
  - replace (o <? 128) with true by lia. rewrite (land_ones_mod _ 127 7), Z.mod_small, Z.shiftl_mul_pow2 by (lia || reflexivity). f_equal.
  - replace (o <? 128) with false by lia. rewrite IH by lia. rewrite (land_ones_mod _ 127 7), Z.shiftl_mul_pow2 by (lia || reflexivity).
    change (2 ^ 7) with 128. replace (o mod 128) with (o - 128) by div_lia. rewrite Z.pow_add_r by lia. change (2 ^ 7) with 128. do 2 f_equal; lia.
Qed.

Lemma parse_int_encoded prefix v b l rest n : encodes_int prefix v b l -> 1 + zlen l <= n ->
  ngx_http_v2_parse_int n (b :: l ++ rest) prefix = Int v rest (n - (1 + zlen l)).
Proof.
  intros H Hn. cbn [ngx_http_v2_parse_int]. destruct H as [(-> & Hv & Hne)|(Hv & Hl & w & Hw & ->)]; rewrite Hv.
  - unfold zlen in *. cbn in *. replace (v =? prefix) with false by lia. cbn [negb]. replace (n =? 0) with false by lia. reflexivity.
  - rewrite Z.eqb_refl. cbn [negb]. change (Z.to_nat (NGX_HTTP_V2_INT_OCTETS - 1)) with 3%nat. rewrite take_app, take_ge by lia.
    rewrite (int_loop_octets _ _ Hw) by lia. rewrite Z.mul_1_r. destruct (_ >? n) eqn:E; [lia|]. f_equal.
    replace (Z.to_nat (1 + zlen l)) with (S (length l)) by (unfold zlen; lia). cbn [drop]. apply drop_app_length.
Qed.

(** ** The decoder reads what the block says *)

Section Decode.
Context `{P : Platform}.
Variable max_field : Z.

Local Abbreviation leads := (leads memory max_field keep_all).

(** What the reading of a string does not change. *)
Definition core (s : state_t) := (flags s, parse_name s, parse_value s, index s, hdr s, header_limit s, stream s, table s, fields s).

Lemma leads_call h s b h' s' b' c : step memory max_field keep_all h s b = Call h' s' b' -> leads h' s' b' c -> leads h s b c.
Proof. intros E [f H]. exists (S f). cbn [run]. rewrite E. exact H. Qed.

Lemma field_end_call h s payload rest s' : rank h = 3%nat -> zlen payload <= len s -> field_rest s = zlen payload ->
  eat h (consume (zlen payload) s) payload true = Some s' ->
  step memory max_field keep_all h s (payload ++ rest) = Call process_header s' rest.
Proof.
  intros Hh Hl Hr E. rewrite field_step by exact Hh. cbv zeta.
  replace (field_size s (payload ++ rest)) with (zlen payload) by (unfold field_size; rewrite zlen_app, Hr; unfold zlen in *; lia).
  replace (Z.to_nat (zlen payload)) with (length payload) by (unfold zlen; lia). rewrite take_app_length, drop_app_length.
  replace (field_rest (consume (zlen payload) s) =? 0) with true by (cbn; lia). rewrite E.
  destruct (eat_fields _ _ _ _ _ E) as (st & f & ->). unfold after_field. replace (field_rest _ =? 0) with true by (cbn; lia). reflexivity.
Qed.

Lemma string_read s str enc rest : encodes_string max_field str enc -> stream s = true -> field_state s = 0 ->
  end_headers s = true -> zlen enc <= len s ->
  exists s', len s' = len s - zlen enc /\ core s' = core s /\ field s' = str /\ field_state s' = 0 /\
    forall c, leads process_header s' rest c -> leads field_len s (enc ++ rest) c.
Proof.
  intros (b & l & payload & -> & [Hb1 Hb2] & Hi & Hmax & Hpb & Hsb & Hc) Hst Hfs Hend Hlen.
  assert (zlen (b :: l ++ payload) = 1 + zlen l + zlen payload) as Ez by (unfold zlen; cbn [length]; rewrite length_app; lia).
  rewrite Ez in *. assert (0 <= zlen l /\ 0 <= zlen payload) as [] by (unfold zlen; lia).
  set (huff := negb (Z.shiftr b 7 =? 0)). set (h := if huff then field_huff else field_raw).
  set (alloc := (if huff then zlen payload * 8 / 5 else zlen payload) + 1).
  set (s1 := set_field (field_state s) [] (set_room alloc (zlen payload) (set_len (len s - (1 + zlen l)) s))).
  assert (exists s', eat h (consume (zlen payload) s1) payload true = Some s' /\ len s' = len s - (1 + zlen l + zlen payload) /\ core s' = core s /\
    field s' = str /\ field_state s' = 0) as (s' & Ee & E1 & E2 & E3 & E4).
  { assert (huff = (128 <=? b)) as Eh.
    { unfold huff. rewrite Z.shiftr_div_pow2 by lia. change (2 ^ 7) with 128. destruct (128 <=? b) eqn:E; [assert (b / 128 = 1) as -> by div_lia|assert (b / 128 = 0) as -> by div_lia]; reflexivity. }
    unfold h. rewrite Eh. destruct Hc as [[Hraw ->]|(Hhuff & pad & Ep & Hp1 & Hp2)].
    - replace (128 <=? b) with false by lia. eexists. split; [reflexivity|]. cbn. repeat split; [lia|exact Hfs].
    - replace (128 <=? b) with true by lia. cbn [eat]. change (field_state (consume (zlen payload) s1)) with (field_state s). rewrite Hfs.
      rewrite (proj2 (decode_whole payload str Hpb)) by (exists pad; split; [exact Hsb|split; [split; assumption|exact Ep]]).
      eexists. split; [reflexivity|]. cbn. repeat split; lia. }
  exists s'. split; [exact E1|]. split; [exact E2|]. split; [exact E3|]. split; [exact E4|]. intros c Hleads.
  apply (leads_call _ _ _ h s1 (payload ++ rest)).
  { cbn [step]. unfold ngx_http_v2_state_field_len. rewrite Hend. cbn [negb andb]. replace (len s <? 1) with false by lia. cbn [app]. rewrite <-app_assoc.
    change (ngx_http_v2_prefix 7) with 127. rewrite (parse_int_encoded 127 _ _ _ _ _ Hi) by lia.
    replace (zlen payload >? max_field) with false by lia. cbn [stream index set_len]. rewrite Hst. reflexivity. }
  eapply leads_call; [|exact Hleads]. apply field_end_call; [unfold h; destruct huff; reflexivity|cbn; lia|reflexivity|exact Ee].
Qed.

(** A connection between two representations. *)
Record ready (s : state_t) (t : V2Table.table) (fs : list header) (lim : Z) : Prop := {
  ready_end : end_headers s = true; ready_name : parse_name s = false; ready_value : parse_value s = false;
  ready_index : index s = false; ready_stream : stream s = true; ready_huff : field_state s = 0;
  ready_table : reach (table s) t; ready_fields : fields s = fs; ready_limit : header_limit s = lim
}.

Lemma process_keep s t (inc : bool) hd rest : parse_name s = false ->
  (if parse_value s then mk_header (name (hdr s)) (field s) else hdr s) = hd -> index s = inc -> stream s = true ->
  end_headers s = true -> field_state s = 0 -> reach (table s) t ->
  zlen (name hd) + zlen (value hd) <= header_limit s <= 0x7fff0000 ->
  exists s', ready s' (if inc then table_insert hd t else t) (fields s ++ [hd]) (header_limit s - (zlen (name hd) + zlen (value hd))) /\
    len s' = len s /\ forall c, leads header_complete s' rest c -> leads process_header s rest c.
Proof.
  intros Hn Hh Hi Hst Hend Hfs Ht Hsz.
  set (s1 := if parse_value s then set_hdr (mk_header (name (hdr s)) (field s)) (set_parse false false s) else s).
  assert (step memory max_field keep_all process_header s rest = deliver memory keep_all s1 rest) as Estep
    by (cbn [step]; unfold ngx_http_v2_state_process_header; rewrite Hn; reflexivity).
  assert (hdr s1 = hd /\ header_limit s1 = header_limit s /\ index s1 = inc /\ stream s1 = true /\ end_headers s1 = true /\ field_state s1 = 0 /\
    table s1 = table s /\ fields s1 = fields s /\ parse_name s1 = false /\ parse_value s1 = false /\ len s1 = len s) as (E1 & E2 & E3 & E4 & E5 & E6 & E7 & E8 & E9 & E10 & E11).
  { unfold s1. destruct (parse_value s) eqn:E; repeat split; assumption. }
  clearbody s1. clear Hh Hn Hst Hend Hfs Hi. subst hd. rewrite <-E7 in Ht. rewrite <-E2 in Hsz. rewrite <-E8, <-E2, <-E11.
  set (s2 := set_limit (header_limit s1 - (zlen (name (hdr s1)) + zlen (value (hdr s1)))) s1).
  assert (esize (hdr s1) <= NGX_MAX_SIZE_T_VALUE) as Hes.
  { unfold NGX_MAX_SIZE_T_VALUE, esize. pose proof (max_value_pos size_t_size). unfold zlen in Hsz. lia. }
  destruct (add_refines (table s1) t (hdr s1) (reach_refines _ _ Ht) Hes) as (h' & Ea & _).
  assert (reach h' (table_insert (hdr s1) t)) as Hr by (eapply reach_add; eassumption).
  set (s3 := if inc then set_index false (set_table h' s2) else s2).
  exists (set_stream true (fields s1 ++ [hdr s1]) s3).
  split; [unfold s3, s2; destruct inc; constructor; cbn; auto|]. split; [unfold s3, s2; destruct inc; reflexivity|].
  intros c. apply leads_call. rewrite Estep. unfold deliver. replace (_ >? header_limit s1) with false by lia. fold s2. change (index s2) with (index s1).
    change (table s2) with (table s1). change (hdr s2) with (hdr s1). rewrite E3, Ea. unfold s3.
    destruct inc; cbn [Z.eqb negb NGX_OK stream set_index set_table]; change (stream s2) with (stream s1); rewrite E4; reflexivity.
Qed.

(** The name of a literal field, *)
Lemma name_step s rest : parse_name s = true -> field s <> [] ->
  step memory max_field keep_all process_header s rest =
  Call field_len (set_hdr (mk_header (field s) (value (hdr s))) (set_parse false (parse_value s) s)) rest.
Proof.
  intros Hn Hf. cbn [step]. unfold ngx_http_v2_state_process_header. rewrite Hn. cbn [hdr set_hdr name].
  replace (zlen (field s) =? 0) with false; [reflexivity|]. unfold zlen. destruct (field s); [contradiction|cbn [length]; lia].
Qed.

(** the first octets of a representation. *)
Lemma block_step s b l v prefix rest : end_headers s = true -> encodes_int prefix v b l -> 1 + zlen l <= len s ->
  prefix = (if b >=? 128 then 127 else if b >=? 64 then 63 else if b >=? 32 then 31 else 15) ->
  let s1 := set_len (len s - (1 + zlen l)) (if negb (b >=? 128) && (b >=? 64) then set_index true s else s) in
  step memory max_field keep_all header_block s (b :: l ++ rest) =
  if b >=? 128 then
    match ngx_http_v2_get_indexed_header memory (table s) (hdr s) v false with
    | Some (rc, h) => if negb (rc =? NGX_OK) then Close NGX_HTTP_V2_COMP_ERROR else Call process_header (set_hdr h s1) rest
    | None => Undefined
    end
  else if (b <? 64) && (b >=? 32) then
    match ngx_http_v2_table_size (table s) v with
    | Some (rc, t) => if negb (rc =? NGX_OK) then Close NGX_HTTP_V2_COMP_ERROR else Call header_complete (set_table t s1) rest
    | None => Undefined
    end
  else if v =? 0 then Call field_len (set_parse true true s1) rest
  else
    match ngx_http_v2_get_indexed_header memory (table s) (hdr s) v true with
    | Some (rc, h) =>
        if negb (rc =? NGX_OK) then Close NGX_HTTP_V2_COMP_ERROR else Call field_len (set_parse (parse_name s) true (set_hdr h s1)) rest
    | None => Undefined
    end.
Proof.
  intros Hend Hi Hlen Hp s1. cbn [step]. unfold ngx_http_v2_state_header_block. rewrite Hend. cbn [negb andb].
  replace (ngx_http_v2_prefix _) with prefix by (rewrite Hp; destruct (b >=? 128), (b >=? 64), (b >=? 32); reflexivity).
  replace (len (if negb (b >=? 128) && (b >=? 64) then set_index true s else s)) with (len s) by (destruct (_ && _); reflexivity).
  rewrite (parse_int_encoded _ _ _ _ _ _ Hi Hlen). unfold s1. destruct (b >=? 128); cbn [negb andb]; [reflexivity|].
  destruct (b >=? 64) eqn:E; [replace (b <? 64) with false by lia|replace (b <? 64) with true by lia]; reflexivity.
Qed.

Lemma lookup_reach h t hd i only f : reach h t -> table_lookup t i = Some f -> 0 <= i /\ 
  ngx_http_v2_get_indexed_header memory h hd i only = Some (NGX_OK, if only && (61 <? i) then mk_header (name f) (value hd) else f).
Proof.
  intros Hr Hl. assert (0 <= i) as Hi by (unfold table_lookup in Hl; destruct (i <=? 0) eqn:E; [discriminate|lia]).
  split; [exact Hi|]. rewrite (lookup_refines h t hd i only (reach_refines _ _ Hr) Hi), Hl. reflexivity.
Qed.

(** The next representation begins where the last one ended. *)
Lemma complete_next s bs rest c : len s = zlen bs -> bs <> [] -> leads header_block s (bs ++ rest) c -> leads header_complete s (bs ++ rest) c.
Proof.
  intros Hl Hb [f Hf]. exists (S f). cbn [run step]. unfold ngx_http_v2_state_header_complete.
  destruct bs as [|x bs]; [contradiction|]. replace (len s =? 0) with false by (rewrite Hl; unfold zlen; cbn [length]; lia). exact Hf.
Qed.

(** The value of a literal field whose name is known. *)
Lemma value_read s t (inc : bool) nm v vb rest fl fs lim :
  core s = (fl, false, true, inc, hdr s, lim, true, table s, fs) -> end_headers s = true -> reach (table s) t ->
  name (hdr s) = nm -> field_state s = 0 -> encodes_string max_field v vb -> zlen vb <= len s -> zlen nm + zlen v <= lim <= 0x7fff0000 ->
  exists s', ready s' (if inc then table_insert (mk_header nm v) t else t) (fs ++ [mk_header nm v]) (lim - (zlen nm + zlen v)) /\
    len s' = len s - zlen vb /\ forall c, leads header_complete s' rest c -> leads field_len s (vb ++ rest) c.
Proof.
  intros Ec Hend Ht Hn Hf Hv Hl Hsz. unfold core in Ec. injection Ec as C1 C2 C3 C4 C6 C7 C9.
  destruct (string_read s v vb rest Hv C7 Hf Hend Hl) as (s3 & El3 & Ec3 & Ev3 & Ef3 & Hc3).
  unfold core in Ec3. injection Ec3 as D1 D2 D3 D4 D5 D6 D7 D8 D9.
  destruct (process_keep s3 t inc (mk_header nm v) rest) as (s4 & Hr4 & El4 & Hc4).
  - rewrite D2. exact C2.
  - rewrite D3, C3, D5, Hn, Ev3. reflexivity.
  - rewrite D4. exact C4.
  - rewrite D7. exact C7.
  - unfold end_headers. rewrite D1. exact Hend.
  - exact Ef3.
  - rewrite D8. exact Ht.
  - rewrite D6, C6. exact Hsz.
  - rewrite D6, C6, D9, C9 in Hr4. exists s4. split; [exact Hr4|]. split; [clear -El4 El3; lia|]. intros c H. apply Hc3, Hc4, H.
Qed.

(** A literal representation, *)
Lemma literal_read s t (inc : bool) b l i nm nb v vb rest fs lim : ready s t fs lim ->
  (if inc then 64 <= b < 128 /\ encodes_int 63 i b l else 0 <= b < 32 /\ encodes_int 15 i b l) ->
  encodes_name max_field t i nm nb -> encodes_string max_field v vb -> 1 + zlen l + zlen nb + zlen vb <= len s ->
  zlen nm + zlen v <= lim <= 0x7fff0000 ->
  exists s', ready s' (if inc then table_insert (mk_header nm v) t else t) (fs ++ [mk_header nm v]) (lim - (zlen nm + zlen v)) /\
    len s' = len s - (1 + zlen l + zlen nb + zlen vb) /\
    forall c, leads header_complete s' rest c -> leads header_block s (b :: l ++ nb ++ vb ++ rest) c.
Proof.
  intros [R1 R2 R3 R4 R5 R6 R7 R8 R9] Hb Hnm Hv Hlen Hsz.
  assert (0 <= zlen l /\ 0 <= zlen nb /\ 0 <= zlen vb) as (L1 & L2 & L3) by (unfold zlen; lia).
  assert (exists pr, encodes_int pr i b l /\ pr = (if b >=? 128 then 127 else if b >=? 64 then 63 else if b >=? 32 then 31 else 15) /\
    (b >=? 128) = false /\ (b <? 64) && (b >=? 32) = false /\ (b >=? 64) = inc) as (pr & Hi & Hpr & B1 & B2 & B3).
  { destruct inc; destruct Hb as [Hb Hi]; [exists 63|exists 15]; (split; [exact Hi|]); repeat (if_true || if_false); repeat split; lia. }
  pose proof (block_step s b l i pr (nb ++ vb ++ rest) R1 Hi ltac:(lia) Hpr) as Hst. cbv zeta in Hst. rewrite B1, B2, B3 in Hst. cbn [negb andb] in Hst.
  set (s1 := set_len (len s - (1 + zlen l)) (if inc then set_index true s else s)) in *.
  assert (core s1 = (flags s, false, false, inc, hdr s, lim, true, table s, fs) /\ end_headers s1 = true /\ field_state s1 = 0 /\
    len s1 = len s - (1 + zlen l)) as (Ec & Ee & Ef & El).
  { unfold s1, core. destruct inc; cbn; rewrite R2, R3, R5, R8, R9, ?R4; auto. }
  clearbody s1. unfold core in Ec. injection Ec as A1 A2 A3 A4 A5 A6 A7 A8 A9.
  destruct Hnm as [(-> & Hne & Hnb)|(Hi0 & -> & f & Hf & ->)].
  - cbn [Z.eqb] in Hst. destruct (string_read (set_parse true true s1) nm nb (vb ++ rest) Hnb A7 Ef Ee) as (s2 & El2 & Ec2 & En2 & Ef2 & Hc2); [cbn; clear -El Hlen L1 L2 L3; lia|].
    unfold core in Ec2. cbn in Ec2, El2. injection Ec2 as C1 C2 C3 C4 C5 C6 C7 C8 C9. pose proof (name_step s2 (vb ++ rest) C2 ltac:(congruence)) as Hst2.
    set (s3 := set_hdr _ _) in Hst2. assert (len s3 = len s - (1 + zlen l + zlen nb)) as El3 by (unfold s3; cbn; clear -El El2; lia).
    destruct (value_read s3 t inc nm v vb rest (flags s) fs lim) as (s4 & Hr4 & El4 & Hc4); try assumption.
    + unfold core, s3. cbn. congruence.
    + unfold end_headers, s3. cbn. rewrite C1. exact Ee.
    + unfold s3. cbn. rewrite C8, A8. exact R7.
    + clear -El3 Hlen. lia.
    + exists s4. split; [exact Hr4|]. split; [clear -El4 El3; lia|]. intros c H.
      eapply leads_call; [exact Hst|]. apply Hc2. eapply leads_call; [exact Hst2|]. apply Hc4, H.
  - rewrite (proj2 (Z.eqb_neq i 0) Hi0) in Hst. destruct (lookup_reach _ _ (hdr s) i true f R7 Hf) as [Hpos Eg]. rewrite Eg in Hst. cbn [Z.eqb negb NGX_OK app] in *.
    set (h2 := if true && (61 <? i) then _ else f) in Hst. assert (name h2 = name f) as Eh by (unfold h2; cbn [andb]; destruct (61 <? i); reflexivity). clearbody h2.
    set (s3 := set_parse _ _ _) in Hst. assert (len s3 = len s - (1 + zlen l)) as El3 by (unfold s3; cbn; exact El).
    destruct (value_read s3 t inc (name f) v vb rest (flags s) fs lim) as (s4 & Hr4 & El4 & Hc4); try assumption.
    + unfold core, s3. cbn. congruence.
    + unfold s3. cbn. rewrite A8. exact R7.
    + clear -El3 Hlen L2. lia.
    + exists s4. split; [exact Hr4|]. split; [change (zlen []) with 0; clear -El4 El3; lia|]. intros c H.
      eapply leads_call; [exact Hst|]. apply Hc4, H.
Qed.

(** an indexed one, *)
Lemma indexed_read s t b l i f rest fs lim : ready s t fs lim -> 128 <= b < 256 -> encodes_int 127 i b l -> table_lookup t i = Some f ->
  1 + zlen l <= len s -> zlen (name f) + zlen (value f) <= lim <= 0x7fff0000 ->
  exists s', ready s' t (fs ++ [f]) (lim - (zlen (name f) + zlen (value f))) /\ len s' = len s - (1 + zlen l) /\
    forall c, leads header_complete s' rest c -> leads header_block s (b :: l ++ rest) c.
Proof.
  intros [R1 R2 R3 R4 R5 R6 R7 R8 R9] Hb Hi Hf Hlen Hsz.
  pose proof (block_step s b l i 127 rest R1 Hi ltac:(lia) ltac:(repeat if_true; reflexivity)) as Hst. cbv zeta in Hst.
  replace (b >=? 128) with true in Hst by lia. cbn [negb andb] in Hst.
  destruct (lookup_reach _ _ (hdr s) i false f R7 Hf) as [_ Eg]. rewrite Eg in Hst. cbn [Z.eqb negb NGX_OK andb] in Hst.
  set (s1 := set_hdr f (set_len (len s - (1 + zlen l)) s)) in *.
  destruct (process_keep s1 t false f rest) as (s2 & Hr2 & El2 & Hc2); unfold s1; cbn; auto; [rewrite R3; reflexivity|lia|].
  exists s2. unfold s1 in Hr2. cbn in Hr2. rewrite R8, R9 in Hr2. split; [exact Hr2|]. split; [exact El2|].
  intros c H. eapply leads_call; [exact Hst|]. apply Hc2, H.
Qed.

(** and a change of the limit of the table. *)
Lemma resize_read s t b l n rest fs lim : ready s t fs lim -> 32 <= b < 64 -> encodes_int 31 n b l -> n <= 4096 -> 1 + zlen l <= len s ->
  exists s', ready s' (table_resize n t) fs lim /\ len s' = len s - (1 + zlen l) /\
    forall c, leads header_complete s' rest c -> leads header_block s (b :: l ++ rest) c.
Proof.
  intros [R1 R2 R3 R4 R5 R6 R7 R8 R9] Hb Hi Hn Hlen. pose proof (encodes_int_nonneg 31 n b l ltac:(lia) ltac:(lia) Hi) as Hpos.
  pose proof (block_step s b l n 31 rest R1 Hi ltac:(lia) ltac:(repeat (if_true || if_false); reflexivity)) as Hst. cbv zeta in Hst.
  replace (b >=? 128) with false in Hst by lia. replace (b >=? 64) with false in Hst by lia.
  replace (b <? 64) with true in Hst by lia. replace (b >=? 32) with true in Hst by lia. cbn [negb andb] in Hst.
  destruct (resize_refines (table s) t n (reach_refines _ _ R7) ltac:(lia)) as (h' & Eh & _). rewrite Eh in Hst. cbn [Z.eqb negb NGX_OK] in Hst.
  eexists. split; [|split; [|intros c; apply leads_call; exact Hst]]; [|reflexivity].
  constructor; cbn; auto. eapply reach_size; [exact R7|lia|exact Eh].
Qed.

Lemma text_size_nonneg fs : 0 <= text_size fs.
Proof. induction fs as [|f fs IH]; cbn; [lia|]. fold (text_size fs). unfold zlen. lia. Qed.

Lemma zlen_block (b : Z) (l bs : list Z) : zlen (b :: l ++ bs) = 1 + zlen l + zlen bs /\ 0 <= zlen l /\ 0 <= zlen bs.
Proof. unfold zlen. cbn [length]. rewrite length_app. lia. Qed.

Lemma block_read t bs fs t' : block max_field t bs fs t' -> forall s fs0 lim rest, ready s t fs0 lim ->
  text_size fs <= lim <= 0x7fff0000 -> len s = zlen bs ->
  exists s', leads header_complete s (bs ++ rest) (Done s' rest) /\ fields s' = fs0 ++ fs /\ reach (table s') t'.
Proof.
  intros H. induction H as [t|t b l i f bs fs t' Hb Hi Hf H IH|t b l i inc nm nb v vb bs fs t' Hb Hnm Hv H IH|t b l n bs fs t' Hb Hi Hn H IH];
    intros s fs0 lim rest Hs Hsz Hlen.
  - exists s. destruct Hs. split; [|rewrite app_nil_r; auto]. exists 1%nat. cbn [run step]. unfold ngx_http_v2_state_header_complete.
    rewrite Hlen, ready_end0. reflexivity.
  - cbn [text_size foldr] in Hsz. fold (text_size fs) in Hsz. pose proof (text_size_nonneg fs). destruct (zlen_block b l bs) as (Ez & Z1 & Z2).
    assert (0 <= zlen (name f) /\ 0 <= zlen (value f)) as [] by (unfold zlen; lia).
    destruct (indexed_read s t b l i f (bs ++ rest) fs0 lim Hs Hb Hi Hf ltac:(lia) ltac:(lia)) as (s1 & Hr & El & Hc).
    destruct (IH s1 (fs0 ++ [f]) (lim - (zlen (name f) + zlen (value f))) rest Hr ltac:(lia) ltac:(lia)) as (s' & Hl & Ef & Ht). exists s'. rewrite <-app_assoc in Ef. split; [|split; [exact Ef|exact Ht]].
    apply complete_next; [exact Hlen|discriminate|]. cbn [app]. rewrite <-app_assoc. apply Hc, Hl.
  - cbn [text_size foldr name value] in Hsz. fold (text_size fs) in Hsz. pose proof (text_size_nonneg fs). assert (0 <= zlen nm /\ 0 <= zlen v) as [] by (unfold zlen; lia).
    assert (zlen (b :: l ++ nb ++ vb ++ bs) = 1 + zlen l + zlen nb + zlen vb + zlen bs /\ 0 <= zlen bs) as [Ez Z1] by (unfold zlen; cbn [length]; rewrite !length_app; lia).
    destruct (literal_read s t inc b l i nm nb v vb (bs ++ rest) fs0 lim Hs Hb Hnm Hv ltac:(lia) ltac:(lia)) as (s1 & Hr & El & Hc).
    destruct (IH s1 (fs0 ++ [mk_header nm v]) (lim - (zlen nm + zlen v)) rest Hr ltac:(lia) ltac:(lia)) as (s' & Hl & Ef & Ht). exists s'. rewrite <-app_assoc in Ef. split; [|split; [exact Ef|exact Ht]].
    apply complete_next; [exact Hlen|discriminate|]. cbn [app]. rewrite <-!app_assoc. apply Hc, Hl.
  - destruct (zlen_block b l bs) as (Ez & Z1 & Z2).
    destruct (resize_read s t b l n (bs ++ rest) fs0 lim Hs Hb Hi Hn ltac:(lia)) as (s1 & Hr & El & Hc).
    destruct (IH s1 fs0 lim rest Hr Hsz ltac:(lia)) as (s' & Hl & Ef & Ht). exists s'. split; [|split; [exact Ef|exact Ht]].
    apply complete_next; [exact Hlen|discriminate|]. cbn [app]. rewrite <-app_assoc. apply Hc, Hl.
Qed.

End Decode.

Lemma octets_bytes l v : octets l v -> bytes l.
Proof. intros H. induction H as [o Ho|o l v Ho H IH]; constructor; try constructor; unfold is_byte; (lia || assumption). Qed.

Lemma encodes_int_bytes prefix v b l : encodes_int prefix v b l -> bytes l.
Proof. intros [(-> & _)|(_ & _ & w & Hw & _)]; [constructor|exact (octets_bytes l w Hw)]. Qed.

Lemma encodes_string_bytes limit str enc : encodes_string limit str enc -> bytes enc.
Proof.
  intros (b & l & payload & -> & Hb & Hi & _ & Hp & _). constructor; [exact Hb|]. apply bytes_app; [exact (encodes_int_bytes _ _ _ _ Hi)|exact Hp].
Qed.

Lemma block_bytes limit t bs fs t' : block limit t bs fs t' -> bytes bs.
Proof.
  intros H. induction H as [t|t b l i f bs fs t' Hb Hi Hf H IH|t b l i inc nm nb v vb bs fs t' Hb Hnm Hv H IH|t b l n bs fs t' Hb Hi Hn H IH].
  - constructor.
  - constructor; [unfold is_byte; lia|]. apply bytes_app; [exact (encodes_int_bytes _ _ _ _ Hi)|exact IH].
  - assert (is_byte b /\ bytes l) as [Hb' Hl] by (destruct inc; destruct Hb as [Hb Hi%encodes_int_bytes]; (split; [unfold is_byte; lia|exact Hi])).
    constructor; [exact Hb'|]. apply bytes_app; [exact Hl|]. apply bytes_app.
    + destruct Hnm as [(_ & _ & Hs%encodes_string_bytes)|(_ & -> & _)]; [exact Hs|constructor].
    + apply bytes_app; [exact (encodes_string_bytes _ _ _ Hv)|exact IH].
  - constructor; [unfold is_byte; lia|]. apply bytes_app; [exact (encodes_int_bytes _ _ _ _ Hi)|exact IH].
Qed.

(** The whole block in one frame, in any pieces. *)
Lemma block_decoded `{P : Platform} max_field t tbl bs fs tbl' pad fl id limit rest l chunks :
  reach t tbl -> block max_field tbl bs fs tbl' -> bs <> [] -> text_size fs <= limit <= 0x7fff0000 -> 0 <= pad ->
  negb (Z.land fl NGX_HTTP_V2_END_HEADERS_FLAG =? 0) = true -> bytes rest ->
  Forall (fun l => bytes l /\ l <> []) (l :: chunks) -> concat (l :: chunks) = bs ++ rest ->
  exists s, recv_all memory max_field keep_all (Wait header_block (headers_frame (zlen bs) pad fl id limit t) []) (l :: chunks) = Some (Done s rest) /\
    fields s = fs /\ reach (table s) tbl'.
Proof.
  intros Ht Hb Hne Hsz Hp Hfl Hr Hch Ec. set (s0 := headers_frame (zlen bs) pad fl id limit t).
  pose proof (text_size_nonneg fs) as Hnn.
  assert (fit_state s0 []) as Hf by (constructor; cbn; [unfold zlen; lia|exact Hp|lia|lia|exists tbl; apply reach_refines, Ht|constructor]).
  destruct (block_read max_field tbl bs fs tbl' Hb s0 [] limit rest) as (s' & [f Hl] & Ef & Ht');
    [constructor; auto|exact Hsz|reflexivity|]. exists s'. split; [|split; [exact Ef|exact Ht']].
  inversion Hch as [|x y [Hbl _] Hch' Exy]; subst x y.
  rewrite recv_pieces; [|exact Hbl|exact Hch'|split; [exact Hf|cbn; lia]]. rewrite Ec. cbn [recv app].
  assert (fit_state s0 (bs ++ rest)) as Hf' by (apply (fit_app s0 []); [exact Hf|apply bytes_app; [exact (block_bytes _ _ _ _ _ Hb)|exact Hr]]).
  apply leads_run; [exact Hf'|]. destruct f as [|f]; [discriminate|]. exists f. cbn [run step] in Hl. unfold ngx_http_v2_state_header_complete in Hl.
  destruct bs as [|x bs]; [contradiction|]. replace (len s0 =? 0) with false in Hl by (unfold s0, zlen; cbn [length len headers_frame]; lia).
  exact Hl.
Qed.

(** C20: Every header block that RFC 7541 gives a meaning to is decoded to it:
    indexed fields, literal fields with names from the table or of their own,
    with strings as they are or in the Huffman code, and changes of the size
    of the table give exactly the fields that they stand for, in order, and
    leave the table of the connection as the list they make of it, within the
    limits of the configuration and however the block arrives. *)
Theorem header_block_decodes `{P : Platform} max_field t tbl bs fs tbl' pad fl id limit rest l chunks :
  reach t tbl -> block max_field tbl bs fs tbl' -> bs <> [] -> text_size fs <= limit <= 0x7fff0000 -> 0 <= pad ->
  negb (Z.land fl NGX_HTTP_V2_END_HEADERS_FLAG =? 0) = true -> bytes rest ->
  Forall (fun l => bytes l /\ l <> []) (l :: chunks) -> concat (l :: chunks) = bs ++ rest ->
  exists s, recv_all memory max_field keep_all (Wait header_block (headers_frame (zlen bs) pad fl id limit t) []) (l :: chunks) = Some (Done s rest) /\
    fields s = fs /\ reach (table s) tbl'.
Proof. apply block_decoded. Qed.

(** ** What the encoder writes *)

Lemma write_loop_octets f k v : 0 <= v < 128 ^ Z.of_nat k -> (0 < k <= f)%nat -> octets (write_loop f v) v /\ (length (write_loop f v) <= k)%nat.
Proof.
  revert k v. induction f as [|f IH]; intros k v Hv Hk; [lia|]. cbn [write_loop]. destruct (v >=? 128) eqn:E.
  - destruct k as [|k]; [lia|]. rewrite Nat2Z.inj_succ, Z.pow_succ_r in Hv by lia. destruct k as [|k]; [change (128 ^ Z.of_nat 0) with 1 in Hv; lia|].
    destruct (IH (S k) (v / 128)) as [H1 H2]; [split; [apply Z.div_pos; lia|apply Z.div_lt_upper_bound; lia]|lia|]. split; [|cbn [length]; lia].
    replace v with (v mod 128 + 128 - 128 + 128 * (v / 128)) at 3 by (pose proof (Z.div_mod v 128); lia).
    apply octets_more; [pose proof (Z.mod_pos_bound v 128); lia|exact H1].
  - split; [apply octets_last; lia|cbn; lia].
Qed.

Lemma write_int_encodes first v : first = 0 \/ first = 128 -> 0 <= v < 127 + 2 ^ 21 ->
  exists b l, ngx_http_v2_write_int first 127 v = b :: l /\ is_byte b /\ (128 <= b <-> first = 128) /\ encodes_int 127 v b l.
Proof.
  intros Hf Hv. unfold ngx_http_v2_write_int.
  assert (forall w, 0 <= w <= 127 -> Z.lor first w = first + w /\ Z.land (first + w) 127 = w) as Hl.
  { intros w Hw. assert (first = (first / 128) * 2 ^ 7) as E by (destruct Hf; subst; reflexivity). split.
    - rewrite E at 1. rewrite lor_disjoint by lia. lia.
    - rewrite (land_ones_mod _ 127 7) by (reflexivity || lia). change (2 ^ 7) with 128. destruct Hf; subst; div_lia. }
  destruct (v <? 127) eqn:E.
  - destruct (Hl v ltac:(lia)) as [-> E2]. exists (first + v), []. split; [reflexivity|]. split; [unfold is_byte; lia|]. split; [lia|]. left. split; [reflexivity|]. split; [exact E2|lia].
  - destruct (Hl 127 ltac:(lia)) as [-> E2]. destruct (write_loop_octets 10 3 (v - 127)) as [H1 H2]; [change (128 ^ Z.of_nat 3) with (2 ^ 21); lia|lia|].
    do 2 eexists. split; [reflexivity|]. split; [unfold is_byte; lia|]. split; [lia|]. right. split; [exact E2|]. split; [lia|]. exists (v - 127). split; [exact H1|lia].
Qed.

Lemma tolower_byte c : is_byte c -> is_byte (ngx_tolower c).
Proof. intros H. apply (table_word true c H). Qed.

Lemma string_encode_encodes `{P : Platform} limit str lower : bytes str -> zlen str <= limit -> limit < 127 + 2 ^ 21 ->
  encodes_string limit (map (case_of lower) str) (ngx_http_v2_string_encode str lower).
Proof.
  intros Hb Hl Hlim. assert (0 <= zlen str) as H0 by (unfold zlen; lia).
  assert (bytes (map (case_of lower) str)) as Hc by (apply (words_codes lower str Hb)).
  assert (encodes_string limit (map (case_of lower) str) (ngx_http_v2_write_int NGX_HTTP_V2_ENCODE_RAW (ngx_http_v2_prefix 7) (zlen str)
      ++ (if lower then ngx_strlow str else str))) as Hraw.
  { destruct (write_int_encodes 0 (zlen str) (or_introl eq_refl) ltac:(lia)) as (b & l & E & Hbb & Hf & Hi).
    change NGX_HTTP_V2_ENCODE_RAW with 0. change (ngx_http_v2_prefix 7) with 127. rewrite E.
    assert ((if lower then ngx_strlow str else str) = map (case_of lower) str) as -> by (destruct lower; [reflexivity|symmetry; apply map_id]).
    exists b, l, (map (case_of lower) str). assert (zlen (map (case_of lower) str) = zlen str) as -> by (unfold zlen; rewrite length_map; reflexivity).
    repeat (split; [assumption || reflexivity|]). left. split; [lia|reflexivity]. }
  unfold ngx_http_v2_string_encode. pose proof (encode_whole lower str Hb) as He. destruct (ngx_http_huff_encode str lower) as [dst|]; [|exact Hraw].
  destruct (0 <? zlen dst) eqn:Ed; [|exact Hraw]. destruct He as (Hdb & Hds & pad & Ep & Hp1 & Hp2).
  assert (zlen dst <= limit) as Hdl.
  { unfold zlen in *. destruct Hds as [->|Hds]; [|lia]. apply (f_equal (@length bool)) in Ep. rewrite huff_bits_length in Ep. cbn in Ep. lia. }
  destruct (write_int_encodes 128 (zlen dst) (or_intror eq_refl) ltac:(lia)) as (b & l & E & Hbb & Hf & Hi).
  change NGX_HTTP_V2_ENCODE_HUFF with 128. change (ngx_http_v2_prefix 7) with 127. rewrite E. exists b, l, dst.
  repeat (split; [assumption || reflexivity|]). right. split; [apply Hf; reflexivity|]. exists pad. split; [exact Ep|]. split; [exact Hp1|lia].
Qed.

(** A field as the header filter writes it: a literal without indexing, with
    a name of its own. *)
Definition write_field `{P : Platform} (key val : list Z) : list Z :=
  0 :: ngx_http_v2_string_encode key true ++ ngx_http_v2_string_encode val false.

Definition NGX_HTTP_V2_MAX_FIELD : Z := 127 + Z.shiftl 1 ((NGX_HTTP_V2_INT_OCTETS - 1) * 7) - 1.

Lemma write_fields_block `{P : Platform} limit t l : limit <= NGX_HTTP_V2_MAX_FIELD ->
  Forall (fun kv => bytes (fst kv) /\ bytes (snd kv) /\ fst kv <> [] /\ zlen (fst kv) <= limit /\ zlen (snd kv) <= limit) l ->
  block limit t (flat_map (fun kv => write_field (fst kv) (snd kv)) l) (map (fun kv => mk_header (map ngx_tolower (fst kv)) (snd kv)) l) t.
Proof.
  intros Hlim H. change NGX_HTTP_V2_MAX_FIELD with (127 + 2 ^ 21 - 1) in Hlim. induction H as [|[k v] l (Hk & Hv & Hne & Hlk & Hlv) H IH]; [constructor|].
  cbn [flat_map map fst snd] in *. unfold write_field. cbn [app]. rewrite <-app_assoc.
  apply (block_literal limit t 0 [] 0 false _ (ngx_http_v2_string_encode k true) _ (ngx_http_v2_string_encode v false)).
  - split; [lia|]. left. split; [reflexivity|]. split; [reflexivity|discriminate].
  - left. split; [reflexivity|]. split; [destruct k; [contradiction|discriminate]|]. apply (string_encode_encodes limit k true); (assumption || lia).
  - rewrite <-(map_id v) at 1. apply (string_encode_encodes limit v false); (assumption || lia).
  - exact IH.
Qed.

(** The fields of a response that the HTTP/2 header filter writes as
    literals are what a decoder of header blocks reads back, names in lower
    case: the integers, the choice between the Huffman code and the string as
    it is, and the strings agree, for every name and value that the encoding
    allows. *)
Theorem literal_fields_roundtrip `{P : Platform} max_field t tbl l0 pad fl id limit rest chunk chunks :
  reach t tbl -> max_field <= NGX_HTTP_V2_MAX_FIELD -> l0 <> [] ->
  Forall (fun kv => bytes (fst kv) /\ bytes (snd kv) /\ fst kv <> [] /\ zlen (fst kv) <= max_field /\ zlen (snd kv) <= max_field) l0 ->
  let fs := map (fun kv => mk_header (map ngx_tolower (fst kv)) (snd kv)) l0 in
  let bs := flat_map (fun kv => write_field (fst kv) (snd kv)) l0 in
  text_size fs <= limit <= 0x7fff0000 -> 0 <= pad -> negb (Z.land fl NGX_HTTP_V2_END_HEADERS_FLAG =? 0) = true -> bytes rest ->
  Forall (fun l => bytes l /\ l <> []) (chunk :: chunks) -> concat (chunk :: chunks) = bs ++ rest ->
  exists s, recv_all memory max_field keep_all (Wait header_block (headers_frame (zlen bs) pad fl id limit t) []) (chunk :: chunks) = Some (Done s rest) /\
    fields s = fs /\ reach (table s) tbl.
Proof.
  intros Ht Hm Hl0 Hl fs bs Hsz Hp Hfl Hr Hch Ec. pose proof (write_fields_block max_field tbl l0 Hm Hl) as Hb. fold fs bs in Hb.
  apply (block_decoded max_field t tbl bs fs tbl pad fl id limit rest chunk chunks); try assumption.
  unfold bs. destruct l0; [contradiction|discriminate].
Qed.

Lemma bytes_check l : forallb (fun c => (0 <=? c) && (c <? 256)) l = true -> bytes l.
Proof. intros H. apply List.Forall_forall. intros c Hc. rewrite forallb_forall in H. apply H in Hc. unfold is_byte. lia. Qed.

Ltac byte_list := apply bytes_check; vm_compute; reflexivity.

Lemma header_block_decodes_witness : exists s,
  @recv_all lp64 memory 8192 keep_all (Wait header_block (headers_frame 3 0 4 1 32768 hpack_init) []) [[0x82]; [0x20; 0x84]] = Some (Done s []) /\
  fields s = [static_field ":method" "GET"; static_field ":path" "/"]%string.
Proof.
  destruct (@header_block_decodes lp64 8192 hpack_init table_init [0x82; 0x20; 0x84]
    [static_field ":method" "GET"; static_field ":path" "/"]%string table_init 0 4 1 32768 [] [0x82] [[0x20; 0x84]]) as (s & E & Ef & _).
  - apply reach_init.
  - apply (block_indexed 8192 table_init 0x82 [] 2); [lia|left; repeat split; discriminate|reflexivity|].
    apply (block_resize 8192 table_init 0x20 [] 0); [lia|left; repeat split; discriminate|lia|].
    apply (block_indexed 8192 _ 0x84 [] 4); [lia|left; repeat split; discriminate|reflexivity|]. apply block_end.
  - discriminate.
  - vm_compute. split; discriminate.
  - lia.
  - reflexivity.
  - constructor.
  - constructor; [split; [byte_list|discriminate]|]. constructor; [split; [byte_list|discriminate]|]. constructor.
  - reflexivity.
  - exists s. split; [exact E|exact Ef].
Defined.

Lemma literal_fields_roundtrip_witness :
  let b := @write_field lp64 (bs "X-Forwarded") (bs "a") in
  exists s, @recv_all lp64 memory 8192 keep_all (Wait header_block (headers_frame (zlen b) 0 4 1 32768 hpack_init) []) [b] = Some (Done s []) /\
    fields s = [mk_header (bs "x-forwarded") (bs "a")].
Proof.
  intros b. destruct (@literal_fields_roundtrip lp64 8192 hpack_init table_init [(bs "X-Forwarded", bs "a")] 0 4 1 32768 [] b []) as (s & E & Ef & _).
  - apply reach_init.
  - vm_compute. discriminate.
  - discriminate.
  - constructor; [|constructor]. cbn [fst snd]. split; [byte_list|]. split; [byte_list|]. split; [discriminate|]. split; vm_compute; discriminate.
  - vm_compute. split; discriminate.
  - lia.
  - reflexivity.
  - constructor.
  - constructor; [split; [byte_list|vm_compute; discriminate]|constructor].
  - vm_compute. reflexivity.
  - exists s. replace (zlen b) with (zlen (flat_map (fun kv => @write_field lp64 (fst kv) (snd kv)) [(bs "X-Forwarded", bs "a")])) by (vm_compute; reflexivity).
    split; [exact E|exact Ef].
Defined.

(** ** Room for the strings *)

Section Room.
Context `{P : Platform}.
Variable ok : site -> bool.
Variable max_field : Z.
Variable request : list header -> verdict.

(** The calls of handlers on a connection, with every input. *)
Inductive visits (s0 : state_t) : handler -> state_t -> list Z -> Prop :=
  | visits_start l : bytes l -> visits s0 header_block s0 l
  | visits_call h s b h' s' b' : visits s0 h s b -> step ok max_field request h s b = Call h' s' b' -> visits s0 h' s' b'
  | visits_return h s b h' s' b' : visits s0 h s b -> step ok max_field request h s b = Return h' s' b' -> visits s0 h' s' b'
  | visits_save h s b h' s' b' l : visits s0 h s b -> step ok max_field request h s b = Save h' s' b' -> bytes l -> visits s0 h' s' (b' ++ l).

(** The bytes of a Huffman string read so far give what is in the buffer. *)
Definition in_room (h : handler) (s : state_t) : Prop :=
  match h with
  | field_huff => exists src, bytes src /\ ngx_http_huff_decode 0 src false = (NGX_OK, field_state s, field s) /\
      room s = (zlen src + field_rest s) * 8 / 5 + 1
  | field_raw => field_state s = 0 /\ room s = zlen (field s) + field_rest s + 1
  | _ => field_state s = 0
  end.

Definition next_room (n : next) : Prop :=
  match n with Call h s _ | Return h s _ | Save h s _ => in_room h s | _ => True end.

Lemma frame_room h x pad fl s : in_room h (set_frame x pad fl s) <-> in_room h s.
Proof. destruct h; reflexivity. Qed.

Lemma save_room h s buf : in_room h s -> next_room (ngx_http_v2_state_save s buf h).
Proof. intros H. unfold ngx_http_v2_state_save. destruct (_ >? _); [exact I|exact H]. Qed.

Lemma continuation_room h s buf : in_room h s -> next_room (ngx_http_v2_handle_continuation s buf h).
Proof.
  intros H. unfold ngx_http_v2_handle_continuation. cbv zeta. destruct (zlen _ <? _); [apply save_room, frame_room, H|].
  destruct (negb _); [exact I|]. destruct (negb _); [exact I|]. apply frame_room, frame_room, H.
Qed.

Lemma after_room h s buf : rank h = 3%nat -> (field_rest s = 0 -> field_state s = 0) -> (field_rest s <> 0 -> in_room h s) ->
  next_room (after_field h s buf).
Proof.
  intros Hh H0 H1. unfold after_field. destruct (field_rest s =? 0) eqn:E; [apply H0; lia|].
  destruct (negb (len s =? 0)); [apply save_room, H1; lia|]. destruct (end_headers s); [exact I|]. apply continuation_room, H1. lia.
Qed.

(** Bytes of the field that are decoded, at their end or before it. *)
Lemma huff_more src st f part last : bytes src -> bytes part -> ngx_http_huff_decode 0 src false = (NGX_OK, st, f) ->
  let '(rc, st', o) := ngx_http_huff_decode st part last in
  (5 * length (f ++ o) <= 8 * length (src ++ part))%nat /\ (rc = NGX_OK -> last = true -> st' = 0) /\
  (rc = NGX_OK -> last = false -> ngx_http_huff_decode 0 (src ++ part) false = (NGX_OK, st', f ++ o)).
Proof.
  intros Hs Hp E. destruct part as [|x part].
  - cbn. rewrite !app_nil_r. pose proof (decode_room src false _ _ _ Hs E) as [_ Hr].
    destruct last; (split; [rewrite ?app_nil_r; exact Hr|]); (split; [intros; auto; discriminate|]); intros _ H; try discriminate; rewrite ?app_nil_r; exact E.
  - pose proof (huff_decode_app 0 src (x :: part) last ltac:(discriminate)) as Ea. rewrite E in Ea. cbn [Z.eqb NGX_OK] in Ea.
    destruct (ngx_http_huff_decode st (x :: part) last) as [[rc st'] o] eqn:Ed.
    pose proof (decode_room (src ++ x :: part) last _ _ _ (bytes_app _ _ Hs Hp) Ea) as [_ Hr]. split; [exact Hr|]. split.
    + intros -> ->. unfold ngx_http_huff_decode in Ed. destruct (decode_loop _ _) as [d okd]. destruct okd; cbn [negb] in Ed; [|discriminate].
      destruct (ends d =? 0); [discriminate|]. congruence.
    + intros -> ->. exact Ea.
Qed.

Lemma step_room h s buf : fit_state s buf -> in_room h s -> next_room (step ok max_field request h s buf).
Proof.
  intros Hf H. pose proof Hf as [F1 F2 F3 F4 F5 F6]. destruct (decide (rank h = 3%nat)) as [Hh|Hh].
  - rewrite field_step by exact Hh. cbv zeta. pose proof (field_size_bounds s buf Hf) as (B1 & B2 & B3 & B4). set (n := field_size s buf) in *.
    assert (bytes (take (Z.to_nat n) buf)) as Hb by (apply bytes_take, F6).
    assert (zlen (take (Z.to_nat n) buf) = n) as Hz by (unfold zlen in *; rewrite length_take; lia).
    destruct h; try discriminate Hh; cbn [eat in_room] in *.
    + destruct H as (src & Hs & E & Er). pose proof (huff_more src _ _ (take (Z.to_nat n) buf) (field_rest (consume n s) =? 0) Hs Hb E) as Hm.
      change (field_state (consume n s)) with (field_state s). destruct (ngx_http_huff_decode (field_state s) _ _) as [[rc st] o]. destruct Hm as (_ & Hm1 & Hm2).
      destruct (rc =? NGX_OK) eqn:Erc; cbn [negb]; [|exact I]. apply Z.eqb_eq in Erc. apply after_room; [reflexivity| |]; cbn [field_rest field_state set_field consume set_room set_len].
      * intros H0. apply Hm1; [exact Erc|]. cbn. lia.
      * intros H0. exists (src ++ take (Z.to_nat n) buf). split; [apply bytes_app; assumption|]. split; [apply Hm2; [exact Erc|cbn; lia]|].
        cbn [room field_rest set_field consume set_room set_len]. rewrite zlen_app, Hz, Er. do 3 f_equal. lia.
    + destruct H as [H0 Er]. apply after_room; [reflexivity|intros _; exact H0|]. intros _. cbn. split; [exact H0|]. rewrite zlen_app, Hz. lia.
    + apply after_room; [reflexivity|intros _; exact H|]. intros _. exact H.
  - destruct h; try (destruct (Hh eq_refl)); cbn [step in_room] in *; clear Hh.
    + unfold ngx_http_v2_state_header_block. destruct buf as [|ch p]; [apply save_room; exact H|].
      destruct (negb (end_headers s) && _); [apply continuation_room; exact H|].
      set (s1 := if (_ : bool) then set_index true s else s). assert (field_state s1 = 0) as H1 by (unfold s1; destruct (negb (ch >=? 128) && (ch >=? 64)); exact H). clearbody s1.
      destruct (ngx_http_v2_parse_int _ _ _) as [v rest n|rc].
      * repeat match goal with |- next_room (match ?x with _ => _ end) => destruct x; try exact I; try exact H1 end.
      * destruct (rc =? NGX_AGAIN); [apply save_room; exact H1|]. destruct (rc =? NGX_DECLINED); exact I.
    + unfold ngx_http_v2_state_field_len. destruct (negb (end_headers s) && _); [apply continuation_room; exact H|]. destruct (len s <? 1); [exact I|].
      destruct buf as [|b p] eqn:Eb; [apply save_room; exact H|]. destruct (ngx_http_v2_parse_int _ _ _) as [n rest l|rc].
      * destruct (n >? max_field); [exact I|]. destruct (negb _ && negb _); [exact H|]. destruct (negb (ok _)); [exact I|]. destruct (negb (Z.shiftr b 7 =? 0)); cbn.
        -- exists []. split; [constructor|]. split; [rewrite H; reflexivity|]. reflexivity.
        -- split; [exact H|]. unfold zlen. cbn. lia.
      * destruct (rc =? NGX_AGAIN); [apply save_room; exact H|]. destruct (rc =? NGX_DECLINED); exact I.
    + unfold ngx_http_v2_state_process_header. destruct (parse_name s); [destruct (_ =? 0); [exact I|exact H]|].
      set (s1 := if parse_value s then _ else s). assert (field_state s1 = 0) as H1 by (unfold s1; destruct (parse_value s); exact H). clearbody s1.
      unfold deliver. destruct (_ >? _); [exact I|]. set (s2 := set_limit _ s1). assert (field_state s2 = 0) as H2 by exact H1. clearbody s2.
      destruct (index s2); [destruct (ngx_http_v2_add_header _ _ _) as [[rc t]|]; [|exact I]; destruct (negb _); [exact I|]|].
      * destruct (negb _); [exact H2|]. destruct (request _); [exact H2|exact H2|exact I].
      * destruct (negb _); [exact H2|]. destruct (request _); [exact H2|exact H2|exact I].
    + unfold ngx_http_v2_state_header_complete. destruct (negb (len s =? 0)); [destruct buf; [apply save_room; exact H|exact H]|].
      destruct (negb _); [apply continuation_room; exact H|exact I].
Qed.

Lemma visits_room s0 h s b : fit_state s0 [] -> field_state s0 = 0 -> visits s0 h s b -> fit_state s b /\ in_room h s.
Proof.
  intros Hf H0 H. induction H as [l Hl|h s b h' s' b' H [IH1 IH2] E|h s b h' s' b' H [IH1 IH2] E|h s b h' s' b' l H [IH1 IH2] E Hl];
    try (pose proof (step_progress ok max_field request h s b IH1) as Hp; pose proof (step_room h s b IH1 IH2) as Hr; rewrite E in Hp, Hr; cbn in Hp, Hr).
  - split; [apply (fit_app s0 []); assumption|exact H0].
  - split; [apply Hp|exact Hr].
  - split; [apply Hp|exact Hr].
  - split; [apply fit_app; [apply Hp|exact Hl]|exact Hr].
Qed.

End Room.

(** C22: The strings of a header block stay within the buffers allocated for
    them: whatever the frames and the input, the Huffman decoder writes, even
    when it then finds an error, and the copy of a string as it is writes, at
    most what ngx_http_v2_state_field_len() allocated less the NUL that ends
    the string. *)
Theorem field_buffer_bound `{P : Platform} ok max_field request n pad fl id limit t tbl s buf :
  0 <= n -> 0 <= pad -> 0 <= limit <= 0x7fff0000 -> reach t tbl ->
  (visits ok max_field request (headers_frame n pad fl id limit t) field_huff s buf ->
     let '(_, _, o) := ngx_http_huff_decode (field_state s) (take (Z.to_nat (field_size s buf)) buf) (field_rest s - field_size s buf =? 0) in
     zlen (field s ++ o) + 1 <= room s) /\
  (visits ok max_field request (headers_frame n pad fl id limit t) field_raw s buf ->
     zlen (field s ++ take (Z.to_nat (field_size s buf)) buf) + 1 <= room s).
Proof.
  intros Hn Hp Hl Ht. set (s0 := headers_frame n pad fl id limit t).
  assert (fit_state s0 []) as Hf by (constructor; cbn; [lia|exact Hp|lia|lia|exists tbl; apply reach_refines, Ht|constructor]).
  split; intros Hv; destruct (visits_room ok max_field request s0 _ s buf Hf eq_refl Hv) as [Hs Hr]; cbn [in_room] in Hr;
    pose proof (field_size_bounds s buf Hs) as (B1 & B2 & B3 & B4); pose proof (fit_bytes _ _ Hs) as Hb; pose proof (fit_rest _ _ Hs);
    assert (zlen (take (Z.to_nat (field_size s buf)) buf) = field_size s buf) as Hz by (unfold zlen in *; rewrite length_take; lia).
  - destruct Hr as (src & Hsrc & E & Er).
    pose proof (huff_more src _ _ (take (Z.to_nat (field_size s buf)) buf) (field_rest s - field_size s buf =? 0) Hsrc (bytes_take _ _ Hb) E) as Hm.
    destruct (ngx_http_huff_decode (field_state s) _ _) as [[rc st] o]. destruct Hm as [Hm _].
    rewrite Er. rewrite !length_app in Hm. unfold zlen in *. rewrite length_app. assert (0 <= Z.of_nat (length src)) by lia.
    apply Zplus_le_compat_r, Z.div_le_lower_bound; [lia|]. lia.
  - destruct Hr as [_ Er]. rewrite zlen_app, Hz, Er. lia.
Qed.

(** The state after the first two bytes of the value of a field. *)
Lemma field_buffer_bound_witness :
  exists s, field s = [] /\ room s = 20 /\ zlen (field s ++ snd (ngx_http_huff_decode (field_state s) [0xf1; 0xe3] false)) + 1 <= room s.
Proof.
  set (s0 := headers_frame 14 0 4 1 32768 hpack_init).
  assert (exists s, @visits lp64 memory 8192 keep_all s0 field_huff s [0xf1; 0xe3] /\
    field s = [] /\ room s = 20 /\ field_size s [0xf1; 0xe3] = 2 /\ field_rest s = 12) as (s & Hv & E1 & E2 & E3 & E4).
  - set (s1 := set_parse false true (set_hdr (mk_header (bs ":authority") []) (set_index true (set_len 13 s0)))).
    exists (set_room 20 12 (set_field 0 [] (set_len 12 s1))). split; [|vm_compute; repeat split].
    apply (visits_call _ _ _ _ field_len s1 [0x8c; 0xf1; 0xe3]); [|vm_compute; reflexivity].
    apply (visits_call _ _ _ _ header_block s0 [0x41; 0x8c; 0xf1; 0xe3]); [apply visits_start; byte_list|vm_compute; reflexivity].
  - destruct (@field_buffer_bound lp64 memory 8192 keep_all 14 0 4 1 32768 hpack_init table_init s [0xf1; 0xe3]) as [H _];
      [lia|lia|lia|apply reach_init|].
    exists s. split; [exact E1|]. split; [exact E2|]. specialize (H Hv). rewrite E3, E4 in H. change (take _ _) with [0xf1; 0xe3] in H.
    change (_ =? _) with false in H. destruct (ngx_http_huff_decode _ _ _) as [[rc st] o]. exact H.
Defined.

End Hpack.
