(* ===== verification/HttpV2Request.v ===== *)
(** * Requests of HTTP/2

    What [src/http/v2/ngx_http_v2.c] makes of the fields of a header block:
    the validation of names and values, the pseudo-headers, the cookies, and
    the request line and the cookie header that are built at the end of the
    block.  It is the parameter of HttpHpack: the theorem about requests is
    stated on the decoder of header blocks with this request.  The handlers of
    the known headers, which belong to the modules of the request, and the
    memory are parameters; ngx_http_process_host() of
    [src/http/ngx_http_request.c], the handler of the header "host", to which
    the pseudo-header ":authority" is given, is modelled apart. *)

From Stdlib Require Import Ascii String ZArith Lia ZifyBool.
From stdpp Require Import base option tactics list.
From S2P Require Import Prelude HttpRequest HttpUri HttpHuffTables HttpHuffman HttpV2Table HttpHpack.
Import V2Table(header, mk_header, name, value, site, memory, hpack, hpack_init, ngx_http_v2_add_header).
Import Hpack.

Local Open Scope Z_scope.

Module V2Request.

(** The fields of [ngx_http_request_t] and of its stream that are set;
    [uri] holds the strings of ngx_http_process_request_uri(), [unparsed_uri]
    among them; [cookies] is [None] for a null pointer. *)
Record request := mk_req {
  method_name : list Z; method : Z; schema : list Z; uri : option RequestUri.uri_fields;
  headers : list header; cookies : option (list (list Z))
}.

Definition new : request := mk_req [] NGX_HTTP_UNKNOWN [] None [] None.

Definition unparsed_uri (r : request) : list Z :=
  match uri r with Some f => RequestUri.f_unparsed_uri f | None => [] end.

Definition set_method_name (x : list Z) (r : request) : request := mk_req x (method r) (schema r) (uri r) (headers r) (cookies r).
Definition set_method (x : Z) (r : request) : request := mk_req (method_name r) x (schema r) (uri r) (headers r) (cookies r).
Definition set_schema (x : list Z) (r : request) : request := mk_req (method_name r) (method r) x (uri r) (headers r) (cookies r).
Definition set_uri (x : option RequestUri.uri_fields) (r : request) : request :=
  mk_req (method_name r) (method r) (schema r) x (headers r) (cookies r).
Definition add_header (h : header) (r : request) : request :=
  mk_req (method_name r) (method r) (schema r) (uri r) (headers r ++ [h]) (cookies r).
Definition set_cookies (x : option (list (list Z))) (r : request) : request :=
  mk_req (method_name r) (method r) (schema r) (uri r) (headers r) x.

Section Request.
(** Of the server, which the header "host" chooses. *)
Variables underscores_in_headers ignore_invalid_headers merge_slashes : request -> bool.
(** [hh->handler] of the headers that have one, and the success of
    ngx_list_push() and ngx_array_push(). *)
Variable header_handler : request -> header -> bool.
Variables push_header push_cookie : request -> bool.

(** ** Validation *)

(** The bytes of a name: [None] is an error, else [r->invalid_header]. *)
Fixpoint validate_name (underscores : bool) (l : list Z) (invalid : bool) : option bool :=
  match l with
  | [] => Some invalid
  | ch :: l =>
      if ((ch >=? chr "a") && (ch <=? chr "z")) || (ch =? chr "-") || ((ch >=? chr "0") && (ch <=? chr "9"))
         || ((ch =? chr "_") && underscores)
      then validate_name underscores l invalid
      else if (ch <=? 0x20) || (ch =? 0x7f) || (ch =? chr ":") || ((ch >=? chr "A") && (ch <=? chr "Z")) then None
      else validate_name underscores l true
  end.

Fixpoint validate_value (l : list Z) : bool :=
  match l with
  | [] => true
  | ch :: l => if (ch =? 0) || (ch =? LF) || (ch =? CR) then false else validate_value l
  end.

(** The strings end with a NUL, which the first byte of an empty name is. *)
Definition ngx_http_v2_validate_header (r : request) (h : header) : option bool :=
  match validate_name (underscores_in_headers r) (if hd 0 (name h) =? chr ":" then tl (name h) else name h) false with
  | Some invalid => if validate_value (value h) then Some invalid else None
  | None => None
  end.

(** ** Pseudo-headers *)

Definition ngx_http_v2_parse_path (r : request) (v : list Z) : Z * request :=
  if negb (Nat.eqb (length (unparsed_uri r)) 0) then (NGX_DECLINED, r)
  else if Nat.eqb (length v) 0 then (NGX_DECLINED, r)
  else
    let '(rc, q) := ParseUri.ngx_http_parse_uri v 0 (length v) new_request in
    if negb (rc =? NGX_OK) then (NGX_DECLINED, r)
    else
      match RequestUri.ngx_http_process_request_uri v (merge_slashes r) q 0 (length v) with
      | None => (NGX_ABORT, r)
      | Some f => (NGX_OK, set_uri (Some f) r)
      end.

Definition tests : list (list Z * Z) :=
  [(bs "GET", NGX_HTTP_GET); (bs "POST", NGX_HTTP_POST); (bs "HEAD", NGX_HTTP_HEAD); (bs "OPTIONS", NGX_HTTP_OPTIONS);
   (bs "PROPFIND", NGX_HTTP_PROPFIND); (bs "PUT", NGX_HTTP_PUT); (bs "MKCOL", NGX_HTTP_MKCOL);
   (bs "DELETE", NGX_HTTP_DELETE); (bs "COPY", NGX_HTTP_COPY); (bs "MOVE", NGX_HTTP_MOVE);
   (bs "PROPPATCH", NGX_HTTP_PROPPATCH); (bs "LOCK", NGX_HTTP_LOCK); (bs "UNLOCK", NGX_HTTP_UNLOCK);
   (bs "PATCH", NGX_HTTP_PATCH); (bs "TRACE", NGX_HTTP_TRACE); (bs "CONNECT", NGX_HTTP_CONNECT)]%string.

(** [len == test->len] and the comparison of the bytes. *)
Fixpoint same_bytes (p m : list Z) : bool :=
  match p, m with
  | [], [] => true
  | a :: p, b :: m => if a =? b then same_bytes p m else false
  | _, _ => false
  end.

Fixpoint find_method (ts : list (list Z * Z)) (v : list Z) : option Z :=
  match ts with
  | [] => None
  | (m, x) :: ts => if Nat.eqb (length v) (length m) && same_bytes v m then Some x else find_method ts v
  end.

Definition method_char (ch : Z) : bool := negb (((ch <? chr "A") || (ch >? chr "Z")) && negb (ch =? chr "_") && negb (ch =? chr "-")).

Definition ngx_http_v2_parse_method (r : request) (v : list Z) : Z * request :=
  if negb (Nat.eqb (length (method_name r)) 0) then (NGX_DECLINED, r)
  else if Nat.eqb (length v) 0 then (NGX_DECLINED, r)
  else
    let r := set_method_name v r in
    match find_method tests v with
    | Some x => (NGX_OK, set_method x r)
    | None => if forallb method_char v then (NGX_OK, r) else (NGX_DECLINED, r)
    end.

Fixpoint scheme_loop (first : bool) (l : list Z) : bool :=
  match l with
  | [] => true
  | ch :: l =>
      let c := Z.lor ch 0x20 in
      if (c >=? chr "a") && (c <=? chr "z") then scheme_loop false l
      else if (((ch >=? chr "0") && (ch <=? chr "9")) || (ch =? chr "+") || (ch =? chr "-") || (ch =? chr ".")) && negb first
      then scheme_loop false l
      else false
  end.

Definition ngx_http_v2_parse_scheme (r : request) (v : list Z) : Z * request :=
  if negb (Nat.eqb (length (schema r)) 0) then (NGX_DECLINED, r)
  else if Nat.eqb (length v) 0 then (NGX_DECLINED, r)
  else if scheme_loop true v then (NGX_OK, set_schema v r)
  else (NGX_DECLINED, r).

(** [ngx_http_v2_parse_headers[0]]: the header "host", which has a handler. *)
Definition ngx_http_v2_parse_header (r : request) (nm v : list Z) : Z * request :=
  if negb (push_header r) then (NGX_ERROR, r)
  else
    let h := mk_header nm v in
    let r := add_header h r in
    if header_handler r h then (NGX_OK, r) else (NGX_ABORT, r).

Definition ngx_http_v2_parse_authority (r : request) (v : list Z) : Z * request :=
  ngx_http_v2_parse_header r (bs "host") v.

Definition ngx_http_v2_pseudo_header (r : request) (h : header) : Z * request :=
  let nm := tl (name h) in
  match length nm with
  | 4%nat => if same_bytes nm (bs "path") then ngx_http_v2_parse_path r (value h) else (NGX_DECLINED, r)
  | 6%nat =>
      if same_bytes nm (bs "method") then ngx_http_v2_parse_method r (value h)
      else if same_bytes nm (bs "scheme") then ngx_http_v2_parse_scheme r (value h)
      else (NGX_DECLINED, r)
  | 9%nat => if same_bytes nm (bs "authority") then ngx_http_v2_parse_authority r (value h) else (NGX_DECLINED, r)
  | _ => (NGX_DECLINED, r)
  end.

(** ** The fields of a block *)

Definition ngx_http_v2_cookie (r : request) (v : list Z) : Z * request :=
  if negb (push_cookie r) then (NGX_ERROR, r)
  else (NGX_OK, set_cookies (Some (match cookies r with Some l => l ++ [v] | None => [v] end)) r).

(** The rest of [ngx_http_v2_state_process_header], with the state of the
    stream after it. *)
Definition process_field (r : request) (h : header) : verdict * request :=
  match ngx_http_v2_validate_header r h with
  | None => (End_stream, r)
  | Some invalid_header =>
      if hd 0 (name h) =? chr ":" then
        let '(rc, r) := ngx_http_v2_pseudo_header r h in
        if rc =? NGX_OK then (Keep, r)
        else if (rc =? NGX_ABORT) || (rc =? NGX_DECLINED) then (End_stream, r)
        else (Fail_connection NGX_HTTP_V2_INTERNAL_ERROR, r)
      else if invalid_header && ignore_invalid_headers r then (Keep, r)
      else if same_bytes (name h) (bs "cookie") then
        let '(rc, r) := ngx_http_v2_cookie r (value h) in
        if negb (rc =? NGX_OK) then (Fail_connection NGX_HTTP_V2_INTERNAL_ERROR, r) else (Keep, r)
      else if negb (push_header r) then (Fail_connection NGX_HTTP_V2_INTERNAL_ERROR, r)
      else
        let r := add_header h r in
        if header_handler r h then (Keep, r) else (End_stream, r)
  end.

(** The request after some fields: the later ones do not reach it once the
    stream is gone. *)
Definition process_fields (l : list header) : verdict * request :=
  fold_left (fun '(v, r) h => match v with Keep => process_field r h | _ => (v, r) end) l (Keep, new).

Definition v2_request (l : list header) : verdict := fst (process_fields l).

(** ** The end of the block *)

Definition ending : list Z := bs " HTTP/2.0".

(** [None] ends the request with an error; [alloc] is the success of the
    allocation of [r->request_line.len + 1] bytes, which are written with the
    final NUL. *)
Definition ngx_http_v2_construct_request_line (alloc : Z -> bool) (r : request) : option (list Z) :=
  if Nat.eqb (length (method_name r)) 0 || Nat.eqb (length (schema r)) 0 || Nat.eqb (length (unparsed_uri r)) 0 then None
  else
    let len := zlen (method_name r) + 1 + zlen (unparsed_uri r) + zlen ending in
    if negb (alloc (len + 1)) then None
    else Some (method_name r ++ bs " " ++ unparsed_uri r ++ ending ++ [0]).

(** The loop that copies the values: [p] and [last] are offsets in the buffer;
    [None] is an access after the last value. *)
Fixpoint cookie_loop (vals : list (list Z)) (p last : Z) : option (list Z) :=
  match vals with
  | [] => None
  | v :: vals =>
      let p := p + zlen v in
      if p =? last then Some (v ++ [0])
      else match cookie_loop vals (p + 2) last with Some o => Some (v ++ bs "; " ++ o) | None => None end
  end.

Definition cookie_len (vals : list (list Z)) : Z := fold_left (fun n v => n + (zlen v + 2)) vals 0 - 2.

(** The code, the request, and the bytes written to the buffer. *)
Definition ngx_http_v2_construct_cookie_header (alloc : Z -> bool) (r : request) : option (Z * request * list Z) :=
  match cookies r with
  | None => Some (NGX_OK, r, [])
  | Some vals =>
      let len := cookie_len vals in
      if negb (alloc (len + 1)) then Some (NGX_ERROR, r, [])
      else
        match cookie_loop vals 0 len with
        | None => None
        | Some buf =>
            if negb (push_header r) then Some (NGX_ERROR, r, buf)
            else
              let h := mk_header (bs "cookie") (take (Z.to_nat len) buf) in
              let r := add_header h r in
              Some (if header_handler r h then NGX_OK else NGX_ERROR, r, buf)
        end
  end.

End Request.

(** ** The host *)

Inductive host_state := sw_usual | sw_literal | sw_rest.

(** The loop of [ngx_http_validate_host]: [dot_pos], [host_len] and [alloc] at
    the end; [i - 1], which wraps around for the first byte to a number that is
    no position, is -1 then. *)
Fixpoint host_loop (h : list Z) (i : Z) (state : host_state) (dot_pos host_len : Z) (alloc : bool) : option (Z * Z * bool) :=
  match h with
  | [] => Some (dot_pos, host_len, alloc)
  | ch :: h =>
      if ch =? chr "." then
        if dot_pos =? i - 1 then None else host_loop h (i + 1) state i host_len alloc
      else if ch =? chr ":" then
        match state with
        | sw_usual => host_loop h (i + 1) sw_rest dot_pos i alloc
        | _ => host_loop h (i + 1) state dot_pos host_len alloc
        end
      else if ch =? chr "[" then
        host_loop h (i + 1) (if i =? 0 then sw_literal else state) dot_pos host_len alloc
      else if ch =? chr "]" then
        match state with
        | sw_literal => host_loop h (i + 1) sw_rest dot_pos (i + 1) alloc
        | _ => host_loop h (i + 1) state dot_pos host_len alloc
        end
      else if ch =? chr "/" then None
      else if (ch <=? 0x20) || (ch =? 0x7f) then None
      else host_loop h (i + 1) state dot_pos host_len (if (ch >=? chr "A") && (ch <=? chr "Z") then true else alloc)
  end.

(** The code and the host. *)
Definition ngx_http_validate_host (pnalloc : Z -> bool) (host : list Z) (alloc : bool) : Z * list Z :=
  let len := zlen host in
  match host_loop host 0 sw_usual len len alloc with
  | None => (NGX_DECLINED, host)
  | Some (dot_pos, host_len, alloc) =>
      let host_len := if dot_pos =? host_len - 1 then host_len - 1 else host_len in
      if host_len =? 0 then (NGX_DECLINED, host)
      else if alloc && negb (pnalloc host_len) then (NGX_ERROR, host)
      else
        let h := take (Z.to_nat host_len) host in
        (NGX_OK, if alloc then ngx_strlow h else h)
  end.

(** Whether [ngx_http_process_host], the handler of the header "host", returns
    NGX_OK for the last of the headers of [r]; [r->headers_in.host] is not
    null when there is another one before.  [server] is whether
    [r->headers_in.server] is known, [set_virtual_server] whether
    ngx_http_set_virtual_server() succeeds. *)
Definition ngx_http_process_host (pnalloc : Z -> bool) (server : request -> bool) (set_virtual_server : request -> list Z -> bool)
    (r : request) (h : header) : bool :=
  if existsb (fun h => same_bytes (name h) (bs "host")) (removelast (headers r)) then false
  else
    let '(rc, host) := ngx_http_validate_host pnalloc (value h) false in
    if rc =? NGX_DECLINED then false
    else if rc =? NGX_ERROR then false
    else if server r then true
    else set_virtual_server r host.

(** ** The request of a block *)

Section Kept.
Context `{P : Platform}.
Variable ok : site -> bool.
Variable max_field : Z.
Variable request : list header -> verdict.

(** A stream that is still there was given fields its request keeps. *)
Definition kept (s : state_t) : Prop := stream s = true -> request (fields s) = Keep.

Definition next_kept (n : next) : Prop :=
  match n with Call _ s _ | Return _ s _ | Save _ s _ | Finish s _ => kept s | Close _ | Undefined => True end.

Lemma save_kept h s buf : kept s -> next_kept (ngx_http_v2_state_save s buf h).
Proof. intros H. unfold ngx_http_v2_state_save. destruct (_ >? _); [exact I|exact H]. Qed.

Lemma continuation_kept h s buf : kept s -> next_kept (ngx_http_v2_handle_continuation s buf h).
Proof.
  intros H. unfold ngx_http_v2_handle_continuation. cbv zeta. destruct (zlen _ <? _); [apply save_kept; exact H|].
  destruct (negb _); [exact I|]. destruct (negb _); [exact I|]. exact H.
Qed.

Lemma after_kept h s buf : kept s -> next_kept (after_field h s buf).
Proof.
  intros H. unfold after_field. destruct (field_rest s =? 0); [exact H|]. destruct (negb _); [apply save_kept; exact H|].
  destruct (end_headers s); [exact I|]. apply continuation_kept; exact H.
Qed.

Lemma deliver_kept s buf : kept s -> next_kept (deliver ok request s buf).
Proof.
  intros H. unfold deliver. destruct (_ >? _); [exact I|]. set (s1 := set_limit _ s). assert (kept s1) as H1 by exact H. clearbody s1.
  set (x := if index s1 then _ else _). assert (match x with Some (Some s2) => kept s2 | _ => True end) as Hx.
  { unfold x. destruct (index s1); [|exact H1]. destruct (ngx_http_v2_add_header _ _ _) as [[rc t]|]; [|exact I].
    destruct (negb _); [exact I|exact H1]. }
  clearbody x. destruct x as [[s2|]|]; [|exact I|exact I]. destruct (negb (stream s2)); [exact Hx|].
  destruct (request _) eqn:E; cbn; [intros _; exact E|discriminate|exact I].
Qed.

Lemma step_kept h s buf : kept s -> next_kept (step ok max_field request h s buf).
Proof.
  intros H. destruct h; cbn [step].
  - unfold ngx_http_v2_state_header_block. destruct buf as [|ch p]; [apply save_kept; exact H|].
    destruct (negb (end_headers s) && _); [apply continuation_kept; exact H|].
    set (s1 := if (_ : bool) then set_index true s else s).
    assert (kept s1) as H1 by (unfold s1; destruct (negb (ch >=? 128) && (ch >=? 64)); exact H). clearbody s1.
    destruct (ngx_http_v2_parse_int _ _ _) as [v rest n|rc]; [|destruct (rc =? NGX_AGAIN); [apply save_kept; exact H1|destruct (_ =? _); exact I]].
    repeat match goal with |- next_kept (match ?x with _ => _ end) => destruct x; try exact I; try exact H1 end.
  - unfold ngx_http_v2_state_field_len. destruct (negb (end_headers s) && _); [apply continuation_kept; exact H|]. destruct (len s <? 1); [exact I|].
    destruct buf as [|b p]; [apply save_kept; exact H|].
    destruct (ngx_http_v2_parse_int _ _ _) as [n rest l|rc]; [|destruct (rc =? NGX_AGAIN); [apply save_kept; exact H|destruct (_ =? _); exact I]].
    destruct (n >? max_field); [exact I|]. destruct (negb _ && negb _); [exact H|]. destruct (negb (ok _)); [exact I|exact H].
  - unfold ngx_http_v2_state_field_huff. destruct (Huffman.ngx_http_huff_decode _ _ _) as [[rc st] o]. destruct (negb _); [exact I|]. apply after_kept; exact H.
  - apply after_kept; exact H.
  - apply after_kept; exact H.
  - unfold ngx_http_v2_state_process_header. destruct (parse_name s); [destruct (_ =? 0); [exact I|exact H]|].
    apply deliver_kept. destruct (parse_value s); exact H.
  - unfold ngx_http_v2_state_header_complete. destruct (negb (len s =? 0)); [destruct buf; [apply save_kept; exact H|exact H]|].
    destruct (negb _); [apply continuation_kept; exact H|exact H].
Qed.

Definition conn_kept (c : conn) : Prop := match c with Wait _ s _ | Done s _ => kept s | Closed _ => True end.

Lemma run_kept f : forall h s buf c, kept s -> run ok max_field request f h s buf = Some c -> conn_kept c.
Proof.
  induction f as [|f IH]; intros h s buf c H E; [discriminate|]. cbn [run] in E. pose proof (step_kept h s buf H) as Hk.
  destruct (step _ _ _ _ _ _) as [h' s' b'|h' s' b'|h' s' b'|e|s' b'|]; cbn [next_kept] in Hk.
  - eapply IH; eassumption.
  - destruct b'; [injection E as <-; exact Hk|]. eapply IH; eassumption.
  - injection E as <-. exact Hk.
  - injection E as <-. exact I.
  - injection E as <-. exact Hk.
  - discriminate.
Qed.

Lemma recv_all_kept chunks : forall c c', conn_kept c -> recv_all ok max_field request c chunks = Some c' -> conn_kept c'.
Proof.
  induction chunks as [|l chunks IH]; intros c c' H E; cbn [recv_all] in E; [injection E as <-; exact H|].
  destruct (recv _ _ _ c l) as [c1|] eqn:E1; [|discriminate]. eapply IH; [|exact E].
  destruct c as [h s b|e|s r]; cbn [recv] in E1; [eapply run_kept; eassumption|injection E1 as <-; exact I|injection E1 as <-; exact H].
Qed.

End Kept.

(** ** What a request keeps *)

(** A byte that ends a request for the name, or for the value, it is in. *)
Definition bad_name_char (ch : Z) : bool :=
  (ch <=? 0x20) || (ch =? 0x7f) || (ch =? chr ":") || ((ch >=? chr "A") && (ch <=? chr "Z")).

Definition bad_value_char (ch : Z) : bool := (ch =? 0) || (ch =? LF) || (ch =? CR).

(** A name without ":" in front. *)
Definition bare (n : list Z) : list Z := if hd 0 n =? chr ":" then tl n else n.

Definition name_ok (n : list Z) : Prop := forallb (fun c => negb (bad_name_char c)) n = true.
Definition value_ok (v : list Z) : Prop := forallb (fun c => negb (bad_value_char c)) v = true.

Lemma validate_name_some u l : forall i i', validate_name u l i = Some i' -> name_ok l.
Proof.
  unfold name_ok. induction l as [|ch l IH]; intros i i' E; [reflexivity|]. cbn [validate_name forallb] in *. unfold bad_name_char at 1.
  destruct (_ || _ || _ || _) eqn:E1 in E.
  - apply IH in E. rewrite E, andb_true_r. lia.
  - destruct (_ || _) eqn:E2 in E; [discriminate|]. rewrite E2. apply IH in E. exact E.
Qed.

Lemma validate_value_ok v : validate_value v = true <-> value_ok v.
Proof.
  unfold value_ok. induction v as [|ch v IH]; [split; reflexivity|]. cbn [validate_value forallb]. unfold bad_value_char at 1.
  destruct (_ || _); cbn; [split; discriminate|exact IH].
Qed.

Lemma same_bytes_eq p m : same_bytes p m = true <-> p = m.
Proof.
  revert m. induction p as [|a p IH]; intros [|b m]; cbn [same_bytes]; try (split; congruence).
  destruct (a =? b) eqn:E; [rewrite IH|]; split; intros H; try discriminate; [f_equal; [lia|exact H]|congruence|]. injection H as H _. lia.
Qed.

(** The methods of the table are those of their names. *)
Lemma find_method_spec ts v x : find_method ts v = Some x -> In (v, x) ts.
Proof.
  induction ts as [|[m y] ts IH]; [discriminate|]. cbn [find_method]. destruct (_ && _) eqn:E; [|intros H; right; auto].
  apply andb_true_iff in E as [_ E]. apply same_bytes_eq in E as ->. intros [= ->]. left. reflexivity.
Qed.

Lemma tests_chars v x : In (v, x) tests -> forallb method_char v = true.
Proof.
  intros H. change (forallb method_char (fst (v, x)) = true). revert H. generalize (v, x). apply List.Forall_forall.
  repeat constructor.
Qed.

Lemma usual_uri_byte c : is_usual c = true -> uri_byte c = true.
Proof.
  intros H. destruct (decide (is_byte c)) as [Hc|Hc].
  - rewrite is_usual_spec in H by exact Hc. unfold uri_byte. lia.
  - exfalso. unfold is_usual, in_bitmap, usual, is_byte in *. rewrite Z.shiftr_div_pow2 in H by lia. change (2 ^ 5) with 32 in H.
    assert (nth (Z.to_nat (c / 32)) [0x00000000; 0x7fff37d6; 0xffffffff; 0x7fffffff; 0xffffffff; 0xffffffff; 0xffffffff; 0xffffffff] 0 = 0) as E.
    { destruct (decide (c < 0)); [replace (Z.to_nat (c / 32)) with 0%nat by div_lia; reflexivity|].
      apply nth_overflow. cbn [length]. div_lia. }
    rewrite E, Z.land_0_l in H. discriminate.
Qed.

Lemma nth_error_lookup {A} (l : list A) i : nth_error l i = l !! i.
Proof. revert i. induction l as [|x l IH]; intros [|i]; try reflexivity. apply IH. Qed.

(** A path that ngx_http_parse_uri() takes. *)
Definition path_ok (v : list Z) : Prop := hd 0 v = chr "/" /\ forallb uri_byte v = true.

Lemma parse_uri_path v q : v <> [] -> ParseUri.ngx_http_parse_uri v 0 (length v) new_request = (NGX_OK, q) -> path_ok v.
Proof.
  intros Hv E.
  destruct (UriProperties.parse_uri_ind v 0 (length v) new_request q
    (fun p s _ => forallb uri_byte (take p v) = true /\ (hd 0 v = chr "/" \/ p = 0%nat /\ s = ParseUri.sw_start))) as (s & H1 & H2).
  - intros s r p ch s' r' [H1 H2] Hn Hp Es.
    assert (uri_byte ch = true /\ (s = ParseUri.sw_start -> ch = chr "/")) as (Hc & Hs).
    { unfold ParseUri.step, ParseUri.control in Es. destruct s; split_ifs_in Es; injection Es as <- <-;
        (split; [first [apply usual_uri_byte; assumption|unfold uri_byte; lia]|]); intros Hq; try discriminate Hq; lia. }
    rewrite nth_error_lookup in Hn. rewrite (take_S_r _ _ _ Hn), forallb_app, H1. cbn. rewrite Hc. split; [reflexivity|].
    left. destruct H2 as [H2|[-> H2]]; [exact H2|]. destruct v; [discriminate|]. injection Hn as ->. apply Hs, H2.
  - exact E.
  - lia.
  - split; [reflexivity|right; split; reflexivity].
  - rewrite firstn_all in H1. destruct H2 as [H2|[H2 _]]; [split; assumption|]. destruct v; [contradiction|discriminate].
Qed.

(** ** The fields of a block and its request *)

Section Replay.
Variables underscores_in_headers ignore_invalid_headers merge_slashes : request -> bool.
Variable header_handler : request -> header -> bool.
Variables push_header push_cookie : request -> bool.

Abbreviation field := (process_field underscores_in_headers ignore_invalid_headers merge_slashes header_handler push_header push_cookie).
Abbreviation replay := (process_fields underscores_in_headers ignore_invalid_headers merge_slashes header_handler push_header push_cookie).

(** The values of the fields with a name. *)
Definition values (n : list Z) (l : list header) : list (list Z) :=
  map value (List.filter (fun h => same_bytes (name h) n) l).

Definition pseudo_names : list (list Z) := [bs ":method"; bs ":scheme"; bs ":path"; bs ":authority"]%string.

(** What a field that is not a cookie adds to the headers. *)
Definition as_header (h : header) : list header :=
  if same_bytes (name h) (bs ":authority") then [mk_header (bs "host") (value h)]
  else if hd 0 (name h) =? chr ":" then []
  else if same_bytes (name h) (bs "cookie") then [] else [h].

(** A value that is taken at most once, and then fits. *)
Definition single (vals : list (list Z)) (x : list Z) (Q : list Z -> Prop) : Prop :=
  (vals = [] /\ x = []) \/ (vals = [x] /\ x <> [] /\ Q x).

Definition method_value (v : list Z) : Z :=
  match find_method tests v with Some x => x | None => NGX_HTTP_UNKNOWN end.

(** A letter first, then letters, digits, "+", "-" and ".". *)
Definition letter (c : Z) : bool := ((c >=? chr "A") && (c <=? chr "Z")) || ((c >=? chr "a") && (c <=? chr "z")).
Definition scheme_char (c : Z) : bool :=
  letter c || ((c >=? chr "0") && (c <=? chr "9")) || (c =? chr "+") || (c =? chr "-") || (c =? chr ".").
Definition scheme_ok (v : list Z) : Prop := letter (hd 0 v) = true /\ forallb scheme_char v = true.

(** The request that the fields [l] of a block make. *)
Record request_of (l : list header) (r : request) : Prop := {
  of_valid : Forall (fun h => name_ok (bare (name h)) /\ value_ok (value h)) l;
  of_pseudo : Forall (fun h => hd 0 (name h) = chr ":" -> In (name h) pseudo_names) l;
  of_method : single (values (bs ":method") l) (method_name r) (fun v => forallb method_char v = true);
  of_method_value : method r = method_value (method_name r);
  of_scheme : single (values (bs ":scheme") l) (schema r) scheme_ok;
  of_path : single (values (bs ":path") l) (unparsed_uri r) path_ok;
  of_headers : headers r `sublist_of` flat_map as_header l;
  of_cookies : cookies r = match values (bs "cookie") l with [] => None | vs => Some vs end
}.

Lemma values_snoc n l h : values n (l ++ [h]) = values n l ++ (if same_bytes (name h) n then [value h] else []).
Proof. unfold values. rewrite List.filter_app, map_app. cbn [List.filter]. destruct (same_bytes _ _); reflexivity. Qed.

Lemma single_snoc vals v Q : single vals [] Q -> v <> [] -> Q v -> single (vals ++ [v]) v Q.
Proof. intros [[-> _]|(_ & H & _)] Hv HQ; [right; auto|congruence]. Qed.

Lemma letter_lor c : (Z.lor c 0x20 >=? chr "a") && (Z.lor c 0x20 <=? chr "z") = true -> letter c = true.
Proof.
  intros H. assert (0 <= Z.lor c 0x20 < 2 ^ 7) as [H1 H2] by (change (2 ^ 7) with 128; lia).
  apply Z.lor_nonneg in H1 as [H1 _]. assert (is_byte c) as Hc.
  { unfold is_byte. destruct (decide (c <= 0)); [lia|]. apply Z.log2_lt_pow2 in H2; [|lia]. rewrite Z.log2_lor in H2 by lia.
    assert (Z.log2 c < 8) as H3 by lia. apply Z.log2_lt_pow2 in H3; lia. }
  revert H. apply implb_true_iff. apply (byte_forall (fun c => implb ((Z.lor c 0x20 >=? chr "a") && (Z.lor c 0x20 <=? chr "z")) (letter c))); [vm_compute; reflexivity|exact Hc].
Qed.

Lemma scheme_loop_chars l : forall first, scheme_loop first l = true ->
  forallb scheme_char l = true /\ (first = true -> l <> [] -> letter (hd 0 l) = true).
Proof.
  induction l as [|c l IH]; intros first E; [split; [reflexivity|contradiction]|]. cbn [scheme_loop forallb hd] in *.
  destruct (_ && (_ <=? chr "z")) eqn:E1.
  - apply IH in E as [E _]. pose proof (letter_lor c E1) as Hl. unfold scheme_char at 1. rewrite Hl, E. split; reflexivity.
  - destruct (_ && negb first) eqn:E2; [|discriminate]. apply andb_true_iff in E2 as [E2 E3]. apply IH in E as [E _]. rewrite E.
    split; [unfold scheme_char; lia|]. intros ->. discriminate.
Qed.

(** What the handlers of the pseudo-headers do, when they succeed. *)
Lemma parse_method_ok r v r' : ngx_http_v2_parse_method r v = (NGX_OK, r') -> method r = method_value (method_name r) ->
  method_name r = [] /\ v <> [] /\ forallb method_char v = true /\ r' = set_method (method_value v) (set_method_name v r).
Proof.
  unfold ngx_http_v2_parse_method, method_value. destruct (method_name r) as [|] eqn:Em; [|discriminate].
  cbn [length Nat.eqb negb]. destruct (Nat.eqb (length v) 0) eqn:El; [discriminate|]. intros E Hm.
  assert (v <> []) as Hv by (intros ->; discriminate). destruct (find_method tests v) as [x|] eqn:Ef.
  - injection E as <-. repeat split; try assumption. apply (tests_chars v x), find_method_spec, Ef.
  - destruct (forallb method_char v) eqn:Ec; [|discriminate]. injection E as <-. repeat split; try assumption. change (method r = NGX_HTTP_UNKNOWN) in Hm. destruct r. cbn [method] in Hm. subst. reflexivity.
Qed.

Lemma parse_scheme_ok r v r' : ngx_http_v2_parse_scheme r v = (NGX_OK, r') -> schema r = [] /\ v <> [] /\ scheme_ok v /\ r' = set_schema v r.
Proof.
  unfold ngx_http_v2_parse_scheme. destruct (schema r); [|discriminate]. cbn [length Nat.eqb negb].
  destruct (Nat.eqb (length v) 0) eqn:El; [discriminate|]. assert (v <> []) as Hv by (intros ->; discriminate). destruct (scheme_loop true v) eqn:E; [|discriminate]. intros [= <-].
  apply scheme_loop_chars in E as [E1 E2]. repeat split; auto.
Qed.

Lemma parse_path_ok r v r' : ngx_http_v2_parse_path merge_slashes r v = (NGX_OK, r') ->
  unparsed_uri r = [] /\ v <> [] /\ path_ok v /\ exists f, r' = set_uri (Some f) r /\ RequestUri.f_unparsed_uri f = v.
Proof.
  unfold ngx_http_v2_parse_path. destruct (unparsed_uri r); [|discriminate]. cbn [length Nat.eqb negb].
  destruct (Nat.eqb (length v) 0) eqn:El; [discriminate|]. assert (v <> []) as Hv by (intros ->; discriminate).
  destruct (ParseUri.ngx_http_parse_uri v 0 (length v) new_request) as [rc q] eqn:Eq. destruct (rc =? NGX_OK) eqn:Er; cbn [negb]; [|discriminate].
  apply Z.eqb_eq in Er as ->. destruct (RequestUri.ngx_http_process_request_uri _ _ _ _ _) as [f|] eqn:Ef; [|discriminate].
  intros [= <-]. split; [reflexivity|]. split; [exact Hv|]. split; [eapply parse_uri_path; eassumption|]. exists f. split; [reflexivity|].
  assert (slice v 0 (length v) = v) as Es by (unfold slice; rewrite Nat.sub_0_r; apply firstn_all).
  unfold RequestUri.ngx_http_process_request_uri in Ef. destruct (RequestUri.is_complex q);
    [destruct (ComplexUri.ngx_http_parse_complex_uri _ _ _ _); [|discriminate]|]; injection Ef as <-; exact Es.
Qed.

(** The four names of pseudo-headers. *)
Lemma pseudo_name r h r' : ngx_http_v2_pseudo_header merge_slashes header_handler push_header r h = (NGX_OK, r') -> hd 0 (name h) = chr ":" ->
  (name h = bs ":path" /\ ngx_http_v2_parse_path merge_slashes r (value h) = (NGX_OK, r')) \/
  (name h = bs ":method" /\ ngx_http_v2_parse_method r (value h) = (NGX_OK, r')) \/
  (name h = bs ":scheme" /\ ngx_http_v2_parse_scheme r (value h) = (NGX_OK, r')) \/
  (name h = bs ":authority" /\ ngx_http_v2_parse_authority header_handler push_header r (value h) = (NGX_OK, r')).
Proof.
  unfold ngx_http_v2_pseudo_header. intros E Hc. destruct (name h) as [|c n]; [discriminate|]. cbn [tl hd] in *. subst c.
  repeat (match type of E with context[match ?x with O => _ | S _ => _ end] => destruct x; try discriminate end);
  repeat (match type of E with context[same_bytes n ?m] => let Es := fresh in destruct (same_bytes n m) eqn:Es; [apply same_bytes_eq in Es as ->|] end; try discriminate); auto 10.
Qed.

Lemma validate_ok r h i : ngx_http_v2_validate_header underscores_in_headers r h = Some i -> name_ok (bare (name h)) /\ value_ok (value h).
Proof.
  unfold ngx_http_v2_validate_header. fold (bare (name h)). destruct (validate_name _ _ _) as [i'|] eqn:E; [|discriminate].
  destruct (validate_value (value h)) eqn:Ev; [|discriminate]. intros _. split; [eapply validate_name_some, E|apply validate_value_ok, Ev].
Qed.

Lemma parse_header_ok r n v r' : ngx_http_v2_parse_header header_handler push_header r n v = (NGX_OK, r') -> r' = add_header (mk_header n v) r.
Proof. unfold ngx_http_v2_parse_header. destruct (push_header r); [|discriminate]. cbn [negb]. destruct (header_handler _ _); [|discriminate]. congruence. Qed.

(** The comparisons of names that are known. *)
Ltac eval_names :=
  repeat match goal with |- context[same_bytes (bs ?a) (bs ?b)] =>
    let v := eval vm_compute in (same_bytes (bs a) (bs b)) in change (same_bytes (bs a) (bs b)) with v
  end.

Ltac snoc_field En := rewrite ?flat_map_app, ?values_snoc; cbn [flat_map]; unfold as_header; rewrite ?En; eval_names; cbn [app hd]; rewrite ?app_nil_r.

Lemma pseudo_request l r h r' : request_of l r -> name_ok (bare (name h)) -> value_ok (value h) -> hd 0 (name h) = chr ":" ->
  ngx_http_v2_pseudo_header merge_slashes header_handler push_header r h = (NGX_OK, r') -> request_of (l ++ [h]) r'.
Proof.
  intros [V Ps M Mv Sc Pa He Co] Hn Hv Hc E.
  apply pseudo_name in E; [|exact Hc]. assert (In (name h) pseudo_names) as Hin by (unfold pseudo_names; destruct E as [[-> _]|[[-> _]|[[-> _]|[-> _]]]]; cbn; auto).
  assert (Forall (fun h => name_ok (bare (name h)) /\ value_ok (value h)) (l ++ [h])) by (apply Forall_app; auto).
  assert (Forall (fun h => hd 0 (name h) = chr ":" -> In (name h) pseudo_names) (l ++ [h])) by (apply Forall_app; auto).
  destruct E as [[En E]|[[En E]|[[En E]|[En E]]]].
  - apply parse_path_ok in E as (Hu & Hv0 & Hok & f & -> & Ef). rewrite Hu in Pa. constructor; snoc_field En; auto.
    change (unparsed_uri _) with (RequestUri.f_unparsed_uri f). rewrite Ef. apply single_snoc; assumption.
  - apply parse_method_ok in E as (Hu & Hv0 & Hok & ->); [|exact Mv]. rewrite Hu in M. constructor; snoc_field En; auto. apply single_snoc; assumption.
  - apply parse_scheme_ok in E as (Hu & Hv0 & Hok & ->). rewrite Hu in Sc. constructor; snoc_field En; auto. apply single_snoc; assumption.
  - apply parse_header_ok in E as ->. constructor; snoc_field En; auto. apply sublist_app; [exact He|reflexivity].
Qed.

Lemma field_request l r h r' : request_of l r -> field r h = (Keep, r') -> request_of (l ++ [h]) r'.
Proof.
  intros Hr E. unfold process_field in E. destruct (ngx_http_v2_validate_header _ r h) as [i|] eqn:Ev; [|discriminate].
  pose proof (validate_ok r h i Ev) as [Hn Hv]. destruct (hd 0 (name h) =? chr ":") eqn:Ec.
  - destruct (ngx_http_v2_pseudo_header _ _ _ r h) as [rc r1] eqn:Ep. destruct (rc =? NGX_OK) eqn:Er; [|destruct (_ || _); discriminate].
    apply Z.eqb_eq in Er as ->. injection E as ->. eapply pseudo_request; try eassumption. lia.
  - destruct Hr as [V Ps M Mv Sc Pa He Co].
    assert (Forall (fun h => name_ok (bare (name h)) /\ value_ok (value h)) (l ++ [h])) by (apply Forall_app; auto).
    assert (Forall (fun h => hd 0 (name h) = chr ":" -> In (name h) pseudo_names) (l ++ [h])) by (apply Forall_app; split; [exact Ps|repeat constructor; lia]).
    assert (forall s, hd 0 (bs s) = chr ":" -> same_bytes (name h) (bs s) = false) as Hne.
    { intros s Hs. destruct (same_bytes (name h) (bs s)) eqn:Es; [|reflexivity]. apply same_bytes_eq in Es. rewrite Es in Ec. lia. }
    assert (forall s, hd 0 (bs s) = chr ":" -> values (bs s) (l ++ [h]) = values (bs s) l) as Hvs
      by (intros s Hs; rewrite values_snoc, Hne, app_nil_r by exact Hs; reflexivity).
    assert (flat_map as_header (l ++ [h]) = flat_map as_header l ++ if same_bytes (name h) (bs "cookie") then [] else [h]) as Ea.
    { rewrite flat_map_app. cbn [flat_map]. unfold as_header at 2. rewrite Hne, Ec, app_nil_r by reflexivity. reflexivity. }
    assert (values (bs "cookie") (l ++ [h]) = values (bs "cookie") l ++ if same_bytes (name h) (bs "cookie") then [value h] else []) as Ecv
      by apply values_snoc.
    destruct (same_bytes (name h) (bs "cookie")) eqn:Eco.
    + assert (i = false) as ->.
      { apply same_bytes_eq in Eco. unfold ngx_http_v2_validate_header in Ev. rewrite Eco in Ev.
        change (validate_name _ _ _) with (Some false) in Ev. destruct (validate_value (value h)); congruence. }
      cbn [andb] in E. unfold ngx_http_v2_cookie in E. destruct (push_cookie r); [|discriminate]. injection E as <-.
      constructor; rewrite ?Hvs by reflexivity; auto; [rewrite Ea, app_nil_r; exact He|]. rewrite Ecv. cbn [cookies set_cookies]. rewrite Co.
      destruct (values (bs "cookie") l); reflexivity.
    + rewrite app_nil_r in Ecv. destruct (i && _) in E.
      * injection E as <-. constructor; rewrite ?Hvs, ?Ecv by reflexivity; auto. rewrite Ea. apply sublist_inserts_r, He.
      * destruct (push_header r); [|discriminate]. cbn [negb] in E. destruct (header_handler _ _); [|discriminate]. injection E as <-.
        constructor; rewrite ?Hvs, ?Ecv by reflexivity; auto. rewrite Ea. apply sublist_app; [exact He|reflexivity].
Qed.

Lemma replay_request l r : replay l = (Keep, r) -> request_of l r.
Proof.
  revert r. induction l as [|h l IH] using rev_ind; intros r E.
  - injection E as <-. constructor; first [reflexivity|left; split; reflexivity|constructor].
  - unfold process_fields in E. rewrite fold_left_app in E. cbn [fold_left] in E. fold (replay l) in E.
    destruct (replay l) as [v r1]. destruct v; try discriminate E. eapply field_request; [apply IH; reflexivity|exact E].
Qed.

Lemma sublist_forall {A} (Q : A -> Prop) l1 l2 : l1 `sublist_of` l2 -> Forall Q l2 -> Forall Q l1.
Proof. intros H. induction H; intros HQ; inversion HQ; subst; auto. Qed.

(** The headers of the request are valid whatever was left out. *)
Lemma headers_valid l r : request_of l r -> Forall (fun h => name_ok (name h) /\ value_ok (value h)) (headers r).
Proof.
  intros [V _ _ _ _ _ He _]. eapply sublist_forall; [exact He|]. clear He. induction V as [|h l [Hn Hv] V IH]; [constructor|].
  cbn [flat_map]. apply Forall_app. split; [|exact IH]. unfold as_header.
  destruct (same_bytes (name h) (bs ":authority")); [repeat constructor; exact Hv|]. destruct (hd 0 (name h) =? chr ":") eqn:E; [constructor|].
  destruct (same_bytes (name h) (bs "cookie")); [constructor|]. unfold bare in Hn. rewrite E in Hn. repeat constructor; assumption.
Qed.

(** ** The host of a request *)

(** The values of the fields that name the host. *)
Definition names_host (h : header) : bool := same_bytes (name h) (bs ":authority") || same_bytes (name h) (bs "host").
Definition host_values (l : list header) : list (list Z) := map value (List.filter names_host l).

(** A host has no slash, space, control or DEL, and no two dots in a row. *)
Definition host_char (c : Z) : bool := negb ((c <=? 0x20) || (c =? 0x7f) || (c =? chr "/")).
Fixpoint single_dots (dot : bool) (v : list Z) : bool :=
  match v with [] => true | c :: v => negb (dot && (c =? chr ".")) && single_dots (c =? chr ".") v end.
Definition host_ok (v : list Z) : Prop := v <> [] /\ forallb host_char v = true /\ single_dots false v = true.

Lemma host_loop_chars h : forall i state dot_pos host_len alloc (dot : bool), 0 <= i -> (dot = true -> dot_pos = i - 1) ->
  host_loop h i state dot_pos host_len alloc <> None -> forallb host_char h = true /\ single_dots dot h = true.
Proof.
  induction h as [|c h IH]; intros i state dp hl al dot Hi Hd E; [split; reflexivity|]. cbn [host_loop forallb single_dots] in *.
  destruct (Z.eqb_spec c (chr ".")) as [->|Hdot].
  - destruct (Z.eqb_spec dp (i - 1)) as [He|He]; [contradiction|]. destruct dot; [specialize (Hd eq_refl); lia|].
    apply (IH (i + 1) _ _ _ _ true) in E; [|lia|lia]. exact E.
  - rewrite andb_false_r. cbn [negb andb].
    assert (forall st hl al, host_loop h (i + 1) st dp hl al <> None -> host_char c = true -> host_char c && forallb host_char h = true /\ single_dots false h = true) as Hgo.
    { intros st hl0 al0 H ->. apply (IH (i + 1) _ _ _ _ false) in H; [exact H|lia|discriminate]. }
    destruct (Z.eqb_spec c (chr ":")) as [->|]; [destruct state; eapply Hgo; eauto|].
    destruct (Z.eqb_spec c (chr "[")) as [->|]; [eapply Hgo; eauto|].
    destruct (Z.eqb_spec c (chr "]")) as [->|]; [destruct state; eapply Hgo; eauto|].
    destruct (c =? chr "/") eqn:E1; [contradiction|]. destruct (_ || _) eqn:E2; [contradiction|].
    eapply Hgo; [exact E|]. unfold host_char. rewrite E1, E2. reflexivity.
Qed.

Lemma validate_host_ok pnalloc v alloc h : ngx_http_validate_host pnalloc v alloc = (NGX_OK, h) -> host_ok v.
Proof.
  unfold ngx_http_validate_host. destruct (host_loop v 0 sw_usual (zlen v) (zlen v) alloc) as [[[dp hl] al]|] eqn:E; [|discriminate].
  intros H. split.
  - intros ->. cbn in E. injection E as <- <- <-. discriminate.
  - apply (host_loop_chars v 0 sw_usual (zlen v) (zlen v) alloc false); [lia|discriminate|congruence].
Qed.

Lemma process_host_ok pnalloc server set_vs r h : ngx_http_process_host pnalloc server set_vs (add_header h r) h = true ->
  values (bs "host") (headers r) = [] /\ host_ok (value h).
Proof.
  unfold ngx_http_process_host. cbn [headers add_header]. rewrite removelast_last. destruct (existsb _ _) eqn:E; [discriminate|].
  destruct (ngx_http_validate_host pnalloc (value h) false) as [rc host] eqn:Ev. intros H. split.
  - clear -E. unfold values. induction (headers r) as [|x l IH]; [reflexivity|]. cbn [existsb List.filter] in *.
    apply orb_false_iff in E as [-> E]. exact (IH E).
  - apply (validate_host_ok pnalloc _ false host). unfold ngx_http_validate_host in *.
    repeat match type of Ev with context [match ?x with _ => _ end] => destruct x end; injection Ev as <- <-; try discriminate H; reflexivity.
Qed.

Section Host.
Variable pnalloc : Z -> bool.
Variable server : request -> bool.
Variable set_virtual_server : request -> list Z -> bool.
Hypothesis host_handler : forall r h, name h = bs "host" ->
  header_handler (add_header h r) h = ngx_http_process_host pnalloc server set_virtual_server (add_header h r) h.

(** The headers "host" of the request, and the fields they come from. *)
Definition one_host (l : list header) (r : request) : Prop :=
  values (bs "host") (headers r) = host_values l /\ (host_values l = [] \/ exists v, host_values l = [v] /\ host_ok v).

Lemma host_values_snoc l h : host_values (l ++ [h]) = host_values l ++ (if names_host h then [value h] else []).
Proof. unfold host_values. rewrite List.filter_app, map_app. cbn [List.filter]. destruct (names_host h); reflexivity. Qed.

Lemma one_host_same l r h r' : one_host l r -> names_host h = false -> headers r' = headers r -> one_host (l ++ [h]) r'.
Proof. intros H Hn Eh. unfold one_host. rewrite Eh, host_values_snoc, Hn, app_nil_r. exact H. Qed.

(** A header "host" is taken when there was none. *)
Lemma one_host_taken l r h h' : one_host l r -> names_host h = true -> name h' = bs "host" -> value h' = value h ->
  header_handler (add_header h' r) h' = true -> one_host (l ++ [h]) (add_header h' r).
Proof.
  intros [H1 H2] Hn Hn' Hv E. rewrite host_handler in E by exact Hn'. apply process_host_ok in E as [E Hok].
  unfold one_host. rewrite host_values_snoc, Hn, <-H1, E. cbn [headers add_header app]. rewrite values_snoc, E, Hn', Hv.
  split; [reflexivity|]. right. exists (value h). rewrite <-Hv. split; [reflexivity|exact Hok].
Qed.

Lemma field_one_host l r h r' : one_host l r -> field r h = (Keep, r') -> one_host (l ++ [h]) r'.
Proof.
  intros H1 E. unfold process_field in E. destruct (ngx_http_v2_validate_header _ r h) as [i|] eqn:Ev; [|discriminate].
  destruct (hd 0 (name h) =? chr ":") eqn:Ec.
  - destruct (ngx_http_v2_pseudo_header _ _ _ r h) as [rc r1] eqn:Ep. destruct (rc =? NGX_OK) eqn:Er; [|destruct (_ || _); discriminate].
    apply Z.eqb_eq in Er as ->. injection E as ->. apply Z.eqb_eq in Ec. apply pseudo_name in Ep; [|exact Ec].
    destruct Ep as [[En E]|[[En E]|[[En E]|[En E]]]].
    + apply parse_path_ok in E as (_ & _ & _ & f & -> & _). eapply one_host_same; [exact H1| |reflexivity]. unfold names_host. rewrite En. reflexivity.
    + eapply one_host_same; [exact H1|unfold names_host; rewrite En; reflexivity|]. unfold ngx_http_v2_parse_method in E.
      repeat match type of E with context [match ?x with _ => _ end] => destruct x end; try discriminate E; injection E as <-; reflexivity.
    + apply parse_scheme_ok in E as (_ & _ & _ & ->). eapply one_host_same; [exact H1| |reflexivity]. unfold names_host. rewrite En. reflexivity.
    + unfold ngx_http_v2_parse_authority, ngx_http_v2_parse_header in E. destruct (push_header r); [|discriminate]. cbn [negb] in E.
      destruct (header_handler _ _) eqn:Eh; [|discriminate]. injection E as <-.
      apply one_host_taken; [exact H1|unfold names_host; rewrite En; reflexivity|reflexivity|reflexivity|exact Eh].
  - assert (same_bytes (name h) (bs ":authority") = false) as Ea.
    { destruct (same_bytes (name h) (bs ":authority")) eqn:Es; [|reflexivity]. apply same_bytes_eq in Es. rewrite Es in Ec. discriminate. }
    destruct (same_bytes (name h) (bs "host")) eqn:Eho.
    + pose proof Eho as En. apply same_bytes_eq in En. assert (i = false) as ->.
      { unfold ngx_http_v2_validate_header in Ev. rewrite En in Ev. change (validate_name _ _ _) with (Some false) in Ev. destruct (validate_value (value h)); congruence. }
      cbn [andb] in E. rewrite En in E. change (same_bytes (bs "host") (bs "cookie")) with false in E. cbv iota in E.
      destruct (push_header r); [|discriminate]. cbn [negb] in E. destruct (header_handler _ _) eqn:Eh; [|discriminate]. injection E as <-.
      apply one_host_taken; [exact H1|unfold names_host; rewrite Eho, orb_true_r; reflexivity|exact En|reflexivity|exact Eh].
    + assert (names_host h = false) as Hn by (unfold names_host; rewrite Ea, Eho; reflexivity).
      destruct (i && _) in E; [injection E as <-; eapply one_host_same; [exact H1|exact Hn|reflexivity]|].
      destruct (same_bytes (name h) (bs "cookie")).
      * unfold ngx_http_v2_cookie in E. destruct (push_cookie r); [|discriminate]. injection E as <-. eapply one_host_same; [exact H1|exact Hn|reflexivity].
      * destruct (push_header r); [|discriminate]. cbn [negb] in E. destruct (header_handler _ _); [|discriminate]. injection E as <-.
        destruct H1 as [H1 H2]. unfold one_host. rewrite host_values_snoc, Hn, app_nil_r. cbn [headers add_header]. rewrite values_snoc, Eho, app_nil_r. auto.
Qed.

Lemma replay_one_host l r : replay l = (Keep, r) -> one_host l r.
Proof.
  revert r. induction l as [|h l IH] using rev_ind; intros r E.
  - injection E as <-. split; [reflexivity|left; reflexivity].
  - unfold process_fields in E. rewrite fold_left_app in E. cbn [fold_left] in E. fold (replay l) in E.
    destruct (replay l) as [v r1]. destruct v; try discriminate E. eapply field_one_host; [apply IH; reflexivity|exact E].
Qed.

End Host.

(** ** The request line and the cookies *)

Lemma request_line_some alloc l r line : request_of l r -> ngx_http_v2_construct_request_line alloc r = Some line ->
  exists m p, values (bs ":method") l = [m] /\ values (bs ":path") l = [p] /\ (exists s, values (bs ":scheme") l = [s] /\ scheme_ok s) /\
    m <> [] /\ forallb method_char m = true /\ path_ok p /\ alloc (zlen line) = true /\ line = m ++ bs " " ++ p ++ ending ++ [0].
Proof.
  intros [_ _ M _ Sc Pa _ _] E. unfold ngx_http_v2_construct_request_line in E.
  destruct M as [[_ M]|(M & Hm & Hc)]; [rewrite M in E; discriminate|].
  destruct Sc as [[_ S]|(S & _ & Hs)]; [rewrite S, orb_true_r in E; discriminate|].
  destruct Pa as [[_ Q]|(Q & _ & Hq)]; [rewrite Q, orb_true_r in E; discriminate|].
  destruct (_ || _); [discriminate|]. destruct (alloc _) eqn:Ea; [|discriminate]. injection E as <-.
  exists (method_name r), (unparsed_uri r). repeat split; eauto; try apply Hq. etransitivity; [|exact Ea]. f_equal. change (zlen ending) with 9. unfold zlen. rewrite !length_app. cbn [length]. rewrite ?length_app. cbn [length]. lia.
Qed.

Fixpoint joined (vals : list (list Z)) : list Z :=
  match vals with
  | [] => []
  | [v] => v
  | v :: vals => v ++ bs "; " ++ joined vals
  end.

Lemma cookie_len_sum vals : forall n, fold_left (fun n v => n + (zlen (v : list Z) + 2)) vals n = n + fold_left (fun n v => n + (zlen v + 2)) vals 0.
Proof. induction vals as [|v vals IH]; intros n; cbn [fold_left]; [lia|]. rewrite IH, (IH (0 + (zlen v + 2))). lia. Qed.

Lemma cookie_len_cons v w vals : cookie_len (v :: w :: vals) = zlen v + 2 + cookie_len (w :: vals).
Proof. unfold cookie_len. cbn [fold_left]. rewrite cookie_len_sum, (cookie_len_sum vals (0 + (zlen w + 2))). lia. Qed.

Lemma cookie_len_joined v vals : cookie_len (v :: vals) = zlen (joined (v :: vals)).
Proof.
  revert v. induction vals as [|w vals IH]; intros v; [unfold cookie_len; cbn; lia|].
  rewrite cookie_len_cons, IH. change (joined (v :: w :: vals)) with (v ++ bs "; " ++ joined (w :: vals)). rewrite !zlen_app.
  change (zlen (bs "; ")) with 2. lia.
Qed.

Lemma cookie_loop_cons v vals p last : cookie_loop (v :: vals) p last =
  if p + zlen v =? last then Some (v ++ [0])
  else match cookie_loop vals (p + zlen v + 2) last with Some o => Some (v ++ bs "; " ++ o) | None => None end.
Proof. reflexivity. Qed.

(** The end is reached after the last value and not before. *)
Lemma cookie_loop_joined v vals p : cookie_loop (v :: vals) p (p + cookie_len (v :: vals)) = Some (joined (v :: vals) ++ [0]).
Proof.
  revert v p. induction vals as [|w vals IH]; intros v p; rewrite cookie_loop_cons.
  - replace (_ =? _) with true by (unfold cookie_len; cbn; lia). reflexivity.
  - assert (0 <= cookie_len (w :: vals)) by (rewrite cookie_len_joined; unfold zlen; lia). rewrite cookie_len_cons.
    replace (_ =? _) with false by lia. replace (p + (zlen v + 2 + cookie_len (w :: vals))) with (p + zlen v + 2 + cookie_len (w :: vals)) by lia.
    rewrite IH.
    change (joined (v :: w :: vals)) with (v ++ bs "; " ++ joined (w :: vals)). rewrite <-!app_assoc. reflexivity.
Qed.

(** The whole of ngx_http_v2_construct_cookie_header(). *)
Definition cookie_header (alloc : Z -> bool) (vals : list (list Z)) (r : request) : Z * request * list Z :=
  let v := joined vals in
  if negb (alloc (zlen v + 1)) then (NGX_ERROR, r, [])
  else if negb (push_header r) then (NGX_ERROR, r, v ++ [0])
  else
    let h := mk_header (bs "cookie") v in
    (if header_handler (add_header h r) h then NGX_OK else NGX_ERROR, add_header h r, v ++ [0]).

Lemma construct_cookie_joined alloc r v vals : cookies r = Some (v :: vals) ->
  ngx_http_v2_construct_cookie_header header_handler push_header alloc r = Some (cookie_header alloc (v :: vals) r).
Proof.
  intros E. unfold ngx_http_v2_construct_cookie_header, cookie_header. rewrite E, cookie_len_joined. destruct (negb (alloc _)); [reflexivity|].
  rewrite <-cookie_len_joined. pose proof (cookie_loop_joined v vals 0) as El. rewrite Z.add_0_l in El. rewrite El.
  destruct (negb (push_header r)); [reflexivity|]. rewrite take_app_length'; [reflexivity|]. rewrite cookie_len_joined. unfold zlen. lia.
Qed.

End Replay.

(** ** Theorems *)

(** C23: A request of HTTP/2 that gets to the end of its header block is well
    formed, whatever the frames, the input and the way it comes in pieces:
    the request is the one its fields make, each of ":method", ":scheme" and
    ":path" at most once with a value of its syntax and no other
    pseudo-header than these and ":authority", the names of the headers have
    no capital letter, ":", space, control or DEL and the values no NUL, CR or
    LF; the request line that is built from it is one line of three words, in
    the memory allocated for it.  When the handler of the header "host" is
    ngx_http_process_host(), which it is in nginx, there is at most one
    ":authority" or "host" field, never both, and its value is not empty and
    has no slash, space, control or DEL and no two dots in a row. *)
Theorem v2_request_well_formed `{P : Platform} under ignore merge handler push_h push_c ok max_field n pad fl id limit t chunks s rest :
  recv_all ok max_field (v2_request under ignore merge handler push_h push_c) (Wait header_block (headers_frame n pad fl id limit t) []) chunks =
    Some (Done s rest) ->
  stream s = true ->
  exists r, process_fields under ignore merge handler push_h push_c (fields s) = (Keep, r) /\
    request_of (fields s) r /\
    Forall (fun h => name_ok (name h) /\ value_ok (value h)) (headers r) /\
    (forall pnalloc server set_vs,
       (forall r h, name h = bs "host" -> handler (add_header h r) h = ngx_http_process_host pnalloc server set_vs (add_header h r) h) ->
       values (bs "host") (headers r) = host_values (fields s) /\
       (host_values (fields s) = [] \/ exists v, host_values (fields s) = [v] /\ host_ok v)) /\
    forall alloc line, ngx_http_v2_construct_request_line alloc r = Some line ->
      exists m p, values (bs ":method") (fields s) = [m] /\ values (bs ":path") (fields s) = [p] /\
        (exists sc, values (bs ":scheme") (fields s) = [sc] /\ scheme_ok sc) /\
        m <> [] /\ forallb method_char m = true /\ path_ok p /\ alloc (zlen line) = true /\ line = m ++ bs " " ++ p ++ ending ++ [0].
Proof.
  intros E Hs. apply recv_all_kept in E; [|intros _; reflexivity]. specialize (E Hs). unfold v2_request in E.
  destruct (process_fields _ _ _ _ _ _ (fields s)) as [v r] eqn:Er. cbn in E. subst v. pose proof Er as Eh. apply replay_request in Er.
  exists r. split; [reflexivity|]. split; [exact Er|]. split; [eapply headers_valid, Er|]. split; [|intros alloc line; apply request_line_some, Er].
  intros pnalloc server set_vs Hh. exact (replay_one_host _ _ _ _ _ _ pnalloc server set_vs Hh _ _ Eh).
Qed.

(** The cookies of a request, which HTTP/2 may send in several fields,
    become one header: the values in their order with "; " between them.
    The loop that copies them ends with the last value, it does not read
    after the array, and it fills the memory allocated for it with the NUL,
    also when values are empty. *)
Theorem cookie_header_joins under ignore merge handler push_h push_c alloc l r :
  process_fields under ignore merge handler push_h push_c l = (Keep, r) ->
  ngx_http_v2_construct_cookie_header handler push_h alloc r =
    Some match values (bs "cookie") l with
         | [] => (NGX_OK, r, [])
         | vals => cookie_header handler push_h alloc vals r
         end.
Proof.
  intros E. apply replay_request in E as [_ _ _ _ _ _ _ Co]. destruct (values (bs "cookie") l) as [|v vals].
  - unfold ngx_http_v2_construct_cookie_header. rewrite Co. reflexivity.
  - apply construct_cookie_joined, Co.
Qed.

Definition no (_ : request) : bool := false.
Definition yes (_ : request) : bool := true.
Definition handles (_ : request) (_ : header) : bool := true.

Definition sample_fields : list header :=
  [mk_header (bs ":method") (bs "GET"); mk_header (bs ":scheme") (bs "https"); mk_header (bs ":path") (bs "/a?b");
   mk_header (bs "cookie") (bs "x=1"); mk_header (bs "cookie") []; mk_header (bs "te") (bs "trailers"); mk_header (bs "cookie") (bs "y=2")].

(** A second path, a capital letter and a line break end the stream. *)
Example refused_fields :
  v2_request no no yes handles yes yes (sample_fields ++ [mk_header (bs ":path") (bs "/")]) = End_stream /\
  v2_request no no yes handles yes yes [mk_header (bs "Te") []] = End_stream /\
  v2_request no no yes handles yes yes [mk_header (bs "te") [CR; LF]] = End_stream /\
  v2_request no no yes handles yes yes [mk_header (bs ":status") (bs "200")] = End_stream.
Proof. repeat split; vm_compute; reflexivity. Qed.

Lemma cookie_header_joins_witness :
  option_map snd (ngx_http_v2_construct_cookie_header handles yes (fun n => n =? 11) (snd (process_fields no no yes handles yes yes sample_fields))) =
    Some (bs "x=1; ; y=2" ++ [0]).
Proof.
  set (r := snd _). assert (process_fields no no yes handles yes yes sample_fields = (Keep, r)) as E by (vm_compute; reflexivity).
  rewrite (cookie_header_joins no no yes handles yes yes (fun n => n =? 11) sample_fields r E). vm_compute. reflexivity.
Defined.

(** A handler of the headers that knows "host" only, and a block with an
    authority. *)
Definition host_only (r : request) (h : header) : bool :=
  if same_bytes (name h) (bs "host") then ngx_http_process_host (fun _ => true) no (fun _ _ => true) r h else true.

Lemma host_only_host r h : name h = bs "host" ->
  host_only (add_header h r) h = ngx_http_process_host (fun _ => true) no (fun _ _ => true) (add_header h r) h.
Proof. intros E. unfold host_only. rewrite E. reflexivity. Defined.

(** Hosts: the port and the last dot are left out, letters become small, and
    two hosts are refused. *)
Example hosts :
  ngx_http_validate_host (fun _ => true) (bs "Example.org.:8080") false = (NGX_OK, bs "example.org") /\
  ngx_http_validate_host (fun _ => true) (bs "[::1]:80") false = (NGX_OK, bs "[::1]") /\
  ngx_http_validate_host (fun _ => true) (bs "a..b") false = (NGX_DECLINED, bs "a..b") /\
  ngx_http_validate_host (fun _ => true) (bs ":80") false = (NGX_DECLINED, bs ":80") /\
  v2_request no no yes host_only yes yes [mk_header (bs ":authority") (bs "a"); mk_header (bs "host") (bs "a")] = End_stream.
Proof. repeat split; vm_compute; reflexivity. Qed.

Definition sample_block : list Z :=
  [0x82; 0x87; 0x04; 0x04] ++ bs "/a?b" ++ [0x01; 0x01] ++ bs "a" ++ [0x00; 0x06] ++ bs "cookie" ++ [0x03] ++ bs "x=1".

Definition sample_frame : conn := Wait header_block (headers_frame (zlen sample_block) 0 4 1 32768 hpack_init) [].

Lemma v2_request_well_formed_witness :
  exists s r, @recv_all lp64 memory 8192 (v2_request no no yes host_only yes yes) sample_frame [take 5 sample_block; drop 5 sample_block] = Some (Done s []) /\
    process_fields no no yes host_only yes yes (fields s) = (Keep, r) /\
    values (bs "host") (headers r) = [bs "a"] /\
    exists m p, bs "GET /a?b HTTP/2.0" ++ [0] = m ++ bs " " ++ p ++ ending ++ [0] /\ path_ok p.
Proof.
  destruct (@recv_all lp64 memory 8192 (v2_request no no yes host_only yes yes) sample_frame [take 5 sample_block; drop 5 sample_block]) as [c|] eqn:E;
    [|vm_compute in E; discriminate].
  assert (match c with Done s [] => stream s = true /\
    ngx_http_v2_construct_request_line (fun _ => true) (snd (process_fields no no yes host_only yes yes (fields s))) = Some (bs "GET /a?b HTTP/2.0" ++ [0]) /\ host_values (fields s) = [bs "a"]
    | _ => False end) as Hc by (vm_compute in E; injection E as <-; vm_compute; repeat split; reflexivity).
  destruct c as [|e|s [|x rest]]; try contradiction. destruct Hc as (Hs & Hl & Ha).
  destruct (@v2_request_well_formed lp64 no no yes host_only yes yes memory 8192 (zlen sample_block) 0 4 1 32768 hpack_init
    [take 5 sample_block; drop 5 sample_block] s [] E Hs) as (r & Er & _ & _ & Hh & H).
  exists s, r. split; [reflexivity|]. split; [exact Er|]. rewrite Er in Hl.
  destruct (Hh _ _ _ host_only_host) as [Ev _]. rewrite Ha in Ev. split; [exact Ev|]. destruct (H _ _ Hl) as (m & p & _ & _ & _ & _ & _ & Hp & _ & El).
  exists m, p. split; [exact El|exact Hp].
Defined.

End V2Request.
