(* ===== verification/HttpLimitReq.v ===== *)
(** * Limits on the rate of requests

    http/modules/ngx_http_limit_req_module.c: a zone of shared memory holds a
    leaky bucket for every key, in a red-black tree to find them and in a queue
    to forget the oldest ones.  The zones are modelled on the memories of
    NgxRbtree and NgxQueue; the slab allocator is a parameter.  A first theorem
    shows that the operations on a zone implement those on a list of buckets in
    the order of their use; a second one bounds the number of requests that
    pass in any interval of time, as long as the zone has room for its keys.

    A node is named by one address in the three memories of a zone: its links
    in the tree, its links in the queue and its fields. *)

From Stdlib Require Import ZArith Lia ZifyBool.
From stdpp Require Import base option tactics gmap list sorting.
From S2P Require Import Prelude NgxState NgxRbtree NgxQueue NgxCrc32 NgxKeyTree.
Import Rbtree(ptr, NULL, mk_state, root, heap, mk_node).
Import KeyTree.

Local Open Scope Z_scope.

Module LimitReq.

Definition NGX_HTTP_LIMIT_REQ_PASSED : Z := 1.
Definition NGX_HTTP_LIMIT_REQ_DELAYED : Z := 2.
Definition NGX_HTTP_LIMIT_REQ_REJECTED : Z := 3.
Definition NGX_HTTP_LIMIT_REQ_DELAYED_DRY_RUN : Z := 4.
Definition NGX_HTTP_LIMIT_REQ_REJECTED_DRY_RUN : Z := 5.
Definition NGX_HTTP_INTERNAL_SERVER_ERROR : Z := 500.

(** [ngx_http_limit_req_node_t]; [data] holds the [len] bytes of the key. *)
Record lr_node := mk_lr { data : list Z; last : Z; excess : Z; count : Z }.

(** A zone: [ctx->sh] with its memory, and [ctx->node]. *)
Record zone := mk_zone { rb : Rbtree.state; links : gmap nat Queue.qnode; nodes : gmap nat lr_node; node : ptr }.

(** [ngx_http_limit_req_limit_t] with the rate of its zone. *)
Record limit := mk_limit { rate : Z; burst : Z; delay : Z }.

Definition lift_rb {A} (m : M Rbtree.state A) : M zone A := fun z =>
  match m (rb z) with Some (x, r) => Some (x, mk_zone r (links z) (nodes z) (node z)) | None => None end.
Definition lift_queue {A} (m : M (gmap nat Queue.qnode) A) : M zone A := fun z =>
  match m (links z) with Some (x, q) => Some (x, mk_zone (rb z) q (nodes z) (node z)) | None => None end.

Definition get_node (n : ptr) : M zone lr_node := gets_some (fun z => nodes z !! n).
Definition set_node (n : ptr) (f : lr_node -> lr_node) : M zone unit :=
  _ ← get_node n; modify (fun z => mk_zone (rb z) (links z) (alter f n (nodes z)) (node z)).
Definition set_ctx_node (n : ptr) : M zone unit := modify (fun z => mk_zone (rb z) (links z) (nodes z) n).

Definition with_data (d : list Z) (lr : lr_node) : lr_node := mk_lr d (last lr) (excess lr) (count lr).
Definition with_last (x : Z) (lr : lr_node) : lr_node := mk_lr (data lr) x (excess lr) (count lr).
Definition with_excess (x : Z) (lr : lr_node) : lr_node := mk_lr (data lr) (last lr) x (count lr).
Definition with_count (x : Z) (lr : lr_node) : lr_node := mk_lr (data lr) (last lr) (excess lr) x.

(** The string of a node of the tree. *)
Definition data_of (ns : gmap nat lr_node) (n : ptr) : list Z :=
  match ns !! n with Some lr => data lr | None => [] end.

Section Zone.
Context `{P : Platform}.
(** [NGX_DEBUG] *)
Variable debug : bool.
(** [&ctx->sh->sentinel] and [&ctx->sh->queue] *)
Variables sentinel queue : ptr.
(** [ngx_slab_alloc_locked()]: the addresses in use and the size give an
    address or [NULL]. *)
Variable slab_alloc : gset nat -> Z -> option ptr.

Local Abbreviation uint x := (wrapu ptr_size x).
Local Abbreviation int x := (to_signed ptr_size x).

(** The time since the last request of a key, which another process may have
    seen at a later time. *)
Definition elapsed (now lst : Z) : Z :=
  let ms := int (now - lst) in
  if ms <? -60000 then 1 else if ms <? 0 then 0 else ms.

(** [lr->excess - ctx->rate * ms / 1000 + 1000], not below zero. *)
Definition fill (rt ms e : Z) : Z :=
  let e := int (uint (e - uint (rt * ms) / 1000 + 1000)) in
  if e <? 0 then 0 else e.

(** [d] gives the strings of the nodes. *)
Definition ngx_http_limit_req_rbtree_insert_value (d : ptr -> list Z) : ptr -> ptr -> M Rbtree.state unit :=
  Rbtree.insert_by sentinel (node_less d).

Definition find (hash : Z) (key : list Z) : M zone (option ptr) :=
  d ← gets (fun z => data_of (nodes z));
  lift_rb (Rbtree.rbtree_lookup sentinel (node_cmp d hash key)).

Definition slab_alloc_locked (size : Z) : M zone ptr :=
  used ← gets (fun z => dom (nodes z));
  match slab_alloc used size with
  | None => mret NULL
  | Some n =>
      modify (fun z => mk_zone (mk_state (root (rb z)) (<[n := Rbtree.blank]> (heap (rb z))))
        (<[n := Queue.mk_qnode NULL NULL]> (links z)) (<[n := mk_lr [] 0 0 0]> (nodes z)) (node z)) ;;
      mret n
  end.

Definition slab_free_locked (n : ptr) : M zone unit :=
  modify (fun z => mk_zone (mk_state (root (rb z)) (delete n (heap (rb z)))) (delete n (links z)) (delete n (nodes z)) (node z)).

Definition ngx_abs (x : Z) : Z := if x >=? 0 then x else int (- x).

(** [n] grows in every iteration, so that there are at most three. *)
Fixpoint expire_loop (f : nat) (rt now n : Z) : M zone unit :=
  if n <? 3 then
    match f with
    | O => mfail
    | S f =>
        empty ← lift_queue (Queue.ngx_queue_empty queue);
        if (empty : bool) then skip
        else
          q ← lift_queue (Queue.ngx_queue_last queue);
          lr ← get_node q;
          if negb (count lr =? 0) then skip
          else if negb (n =? 0) &&
            (let ms := ngx_abs (int (now - last lr)) in
             (ms <? 60000) || (int (uint (excess lr - uint (rt * ms) / 1000)) >? 0))
          then skip
          else
            lift_queue (Queue.ngx_queue_remove debug q) ;;
            lift_rb (Rbtree.ngx_rbtree_delete sentinel q) ;;
            slab_free_locked q ;;
            expire_loop f rt now (n + 1)
    end
  else skip.

Definition ngx_http_limit_req_expire (rt now n : Z) : M zone unit := expire_loop 3 rt now n.

(** The size of a node: the fields of [ngx_rbtree_node_t] before [color] and
    those of [ngx_http_limit_req_node_t] before [data], in words. *)
Definition node_size (key : list Z) : Z := (4 + 6) * (bits ptr_size / 8) + Z.of_nat (length key).

Definition new_node (now hash : Z) (key : list Z) (account : bool) (n : ptr) : M zone Z :=
  lift_rb (Rbtree.store n (Rbtree.with_key hash)) ;;
  set_node n (with_excess 0) ;;
  set_node n (with_data key) ;;
  d ← gets (fun z => data_of (nodes z));
  lift_rb (Rbtree.ngx_rbtree_insert sentinel (ngx_http_limit_req_rbtree_insert_value d) n) ;;
  lift_queue (Queue.ngx_queue_insert_head queue n) ;;
  if account then
    set_node n (with_last now) ;;
    set_node n (with_count 0) ;;
    mret NGX_OK
  else
    set_node n (with_last 0) ;;
    set_node n (with_count 1) ;;
    set_ctx_node n ;;
    mret NGX_AGAIN.

(** The code and [*ep]. *)
Definition ngx_http_limit_req_lookup (l : limit) (now hash : Z) (key : list Z) (account : bool) : M zone (Z * Z) :=
  r ← find hash key;
  match r with
  | Some n =>
      lift_queue (Queue.ngx_queue_remove debug n) ;;
      lift_queue (Queue.ngx_queue_insert_head queue n) ;;
      lr ← get_node n;
      let ms := elapsed now (last lr) in
      let e := fill (rate l) ms (excess lr) in
      if e >? burst l then mret (NGX_BUSY, e)
      else if account then
        set_node n (with_excess e) ;;
        (if negb (ms =? 0) then set_node n (with_last now) else skip) ;;
        mret (NGX_OK, e)
      else
        set_node n (fun lr => with_count (uint (count lr + 1)) lr) ;;
        set_ctx_node n ;;
        mret (NGX_AGAIN, e)
  | None =>
      ngx_http_limit_req_expire (rate l) now 1 ;;
      n ← slab_alloc_locked (node_size key);
      n ← (if decide (n = NULL) then
             ngx_http_limit_req_expire (rate l) now 0 ;;
             slab_alloc_locked (node_size key)
           else mret n);
      if decide (n = NULL) then mret (NGX_ERROR, 0)
      else rc ← new_node now hash key account n; mret (rc, 0)
  end.

(** [(excess - limit->delay) * 1000 / ctx->rate] when the excess is over the
    limit. *)
Definition delay_of (l : limit) (e : Z) : Z :=
  if e <=? delay l then 0 else uint (uint (e - delay l) * 1000) / rate l.

(** One zone of [ngx_http_limit_req_account]: the delay, of a zone with a
    node. *)
Definition account_zone (l : limit) (now : Z) : M zone Z :=
  n ← gets node;
  if decide (n = NULL) then mret 0
  else
    lr ← get_node n;
    let ms := elapsed now (last lr) in
    let e := fill (rate l) ms (excess lr) in
    (if negb (ms =? 0) then set_node n (with_last now) else skip) ;;
    set_node n (with_excess e) ;;
    set_node n (fun lr => with_count (uint (count lr - 1)) lr) ;;
    set_ctx_node NULL ;;
    mret (delay_of l e).

Definition unlock_zone : M zone unit :=
  n ← gets node;
  if decide (n = NULL) then skip
  else set_node n (fun lr => with_count (uint (count lr - 1)) lr) ;; set_ctx_node NULL.

(** ** The zones of a request *)

Definition lift_zone {A} (i : nat) (m : M zone A) : M (list zone) A := fun zs =>
  match zs !! i with
  | Some z => match m z with Some (x, z) => Some (x, <[i := z]> zs) | None => None end
  | None => None
  end.

(** The loops run down from [n]. *)
Fixpoint account_loop (limits : list limit) (now : Z) (n : nat) (max_delay : Z) : M (list zone) Z :=
  match n with
  | O => mret max_delay
  | S n =>
      match limits !! n with
      | None => mfail
      | Some l =>
          d ← lift_zone n (account_zone l now);
          account_loop limits now n (if d >? max_delay then d else max_delay)
      end
  end.

Definition ngx_http_limit_req_account (limits : list limit) (now : Z) (n : nat) (e : Z) (l : limit) : M (list zone) Z :=
  account_loop limits now n (delay_of l e).

Fixpoint ngx_http_limit_req_unlock (n : nat) : M (list zone) unit :=
  match n with
  | O => skip
  | S n => lift_zone n unlock_zone ;; ngx_http_limit_req_unlock n
  end.

(** How the loop over the limits ends: with an error of a key, or with a code,
    an excess, a position and the limit at it. *)
Inductive looped := Key_error (n : nat) | Looped (rc e : Z) (n : nat) (l : option limit).

(** [keys] are the values of the keys, [None] for an error. *)
Fixpoint limit_loop (limits : list limit) (keys : list (option (list Z))) (now : Z) (n : nat) (rc e : Z) (lst : option limit) :
  M (list zone) looped :=
  match limits, keys with
  | l :: ls, k :: ks =>
      match k with
      | None => mret (Key_error n)
      | Some key =>
          if Nat.eqb (length key) 0 then limit_loop ls ks now (S n) rc e (Some l)
          else if Z.of_nat (length key) >? 65535 then limit_loop ls ks now (S n) rc e (Some l)
          else
            r ← lift_zone n (ngx_http_limit_req_lookup l now (Crc32.ngx_crc32_short key) key (Nat.eqb (length ls) 0));
            let '(rc, e) := r in
            if negb (rc =? NGX_AGAIN) then mret (Looped rc e n (Some l))
            else limit_loop ls ks now (S n) rc e (Some l)
      end
  | _, _ => mret (Looped rc e n lst)
  end.

(** [ngx_http_limit_req_handler]: the code it returns,
    [r->main->limit_req_status] and the timer it starts. [read_ready] and
    [read_event] stand for [r->connection->read->ready] and for the success of
    ngx_handle_read_event(). *)
Definition ngx_http_limit_req_handler (limits : list limit) (keys : list (option (list Z))) (now : Z)
  (dry_run : bool) (status_code : Z) (read_ready read_event : bool) (status : Z) : M (list zone) (Z * Z * option Z) :=
  if negb (status =? 0) then mret (NGX_DECLINED, status, None)
  else
    o ← limit_loop limits keys now 0 NGX_DECLINED 0 None;
    match o with
    | Key_error n => ngx_http_limit_req_unlock n ;; mret (NGX_HTTP_INTERNAL_SERVER_ERROR, status, None)
    | Looped rc e n lst =>
        if rc =? NGX_DECLINED then mret (NGX_DECLINED, status, None)
        else if (rc =? NGX_BUSY) || (rc =? NGX_ERROR) then
          ngx_http_limit_req_unlock n ;;
          (if (dry_run : bool) then mret (NGX_DECLINED, NGX_HTTP_LIMIT_REQ_REJECTED_DRY_RUN, None)
           else mret (status_code, NGX_HTTP_LIMIT_REQ_REJECTED, None))
        else
          match lst with
          | None => mfail
          | Some l =>
              let e := if rc =? NGX_AGAIN then 0 else e in
              d ← ngx_http_limit_req_account limits now n e l;
              if d =? 0 then mret (NGX_DECLINED, NGX_HTTP_LIMIT_REQ_PASSED, None)
              else if (dry_run : bool) then mret (NGX_DECLINED, NGX_HTTP_LIMIT_REQ_DELAYED_DRY_RUN, None)
              else if negb read_ready && negb read_event then
                mret (NGX_HTTP_INTERNAL_SERVER_ERROR, NGX_HTTP_LIMIT_REQ_DELAYED, None)
              else mret (NGX_AGAIN, NGX_HTTP_LIMIT_REQ_DELAYED, Some d)
          end
    end.

(** A new zone. *)
Definition ngx_http_limit_req_init_zone : M zone unit :=
  lift_rb (Rbtree.ngx_rbtree_init sentinel) ;;
  lift_queue (Queue.ngx_queue_init queue).

End Zone.

(** ** Buckets

    A zone as the list of its buckets, the last one used first. *)

Section Buckets.
Context `{P : Platform}.

Fixpoint take_bucket (key : list Z) (B : list lr_node) : option (lr_node * list lr_node) :=
  match B with
  | [] => None
  | b :: B =>
      if decide (data b = key) then Some (b, B)
      else match take_bucket key B with Some (x, R) => Some (x, b :: R) | None => None end
  end.

(** A bucket that may be forgotten, [n] being the number of those that were
    considered before. *)
Definition stale (rt now n : Z) (b : lr_node) : bool :=
  (count b =? 0) &&
  ((n =? 0) ||
   negb (let ms := ngx_abs (to_signed ptr_size (now - last b)) in
         (ms <? 60000) || (to_signed ptr_size (wrapu ptr_size (excess b - wrapu ptr_size (rt * ms) / 1000)) >? 0))).

Fixpoint forget (f : nat) (rt now n : Z) (B : list lr_node) : list lr_node :=
  match f with
  | O => B
  | S f =>
      match List.last (map Some B) None with
      | None => B
      | Some b => if (n <? 3) && stale rt now n b then forget f rt now (n + 1) (removelast B) else B
      end
  end.

Definition expire_buckets (rt now n : Z) (B : list lr_node) : list lr_node := forget 3 rt now n B.

(** What a lookup does: [ok1] and [ok2] say that the allocations succeed; the
    last component is the key of [ctx->node]. *)
Definition lookup_buckets (l : limit) (now : Z) (key : list Z) (account ok1 ok2 : bool) (B : list lr_node) :
  Z * Z * list lr_node * option (list Z) :=
  match take_bucket key B with
  | Some (b, R) =>
      let ms := elapsed now (last b) in
      let e := fill (rate l) ms (excess b) in
      if e >? burst l then (NGX_BUSY, e, b :: R, None)
      else if account then (NGX_OK, e, mk_lr key (if ms =? 0 then last b else now) e (count b) :: R, None)
      else (NGX_AGAIN, e, with_count (wrapu ptr_size (count b + 1)) b :: R, Some key)
  | None =>
      let B1 := expire_buckets (rate l) now 1 B in
      let B2 := if ok1 then B1 else expire_buckets (rate l) now 0 B1 in
      if negb ok1 && negb ok2 then (NGX_ERROR, 0, B2, None)
      else if account then (NGX_OK, 0, mk_lr key now 0 0 :: B2, None)
      else (NGX_AGAIN, 0, mk_lr key 0 0 1 :: B2, Some key)
  end.

(** The bucket of [ctx->node] is charged, and released. *)
Definition charge (l : limit) (now : Z) (b : lr_node) : lr_node :=
  let ms := elapsed now (last b) in
  mk_lr (data b) (if ms =? 0 then last b else now) (fill (rate l) ms (excess b)) (wrapu ptr_size (count b - 1)).

Definition change_bucket (key : list Z) (f : lr_node -> lr_node) (B : list lr_node) : list lr_node :=
  map (fun b => if decide (data b = key) then f b else b) B.

Lemma take_bucket_sub k B b R x : take_bucket k B = Some (b, R) -> (x ∈ R -> x ∈ B) /\ b ∈ B /\ data b = k.
Proof.
  revert R. induction B as [|y B IH]; intros R; [done|]. cbn [take_bucket]. destruct (decide (data y = k)) as [E|E].
  - intros [= -> ->]. set_solver.
  - destruct (take_bucket k B) as [[z R']|]; [|done]. intros [= -> <-]. destruct (IH R' eq_refl) as (H1 & H2 & H3). set_solver.
Qed.

Lemma forget_sub f rt now n B x : x ∈ forget f rt now n B -> x ∈ B.
Proof.
  revert n B. induction f as [|f IH]; intros n B; [done|]. cbn. destruct (List.last _ _); [|done]. destruct (_ && _); [|done].
  intros Hx%IH. destruct B as [|b B _] using rev_ind; [done|]. rewrite removelast_last in Hx. set_solver.
Qed.

(** A lookup knows no keys but its own and those of the buckets. *)
Lemma lookup_keys l now key ok1 ok2 B rc e B' pin x : lookup_buckets l now key true ok1 ok2 B = (rc, e, B', pin) ->
  x ∈ data <$> B' -> x = key \/ x ∈ data <$> B.
Proof.
  unfold lookup_buckets. destruct (take_bucket key B) as [[b R]|] eqn:Et.
  - assert (forall y, y ∈ R -> y ∈ B) as HR by (intros y; apply (take_bucket_sub key B b R y Et)).
    destruct (take_bucket_sub key B b R b Et) as (_ & _ & Hk).
    case_match; intros E; simplify_eq; intros [->|(y & -> & Hy)%list_elem_of_fmap]%elem_of_cons; cbn; auto; right; apply list_elem_of_fmap; eauto.
  - assert (forall (ok : bool) y, y ∈ (if ok then expire_buckets (rate l) now 1 B else expire_buckets (rate l) now 0 (expire_buckets (rate l) now 1 B)) -> y ∈ B) as HB.
    { intros [] y Hy; repeat apply forget_sub in Hy; done. }
    case_match; intros E; simplify_eq; [intros (y & -> & Hy%HB)%list_elem_of_fmap; right; apply list_elem_of_fmap; eauto|].
    intros [->|(y & -> & Hy%HB)%list_elem_of_fmap]%elem_of_cons; cbn; auto. right; apply list_elem_of_fmap; eauto.
Qed.

Lemma forget_length f rt now n B : (length (forget f rt now n B) <= length B)%nat.
Proof.
  revert n B. induction f as [|f IH]; intros n B; [done|]. cbn. destruct (List.last _ _); [|done]. destruct (_ && _); [|done].
  etrans; [apply IH|]. destruct B as [|b B _] using rev_ind; [done|]. rewrite removelast_last, length_app. lia.
Qed.

End Buckets.

(** ** The invariant of a zone *)

Section Invariant.
Context `{P : Platform}.
Variable debug : bool.
Variables s q : ptr.
Variable slab_alloc : gset nat -> Z -> option ptr.
(** The allocator gives free addresses. *)
Hypothesis alloc_fresh : forall D n a, slab_alloc D n = Some a -> (a ∉ D) /\ a <> NULL /\ a <> s /\ a <> q.

Definition hash_of (key : list Z) : Z := Crc32.ngx_crc32_short key.

Record holds (z : zone) (ns : list ptr) (L : list (ptr * Z)) (B : list lr_node) : Prop := {
  holds_queue : Queue.queue_at (links z) q ns;
  holds_nodes : Forall2 (fun n b => nodes z !! n = Some b) ns B;
  holds_dom : forall n, is_Some (nodes z !! n) -> n ∈ ns;
  holds_tree : Rbtree.tree_at s (rb z) L;
  holds_sorted : Rbtree.sorted (node_less (data_of (nodes z))) L;
  holds_addrs : L.*1 ≡ₚ ns;
  holds_hash : forall n k, (n, k) ∈ L -> k = hash_of (data_of (nodes z) n);
  holds_keys : NoDup (data <$> B);
  holds_null : NULL ∉ ns
}.

(** The zone [z] holds the buckets [B], the last one used first, and
    [ctx->node] is the bucket of the key [pin]. *)
Definition zone_at (z : zone) (B : list lr_node) (pin : option (list Z)) : Prop :=
  exists ns L, holds z ns L B /\
    match pin with
    | None => node z = NULL
    | Some key => node z ∈ ns /\ data_of (nodes z) (node z) = key
    end.

Lemma wp_lift_rb {A} (m : M Rbtree.state A) z (Q : A -> zone -> Prop) :
  wp m (rb z) (fun x r => Q x (mk_zone r (links z) (nodes z) (node z))) -> wp (lift_rb m) z Q.
Proof. unfold wp, lift_rb. by destruct (m (rb z)) as [[x r]|]. Qed.

Lemma wp_lift_queue {A} (m : M (gmap nat Queue.qnode) A) z (Q : A -> zone -> Prop) :
  wp m (links z) (fun x r => Q x (mk_zone (rb z) r (nodes z) (node z))) -> wp (lift_queue m) z Q.
Proof. unfold wp, lift_queue. by destruct (m (links z)) as [[x r]|]. Qed.

Lemma wp_get_node n b z Q : nodes z !! n = Some b -> Q b z -> wp (get_node n) z Q.
Proof. intros. by apply (wp_gets_some _ b). Qed.

Lemma wp_set_node n f b z Q : nodes z !! n = Some b ->
  Q tt (mk_zone (rb z) (links z) (<[n := f b]> (nodes z)) (node z)) -> wp (set_node n f) z Q.
Proof.
  intros Hb HQ. apply wp_bind, (wp_get_node n b); [done|]. apply wp_modify.
  replace (alter f n (nodes z)) with (<[n := f b]> (nodes z)); [done|].
  apply map_eq. intros a. destruct (decide (a = n)) as [->|Ha].
  - rewrite lookup_insert_eq, lookup_alter_eq. change (Some (f b) = f <$> nodes z !! n). by rewrite Hb.
  - by rewrite lookup_insert_ne, lookup_alter_ne.
Qed.

Lemma zone_eta z : mk_zone (rb z) (links z) (nodes z) (node z) = z.
Proof. by destruct z. Qed.

Lemma data_of_some ns n b : ns !! n = Some b -> data_of ns n = data b.
Proof. unfold data_of. by intros ->. Qed.

Lemma Forall2_weaken {X Y} (R R' : X -> Y -> Prop) l k :
  Forall2 R l k -> (forall a b, a ∈ l -> R a b -> R' a b) -> Forall2 R' l k.
Proof.
  induction 1 as [|a b l k Hab H IH]; intros HR; [constructor|]. constructor; [apply HR; [left|done]|].
  apply IH. intros x y Hx. apply HR. by right.
Qed.

(** A change of a node that keeps its key. *)
Lemma holds_change z A n C L BA b BC b' p : holds z (A ++ n :: C) L (BA ++ b :: BC) -> length A = length BA ->
  data b' = data b -> holds (mk_zone (rb z) (links z) (<[n := b']> (nodes z)) p) (A ++ n :: C) L (BA ++ b' :: BC).
Proof.
  intros [Hq Hn Hd Ht Hs Ha Hh Hk H0] Hl Hb.
  apply Forall2_app_inv in Hn as [HA HC]; [|done]. apply Forall2_cons in HC as [Hnb HC].
  assert (forall a, data_of (<[n := b']> (nodes z)) a = data_of (nodes z) a) as Hdata.
  { intros a. unfold data_of. destruct (decide (a = n)) as [->|Han]; [by rewrite lookup_insert_eq, Hnb|by rewrite lookup_insert_ne]. }
  assert (NoDup (A ++ n :: C)) as Hnd by (destruct Hq as [Hq _]; by apply NoDup_cons in Hq as [_ ?]).
  apply NoDup_app in Hnd as (HdA & HAC & HdC). apply NoDup_cons in HdC as [HnC HdC].
  constructor; cbn [links nodes rb]; try done.
  - apply Forall2_app; [|constructor; [by rewrite lookup_insert_eq|]].
    + eapply Forall2_weaken; [exact HA|]. intros a x Ha' Hx. rewrite lookup_insert_ne; [done|]. intros ->. apply (HAC a); set_solver.
    + eapply Forall2_weaken; [exact HC|]. intros a x Ha' Hx. rewrite lookup_insert_ne; [done|]. intros ->. set_solver.
  - intros a. destruct (decide (a = n)) as [->|Han]; [set_solver|]. rewrite lookup_insert_ne by done. apply Hd.
  - eapply sorted_data; [|exact Hs]. intros a _. apply Hdata.
  - intros a k Hak. rewrite Hdata. by apply Hh.
  - rewrite fmap_app, fmap_cons in *. by rewrite Hb.
Qed.

Lemma holds_split z ns L B n : holds z ns L B -> n ∈ ns -> exists A C BA b BC,
  ns = A ++ n :: C /\ B = BA ++ b :: BC /\ length A = length BA /\ nodes z !! n = Some b.
Proof.
  intros H Hn. pose proof (holds_nodes _ _ _ _ H) as HF. apply list_elem_of_split in Hn as (A & C & ->).
  apply Forall2_app_inv_l in HF as (BA & B2 & HA & HC & ->). apply Forall2_cons_inv_l in HC as (b & BC & Hb & HC & ->).
  exists A, C, BA, b, BC. split_and!; [done..| |done]. by eapply Forall2_length.
Qed.

Lemma holds_find z ns L B key : holds z ns L B ->
  wp (find s (hash_of key) key) z (fun r z' => z' = z /\
    match r with Some n => n ∈ ns /\ data_of (nodes z) n = key | None => key ∉ data <$> B end).
Proof.
  intros H. unfold find. apply wp_bind, wp_gets, wp_lift_rb. eapply wp_mono.
  { eapply Rbtree.lookup_spec; [apply (holds_tree _ _ _ _ H)|]. apply node_monotone, (holds_sorted _ _ _ _ H). }
  intros r σ [-> Hf%node_found]. split; [apply zone_eta|]. destruct r as [n|].
  - destruct Hf as [Hn Hk]. split; [|done]. rewrite <- (holds_addrs _ _ _ _ H). by apply (list_elem_of_fmap_2 fst _ _ Hn).
  - intros (b & -> & Hb)%list_elem_of_fmap. pose proof (holds_nodes _ _ _ _ H) as HF. apply list_elem_of_lookup_1 in Hb as [i Hi].
    eapply Forall2_lookup_r in HF as (n & Hn & Hnb); [|done]. apply list_elem_of_lookup_2 in Hn.
    rewrite <- (holds_addrs _ _ _ _ H) in Hn. apply list_elem_of_fmap in Hn as ([n' k] & -> & Hk). cbn in *.
    pose proof (holds_hash _ _ _ _ H _ _ Hk) as Hh. rewrite (data_of_some _ _ _ Hnb) in Hh. subst k.
    apply (Hf _ Hk). by apply data_of_some.
Qed.

Lemma take_bucket_none key B : key ∉ data <$> B -> take_bucket key B = None.
Proof.
  induction B as [|b B IH]; cbn; [done|]. rewrite not_elem_of_cons. intros [H1 H2]. rewrite decide_False by congruence. by rewrite IH.
Qed.

Lemma take_bucket_some BA b BC : NoDup (data <$> BA ++ b :: BC) -> take_bucket (data b) (BA ++ b :: BC) = Some (b, BA ++ BC).
Proof.
  induction BA as [|x BA IH]; cbn; intros Hd; [by rewrite decide_True|]. apply NoDup_cons in Hd as [Hx Hd].
  rewrite decide_False; [by rewrite IH|]. intros E. apply Hx. rewrite fmap_app, fmap_cons, E. set_solver.
Qed.

Lemma holds_bump z A n C L BA b BC : holds z (A ++ n :: C) L (BA ++ b :: BC) -> length A = length BA ->
  wp (lift_queue (Queue.ngx_queue_remove debug n) ;; lift_queue (Queue.ngx_queue_insert_head q n)) z (fun _ z' =>
    nodes z' = nodes z /\ node z' = node z /\ holds z' (n :: A ++ C) L (b :: BA ++ BC)).
Proof.
  intros [Hq Hn Hd Ht Hs Ha Hh Hk H0] Hl. apply wp_bind, wp_lift_queue. pose proof Hq as [Hnd _].
  assert (n ∉ q :: A ++ C) as Hnq.
  { change (q :: A ++ n :: C) with ((q :: A) ++ n :: C) in Hnd. rewrite <- Permutation_middle in Hnd. by apply NoDup_cons in Hnd as [? _]. }
  assert (is_Some (links z !! n)) as Hsome by (eapply (Queue.queue_alloc _ q); [exact Hq|set_solver]).
  eapply wp_mono; [by eapply Queue.remove_spec|]. intros _ lk [Hsame Hq1]. apply wp_lift_queue. cbn [links rb nodes node].
  eapply wp_mono; [apply Queue.insert_head_spec; [exact Hq1|by apply Hsame|done]|]. intros _ lk2 [_ Hq2]. cbn [nodes node].
  split; [done|]. split; [done|]. apply Forall2_app_inv in Hn as [HA HC]; [|done]. apply Forall2_cons in HC as [Hnb HC].
  constructor; cbn [links nodes rb]; try done.
  - constructor; [done|]. by apply Forall2_app.
  - intros a Hsa. specialize (Hd a Hsa). set_solver.
  - rewrite Ha. by rewrite Permutation_middle.
  - rewrite fmap_cons, fmap_app in *. cbn in *. by rewrite Permutation_middle.
  - set_solver.
Qed.

Lemma remove_addrs n L : (Rbtree.remove n L).*1 = base.filter (fun a => a <> n) L.*1.
Proof.
  unfold Rbtree.remove. induction L as [|e L IH]; [done|]. rewrite fmap_cons, !filter_cons.
  destruct (decide (e.1 <> n)) as [Hn|Hn]; [|exact IH]. rewrite fmap_cons. by f_equal.
Qed.

Lemma filter_not_in (n : ptr) (l : list ptr) : n ∉ l -> base.filter (fun a => a <> n) l = l.
Proof.
  induction l as [|a l IH]; [done|]. rewrite not_elem_of_cons. intros [Ha Hl]. rewrite filter_cons_True by congruence. by rewrite IH.
Qed.

Lemma holds_delete z A n C L BA b BC : holds z (A ++ n :: C) L (BA ++ b :: BC) -> length A = length BA ->
  wp (lift_queue (Queue.ngx_queue_remove debug n) ;; lift_rb (Rbtree.ngx_rbtree_delete s n) ;; slab_free_locked n) z (fun _ z' =>
    node z' = node z /\ holds z' (A ++ C) (Rbtree.remove n L) (BA ++ BC)).
Proof.
  intros [Hq Hn Hd Ht Hs Ha Hh Hk H0] Hl. apply wp_bind, wp_lift_queue. pose proof Hq as [Hnd _].
  assert (n ∉ q :: A ++ C) as Hnq.
  { change (q :: A ++ n :: C) with ((q :: A) ++ n :: C) in Hnd. rewrite <- Permutation_middle in Hnd. by apply NoDup_cons in Hnd as [? _]. }
  eapply wp_mono; [by eapply Queue.remove_spec|]. intros _ lk [Hsame Hq1]. apply wp_bind, wp_lift_rb. cbn [links rb nodes node].
  eapply wp_mono; [apply Rbtree.delete_spec; [exact Ht|]|].
  { rewrite Ha. set_solver. }
  intros _ σ (Ht1 & _ & _). apply wp_modify. cbn [links rb nodes node]. split; [done|].
  apply Forall2_app_inv in Hn as [HA HC]; [|done]. apply Forall2_cons in HC as [Hnb HC].
  assert ((Rbtree.remove n L).*1 ≡ₚ A ++ C) as Ha1.
  { rewrite remove_addrs, Ha, filter_app, filter_cons, decide_False by tauto. rewrite <- filter_app.
    rewrite filter_not_in; [done|]. set_solver. }
  assert (forall a, a <> n -> data_of (delete n (nodes z)) a = data_of (nodes z) a) as Hdata.
  { intros a Han. unfold data_of. by rewrite lookup_delete_ne. }
  assert (forall a, a ∈ (Rbtree.remove n L).*1 -> a <> n) as Hne by (intros a; rewrite Ha1; set_solver).
  constructor; cbn [links nodes rb]; try done.
  - destruct Hq1 as [Hnd1 Hc1]. split; [done|]. eapply Queue.chain_keep; [| |exact Hc1].
    + rewrite Queue.src_ring. intros a x Hax. unfold Queue.nx. rewrite lookup_delete_ne; [done|]. intros ->. done.
    + rewrite Queue.tgt_ring. intros a x Hax. unfold Queue.pv. rewrite lookup_delete_ne; [done|]. intros ->. set_solver.
  - apply Forall2_app; (eapply Forall2_weaken; [done|]); intros a x Hax Hx; (rewrite lookup_delete_ne; [done|]); set_solver.
  - intros a. destruct (decide (a = n)) as [->|Han]; [rewrite lookup_delete_eq; by intros []|]. rewrite lookup_delete_ne by done.
    intros Hsa. specialize (Hd a Hsa). set_solver.
  - eapply Rbtree.tree_agree; [exact Ht1|done|]. cbn [heap]. intros a Has. apply lookup_delete_ne. intros <-.
    apply elem_of_cons in Has as [->|Has]; [|by apply (Hne n)]. destruct Ht as (Hds & _). apply NoDup_cons in Hds as [Hds _].
    apply Hds. rewrite Ha. set_solver.
  - eapply sorted_data; [|by apply Rbtree.remove_sorted]. intros a Hax. apply Hdata. by apply Hne.
  - intros a k Hak. rewrite Hdata by (apply Hne; by apply (list_elem_of_fmap_2 fst _ _ Hak)). apply Hh.
    unfold Rbtree.remove in Hak. by apply list_elem_of_filter in Hak as [_ ?].
  - rewrite fmap_app, fmap_cons in *. rewrite <- Permutation_middle in Hk. by apply NoDup_cons in Hk as [_ ?].
  - set_solver.
Qed.

Definition held (z : zone) (B : list lr_node) : Prop := exists ns L, holds z ns L B.

Lemma expire_buckets_spec f rt now n z B : held z B -> 0 <= n -> 3 - n <= Z.of_nat f ->
  wp (expire_loop debug s q f rt now n) z (fun _ z' => node z' = node z /\ held z' (forget f rt now n B)).
Proof.
  revert n z B. induction f as [|f IH]; intros n z B H Hn Hf.
  { cbn. replace (n <? 3) with false by lia. by apply wp_skip. }
  cbn [expire_loop forget]. destruct (Z.ltb_spec n 3) as [Hn3|Hn3]; cbn [andb].
  2:{ apply wp_skip. split; [done|]. by destruct (List.last _ _). }
  destruct H as (ns & L & H). pose proof (holds_queue _ _ _ _ H) as Hq. pose proof (holds_nodes _ _ _ _ H) as Hns.
  apply wp_bind, wp_lift_queue. eapply Queue.empty_spec; [exact Hq|]. rewrite zone_eta.
  destruct (decide (ns = [])) as [->|Hne].
  { rewrite bool_decide_eq_true_2 by done. apply Forall2_nil_inv_l in Hns as ->. apply wp_skip. split; [done|]. by exists [], L. }
  rewrite bool_decide_eq_false_2 by done. apply wp_bind, wp_lift_queue. eapply Queue.last_spec; [exact Hq|]. rewrite zone_eta.
  destruct (exists_last Hne) as (A & a & ->). rewrite last_last.
  apply Forall2_app_inv_l in Hns as (BA & B2 & HA & HC & ->). apply Forall2_cons_inv_l in HC as (b & BC & Hb & HC & ->).
  apply Forall2_nil_inv_l in HC as ->. rewrite map_app. cbn [map]. rewrite last_last, removelast_last.
  apply wp_bind, (wp_get_node _ b); [done|]. unfold stale. destruct (count b =? 0); cbn [negb andb].
  2:{ apply wp_skip. split; [done|]. by exists (A ++ [a]), L. }
  assert (forall x : bool, negb (n =? 0) && x = negb ((n =? 0) || negb x)) as -> by (intros x; by destruct (n =? 0), x).
  destruct ((n =? 0) || _); cbn [negb].
  2:{ apply wp_skip. split; [done|]. by exists (A ++ [a]), L. }
  assert (length A = length BA) as Hl by (by eapply Forall2_length). pose proof (holds_delete z A a [] L BA b [] H Hl) as Hdel.
  unfold wp in Hdel |- *. cbn [mbind M_bind] in *. unfold mbind, M_bind in *.
  destruct (lift_queue _ z) as [[[] z1]|]; [|done]. destruct (lift_rb _ z1) as [[[] z2]|]; [|done].
  destruct (slab_free_locked a z2) as [[[] z3]|]; [|done]. destruct Hdel as [Hnode Hh]. rewrite !app_nil_r in Hh.
  pose proof (IH (n + 1) z3 BA) as IH'. unfold wp in IH'. rewrite <- Hnode. apply IH'; [by exists A, (Rbtree.remove a L)|lia|lia].
Qed.

Lemma held_size z B : held z B -> size (dom (nodes z)) = length B.
Proof.
  intros (ns & L & H). pose proof (holds_queue _ _ _ _ H) as [Hnd _]. apply NoDup_cons in Hnd as [_ Hnd].
  rewrite <- (Forall2_length _ _ _ (holds_nodes _ _ _ _ H)), <- (size_list_to_set (C := gset nat) ns Hnd). f_equal.
  apply set_eq. intros n. rewrite elem_of_list_to_set, elem_of_dom. split; [apply (holds_dom _ _ _ _ H)|].
  intros Hn. destruct (holds_split _ _ _ _ _ H Hn) as (? & ? & ? & b & ? & _ & _ & _ & Hb). by exists b.
Qed.

(** A node that was allocated and not used yet. *)
Definition fresh_node (z : zone) (n : ptr) : zone :=
  mk_zone (mk_state (root (rb z)) (<[n := Rbtree.blank]> (heap (rb z))))
    (<[n := Queue.mk_qnode NULL NULL]> (links z)) (<[n := mk_lr [] 0 0 0]> (nodes z)) (node z).

Lemma held_dom z B n : held z B -> (n ∈ dom (nodes z) <-> exists b, nodes z !! n = Some b /\ b ∈ B).
Proof.
  intros (ns & L & H). rewrite elem_of_dom. split; [|intros (b & Hb & _); by exists b].
  intros Hn. pose proof (holds_dom _ _ _ _ H n Hn) as Hin. destruct (holds_split _ _ _ _ _ H Hin) as (A & C & BA & b & BC & -> & -> & _ & Hb).
  exists b. split; [done|]. set_solver.
Qed.

Lemma alloc_spec size z B : held z B ->
  wp (slab_alloc_locked slab_alloc size) z (fun n z' =>
    (n = NULL /\ z' = z /\ slab_alloc (dom (nodes z)) size = None) \/
    (n <> NULL /\ n <> s /\ n <> q /\ nodes z !! n = None /\ z' = fresh_node z n)).
Proof.
  intros H. apply wp_bind, wp_gets. destruct (slab_alloc (dom (nodes z)) size) as [a|] eqn:E.
  - apply alloc_fresh in E as (H1 & H2 & H3 & H4). apply wp_bind, wp_modify, wp_ret. right. split_and!; try done. by apply not_elem_of_dom.
  - apply wp_ret. by left.
Qed.

Lemma queue_insert_other h ns n x : n ∉ q :: ns -> Queue.queue_at h q ns -> Queue.queue_at (<[n := x]> h) q ns.
Proof.
  intros Hn [Hd Hc]. split; [done|]. eapply Queue.chain_keep; [| |exact Hc].
  - rewrite Queue.src_ring. intros a y Ha. unfold Queue.nx. rewrite lookup_insert_ne; [done|]. by intros ->.
  - rewrite Queue.tgt_ring. intros a y Ha. unfold Queue.pv. rewrite lookup_insert_ne; [done|]. intros ->. set_solver.
Qed.

Lemma data_of_insert (ns : gmap nat lr_node) n b a : data_of (<[n := b]> ns) a = if decide (a = n) then data b else data_of ns a.
Proof. unfold data_of. case_decide; [subst; by rewrite lookup_insert_eq|by rewrite lookup_insert_ne]. Qed.

Lemma holds_add z ns L B n b key σ lk p : holds z ns L B -> n <> NULL -> n <> s -> n <> q -> nodes z !! n = None ->
  data b = key -> key ∉ data <$> B ->
  let d := data_of (<[n := b]> (nodes z)) in
  Rbtree.tree_at s σ (Rbtree.place (node_less d) (n, hash_of key) L) ->
  Rbtree.sorted (node_less d) (Rbtree.place (node_less d) (n, hash_of key) L) ->
  Queue.queue_at lk q (n :: ns) ->
  holds (mk_zone σ lk (<[n := b]> (nodes z)) p) (n :: ns) (Rbtree.place (node_less d) (n, hash_of key) L) (b :: B).
Proof.
  intros [Hq Hn Hd Ht Hs Ha Hh Hk H0] Hn0 Hns Hnq Hnone Hb Hkey d Hσ Hsort Hlk.
  assert (n ∉ ns) as Hnn by (destruct Hlk as [Hlk _]; apply NoDup_cons in Hlk as [_ Hlk]; by apply NoDup_cons in Hlk as [? _]).
  constructor; cbn [links nodes rb]; try done.
  - constructor; [by rewrite lookup_insert_eq|]. eapply Forall2_weaken; [exact Hn|]. intros a x Hax Hx. rewrite lookup_insert_ne; [done|].
    intros ->. done.
  - intros a. destruct (decide (a = n)) as [->|Han]; [set_solver|]. rewrite lookup_insert_ne by done. intros Hsa. right. by apply Hd.
  - rewrite Rbtree.place_perm, fmap_cons. cbn [fst]. by rewrite Ha.
  - intros a k Hak. rewrite Rbtree.place_perm, elem_of_cons in Hak. rewrite data_of_insert. destruct Hak as [E|Hak].
    + simplify_eq. rewrite decide_True by done. done.
    + rewrite decide_False; [by apply Hh|]. intros ->. apply Hnn. rewrite <- Ha. by apply (list_elem_of_fmap_2 fst _ _ Hak).
  - rewrite fmap_cons. constructor; [by rewrite Hb|done].
  - set_solver.
Qed.

Lemma new_node_spec now key account n z ns L B : holds z ns L B -> n <> NULL -> n <> s -> n <> q -> nodes z !! n = None ->
  key ∉ data <$> B ->
  wp (new_node s q now (hash_of key) key account n) (fresh_node z n) (fun rc z' =>
    let b := if account then mk_lr key now 0 0 else mk_lr key 0 0 1 in
    rc = (if account then NGX_OK else NGX_AGAIN) /\ node z' = (if account then node z else n) /\
    nodes z' !! n = Some b /\ exists L', holds z' (n :: ns) L' (b :: B)).
Proof.
  intros H Hn0 Hns Hnq Hnone Hkey. pose proof H as [Hq Hn Hd Ht Hs Ha Hh Hk H0].
  assert (n ∉ ns) as Hnn.
  { intros Hin. destruct (holds_split _ _ _ _ _ H Hin) as (? & ? & ? & ? & ? & _ & _ & _ & ?). congruence. }
  assert (n ∉ s :: L.*1) as HnL by (rewrite Ha; set_solver).
  unfold new_node, fresh_node. apply wp_bind, wp_lift_rb. cbn [rb].
  eapply Rbtree.wp_store; [cbn [heap]; by rewrite lookup_insert_eq|]. cbn [heap root links nodes node].
  apply wp_bind. eapply wp_set_node; [cbn [nodes]; by rewrite lookup_insert_eq|]. cbn [rb links nodes node].
  apply wp_bind. eapply wp_set_node; [cbn [nodes]; by rewrite lookup_insert_eq|]. cbn [rb links nodes node].
  apply wp_bind, wp_gets. cbn [rb links nodes node]. rewrite !insert_insert_eq.
  set (d := data_of _). apply wp_bind, wp_lift_rb. cbn [rb].
  assert (Rbtree.sorted (node_less d) L) as HsL.
  { eapply sorted_data; [|exact Hs]. intros a Hax. unfold d. rewrite data_of_insert, decide_False; [done|]. intros ->. apply HnL. by right. }
  eapply wp_mono.
  { unfold ngx_http_limit_req_rbtree_insert_value.
    apply (@Rbtree.insert_spec s (node_less d) (Rbtree.insert_by s (node_less d)) (Rbtree.insert_by_attaches s (node_less d)) _ L n
      (Rbtree.with_key (hash_of key) Rbtree.blank)); [|cbn [heap]; by rewrite lookup_insert_eq|done|exact HsL|apply node_coherent].
    eapply Rbtree.tree_agree; [exact Ht|done|]. cbn [heap]. intros a Hax. rewrite lookup_insert_ne; [done|]. by intros ->. }
  intros _ σ (Ht' & Hs' & _). cbn [Rbtree.key Rbtree.with_key] in Ht', Hs'. cbn [links nodes node].
  apply wp_bind, wp_lift_queue. cbn [links]. eapply wp_mono.
  { apply Queue.insert_head_spec; [apply queue_insert_other; [|exact Hq]; set_solver|by rewrite lookup_insert_eq|set_solver]. }
  intros _ lk [_ Hlk]. cbn [rb nodes node].
  assert (forall b, data b = key -> forall a, data_of (<[n := b]> (nodes z)) a = d a) as Hdb.
  { intros b Hb a. unfold d. rewrite !data_of_insert. by rewrite Hb. }
  assert (forall b p, data b = key -> exists L', holds (mk_zone σ lk (<[n := b]> (nodes z)) p) (n :: ns) L' (b :: B)) as Hend.
  { intros b p Hb. assert (Rbtree.place (node_less (data_of (<[n := b]> (nodes z)))) (n, hash_of key) L = Rbtree.place (node_less d) (n, hash_of key) L) as Ep.
    { clear -Hdb Hb. induction L as [|e L IH]; cbn; [done|]. rewrite IH. unfold node_less. by rewrite !(Hdb b Hb). }
    eexists. eapply holds_add; try done; rewrite Ep; [done|]. eapply sorted_data; [|exact Hs']. intros a _. by apply Hdb. }
  destruct account.
  - apply wp_bind. eapply wp_set_node; [cbn [nodes]; by rewrite lookup_insert_eq|]. cbn [rb links nodes node]. rewrite insert_insert_eq.
    apply wp_bind. eapply wp_set_node; [cbn [nodes]; by rewrite lookup_insert_eq|]. cbn [rb links nodes node]. rewrite insert_insert_eq.
    apply wp_ret. cbn. split_and!; [done|done|by rewrite lookup_insert_eq|]. by apply Hend.
  - apply wp_bind. eapply wp_set_node; [cbn [nodes]; by rewrite lookup_insert_eq|]. cbn [rb links nodes node]. rewrite insert_insert_eq.
    apply wp_bind. eapply wp_set_node; [cbn [nodes]; by rewrite lookup_insert_eq|]. cbn [rb links nodes node]. rewrite insert_insert_eq.
    apply wp_bind, wp_modify. cbn [rb links nodes node]. apply wp_ret. cbn. split_and!; [done|done|by rewrite lookup_insert_eq|]. by apply Hend.
Qed.

Lemma zone_held z B : zone_at z B None -> held z B /\ node z = NULL.
Proof. intros (ns & L & H & Hn). split; [by exists ns, L|done]. Qed.

(** The last step of a lookup that finds its bucket. *)
Lemma lookup_found l now n key account z ns L b R : holds z (n :: ns) L (b :: R) -> node z = NULL -> data b = key ->
  wp (lr ← get_node n;
      let ms := elapsed now (last lr) in
      let e := fill (rate l) ms (excess lr) in
      if e >? burst l then mret (NGX_BUSY, e)
      else if (account : bool) then
        set_node n (with_excess e) ;;
        (if negb (ms =? 0) then set_node n (with_last now) else skip) ;;
        mret (NGX_OK, e)
      else
        set_node n (fun lr => with_count (wrapu ptr_size (count lr + 1)) lr) ;;
        set_ctx_node n ;;
        mret (NGX_AGAIN, e)) z (fun r z' =>
    let ms := elapsed now (last b) in
    let e := fill (rate l) ms (excess b) in
    if e >? burst l then r = (NGX_BUSY, e) /\ zone_at z' (b :: R) None
    else if account then r = (NGX_OK, e) /\ zone_at z' (mk_lr key (if ms =? 0 then last b else now) e (count b) :: R) None
    else r = (NGX_AGAIN, e) /\ zone_at z' (with_count (wrapu ptr_size (count b + 1)) b :: R) (Some key)).
Proof.
  intros H Hnode Hkey. pose proof (holds_nodes _ _ _ _ H) as Hb. apply Forall2_cons in Hb as [Hb _].
  apply wp_bind, (wp_get_node _ b); [done|]. cbv zeta. set (ms := elapsed now (last b)). set (e := fill (rate l) ms (excess b)).
  destruct (e >? burst l); [apply wp_ret; split; [done|]; by exists (n :: ns), L|].
  assert (forall b' p, data b' = key -> holds (mk_zone (rb z) (links z) (<[n := b']> (nodes z)) p) (n :: ns) L (b' :: R)) as Hch.
  { intros b' p Hb'. apply (holds_change z [] n ns L [] b R b' p); [done|done|by rewrite Hb'|..]. }
  destruct account.
  - apply wp_bind. eapply wp_set_node; [done|]. destruct (ms =? 0); cbn [negb].
    + apply wp_bind, wp_skip, wp_ret. split; [done|]. exists (n :: ns), L. split; [|done]. unfold with_excess. rewrite Hkey. by apply Hch.
    + apply wp_bind. eapply wp_set_node; [cbn [nodes]; by rewrite lookup_insert_eq|]. cbn [rb links nodes node]. rewrite insert_insert_eq.
      apply wp_ret. split; [done|]. exists (n :: ns), L. split; [|done]. unfold with_last, with_excess. cbn. rewrite Hkey. by apply Hch.
  - apply wp_bind. eapply wp_set_node; [done|]. apply wp_bind, wp_modify, wp_ret. split; [done|]. exists (n :: ns), L.
    cbn [rb links nodes node]. split; [by apply Hch|]. split; [set_solver|]. by rewrite data_of_insert, decide_True.
Qed.

Lemma lookup_zone_spec l now key account z B : zone_at z B None ->
  wp (ngx_http_limit_req_lookup debug s q slab_alloc l now (hash_of key) key account) z (fun r z' => exists ok1 ok2,
    ((key ∉ data <$> B -> forall D, (size D <= length B)%nat -> slab_alloc D (node_size key) <> None) -> ok1 = true) /\
    let '(rc, e, B', pin) := lookup_buckets l now key account ok1 ok2 B in r = (rc, e) /\ zone_at z' B' pin).
Proof.
  intros Hz. pose proof (zone_held _ _ Hz) as [_ Hnode]. destruct Hz as (ns & L & H & _). unfold ngx_http_limit_req_lookup.
  apply wp_bind. eapply wp_mono; [apply (holds_find z ns L B key H)|]. intros r z' [-> Hr]. destruct r as [n|].
  - destruct Hr as [Hn Hkey]. destruct (holds_split _ _ _ _ _ H Hn) as (A & C & BA & b & BC & -> & -> & Hl & Hb).
    rewrite (data_of_some _ _ _ Hb) in Hkey. subst key. pose proof (take_bucket_some BA b BC (holds_keys _ _ _ _ H)) as Et.
    pose proof (holds_bump z A n C L BA b BC H Hl) as Hbump. apply wp_bind.
    assert (forall (T : Type) (m : M zone T) Q, (forall z1, node z1 = node z -> holds z1 (n :: A ++ C) L (b :: BA ++ BC) -> wp m z1 Q) ->
      wp (lift_queue (Queue.ngx_queue_remove debug n)) z (fun _ z1 => wp (lift_queue (Queue.ngx_queue_insert_head q n) ;; m) z1 Q)) as Hb2.
    { intros T m Q Hm. unfold wp in Hbump |- *. unfold mbind, M_bind in *.
      destruct (lift_queue (Queue.ngx_queue_remove debug n) z) as [[[] z1]|]; [|done].
      destruct (lift_queue (Queue.ngx_queue_insert_head q n) z1) as [[[] z2]|]; [|done]. destruct Hbump as (_ & Hnd & Hh). by apply Hm. }
    apply Hb2. intros z1 Hnd Hh. eapply wp_mono; [apply (lookup_found l now n (data b) account z1 (A ++ C) L b (BA ++ BC) Hh); [congruence|done]|].
    intros r z2 Hr. exists true, true. split; [done|]. unfold lookup_buckets. rewrite Et. cbv zeta in *.
    destruct (_ >? _); [done|]. by destruct account.
  - apply wp_bind. eapply wp_mono; [apply (expire_buckets_spec 3 (rate l) now 1 z B); [by exists ns, L|done|done]|]. intros _ z1 [Hn1 (ns1 & L1 & H1)].
    pose proof (forget_length 3 (rate l) now 1 B) as Hlen. set (B1 := forget 3 (rate l) now 1 B) in *.
    pose proof (held_size z1 B1 ltac:(by exists ns1, L1)) as Hsize.
    assert (forall f n B, key ∉ data <$> B -> key ∉ data <$> forget f (rate l) now n B) as Hforget.
    { clear. induction f as [|f IH]; intros n B HB; cbn; [done|]. destruct (List.last _ _); [|done]. destruct (_ && _); [|done]. apply IH.
      intros Hin. apply HB. clear -Hin. destruct B as [|b B] using rev_ind; [done|]. rewrite removelast_last in Hin. rewrite fmap_app. set_solver. }
    pose proof (Hforget 3%nat 1 B Hr) as Hr1. fold B1 in Hr1.
    apply wp_bind. eapply wp_mono; [apply (alloc_spec _ _ B1); by exists ns1, L1|].
    intros n z2 [(-> & -> & Hfail)|(N0 & N1 & N2 & N3 & ->)].
    + rewrite decide_True by done. apply wp_bind, wp_bind. eapply wp_mono; [apply (expire_buckets_spec 3 (rate l) now 0 z1 B1); [by exists ns1, L1|done|done]|].
      intros _ z3 [Hn3 (ns3 & L3 & H3)]. set (B2 := forget 3 (rate l) now 0 B1) in *. pose proof (Hforget 3%nat 0 B1 Hr1) as Hr2. fold B2 in Hr2.
      eapply wp_mono; [apply (alloc_spec _ _ B2); by exists ns3, L3|].
      intros n z4 [(-> & -> & _)|(N0 & N1 & N2 & N3 & ->)].
      * rewrite decide_True by done. apply wp_ret. exists false, false. split; [intros Hf; destruct (Hf Hr (dom (nodes z1))); [lia|done]|].
        unfold lookup_buckets. rewrite take_bucket_none by done. cbn. split; [done|]. exists ns3, L3. split; [done|congruence].
      * rewrite decide_False by done. apply wp_bind. eapply wp_mono; [apply (new_node_spec now key account n z3 ns3 L3 B2); done|].
        intros rc z5 (-> & Hnd & Hb & L' & Hh). apply wp_ret. exists false, true. split; [intros Hf; destruct (Hf Hr (dom (nodes z1))); [lia|done]|].
        unfold lookup_buckets. rewrite take_bucket_none by done. cbn [negb andb]. destruct account; (split; [done|]); exists (n :: ns3), L'; (split; [exact Hh|]).
        -- congruence.
        -- rewrite Hnd. split; [set_solver|]. by rewrite (data_of_some _ _ _ Hb).
    + rewrite decide_False by done. apply wp_bind, wp_ret. rewrite decide_False by done. apply wp_bind.
      eapply wp_mono; [apply (new_node_spec now key account n z1 ns1 L1 B1); done|].
      intros rc z5 (-> & Hnd & Hb & L' & Hh). apply wp_ret. exists true, true. split; [done|].
      unfold lookup_buckets. rewrite take_bucket_none by done. cbn [negb andb]. destruct account; (split; [done|]); exists (n :: ns1), L'; (split; [exact Hh|]).
      * congruence.
      * rewrite Hnd. split; [set_solver|]. by rewrite (data_of_some _ _ _ Hb).
Qed.

(** ** The node that waits *)

Lemma change_bucket_split BA b BC f : NoDup (data <$> BA ++ b :: BC) ->
  change_bucket (data b) f (BA ++ b :: BC) = BA ++ f b :: BC.
Proof.
  intros Hd. rewrite fmap_app, fmap_cons in Hd. apply NoDup_app in Hd as (_ & H1 & H2). apply NoDup_cons in H2 as [H2 _].
  assert (forall X, (forall x, x ∈ X -> data x <> data b) -> map (fun x => if decide (data x = data b) then f x else x) X = X) as Hid.
  { induction X as [|x X IH]; intros HX; cbn; [done|]. rewrite decide_False by (apply HX; left). f_equal. apply IH. intros y Hy. apply HX. by right. }
  unfold change_bucket. rewrite map_app. cbn [map]. rewrite decide_True by done. rewrite !Hid; [done| |].
  - intros x Hx E. apply H2. rewrite <- E. by apply (list_elem_of_fmap_2 data).
  - intros x Hx E. apply (H1 (data x)); [by apply (list_elem_of_fmap_2 data)|]. rewrite E. left.
Qed.

Lemma account_spec l now z B key : zone_at z B (Some key) ->
  wp (account_zone l now) z (fun d z' => zone_at z' (change_bucket key (charge l now) B) None /\
    exists b, b ∈ B /\ data b = key /\ d = delay_of l (excess (charge l now b))).
Proof.
  intros (ns & L & H & Hn & Hk). destruct (holds_split _ _ _ _ _ H Hn) as (A & C & BA & b & BC & -> & -> & Hl & Hb).
  rewrite (data_of_some _ _ _ Hb) in Hk. subst key. rewrite change_bucket_split by apply (holds_keys _ _ _ _ H).
  assert (node z <> NULL) as Hnn by (intros E; apply (holds_null _ _ _ _ H); rewrite <- E; set_solver).
  unfold account_zone. apply wp_bind, wp_gets. rewrite decide_False by done. apply wp_bind, (wp_get_node _ b); [done|]. cbv zeta.
  apply wp_bind. unfold charge. destruct (elapsed now (last b) =? 0); cbn [negb].
  - apply wp_skip, wp_bind. eapply wp_set_node; [done|]. apply wp_bind. eapply wp_set_node; [cbn [nodes]; by rewrite lookup_insert_eq|].
    apply wp_bind, wp_modify, wp_ret. cbn [rb links nodes node]. rewrite insert_insert_eq. split.
    + exists (A ++ node z :: C), L. split; [|done]. eapply holds_change; [exact H|done..].
    + exists b. split; [set_solver|done].
  - eapply wp_set_node; [done|]. apply wp_bind. eapply wp_set_node; [cbn [nodes]; by rewrite lookup_insert_eq|].
    apply wp_bind. eapply wp_set_node; [cbn [nodes]; by rewrite lookup_insert_eq|].
    apply wp_bind, wp_modify, wp_ret. cbn [rb links nodes node]. rewrite !insert_insert_eq. split.
    + exists (A ++ node z :: C), L. split; [|done]. eapply holds_change; [exact H|done..].
    + exists b. split; [set_solver|done].
Qed.

Lemma unlock_spec z B pin : zone_at z B pin ->
  wp unlock_zone z (fun _ z' => zone_at z' (match pin with
    | Some key => change_bucket key (fun b => with_count (wrapu ptr_size (count b - 1)) b) B | None => B end) None).
Proof.
  intros (ns & L & H & Hpin). unfold unlock_zone. apply wp_bind, wp_gets. destruct pin as [key|].
  - destruct Hpin as [Hn Hk]. destruct (holds_split _ _ _ _ _ H Hn) as (A & C & BA & b & BC & -> & -> & Hl & Hb).
    rewrite (data_of_some _ _ _ Hb) in Hk. subst key. rewrite change_bucket_split by apply (holds_keys _ _ _ _ H).
    assert (node z <> NULL) as Hnn by (intros E; apply (holds_null _ _ _ _ H); rewrite <- E; set_solver).
    rewrite decide_False by done. apply wp_bind. eapply wp_set_node; [done|]. apply wp_modify. cbn [rb links nodes node].
    exists (A ++ node z :: C), L. split; [|done]. eapply holds_change; [exact H|done..].
  - rewrite decide_True by done. apply wp_skip. by exists ns, L.
Qed.

Lemma init_zone_spec z sn qn : heap (rb z) !! s = Some sn -> links z !! q = Some qn -> nodes z = ∅ -> node z = NULL ->
  wp (ngx_http_limit_req_init_zone s q) z (fun _ z' => zone_at z' [] None).
Proof.
  intros Hs Hq Hn Hnode. apply wp_bind, wp_lift_rb. eapply wp_mono; [by apply (Rbtree.init_spec s _ sn)|]. intros _ σ [Ht _].
  apply wp_lift_queue. cbn [links nodes rb node]. eapply wp_mono; [apply Queue.queue_init_spec; by exists qn|]. intros _ lk [_ Hlk].
  exists [], []. split; [|done]. constructor; cbn [links nodes rb]; try done.
  - rewrite Hn. intros n. rewrite lookup_empty. by intros [].
  - constructor.
  - set_solver.
  - constructor.
  - set_solver.
Qed.

(** ** Requests to one zone *)

(** The codes of the requests, given by their times and keys. *)
Fixpoint run (l : limit) (reqs : list (Z * list Z)) : M zone (list Z) :=
  match reqs with
  | [] => mret []
  | (now, key) :: reqs =>
      r ← ngx_http_limit_req_lookup debug s q slab_alloc l now (Crc32.ngx_crc32_short key) key true;
      rcs ← run l reqs;
      mret (fst r :: rcs)
  end.

(** The same on buckets, when there is memory. *)
Fixpoint serve (l : limit) (reqs : list (Z * list Z)) (B : list lr_node) : list Z * list lr_node :=
  match reqs with
  | [] => ([], B)
  | (now, key) :: reqs =>
      let '(rc, _, B, _) := lookup_buckets l now key true true true B in
      let '(rcs, B) := serve l reqs B in (rc :: rcs, B)
  end.

(** Room for the buckets of some keys. *)
Definition room (K : gset (list Z)) : Prop :=
  forall D key, key ∈ K -> (size D < size K)%nat -> slab_alloc D (node_size key) <> None.

Lemma room_alloc K B key : room K -> NoDup (data <$> B) -> (forall x, x ∈ data <$> B -> x ∈ K) -> key ∈ K ->
  key ∉ data <$> B -> forall D, (size D <= length B)%nat -> slab_alloc D (node_size key) <> None.
Proof.
  intros Hroom Hnd HB Hk Hnk D HD. apply Hroom; [done|].
  assert (size (list_to_set (key :: (data <$> B)) : gset (list Z)) = S (length B)) as Hs.
  { rewrite size_list_to_set by by apply NoDup_cons. cbn. by rewrite length_fmap. }
  assert (list_to_set (key :: (data <$> B)) ⊆ K) as Hsub.
  { intros x. rewrite elem_of_list_to_set. intros [->|Hx]%elem_of_cons; auto. }
  apply subseteq_size in Hsub. lia.
Qed.

Lemma run_spec l reqs z B K : room K -> zone_at z B None -> (forall x, x ∈ data <$> B -> x ∈ K) -> (forall x, x ∈ snd <$> reqs -> x ∈ K) ->
  wp (run l reqs) z (fun rcs z' => exists B', serve l reqs B = (rcs, B') /\ zone_at z' B' None).
Proof.
  intros Hroom. revert z B. induction reqs as [|[now key] reqs IH]; intros z B Hz HB HK; cbn [run serve].
  { apply wp_ret. by exists B. }
  assert (key ∈ K) as Hkey by (apply HK; left).
  assert (NoDup (data <$> B)) as Hnd by (destruct Hz as (ns & L & H & _); apply (holds_keys _ _ _ _ H)).
  apply wp_bind. eapply wp_mono; [by apply lookup_zone_spec|]. intros [rc e] z1 (ok1 & ok2 & H1 & Hr).
  rewrite (H1 (room_alloc K B key Hroom Hnd HB Hkey)) in Hr.
  assert (lookup_buckets l now key true true ok2 B = lookup_buckets l now key true true true B) as E by done. rewrite E in Hr.
  assert (exists rc e B', lookup_buckets l now key true true true B = (rc, e, B', None)) as (rc' & e' & B' & El).
  { unfold lookup_buckets. destruct (take_bucket key B) as [[b R]|]; cbn; repeat case_match; eauto. }
  rewrite El in Hr |- *. destruct Hr as [E' Hz1]. simplify_eq. apply wp_bind. eapply wp_mono.
  - apply IH; [done| |intros x Hx; apply HK; by right]. intros x Hx. destruct (lookup_keys _ _ _ _ _ _ _ _ _ _ x El Hx) as [->|Hx']; auto.
  - intros rcs z2 (B2 & E2 & Hz2). rewrite E2. apply wp_ret. by exists B2.
Qed.

End Invariant.

(** ** Rates *)

Section Rate.
Context `{P : Platform}.
Variables (l : limit) (horizon : Z).

(** No number overflows before the time [horizon]. *)
Record sane : Prop := {
  sane_rate : 0 < rate l;
  sane_burst : 0 <= burst l /\ 1000 * burst l + 1000 < 2 ^ (bits ptr_size - 1);
  sane_time : rate l * horizon < 2 ^ (bits ptr_size - 1)
}.
Hypothesis Hsane : sane.

Lemma int_uint x : - 2 ^ (bits ptr_size - 1) <= x < 2 ^ (bits ptr_size - 1) -> to_signed ptr_size (wrapu ptr_size x) = x.
Proof.
  intros Hx. assert (2 ^ bits ptr_size = 2 * 2 ^ (bits ptr_size - 1)) as HM by (by destruct ptr_size).
  unfold to_signed, wrapu. rewrite Zmod_mod, max_value_bits, HM. set (h := 2 ^ (bits ptr_size - 1)) in *.
  destruct (Z.leb_spec 0 x).
  - rewrite Z.mod_small by lia. replace (x <=? h - 1) with true by lia. done.
  - replace (x mod (2 * h)) with (x + 2 * h); [replace (x + 2 * h <=? h - 1) with false by lia; lia|].
    apply (Z.mod_unique _ _ (-1)); lia.
Qed.

Lemma int_small x : - 2 ^ (bits ptr_size - 1) <= x < 2 ^ (bits ptr_size - 1) -> to_signed ptr_size x = x.
Proof.
  intros Hx. rewrite <- (int_uint x) at 2 by done. unfold to_signed, wrapu. by rewrite Zmod_mod.
Qed.

Lemma elapsed_exact now lst : 0 <= lst <= now -> now <= horizon -> elapsed now lst = now - lst.
Proof.
  intros H1 H2. destruct Hsane as [S1 _ S3]. unfold elapsed. rewrite int_small by nia.
  replace (now - lst <? -60000) with false by lia. by replace (now - lst <? 0) with false by lia.
Qed.

Lemma fill_exact ms e : 0 <= ms <= horizon -> 0 <= e <= burst l ->
  fill (rate l) ms e = Z.max 0 (e - rate l * ms / 1000 + 1000).
Proof.
  intros H1 H2. destruct Hsane as [S1 S2 S3]. unfold fill.
  assert (2 ^ bits ptr_size = 2 * 2 ^ (bits ptr_size - 1)) as HM by (by destruct ptr_size).
  assert (0 <= rate l * ms < 2 ^ (bits ptr_size - 1)) as Hm by nia.
  rewrite (wrapu_small ptr_size (rate l * ms)) by lia.
  assert (0 <= rate l * ms / 1000 <= rate l * ms) as Hd by (clear -Hm; set (x := rate l * ms) in *; clearbody x; div_lia).
  rewrite int_uint by lia. destruct (Z.ltb_spec (e - rate l * ms / 1000 + 1000) 0); lia.
Qed.

Definition bucket (key : list Z) (B : list lr_node) : option lr_node := fst <$> take_bucket key B.

Lemma bucket_cons key b B : bucket key (b :: B) = if decide (data b = key) then Some b else bucket key B.
Proof. unfold bucket. cbn. case_decide; [done|]. by destruct (take_bucket key B) as [[? ?]|]. Qed.

Lemma bucket_key key B b : bucket key B = Some b -> data b = key /\ b ∈ B.
Proof.
  induction B as [|x B IH]; [done|]. rewrite bucket_cons. case_decide; [intros; simplify_eq; split; [done|left]|].
  intros H'. destruct (IH H') as [H1 H2]. split; [done|by right].
Qed.

Lemma bucket_snoc key B x : bucket key (B ++ [x]) =
  match bucket key B with Some b => Some b | None => if decide (data x = key) then Some x else None end.
Proof. induction B as [|b B IH]; cbn [app]; [by rewrite bucket_cons|]. rewrite !bucket_cons. by destruct (decide (data b = key)). Qed.

Lemma take_bucket_other k K B b R : take_bucket k B = Some (b, R) -> k <> K -> bucket K R = bucket K B.
Proof.
  revert R. induction B as [|x B IH]; intros R; [done|]. cbn [take_bucket]. destruct (decide (data x = k)) as [E|E].
  - intros [= -> ->] Hk. rewrite bucket_cons, decide_False; [done|congruence].
  - destruct (take_bucket k B) as [[y R']|]; [|done]. intros [= -> <-] Hk. rewrite !bucket_cons. case_decide; [done|]. by apply IH.
Qed.

(** A bucket is kept or was one that may be forgotten. *)
Lemma forget_bucket f rt now n B key : 1 <= n ->
  bucket key (forget f rt now n B) = bucket key B \/
  (bucket key (forget f rt now n B) = None /\ exists b m, 1 <= m /\ bucket key B = Some b /\ stale rt now m b = true).
Proof.
  revert n B. induction f as [|f IH]; intros n B Hn; [by left|]. cbn [forget]. destruct B as [|x B _] using rev_ind; [by left|].
  rewrite map_app. cbn [map]. rewrite last_last, removelast_last. destruct (_ && stale rt now n x) eqn:E; [|by left].
  apply andb_true_iff in E as [_ E]. rewrite bucket_snoc. destruct (IH (n + 1) B) as [H|(H & b & m & Hm & Hb & Hs)]; [lia| |].
  - rewrite H. destruct (bucket key B) as [b|]; [by left|]. case_decide; [|by left]. right. split; [done|]. by exists x, n.
  - rewrite Hb. right. split; [done|]. by exists b, m.
Qed.

Definition good (t : Z) (B : list lr_node) : Prop :=
  Forall (fun b => 0 <= last b <= t /\ 0 <= excess b <= burst l) B.

Lemma stale_exact now m b : 1 <= m -> 0 <= last b <= now -> now <= horizon -> 0 <= excess b <= burst l -> stale (rate l) now m b = true ->
  60000 <= now - last b /\ 1000 * excess b <= rate l * (now - last b).
Proof.
  intros Hm H1 H2 H3. destruct Hsane as [S1 S2 S3]. unfold stale. replace (m =? 0) with false by lia. cbn [orb].
  rewrite int_small by nia. unfold ngx_abs. replace (now - last b >=? 0) with true by lia.
  assert (2 ^ bits ptr_size = 2 * 2 ^ (bits ptr_size - 1)) as HM by (by destruct ptr_size).
  set (ms := now - last b) in *. assert (0 <= rate l * ms < 2 ^ (bits ptr_size - 1)) as Hr by nia.
  rewrite (wrapu_small ptr_size (rate l * ms)) by lia.
  assert (0 <= rate l * ms / 1000 <= rate l * ms) as Hd by (clear -Hr; set (x := rate l * ms) in *; clearbody x; div_lia).
  rewrite int_uint by lia. intros H. apply andb_true_iff in H as [_ H]. apply negb_true_iff, orb_false_iff in H as [Ha Hb].
  split; [lia|]. clearbody ms. set (x := rate l * ms) in *. clearbody x. clear -Hb. div_lia.
Qed.

(** The number [N] of requests of [key] that passed since [t0], the bucket
    having been forgotten [G] times. *)
Definition bounded (key : list Z) (t0 t N G : Z) (B : list lr_node) : Prop :=
  0 <= G /\ t0 <= t /\
  match bucket key B with
  | Some b => t0 <= last b /\ 1000000 * (N - 1 - G) - rate l * (last b - t0) <= 1000 * excess b /\ 60000 * G <= last b - t0
  | None => 1000000 * (N - 1 - G) <= rate l * (t - t0) /\ 60000 * (G + 1) <= t - t0
  end.

Lemma good_mono t t' B : good t B -> t <= t' -> good t' B.
Proof. intros H Ht. eapply Forall_impl; [exact H|]. cbn. lia. Qed.

Lemma lookup_good now k B rc e B' pin t : good t B -> t <= now -> 0 <= now <= horizon ->
  lookup_buckets l now k true true true B = (rc, e, B', pin) -> good now B'.
Proof.
  intros Hg Ht Hnow. apply (good_mono t now) in Hg; [|done]. pose proof Hg as Hg'. unfold good in Hg. rewrite Forall_forall in Hg.
  destruct Hsane as [S1 S2 S3]. unfold lookup_buckets. destruct (take_bucket k B) as [[b R]|] eqn:Et.
  - assert (forall x, x ∈ R -> x ∈ B) as HR by (intros x; by eapply take_bucket_sub).
    destruct (take_bucket_sub _ _ _ _ b Et) as (_ & Hb & _). pose proof (Hg b Hb) as Hb'.
    assert (good now R) as HgR by (apply Forall_forall; auto). destruct (_ >? _) eqn:E; intros H; simplify_eq.
    + by constructor.
    + constructor; [|done]. cbn [last excess]. split; [case_match; lia|]. split; [|lia]. unfold fill. case_match; lia.
  - cbn [negb andb]. intros H. simplify_eq. constructor; [cbn; lia|]. apply Forall_forall. intros x Hx%forget_sub. by apply Hg.
Qed.

Lemma lookup_bounded key t0 t N G now k B rc e B' pin : bounded key t0 t N G B -> good t B -> t <= now -> 0 <= t0 -> now <= horizon ->
  lookup_buckets l now k true true true B = (rc, e, B', pin) ->
  exists G', bounded key t0 now (N + if decide (k = key) then (if rc =? NGX_OK then 1 else 0) else 0) G' B'.
Proof.
  intros (HG & Ht0 & Hb) Hg Ht H0 Hnow. pose proof (sane_rate Hsane) as S1. apply (good_mono t now) in Hg; [|done].
  unfold good in Hg. rewrite Forall_forall in Hg. unfold lookup_buckets. destruct (take_bucket k B) as [[b R]|] eqn:Et.
  - destruct (take_bucket_sub _ _ _ _ b Et) as (_ & HbB & Hbk). pose proof (Hg b HbB) as [Hl He].
    rewrite elapsed_exact, fill_exact by lia. destruct (decide (k = key)) as [->|Hk].
    + assert (bucket key B = Some b) as Eb by (unfold bucket; by rewrite Et). rewrite Eb in Hb. destruct Hb as (B1 & B2 & B3).
      set (x := rate l * (now - last b)) in *. assert (1000 * (x / 1000) <= x) by div_lia.
      destruct (_ >? _); intros H'; simplify_eq; exists G; (split; [done|]); (split; [lia|]); rewrite bucket_cons, decide_True by done.
      * cbn. lia.
      * cbn [data last excess]. cbn [Z.eqb NGX_OK]. destruct (now - last b =? 0) eqn:Ez.
        -- split; [lia|]. split; [|lia]. cbn. lia.
        -- split; [lia|]. split; [|lia]. cbn. nia.
    + rewrite Z.add_0_r. assert (bucket key R = bucket key B) as Eb by (by eapply take_bucket_other).
      destruct (_ >? _); intros H'; simplify_eq; exists G; (split; [done|]); (split; [lia|]);
        rewrite bucket_cons, decide_False by (cbn; congruence); rewrite Eb; (destruct (bucket key B); [done|]); nia.
  - cbn [negb andb]. intros H'. simplify_eq. cbn [Z.eqb NGX_OK]. destruct (decide (k = key)) as [->|Hk].
    + assert (bucket key B = None) as Eb by (unfold bucket; by rewrite Et). rewrite Eb in Hb. exists (G + 1). split; [lia|]. split; [lia|].
      rewrite bucket_cons, decide_True by done. cbn. nia.
    + rewrite Z.add_0_r. exists G. split; [done|]. split; [lia|]. rewrite bucket_cons, decide_False by (cbn; congruence).
      destruct (forget_bucket 3 (rate l) now 1 B key ltac:(lia)) as [E|(E & b & m & Hm & Ebk & Hs)]; unfold expire_buckets; rewrite E.
      * destruct (bucket key B); [done|]. nia.
      * rewrite Ebk in Hb. destruct (bucket_key _ _ _ Ebk) as [_ HbB]. pose proof (Hg b HbB) as [Hl He].
        destruct (stale_exact now m b) as [Hs1 Hs2]; [done|done|lia|done|done|]. nia.
Qed.

(** Requests in the order of time, from [t] on. *)
Fixpoint rising (t : Z) (reqs : list (Z * list Z)) : Prop :=
  match reqs with [] => True | (now, _) :: reqs => t <= now <= horizon /\ rising now reqs end.

Fixpoint end_time (t : Z) (reqs : list (Z * list Z)) : Z :=
  match reqs with [] => t | (now, _) :: reqs => end_time now reqs end.

(** The requests of [key] that passed. *)
Fixpoint passed (key : list Z) (reqs : list (Z * list Z)) (rcs : list Z) : Z :=
  match reqs, rcs with
  | (_, k) :: reqs, rc :: rcs => (if decide (k = key) then (if rc =? NGX_OK then 1 else 0) else 0) + passed key reqs rcs
  | _, _ => 0
  end.

Lemma end_time_le t reqs : rising t reqs -> t <= end_time t reqs.
Proof. revert t. induction reqs as [|[now k] reqs IH]; intros t; cbn; [lia|]. intros [H1 H2]. apply IH in H2. lia. Qed.

Lemma passed_nonneg key reqs rcs : 0 <= passed key reqs rcs.
Proof. revert rcs. induction reqs as [|[now k] reqs IH]; intros [|rc rcs]; cbn; try lia. specialize (IH rcs). repeat case_match; lia. Qed.

Lemma serve_cons now k reqs B rcs B' : serve l ((now, k) :: reqs) B = (rcs, B') -> exists rc e B1 pin rcs1,
  lookup_buckets l now k true true true B = (rc, e, B1, pin) /\ serve l reqs B1 = (rcs1, B') /\ rcs = rc :: rcs1.
Proof.
  cbn [serve]. destruct (lookup_buckets l now k true true true B) as [[[rc e] B1] pin]. destruct (serve l reqs B1) as [rcs1 B2] eqn:E.
  intros H. simplify_eq. by repeat eexists.
Qed.

Lemma serve_good t reqs B rcs B' : good t B -> rising t reqs -> 0 <= t -> serve l reqs B = (rcs, B') -> good (end_time t reqs) B'.
Proof.
  revert t B rcs. induction reqs as [|[now k] reqs IH]; intros t B rcs Hg Hr Ht E; [cbn in *; by simplify_eq|].
  apply serve_cons in E as (rc & e & B1 & pin & rcs1 & E1 & E2 & ->). destruct Hr as [Hr1 Hr2].
  cbn [end_time]. eapply IH; [eapply (lookup_good _ _ _ _ _ _ _ _ Hg)|done|lia|done]; [lia|lia|done].
Qed.

Lemma serve_bounded key t0 t N G reqs B rcs B' : bounded key t0 t N G B -> good t B -> rising t reqs -> 0 <= t0 -> 0 <= t ->
  serve l reqs B = (rcs, B') -> exists G', bounded key t0 (end_time t reqs) (N + passed key reqs rcs) G' B'.
Proof.
  revert t N G B rcs. induction reqs as [|[now k] reqs IH]; intros t N G B rcs Hb Hg Hr H0 Ht E.
  { cbn in *. simplify_eq. exists G. by rewrite Z.add_0_r. }
  apply serve_cons in E as (rc & e & B1 & pin & rcs1 & E1 & E2 & ->). destruct Hr as [Hr1 Hr2].
  destruct (lookup_bounded key t0 t N G now k B rc e B1 pin Hb Hg ltac:(lia) H0 ltac:(lia) E1) as [G1 Hb1].
  cbn [end_time passed]. rewrite Z.add_assoc. eapply IH; [exact Hb1| |done|done|lia|done].
  eapply (lookup_good _ _ _ _ _ _ _ _ Hg); [|lia|done]. lia.
Qed.

Lemma serve_rate key t reqs B rcs B' : good t B -> rising t reqs -> 0 <= t -> serve l reqs B = (rcs, B') ->
  let T := end_time t reqs - t in
  1000000 * (passed key reqs rcs - 1) <= 1000 * burst l + rate l * T + 1000000 * (T / 60000).
Proof.
  pose proof (sane_rate Hsane) as S1. destruct (sane_burst Hsane) as [S2 _].
  revert t B rcs. induction reqs as [|[now k] reqs IH]; intros t B rcs Hg Hr Ht E.
  { cbn [end_time passed]. rewrite Z.sub_diag, Z.mul_0_r. change (0 / 60000) with 0. lia. }
  pose proof E as E'. apply serve_cons in E as (rc & e & B1 & pin & rcs1 & E1 & E2 & ->). pose proof Hr as [Hr1 Hr2].
  assert (good now B1) as Hg1 by (eapply (lookup_good _ _ _ _ _ _ _ _ Hg); [|lia|done]; lia).
  pose proof (end_time_le _ _ Hr2) as He. cbn [end_time passed]. cbv zeta.
  assert (forall x, 0 <= x <= end_time now reqs - t -> x / 60000 <= (end_time now reqs - t) / 60000) as Hdiv by (intros; apply Z.div_le_mono; lia).
  destruct (decide (k = key)) as [->|Hk]; [destruct (rc =? NGX_OK) eqn:Erc|].
  - assert (bounded key now now 1 0 B1) as Hb1.
    { split; [lia|]. split; [lia|]. revert E1. unfold lookup_buckets. destruct (take_bucket key B) as [[b R]|] eqn:Et.
      - unfold good in Hg. rewrite Forall_forall in Hg. destruct (take_bucket_sub _ _ _ _ b Et) as (_ & HbB & _). pose proof (Hg b HbB) as Hb.
        rewrite elapsed_exact by lia. destruct (_ >? _); intros E; simplify_eq; try discriminate. rewrite bucket_cons, decide_True by done.
        cbn [last excess]. split; [case_match; lia|]. split; [|case_match; lia]. replace (1 - 1 - 0) with 0 by lia.
        unfold fill. case_match; case_match; nia.
      - cbn [negb andb]. intros E. simplify_eq. rewrite bucket_cons, decide_True by done. cbn. lia. }
    destruct (serve_bounded key now now 1 0 reqs B1 rcs1 B' Hb1 Hg1 Hr2 ltac:(lia) ltac:(lia) E2) as [G' (HG & _ & Hb)].
    set (N := passed key reqs rcs1) in *. set (T := end_time now reqs) in *.
    assert (1000000 * (1 + N - 1 - G') <= 1000 * burst l + rate l * (T - now) /\ 60000 * G' <= T - now) as [H1 H2].
    { pose proof (serve_good now reqs B1 rcs1 B' Hg1 Hr2 ltac:(lia) E2) as Hge. destruct (bucket key B') as [b|] eqn:Eb; [|nia].
      apply bucket_key in Eb as [_ Eb]. unfold good in Hge. rewrite Forall_forall in Hge. specialize (Hge b Eb). fold T in Hge. nia. }
    assert (G' <= (T - t) / 60000) by (apply Z.div_le_lower_bound; lia). nia.
  - specialize (IH now B1 rcs1 Hg1 Hr2 ltac:(lia) E2). cbv zeta in IH. specialize (Hdiv (end_time now reqs - now) ltac:(lia)). nia.
  - specialize (IH now B1 rcs1 Hg1 Hr2 ltac:(lia) E2). cbv zeta in IH. specialize (Hdiv (end_time now reqs - now) ltac:(lia)). nia.
Qed.

Lemma serve_app reqs1 reqs2 B : serve l (reqs1 ++ reqs2) B =
  let '(rcs1, B1) := serve l reqs1 B in let '(rcs2, B2) := serve l reqs2 B1 in (rcs1 ++ rcs2, B2).
Proof.
  revert B. induction reqs1 as [|[now k] reqs1 IH]; intros B; cbn [serve app]; [by destruct (serve l reqs2 B)|].
  destruct (lookup_buckets l now k true true true B) as [[[rc e] B1] pin]. rewrite IH. destruct (serve l reqs1 B1) as [rcs1 B2].
  by destruct (serve l reqs2 B2).
Qed.

Lemma serve_length reqs B rcs B' : serve l reqs B = (rcs, B') -> length rcs = length reqs.
Proof.
  revert B rcs. induction reqs as [|[now k] reqs IH]; intros B rcs E; [cbn in E; by simplify_eq|].
  apply serve_cons in E as (rc & e & B1 & pin & rcs1 & E1 & E2 & ->). cbn. by erewrite IH.
Qed.

End Rate.

(** ** Theorems *)

Section Theorems.
Context `{P : Platform}.
Variable debug : bool.
Variables s q : ptr.
Variable slab_alloc : gset nat -> Z -> option ptr.

(** What the zone needs of the allocator: addresses that are free. *)
Definition fresh_alloc : Prop :=
  forall D n a, slab_alloc D n = Some a -> (a ∉ D) /\ a <> NULL /\ a <> s /\ a <> q.

(** A zone whose tree and queue were not initialized yet. *)
Definition raw_zone (z : zone) : Prop :=
  is_Some (heap (rb z) !! s) /\ is_Some (links z !! q) /\ nodes z = ∅ /\ node z = NULL.

(** C16: The operations on a zone implement those on the list of its buckets in
    the order of their use, without a bad access and in a bounded number of
    steps: a lookup finds the bucket of the key by its hash and its bytes,
    moves it to the front and takes the request or not, or else forgets old
    buckets and makes a new one; charging and releasing the bucket that waits
    change only this one. *)
Theorem limit_req_refines z B : fresh_alloc ->
  (raw_zone z -> wp (ngx_http_limit_req_init_zone s q) z (fun _ z' => zone_at s q z' [] None)) /\
  (forall l now key account, zone_at s q z B None ->
     wp (ngx_http_limit_req_lookup debug s q slab_alloc l now (Crc32.ngx_crc32_short key) key account) z (fun r z' => exists ok1 ok2,
       let '(rc, e, B', pin) := lookup_buckets l now key account ok1 ok2 B in r = (rc, e) /\ zone_at s q z' B' pin)) /\
  (forall l now key, zone_at s q z B (Some key) ->
     wp (account_zone l now) z (fun d z' => zone_at s q z' (change_bucket key (charge l now) B) None /\
       exists b, b ∈ B /\ data b = key /\ d = delay_of l (excess (charge l now b)))) /\
  (forall key, zone_at s q z B (Some key) ->
     wp unlock_zone z (fun _ z' =>
       zone_at s q z' (change_bucket key (fun b => with_count (wrapu ptr_size (count b - 1)) b) B) None)).
Proof.
  intros Hfresh. split_and!.
  - intros ([sn Hs] & [qn Hq] & Hn & H0). by eapply (init_zone_spec s q slab_alloc Hfresh).
  - intros l now key account Hz. eapply wp_mono; [by apply lookup_zone_spec|]. intros r z' (ok1 & ok2 & _ & Hr). by exists ok1, ok2.
  - intros l now key Hz. by apply (account_spec s q slab_alloc Hfresh).
  - intros key Hz. exact (unlock_spec s q slab_alloc Hfresh z B (Some key) Hz).
Qed.

(** C15: The rate of requests is limited: in a zone with room for a bucket of
    each key, after any requests of any of these keys, the requests of one key
    that pass in an interval of [T] milliseconds are at most one more than the
    burst, the rate times [T] and one for every full minute of [T], in which
    the bucket may have been forgotten; requests are given by their times,
    which do not decrease.  In a zone that is full the oldest bucket makes
    room for a new one, and the requests it counted are forgotten. *)
Theorem limit_req_rate l horizon z pre win t key : fresh_alloc -> room slab_alloc (list_to_set (snd <$> pre ++ win)) -> raw_zone z ->
  sane l horizon -> rising horizon 0 pre -> end_time 0 pre <= t -> rising horizon t win ->
  exists rcs z', (ngx_http_limit_req_init_zone s q ;; run debug s q slab_alloc l (pre ++ win)) z = Some (rcs, z') /\
    let N := passed key win (drop (length pre) rcs) in
    let T := end_time t win - t in
    1000000 * (N - 1) <= 1000 * burst l + rate l * T + 1000000 * (T / 60000).
Proof.
  intros Hfresh Hroom Hraw Hsane Hpre Ht Hwin.
  assert (wp (ngx_http_limit_req_init_zone s q ;; run debug s q slab_alloc l (pre ++ win)) z (fun rcs z' =>
    exists B, serve l (pre ++ win) [] = (rcs, B))) as Hwp.
  { apply wp_bind. destruct Hraw as ([sn Hs] & [qn Hq] & Hn & H0). eapply wp_mono; [by eapply (init_zone_spec s q slab_alloc Hfresh)|]. intros [] z1 Hz1.
    eapply wp_mono; [eapply run_spec; [done|exact Hroom|exact Hz1|by intros x ?%elem_of_nil|intros x; by rewrite elem_of_list_to_set]|]. intros rcs z2 (B & E & _). by exists B. }
  apply wp_run in Hwp as (rcs & z' & E & B & Es). exists rcs, z'. split; [done|]. rewrite serve_app in Es.
  destruct (serve l pre []) as [rcs1 B1] eqn:E1. destruct (serve l win B1) as [rcs2 B2] eqn:E2. simplify_eq.
  rewrite <- (serve_length _ _ _ _ _ E1), drop_app_length.
  pose proof (end_time_le _ _ _ Hpre) as H0.
  apply (serve_rate l horizon Hsane key t win B1 rcs2 B); [|done|lia|done].
  eapply good_mono; [eapply (serve_good l horizon Hsane 0 pre []); [constructor|done|lia|done]|done].
Qed.

End Theorems.

(** A zone with its sentinel at 1 and its queue at 2, allocators that never run
    out of addresses and that have room for two nodes, and five requests. *)
Definition empty_zone : zone :=
  mk_zone (mk_state NULL {[1%nat := Rbtree.blank]}) {[2%nat := Queue.mk_qnode NULL NULL]} ∅ NULL.
Definition fresh_addr (D : gset nat) (_ : Z) : option ptr := Some (fresh (D ∪ {[0; 1; 2]}%nat)).
Definition two_nodes (D : gset nat) (n : Z) : option ptr := if Nat.ltb (size D) 2 then fresh_addr D n else None.
Definition ten_per_second : limit := mk_limit 10000 1000 0.
Definition sample : list (Z * list Z) := [(1000, [97]); (1010, [98]); (1010, [97]); (1020, [97]); (1110, [97])].

Lemma fresh_addr_ok : fresh_alloc 1%nat 2%nat fresh_addr.
Proof.
  intros D n a [= <-]. pose proof (is_fresh (D ∪ {[0; 1; 2]}%nat)) as H. rewrite !not_elem_of_union, !not_elem_of_singleton in H.
  unfold NULL. tauto.
Qed.

Lemma two_nodes_ok : fresh_alloc 1%nat 2%nat two_nodes.
Proof. intros D n a H. unfold two_nodes in H. destruct (Nat.ltb _ _); [|done]. by apply (fresh_addr_ok D n). Qed.

Lemma ten_sane : sane (P := lp64) ten_per_second 100000.
Proof. constructor; cbn; lia. Qed.

Lemma limit_req_refines_witness : exists z',
  @ngx_http_limit_req_lookup lp64 true 1%nat 2%nat fresh_addr ten_per_second 1000 (Crc32.ngx_crc32_short [97]) [97] true
    (mk_zone (mk_state 1%nat {[1%nat := Rbtree.mk_node 0 NULL NULL NULL false]}) {[2%nat := Queue.mk_qnode 2%nat 2%nat]} ∅ NULL) =
    Some ((NGX_OK, 0), z').
Proof.
  set (z := mk_zone _ _ _ _). assert (zone_at 1%nat 2%nat z [] None) as Hz.
  { destruct (@limit_req_refines lp64 true 1%nat 2%nat fresh_addr empty_zone [] fresh_addr_ok) as [H _].
    pose proof (H ltac:(repeat split; eexists; reflexivity)) as Hw. exact Hw. }
  destruct (@limit_req_refines lp64 true 1%nat 2%nat fresh_addr z [] fresh_addr_ok) as (_ & H & _).
  specialize (H ten_per_second 1000 [97] true Hz). apply wp_run in H as (r & z' & E & ok1 & ok2 & Hr).
  exists z'. rewrite E. destruct ok1, ok2; cbv [lookup_buckets take_bucket negb andb] in Hr; destruct Hr as [-> _]; try reflexivity. exfalso. revert E. vm_compute. discriminate.
Defined.

Lemma limit_req_rate_witness : exists rcs z',
  (ngx_http_limit_req_init_zone 1%nat 2%nat ;; @run lp64 true 1%nat 2%nat two_nodes ten_per_second ([] ++ sample)) empty_zone = Some (rcs, z') /\
  1000000 * (passed [97] sample rcs - 1) <= 1000 * 1000 + 10000 * 110.
Proof.
  destruct (@limit_req_rate lp64 true 1%nat 2%nat two_nodes ten_per_second 100000 empty_zone [] sample 1000 [97]) as (rcs & z' & E & H).
  - exact two_nodes_ok.
  - intros D k _ HD. assert (size (list_to_set (snd <$> [] ++ sample) : gset (list Z)) = 2%nat) as E by (vm_compute; reflexivity). rewrite E in HD.
    unfold two_nodes. rewrite (proj2 (Nat.ltb_lt _ _) HD). discriminate.
  - repeat split; eexists; reflexivity.
  - exact ten_sane.
  - exact I.
  - cbn. lia.
  - cbn. repeat split; lia.
  - exists rcs, z'. split; [exact E|]. exact H.
Defined.

End LimitReq.
