(* ===== verification/UpstreamRoundRobin.v ===== *)
(** * Load balancing

    Model of [src/http/ngx_http_upstream_round_robin.c]: the groups of peers
    built from the configuration, the data of a request, the choice of a peer
    and its release.  The locks of shared groups make each operation atomic;
    sessions of TLS and the log are left out.

    The weights are [ngx_int_t] in the code and their sums wrap around here as
    they do there; the theorems show that nothing wraps when the number of
    peers of a group times the sum of their weights is an [ngx_int_t].  The
    counters of connections and of failures, which grow by one, and the clock
    are taken to be within their types. *)

From Stdlib Require Import ZArith Bool Lia ZifyBool.
From stdpp Require Import base list numbers relations.
From S2P Require Import Prelude.
Local Open Scope Z_scope.

Module RoundRobin.

Definition NGX_PEER_FAILED : Z := 4.

(** [ngx_http_upstream_server_t], as far as it matters here. *)
Record server := mk_server {
  backup : bool; naddrs : nat; s_weight : Z; s_max_conns : Z; s_max_fails : Z;
  s_fail_timeout : Z; s_down : bool
}.

(** [ngx_http_upstream_rr_peer_t] *)
Record peer := mk_peer {
  current_weight : Z; effective_weight : Z; weight : Z;
  conns : Z; max_conns : Z;
  fails : Z; accessed : Z; checked : Z;
  max_fails : Z; fail_timeout : Z; down : bool
}.

(** [ngx_http_upstream_rr_peers_t]: [peer_list] is the list that starts at
    [peer]; [next] is the rest of a list of groups. *)
Record peers := mk_peers {
  single : bool; number : Z; weighted : bool; total_weight : Z; tries : Z;
  peer_list : list peer
}.

(** [ngx_http_upstream_rr_peer_data_t]: [group] tells which group of the list
    [rrp->peers] is, [current] the group and the index of the peer in it. *)
Record rr_data := mk_rr {
  group : nat; current : option (nat * nat); tried : list Z
}.

(** ** Configuration *)

Section Configuration.
Context `{P : Platform}.

Definition new_peer (s : server) : peer :=
  mk_peer 0 (s_weight s) (s_weight s) 0 (s_max_conns s) 0 0 0
    (s_max_fails s) (s_fail_timeout s) (s_down s).

(** The loops over the servers that are backup ones, or that are not. *)
Definition group_of (b : bool) (servers : list server) : list server :=
  filter (fun s => backup s = b) servers.

Definition count_addrs (servers : list server) : Z :=
  foldr (fun s n => Z.of_nat (naddrs s) + n) 0 servers.

Definition sum_weights (servers : list server) : Z :=
  foldr (fun s w => wrapu ptr_size (Z.of_nat (naddrs s) * s_weight s + w)) 0 servers.

Definition count_tries (servers : list server) : Z :=
  foldr (fun s t => (if s_down s then 0 else Z.of_nat (naddrs s)) + t) 0 servers.

Definition make_peers (single : bool) (servers : list server) : peers :=
  let n := count_addrs servers in
  let w := sum_weights servers in
  mk_peers single n (negb (w =? n)) w (count_tries servers)
    (servers ≫= fun s => replicate (naddrs s) (new_peer s)).

(** [None] is NGX_ERROR *)
Definition ngx_http_upstream_init_round_robin (servers : list server) : option (list peers) :=
  let main := group_of false servers in
  let spare := group_of true servers in
  if count_addrs main =? 0 then None
  else if count_addrs spare =? 0 then
    Some [make_peers (count_addrs main =? 1) main]
  else Some [make_peers false main; make_peers false spare].

(** The upstream that proxy_pass defines implicitly, [naddrs] being the number
    of addresses its host resolves to. *)
Definition plain_peer : peer := mk_peer 0 1 1 0 0 0 0 0 1 10 false.

Definition init_implicit (naddrs : nat) : list peers :=
  let n := Z.of_nat naddrs in
  [mk_peers (n =? 1) n false n n (replicate naddrs plain_peer)].

(** The peers of an upstream that is resolved when the request comes. *)
Definition create_peers (naddrs : nat) : list peers :=
  let n := Z.of_nat naddrs in
  [mk_peers (n =? 1) n false 0 n (replicate naddrs plain_peer)].

End Configuration.

Section Requests.
Context `{P : Platform}.

(** Arithmetic of [ngx_int_t]. *)
Local Abbreviation int x := (to_signed ptr_size x).

(** [8 * sizeof(uintptr_t)] *)
Definition word : nat := Z.to_nat (bits ptr_size).

Definition words (n : Z) : nat :=
  Z.to_nat ((n + (Z.of_nat word - 1)) / Z.of_nat word).

Definition ngx_http_upstream_init_round_robin_peer (gs : list peers) : rr_data :=
  let n := match gs with
           | g :: g' :: _ => if number g' >? number g then number g' else number g
           | [g] => number g
           | [] => 0
           end in
  mk_rr 0 None (if n <=? Z.of_nat word then [0] else replicate (words n) 0).

(** [ngx_http_upstream_tries()] *)
Definition ngx_http_upstream_tries (gs : list peers) : Z :=
  match gs with
  | g :: g' :: _ => tries g + tries g'
  | [g] => tries g
  | [] => 0
  end.

(** [ngx_http_upstream_create_round_robin_peer()], without the addresses. *)
Definition ngx_http_upstream_create_round_robin_peer (naddrs : nat)
    : list peers * rr_data :=
  let n := Z.of_nat naddrs in
  (create_peers naddrs,
   mk_rr 0 None (if n <=? Z.of_nat word then [0] else replicate (words n) 0)).

(** ** Choosing a peer *)

Definition tried_at (t : list Z) (i : nat) : bool :=
  negb (Z.land (nth (i / word)%nat t 0) (Z.shiftl 1 (Z.of_nat (i mod word))) =? 0).

Definition mark (t : list Z) (i : nat) : list Z :=
  <[(i / word)%nat := Z.lor (nth (i / word)%nat t 0)
                            (Z.shiftl 1 (Z.of_nat (i mod word)))]> t.

(** The conditions that come before the weights. *)
Definition skip (now : Z) (t : list Z) (i : nat) (p : peer) : bool :=
  tried_at t i
  || down p
  || (negb (max_fails p =? 0) && (fails p >=? max_fails p)
      && (now - checked p <=? fail_timeout p))
  || (negb (max_conns p =? 0) && (conns p >=? max_conns p)).

Definition bump (p : peer) : peer :=
  mk_peer (int (current_weight p + effective_weight p))
    (if effective_weight p <? weight p then int (effective_weight p + 1) else effective_weight p)
    (weight p) (conns p) (max_conns p) (fails p) (accessed p) (checked p)
    (max_fails p) (fail_timeout p) (down p).

(** The loop, [best] being the index [p] and [best->current_weight]. *)
Fixpoint get_loop (now : Z) (t : list Z) (i : nat) (ps : list peer)
    (best : option (nat * Z)) (total : Z) : list peer * option (nat * Z) * Z :=
  match ps with
  | [] => ([], best, total)
  | p :: ps' =>
      if skip now t i p then
        let '(r, b, s) := get_loop now t (S i) ps' best total in (p :: r, b, s)
      else
        let p' := bump p in
        let best' :=
          match best with
          | None => Some (i, current_weight p')
          | Some (_, w) =>
              if current_weight p' >? w then Some (i, current_weight p') else best
          end in
        let '(r, b, s) := get_loop now t (S i) ps' best' (int (total + effective_weight p)) in
        (p' :: r, b, s)
  end.

Definition choose (now total : Z) (p : peer) : peer :=
  mk_peer (int (current_weight p - total)) (effective_weight p) (weight p) (conns p)
    (max_conns p) (fails p) (accessed p)
    (if now - checked p >? fail_timeout p then now else checked p)
    (max_fails p) (fail_timeout p) (down p).

(** [ngx_http_upstream_get_peer()]: the index of the peer, if any, the peers
    and [tried]. *)
Definition ngx_http_upstream_get_peer (now : Z) (t : list Z) (ps : list peer)
    : option nat * list peer * list Z :=
  let '(r, best, total) := get_loop now t 0 ps None 0 in
  match best with
  | None => (None, r, t)
  | Some (i, _) => (Some i, alter (choose now total) i r, mark t i)
  end.

Definition add_conns (d : Z) (p : peer) : peer :=
  mk_peer (current_weight p) (effective_weight p) (weight p) (conns p + d)
    (max_conns p) (fails p) (accessed p) (checked p) (max_fails p) (fail_timeout p) (down p).

Definition set_peer_list (l : list peer) (g : peers) : peers :=
  mk_peers (single g) (number g) (weighted g) (total_weight g) (tries g) l.

(** What is tried in one group: the peer chosen, if any, the group, [tried]. *)
Definition get_in_group (now : Z) (t : list Z) (g : peers)
    : option nat * peers * list Z :=
  if single g then
    match peer_list g with
    | p :: _ =>
        if down p || (negb (max_conns p =? 0) && (conns p >=? max_conns p))
        then (None, g, t) else (Some O, g, t)
    | [] => (None, g, t)
    end
  else
    let '(o, ps, t') := ngx_http_upstream_get_peer now t (peer_list g) in
    (o, set_peer_list ps g, t').

(** [for (i = 0; i < n; i++) rrp->tried[i] = 0] *)
Definition clear (n : nat) (t : list Z) : list Z := replicate n 0 ++ drop n t.

(** The function on the groups from [rrp->peers] on, [k] being the place of
    the first; the call on the backup servers is the recursive one. *)
Fixpoint get_from (now : Z) (k : nat) (cur : option (nat * nat)) (t : list Z)
    (gs : list peers) : Z * rr_data * list peers :=
  match gs with
  | [] => (NGX_BUSY, mk_rr k cur t, [])
  | g :: gs' =>
      match get_in_group now t g with
      | (Some i, g1, t1) =>
          (NGX_OK, mk_rr k (Some (k, i)) t1,
           set_peer_list (alter (add_conns 1) i (peer_list g1)) g1 :: gs')
      | (None, g1, t1) =>
          match gs' with
          | [] => (NGX_BUSY, mk_rr k cur t1, [g1])
          | g' :: _ =>
              let '(rc, rr, gs1) :=
                get_from now (S k) cur (clear (words (number g')) t1) gs' in
              (rc, rr, g1 :: gs1)
          end
      end
  end.

Definition ngx_http_upstream_get_round_robin_peer (now : Z) (rr : rr_data)
    (gs : list peers) : Z * rr_data * list peers :=
  let '(rc, rr', gs') :=
    get_from now (group rr) (current rr) (tried rr) (drop (group rr) gs) in
  (rc, rr', take (group rr) gs ++ gs').

(** ** Releasing a peer *)

(** The quotient is that of [ngx_uint_t]. *)
Definition fail_peer (now : Z) (p : peer) : peer :=
  let ew := if max_fails p =? 0 then effective_weight p
            else int (effective_weight p - wrapu ptr_size (weight p) / max_fails p) in
  mk_peer (current_weight p) (if ew <? 0 then 0 else ew) (weight p) (conns p)
    (max_conns p) (fails p + 1) now now (max_fails p) (fail_timeout p) (down p).

(** [mark peer live if check passed] *)
Definition pass_peer (p : peer) : peer :=
  mk_peer (current_weight p) (effective_weight p) (weight p) (conns p) (max_conns p)
    (if accessed p <? checked p then 0 else fails p)
    (accessed p) (checked p) (max_fails p) (fail_timeout p) (down p).

Definition release (now state : Z) (p : peer) : peer :=
  add_conns (-1)
    (if Z.land state NGX_PEER_FAILED =? 0 then pass_peer p else fail_peer now p).

(** The groups and [pc->tries]. *)
Definition ngx_http_upstream_free_round_robin_peer (now state : Z) (rr : rr_data)
    (pc_tries : Z) (gs : list peers) : list peers * Z :=
  match current rr with
  | None => (gs, pc_tries)             (* not called without a peer *)
  | Some (k, i) =>
      let on_peer f := alter (fun g => set_peer_list (alter f i (peer_list g)) g) k gs in
      match gs !! group rr with
      | Some g =>
          if single g then (on_peer (add_conns (-1)), 0)
          else (on_peer (release now state),
                if pc_tries =? 0 then pc_tries else pc_tries - 1)
      | None => (gs, pc_tries)
      end
  end.

End Requests.

(** ** The loop over the peers *)

Definition total_by {A} (f : A -> Z) (l : list A) : Z := foldr (fun p s => f p + s) 0 l.

Lemma total_by_alter {A} (f : A -> Z) h (ps : list A) i p : ps !! i = Some p ->
  total_by f (alter h i ps) = total_by f ps - f p + f (h p).
Proof.
  revert i. induction ps as [|q ps IH]; intros [|i] Hp; simplify_eq/=; [lia|].
  rewrite (IH i Hp). lia.
Qed.

Lemma total_by_ext {A} (f g : A -> Z) (l : list A) : (forall i x, l !! i = Some x -> f x = g x) -> total_by f l = total_by g l.
Proof.
  unfold total_by. induction l as [|x l IH]; intros H; cbn; [done|]. rewrite (H 0%nat x eq_refl), IH; [done|]. intros i. apply (H (S i)).
Qed.

Lemma total_by_app {A} (f : A -> Z) (l k : list A) : total_by f (l ++ k) = total_by f l + total_by f k.
Proof. unfold total_by. induction l as [|x l IH]; cbn; [done|]. rewrite IH. lia. Qed.

Lemma total_by_same (f : peer -> Z) ps ps' : length ps' = length ps ->
  (forall i p p', ps !! i = Some p -> ps' !! i = Some p' -> f p' = f p) -> total_by f ps' = total_by f ps.
Proof.
  revert ps'. induction ps as [|p ps IH]; intros [|p' ps'] Hl Hf; try done. cbn. rewrite (Hf 0%nat p p') by done.
  f_equal. apply IH; [by injection Hl|]. intros i. apply (Hf (S i)).
Qed.

Lemma total_by_insert {A} (f : A -> Z) (l : list A) i x y : l !! i = Some x ->
  total_by f (<[i:=y]> l) = total_by f l - f x + f y.
Proof.
  revert i. induction l as [|z l IH]; intros [|i] Hp; simplify_eq/=; [lia|].
  rewrite (IH i Hp). lia.
Qed.

Lemma fmap_alter_same {A B} (f : A -> B) (h : A -> A) i (l : list A) :
  (forall x, f (h x) = f x) -> f <$> alter h i l = f <$> l.
Proof.
  intros Hf. revert i. induction l as [|x l IH]; intros [|i]; cbn; [done..| |].
  - by rewrite Hf.
  - f_equal. apply IH.
Qed.

(** *** Sums over the peers of a set *)

Definition isum (g : nat -> peer -> Z) (ps : list peer) : Z := foldr Z.add 0 (imap g ps).

Lemma isum_cons g p ps : isum g (p :: ps) = g 0%nat p + isum (fun i => g (S i)) ps.
Proof. done. Qed.

Lemma isum_le g h ps : (forall i p, ps !! i = Some p -> g i p <= h i p) -> isum g ps <= isum h ps.
Proof.
  revert g h. induction ps as [|p ps IH]; intros g h H; [done|]. rewrite !isum_cons.
  pose proof (H 0%nat p eq_refl). pose proof (IH (fun i => g (S i)) (fun i => h (S i)) (fun i => H (S i))). lia.
Qed.

Lemma isum_ext g h ps : (forall i p, ps !! i = Some p -> g i p = h i p) -> isum g ps = isum h ps.
Proof. intros H. apply Z.le_antisymm; apply isum_le; intros i p Hp; rewrite (H i p Hp); done. Qed.

Lemma isum_add g h ps : isum (fun i p => g i p + h i p) ps = isum g ps + isum h ps.
Proof. revert g h. induction ps as [|p ps IH]; intros g h; [done|]. rewrite !isum_cons, (IH (fun i => g (S i)) (fun i => h (S i))). lia. Qed.

Lemma isum_imap g (h : nat -> peer -> peer) ps : isum g (imap h ps) = isum (fun i p => g i (h i p)) ps.
Proof.
  revert g h. induction ps as [|p ps IH]; intros g h; [done|]. change (imap h (p :: ps)) with (h 0%nat p :: imap (h ∘ S) ps).
  rewrite !isum_cons, (IH (fun i => g (S i)) (h ∘ S)). done.
Qed.

Lemma isum_alter g h k ps p : ps !! k = Some p -> isum g (alter h k ps) = isum g ps - g k p + g k (h p).
Proof.
  revert g k. induction ps as [|q ps IH]; intros g [|k] Hp; cbn in Hp; simplify_eq.
  - change (alter h 0%nat (p :: ps)) with (h p :: ps). rewrite !isum_cons. lia.
  - change (alter h (S k) (q :: ps)) with (q :: alter h k ps). rewrite !isum_cons, (IH _ k) by done. lia.
Qed.

Lemma isum_length (g : nat -> Z) ps qs : length ps = length qs -> isum (fun i _ => g i) ps = isum (fun i _ => g i) qs.
Proof.
  revert g qs. induction ps as [|p ps IH]; intros g [|q qs] H; try done. rewrite !isum_cons. f_equal. apply IH. by injection H.
Qed.

Lemma total_isum f ps : total_by f ps = isum (fun _ p => f p) ps.
Proof. induction ps as [|p ps IH]; [done|]. rewrite isum_cons, <- IH. done. Qed.

(** The sum over the indexes in [B]. *)
Definition part (B : nat -> bool) (f : nat -> peer -> Z) (ps : list peer) : Z :=
  isum (fun i p => if B i then f i p else 0) ps.

Definition card (B : nat -> bool) (ps : list peer) : Z := part B (fun _ _ => 1) ps.

Definition with_index (k : nat) (B : nat -> bool) : nat -> bool := fun j => bool_decide (j = k) || B j.
Definition without_index (k : nat) (B : nat -> bool) : nat -> bool := fun j => negb (bool_decide (j = k)) && B j.

Lemma part_with B f ps k p : ps !! k = Some p -> B k = false -> part (with_index k B) f ps = part B f ps + f k p.
Proof.
  unfold part, with_index. revert B f k. induction ps as [|q ps IH]; intros B f [|k] Hp Hk; cbn in Hp; simplify_eq; rewrite !isum_cons.
  - rewrite Hk. cbn. rewrite Z.add_comm. f_equal.
  - specialize (IH (fun i => B (S i)) (fun i => f (S i)) k Hp Hk). cbn in IH |- *. rewrite <- Z.add_assoc, <- IH. f_equal.
    apply isum_ext. intros i x _. by destruct (decide (i = k)) as [->|]; [rewrite !bool_decide_eq_true_2 by done|rewrite !bool_decide_eq_false_2 by lia].
Qed.

Lemma part_ext B B' f f' ps : (forall i p, ps !! i = Some p -> B i = B' i /\ f i p = f' i p) -> part B f ps = part B' f' ps.
Proof. intros H. apply isum_ext. intros i p Hp. by destruct (H i p Hp) as [-> ->]. Qed.

Lemma part_without B f ps k p : ps !! k = Some p -> B k = true -> part B f ps = part (without_index k B) f ps + f k p.
Proof.
  intros Hp Hk. rewrite <- part_with by (try done; unfold without_index; by rewrite bool_decide_eq_true_2).
  apply part_ext. intros i q _. split; [|done]. unfold with_index, without_index. destruct (decide (i = k)) as [->|].
  - by rewrite bool_decide_eq_true_2.
  - by rewrite bool_decide_eq_false_2.
Qed.

Lemma part_pos B f ps : 0 < part B f ps -> exists i p, ps !! i = Some p /\ B i = true /\ 0 < f i p.
Proof.
  unfold part. revert B f. induction ps as [|q ps IH]; intros B f H; [done|]. rewrite isum_cons in H.
  destruct (B 0%nat) eqn:E; [destruct (decide (0 < f 0%nat q)); [by exists 0%nat, q|]|];
    (destruct (IH (fun i => B (S i)) (fun i => f (S i)) ltac:(lia)) as (i & p & Hp & H1 & H2); by exists (S i), p).
Qed.

Lemma part_none f ps : part (fun _ => false) f ps = 0.
Proof. unfold part. induction ps as [|p ps IH]; [done|]. by rewrite isum_cons, IH. Qed.

Lemma part_all f ps : part (fun _ => true) (fun _ => f) ps = total_by f ps.
Proof. by rewrite total_isum. Qed.

Lemma card_all ps : card (fun _ => true) ps = Z.of_nat (length ps).
Proof. unfold card, part. induction ps as [|p ps IH]; [done|]. rewrite isum_cons, IH. cbn [length]. lia. Qed.

(** ** The range of the weights

    The sum of the current weights of any set of [c] of the [n] peers is at
    most [W * c * (n - c)], [W] being the sum of the weights configured: a set
    that gains without paying lacks the best peer and has another one, and
    both with the best and without the other one it was within its bound. *)

Section Range.
Context `{P : Platform}.

Definition sound (ps : list peer) : Prop :=
  forall i p, ps !! i = Some p -> 0 <= effective_weight p <= weight p.

Record level (ps : list peer) : Prop := {
  level_zero : total_by current_weight ps = 0;
  level_fits : total_by weight ps * Z.of_nat (length ps) <= max_value ptr_size;
  level_spread : forall B, part B (fun _ => current_weight) ps <=
    total_by weight ps * (card B ps * (Z.of_nat (length ps) - card B ps))
}.

Lemma weights_nonneg ps : sound ps -> 0 <= total_by weight ps /\ forall i p, ps !! i = Some p -> weight p <= total_by weight ps.
Proof.
  intros H. rewrite total_isum. split.
  - rewrite <- (part_none (fun _ => weight) ps). apply isum_le. intros i p Hp. cbn. specialize (H i p Hp). lia.
  - intros i p Hp. rewrite <- (Z.add_0_l (weight p)), <- (part_none (fun _ => weight) ps).
    rewrite <- (part_with _ (fun _ => weight) ps i p Hp) by done. apply isum_le. intros j q Hq. specialize (H j q Hq).
    destruct (with_index i _ j); lia.
Qed.

Lemma level_bounds ps i p : sound ps -> level ps -> ps !! i = Some p ->
  Z.abs (current_weight p) + total_by weight ps <= total_by weight ps * Z.of_nat (length ps).
Proof.
  intros Hs [L1 L2 L3] Hp. destruct (weights_nonneg ps Hs) as [HW _].
  pose proof (part_with (fun _ => false) (fun _ => current_weight) ps i p Hp eq_refl) as E1. rewrite part_none in E1.
  pose proof (part_with (fun _ => false) (fun _ _ => 1) ps i p Hp eq_refl) as E2. rewrite part_none in E2.
  pose proof (part_without (fun _ => true) (fun _ => current_weight) ps i p Hp eq_refl) as E3. rewrite part_all, L1 in E3.
  pose proof (part_without (fun _ => true) (fun _ _ => 1) ps i p Hp eq_refl) as E4. fold (card (fun _ => true) ps) in E4. rewrite card_all in E4.
  pose proof (L3 (with_index i (fun _ => false))) as B1. pose proof (L3 (without_index i (fun _ => true))) as B2.
  unfold card in *. rewrite E1, E2 in B1. replace (part (without_index i _) (fun _ _ => 1) ps) with (Z.of_nat (length ps) - 1) in B2 by lia.
  nia.
Qed.

Lemma level_weight ps i p : sound ps -> level ps -> ps !! i = Some p -> weight p <= max_value ptr_size.
Proof.
  intros Hs HL Hp. pose proof (level_bounds ps i p Hs HL Hp). destruct (weights_nonneg ps Hs) as [_ Hw]. specialize (Hw i p Hp).
  pose proof (level_fits ps HL). lia.
Qed.

Lemma level_total ps : sound ps -> level ps -> 0 <= total_by weight ps <= max_value ptr_size.
Proof.
  intros Hs HL. destruct (weights_nonneg ps Hs) as [HW _]. pose proof (level_fits ps HL). pose proof (max_value_pos ptr_size).
  destruct ps as [|p ps]; [cbn; lia|]. cbn [length] in *. nia.
Qed.

End Range.

Section Loop.
Context `{P : Platform}.
Variables (now : Z) (t : list Z).

Definition passed (i : nat) (p : peer) : peer := if skip now t i p then p else bump p.

(** The weight a peer has in the comparison. *)
Definition gain (p : peer) : Z := current_weight (bump p).

Lemma get_loop_peers ps i best total r b s :
  get_loop now t i ps best (to_signed ptr_size total) = (r, b, s) ->
  r = imap (fun j => passed (i + j)) ps /\
  s = to_signed ptr_size (total + foldr Z.add 0 (imap (fun j p => if skip now t (i + j) p then 0 else effective_weight p) ps)).
Proof.
  revert i best total r b s. induction ps as [|p ps IH]; intros i best total r b s H; simplify_eq/=.
  - split; [done|]. by rewrite Z.add_0_r.
  - assert (Hi : (i + 0)%nat = i) by lia.
    assert (HI : forall A (f : nat -> peer -> A), imap ((fun j => f (i + j)%nat) ∘ S) ps = imap (fun j => f (S i + j)%nat) ps)
      by (intros; apply imap_ext; intros; simpl; f_equal; lia).
    destruct (skip now t i p) eqn:E.
    + destruct (get_loop now t (S i) ps best (to_signed ptr_size total)) as [[r0 b0] s0] eqn:EL. simplify_eq.
      apply IH in EL as [-> ->]. rewrite (HI _ passed), (HI _ (fun j p => if skip now t j p then 0 else effective_weight p)).
      unfold passed at 2. rewrite Hi, E. split; [done|]. f_equal; lia.
    + rewrite to_signed_add_l in H. destruct (get_loop now t (S i) ps _ _) as [[r0 b0] s0] eqn:EL. simplify_eq.
      apply IH in EL as [-> ->]. rewrite (HI _ passed), (HI _ (fun j p => if skip now t j p then 0 else effective_weight p)).
      unfold passed at 2. rewrite Hi, E. split; [done|]. f_equal; lia.
Qed.

(** [best] is the first of the peers with the largest weight. *)
Definition best_of (i : nat) (ps : list peer) (best : option (nat * Z)) (k : nat) (w : Z) : Prop :=
  (best = Some (k, w) \/
   exists j p, k = (i + j)%nat /\ ps !! j = Some p /\ skip now t k p = false /\ w = gain p /\
     forall k0 w0, best = Some (k0, w0) -> w0 < w) /\
  (forall k0 w0, best = Some (k0, w0) -> w0 <= w) /\
  (forall j p, ps !! j = Some p -> skip now t (i + j) p = false ->
     gain p <= w /\ ((i + j < k)%nat -> gain p < w)).

(** One more peer in front, [best'] being what it makes of [best]. *)
Lemma best_step i p ps best best' k w :
  skip now t i p = false -> (forall k0 w0, best = Some (k0, w0) -> (k0 < i)%nat) ->
  (best' = Some (i, gain p) /\ forall k0 w0, best = Some (k0, w0) -> w0 < gain p) \/
  (best' = best /\ exists k0 w0, best = Some (k0, w0) /\ gain p <= w0) ->
  best_of (S i) ps best' k w -> best_of i (p :: ps) best k w.
Proof.
  intros E Hb HB (H1 & H2 & H3). assert (Hs : forall j, (S i + j)%nat = (i + S j)%nat) by lia.
  assert (Hw : gain p <= w /\ forall k0 w0, best = Some (k0, w0) -> w0 <= w).
  { destruct HB as [[-> HB]|(-> & k0 & w0 & Hk & HB)].
    - specialize (H2 i (gain p) eq_refl). split; [done|]. intros k0 w0 Hk. apply HB in Hk. lia.
    - split; [|done]. apply H2 in Hk. lia. }
  split; [|split; [tauto|]].
  - destruct H1 as [H1|(j & q & -> & Hq & Hk & -> & H1)].
    + destruct HB as [[-> HB]|[-> _]]; [|by left]. right. exists 0%nat, p. simplify_eq.
      rewrite Nat.add_0_r. auto.
    + right. exists (S j), q. rewrite <- Hs. repeat split; auto. intros k0 w0 Hk0.
      destruct HB as [[-> HB]|(-> & _)]; [|eauto]. specialize (H1 _ _ eq_refl). apply HB in Hk0. lia.
  - intros [|j] q Hq Hk; simplify_eq/=.
    + split; [tauto|]. intros Hlt. rewrite Nat.add_0_r in Hlt.
      destruct H1 as [H1|(j & q' & -> & Hq & Hk' & -> & H1)].
      * destruct HB as [[-> HB]|(-> & _)]; [simplify_eq; lia|]. apply Hb in H1. lia.
      * destruct HB as [[-> HB]|(-> & k0 & w0 & Hk0 & HB)]; [by apply (H1 i)|].
        apply H1 in Hk0. lia.
    + rewrite <- Hs in *. eauto.
Qed.

Lemma get_loop_best ps : forall i best total r b s,
  get_loop now t i ps best total = (r, b, s) ->
  (forall k w, best = Some (k, w) -> (k < i)%nat) ->
  match b with
  | None => best = None /\ forall j p, ps !! j = Some p -> skip now t (i + j) p = true
  | Some (k, w) => best_of i ps best k w
  end.
Proof.
  induction ps as [|p ps IH]; intros i best total r b s H Hb; simpl in H.
  - simplify_eq. destruct b as [[k w]|]; [|done].
    split; [by left|]. split; [|done]. intros k0 w0 E. simplify_eq. lia.
  - assert (Hs : forall j, (S i + j)%nat = (i + S j)%nat) by lia.
    destruct (skip now t i p) eqn:E.
    + destruct (get_loop now t (S i) ps best total) as [[r0 b0] s0] eqn:EL. simplify_eq.
      apply IH in EL; [|intros k w Hk; apply Hb in Hk; lia].
      destruct b as [[k w]|].
      * destruct EL as (H1 & H2 & H3). split; [|split; [done|]].
        -- destruct H1 as [H1|(j & q & -> & Hq & Hk & Hw & H1)]; [by left|right].
           exists (S j), q. rewrite <- Hs. auto.
        -- intros [|j] q Hq Hk; simplify_eq/=.
           { rewrite Nat.add_0_r in Hk. congruence. }
           rewrite <- Hs in *. eauto.
      * destruct EL as [-> H2]. split; [done|]. intros [|j] q Hq; simplify_eq/=.
        { by rewrite Nat.add_0_r. }
        rewrite <- Hs. eauto.
    + change (to_signed ptr_size (current_weight p + effective_weight p)) with (gain p) in H. set (best' := match best with None => _ | Some _ => _ end) in H.
      destruct (get_loop now t (S i) ps best' _) as [[r0 b0] s0] eqn:EL. simplify_eq.
      assert (HB : (best' = Some (i, gain p) /\ forall k0 w0, best = Some (k0, w0) -> w0 < gain p) \/
                   (best' = best /\ exists k0 w0, best = Some (k0, w0) /\ gain p <= w0)).
      { unfold best'. destruct best as [[k0 w0]|].
        - destruct (gain p >? w0) eqn:Eg; [left|right; split; [done|exists k0, w0; split; [done|lia]]].
          split; [done|]. intros k1 w1 Hk. simplify_eq. lia.
        - left. split; [done|]. discriminate. }
      apply IH in EL.
      2: { intros k w Hk. destruct HB as [[HB _]|[HB _]]; rewrite HB in Hk; [simplify_eq; lia|].
           apply Hb in Hk. lia. }
      destruct b as [[k w]|]; [|exfalso; destruct EL as [EL _];
        destruct HB as [[HB _]|(HB & k0 & w0 & Hk & _)]; congruence].
      apply (best_step i p ps best best' k w); auto.
Qed.


(** The sum of the weights that were added. *)
Definition added (ps : list peer) : Z :=
  to_signed ptr_size (foldr Z.add 0 (imap (fun j p => if skip now t j p then 0 else effective_weight p) ps)).

(** ngx_http_upstream_get_peer(): nothing changes when every peer is skipped;
    otherwise the best one is charged the sum of the weights. *)
Lemma get_peer_spec ps o ps' t' :
  ngx_http_upstream_get_peer now t ps = (o, ps', t') ->
  match o with
  | None => ps' = ps /\ t' = t /\ forall i p, ps !! i = Some p -> skip now t i p = true
  | Some i =>
      t' = mark t i /\ ps' = alter (choose now (added ps)) i (imap passed ps) /\
      exists p, ps !! i = Some p /\ skip now t i p = false /\
        forall j q, ps !! j = Some q -> skip now t j q = false ->
          gain q <= gain p /\ ((j < i)%nat -> gain q < gain p)
  end.
Proof.
  unfold ngx_http_upstream_get_peer. intros H.
  destruct (get_loop now t 0 ps None 0) as [[r b] s] eqn:EL.
  pose proof (get_loop_best _ _ _ _ _ _ _ EL ltac:(discriminate)) as HB.
  rewrite <- (to_signed_id ptr_size 0) in EL at 1 by (pose proof (max_value_pos ptr_size); lia).
  apply get_loop_peers in EL as [-> ->]. cbn [Nat.add] in *.
  destruct b as [[i w]|]; simplify_eq.
  - split; [done|]. rewrite Z.add_0_l. split; [done|].
    destruct HB as ([H1|(j & p & -> & Hp & Hk & -> & _)] & _ & H3); [discriminate|].
    exists p. cbn [Nat.add] in *. auto.
  - destruct HB as [_ HB]. split; [|auto]. apply list_eq. intros i.
    rewrite list_lookup_imap. destruct (ps !! i) as [p|] eqn:Ep; [|done]. cbn.
    unfold passed. by rewrite HB.
Qed.

(** What a peer gains. *)
Definition gains (i : nat) (p : peer) : Z := if skip now t i p then 0 else effective_weight p.

Lemma gains_bounds ps B : sound ps -> 0 <= part B gains ps <= part (fun _ => true) gains ps /\
  part (fun _ => true) gains ps <= total_by weight ps.
Proof.
  intros Hs. rewrite total_isum. split_and!; [rewrite <- (part_none gains ps)|..]; apply isum_le; intros i p Hp; specialize (Hs i p Hp);
    unfold gains; destruct (B i), (skip now t i p); lia.
Qed.

Section Exact.
Variable ps : list peer.
Hypothesis Hs : sound ps.
Hypothesis HL : level ps.

Lemma size_pos i p : ps !! i = Some p -> 1 <= Z.of_nat (length ps).
Proof. intros Hp. apply lookup_lt_Some in Hp. lia. Qed.

Lemma gain_exact i p : ps !! i = Some p -> gain p = current_weight p + effective_weight p.
Proof.
  intros Hp. pose proof (level_bounds ps i p Hs HL Hp). pose proof (level_fits ps HL). specialize (Hs i p Hp) as He.
  destruct (weights_nonneg ps Hs) as [_ Hw]. specialize (Hw i p Hp). apply to_signed_id. lia.
Qed.

Lemma passed_exact i p : ps !! i = Some p -> current_weight (passed i p) = current_weight p + gains i p.
Proof. intros Hp. unfold passed, gains. destruct (skip now t i p); [lia|]. by apply (gain_exact i). Qed.

Lemma added_exact i p : ps !! i = Some p -> added ps = part (fun _ => true) gains ps.
Proof.
  intros Hp. destruct (gains_bounds ps (fun _ => true) Hs) as [H1 H2]. pose proof (level_fits ps HL).
  pose proof (size_pos i p Hp). destruct (weights_nonneg ps Hs) as [HW _]. apply to_signed_id.
  change (foldr Z.add 0 _) with (part (fun _ => true) gains ps). nia.
Qed.

Lemma choose_exact i p : ps !! i = Some p -> skip now t i p = false ->
  current_weight (choose now (added ps) (passed i p)) = current_weight p + gains i p - added ps.
Proof.
  intros Hp Hk. cbn [choose current_weight]. rewrite (passed_exact i p Hp). pose proof (level_bounds ps i p Hs HL Hp).
  pose proof (level_fits ps HL). specialize (Hs i p Hp) as He. destruct (weights_nonneg ps Hs) as [HW Hw]. specialize (Hw i p Hp).
  rewrite (added_exact i p Hp). destruct (gains_bounds ps (fun _ => true) Hs) as [H1 H2]. unfold gains in *. rewrite Hk in *. apply to_signed_id. lia.
Qed.

(** The sum of a set after the best peer was charged. *)
Lemma part_charged B b pb : ps !! b = Some pb -> skip now t b pb = false ->
  part B (fun _ => current_weight) (alter (choose now (added ps)) b (imap passed ps)) =
  part B (fun _ => current_weight) ps + part B gains ps - (if B b then added ps else 0).
Proof.
  intros Hb Hk. unfold part. rewrite (isum_alter _ _ _ _ (passed b pb)) by (by rewrite list_lookup_imap, Hb).
  rewrite isum_imap, (choose_exact b pb Hb Hk), (passed_exact b pb Hb), <- isum_add.
  rewrite (isum_ext _ (fun i p => (if B i then current_weight p else 0) + (if B i then gains i p else 0))).
  - destruct (B b); lia.
  - intros i p Hp. cbn. rewrite (passed_exact i p Hp). destruct (B i); lia.
Qed.

Lemma spread_charged B b pb : ps !! b = Some pb -> skip now t b pb = false ->
  (forall j q, ps !! j = Some q -> skip now t j q = false -> gain q <= gain pb) ->
  let n := Z.of_nat (length ps) in
  part B (fun _ => current_weight) ps + part B gains ps - (if B b then added ps else 0) <=
    total_by weight ps * (card B ps * (n - card B ps)).
Proof.
  intros Hb Hk Hbest n. pose proof (level_spread ps HL) as HS. destruct (gains_bounds ps B Hs) as [HG1 HG2]. rewrite (added_exact b pb Hb).
  pose proof (HS B) as H0. fold n in H0. destruct (B b) eqn:EB; [lia|].
  destruct (decide (part B gains ps = 0)) as [->|Hne]; [lia|].
  assert (exists i p, ps !! i = Some p /\ B i = true /\ skip now t i p = false) as (i & p & Hp & HBi & Hki).
  { destruct (part_pos B gains ps) as (i & p & Hp & HBi & Hg); [lia|]. exists i, p. split; [done|]. split; [done|].
    unfold gains in Hg. by destruct (skip now t i p). }
  pose proof (part_with B (fun _ => current_weight) ps b pb Hb EB) as W1. pose proof (part_with B gains ps b pb Hb EB) as W2.
  pose proof (part_with B (fun _ _ => 1) ps b pb Hb EB) as W3. pose proof (part_without B (fun _ => current_weight) ps i p Hp HBi) as V1.
  pose proof (part_without B gains ps i p Hp HBi) as V2. pose proof (part_without B (fun _ _ => 1) ps i p Hp HBi) as V3.
  destruct (gains_bounds ps (with_index b B) Hs) as [G1 _]. destruct (gains_bounds ps (without_index i B) Hs) as [G2 _].
  pose proof (HS (with_index b B)) as S1. pose proof (HS (without_index i B)) as S2. specialize (Hbest i p Hp Hki).
  rewrite (gain_exact i p Hp), (gain_exact b pb Hb) in Hbest. unfold gains in W2, V2. rewrite Hk in W2. rewrite Hki in V2. fold gains in W2, V2.
  unfold card in *. fold n in S1, S2. set (c := part B (fun _ _ => 1) ps) in *. set (W := total_by weight ps) in *.
  replace (part (without_index i B) (fun _ _ => 1) ps) with (c - 1) in S2 by lia. rewrite W3 in S1.
  assert (W * ((c + 1) * (n - (c + 1))) + W * ((c - 1) * (n - (c - 1))) = 2 * (W * (c * (n - c))) - 2 * W) as EW by ring. lia.
Qed.

End Exact.

(** Choosing a peer keeps the weights level: it moves weight between the peers
    and creates none. *)
Lemma get_peer_level ps o ps' t' : sound ps -> level ps ->
  ngx_http_upstream_get_peer now t ps = (o, ps', t') -> level ps'.
Proof.
  intros Hs HL H. apply get_peer_spec in H. destruct o as [b|]; [|by destruct H as [-> _]].
  destruct H as (-> & -> & pb & Hb & Hk & Hbest).
  assert (length (alter (choose now (added ps)) b (imap passed ps)) = length ps) as Hlen by (by rewrite length_alter, length_imap).
  assert (total_by weight (alter (choose now (added ps)) b (imap passed ps)) = total_by weight ps) as HW.
  { rewrite !total_isum, (isum_alter _ _ _ _ (passed b pb)) by (by rewrite list_lookup_imap, Hb). cbn. rewrite isum_imap, Z.sub_add.
    apply isum_ext. intros i p _. unfold passed. by destruct (skip now t i p). }
  split.
  - rewrite <- part_all, (part_charged ps Hs HL (fun _ => true) b pb Hb Hk), part_all, (level_zero ps HL), (added_exact ps Hs HL b pb Hb). lia.
  - rewrite HW, Hlen. apply HL.
  - intros B. rewrite HW, Hlen, (part_charged ps Hs HL B b pb Hb Hk).
    assert (card B (alter (choose now (added ps)) b (imap passed ps)) = card B ps) as -> by (by apply (isum_length (fun i => if B i then 1 else 0))).
    apply (spread_charged ps Hs HL B b pb Hb Hk). intros j q Hq Hkq. by apply (Hbest j q).
Qed.

End Loop.
(** ** The bits of [tried] *)

Section Tried.
Context `{P : Platform}.

Lemma word_pos : (0 < word)%nat.
Proof. unfold word. destruct ptr_size; cbn; lia. Qed.

Lemma tried_mark t i j : (i / word < length t)%nat ->
  tried_at (mark t i) j = bool_decide (i = j) || tried_at t j.
Proof.
  intros Hi. unfold tried_at. rewrite !land_bit by lia. unfold mark. rewrite !nth_lookup.
  pose proof word_pos as Hw.
  pose proof (Nat.div_mod i word ltac:(lia)) as Ei. pose proof (Nat.div_mod j word ltac:(lia)) as Ej.
  destruct (decide ((i / word)%nat = (j / word)%nat)) as [Hd|Hd].
  - rewrite <- Hd, list_lookup_insert_eq by done. cbn [from_option id].
    rewrite Z.lor_spec, Z.shiftl_1_l, Z.pow2_bits_eqb by lia.
    destruct (Z.eqb_spec (Z.of_nat (i mod word)) (Z.of_nat (j mod word))) as [Hm|Hm].
    + rewrite bool_decide_eq_true_2 by (rewrite Ei, Ej, Hd; f_equal; lia). by rewrite orb_true_r.
    + rewrite bool_decide_eq_false_2 by (intros ->; done). by rewrite orb_false_r.
  - rewrite list_lookup_insert_ne by done.
    by rewrite bool_decide_eq_false_2 by (intros ->; done).
Qed.

Lemma mark_length t i : length (mark t i) = length t.
Proof. apply length_insert. Qed.

Lemma clear_length n t : (n <= length t)%nat -> length (clear n t) = length t.
Proof. intros H. unfold clear. rewrite length_app, length_replicate, length_drop. lia. Qed.

(** Every peer of a group has its bit. *)
Lemma words_enough n i : (i < n)%nat -> (i / word < words (Z.of_nat n))%nat.
Proof.
  intros Hi. unfold words. pose proof word_pos as Hw.
  apply Nat2Z.inj_lt. rewrite Z2Nat.id by (apply Z.div_pos; lia). rewrite Nat2Z.inj_div.
  apply Z.div_lt_upper_bound; [lia|].
  pose proof (Z.mul_succ_div_gt (Z.of_nat n + (Z.of_nat word - 1)) (Z.of_nat word)) as Hq; specialize (Hq ltac:(lia)).
  rewrite Z.mul_succ_r in Hq. lia.
Qed.

End Tried.

(** ** The system

    The groups are shared by the requests; a request asks for a peer, and
    again after it has given one back, in any interleaving with the others.
    A request is paired with whether it holds a peer. *)

Section System.
Context `{P : Platform}.

Record sys := mk_sys { groups : list peers; requests : list (rr_data * bool) }.

Inductive step : sys -> sys -> Prop :=
  | Step_new gs rs :
      step (mk_sys gs rs)
        (mk_sys gs (rs ++ [(ngx_http_upstream_init_round_robin_peer gs, false)]))
  | Step_get now j rr gs rs rc rr' gs' :
      rs !! j = Some (rr, false) ->
      ngx_http_upstream_get_round_robin_peer now rr gs = (rc, rr', gs') ->
      step (mk_sys gs rs) (mk_sys gs' (<[j := (rr', rc =? NGX_OK)]> rs))
  | Step_free now state pc_tries j rr gs rs gs' pc_tries' :
      rs !! j = Some (rr, true) ->
      ngx_http_upstream_free_round_robin_peer now state rr pc_tries gs = (gs', pc_tries') ->
      step (mk_sys gs rs) (mk_sys gs' (<[j := (rr, false)]> rs)).

Definition peer_at (gs : list peers) (k i : nat) : option peer :=
  gs !! k ≫= fun g => peer_list g !! i.

(** How many requests hold a peer. *)
Definition holds (x : nat * nat) (r : rr_data * bool) : Z :=
  if r.2 then (if decide (current r.1 = Some x) then 1 else 0) else 0.

Definition holders (rs : list (rr_data * bool)) (x : nat * nat) : Z := total_by (holds x) rs.

Definition peer_ok (p : peer) (n : Z) : Prop :=
  0 <= effective_weight p <= weight p /\ 0 <= max_fails p /\ conns p = n /\
  (max_conns p = 0 \/ conns p <= max_conns p).

Definition group_ok (rs : list (rr_data * bool)) (k : nat) (g : peers) : Prop :=
  number g = Z.of_nat (length (peer_list g)) /\
  total_weight g = total_by weight (peer_list g) /\
  level (peer_list g) /\
  forall i p, peer_list g !! i = Some p -> peer_ok p (holders rs (k, i)).

Definition request_ok (gs : list peers) (r : rr_data * bool) : Prop :=
  (forall k g, (group r.1 <= k)%nat -> gs !! k = Some g ->
     (words (number g) <= length (tried r.1))%nat) /\
  (r.2 = true -> exists i, current r.1 = Some (group r.1, i) /\ is_Some (peer_at gs (group r.1) i)).

Definition consistent (s : sys) : Prop :=
  (length (groups s) <= 2)%nat /\
  (forall k g, groups s !! k = Some g -> group_ok (requests s) k g) /\
  (forall j r, requests s !! j = Some r -> request_ok (groups s) r).

(** *** What an operation does to the peers

    [d] is the change of [conns], positive only where there is room. *)

Definition moved (d : Z) (p p' : peer) : Prop :=
  conns p' = conns p + d /\ max_conns p' = max_conns p /\ weight p' = weight p /\ max_fails p' = max_fails p /\
  (weight p <= max_value ptr_size -> 0 <= effective_weight p <= weight p -> 0 <= max_fails p ->
   0 <= effective_weight p' <= weight p) /\
  (d <= 0 \/ (d = 1 /\ (max_conns p = 0 \/ conns p < max_conns p))).

Definition group_moved (d : nat -> Z) (g g' : peers) : Prop :=
  single g' = single g /\ (number g' = number g /\ total_weight g' = total_weight g) /\
  length (peer_list g') = length (peer_list g) /\
  (sound (peer_list g) -> level (peer_list g) -> level (peer_list g')) /\
  forall i p p', peer_list g !! i = Some p -> peer_list g' !! i = Some p' -> moved (d i) p p'.

Definition groups_moved (d : nat * nat -> Z) (gs gs' : list peers) : Prop :=
  length gs' = length gs /\
  forall k g g', gs !! k = Some g -> gs' !! k = Some g' -> group_moved (fun i => d (k, i)) g g'.

Lemma moved_refl p : moved 0 p p.
Proof. repeat split; try lia. Qed.

Lemma group_moved_refl g : group_moved (fun _ => 0) g g.
Proof. do 4 (split; [done|]). intros i p p' Hp Hp'. simplify_eq. apply moved_refl. Qed.

(** The effective weight grows up to the weight, which is an [ngx_int_t]. *)
Lemma bump_effective p : weight p <= max_value ptr_size -> 0 <= effective_weight p <= weight p ->
  effective_weight (bump p) = Z.min (effective_weight p + 1) (weight p).
Proof. intros Hw He. cbn. destruct (_ <? _) eqn:E; [rewrite to_signed_id by (pose proof (max_value_pos ptr_size); lia)|]; lia. Qed.

Lemma moved_bump p : moved 0 p (bump p).
Proof.
  repeat split; try (cbn; lia); rewrite bump_effective by lia; lia.
Qed.

Lemma moved_passed now t i p : moved 0 p (passed now t i p).
Proof. unfold passed. destruct (skip now t i p); [apply moved_refl|apply moved_bump]. Qed.

Lemma moved_choose now total p : moved 0 p (choose now total p).
Proof. repeat split; cbn; lia. Qed.

Lemma moved_trans p p1 p2 d : moved 0 p p1 -> moved d p1 p2 -> moved d p p2.
Proof.
  intros (H1 & H2 & H3 & H4 & H5 & H6) (G1 & G2 & G3 & G4 & G5 & G6).
  repeat split; lia.
Qed.

(** What a peer that is not skipped has. *)
Definition has_slot (p : peer) : Prop := max_conns p = 0 \/ conns p < max_conns p.

Lemma skip_slot now t i p : skip now t i p = false -> has_slot p.
Proof. unfold skip, has_slot. lia. Qed.

(** Choosing a peer in a group leaves [conns] alone; the peer chosen exists
    and has a free slot. *)
Lemma get_in_group_moved now t g o g' t' :
  get_in_group now t g = (o, g', t') ->
  group_moved (fun _ => 0) g g' /\ length t' = length t /\
  forall i, o = Some i -> exists p, peer_list g !! i = Some p /\ has_slot p.
Proof.
  unfold get_in_group. destruct (single g) eqn:Es.
  - destruct (peer_list g) as [|p ps] eqn:Eg; [intros; simplify_eq; split; [apply group_moved_refl|done]|].
    destruct (down p || _) eqn:E; intros; simplify_eq; (split; [apply group_moved_refl|]);
      (split; [done|]); [done|]. intros i [= <-]. exists p. split; [done|]. unfold has_slot. lia.
  - destruct (ngx_http_upstream_get_peer now t (peer_list g)) as [[o1 ps1] t1] eqn:E.
    intros; simplify_eq. pose proof (fun Hs HL => get_peer_level _ _ _ _ _ _ Hs HL E) as HT.
    apply get_peer_spec in E. destruct o as [i|].
    + destruct E as (-> & -> & p & Hp & Hk & _).
      split; [|split; [apply mark_length|]; intros ? [= <-]; eauto using skip_slot].
      split; [by cbn|]. split; [done|]. cbn [set_peer_list peer_list].
      split; [by rewrite length_alter, length_imap|]. split; [done|].
      intros j q q' Hq Hq'. destruct (decide (j = i)) as [->|Hj].
      * rewrite list_lookup_alter_eq, list_lookup_imap, Hq in Hq'. cbn in Hq'. simplify_eq.
        eapply moved_trans; [apply moved_passed|apply moved_choose].
      * rewrite list_lookup_alter_ne, list_lookup_imap, Hq in Hq' by done. cbn in Hq'. simplify_eq.
        apply moved_passed.
    + destruct E as (-> & -> & _). split; [|done]. destruct g. apply group_moved_refl.
Qed.

(** *** The whole operation *)

(** A change that keeps the current weights and the weights of the peers. *)
Lemma level_same ps ps' : current_weight <$> ps' = current_weight <$> ps -> weight <$> ps' = weight <$> ps -> level ps -> level ps'.
Proof.
  intros Hc Hw HL. assert (length ps' = length ps) as Hlen by (apply (f_equal length) in Hc; by rewrite !length_fmap in Hc).
  assert (forall f, (forall (i : nat) p p', ps !! i = Some p -> ps' !! i = Some p' -> f p' = f p) -> forall B, part B (fun _ => f) ps' = part B (fun _ => f) ps) as HP.
  { clear -Hlen. intros f. unfold part. revert ps' Hlen. induction ps as [|p l IH]; intros [|p' l'] Hlen Hf B; try done. rewrite !isum_cons.
    rewrite (Hf 0%nat p p') by done. f_equal. apply (IH l' ltac:(by injection Hlen) (fun i => Hf (S i)) (fun i => B (S i))). }
  assert (forall (f : peer -> Z), f <$> ps' = f <$> ps -> forall (i : nat) p p', ps !! i = Some p -> ps' !! i = Some p' -> f p' = f p) as HF.
  { intros f Hf i p p' Hp Hp'. apply (f_equal (lookup i)) in Hf. rewrite !list_lookup_fmap, Hp, Hp' in Hf. by injection Hf. }
  pose proof (HP _ (HF _ Hc)) as HPc. pose proof (HP _ (HF _ Hw)) as HPw. destruct HL as [L1 L2 L3].
  rewrite <- part_all, <- HPc, part_all in L1. rewrite <- part_all, <- HPw, part_all, <- Hlen in L2.
  split; [done|done|]. intros B. rewrite HPc, <- part_all, HPw, part_all, Hlen.
  assert (card B ps' = card B ps) as -> by (by apply (isum_length (fun i => if B i then 1 else 0))). apply L3.
Qed.

Lemma level_alter h i ps : (forall p, current_weight (h p) = current_weight p /\ weight (h p) = weight p) -> level ps -> level (alter h i ps).
Proof. intros Hh. apply level_same; apply fmap_alter_same; intros p; apply Hh. Qed.

Lemma alter_conns_moved d g g' i p :
  group_moved (fun _ => 0) g g' -> peer_list g !! i = Some p ->
  (d <= 0 \/ (d = 1 /\ has_slot p)) ->
  group_moved (fun j => if decide (i = j) then d else 0) g
    (set_peer_list (alter (add_conns d) i (peer_list g')) g').
Proof.
  intros (H1 & H2 & H3 & H4 & H5) Hp Hd. unfold group_moved.
  cbn [set_peer_list single number peer_list].
  assert (Hi : is_Some (peer_list g' !! i))
    by (apply lookup_lt_is_Some; rewrite H3; by eapply lookup_lt_Some).
  destruct Hi as [p' Hp']. split; [done|]. split; [done|].
  split; [by rewrite length_alter|]. split.
  { intros Hs HL. by apply level_alter, H4. }
  cbn. intros j q q' Hq Hq'. destruct (decide (i = j)) as [<-|Hj].
  - rewrite list_lookup_alter_eq, Hp' in Hq'. cbn in Hq'. simplify_eq.
    eapply moved_trans; [by apply (H5 i)|]. destruct (H5 i _ _ Hp Hp') as (G1 & G2 & G3 & G4 & G5 & G6).
    unfold has_slot in Hd. repeat split; cbn; lia.
  - rewrite list_lookup_alter_ne in Hq' by done. eauto.
Qed.

Lemma group_moved_ext d d' g g' : (forall i, d i = d' i) -> group_moved d g g' -> group_moved d' g g'.
Proof.
  intros E (H1 & H2 & H3 & H4 & H5). unfold group_moved.
  do 4 (split; [done|]). intros i p p' Hp Hp'. rewrite <- E. eauto.
Qed.

Lemma groups_moved_cons d g g' gs gs' :
  group_moved (fun i => d (0%nat, i)) g g' ->
  groups_moved (fun x => d (S x.1, x.2)) gs gs' ->
  groups_moved d (g :: gs) (g' :: gs').
Proof.
  intros Hg [HL HG]. split; [by cbn; rewrite HL|].
  intros [|k] h h' E E'; cbn in E, E'; simplify_eq; [done|]. exact (HG k h h' E E').
Qed.

Lemma groups_moved_refl d gs : (forall x, d x = 0) -> groups_moved d gs gs.
Proof.
  intros Hd. split; [done|]. intros k g g' E E'. simplify_eq.
  eapply group_moved_ext, group_moved_refl. intros i. by rewrite Hd.
Qed.

(** The function from the group [k] on. *)
Lemma get_from_moved now gs : forall k cur t rc rr gs',
  get_from now k cur t gs = (rc, rr, gs') ->
  groups_moved (fun x => holds ((k + x.1)%nat, x.2) (rr, rc =? NGX_OK)) gs gs' /\
  (k <= group rr)%nat /\
  (rc = NGX_OK -> exists i, current rr = Some (group rr, i) /\
                            is_Some (peer_at gs (group rr - k) i)) /\
  ((forall m g, gs !! m = Some g -> (words (number g) <= length t)%nat) ->
   length (tried rr) = length t).
Proof.
  induction gs as [|g gs IH]; intros k cur t rc rr gs' H; cbn [get_from] in H.
  { simplify_eq. split; [by apply groups_moved_refl|]. done. }
  destruct (get_in_group now t g) as [[o g1] t1] eqn:E.
  apply get_in_group_moved in E as (HM & HL & HP). destruct o as [i|].
  - simplify_eq. cbn [group current tried]. destruct (HP i eq_refl) as (p & Hp & Hs).
    split; [|split; [lia|split; [|done]]].
    + apply groups_moved_cons; [|apply groups_moved_refl].
      * eapply group_moved_ext, alter_conns_moved; [|done|done|by right].
        intros j. unfold holds. cbn [fst snd current]. rewrite Nat.add_0_r. change (NGX_OK =? NGX_OK) with true.
        cbv iota. destruct (decide (i = j)) as [->|Hj], (decide (Some (k, _) = _)) as [Hc|Hc]; congruence.
      * intros [m j]. unfold holds. cbn [fst snd current]. change (NGX_OK =? NGX_OK) with true. cbv iota.
        destruct (decide _) as [[= Hc]|]; [lia|done].
    + intros _. exists i. rewrite Nat.sub_diag. split; [done|]. unfold peer_at. cbn. by rewrite Hp.
  - destruct gs as [|g2 gs].
    + simplify_eq. split; [|done]. apply groups_moved_cons; [|by apply groups_moved_refl].
      by eapply group_moved_ext.
    + destruct (get_from now (S k) cur _ (g2 :: gs)) as [[rc0 rr0] gs0] eqn:EF. simplify_eq.
      apply IH in EF as (IM & Ig & IC & IL). split; [|split; [lia|split]].
      * apply groups_moved_cons.
        -- eapply group_moved_ext, HM. intros j. unfold holds. cbn [fst snd].
           destruct (rc =? NGX_OK) eqn:Er; [|done]. apply Z.eqb_eq in Er.
           destruct (IC Er) as (i & Hi & _). destruct (decide _) as [Hc|]; [|done].
           rewrite Hi in Hc. simplify_eq. lia.
        -- destruct IM as [I1 I2]. split; [done|]. intros m h h' E E'.
           eapply group_moved_ext, (I2 m h h' E E'). intros j. cbn [fst snd].
           by replace (k + S m)%nat with (S k + m)%nat by lia.
      * intros Er. destruct (IC Er) as (i & Hi & HS). exists i. split; [done|].
        unfold peer_at in *. by replace (group rr - k)%nat with (S (group rr - S k)) by lia.
      * intros HW. pose proof (HW 1%nat g2 eq_refl) as H2. rewrite IL.
        -- rewrite clear_length by (rewrite HL; done). done.
        -- intros m h Hm. rewrite clear_length by (rewrite HL; done). rewrite HL. by apply (HW (S m)).
Qed.

Lemma groups_moved_app d pre gs gs' :
  (forall k i, (k < length pre)%nat -> d (k, i) = 0) ->
  groups_moved (fun x => d ((length pre + x.1)%nat, x.2)) gs gs' ->
  groups_moved d (pre ++ gs) (pre ++ gs').
Proof.
  revert d. induction pre as [|g pre IH]; intros d Hd HM.
  - destruct HM as [HL HM]. split; [done|]. intros k h h'. exact (HM k h h').
  - cbn [app]. apply groups_moved_cons.
    + eapply group_moved_ext, group_moved_refl. intros i. rewrite Hd; [done|cbn; lia].
    + apply IH; [intros k i Hk; apply Hd; cbn; lia|exact HM].
Qed.

Lemma get_rr_moved now rr gs rc rr' gs' :
  ngx_http_upstream_get_round_robin_peer now rr gs = (rc, rr', gs') ->
  groups_moved (fun x => holds x (rr', rc =? NGX_OK)) gs gs' /\
  (group rr <= group rr')%nat /\
  (rc = NGX_OK -> exists i, current rr' = Some (group rr', i) /\
                            is_Some (peer_at gs (group rr') i)) /\
  ((forall k g, (group rr <= k)%nat -> gs !! k = Some g ->
      (words (number g) <= length (tried rr))%nat) -> length (tried rr') = length (tried rr)).
Proof.
  unfold ngx_http_upstream_get_round_robin_peer.
  destruct (get_from now (group rr) _ _ _) as [[rc0 rr0] gs0] eqn:E. intros H. simplify_eq.
  pose proof E as E0. apply get_from_moved in E as (HM & HG & HC & HL). split; [|split; [done|split]].
  - rewrite <- (take_drop (group rr) gs) at 1. destruct (decide (group rr <= length gs)%nat) as [Hle|Hgt].
    + apply groups_moved_app; rewrite length_take, Nat.min_l by done; [|exact HM].
      intros k i Hk. unfold holds. cbn [fst snd]. destruct (rc =? NGX_OK) eqn:Er; [|done].
      apply Z.eqb_eq in Er. destruct (HC Er) as (j & Hj & _). rewrite Hj.
      destruct (decide _) as [[= Hk' _]|]; [lia|done].
    + rewrite drop_ge in E0 |- * by lia. cbn in E0. simplify_eq. by apply groups_moved_refl.
  - intros Er. destruct (HC Er) as (i & Hi & HS). exists i. split; [done|].
    unfold peer_at in *. rewrite lookup_drop in HS. by replace (group rr + (group rr' - group rr))%nat with (group rr') in HS by lia.
  - intros HW. apply HL. intros m g Hm. rewrite lookup_drop in Hm. eapply HW; [|done]. lia.
Qed.

(** A failure takes the share of one of [max_fails] failures. *)
Lemma fail_effective now p : weight p <= max_value ptr_size -> 0 <= effective_weight p <= weight p -> 0 <= max_fails p ->
  effective_weight (fail_peer now p) =
    if max_fails p =? 0 then effective_weight p else Z.max 0 (effective_weight p - weight p / max_fails p).
Proof.
  intros Hw He Hm. cbn. destruct (max_fails p =? 0) eqn:E; [split_if; lia|].
  assert (2 ^ bits ptr_size = 2 * (max_value ptr_size + 1)) as Hb by (by destruct ptr_size).
  rewrite wrapu_small by lia. pose proof (Z.div_pos (weight p) (max_fails p) ltac:(lia) ltac:(lia)).
  assert (weight p / max_fails p <= weight p) by (apply Z.div_le_upper_bound; [lia|nia]).
  rewrite to_signed_id by (pose proof (max_value_pos ptr_size); lia). split_if; lia.
Qed.

Lemma moved_release now state p : moved (-1) p (release now state p).
Proof.
  unfold release. destruct (Z.land state NGX_PEER_FAILED =? 0); repeat split; try (cbn; lia);
    change (effective_weight (add_conns (-1) ?x)) with (effective_weight x); rewrite fail_effective by lia;
    destruct (max_fails p =? 0) eqn:E; try lia; pose proof (Z.div_pos (weight p) (max_fails p) ltac:(lia) ltac:(lia)); lia.
Qed.

Lemma release_weight now state p : current_weight (release now state p) = current_weight p.
Proof. unfold release. by destruct (Z.land state NGX_PEER_FAILED =? 0). Qed.

Lemma alter_moved d h g i :
  (forall p, moved d p (h p) /\ current_weight (h p) = current_weight p) -> d <= 0 ->
  group_moved (fun j => if decide (i = j) then d else 0) g
    (set_peer_list (alter h i (peer_list g)) g).
Proof.
  intros Hh Hd. unfold group_moved. cbn [set_peer_list single number peer_list].
  do 2 (split; [done|]). split; [by rewrite length_alter|]. split.
  - intros _. apply level_alter. intros p. by destruct (Hh p) as [(_ & _ & ? & _) ?].
  - intros j q q' Hq Hq'. destruct (decide (i = j)) as [<-|Hj].
    + rewrite list_lookup_alter_eq, Hq in Hq'. cbn in Hq'. simplify_eq. by destruct (Hh q).
    + rewrite list_lookup_alter_ne in Hq' by done. simplify_eq. apply moved_refl.
Qed.

Lemma free_rr_moved now state rr n i gs gs' n' :
  current rr = Some (group rr, i) -> is_Some (peer_at gs (group rr) i) ->
  ngx_http_upstream_free_round_robin_peer now state rr n gs = (gs', n') ->
  groups_moved (fun x => - holds x (rr, true)) gs gs'.
Proof.
  intros HC [p Hp]. unfold ngx_http_upstream_free_round_robin_peer, peer_at in *. rewrite HC.
  destruct (gs !! group rr) as [g|] eqn:Eg; [|done].
  assert (HA : forall h, (forall p, moved (-1) p (h p) /\ current_weight (h p) = current_weight p) ->
    groups_moved (fun x => - holds x (rr, true)) gs
      (alter (fun g => set_peer_list (alter h i (peer_list g)) g) (group rr) gs)).
  { intros h Hh. split; [by rewrite length_alter|]. intros k g1 g2 E1 E2. unfold holds. cbn [fst snd].
    rewrite HC. destruct (decide (group rr = k)) as [<-|Hk].
    - rewrite list_lookup_alter_eq, E1 in E2. cbn in E2. simplify_eq.
      eapply group_moved_ext, alter_moved; [|done|lia]. intros j.
      repeat case_decide; done || congruence.
    - rewrite list_lookup_alter_ne in E2 by done. simplify_eq.
      eapply group_moved_ext, group_moved_refl. intros j. destruct (decide _); [congruence|done]. }
  destruct (single g); intros; simplify_eq; apply HA; intros q; split; try done.
  - repeat split; cbn; lia.
  - apply moved_release.
  - apply release_weight.
Qed.

(** *** Preservation *)

Lemma moved_lookup d gs gs' k g' :
  groups_moved d gs gs' -> gs' !! k = Some g' ->
  exists g, gs !! k = Some g /\ group_moved (fun i => d (k, i)) g g'.
Proof.
  intros [HL HM] Hk. destruct (lookup_lt_is_Some_2 gs k) as [g Hg].
  - rewrite <- HL. by eapply lookup_lt_Some.
  - exists g. split; [done|]. by apply HM.
Qed.

Lemma request_ok_moved d gs gs' r :
  groups_moved d gs gs' -> request_ok gs r -> request_ok gs' r.
Proof.
  intros HM [H1 H2]. split.
  - intros k g' Hk Hg'. destruct (moved_lookup _ _ _ _ _ HM Hg') as (g & Hg & HG).
    destruct HG as (_ & [-> _] & _). eauto.
  - intros Hr. destruct (H2 Hr) as (i & Hi & [p Hp]). exists i. split; [done|].
    unfold peer_at in *. destruct (gs !! group r.1) as [g|] eqn:Eg; [|done].
    destruct HM as [HL HM]. destruct (lookup_lt_is_Some_2 gs' (group r.1)) as [g' Hg'].
    { rewrite HL. by eapply lookup_lt_Some. }
    rewrite Hg'. cbn. destruct (HM _ _ _ Eg Hg') as (_ & _ & HN & _).
    apply lookup_lt_is_Some. rewrite HN. by eapply lookup_lt_Some.
Qed.

Lemma consistent_moved d gs gs' rs j r r' :
  consistent (mk_sys gs rs) -> groups_moved d gs gs' -> rs !! j = Some r ->
  (forall x, holds x r' = holds x r + d x) -> request_ok gs r' ->
  consistent (mk_sys gs' (<[j:=r']> rs)).
Proof.
  intros (HN & HG & HR) HM Hj Hh Hr'. unfold consistent in *. cbn [groups requests] in *. split; [|split].
  - destruct HM as [-> _]. done.
  - intros k g' Hg'. destruct (moved_lookup _ _ _ _ _ HM Hg') as (g & Hg & H1 & H2 & H3 & H4 & H5).
    destruct (HG k g Hg) as (G1 & GT & G2 & G3).
    assert (sound (peer_list g)) as Hs by (intros i p Hp; apply (G3 i p Hp)).
    split; [lia|]. split.
    { rewrite (proj2 H2), GT. symmetry. apply total_by_same; [done|]. intros i p p' Hp Hp'. by destruct (H5 i p p' Hp Hp') as (_ & _ & ? & _). }
    split; [by apply H4|]. intros i p' Hp'. destruct (lookup_lt_is_Some_2 (peer_list g) i) as [p Hp].
    { rewrite <- H3. by eapply lookup_lt_Some. }
    destruct (H5 i p p' Hp Hp') as (M1 & M2 & M3 & M4 & M5 & M6).
    pose proof (level_weight _ _ _ Hs G2 Hp) as Hw. destruct (G3 i p Hp) as (Q1 & Q2 & Q3 & Q4). unfold peer_ok, holders in *.
    rewrite (total_by_insert _ _ _ r), Hh by done. rewrite M1, M2, M3, M4. repeat split; try lia.
  - intros j' q Hq. eapply request_ok_moved; [done|].
    destruct (decide (j = j')) as [<-|Hne].
    + rewrite list_lookup_insert_eq in Hq by (by eapply lookup_lt_Some). simplify_eq. done.
    + rewrite list_lookup_insert_ne in Hq by done. eauto.
Qed.

Lemma words_one n : 0 <= n <= Z.of_nat word -> (words n <= 1)%nat.
Proof.
  intros Hn. unfold words. pose proof word_pos.
  enough ((n + (Z.of_nat word - 1)) / Z.of_nat word < 2) by lia.
  apply Z.div_lt_upper_bound; lia.
Qed.

Lemma words_mono n m : 0 <= n <= m -> (words n <= words m)%nat.
Proof.
  intros H. unfold words. pose proof word_pos. apply Z2Nat.inj_le; [apply Z.div_pos; lia..|].
  apply Z.div_le_mono; lia.
Qed.

Lemma init_peer_ok gs :
  (length gs <= 2)%nat -> (forall k g, gs !! k = Some g -> 0 <= number g) ->
  request_ok gs (ngx_http_upstream_init_round_robin_peer gs, false).
Proof.
  intros HL HN. split; [|done]. cbn [fst]. intros k g _ Hg.
  unfold ngx_http_upstream_init_round_robin_peer.
  set (n := match gs with [] => _ | _ => _ end).
  assert (Hn : 0 <= number g <= n).
  { split; [eauto|]. destruct gs as [|g0 [|g1 [|]]]; cbn in HL; try lia; subst n;
      destruct k as [|[|k]]; cbn in Hg; simplify_eq; split_ifs; lia. }
  cbn [tried]. destruct (n <=? Z.of_nat word) eqn:E; cbn [length].
  - apply words_one. lia.
  - rewrite length_replicate. by apply words_mono.
Qed.

Lemma step_consistent s s' : consistent s -> step s s' -> consistent s'.
Proof.
  intros HC HS. pose proof HC as (HN & HG & HR).
  destruct HS as [gs rs|now j rr gs rs rc rr' gs' Hj H|now state n j rr gs rs gs' n' Hj H];
    cbn [groups requests] in *.
  - split; [done|]. cbn [groups requests] in *.
    assert (HH : forall x, holders (rs ++ [(ngx_http_upstream_init_round_robin_peer gs, false)]) x
                           = holders rs x).
    { intros x. unfold holders, total_by. rewrite foldr_app. cbn [foldr holds fst snd]. done. }
    split.
    + intros k g Hg. destruct (HG k g Hg) as (G1 & GT & G2 & G3). split; [done|]. split; [done|]. split; [done|].
      intros i p Hp. rewrite HH. eauto.
    + intros j r Hr. apply lookup_app_Some in Hr as [Hr|[_ Hr]]; [eauto|].
      apply list_lookup_singleton_Some in Hr as [_ <-]. apply init_peer_ok; [done|].
      intros k g Hg. destruct (HG k g Hg) as (-> & _). lia.
  - destruct (HR _ _ Hj) as [R1 _]. apply get_rr_moved in H as (HM & Hg & HO & HL).
    specialize (HL R1). eapply consistent_moved; [done|done|done|done|].
    split; cbn [fst snd].
    + intros k g Hk Hgk. rewrite HL. apply (R1 k); [cbn; lia|done].
    + intros Hr. apply Z.eqb_eq in Hr. eauto.
  - destruct (HR _ _ Hj) as [R1 R2]. destruct (R2 eq_refl) as (i & Hi & HS).
    eapply consistent_moved; [done|by eapply free_rr_moved|done| |].
    + intros x. change (holds x (rr, false)) with 0. cbn [fst]. lia.
    + split; [done|]. done.
Qed.

(** *** The configuration *)

Definition server_ok (sv : server) : Prop :=
  0 <= s_weight sv /\ 0 <= s_max_conns sv /\ 0 <= s_max_fails sv.

Lemma make_peers_length b servers :
  number (make_peers b servers) = Z.of_nat (length (peer_list (make_peers b servers))).
Proof.
  cbn [make_peers number peer_list]. induction servers as [|sv servers IH]; [done|].
  cbn [count_addrs foldr mbind list_bind]. rewrite length_app, length_replicate.
  unfold count_addrs in IH. rewrite IH. lia.
Qed.

Lemma make_peers_in b servers p :
  p ∈ peer_list (make_peers b servers) -> exists sv, sv ∈ servers /\ p = new_peer sv.
Proof.
  cbn [make_peers peer_list]. intros (sv & Hp & Hs)%list_elem_of_bind.
  apply elem_of_replicate_inv in Hp as ->. eauto.
Qed.

(** All the peers, and the sum of their weights. *)
Definition config_size (servers : list server) : Z :=
  count_addrs servers * total_by (fun sv => Z.of_nat (naddrs sv) * s_weight sv) servers.

Lemma make_peers_weight b servers : Forall server_ok servers ->
  total_by weight (peer_list (make_peers b servers)) = total_by (fun sv => Z.of_nat (naddrs sv) * s_weight sv) servers /\
  0 <= total_by weight (peer_list (make_peers b servers)).
Proof.
  intros HF. cbn [make_peers peer_list]. induction HF as [|sv servers [H1 _] HF [IH1 IH2]]; [done|]. cbn [mbind list_bind].
  change (total_by ?f (sv :: servers)) with (f sv + total_by f servers). cbn beta.
  rewrite total_by_app, IH1. rewrite IH1 in IH2.
  assert (total_by weight (replicate (naddrs sv) (new_peer sv)) = Z.of_nat (naddrs sv) * s_weight sv) as ->; [|nia].
  induction (naddrs sv) as [|n IH]; [done|]. cbn [replicate]. unfold total_by in *. cbn [foldr]. rewrite IH. cbn. lia.
Qed.

Lemma sum_weights_exact servers : Forall server_ok servers ->
  total_by (fun sv => Z.of_nat (naddrs sv) * s_weight sv) servers < 2 ^ bits ptr_size ->
  sum_weights servers = total_by (fun sv => Z.of_nat (naddrs sv) * s_weight sv) servers.
Proof.
  intros HF. induction HF as [|sv servers [H1 _] HF IH]; [done|]. intros Hb. cbn [sum_weights total_by foldr] in *.
  fold (sum_weights servers) in *. fold (total_by (fun sv => Z.of_nat (naddrs sv) * s_weight sv) servers) in *.
  assert (0 <= total_by (fun sv => Z.of_nat (naddrs sv) * s_weight sv) servers) as H0 by (destruct (make_peers_weight false servers HF) as [<- ?]; done).
  rewrite IH by nia. apply wrapu_small. nia.
Qed.

Lemma level_start ps : sound ps -> (forall i p, ps !! i = Some p -> current_weight p = 0) ->
  total_by weight ps * Z.of_nat (length ps) <= max_value ptr_size -> level ps.
Proof.
  intros Hs H0 Hf. destruct (weights_nonneg ps Hs) as [HW _].
  assert (forall B, part B (fun _ => current_weight) ps = 0) as HP.
  { intros B. rewrite <- (part_none (fun _ => current_weight) ps). apply isum_ext. intros i p Hp. rewrite (H0 i p Hp). by destruct (B i). }
  split; [by rewrite <- part_all|done|]. intros B. rewrite HP.
  assert (0 <= card B ps <= Z.of_nat (length ps)) as HC; [|apply Z.mul_nonneg_nonneg; [done|]; apply Z.mul_nonneg_nonneg; lia]. rewrite <- card_all. unfold card.
  split; [rewrite <- (part_none (fun _ _ => 1) ps)|]; apply isum_le; intros i p _; cbn; by destruct (B i).
Qed.

Lemma make_peers_ok b servers k : Forall server_ok servers -> config_size servers <= max_value ptr_size ->
  group_ok [] k (make_peers b servers).
Proof.
  intros HF HC. pose proof (make_peers_length b servers) as HL. destruct (make_peers_weight b servers HF) as [HW H0].
  change (number (make_peers b servers)) with (count_addrs servers) in HL. unfold config_size in HC. rewrite <- HW, HL in HC.
  assert (forall i p, peer_list (make_peers b servers) !! i = Some p -> exists sv, sv ∈ servers /\ p = new_peer sv) as Hin
    by (intros i p Hp; by eapply make_peers_in, list_elem_of_lookup_2).
  rewrite list.Forall_forall in HF.
  assert (sound (peer_list (make_peers b servers))) as Hs.
  { intros i p Hp. destruct (Hin i p Hp) as (sv & Hsv & ->). destruct (HF sv Hsv). cbn. lia. }
  split; [apply make_peers_length|]. split; [|split].
  - rewrite HW. apply sum_weights_exact; [by apply list.Forall_forall|]. rewrite <- HW.
    assert (2 ^ bits ptr_size = 2 * (max_value ptr_size + 1)) as Hb by (by destruct ptr_size). pose proof (max_value_pos ptr_size).
    destruct (peer_list (make_peers b servers)) as [|p ps] eqn:E; [cbn; lia|]. cbn [length] in HC. nia.
  - apply level_start; [done| |lia]. intros i p Hp. by destruct (Hin i p Hp) as (sv & _ & ->).
  - intros i p Hp. destruct (Hin i p Hp) as (sv & Hsv & ->). destruct (HF sv Hsv) as (H1 & H2 & H3).
    repeat split; cbn; lia.
Qed.

(** A group is a part of the configuration. *)
Lemma group_size b servers : Forall server_ok servers -> config_size (group_of b servers) <= config_size servers.
Proof.
  intros HF. unfold config_size.
  assert (0 <= count_addrs (group_of b servers) <= count_addrs servers /\
    0 <= total_by (fun sv => Z.of_nat (naddrs sv) * s_weight sv) (group_of b servers) <= total_by (fun sv => Z.of_nat (naddrs sv) * s_weight sv) servers)
    as [H1 H2]; [|nia].
  induction HF as [|sv servers [H1 _] HF IH]; [done|]. unfold group_of in *. rewrite filter_cons. cbn [count_addrs total_by foldr].
  fold (count_addrs servers). fold (total_by (fun sv => Z.of_nat (naddrs sv) * s_weight sv) servers).
  destruct (decide (backup sv = b)); cbn [count_addrs total_by foldr];
    fold (count_addrs (filter (fun s => backup s = b) servers));
    fold (total_by (fun sv => Z.of_nat (naddrs sv) * s_weight sv) (filter (fun s => backup s = b) servers)); nia.
Qed.

Lemma init_consistent servers gs :
  Forall server_ok servers -> config_size servers <= max_value ptr_size ->
  ngx_http_upstream_init_round_robin servers = Some gs -> consistent (mk_sys gs []).
Proof.
  intros HF HC. unfold ngx_http_upstream_init_round_robin.
  assert (HG : forall b k c, group_ok [] k (make_peers c (group_of b servers))).
  { intros b k c. apply make_peers_ok; [|by etrans; [apply group_size|]].
    apply list.Forall_forall. intros sv [_ Hsv]%list_elem_of_filter. by eapply list.Forall_forall in HF. }
  destruct (count_addrs _ =? 0); [done|].
  destruct (count_addrs (group_of true servers) =? 0); intros [= <-]; (split; [cbn; lia|split; [|done]]);
    intros k g Hg; cbn [groups] in Hg.
  - apply list_lookup_singleton_Some in Hg as [-> <-]. by apply HG.
  - destruct k as [|[|k]]; cbn in Hg; simplify_eq; by apply HG.
Qed.

End System.

(** ** Which peer is chosen *)

Section Choice.
Context `{P : Platform}.
Variable now : Z.

(** The peers of a group that may be chosen. *)
Definition eligible (t : list Z) (g : peers) (i : nat) (p : peer) : Prop :=
  peer_list g !! i = Some p /\
  if single g then i = 0%nat /\ down p = false /\ has_slot p else skip now t i p = false.

Definition none_eligible (t : list Z) (g : peers) : Prop := forall i p, ~ eligible t g i p.

(** The first of the heaviest, marked as tried. *)
Definition chosen (t : list Z) (g : peers) (i : nat) (t' : list Z) : Prop :=
  exists p, eligible t g i p /\
    (single g = false -> t' = mark t i /\
     forall j q, eligible t g j q -> gain q <= gain p /\ ((j < i)%nat -> gain q < gain p)).

Lemma get_in_group_choice t g o g' t' :
  get_in_group now t g = (o, g', t') ->
  match o with
  | None => none_eligible t g /\ t' = t
  | Some i => chosen t g i t'
  end.
Proof.
  unfold get_in_group, none_eligible, chosen, eligible. destruct (single g) eqn:Es.
  - destruct (peer_list g) as [|p ps] eqn:Eg; [intros; simplify_eq; split; [|done]; by intros i p []|].
    destruct (down p || _) eqn:E; intros; simplify_eq.
    + split; [|done]. intros i q (Hq & -> & Hd & Hs). cbn in Hq. simplify_eq. unfold has_slot in Hs. lia.
    + exists p. repeat split; try done; unfold has_slot; lia.
  - destruct (ngx_http_upstream_get_peer now t (peer_list g)) as [[o1 ps1] t1] eqn:E.
    intros; simplify_eq. apply get_peer_spec in E. destruct o as [i|].
    + destruct E as (-> & _ & p & Hp & Hk & HB). exists p. split; [done|]. intros _.
      split; [done|]. intros j q [Hq Hk']. eauto.
    + destruct E as (_ & -> & HN). split; [|done]. intros i p [Hp Hk]. rewrite (HN i p Hp) in Hk. done.
Qed.

Lemma tried_clear g t i : (i < length (peer_list g))%nat ->
  number g = Z.of_nat (length (peer_list g)) ->
  tried_at (clear (words (number g)) t) i = false.
Proof.
  intros Hi HN. unfold tried_at. rewrite land_bit by lia. unfold clear. rewrite nth_lookup.
  rewrite lookup_app_l by (rewrite length_replicate, HN; by apply words_enough).
  rewrite lookup_replicate_2 by (rewrite HN; by apply words_enough). apply Z.bits_0.
Qed.

Lemma tried_nil i : tried_at [] i = false.
Proof. unfold tried_at. rewrite land_bit by lia. by destruct (i / word)%nat; cbn; rewrite Z.bits_0. Qed.

(** The bits of the group before mean nothing after they are cleared. *)
Lemma eligible_clear g t i p : number g = Z.of_nat (length (peer_list g)) ->
  eligible (clear (words (number g)) t) g i p <-> eligible [] g i p.
Proof.
  intros HN. unfold eligible. split; intros [Hp H]; (split; [done|]);
    (destruct (single g); [done|]); unfold skip in *.
  all: rewrite tried_nil, tried_clear in * by (done || by eapply lookup_lt_Some); done.
Qed.

(** [m]th group from the one where the search starts. *)
Definition tried_in (t : list Z) (m : nat) : list Z := match m with O => t | S _ => [] end.

Lemma get_from_choice gs : forall k cur t rc rr gs',
  (forall m g, gs !! m = Some g -> number g = Z.of_nat (length (peer_list g))) ->
  get_from now k cur t gs = (rc, rr, gs') ->
  (rc = NGX_OK /\ exists m i g,
     current rr = Some ((k + m)%nat, i) /\ group rr = (k + m)%nat /\ gs !! m = Some g /\
     (exists p, eligible (tried_in t m) g i p /\
        (single g = false -> forall j q, eligible (tried_in t m) g j q ->
           gain q <= gain p /\ ((j < i)%nat -> gain q < gain p))) /\
     (single g = false -> exists t0, tried rr = mark t0 i /\ length t0 = length (tried rr) /\
        forall j, (j < length (peer_list g))%nat -> tried_at t0 j = tried_at (tried_in t m) j) /\
     forall n h, (n < m)%nat -> gs !! n = Some h -> none_eligible (tried_in t n) h)
  \/ (rc = NGX_BUSY /\ forall n h, gs !! n = Some h -> none_eligible (tried_in t n) h).
Proof.
  induction gs as [|g gs IH]; intros k cur t rc rr gs' HN H; cbn [get_from] in H.
  { simplify_eq. right. split; [done|]. by intros n h Hn. }
  destruct (get_in_group now t g) as [[o g1] t1] eqn:E. apply get_in_group_choice in E.
  destruct o as [i|].
  - simplify_eq. left. split; [done|]. exists 0%nat, i, g. rewrite Nat.add_0_r.
    destruct E as (p & Hp & HB). do 3 (split; [done|]). split; [|split].
    + exists p. split; [done|]. intros Hs. by apply HB.
    + intros Hs. destruct (HB Hs) as [-> _]. exists t. cbn. rewrite mark_length. done.
    + lia.
  - destruct E as [HE ->]. destruct gs as [|g2 gs].
    + simplify_eq. right. split; [done|]. intros [|n] h Hh; cbn in Hh; [by simplify_eq|done].
    + destruct (get_from now (S k) cur _ (g2 :: gs)) as [[rc0 rr0] gs0] eqn:EF. simplify_eq.
      pose proof (HN 1%nat g2 eq_refl) as HN2.
      assert (HT : forall m h i p, (g2 :: gs) !! m = Some h ->
        eligible (tried_in (clear (words (number g2)) t) m) h i p <->
        eligible (tried_in t (S m)) h i p).
      { intros [|m] h i p Hh; cbn in *; [|done]. simplify_eq. by apply eligible_clear. }
      apply IH in EF; [|intros m h Hm; by apply (HN (S m))].
      destruct EF as [(-> & m & i & h & HC & HG & Hh & (p & Hp & HB) & HM & HB0)|[-> HB0]];
        [left|right]; (split; [done|]).
      * exists (S m), i, h. replace (k + S m)%nat with (S k + m)%nat by lia. do 3 (split; [done|]).
        split; [|split].
        -- exists p. rewrite <- HT by done. split; [done|]. intros Hs j q Hq.
           rewrite <- HT in Hq by done. eauto.
        -- intros Hs. destruct (HM Hs) as (t0 & Ht & HL & HA). exists t0. split; [done|]. split; [done|].
           intros j Hj. rewrite HA by done. destruct m; cbn in *; [|done]. simplify_eq.
           rewrite tried_nil. by apply tried_clear.
        -- intros [|n] h' Hn Hh'; cbn in Hh'; [by simplify_eq|]. intros j q Hq.
           rewrite <- HT in Hq by done. eapply HB0; [|done|done]. lia.
      * intros [|n] h' Hh'; cbn in Hh'; [by simplify_eq|]. intros j q Hq.
        rewrite <- HT in Hq by done. by eapply HB0.
Qed.

End Choice.

(** ** Fairness *)

Section Fairness.
Context `{P : Platform}.

(** What happens to the upstream: a new request gets its peer, or a peer of
    the main group is given back by a request that succeeded. *)
Inductive event := Request (now : Z) | Done (now : Z) (i : nat).

(** The peers that the requests got, and the groups. *)
Fixpoint serve (evs : list event) (gs : list peers)
    : list (option (nat * nat)) * list peers :=
  match evs with
  | [] => ([], gs)
  | Request now :: evs' =>
      let '(rc, rr, gs') := ngx_http_upstream_get_round_robin_peer now
                              (ngx_http_upstream_init_round_robin_peer gs) gs in
      let '(c, gs'') := serve evs' gs' in
      ((if rc =? NGX_OK then current rr else None) :: c, gs'')
  | Done now i :: evs' =>
      let '(gs', _) := ngx_http_upstream_free_round_robin_peer now 0
                         (mk_rr 0 (Some (0%nat, i)) []) 1 gs in
      serve evs' gs'
  end.

Definition picked (i : nat) (c : list (option (nat * nat))) : Z :=
  total_by (fun x => if decide (x = Some (0%nat, i)) then 1 else 0) c.

Lemma picked_cons i x c :
  picked i (x :: c) = (if decide (x = Some (0%nat, i)) then 1 else 0) + picked i c.
Proof. done. Qed.

(** A peer that works, without a limit. *)
Definition steady (p : peer) : Prop :=
  0 < weight p /\ effective_weight p = weight p /\ down p = false /\ max_conns p = 0 /\
  fails p = 0 /\ 0 <= max_fails p.

Definition sum (ws : list Z) : Z := total_by (fun w => w) ws.

(** After [k] requests, of which [n i] went to the peer [i], [ws] being the
    weights. *)
Definition balanced (ws : list Z) (k : Z) (n : nat -> Z) (ps : list peer) : Prop :=
  weight <$> ps = ws /\ level ps /\
  forall i p, ps !! i = Some p ->
    steady p /\ current_weight p = k * weight p - n i * sum ws /\ - sum ws < current_weight p.

Lemma sum_weights_peers ps : total_by weight ps = sum (weight <$> ps).
Proof. induction ps as [|p ps IH]; [done|]. unfold sum, total_by in *. cbn in *. by rewrite IH. Qed.

Lemma total_by_pos {A} (f : A -> Z) (l : list A) :
  0 < total_by f l -> exists i x, l !! i = Some x /\ 0 < f x.
Proof.
  induction l as [|x l IH]; intros H; cbn in H; [lia|]. fold (total_by f l) in H.
  destruct (decide (0 < f x)) as [Hx|Hx].
  - exists 0%nat, x. done.
  - destruct IH as (i & y & Hy & Hp); [lia|]. by exists (S i), y.
Qed.

Lemma total_by_le {A} (f : A -> Z) (l : list A) :
  (forall i x, l !! i = Some x -> 0 <= f x) ->
  0 <= total_by f l /\ forall i x, l !! i = Some x -> f x <= total_by f l.
Proof.
  induction l as [|y l IH]; intros Hn; [done|]. cbn. fold (total_by f l).
  pose proof (Hn 0%nat y eq_refl) as Hy. destruct (IH (fun i => Hn (S i))) as [Hl HI].
  split; [lia|]. intros [|i] x Hx; cbn in Hx; [simplify_eq; lia|]. apply HI in Hx. lia.
Qed.

Lemma total_by_add {A} (f g : A -> Z) (l : list A) :
  total_by (fun x => f x + g x) l = total_by f l + total_by g l.
Proof. induction l as [|x l IH]; cbn; [done|]. unfold total_by in IH. rewrite IH. lia. Qed.

(** At the end of a round everybody has had its share. *)
Lemma balanced_round ws c n ps i p :
  balanced ws (c * sum ws) n ps -> 0 < sum ws -> ps !! i = Some p -> n i = c * weight p.
Proof.
  intros (_ & H0%level_zero & HB) Hpos Hp. set (W := sum ws) in *.
  assert (HZ : current_weight p = 0).
  { assert (Hn : forall j q, ps !! j = Some q -> 0 <= current_weight q);
      [|apply total_by_le in Hn as HL; destruct HL as [_ HL]; apply HL in Hp as ?; apply Hn in Hp; lia].
    intros j q Hq. destruct (HB j q Hq) as (_ & E & Hlt).
    replace (c * W * weight q - n j * W) with (W * (c * weight q - n j)) in E by ring.
    rewrite E in *. apply Z.mul_nonneg_nonneg; [lia|]. nia. }
  destruct (HB i p Hp) as (_ & E & _). rewrite HZ in E.
  replace (c * W * weight p - n i * W) with (W * (c * weight p - n i)) in E by ring. nia.
Qed.

Lemma steady_eligible now t i p : tried_at t i = false -> steady p -> skip now t i p = false.
Proof. intros Ht (H1 & H2 & H3 & H4 & H5 & H6). unfold skip. rewrite Ht, H3. lia. Qed.

Lemma steady_sound ps : (forall i p, ps !! i = Some p -> steady p) -> sound ps.
Proof. intros Hs i p Hp. destruct (Hs i p Hp) as (H1 & H2 & _). lia. Qed.

Lemma added_steady now t ps : (forall i, tried_at t i = false) -> level ps ->
  (forall i p, ps !! i = Some p -> steady p) -> added now t ps = total_by weight ps.
Proof.
  intros Ht HL Hs. pose proof (level_total ps (steady_sound ps Hs) HL) as HT. unfold added.
  assert (H : forall k, foldr Z.add 0 (imap (fun j p => if skip now t (k + j) p then 0
                                      else effective_weight p) ps) = total_by weight ps).
  { clear HL HT. induction ps as [|p ps IH]; intros k; [done|]. cbn [imap foldr total_by].
    rewrite steady_eligible by (done || by apply (Hs 0%nat)).
    destruct (Hs 0%nat p eq_refl) as (_ & -> & _). fold (total_by weight ps). f_equal.
    rewrite <- (IH (fun i => Hs (S i)) (S k)). f_equal. apply imap_ext. intros j q _. cbn.
    by replace (k + S j)%nat with (S (k + j)) by lia. }
  pose proof (H 0%nat) as H0. cbn [Nat.add] in H0. rewrite H0. apply to_signed_id. lia.
Qed.

Lemma steady_bump p : steady p -> steady (bump p).
Proof. intros (H1 & H2 & H3 & H4 & H5 & H6). unfold steady. cbn. split_if; lia. Qed.

(** The peer chosen is paid for by the others. *)
Lemma get_peer_balanced now t ws k n ps o ps' t' :
  (forall i, tried_at t i = false) -> balanced ws k n ps -> 0 < sum ws ->
  ngx_http_upstream_get_peer now t ps = (o, ps', t') ->
  exists i, o = Some i /\ (i < length ps)%nat /\
    balanced ws (k + 1) (fun j => if decide (i = j) then n j + 1 else n j) ps'.
Proof.
  intros Ht (Hws & H0 & HB) Hpos H. pose proof (sum_weights_peers ps) as HW. rewrite Hws in HW.
  assert (Hs : forall i p, ps !! i = Some p -> steady p) by (intros i p Hp; by destruct (HB i p Hp)).
  pose proof (steady_sound ps Hs) as Hso. pose proof (get_peer_level _ _ _ _ _ _ Hso H0 H) as HT.
  pose proof (level_zero ps H0) as Hz. pose proof (gain_exact ps Hso H0) as Hgain.
  pose proof (choose_exact now t ps Hso H0) as HC. apply get_peer_spec in H.
  assert (Hk : forall i p, ps !! i = Some p -> skip now t i p = false)
    by (intros i p Hp; apply steady_eligible; eauto).
  destruct (total_by_pos gain ps) as (j & q & Hq & Hg).
  { assert (total_by gain ps = total_by (fun p => current_weight p + effective_weight p) ps) as ->.
    { apply total_by_ext. intros i p Hp. by apply (Hgain i). }
    rewrite total_by_add, Hz. replace (total_by effective_weight ps) with (sum ws); [lia|].
    rewrite <- HW. clear -Hs. induction ps as [|p ps IH]; [done|]. cbn.
    destruct (Hs 0%nat p eq_refl) as (_ & -> & _). unfold total_by in IH.
    by rewrite (IH (fun i => Hs (S i))). }
  destruct o as [i|].
  2: { destruct H as (_ & _ & H). specialize (H j q Hq). rewrite (Hk j q Hq) in H. done. }
  destruct H as (_ & -> & p & Hp & _ & HM). rewrite added_steady, HW in * by done.
  exists i. split; [done|]. split; [by eapply lookup_lt_Some|].
  assert (HP : forall m x, ps !! m = Some x -> passed now t m x = bump x)
    by (intros m x Hx; unfold passed; by rewrite (Hk m x Hx)).
  split; [|split; [done|]].
  - rewrite fmap_alter_same, <- Hws by done. apply list_eq. intros m.
    rewrite !list_lookup_fmap, list_lookup_imap. destruct (ps !! m) as [x|] eqn:Ex; [|done].
    cbn. by rewrite HP.
  - intros m x' Hx. destruct (decide (i = m)) as [<-|Hm].
    + rewrite list_lookup_alter_eq, list_lookup_imap, Hp in Hx. cbn in Hx. simplify_eq.
      specialize (HC i p Hp (Hk i p Hp)). unfold gains in HC. rewrite (Hk i p Hp) in HC. rewrite HP in * by done.
      destruct (HB i p Hp) as (S1 & S2 & S3). destruct (HM j q Hq (Hk j q Hq)) as [HG _]. rewrite (Hgain i p Hp) in HG.
      destruct (steady_bump p S1) as (B1 & B2 & B3 & B4 & B5 & B6). destruct S1 as (_ & S1 & _).
      split; [done|]. rewrite HC, S1 in *. change (weight (choose _ _ (bump p))) with (weight p). split; lia.
    + rewrite list_lookup_alter_ne, list_lookup_imap in Hx by done.
      destruct (ps !! m) as [x|] eqn:Ex; [|done]. cbn in Hx. simplify_eq. rewrite HP by done.
      destruct (HB m x Ex) as (S1 & S2 & S3). split; [by apply steady_bump|].
      destruct S1 as (S0 & S1 & _). change (current_weight (bump x)) with (gain x). rewrite (Hgain m x Ex), S1.
      change (weight (bump x)) with (weight x). lia.
Qed.

(** *** Events *)

Lemma tried_zero t i : Forall (fun w => w = 0) t -> tried_at t i = false.
Proof.
  intros HF. unfold tried_at. rewrite land_bit, nth_lookup by lia.
  destruct (t !! _) as [w|] eqn:E; cbn; [|apply Z.bits_0].
  rewrite (Forall_lookup_1 _ _ _ _ HF E). apply Z.bits_0.
Qed.

Lemma init_tried gs i : tried_at (tried (ngx_http_upstream_init_round_robin_peer gs)) i = false.
Proof.
  apply tried_zero. unfold ngx_http_upstream_init_round_robin_peer. cbn [tried].
  destruct (_ <=? _); [by repeat constructor|by apply Forall_replicate].
Qed.

(** What [conns], [fails] and [checked] may do without disturbing the weights. *)
Definition similar (p p' : peer) : Prop :=
  current_weight p' = current_weight p /\ weight p' = weight p /\ (steady p -> steady p').

Lemma alter_balanced ws k n ps h i :
  (forall p, similar p (h p)) -> balanced ws k n ps -> balanced ws k n (alter h i ps).
Proof.
  intros Hh (HW & H0 & HB).
  split; [rewrite fmap_alter_same; [done|]; intros p; apply Hh|]. split.
  { apply level_alter; [|done]. intros p. destruct (Hh p) as (H1 & H2 & _). done. }
  intros j p Hp. destruct (decide (i = j)) as [<-|Hj].
  - rewrite list_lookup_alter_eq in Hp. destruct (ps !! i) as [q|] eqn:Eq; [|done].
    cbn in Hp. simplify_eq. destruct (Hh q) as (E1 & E2 & E3), (HB i q Eq) as (B1 & B2 & B3).
    rewrite E1, E2. auto.
  - rewrite list_lookup_alter_ne in Hp by done. eauto.
Qed.

Lemma similar_conns d p : similar p (add_conns d p).
Proof. done. Qed.

Lemma similar_release now p : similar p (release now 0 p).
Proof.
  do 2 (split; [done|]). intros (H1 & H2 & H3 & H4 & H5 & H6). unfold steady, release.
  change (Z.land 0 NGX_PEER_FAILED =? 0) with true. cbn. repeat split; try done. by split_if.
Qed.

(** The main group while it serves. *)
Definition serving (ws : list Z) (k : Z) (n : nat -> Z) (g : peers) : Prop :=
  single g = false /\ balanced ws k n (peer_list g).

Lemma request_balanced now ws k n g gs rc rr gs' :
  0 < sum ws -> serving ws k n g ->
  ngx_http_upstream_get_round_robin_peer now (ngx_http_upstream_init_round_robin_peer (g :: gs))
    (g :: gs) = (rc, rr, gs') ->
  rc = NGX_OK /\ exists i g', current rr = Some (0%nat, i) /\ gs' = g' :: gs /\
    serving ws (k + 1) (fun j => if decide (i = j) then n j + 1 else n j) g'.
Proof.
  intros Hpos [Hs HB]. unfold ngx_http_upstream_get_round_robin_peer.
  set (rr0 := ngx_http_upstream_init_round_robin_peer (g :: gs)).
  change (group rr0) with 0%nat. cbn [take drop app get_from]. unfold get_in_group. rewrite Hs.
  destruct (ngx_http_upstream_get_peer now (tried rr0) (peer_list g)) as [[o ps] t] eqn:E.
  destruct (get_peer_balanced _ _ _ _ _ _ _ _ _ (init_tried (g :: gs)) HB Hpos E) as (i & -> & Hi & HB').
  intros H. simplify_eq. split; [done|]. eexists i, _. split; [done|]. split; [done|].
  split; [done|]. cbn. by apply alter_balanced.
Qed.

Lemma done_balanced now i ws k n g gs gs' n' :
  serving ws k n g ->
  ngx_http_upstream_free_round_robin_peer now 0 (mk_rr 0 (Some (0%nat, i)) []) 1 (g :: gs) = (gs', n') ->
  exists g', gs' = g' :: gs /\ serving ws k n g'.
Proof.
  intros [Hs HB]. cbn. rewrite Hs. intros H. simplify_eq. eexists. split; [done|].
  split; [done|]. cbn. apply alter_balanced; [apply similar_release|done].
Qed.

Lemma serve_balanced evs : forall ws k n g gs c gs',
  0 < sum ws -> serving ws k n g -> serve evs (g :: gs) = (c, gs') ->
  Forall (fun x => exists i, x = Some (0%nat, i)) c /\
  exists g', head gs' = Some g' /\
    serving ws (k + Z.of_nat (length c)) (fun i => n i + picked i c) g'.
Proof.
  induction evs as [|[now|now i] evs IH]; intros ws k n g gs c gs' Hpos HS H; cbn [serve] in H.
  - simplify_eq. split; [done|]. exists g. split; [done|].
    destruct HS as (H1 & H2 & H3 & H4). split; [done|]. split; [done|]. split; [done|].
    intros i p Hp. cbn. rewrite !Z.add_0_r. eauto.
  - destruct (ngx_http_upstream_get_round_robin_peer _ _ _) as [[rc rr] gs1] eqn:E.
    apply (request_balanced _ ws k n) in E as (-> & i & g1 & Hc & -> & HS1); [|done..].
    destruct (serve evs (g1 :: gs)) as [c1 gs2] eqn:E2. simplify_eq.
    apply (IH ws _ _ _ _ _ _ Hpos HS1) in E2 as (HF & g2 & Hg2 & HS2).
    split; [constructor; [by exists i|done]|]. exists g2. split; [done|].
    destruct HS2 as (H1 & H2 & H3 & H4). split; [done|]. split; [done|]. split; [done|].
    intros j p Hp. destruct (H4 j p Hp) as (G1 & G2 & G3). split; [done|]. split; [|done].
    rewrite G2, picked_cons, Hc. cbn [length]. change (NGX_OK =? NGX_OK) with true. cbv iota.
    repeat case_decide; simplify_eq; lia.
  - destruct (ngx_http_upstream_free_round_robin_peer _ _ _ _ _) as [gs1 n1] eqn:E.
    apply (done_balanced _ _ ws k n) in E as (g1 & -> & HS1); [|done]. eauto.
Qed.

End Fairness.

Section Properties.
Context `{P : Platform}.

(** C10: the accounts of the balancer are right in every reachable state,
    however requests that ask for peers, give them back, as failed or not,
    and ask again interleave, for a configuration whose number of addresses
    times the sum of whose weights is an ngx_int_t: the current weights of a
    group add up to zero and those of any [c] of its [n] peers to at most
    [W * c * (n - c)], [W] being the total weight, so that the additions and
    subtractions of weights, which wrap around in the definitions, never do;
    an effective weight stays between 0 and the weight configured, [conns] of
    a peer is the number of requests that hold it and never exceeds
    [max_conns], a request that holds a peer holds one of its current group,
    and the bits in [tried] of all the peers a request may still try lie
    inside the array allocated for it. *)
Theorem round_robin_invariant servers gs s :
  Forall server_ok servers -> config_size servers <= max_value ptr_size ->
  ngx_http_upstream_init_round_robin servers = Some gs ->
  rtc step (mk_sys gs []) s -> consistent s.
Proof.
  intros HF HC HI HR. apply (init_consistent _ _ HF HC) in HI.
  induction HR as [|s1 s2 s3 HS _ IH]; [done|]. eauto using step_consistent.
Qed.

(** which peer a request gets.  The search goes through the group the
    request is at and, when no peer there may be chosen, through the backup
    group, whose peers it has not tried; it fails with NGX_BUSY exactly when
    no peer of these groups is up, below its limit of connections and, in a
    group of several, not disabled by its failures and not tried before.
    Otherwise it returns, of the peers of the first group with any, the first
    that has the largest weight, and marks that one and no other as tried, so
    that a request never tries a peer twice. *)
Theorem round_robin_choice now rr gs rc rr' gs' :
  (forall k g, gs !! k = Some g -> number g = Z.of_nat (length (peer_list g))) ->
  request_ok gs (rr, false) ->
  ngx_http_upstream_get_round_robin_peer now rr gs = (rc, rr', gs') ->
  let t k := if decide (k = group rr) then tried rr else [] in
  (rc = NGX_OK /\ exists k i g p,
     current rr' = Some (k, i) /\ (group rr <= k)%nat /\ gs !! k = Some g /\
     eligible now (t k) g i p /\
     (single g = false ->
        (forall j q, eligible now (t k) g j q ->
           gain q <= gain p /\ ((j < i)%nat -> gain q < gain p)) /\
        (forall j, (j < length (peer_list g))%nat ->
           tried_at (tried rr') j = bool_decide (i = j) || tried_at (t k) j)) /\
     forall m h, (group rr <= m < k)%nat -> gs !! m = Some h -> none_eligible now (t m) h)
  \/ (rc = NGX_BUSY /\
      forall m h, (group rr <= m)%nat -> gs !! m = Some h -> none_eligible now (t m) h).
Proof.
  intros HN [HR _] H t. pose proof (get_rr_moved _ _ _ _ _ _ H) as (_ & _ & _ & HL).
  specialize (HL HR). unfold ngx_http_upstream_get_round_robin_peer in H.
  destruct (get_from now _ _ _ _) as [[rc0 rr0] gs0] eqn:E. simplify_eq.
  assert (Ht : forall m, tried_in (tried rr) m = t (group rr + m)%nat).
  { intros [|m]; unfold t; cbn; case_decide; done || lia. }
  assert (HD : forall m h, (group rr <= m)%nat -> gs !! m = Some h ->
                           drop (group rr) gs !! (m - group rr)%nat = Some h)
    by (intros m h Hm Hh; rewrite lookup_drop; by replace (group rr + (m - group rr))%nat with m by lia).
  assert (HE : forall m, (group rr <= m)%nat -> tried_in (tried rr) (m - group rr) = t m)
    by (intros m Hm; rewrite Ht; f_equal; lia).
  apply get_from_choice in E; [|intros m g Hm; rewrite lookup_drop in Hm; eauto].
  destruct E as [(-> & m & i & g & HC & _ & Hg & (p & Hp & HB) & HM & HO)|[-> HO]];
    [left|right]; (split; [done|]).
  - rewrite lookup_drop in Hg. exists (group rr + m)%nat, i, g, p. rewrite <- Ht.
    do 4 (split; [done || lia|]). split.
    + intros Hs. split; [by apply HB|]. destruct (HM Hs) as (t0 & Et & Hlen & HA).
      intros j Hj. rewrite Et, tried_mark, HA; [done|done|].
      destruct Hp as [Hp _]. apply lookup_lt_Some in Hp.
      pose proof (words_enough _ _ Hp) as HW. rewrite <- (HN _ _ Hg) in HW.
      pose proof (HR (group rr + m)%nat g ltac:(cbn; lia) Hg). cbn in *. lia.
    + intros n h Hn Hh. rewrite <- HE by lia. apply HO; [lia|]. apply HD; [lia|done].
  - intros n h Hn Hh. rewrite <- HE by lia. by apply HO, HD.
Qed.

(** C11: The balancing is fair among peers that work steadily, that is, with
    positive weights that nothing has lowered, none down, without failures and
    without limits of connections.  From current weights of zero, and while
    requests succeed, they are spread by weight, whenever earlier ones are
    finished: all are served by the main group, which has several peers; no
    peer is ever a full request ahead of its share (of [k] requests it got
    less than [k * weight / W + 1], [W] being the sum of the weights), and
    after each round of [W] requests every peer has had exactly its weight.
    The number of peers times [W] is an ngx_int_t, so that nothing wraps. *)
Theorem round_robin_fair evs g gs c gs' i p :
  single g = false -> Forall steady (peer_list g) ->
  Forall (fun q => current_weight q = 0) (peer_list g) ->
  total_by weight (peer_list g) * Z.of_nat (length (peer_list g)) <= max_value ptr_size ->
  serve evs (g :: gs) = (c, gs') -> peer_list g !! i = Some p ->
  let W := total_by weight (peer_list g) in
  let k := Z.of_nat (length c) in
  Forall (fun x => exists j, x = Some (0%nat, j)) c /\
  W * picked i c < k * weight p + W /\
  (forall r, k = r * W -> picked i c = r * weight p).
Proof.
  intros Hs HF H0 Hmax HS Hp W k.
  assert (HW : W = sum (weight <$> peer_list g)) by apply sum_weights_peers.
  assert (Hpos : 0 < W).
  { destruct (Forall_lookup_1 _ _ _ _ HF Hp) as [Hw _].
    destruct (total_by_le weight (peer_list g)) as [_ HL]; [|apply HL in Hp; unfold W; lia].
    intros j q Hq. pose proof (Forall_lookup_1 _ _ _ _ HF Hq) as (? & _). lia. }
  assert (HB : serving (weight <$> peer_list g) 0 (fun _ => 0) g).
  { split; [done|]. split; [done|]. rewrite <- HW. split.
    - apply level_start; [|intros j q Hq; exact (Forall_lookup_1 _ _ _ _ H0 Hq)|done].
      apply steady_sound. intros j q Hq. exact (Forall_lookup_1 _ _ _ _ HF Hq).
    - intros j q Hq. pose proof (Forall_lookup_1 _ _ _ _ HF Hq) as Hst.
      pose proof (Forall_lookup_1 _ _ _ _ H0 Hq) as Hcw. cbn in Hcw. split; [done|]. lia. }
  rewrite HW in Hpos. destruct (serve_balanced _ _ _ _ _ _ _ _ Hpos HB HS) as (Hc & g' & _ & _ & Hb).
  split; [done|]. rewrite Z.add_0_l in Hb. fold k in Hb.
  assert (Hp' : exists p', peer_list g' !! i = Some p' /\ weight p' = weight p).
  { destruct Hb as (Hws & _). pose proof (f_equal (lookup i) Hws) as Hi.
    rewrite !list_lookup_fmap, Hp in Hi. destruct (peer_list g' !! i) as [p'|]; [|done].
    exists p'. split; [done|]. cbn in Hi. congruence. }
  destruct Hp' as (p' & Hp' & Hw). split.
  - destruct Hb as (_ & _ & Hb). destruct (Hb i p' Hp') as (_ & E & Hlt). rewrite <- HW in *. lia.
  - intros r Hr. rewrite HW in Hr. rewrite Hr in Hb.
    pose proof (balanced_round _ _ _ _ _ _ Hb Hpos Hp') as HR. cbn in HR. lia.
Qed.

End Properties.

(** Three servers and a backup one. *)
Definition sample_servers : list server :=
  [mk_server false 1 5 0 1 10 false; mk_server false 1 1 2 1 10 false;
   mk_server true 2 1 0 1 10 false; mk_server false 1 1 0 1 10 false].

Definition sample_groups : list peers :=
  match @ngx_http_upstream_init_round_robin lp64 sample_servers with Some gs => gs | None => [] end.

Definition sample_get : Z * rr_data * list peers :=
  @ngx_http_upstream_get_round_robin_peer lp64 100
    (@ngx_http_upstream_init_round_robin_peer lp64 sample_groups) sample_groups.

(** The order for the weights 5, 1 and 1. *)
Example serve_1 :
  fst (@serve lp64 (replicate 8 (Request 100)) sample_groups)
  = (fun i => Some (0%nat, i)) <$> [0; 0; 1; 0; 2; 0; 0; 0]%nat.
Proof. vm_compute. reflexivity. Qed.

Lemma round_robin_invariant_witness :
  @consistent lp64
    (mk_sys (snd sample_get) [(snd (fst sample_get), true)]).
Proof.
  apply (@round_robin_invariant lp64 sample_servers sample_groups).
  - repeat (constructor; [split; cbn; lia|]). constructor.
  - vm_compute. discriminate.
  - reflexivity.
  - eapply rtc_l; [apply (@Step_new lp64 sample_groups [])|].
    eapply rtc_l; [|apply rtc_refl].
    apply (@Step_get lp64 100 0%nat
      (@ngx_http_upstream_init_round_robin_peer lp64 sample_groups) sample_groups
      [(@ngx_http_upstream_init_round_robin_peer lp64 sample_groups, false)]
      NGX_OK (snd (fst sample_get)) (snd sample_get)); vm_compute; reflexivity.
Defined.

Lemma round_robin_choice_witness :
  let rr := @ngx_http_upstream_init_round_robin_peer lp64 sample_groups in
  let rr' := snd (fst sample_get) in
  let t k := if decide (k = group rr) then tried rr else [] in
  (NGX_OK = NGX_OK /\ exists k i g p,
     current rr' = Some (k, i) /\ (group rr <= k)%nat /\ sample_groups !! k = Some g /\
     @eligible lp64 100 (t k) g i p /\
     (single g = false ->
        (forall j q, @eligible lp64 100 (t k) g j q ->
           @gain lp64 q <= @gain lp64 p /\ ((j < i)%nat -> @gain lp64 q < @gain lp64 p)) /\
        (forall j, (j < length (peer_list g))%nat ->
           @tried_at lp64 (tried rr') j = bool_decide (i = j) || @tried_at lp64 (t k) j)) /\
     forall m h, (group rr <= m < k)%nat -> sample_groups !! m = Some h ->
       @none_eligible lp64 100 (t m) h)
  \/ (NGX_OK = NGX_BUSY /\
      forall m h, (group rr <= m)%nat -> sample_groups !! m = Some h ->
        @none_eligible lp64 100 (t m) h).
Proof.
  apply (@round_robin_choice lp64 100 (@ngx_http_upstream_init_round_robin_peer lp64 sample_groups)
           sample_groups NGX_OK (snd (fst sample_get)) (snd sample_get)).
  - intros [|[|k]] g Hg; vm_compute in Hg; try discriminate; injection Hg as <-; reflexivity.
  - split; [|discriminate]. intros [|[|k]] g _ Hg; vm_compute in Hg; try discriminate;
      injection Hg as <-; vm_compute; repeat constructor.
  - vm_compute. reflexivity.
Defined.

Lemma round_robin_fair_witness :
  let g := @make_peers lp64 false (group_of false [mk_server false 1 5 0 1 10 false;
                                             mk_server false 1 1 0 1 10 false]) in
  let evs := [Request 1; Request 2; Done 3 0; Request 4; Request 5; Request 6; Request 7] in
  let c := fst (@serve lp64 evs [g]) in
  let W := total_by weight (peer_list g) in
  let k := Z.of_nat (length c) in
  Forall (fun x => exists j, x = Some (0%nat, j)) c /\
  W * picked 0 c < k * weight (mk_peer 0 5 5 0 0 0 0 0 1 10 false) + W /\
  (forall r, k = r * W -> picked 0 c = r * weight (mk_peer 0 5 5 0 0 0 0 0 1 10 false)).
Proof.
  intros g evs c.
  apply (@round_robin_fair lp64 evs g [] c (snd (@serve lp64 evs [g])) 0%nat);
    [reflexivity| | |vm_compute; discriminate|vm_compute; reflexivity|reflexivity].
  - repeat (constructor; [repeat split; cbn; lia|]). constructor.
  - repeat constructor.
Defined.

End RoundRobin.
